(* ===== verification/_CoqProject ===== *)
-Q . S2P
Prelude.v
Endian.v
Intset.v
Util.v
Ziplist.v
ZiplistRep.v
ZiplistPayload.v
ZiplistUpdate.v
ZiplistDelete.v
ZiplistRead.v
ZiplistSpec.v
Crc.v
Dict.v
DictMap.v
DictScan.v
Robj.v
Skiplist.v
SkiplistRep.v
SkiplistUpdate.v
SkiplistDelete.v
SkiplistOrder.v
SkiplistOps.v
SkiplistSpec.v
Sds.v
SdsRep.v
SdsArgs.v
SdsSpec.v
Glob.v
Adlist.v
AdlistSpec.v
Lzf.v
LzfSpec.v
Zipmap.v
ZipmapSpec.v
Rio.v
RioSpec.v
Rdb.v
RdbScalar.v
RdbSpec.v
RdbDouble.v
Networking.v
NetworkingSpec.v
NetworkingInline.v
Aof.v
AofBuffer.v
AofSpec.v
AofLoad.v
Reply.v
ReplySpec.v
ReplyOps.v
ReplySend.v
ReplyDefer.v
ReplyHistory.v
ReplyClients.v
Replication.v
Backlog.v
ReplicationSpec.v
FullSync.v
FullSyncSpec.v
ReplicaSystem.v
ReplicaSpec.v
ReplicaExample.v
ReplicaHistory.v
SlaveSync.v
SlaveSpec.v
SlaveRun.v
SlaveSafe.v
ReplicaLink.v
ReplicaLinkExample.v
