(* ===== verification/Prelude.v ===== *)
(** * The data structures, persistence and replication of redis, verified

    The repository is a collection of C and C++ projects. This library
    verifies the core of one of them, the redis 3.0.0-beta2 server
    ([src/redis-3.0.0-beta2/src]): its data structures and algorithms, the
    formats of its files, the requests and replies of its clients, the append
    only file, and both sides of replication. Each function of the parts
    below is translated into a Rocq function of the same name, loop by loop, and
    the parts are proved against abstract specifications.

    ** The parts and their files

    Data structures and algorithms:
    - [endianconv.c], [endianconv.h]: byte order conversions, for hosts of both
      byte orders ([Endian]).
    - [intset.c]: sorted sets of integers in one block, with three element
      widths ([Intset]).
    - [util.c]: numbers and their notation, amounts of memory ([Util]), glob
      patterns ([Glob]).
    - [ziplist.c]: lists of strings and integers packed into one block, with
      chained length fields ([Ziplist] has the functions, [ZiplistRep] the
      representation, [ZiplistPayload] the encodings of the entries,
      [ZiplistUpdate] and [ZiplistDelete] the cascading updates, [ZiplistRead]
      the accesses, [ZiplistSpec] the properties).
    - [zipmap.c]: maps of strings packed into one block ([Zipmap], [ZipmapSpec]).
    - [crc16.c], [crc64.c] and [keyHashSlot] of [cluster.c] ([Crc]).
    - [dict.c]: hash tables with incremental rehashing ([Dict] has the functions,
      [DictMap] the refinement, [DictScan] scans and iterators).
    - [compareStringObjects] of [object.c] ([Robj]) and the skiplists of
      [t_zset.c] ([Skiplist] has the functions, [SkiplistRep] the invariant,
      [SkiplistUpdate], [SkiplistDelete], [SkiplistOrder] and [SkiplistOps] the
      effect of the functions, [SkiplistSpec] the properties).
    - [sds.c]: dynamic strings ([Sds] has the functions, [SdsRep] the
      representation, [SdsArgs] the quoting and parsing of argument lines,
      [SdsSpec] the properties).
    - [adlist.c]: doubly linked lists ([Adlist], [AdlistSpec]).
    - [lzf_c.c], [lzf_d.c]: compression of strings ([Lzf], [LzfSpec]).

    Files and the network:
    - [rio.c], [rio.h]: streams over a buffer or a file ([Rio] has the
      functions and the class of backends with its laws, [RioSpec] what holds
      for any lawful backend).
    - [rdb.c]: the scalar values of the dump format ([Rdb]; [RdbScalar] for
      types, times and lengths, [RdbSpec] for strings, [RdbDouble] for doubles).
    - [networking.c], requests: the query buffer and the protocol parser
      ([Networking]; [NetworkingSpec] for multi bulk requests in pieces of any
      size, [NetworkingInline] for inline requests).
    - [aof.c]: the append only file ([Aof]; [AofBuffer] for the changes during a
      rewrite, [AofSpec] for the log and its flushes, [AofLoad] for the replay).
    - [networking.c], replies, and the string objects of [object.c]: output
      buffers on a heap of reference counted objects ([Reply] has the functions,
      [ReplySpec] the invariant, [ReplyOps] the replies, [ReplySend] the write
      events, [ReplyDefer] the lengths that are filled in later, [ReplyHistory]
      the properties, [ReplyClients] several clients on one heap).
    - [replication.c], master side: the backlog, propagation and partial
      resynchronisation ([Replication]; [Backlog] and [ReplicationSpec] have what
      they do), and full resynchronisation with the background saves of [rdb.c],
      the transfer of dumps and the timer ([FullSync], [FullSyncSpec]).
      [ReplicaSystem] is a master with its slaves as a step relation with its
      invariant, [ReplicaSpec] has the properties, [ReplicaExample] the examples,
      [ReplicaHistory] what holds of the stream from one state to a later one.
    - [replication.c], slave side, with [syncio.c] and the part of
      [networking.c] about the master: the handshake, the download of a dump,
      the link on which commands arrive, lost connections and timeouts
      ([SlaveSync] has the functions, [SlaveSpec] the handshake, [SlaveRun] the
      download and the link for reads of any sizes, [SlaveSafe] the states).
      [ReplicaLink] puts a master and a slave together, [ReplicaLinkExample] has
      an example of a lost connection.

    The intset and the ziplist use the byte order conversions; the ziplist and
    the dynamic strings use the number conversions of [util.c]; the key slots
    use the checksum; the skiplist compares its elements with the string
    objects, whose integer encodings are printed by [util.c]. The dump format
    uses streams, compression, checksums and byte orders; the parser and the
    append only file use dynamic strings; what the append only file and
    replication write is what the parser reads ([cmd_bytes], [log_bytes]);
    slaves are clients, whose output is that of [Reply]. A slave reads what
    [ReplicaSystem] says that the master writes, with the parser of
    [Networking], whose state it keeps over lost connections.

    ** How the code is modelled

    - A block of memory is a list of bytes, and every access ([load], [store],
      [load8], [store8], [memmove] below) is checked against its bounds: an
      access outside of the block makes the function return [None], as do a
      failed assertion and a signed overflow, so a theorem that says [Some]
      says that there is no undefined behaviour.
    - Linked structures (the skiplist, the linked list) are finite maps from
      addresses to nodes; following a pointer that is not allocated is [None].
      Buckets of the hash tables are association lists in the order of the chain.
      The objects that replies share are a finite map with reference counts.
    - Integers are [Z], kept at their width by [uint] and [sint] where the
      code converts or wraps; [int_arith] and [ll_arith] are the signed
      operations whose overflow is undefined.
    - Errors the code reports are values; a [NULL] result is an inner [None].
    - The byte order of the host is the class [Host]; the usable size of an
      allocated block is the class [Allocator], of which [AllocatorLaws] states
      that blocks below 2 GB have a bound; the random numbers of
      [random] and the clock readings are lists that are consumed; the output of
      [vsnprintf], the hash and comparison functions of a dictionary and the
      methods of a linked list are arguments.
    - What the system decides (results of [read], [write], [fork], [open],
      [ftruncate], of the event loop, and the time) is an argument of the
      operations. An open file is its contents.
    - What a command does is a parameter of the parser and of the replay
      ([processCommand], [call_proc]); the file that [rdbSave] writes for a
      dataset and the data that [rdbLoad] makes of it are those of replication
      ([dump_of], [load_dump]), related by [slave_model].
    - A connection is the list of bytes that one side writes and the other reads,
      in pieces of any sizes. Synchronous reads ([syncReadLine]) find the bytes
      that arrive in time, or fail.
    - Doubles are the binary64 numbers of the standard library's [SpecFloat].

    ** Fuel

    Loops that are not structural take fuel, and running out of it is [None]
    too; no theorem is conditional on termination, since each says that the
    result is [Some]. The fuel is a bound the code itself gives: the size of the
    block for scans over a block, the number of nodes of the heap for walks over
    linked nodes, the number of buckets for the search of the next bucket, the
    number of digits for the number conversions, the length of the pattern for
    the glob matcher, the length of the input for the compressor, the query
    buffer and the append only file, the number of bytes for streams and
    the backlog, the two parts of a circular buffer for reading it, and the
    number of writes and queued objects for a write event.

    ** What the theorems show

    - Refinement: any history of operations on a dictionary, a ziplist, a
      skiplist, an intset, a dynamic string, a linked list or a zipmap returns
      what the same history returns on a finite map, a list of strings, a sorted
      list, a finite set, a byte string, a list and a finite map, and stays
      inside its memory ([dict_history_refines_map],
      [ziplist_history_refines_list], [zsl_history_refines_sorted_list],
      [intset_refines_set], [sds_history_refines_bytes],
      [adlist_history_refines_list], [zipmap_history_refines_map]).
    - The network: requests that arrive in pieces of any sizes are executed once
      and in order ([network_requests_served], [inline_request_parsed]);
      replies leave in order, with exact reference counts, for writes of any
      sizes, and are delivered ([replies_in_order], [replies_delivered]).
    - The append only file: the file and the buffer are the log after writes
      that fail in any way ([aof_log_complete]), and the replay of a file that
      was cut off executes the complete commands ([aof_recovery]).
    - Replication: what is sent to a slave is a dump of the dataset after some
      commands and exactly the commands that follow, or the replication stream
      from the requested offset ([replicas_consistent]); no operation of a
      reachable master fails ([replication_safe]), and transfers end
      ([transfer_completes]). A slave that reads all it is sent has the data of
      the master ([full_resync_copies_master]), also after any number of lost
      connections ([partial_resync_keeps_copy], [lost_slave_resumes]): offsets
      of a backlog that was freed are not accepted, and the state of the parser
      is kept. The states of a slave are consistent for any answers of its
      master ([slave_states_safe]). The properties of the master assume that the [fork] for slaves that wait
      succeeds, that the child is not killed by a signal, and that requests
      have a number as offset; what happens otherwise is stated below.
    - Invariants and ownership: the links and spans of every reachable skiplist
      ([zsl_reachable_invariant]); what [zslFree], [dictRelease] and
      [listRelease] free.
    - Algorithms: binary search and in-place widening of the intset, cascading
      updates of the ziplist, complete scans and iterations of a dictionary that
      is being resized, the backtracking glob matcher, splitting and joining of
      strings, the circular backlog.
    - Round trips and equivalences: numbers and their notation, the integer
      encodings of the ziplist, quoted argument lines, compression and
      decompression, strings and doubles of the dump format, table driven
      checksums and shift registers.
    - Safety: decompression stays inside of its blocks on every input.
    - Termination: rehashing ends, the scan cursor advances.
    - Limits of the code, each proved on the model: [intset_add_overflow],
      [ziplist_insert_out_of_bounds], [dict_scan_misses_when_shrinking],
      [glob_class_overrun], [lzf_compress_overruns], [rdb_double_overrun],
      [sds_trim_removes_zeros], [zsl_rank_ignores_score],
      [waiting_slave_repeats_command] (the offset of a slave that waited for a
      background save), [killed_child_sends_old_file],
      [failed_fork_keeps_waiting], [aof_restart_inverted] and
      [answers_not_checked].

    ** Not modelled

    Allocation never fails (the allocator of the server aborts instead).
    [zslParseRange] (it reads doubles with [strtod]), [sdsfree],
    [sdsfreesplitres] and [listReleaseIterator] (calls of the allocator), the debug
    printing and the test programs at the end of some files have no model, nor
    have the functions of [util.c] that format doubles, read random bytes or
    work on file names, and what [object.c], [t_zset.c] and [cluster.c] hold
    beyond the functions named above. Of [rdb.c] the values of whole objects and
    the file as a whole are left out, of [aof.c] the rewrite in the child, of
    [networking.c] the CLIENT command, formatted errors and doubles, and of
    [replication.c] SLAVEOF, ROLE, REPLCONF, WAIT, the contents of the script
    cache, the acknowledgements and newlines that a slave sends, and slaves that
    have slaves.
    The commands, the event loop, scripting, the cluster and sentinel work on
    global state, sockets and files, and are left out, as are the libraries
    under [deps] and the other projects of the repository (web servers, file
    systems, databases), which share no code with redis.

    This file holds what the others share: the notation for fallible code,
    memory blocks, machine integers, list lemmas and tactics. *)

From Stdlib Require Export ZArith Lia.
From stdpp Require Export base list numbers option tactics.

#[global] Open Scope Z_scope.

(** * Machine integers

    A w-bit C integer is a [Z] in the range of its type; [uint w] is the
    conversion to the unsigned type and [sint w] the (two's complement)
    conversion to the signed one. *)

Definition uint (w v : Z) : Z := v mod 2 ^ w.

Definition sint (w v : Z) : Z := (v + 2 ^ (w - 1)) mod 2 ^ w - 2 ^ (w - 1).

(** Value range of the signed type of width [w]. *)
Definition in_sint (w v : Z) : Prop := - 2 ^ (w - 1) <= v < 2 ^ (w - 1).

(** * Partial computations

    C code whose behaviour can be undefined (or whose loop can run out of
    fuel in the model) returns an [option]. *)

Definition obind {A B} (o : option A) (f : A -> option B) : option B :=
  match o with Some x => f x | None => None end.

Declare Scope c_scope.
#[global] Open Scope c_scope.
Notation "x <- e ;; k" := (obind e (fun x => k))
  (at level 20, e at level 99, k at level 200) : c_scope.
Notation "' p <- e ;; k" := (obind e (fun x => let 'p := x in k))
  (at level 20, p pattern, e at level 99, k at level 200) : c_scope.

(** Signed [int] arithmetic: overflow is undefined, here [None]. *)
Definition int_arith (v : Z) : option Z :=
  if (- 2 ^ 31 <=? v) && (v <? 2 ^ 31) then Some v else None.

(** * Byte memory

    A C object or heap block is the list of its bytes; pointers into it are
    offsets.  Accesses are bounds checked: an access outside the block is
    [None], so that a theorem concluding [Some _] also states memory safety. *)

Abbreviation bytes := (list Z).

Definition is_byte (b : Z) : Prop := 0 <= b < 256.

Definition msize {A} (m : list A) : Z := Z.of_nat (length m).

Definition load (m : bytes) (off n : Z) : option bytes :=
  if (0 <=? off) && (0 <=? n) && (off + n <=? msize m)
  then Some (take (Z.to_nat n) (drop (Z.to_nat off) m))
  else None.

Definition store (m : bytes) (off : Z) (bs : bytes) : option bytes :=
  if (0 <=? off) && (off + msize bs <=? msize m)
  then Some (take (Z.to_nat off) m ++ bs ++ drop (Z.to_nat (off + msize bs)) m)
  else None.

Definition load8 (m : bytes) (off : Z) : option Z :=
  if 0 <=? off then m !! Z.to_nat off else None.

Definition store8 (m : bytes) (off v : Z) : option bytes :=
  store m off [uint 8 v].

(** [memmove] (also [memcpy] inside one block): read everything, then write. *)
Definition memmove (m : bytes) (dst src n : Z) : option bytes :=
  bs <- load m src n;; store m dst bs.

(** * The host

    What the C sources leave to the platform: the byte order of the machine,
    and the contents of memory returned by the allocator. *)

Class Host := {
  big_endian : bool;
  fresh_byte : Z -> Z
}.

(** Two concrete hosts, for examples. *)
Definition le_host : Host := {| big_endian := false; fresh_byte := fun _ => 0 |}.
Definition be_host : Host := {| big_endian := true; fresh_byte := fun i => i |}.

Definition fresh `{Host} (from n : Z) : bytes :=
  (fun i => uint 8 (fresh_byte i)) <$> seqZ from n.

(** [zmalloc] and [zrealloc]: new bytes are arbitrary, old bytes are kept. *)
Definition zmalloc `{Host} (n : Z) : bytes := fresh 0 n.

Definition zrealloc `{Host} (m : bytes) (n : Z) : bytes :=
  take (Z.to_nat n) m ++ fresh (msize m) (n - msize m).

(** * Integers as byte strings *)

Fixpoint le_encode (n : nat) (v : Z) : bytes :=
  match n with
  | O => []
  | S n => v mod 256 :: le_encode n (v / 256)
  end.

Fixpoint le_decode (bs : bytes) : Z :=
  match bs with
  | [] => 0
  | b :: bs => b + 256 * le_decode bs
  end.

(** Object representation of an integer on the host. *)
Definition host_encode `{Host} (n : nat) (v : Z) : bytes :=
  if big_endian then reverse (le_encode n v) else le_encode n v.

Definition host_decode `{Host} (bs : bytes) : Z :=
  le_decode (if big_endian then reverse bs else bs).

(** * Automation *)

Create Rewrite HintDb cmem.

(** Case analysis on the boolean comparisons of the C conditions. *)
Ltac bcase :=
  repeat match goal with
  | H : context [?x =? ?y] |- _ => destruct (Z.eqb_spec x y)
  | H : context [?x <=? ?y] |- _ => destruct (Z.leb_spec x y)
  | H : context [?x <? ?y] |- _ => destruct (Z.ltb_spec x y)
  | H : context [?x >? ?y] |- _ => rewrite (Z.gtb_ltb x y) in H
  | H : context [?x >=? ?y] |- _ => rewrite (Z.geb_leb x y) in H
  | |- context [?x =? ?y] => destruct (Z.eqb_spec x y)
  | |- context [?x <=? ?y] => destruct (Z.leb_spec x y)
  | |- context [?x <? ?y] => destruct (Z.ltb_spec x y)
  | |- context [?x >? ?y] => rewrite (Z.gtb_ltb x y)
  | |- context [?x >=? ?y] => rewrite (Z.geb_leb x y)
  end; cbn [andb orb negb] in *.

(** Turn boolean hypotheses into arithmetic ones. *)
Ltac bprop :=
  repeat match goal with
  | H : _ && _ = true |- _ => apply andb_true_iff in H as [? ?]
  | H : _ || _ = false |- _ => apply orb_false_iff in H as [? ?]
  | H : negb _ = true |- _ => apply negb_true_iff in H
  | H : negb _ = false |- _ => apply negb_false_iff in H
  | H : (_ =? _) = true |- _ => apply Z.eqb_eq in H
  | H : (_ =? _) = false |- _ => apply Z.eqb_neq in H
  | H : (_ <=? _) = true |- _ => apply Z.leb_le in H
  | H : (_ <=? _) = false |- _ => apply Z.leb_gt in H
  | H : (_ <? _) = true |- _ => apply Z.ltb_lt in H
  | H : (_ <? _) = false |- _ => apply Z.ltb_ge in H
  end.

(** Evaluate one boolean comparison whose value [lia] can establish. *)
Ltac bdecide_one :=
  match goal with
  | |- context [?x =? ?y] =>
      first [ rewrite (proj2 (Z.eqb_eq x y)) by lia | rewrite (proj2 (Z.eqb_neq x y)) by lia ]
  | |- context [?x <=? ?y] =>
      first [ rewrite (proj2 (Z.leb_le x y)) by lia | rewrite (proj2 (Z.leb_gt x y)) by lia ]
  | |- context [?x <? ?y] =>
      first [ rewrite (proj2 (Z.ltb_lt x y)) by lia | rewrite (proj2 (Z.ltb_ge x y)) by lia ]
  | |- context [?x >? ?y] => rewrite (Z.gtb_ltb x y)
  | |- context [?x >=? ?y] => rewrite (Z.geb_leb x y)
  end.
Ltac bdecide := repeat (bdecide_one; cbn [andb orb negb]).

(** * Generic lemmas *)

Lemma msize_nonneg {A} (l : list A) : 0 <= msize l.
Proof. unfold msize; lia. Qed.

Lemma msize_app {A} (l k : list A) : msize (l ++ k) = msize l + msize k.
Proof. unfold msize; rewrite length_app; lia. Qed.

Lemma msize_nil A : msize (@nil A) = 0.
Proof. done. Qed.

Lemma msize_cons {A} (x : A) l : msize (x :: l) = 1 + msize l.
Proof. unfold msize; simpl; lia. Qed.

Lemma msize_reverse {A} (l : list A) : msize (reverse l) = msize l.
Proof. unfold msize; by rewrite length_reverse. Qed.

Lemma msize_replicate {A} k (x : A) : msize (replicate k x) = Z.of_nat k.
Proof. unfold msize. by rewrite length_replicate. Qed.

Lemma msize_0_nil {A} (l : list A) : msize l = 0 -> l = [].
Proof. destruct l; [done|]. rewrite msize_cons. pose proof (msize_nonneg l). lia. Qed.

Lemma length_le_encode n v : length (le_encode n v) = n.
Proof. revert v; induction n; intros; simpl; auto. Qed.

Lemma msize_le_encode n v : msize (le_encode n v) = Z.of_nat n.
Proof. unfold msize; by rewrite length_le_encode. Qed.

Lemma msize_fresh `{Host} from n : 0 <= n -> msize (fresh from n) = n.
Proof. intros. unfold msize, fresh. rewrite length_fmap, length_seqZ. lia. Qed.

#[export] Hint Rewrite @msize_app msize_nil @msize_cons @msize_reverse msize_le_encode : cmem.

(** Solve size side conditions. *)
Ltac msolve :=
  autorewrite with cmem in *;
  repeat match goal with
  | |- context [msize ?l] =>
      lazymatch goal with
      | _ : 0 <= msize l |- _ => fail
      | _ => pose proof (msize_nonneg l)
      end
  | _ : context [msize ?l] |- _ =>
      lazymatch goal with
      | _ : 0 <= msize l |- _ => fail
      | _ => pose proof (msize_nonneg l)
      end
  end; lia.

(** ** Machine integers *)

Lemma uint_range w v : 0 <= w -> 0 <= uint w v < 2 ^ w.
Proof. intros. unfold uint. apply Z.mod_pos_bound. lia. Qed.

Lemma uint_id w v : 0 <= v < 2 ^ w -> uint w v = v.
Proof. intros. unfold uint. by apply Z.mod_small. Qed.

Lemma sint_id w v : in_sint w v -> 0 < w -> sint w v = v.
Proof.
  unfold in_sint, sint. intros. rewrite Z.mod_small; [lia|].
  replace w with (Z.succ (w - 1)) at 3 by lia. rewrite Z.pow_succ_r; lia.
Qed.

Lemma sint_uint w v : 0 < w -> sint w (uint w v) = sint w v.
Proof. intros. unfold sint, uint. by rewrite Zplus_mod_idemp_l. Qed.

Lemma sint_mod w v : 0 < w -> sint w (v mod 2 ^ w) = sint w v.
Proof. apply sint_uint. Qed.

Lemma in_sint_mono w w' v : 0 < w <= w' -> in_sint w v -> in_sint w' v.
Proof.
  unfold in_sint. intros ? ?.
  pose proof (Z.pow_le_mono_r 2 (w - 1) (w' - 1)). lia.
Qed.

Lemma int_arith_Some v : - 2 ^ 31 <= v < 2 ^ 31 -> int_arith v = Some v.
Proof. intros. unfold int_arith. by bdecide. Qed.

(** ** The option monad: step over a successful first action. *)

Lemma bind_step {A B} (o : option A) x (f : A -> option B) r :
  o = Some x -> f x = r -> obind o f = r.
Proof. by intros ->. Qed.

Tactic Notation "ostep" "by" tactic3(t) := eapply bind_step; [ t | cbv beta ].

(** ** Memory *)

Lemma load_at l1 bs l2 m off n :
  m = l1 ++ bs ++ l2 -> off = msize l1 -> n = msize bs -> load m off n = Some bs.
Proof.
  intros -> -> ->. unfold load. rewrite !msize_app.
  pose proof (msize_nonneg l1); pose proof (msize_nonneg bs); pose proof (msize_nonneg l2).
  bdecide. unfold msize. rewrite !Nat2Z.id, drop_app_length, take_app_length. done.
Qed.

Lemma store_at l1 old l2 m off new :
  m = l1 ++ old ++ l2 -> off = msize l1 -> msize new = msize old ->
  store m off new = Some (l1 ++ new ++ l2).
Proof.
  intros -> -> Hn. unfold store. rewrite !msize_app, Hn.
  pose proof (msize_nonneg l1); pose proof (msize_nonneg old); pose proof (msize_nonneg l2).
  bdecide. unfold msize in *. rewrite Nat2Z.id, take_app_length.
  by rewrite (app_assoc l1 old l2), drop_app_length' by (rewrite length_app; lia).
Qed.

Lemma load8_at l1 b l2 m off :
  m = l1 ++ b :: l2 -> off = msize l1 -> load8 m off = Some b.
Proof.
  intros -> ->. unfold load8. pose proof (msize_nonneg l1). bdecide.
  unfold msize. rewrite Nat2Z.id. by apply list_lookup_middle.
Qed.

Lemma store8_at l1 b l2 m off v :
  m = l1 ++ b :: l2 -> off = msize l1 ->
  store8 m off v = Some (l1 ++ uint 8 v :: l2).
Proof. intros -> ->. unfold store8. by apply (store_at l1 [b] l2). Qed.

Lemma load_Some_inv m off n bs :
  load m off n = Some bs ->
  exists l1 l2, m = l1 ++ bs ++ l2 /\ off = msize l1 /\ n = msize bs.
Proof.
  unfold load. destruct (_ && _) eqn:E; [|done]. intros [= <-].
  bprop.
  exists (take (Z.to_nat off) m), (drop (Z.to_nat n) (drop (Z.to_nat off) m)).
  rewrite take_drop, take_drop. unfold msize in *.
  rewrite !length_take, length_drop. split; [done|lia].
Qed.

Lemma load_split (m : bytes) off n :
  0 <= off -> 0 <= n -> off + n <= msize m ->
  exists l1 bs l2, m = l1 ++ bs ++ l2 /\ off = msize l1 /\ n = msize bs.
Proof.
  intros. destruct (load m off n) as [bs|] eqn:E.
  - apply load_Some_inv in E as (l1 & l2 & ?). eauto.
  - exfalso. revert E. unfold load. by bdecide.
Qed.

Lemma store_size m off bs m' : store m off bs = Some m' -> msize m' = msize m.
Proof.
  unfold store. destruct (_ && _) eqn:E; [|done]. intros [= <-].
  bprop.
  rewrite !msize_app. unfold msize in *. rewrite length_take, length_drop. lia.
Qed.

Lemma zrealloc_grow `{Host} m n :
  msize m <= n -> zrealloc m n = m ++ fresh (msize m) (n - msize m).
Proof. intros. unfold zrealloc. rewrite take_ge; [done|]. unfold msize in *; lia. Qed.

Lemma zrealloc_shrink `{Host} m1 m2 n : n = msize m1 -> zrealloc (m1 ++ m2) n = m1.
Proof.
  intros ->. unfold zrealloc, fresh. rewrite seqZ_nil by msolve.
  unfold msize. by rewrite Nat2Z.id, take_app_length, app_nil_r.
Qed.

Lemma msize_zrealloc `{Host} m n : 0 <= n -> msize (zrealloc m n) = n.
Proof.
  intros. destruct (Z.le_gt_cases (msize m) n).
  - rewrite zrealloc_grow by done. rewrite msize_app, msize_fresh; lia.
  - unfold zrealloc, fresh. rewrite seqZ_nil by lia. simpl.
    rewrite app_nil_r. unfold msize in *. rewrite length_take. lia.
Qed.

(** ** Integers as byte strings *)

Lemma le_encode_bytes n v : Forall is_byte (le_encode n v).
Proof.
  revert v; induction n; intros; simpl; constructor; auto.
  apply Z.mod_pos_bound; lia.
Qed.

Lemma le_decode_encode n v : le_decode (le_encode n v) = uint (8 * Z.of_nat n) v.
Proof.
  unfold uint. revert v. induction n as [|n IH]; intros v; [by rewrite Z.mod_1_r|].
  cbn [le_encode le_decode]. rewrite IH.
  replace (8 * Z.of_nat (S n)) with (8 + 8 * Z.of_nat n) by lia.
  rewrite Z.pow_add_r by lia. change (2 ^ 8) with 256.
  rewrite Z.rem_mul_r by lia. lia.
Qed.

Lemma le_encode_decode bs :
  Forall is_byte bs -> le_encode (length bs) (le_decode bs) = bs.
Proof.
  induction 1 as [|b bs Hb _ IH]; [done|]. cbn [le_encode le_decode length].
  rewrite (Z.mul_comm 256), Z_mod_plus_full, Z_div_plus_full by lia.
  unfold is_byte in Hb. rewrite Z.mod_small, Z.div_small, Z.add_0_l by lia. by rewrite IH.
Qed.

Lemma le_decode_range bs :
  Forall is_byte bs -> 0 <= le_decode bs < 2 ^ (8 * msize bs).
Proof.
  induction 1 as [|b bs Hb _ IH]; [done|]. cbn [le_decode]. rewrite msize_cons.
  replace (8 * (1 + msize bs)) with (8 + 8 * msize bs) by lia.
  pose proof (msize_nonneg bs). rewrite Z.pow_add_r by lia.
  unfold is_byte in Hb. change (2 ^ 8) with 256. lia.
Qed.

Lemma le_encode_uint n v : le_encode n (uint (8 * Z.of_nat n) v) = le_encode n v.
Proof.
  rewrite <- (le_decode_encode n v).
  rewrite <- (length_le_encode n v) at 1. apply le_encode_decode, le_encode_bytes.
Qed.

Lemma le_encode_inj n v v' :
  uint (8 * Z.of_nat n) v = v -> uint (8 * Z.of_nat n) v' = v' ->
  le_encode n v = le_encode n v' -> v = v'.
Proof.
  intros Hv Hv' E. rewrite <- Hv, <- Hv', <- !le_decode_encode. by f_equal.
Qed.

Section HostInt.
Context `{Host}.

Lemma length_host_encode n v : length (host_encode n v) = n.
Proof.
  unfold host_encode. destruct big_endian; rewrite ?length_reverse; apply length_le_encode.
Qed.

Lemma msize_host_encode n v : msize (host_encode n v) = Z.of_nat n.
Proof. unfold msize. by rewrite length_host_encode. Qed.

Lemma host_encode_bytes n v : Forall is_byte (host_encode n v).
Proof.
  unfold host_encode. destruct big_endian; [apply Forall_reverse|]; apply le_encode_bytes.
Qed.

Lemma host_decode_encode n v : host_decode (host_encode n v) = uint (8 * Z.of_nat n) v.
Proof.
  unfold host_decode, host_encode. destruct big_endian;
    rewrite ?reverse_involutive; apply le_decode_encode.
Qed.
End HostInt.

#[export] Hint Rewrite @msize_host_encode : cmem.

Lemma lor_shiftl_add x y k : 0 <= k -> 0 <= y < 2 ^ k -> Z.lor (Z.shiftl x k) y = x * 2 ^ k + y.
Proof.
  intros Hk Hy. rewrite <- Z.shiftl_mul_pow2 by done.
  assert (Hz : Z.land (Z.shiftl x k) y = 0).
  { apply Z.bits_inj'. intros i Hi. rewrite Z.land_spec, Z.bits_0.
    destruct (Z.lt_ge_cases i k) as [Hlt|Hge].
    - by rewrite Z.shiftl_spec_low.
    - rewrite <- (Z.mod_small y (2 ^ k)) by done. by rewrite Z.mod_pow2_bits_high, andb_false_r. }
  rewrite <- Z.lxor_lor by done. by rewrite Z.add_nocarry_lxor.
Qed.

(** A property of all bytes below [n], by evaluation. *)
Lemma byte_check (P : Z -> bool) n :
  forallb P (seqZ 0 n) = true -> forall b, 0 <= b < n -> P b = true.
Proof.
  intros Hf b Hb. rewrite forallb_forall in Hf. apply Hf, list_elem_of_In, elem_of_seqZ. lia.
Qed.

(** ** Moving a chunk inside a block *)

Ltac lsimpl := repeat first [rewrite <- app_assoc | progress cbn [app]].

Lemma split_at {A} (l : list A) (n : Z) :
  0 <= n <= msize l -> exists l1 l2, l = l1 ++ l2 /\ msize l1 = n.
Proof.
  intros Hn. exists (take (Z.to_nat n) l), (drop (Z.to_nat n) l).
  rewrite take_drop. split; [done|]. unfold msize in *. rewrite length_take. lia.
Qed.

(** A list cut at two places. *)
Lemma app_split_lt {A} (l l' a b : list A) : l ++ l' = a ++ b -> msize l < msize a -> exists c, l ++ c = a /\ c <> [].
Proof.
  intros E Hl. apply app_eq_app in E as (c & [[-> ->]|[-> ->]]).
  - rewrite msize_app in Hl. pose proof (msize_nonneg c). lia.
  - exists c. split; [done|]. intros ->. rewrite app_nil_r in Hl. lia.
Qed.

Lemma app_split_ge {A} (l l' a b : list A) : l ++ l' = a ++ b -> msize a <= msize l -> exists c, l = a ++ c /\ c ++ l' = b.
Proof.
  intros E Hl. apply app_eq_app in E as (c & [[-> ->]|[-> ->]]); [eauto|].
  rewrite msize_app in Hl. assert (c = []) as -> by (apply msize_0_nil; pose proof (msize_nonneg c); lia).
  exists []. by rewrite !app_nil_r.
Qed.

(** A chunk [M] moved to the right over the [k] bytes behind it. *)
Lemma memmove_right A M F D m dst src n :
  m = A ++ M ++ F ++ D -> src = msize A -> dst = msize A + msize F -> n = msize M ->
  exists G, msize G = msize F /\ memmove m dst src n = Some (A ++ G ++ M ++ D).
Proof.
  intros -> -> -> ->. destruct (split_at (M ++ F) (msize F)) as (G & R & E & HG);
    [rewrite msize_app; pose proof (msize_nonneg M); pose proof (msize_nonneg F); lia|].
  assert (HR : msize R = msize M) by (apply (f_equal msize) in E; rewrite !msize_app in E; lia).
  exists G. split; [done|]. unfold memmove.
  ostep by (apply (load_at A M (F ++ D)); done).
  rewrite (store_at (A ++ G) R D);
    [by lsimpl|by rewrite (app_assoc M F D), E; lsimpl|rewrite msize_app; lia|done].
Qed.

(** A chunk [M] moved to the left over the bytes [G] before it. *)
Lemma memmove_left A G M D m dst src n :
  m = A ++ G ++ M ++ D -> dst = msize A -> src = msize A + msize G -> n = msize M ->
  exists F, msize F = msize G /\ memmove m dst src n = Some (A ++ M ++ F ++ D).
Proof.
  intros -> -> -> ->. destruct (split_at (G ++ M) (msize M)) as (R & F & E & HR);
    [rewrite msize_app; pose proof (msize_nonneg M); pose proof (msize_nonneg G); lia|].
  assert (HF : msize F = msize G) by (apply (f_equal msize) in E; rewrite !msize_app in E; lia).
  exists F. split; [done|]. unfold memmove.
  ostep by (apply (load_at (A ++ G) M D); [by lsimpl|rewrite msize_app; lia|done]).
  rewrite (store_at A R (F ++ D)); [done|by rewrite (app_assoc G M D), E; lsimpl|done|done].
Qed.
