(* ===== verification/Endian.v ===== *)
(** Byte order conversion: the functions of endianconv.c and the
    [...ifbe] macros of endianconv.h.

    The operations work on a block of memory and an offset, as the C
    functions work on a pointer.  The theorems show that, whatever the byte
    order of the host, "store then [memrevNifbe]" writes the little-endian
    representation and "[memrevNifbe] then read" reads it back: the on-disk
    and in-memory formats built on these functions do not depend on the host. *)

From S2P Require Import Prelude.

(** [t = x[i]; x[i] = x[j]; x[j] = t;] *)
Definition swap_bytes (x : bytes) (i j : Z) : option bytes :=
  t <- load8 x i;;
  u <- load8 x j;;
  x <- store x i [u];;
  store x j [t].

Definition memrev16 (m : bytes) (p : Z) : option bytes :=
  swap_bytes m p (p + 1).

Definition memrev32 (m : bytes) (p : Z) : option bytes :=
  m <- swap_bytes m p (p + 3);;
  swap_bytes m (p + 1) (p + 2).

Definition memrev64 (m : bytes) (p : Z) : option bytes :=
  m <- swap_bytes m p (p + 7);;
  m <- swap_bytes m (p + 1) (p + 6);;
  m <- swap_bytes m (p + 2) (p + 5);;
  swap_bytes m (p + 3) (p + 4).

Section Endian.
Context `{Host}.

(** The argument is copied to a local variable whose bytes are reversed
    in place; the access cannot fail. *)
Definition intrev16 (v : Z) : Z :=
  from_option host_decode 0 (memrev16 (host_encode 2 v) 0).
Definition intrev32 (v : Z) : Z :=
  from_option host_decode 0 (memrev32 (host_encode 4 v) 0).
Definition intrev64 (v : Z) : Z :=
  from_option host_decode 0 (memrev64 (host_encode 8 v) 0).

Definition memrev16ifbe (m : bytes) (p : Z) : option bytes :=
  if big_endian then memrev16 m p else Some m.
Definition memrev32ifbe (m : bytes) (p : Z) : option bytes :=
  if big_endian then memrev32 m p else Some m.
Definition memrev64ifbe (m : bytes) (p : Z) : option bytes :=
  if big_endian then memrev64 m p else Some m.
Definition intrev16ifbe (v : Z) : Z := if big_endian then intrev16 v else v.
Definition intrev32ifbe (v : Z) : Z := if big_endian then intrev32 v else v.
Definition intrev64ifbe (v : Z) : Z := if big_endian then intrev64 v else v.
Definition htonu64 (v : Z) : Z := if big_endian then v else intrev64 v.
Definition ntohu64 (v : Z) : Z := if big_endian then v else intrev64 v.

(** ** In-place reversal *)

Lemma swap_bytes_at l1 a l2 b l3 m i j :
  m = l1 ++ a :: l2 ++ b :: l3 -> i = msize l1 -> j = msize l1 + 1 + msize l2 ->
  swap_bytes m i j = Some (l1 ++ b :: l2 ++ a :: l3).
Proof.
  intros -> -> ->. unfold swap_bytes.
  ostep by by apply (load8_at l1 a (l2 ++ b :: l3)).
  ostep by (apply (load8_at (l1 ++ a :: l2) b l3); [by rewrite <- app_assoc|msolve]).
  ostep by by apply (store_at l1 [a] (l2 ++ b :: l3)).
  rewrite (store_at (l1 ++ b :: l2) [b] l3);
    [by rewrite <- app_assoc|by rewrite <- app_assoc|msolve|done].
Qed.

Ltac swap_step l1 a l2 b l3 :=
  rewrite (swap_bytes_at l1 a l2 b l3); simpl;
  [ | by rewrite <- ?app_assoc | msolve | msolve ].

Lemma memrev16_at l1 a b l2 m p :
  m = l1 ++ [a; b] ++ l2 -> p = msize l1 -> memrev16 m p = Some (l1 ++ [b; a] ++ l2).
Proof. intros -> ->. unfold memrev16. by swap_step l1 a (@nil Z) b l2. Qed.

Lemma memrev32_at l1 a b c d l2 m p :
  m = l1 ++ [a; b; c; d] ++ l2 -> p = msize l1 ->
  memrev32 m p = Some (l1 ++ [d; c; b; a] ++ l2).
Proof.
  intros -> ->. unfold memrev32. swap_step l1 a [b; c] d l2.
  swap_step (l1 ++ [d]) b (@nil Z) c (a :: l2). by rewrite <- app_assoc.
Qed.

Lemma memrev64_at l1 a b c d e f g h l2 m p :
  m = l1 ++ [a; b; c; d; e; f; g; h] ++ l2 -> p = msize l1 ->
  memrev64 m p = Some (l1 ++ [h; g; f; e; d; c; b; a] ++ l2).
Proof.
  intros -> ->. unfold memrev64. swap_step l1 a [b; c; d; e; f; g] h l2.
  swap_step (l1 ++ [h]) b [c; d; e; f] g (a :: l2).
  rewrite <- app_assoc; simpl. swap_step (l1 ++ [h; g]) c [d; e] f (b :: a :: l2).
  rewrite <- app_assoc; simpl. swap_step (l1 ++ [h; g; f]) d (@nil Z) e (c :: b :: a :: l2).
  by rewrite <- app_assoc.
Qed.

(** ** Host independence of stored integers *)

Lemma memrev16ifbe_encode l1 v l2 m p :
  m = l1 ++ host_encode 2 v ++ l2 -> p = msize l1 ->
  memrev16ifbe m p = Some (l1 ++ le_encode 2 v ++ l2).
Proof.
  intros -> ->. unfold memrev16ifbe, host_encode. destruct big_endian; [|done].
  by apply memrev16_at.
Qed.

Lemma memrev32ifbe_encode l1 v l2 m p :
  m = l1 ++ host_encode 4 v ++ l2 -> p = msize l1 ->
  memrev32ifbe m p = Some (l1 ++ le_encode 4 v ++ l2).
Proof.
  intros -> ->. unfold memrev32ifbe, host_encode. destruct big_endian; [|done].
  by apply memrev32_at.
Qed.

Lemma memrev64ifbe_encode l1 v l2 m p :
  m = l1 ++ host_encode 8 v ++ l2 -> p = msize l1 ->
  memrev64ifbe m p = Some (l1 ++ le_encode 8 v ++ l2).
Proof.
  intros -> ->. unfold memrev64ifbe, host_encode. destruct big_endian; [|done].
  by apply memrev64_at.
Qed.

Lemma memrev16ifbe_decode bs :
  length bs = 2%nat ->
  exists x, memrev16ifbe bs 0 = Some x /\ host_decode x = le_decode bs.
Proof.
  unfold memrev16ifbe, host_decode. destruct bs as [|a [|b [|? ?]]]; try done.
  destruct big_endian; intros _; [rewrite (memrev16_at [] a b []) by done|]; eauto.
Qed.

Lemma memrev32ifbe_decode bs :
  length bs = 4%nat ->
  exists x, memrev32ifbe bs 0 = Some x /\ host_decode x = le_decode bs.
Proof.
  unfold memrev32ifbe, host_decode. destruct bs as [|a [|b [|c [|d [|? ?]]]]]; try done.
  destruct big_endian; intros _; [rewrite (memrev32_at [] a b c d []) by done|]; eauto.
Qed.

Lemma memrev64ifbe_decode bs :
  length bs = 8%nat ->
  exists x, memrev64ifbe bs 0 = Some x /\ host_decode x = le_decode bs.
Proof.
  unfold memrev64ifbe, host_decode.
  destruct bs as [|a [|b [|c [|d [|e [|f [|g [|h [|? ?]]]]]]]]]; try done.
  destruct big_endian; intros _; [rewrite (memrev64_at [] a b c d e f g h []) by done|]; eauto.
Qed.

(** ** Integer reversal is an involution *)

Lemma host_encode_decode bs : Forall is_byte bs -> host_encode (length bs) (host_decode bs) = bs.
Proof.
  intros Hb. unfold host_encode, host_decode. destruct big_endian.
  - rewrite <- (length_reverse bs), le_encode_decode by by apply Forall_reverse.
    apply reverse_involutive.
  - by apply le_encode_decode.
Qed.

Lemma host_encode_intrev32 v : host_encode 4 (intrev32 v) = reverse (host_encode 4 v).
Proof.
  unfold intrev32. pose proof (host_encode_bytes 4 v) as Hb.
  pose proof (length_host_encode 4 v) as Hl. revert Hb Hl.
  generalize (host_encode 4 v). intros bs Hb Hl.
  destruct bs as [|a [|b [|c [|d [|? ?]]]]]; try done.
  rewrite (memrev32_at [] a b c d []) by done. cbn [from_option app].
  change (reverse [a; b; c; d]) with [d; c; b; a].
  apply (host_encode_decode [d; c; b; a]).
  apply Forall_reverse in Hb. exact Hb.
Qed.

Lemma host_encode_intrev16 v : host_encode 2 (intrev16 v) = reverse (host_encode 2 v).
Proof.
  unfold intrev16. pose proof (host_encode_bytes 2 v) as Hb.
  pose proof (length_host_encode 2 v) as Hl. revert Hb Hl.
  generalize (host_encode 2 v). intros bs Hb Hl.
  destruct bs as [|a [|b [|? ?]]]; try done.
  rewrite (memrev16_at [] a b []) by done. cbn [from_option app].
  change (reverse [a; b]) with [b; a].
  apply (host_encode_decode [b; a]).
  apply Forall_reverse in Hb. exact Hb.
Qed.

(** A field written through [intrevNifbe] holds the little-endian bytes. *)
Lemma host_encode_intrev32ifbe v : host_encode 4 (intrev32ifbe v) = le_encode 4 v.
Proof.
  unfold intrev32ifbe. destruct big_endian eqn:E.
  - rewrite host_encode_intrev32. unfold host_encode. rewrite E. apply reverse_involutive.
  - unfold host_encode. by rewrite E.
Qed.

Lemma host_encode_intrev16ifbe v : host_encode 2 (intrev16ifbe v) = le_encode 2 v.
Proof.
  unfold intrev16ifbe. destruct big_endian eqn:E.
  - rewrite host_encode_intrev16. unfold host_encode. rewrite E. apply reverse_involutive.
  - unfold host_encode. by rewrite E.
Qed.

Lemma intrev32_range v : 0 <= intrev32 v < 2 ^ 32.
Proof.
  unfold intrev32. pose proof (host_encode_bytes 4 v) as Hb.
  pose proof (length_host_encode 4 v) as Hl. revert Hb Hl.
  generalize (host_encode 4 v). intros bs Hb Hl.
  destruct bs as [|a [|b [|c [|d [|? ?]]]]]; try done.
  rewrite (memrev32_at [] a b c d []) by done. cbn [from_option app].
  unfold host_decode. destruct big_endian.
  - apply (le_decode_range (reverse [d; c; b; a])). exact Hb.
  - apply (le_decode_range [d; c; b; a]). apply Forall_reverse in Hb. exact Hb.
Qed.

Lemma intrev32ifbe_involutive v : 0 <= v < 2 ^ 32 -> intrev32ifbe (intrev32ifbe v) = v.
Proof.
  intros Hv. assert (Hr : 0 <= intrev32ifbe (intrev32ifbe v) < 2 ^ 32).
  { unfold intrev32ifbe. destruct big_endian; [apply intrev32_range|done]. }
  assert (E : host_encode 4 (intrev32ifbe (intrev32ifbe v)) = host_encode 4 v).
  { rewrite host_encode_intrev32ifbe. unfold host_encode, intrev32ifbe.
    destruct big_endian eqn:Eb; [|done].
    pose proof (host_encode_intrev32 v) as E. unfold host_encode in E. rewrite Eb in E.
    apply (f_equal reverse) in E. by rewrite !reverse_involutive in E. }
  apply (f_equal host_decode) in E. rewrite !host_decode_encode in E.
  by rewrite !uint_id in E.
Qed.

(** Reading a little-endian field as a host integer. *)
Lemma host_decode_le32 v : 0 <= v < 2 ^ 32 -> host_decode (le_encode 4 v) = intrev32ifbe v.
Proof.
  intros Hv. rewrite <- host_encode_intrev32ifbe, host_decode_encode. apply uint_id.
  unfold intrev32ifbe. destruct big_endian; [apply intrev32_range|done].
Qed.

Lemma intrev16_range v : 0 <= intrev16 v < 2 ^ 16.
Proof.
  unfold intrev16. pose proof (host_encode_bytes 2 v) as Hb.
  pose proof (length_host_encode 2 v) as Hl. revert Hb Hl.
  generalize (host_encode 2 v). intros bs Hb Hl.
  destruct bs as [|a [|b [|? ?]]]; try done.
  rewrite (memrev16_at [] a b []) by done. cbn [from_option app].
  unfold host_decode. destruct big_endian.
  - apply (le_decode_range (reverse [b; a])). exact Hb.
  - apply (le_decode_range [b; a]). apply Forall_reverse in Hb. exact Hb.
Qed.

Lemma host_decode_le16 v : 0 <= v < 2 ^ 16 -> host_decode (le_encode 2 v) = intrev16ifbe v.
Proof.
  intros Hv. rewrite <- host_encode_intrev16ifbe, host_decode_encode. apply uint_id.
  unfold intrev16ifbe. destruct big_endian; [apply intrev16_range|done].
Qed.

Lemma intrev16ifbe_involutive v : 0 <= v < 2 ^ 16 -> intrev16ifbe (intrev16ifbe v) = v.
Proof.
  intros Hv. assert (Hr : 0 <= intrev16ifbe (intrev16ifbe v) < 2 ^ 16).
  { unfold intrev16ifbe. destruct big_endian; [apply intrev16_range|done]. }
  assert (E : host_encode 2 (intrev16ifbe (intrev16ifbe v)) = host_encode 2 v).
  { rewrite host_encode_intrev16ifbe. unfold host_encode, intrev16ifbe.
    destruct big_endian eqn:Eb; [|done].
    pose proof (host_encode_intrev16 v) as E. unfold host_encode in E. rewrite Eb in E.
    apply (f_equal reverse) in E. by rewrite !reverse_involutive in E. }
  apply (f_equal host_decode) in E. rewrite !host_decode_encode in E.
  by rewrite !uint_id in E.
Qed.
End Endian.
