(* ===== verification/Intset.v ===== *)
(** Sorted arrays of integers: intset.c.

    An intset is a block [encoding, length, contents[]]; the contents are the
    elements in increasing order, stored with 2, 4 or 8 bytes each in
    little-endian order.  The operations below follow intset.c, with
    [contents] as bounds-checked bytes.  [rep is l] is the representation
    invariant: the block stores exactly the strictly increasing list [l].
    The theorems show that search, add, remove and find implement the
    corresponding set operations, that the invariant is preserved (the
    in-place upgrade of the encoding included), and that no access leaves
    the block. *)

From stdpp Require Import sorting gmap.
From S2P Require Import Prelude Endian.

Record intset := mkIntset {
  is_encoding : Z;   (* uint32_t encoding *)
  is_length : Z;     (* uint32_t length *)
  is_contents : bytes (* int8_t contents[] *)
}.

Definition INTSET_ENC_INT16 := 2.
Definition INTSET_ENC_INT32 := 4.
Definition INTSET_ENC_INT64 := 8.
Definition sizeof_intset := 8.

Section Intset.
Context `{Host}.

Definition _intsetValueEncoding (v : Z) : Z :=
  if (v <? - 2 ^ 31) || (v >? 2 ^ 31 - 1) then INTSET_ENC_INT64
  else if (v <? - 2 ^ 15) || (v >? 2 ^ 15 - 1) then INTSET_ENC_INT32
  else INTSET_ENC_INT16.

Definition _intsetGetEncoded (s : intset) (pos enc : Z) : option Z :=
  if enc =? INTSET_ENC_INT64 then
    v64 <- load (is_contents s) (pos * 8) 8;;
    v64 <- memrev64ifbe v64 0;;
    Some (sint 64 (host_decode v64))
  else if enc =? INTSET_ENC_INT32 then
    v32 <- load (is_contents s) (pos * 4) 4;;
    v32 <- memrev32ifbe v32 0;;
    Some (sint 32 (host_decode v32))
  else
    v16 <- load (is_contents s) (pos * 2) 2;;
    v16 <- memrev16ifbe v16 0;;
    Some (sint 16 (host_decode v16)).

Definition _intsetGet (s : intset) (pos : Z) : option Z :=
  _intsetGetEncoded s pos (uint 8 (intrev32ifbe (is_encoding s))).

Definition set_contents (s : intset) (c : bytes) : intset :=
  mkIntset (is_encoding s) (is_length s) c.
Definition set_length (s : intset) (n : Z) : intset :=
  mkIntset (is_encoding s) n (is_contents s).
Definition set_encoding (s : intset) (e : Z) : intset :=
  mkIntset e (is_length s) (is_contents s).

Definition _intsetSet (s : intset) (pos value : Z) : option intset :=
  let encoding := intrev32ifbe (is_encoding s) in
  if encoding =? INTSET_ENC_INT64 then
    c <- store (is_contents s) (pos * 8) (host_encode 8 value);;
    c <- memrev64ifbe c (pos * 8);;
    Some (set_contents s c)
  else if encoding =? INTSET_ENC_INT32 then
    c <- store (is_contents s) (pos * 4) (host_encode 4 value);;
    c <- memrev32ifbe c (pos * 4);;
    Some (set_contents s c)
  else
    c <- store (is_contents s) (pos * 2) (host_encode 2 value);;
    c <- memrev16ifbe c (pos * 2);;
    Some (set_contents s c).

Definition intsetNew : intset := mkIntset (intrev32ifbe INTSET_ENC_INT16) 0 [].

(** [size] is a [uint32_t]; the block is reallocated to
    [sizeof(intset) + size] bytes, the header is kept. *)
Definition intsetResize (s : intset) (len : Z) : intset :=
  let size := uint 32 (len * intrev32ifbe (is_encoding s)) in
  set_contents s (zrealloc (is_contents s) size).

(** The [while(max >= min)] loop; returns [(min, mid, cur)].  [int]
    overflow and fuel exhaustion are [None]. *)
Fixpoint intsetSearch_loop (fuel : nat) (s : intset) (value min max mid cur : Z)
    : option (Z * Z * Z) :=
  match fuel with
  | O => None
  | S fuel =>
    if max >=? min then
      sum <- int_arith (min + max);;
      let mid := Z.quot sum 2 in
      cur <- _intsetGet s mid;;
      if value >? cur then
        min <- int_arith (mid + 1);;
        intsetSearch_loop fuel s value min max mid cur
      else if value <? cur then
        max <- int_arith (mid - 1);;
        intsetSearch_loop fuel s value min max mid cur
      else Some (min, mid, cur)
    else Some (min, mid, cur)
  end.

(** Returns the result and the value stored through [pos]. *)
Definition intsetSearch (s : intset) (value : Z) : option (bool * Z) :=
  let len := intrev32ifbe (is_length s) in
  let max := sint 32 (len - 1) in
  let loop :=
    ' (min, mid, cur) <- intsetSearch_loop (S (Z.to_nat len)) s value 0 max (-1) (-1);;
    if value =? cur then Some (true, mid) else Some (false, min) in
  if len =? 0 then Some (false, 0)
  else
    last <- _intsetGet s (sint 32 (len - 1));;
    if value >? last then Some (false, len)
    else
      first <- _intsetGet s 0;;
      if value <? first then Some (false, 0)
      else loop.

(** [while(length--) _intsetSet(is,length+prepend,_intsetGetEncoded(is,length,curenc));] *)
Fixpoint intsetUpgrade_loop (length : nat) (s : intset) (prepend curenc : Z) : option intset :=
  match length with
  | O => Some s
  | S length =>
    v <- _intsetGetEncoded s (Z.of_nat length) curenc;;
    s <- _intsetSet s (Z.of_nat length + prepend) v;;
    intsetUpgrade_loop length s prepend curenc
  end.

Definition intsetUpgradeAndAdd (s : intset) (value : Z) : option intset :=
  let curenc := uint 8 (intrev32ifbe (is_encoding s)) in
  let newenc := _intsetValueEncoding value in
  let length := sint 32 (intrev32ifbe (is_length s)) in
  let prepend := if value <? 0 then 1 else 0 in
  let s := set_encoding s (intrev32ifbe newenc) in
  let s := intsetResize s (uint 32 (intrev32ifbe (is_length s) + 1)) in
  s <- (if length <? 0 then None else intsetUpgrade_loop (Z.to_nat length) s prepend curenc);;
  s <- (if prepend =? 1 then _intsetSet s 0 value
        else _intsetSet s (sint 32 (intrev32ifbe (is_length s))) value);;
  Some (set_length s (intrev32ifbe (uint 32 (intrev32ifbe (is_length s) + 1)))).

Definition intsetMoveTail (s : intset) (from to : Z) : option intset :=
  let bytes := uint 32 (intrev32ifbe (is_length s) - from) in
  let encoding := intrev32ifbe (is_encoding s) in
  let w := if encoding =? INTSET_ENC_INT64 then 8
           else if encoding =? INTSET_ENC_INT32 then 4 else 2 in
  c <- memmove (is_contents s) (to * w) (from * w) (uint 32 (bytes * w));;
  Some (set_contents s c).

(** Returns the set and the value stored through [success]. *)
Definition intsetAdd (s : intset) (value : Z) : option (intset * bool) :=
  let valenc := _intsetValueEncoding value in
  if valenc >? intrev32ifbe (is_encoding s) then
    s <- intsetUpgradeAndAdd s value;; Some (s, true)
  else
    ' (found, pos) <- intsetSearch s value;;
    if found then Some (s, false)
    else
      let s := intsetResize s (uint 32 (intrev32ifbe (is_length s) + 1)) in
      s <- (if pos <? intrev32ifbe (is_length s)
            then intsetMoveTail s pos (uint 32 (pos + 1)) else Some s);;
      s <- _intsetSet s (sint 32 pos) value;;
      Some (set_length s (intrev32ifbe (uint 32 (intrev32ifbe (is_length s) + 1))), true).

Definition intsetRemove (s : intset) (value : Z) : option (intset * bool) :=
  let valenc := _intsetValueEncoding value in
  if valenc <=? intrev32ifbe (is_encoding s) then
    ' (found, pos) <- intsetSearch s value;;
    if found then
      let len := intrev32ifbe (is_length s) in
      s <- (if pos <? uint 32 (len - 1)
            then intsetMoveTail s (uint 32 (pos + 1)) pos else Some s);;
      let s := intsetResize s (uint 32 (len - 1)) in
      Some (set_length s (intrev32ifbe (uint 32 (len - 1))), true)
    else Some (s, false)
  else Some (s, false).

Definition intsetFind (s : intset) (value : Z) : option bool :=
  let valenc := _intsetValueEncoding value in
  if valenc <=? intrev32ifbe (is_encoding s) then
    r <- intsetSearch s value;; Some (fst r)
  else Some false.

(** [rand()] is the argument [r]. *)
Definition intsetRandom (s : intset) (r : Z) : option Z :=
  let len := intrev32ifbe (is_length s) in
  if len =? 0 then None
  else _intsetGet s (sint 32 (uint 32 r mod len)).

(** [None]: undefined; [Some None]: returns 0; [Some (Some v)]: returns 1, [*value = v]. *)
Definition intsetGet (s : intset) (pos : Z) : option (option Z) :=
  if pos <? intrev32ifbe (is_length s)
  then v <- _intsetGet s (sint 32 pos);; Some (Some v)
  else Some None.

Definition intsetLen (s : intset) : Z := intrev32ifbe (is_length s).

Definition intsetBlobLen (s : intset) : Z :=
  sizeof_intset + uint 32 (intrev32ifbe (is_length s) * intrev32ifbe (is_encoding s)).

(** ** Representation invariant *)

Definition enc_ok (e : Z) : Prop := e = 2 \/ e = 4 \/ e = 8.

(** The elements of [l], [e] bytes each, little endian. *)
Definition encodes (e : Z) (l : list Z) : bytes :=
  concat (le_encode (Z.to_nat e) <$> l).

Definition rep_enc (e : Z) (s : intset) (l : list Z) : Prop :=
  enc_ok e /\
  is_encoding s = intrev32ifbe e /\
  is_length s = intrev32ifbe (msize l) /\
  is_contents s = encodes e l /\
  Forall (in_sint (8 * e)) l /\
  StronglySorted Z.lt l /\
  msize l < 2 ^ 29.

Definition rep (s : intset) (l : list Z) : Prop := exists e, rep_enc e s l.

Lemma enc_range e : enc_ok e -> 0 <= e < 256.
Proof. unfold enc_ok; lia. Qed.

Lemma enc_rev e : enc_ok e -> intrev32ifbe (intrev32ifbe e) = e.
Proof. intros He%enc_range. apply intrev32ifbe_involutive. lia. Qed.

Lemma len_rev (l : list Z) : msize l < 2 ^ 29 -> intrev32ifbe (intrev32ifbe (msize l)) = msize l.
Proof. intros. apply intrev32ifbe_involutive. pose proof (msize_nonneg l). lia. Qed.

Lemma msize_encodes e l : 0 <= e -> msize (encodes e l) = msize l * e.
Proof.
  intros He. unfold encodes. induction l as [|x l IH]; [done|].
  rewrite fmap_cons. cbn [concat]. rewrite msize_app, msize_cons, msize_le_encode, IH. lia.
Qed.

Lemma encodes_app e l k : encodes e (l ++ k) = encodes e l ++ encodes e k.
Proof. unfold encodes. by rewrite fmap_app, concat_app. Qed.

Lemma encodes_cons e x l : encodes e (x :: l) = le_encode (Z.to_nat e) x ++ encodes e l.
Proof. done. Qed.

Lemma encodes_nil e : encodes e [] = [].
Proof. done. Qed.

(** ** Element access *)

Lemma sint_decode_encode n v :
  (0 < n)%nat -> in_sint (8 * Z.of_nat n) v ->
  sint (8 * Z.of_nat n) (le_decode (le_encode n v)) = v.
Proof. intros. rewrite le_decode_encode, sint_uint by lia. apply sint_id; [done|lia]. Qed.

Lemma intsetGetEncoded_at e s pos l1 v l2 :
  enc_ok e -> is_contents s = l1 ++ le_encode (Z.to_nat e) v ++ l2 ->
  msize l1 = pos * e -> in_sint (8 * e) v ->
  _intsetGetEncoded s pos e = Some v.
Proof.
  intros He Hc Hl Hv. unfold _intsetGetEncoded. rewrite Hc.
  destruct He as [-> | [-> | ->]]; cbn [Z.eqb Pos.eqb];
    ostep by (apply (load_at l1 _ l2); [done|lia|by rewrite msize_le_encode]).
  - destruct (memrev16ifbe_decode (le_encode 2 v)) as (x & E & D); [done|].
    ostep by exact E. rewrite D. f_equal. by apply (sint_decode_encode 2); [lia|].
  - destruct (memrev32ifbe_decode (le_encode 4 v)) as (x & E & D); [done|].
    ostep by exact E. rewrite D. f_equal. by apply (sint_decode_encode 4); [lia|].
  - destruct (memrev64ifbe_decode (le_encode 8 v)) as (x & E & D); [done|].
    ostep by exact E. rewrite D. f_equal. by apply (sint_decode_encode 8); [lia|].
Qed.

Lemma intsetSet_at e s pos l1 old l2 v :
  enc_ok e -> is_encoding s = intrev32ifbe e ->
  is_contents s = l1 ++ old ++ l2 -> msize l1 = pos * e -> msize old = e ->
  _intsetSet s pos v = Some (set_contents s (l1 ++ le_encode (Z.to_nat e) v ++ l2)).
Proof.
  intros He Hse Hc Hl Ho. unfold _intsetSet. rewrite Hse, enc_rev, Hc by done.
  destruct He as [-> | [-> | ->]]; cbn [Z.eqb Pos.eqb];
    ostep by (apply (store_at l1 old l2); [done|lia|unfold msize in *; by rewrite length_host_encode]).
  - ostep by (apply (memrev16ifbe_encode l1 v l2); [done|lia]). done.
  - ostep by (apply (memrev32ifbe_encode l1 v l2); [done|lia]). done.
  - ostep by (apply (memrev64ifbe_encode l1 v l2); [done|lia]). done.
Qed.

Lemma intsetGet_rep e s l1 v l2 pos :
  rep_enc e s (l1 ++ v :: l2) -> pos = msize l1 -> _intsetGet s pos = Some v.
Proof.
  intros (He & Hse & _ & Hc & Hf & _) ->. unfold _intsetGet.
  pose proof (enc_range e He).
  rewrite Hse, enc_rev, uint_id by (done || lia).
  apply (intsetGetEncoded_at e s _ (encodes e l1) v (encodes e l2)); [done|..].
  - by rewrite Hc, encodes_app.
  - apply msize_encodes. lia.
  - by apply Forall_app in Hf as [_ [? _]%Forall_cons_iff].
Qed.

(** ** Search *)

Lemma sorted_middle (l1 : list Z) v l2 :
  StronglySorted Z.lt (l1 ++ v :: l2) ->
  Forall (fun x => x < v) l1 /\ Forall (fun x => v < x) l2.
Proof.
  induction l1 as [|x l1 IH]; simpl; intros [Hs Hf]%StronglySorted_inv; [by split|].
  destruct (IH Hs) as [? ?]. apply Forall_app in Hf as [_ [? _]%Forall_cons_iff].
  split; [by constructor|done].
Qed.

(** Positions of [value]: found at [pos], or to be inserted at [pos]. *)
Definition search_result (l : list Z) (value : Z) (found : bool) (pos : Z) : Prop :=
  exists l1 l2, pos = msize l1 /\
    if found then l = l1 ++ value :: l2
    else l = l1 ++ l2 /\ Forall (fun x => x < value) l1 /\ Forall (fun x => value < x) l2.

Lemma list_split_Z {A} (l : list A) (i : Z) :
  0 <= i < msize l -> exists l1 x l2, l = l1 ++ x :: l2 /\ msize l1 = i.
Proof.
  intros Hi. destruct (lookup_lt_is_Some_2 l (Z.to_nat i)) as [x Hx];
    [unfold msize in *; lia|].
  exists (take (Z.to_nat i) l), x, (drop (S (Z.to_nat i)) l).
  rewrite take_drop_middle by done. split; [done|].
  unfold msize in *. rewrite length_take. lia.
Qed.

Lemma intsetSearch_loop_spec fuel e s l value a m b mid0 cur0 :
  rep_enc e s l -> l = a ++ m ++ b ->
  Forall (fun x => x < value) a -> Forall (fun x => value < x) b ->
  msize m < Z.of_nat fuel -> (m = [] -> cur0 <> value) ->
  exists found pos min mid cur,
    intsetSearch_loop fuel s value (msize a) (msize a + msize m - 1) mid0 cur0
      = Some (min, mid, cur) /\
    found = (value =? cur) /\ pos = (if found then mid else min) /\
    search_result l value found pos.
Proof.
  revert a m b mid0 cur0. induction fuel as [|fuel IH]; intros a m b mid0 cur0 Hr Hl Ha Hb Hf Hc.
  { pose proof (msize_nonneg m); lia. }
  pose proof Hr as (_ & _ & _ & _ & _ & Hs & Hlen). rewrite Hl in Hlen.
  cbn [intsetSearch_loop].
  destruct (Z.eqb_spec (msize m) 0) as [Hm0|Hm0].
  { apply msize_0_nil in Hm0 as ->. rewrite msize_nil. bdecide.
    exists false, (msize a). do 3 eexists. split; [done|].
    rewrite (proj2 (Z.eqb_neq value cur0)) by (symmetry; by apply Hc).
    split; [done|]. split; [done|]. by exists a, b. }
  assert (0 <= msize a /\ 0 < msize m /\ 0 <= msize b /\ msize a + msize m + msize b < 2 ^ 29)
    as (? & ? & ? & ?).
  { pose proof (msize_nonneg a); pose proof (msize_nonneg b); pose proof (msize_nonneg m).
    rewrite !msize_app in Hlen. lia. }
  rewrite (proj2 (Z.geb_le _ _)) by lia.
  rewrite int_arith_Some by lia. cbn [obind].
  set (k := Z.quot (msize a + (msize a + msize m - 1)) 2).
  assert (Hk : 0 <= k - msize a < msize m).
  { unfold k. rewrite Z.quot_div_nonneg by lia.
    pose proof (Z.div_mod (msize a + (msize a + msize m - 1)) 2 ltac:(lia)).
    pose proof (Z.mod_pos_bound (msize a + (msize a + msize m - 1)) 2 ltac:(lia)). lia. }
  destruct (list_split_Z m (k - msize a) Hk) as (m1 & x & m2 & Em & Hm1).
  assert (El : l = (a ++ m1) ++ x :: (m2 ++ b)).
  { rewrite Hl, Em, <- !app_assoc. done. }
  assert (Hx : _intsetGet s k = Some x).
  { eapply intsetGet_rep; [by rewrite <- El|]. rewrite msize_app. lia. }
  rewrite Hx. cbn [obind].
  pose proof Hs as Hs'. rewrite El in Hs'. apply sorted_middle in Hs' as [Hlt Hgt].
  assert (Hsz : msize m = msize m1 + 1 + msize m2) by (rewrite Em; msolve).
  rewrite Z.gtb_ltb. destruct (Z.ltb_spec x value) as [Hxv|Hxv].
  - rewrite int_arith_Some by lia. cbn [obind].
    destruct (IH (a ++ m1 ++ [x]) m2 b k x Hr) as (found & pos & min & mid & cur & E & R);
      [by rewrite El, <- !app_assoc| |done|lia|lia|].
    { rewrite app_assoc. apply Forall_app. split; [|by repeat constructor].
      eapply Forall_impl; [|exact Hlt]. simpl; lia. }
    exists found, pos, min, mid, cur. split; [|done].
    rewrite <- E. rewrite !msize_app, msize_cons, msize_nil.
    f_equal; lia.
  - destruct (Z.ltb_spec value x) as [Hvx|Hvx].
    + rewrite int_arith_Some by lia. cbn [obind].
      destruct (IH a m1 (x :: m2 ++ b) k x Hr) as (found & pos & min & mid & cur & E & R);
        [by rewrite El, <- !app_assoc|done| |lia|lia|].
      { constructor; [done|]. eapply Forall_impl; [|exact Hgt]. simpl; lia. }
      exists found, pos, min, mid, cur. split; [|done]. rewrite <- E. f_equal; lia.
    + assert (x = value) as -> by lia.
      exists true, k. do 3 eexists. split; [done|].
      rewrite Z.eqb_refl. split; [done|]. split; [done|].
      exists (a ++ m1), (m2 ++ b). split; [rewrite msize_app; lia|done].
Qed.

Lemma intsetSearch_spec e s l value :
  rep_enc e s l ->
  exists found pos, intsetSearch s value = Some (found, pos) /\ search_result l value found pos.
Proof.
  intros Hr. pose proof Hr as (He & _ & Hl & _ & _ & Hs & Hlen).
  unfold intsetSearch. rewrite Hl, len_rev by done.
  pose proof (msize_nonneg l).
  destruct (Z.eqb_spec (msize l) 0) as [Hz|Hz].
  { exists false, 0. split; [done|]. apply msize_0_nil in Hz as ->. by exists [], []. }
  rewrite sint_id by (unfold in_sint; lia).
  destruct (list_split_Z l (msize l - 1)) as (l1 & x & l2 & El & Hl1); [lia|].
  assert (l2 = []) as ->.
  { apply msize_0_nil. apply (f_equal msize) in El. rewrite msize_app, msize_cons in El. lia. }
  rewrite (intsetGet_rep e s l1 x []) by (by rewrite <- ?El || lia). cbn [obind].
  rewrite Z.gtb_ltb. rewrite El in Hs.
  destruct (sorted_middle _ _ _ Hs) as [Hlt _]. rewrite <- El in Hs.
  destruct (Z.ltb_spec x value) as [Hxv|Hxv].
  { exists false, (msize l). split; [done|]. exists l, []. rewrite app_nil_r.
    repeat split; [|constructor]. rewrite El. apply Forall_app. split; [|by repeat constructor].
    eapply Forall_impl; [|exact Hlt]. simpl; lia. }
  destruct (list_split_Z l 0) as (k1 & y & k2 & Ek & Hk1); [lia|].
  apply msize_0_nil in Hk1 as ->.
  rewrite (intsetGet_rep e s [] y k2) by (by rewrite <- ?Ek). cbn [obind].
  pose proof Hs as Hs'. rewrite Ek in Hs'. destruct (sorted_middle _ _ _ Hs') as [_ Hgt].
  destruct (Z.ltb_spec value y) as [Hvy|Hvy].
  { exists false, 0. split; [done|]. exists [], l. repeat split; [constructor|].
    rewrite Ek. constructor; [done|]. eapply Forall_impl; [|exact Hgt]. simpl; lia. }
  destruct (intsetSearch_loop_spec (S (Z.to_nat (msize l))) e s l value [] l [] (-1) (-1))
    as (found & pos & min & mid & cur & E & -> & -> & R);
    [done|by rewrite app_nil_r|constructor|constructor|lia|by intros ->|].
  rewrite msize_nil in E. replace (msize l - 1) with (0 + msize l - 1) by lia.
  rewrite E. cbn [obind]. destruct (value =? cur); eauto.
Qed.

(** ** Value encodings *)

Lemma valenc_spec v :
  in_sint 64 v ->
  let e := _intsetValueEncoding v in
  enc_ok e /\ in_sint (8 * e) v /\ forall e', enc_ok e' -> in_sint (8 * e') v -> e <= e'.
Proof.
  unfold _intsetValueEncoding, in_sint, enc_ok, INTSET_ENC_INT64, INTSET_ENC_INT32, INTSET_ENC_INT16.
  intros Hv. rewrite !Z.gtb_ltb. bcase; (split; [auto|split; [lia|]]);
    intros e' [-> | [-> | ->]]; simpl; lia.
Qed.

Lemma enc_mono e e' v : enc_ok e -> enc_ok e' -> e <= e' -> in_sint (8 * e) v -> in_sint (8 * e') v.
Proof. intros ? ? ?. apply in_sint_mono. unfold enc_ok in *. lia. Qed.

Lemma valenc_gt_notin e s l v :
  rep_enc e s l -> in_sint 64 v -> e < _intsetValueEncoding v -> v ∉ l.
Proof.
  intros (He & _ & _ & _ & Hf & _) Hv Hlt Hin.
  destruct (valenc_spec v Hv) as (_ & _ & Hmin).
  rewrite List.Forall_forall in Hf. apply list_elem_of_In in Hin.
  specialize (Hmin e He (Hf v Hin)). lia.
Qed.

(** A value that needs a larger encoding lies outside the stored range. *)
Lemma valenc_gt_outside e l v :
  enc_ok e -> Forall (in_sint (8 * e)) l -> in_sint 64 v -> e < _intsetValueEncoding v ->
  if v <? 0 then Forall (fun x => v < x) l else Forall (fun x => x < v) l.
Proof.
  intros He Hf Hv Hlt. destruct (valenc_spec v Hv) as (_ & _ & Hmin).
  assert (Hn : ~ in_sint (8 * e) v) by (intros Hin; specialize (Hmin e He Hin); lia).
  assert (Hp : 0 < 2 ^ (8 * e - 1)) by (apply Z.pow_pos_nonneg; unfold enc_ok in He; lia).
  unfold in_sint in *. destruct (Z.ltb_spec v 0);
    (eapply Forall_impl; [|exact Hf]); simpl; intros x Hx; lia.
Qed.

(** ** Sorted lists *)

Lemma sorted_split (l1 l2 : list Z) :
  StronglySorted Z.lt (l1 ++ l2) ->
  StronglySorted Z.lt l1 /\ StronglySorted Z.lt l2 /\
  (forall x y, x ∈ l1 -> y ∈ l2 -> x < y).
Proof.
  induction l1 as [|a l1 IH]; simpl; intros Hs.
  - split; [constructor|]. split; [done|]. intros x y Hx. by apply not_elem_of_nil in Hx.
  - apply StronglySorted_inv in Hs as [Hs Hf]. apply Forall_app in Hf as [Hf1 Hf2].
    destruct (IH Hs) as (? & ? & Hb). split; [by constructor|]. split; [done|].
    intros x y [->|Hx]%elem_of_cons Hy; [|by apply Hb].
    rewrite List.Forall_forall in Hf2. by apply Hf2, list_elem_of_In.
Qed.

Lemma sorted_join (l1 l2 : list Z) :
  StronglySorted Z.lt l1 -> StronglySorted Z.lt l2 ->
  (forall x y, x ∈ l1 -> y ∈ l2 -> x < y) -> StronglySorted Z.lt (l1 ++ l2).
Proof.
  induction l1 as [|a l1 IH]; simpl; intros Hs1 Hs2 Hb; [done|].
  apply StronglySorted_inv in Hs1 as [Hs1 Hf]. constructor.
  - apply IH; [done..|]. intros x y Hx. apply Hb. by constructor.
  - apply Forall_app; split; [done|]. apply List.Forall_forall.
    intros y Hy%list_elem_of_In. apply Hb; [constructor|done].
Qed.

Lemma sorted_insert (l1 : list Z) v l2 :
  StronglySorted Z.lt (l1 ++ l2) ->
  Forall (fun x => x < v) l1 -> Forall (fun x => v < x) l2 ->
  StronglySorted Z.lt (l1 ++ v :: l2).
Proof.
  intros (H1 & H2 & Hb)%sorted_split Hf1 Hf2. rewrite List.Forall_forall in Hf1.
  apply sorted_join; [done|by constructor|].
  intros x y Hx [->|Hy]%elem_of_cons; [|by apply Hb]. by apply Hf1, list_elem_of_In.
Qed.

Lemma sorted_delete (l1 : list Z) v l2 :
  StronglySorted Z.lt (l1 ++ v :: l2) -> StronglySorted Z.lt (l1 ++ l2).
Proof.
  intros (H1 & [H2 _]%StronglySorted_inv & Hb)%sorted_split. apply sorted_join; [done..|].
  intros x y Hx Hy. apply Hb; [done|by constructor].
Qed.

(** ** Upgrade *)

Lemma intsetUpgrade_loop_spec c e p s l J S :
  enc_ok c -> enc_ok e -> c <= e -> 0 <= p ->
  is_encoding s = intrev32ifbe e -> Forall (in_sint (8 * c)) l ->
  is_contents s = encodes c l ++ J ++ S ->
  msize J = (msize l + p) * e - msize l * c ->
  exists J', msize J' = p * e /\
    intsetUpgrade_loop (length l) s p c = Some (set_contents s (J' ++ encodes e l ++ S)).
Proof.
  intros Hc He Hle Hp. revert s J S. induction l as [|x l IH] using rev_ind;
    intros s J S Hse Hf Hcont HJ.
  { exists J. rewrite msize_nil in HJ. split; [lia|]. destruct s; simpl in *. by rewrite Hcont. }
  rewrite length_app. simpl. rewrite Nat.add_1_r. cbn [intsetUpgrade_loop].
  change (Z.of_nat (length l)) with (msize l).
  apply Forall_app in Hf as [Hf [Hx _]%Forall_cons_iff].
  pose proof (enc_range c Hc). pose proof (enc_range e He). pose proof (msize_nonneg l).
  rewrite msize_app, msize_cons, msize_nil in HJ.
  assert (Hcl : msize (encodes c l) = msize l * c) by (apply msize_encodes; lia).
  rewrite encodes_app, encodes_cons, encodes_nil, app_nil_r, <- app_assoc in Hcont.
  rewrite (intsetGetEncoded_at c s _ (encodes c l) x (J ++ S)) by done. cbn [obind].
  destruct (load_split (le_encode (Z.to_nat c) x ++ J) ((msize l + p) * e - msize l * c) e)
    as (J1 & J2 & J3 & EJ & HJ1 & HJ2).
  { assert (msize l * c <= msize l * e) by (apply Z.mul_le_mono_nonneg_l; lia). lia. }
  { lia. }
  { rewrite msize_app, msize_le_encode. lia. }
  assert (J3 = []) as ->.
  { apply msize_0_nil. apply (f_equal msize) in EJ.
    rewrite !msize_app, msize_le_encode in EJ. lia. }
  rewrite app_nil_r in EJ.
  rewrite (intsetSet_at e s _ (encodes c l ++ J1) J2 S x); [|done|done| |rewrite msize_app; lia|done].
  2: { rewrite Hcont, (app_assoc _ J), EJ, <- !app_assoc. done. }
  cbn [obind].
  destruct (IH (set_contents s ((encodes c l ++ J1) ++ le_encode (Z.to_nat e) x ++ S))
    J1 (le_encode (Z.to_nat e) x ++ S)) as (J' & HJ' & E); [done|done| |lia|].
  { simpl. by rewrite <- !app_assoc. }
  exists J'. split; [done|]. rewrite E.
  rewrite encodes_app, encodes_cons, encodes_nil, app_nil_r, <- !app_assoc. done.
Qed.

Lemma intsetUpgradeAndAdd_spec e s l v :
  rep_enc e s l -> in_sint 64 v -> e < _intsetValueEncoding v -> msize l + 1 < 2 ^ 29 ->
  exists s', intsetUpgradeAndAdd s v = Some s' /\
    rep_enc (_intsetValueEncoding v) s' (if v <? 0 then v :: l else l ++ [v]).
Proof.
  intros (He & Hse & Hsl & Hc & Hf & Hs & Hlen) Hv Hlt Hsz.
  destruct (valenc_spec v Hv) as (He' & Hvi & _). revert He' Hvi Hlt.
  pose proof (valenc_gt_outside e l v He Hf Hv) as Hout.
  set (e' := _intsetValueEncoding v) in *. intros He' Hvi Hlt. specialize (Hout Hlt).
  pose proof (enc_range e He). pose proof (enc_range e' He'). pose proof (msize_nonneg l).
  unfold intsetUpgradeAndAdd. fold e'. rewrite Hse, Hsl, (enc_rev e), len_rev, (uint_id 8 e) by (done || lia).
  rewrite sint_id by (unfold in_sint; lia). rewrite (proj2 (Z.ltb_ge _ _)) by lia.
  unfold intsetResize. cbn [is_length is_encoding is_contents set_encoding set_contents].
  rewrite ?Hsl, len_rev, (enc_rev e') by done.
  rewrite (uint_id 32 (msize l + 1)) by lia.
  assert (0 <= (msize l + 1) * e' < 2 ^ 32) by (unfold enc_ok in *; nia).
  rewrite (uint_id 32 ((msize l + 1) * e')) by lia.
  rewrite Hc, zrealloc_grow by (rewrite msize_encodes; nia).
  rewrite msize_encodes by lia.
  set (F := fresh _ _). assert (HF : msize F = (msize l + 1) * e' - msize l * e)
    by (apply msize_fresh; nia).
  set (p := if v <? 0 then 1 else 0). assert (Hp : 0 <= p <= 1) by (unfold p; bcase; lia).
  destruct (load_split F 0 (msize F - (1 - p) * e')) as (E0 & F1 & F2 & EF & HE0 & HF1); [lia|nia|nia|].
  symmetry in HE0. apply msize_0_nil in HE0 as ->. simpl in EF.
  assert (HF2 : msize F2 = (1 - p) * e').
  { apply (f_equal msize) in EF. rewrite msize_app in EF. lia. }
  assert (Hlen' : Z.to_nat (msize l) = length l) by (unfold msize; lia). rewrite Hlen'.
  match goal with |- context [intsetUpgrade_loop _ ?s0 _ _] =>
    destruct (intsetUpgrade_loop_spec e e' p s0 l F1 F2) as (J' & HJ' & E) end;
    [done|done|lia|lia|done|done|by rewrite EF|lia|].
  rewrite E. cbn [obind]. unfold p in *.
  assert (Hfe : Forall (in_sint (8 * e')) l).
  { eapply Forall_impl; [|exact Hf]. simpl. intros ? . apply enc_mono; [done|done|lia]. }
  destruct (Z.ltb_spec v 0); cbn [Z.eqb Pos.eqb].
  - assert (F2 = []) as -> by (apply msize_0_nil; lia).
    rewrite (intsetSet_at e' _ 0 [] J' (encodes e' l ++ [])) by (done || lia). cbn [obind].
    eexists; split; [done|]. unfold rep_enc. cbn -[msize].
    rewrite Hsl, len_rev, uint_id, msize_cons by (done || lia).
    repeat split; [done|f_equal; lia|by rewrite app_nil_r|by constructor| |lia].
    by constructor.
  - assert (J' = []) as -> by (apply msize_0_nil; lia). simpl app.
    cbn [is_length set_contents set_encoding]. rewrite ?Hsl, len_rev, sint_id by (done || unfold in_sint; lia).
    rewrite (intsetSet_at e' _ (msize l) (encodes e' l) F2 [])
      by (rewrite ?app_nil_r, ?msize_encodes; done || lia). cbn [obind].
    eexists; split; [done|]. unfold rep_enc. cbn -[msize].
    rewrite Hsl, len_rev, uint_id, msize_app, msize_cons, msize_nil by (done || lia).
    repeat split; [done|by rewrite encodes_app, encodes_cons| | |lia].
    + apply Forall_app; split; [done|by constructor].
    + apply sorted_insert; [by rewrite app_nil_r|done|constructor].
Qed.

(** ** Insertion and removal in place *)

Lemma move_width e s : enc_ok e -> is_encoding s = intrev32ifbe e ->
  (if intrev32ifbe (is_encoding s) =? INTSET_ENC_INT64 then 8
   else if intrev32ifbe (is_encoding s) =? INTSET_ENC_INT32 then 4 else 2) = e.
Proof. intros He ->. rewrite enc_rev by done. by destruct He as [-> | [-> | ->]]. Qed.

(** [intsetMoveTail] shifts the elements from index [from] on to index [to]. *)
Lemma intsetMoveTail_at e s (l : list Z) from to (A B C D : bytes) :
  enc_ok e -> is_encoding s = intrev32ifbe e -> is_length s = intrev32ifbe (msize l) ->
  msize l < 2 ^ 29 -> 0 <= from <= msize l ->
  is_contents s = A ++ B ++ C -> msize A = from * e -> msize B = (msize l - from) * e ->
  store (A ++ B ++ C) (to * e) B = Some D ->
  intsetMoveTail s from to = Some (set_contents s D).
Proof.
  intros He Hse Hsl Hlen Hfr Hc HA HB HD. unfold intsetMoveTail. cbv zeta.
  rewrite (move_width e) by done. rewrite Hsl, len_rev, (uint_id 32 (msize l - from)) by lia.
  rewrite uint_id by (unfold enc_ok in He; nia).
  ostep by (unfold memmove; rewrite Hc; ostep by (apply (load_at A B C); [done|lia|lia]); exact HD).
  done.
Qed.

(** Insertion of [v] between [l1] and [l2], encoding wide enough. *)
Lemma intsetAdd_place e s l1 l2 v :
  rep_enc e s (l1 ++ l2) -> in_sint (8 * e) v -> msize (l1 ++ l2) + 1 < 2 ^ 29 ->
  Forall (fun x => x < v) l1 -> Forall (fun x => v < x) l2 ->
  exists s',
    (let s := intsetResize s (uint 32 (intrev32ifbe (is_length s) + 1)) in
     s <- (if msize l1 <? intrev32ifbe (is_length s)
           then intsetMoveTail s (msize l1) (uint 32 (msize l1 + 1)) else Some s);;
     s <- _intsetSet s (sint 32 (msize l1)) v;;
     Some (set_length s (intrev32ifbe (uint 32 (intrev32ifbe (is_length s) + 1))), true))
    = Some (s', true) /\ rep_enc e s' (l1 ++ v :: l2).
Proof.
  intros (He & Hse & Hsl & Hc & Hf & Hs & Hlen) Hv Hsz H1 H2.
  pose proof (enc_range e He). pose proof (msize_nonneg l1). pose proof (msize_nonneg l2).
  assert (Hml : msize (l1 ++ l2) = msize l1 + msize l2) by apply msize_app.
  cbv zeta. unfold intsetResize. cbn [is_length set_contents].
  rewrite Hsl, len_rev, Hse, enc_rev by done.
  rewrite (uint_id 32 (msize (l1 ++ l2) + 1)) by lia.
  assert (0 <= (msize (l1 ++ l2) + 1) * e < 2 ^ 32) by (unfold enc_ok in *; nia).
  rewrite (uint_id 32 ((msize (l1 ++ l2) + 1) * e)) by lia.
  rewrite Hc, zrealloc_grow by (rewrite msize_encodes; nia). rewrite msize_encodes by lia.
  set (F := fresh _ _). assert (HF : msize F = e) by (etrans; [apply msize_fresh; nia|nia]).
  rewrite (uint_id 32 (msize l1 + 1)) by lia. rewrite encodes_app, <- app_assoc.
  assert (Hm1 : msize (encodes e l1) = msize l1 * e) by (apply msize_encodes; lia).
  assert (Hm2 : msize (encodes e l2) = msize l2 * e) by (apply msize_encodes; lia).
  (* after the move there is room for one element behind [l1] *)
  assert (exists G, msize G = e /\
    (if msize l1 <? msize (l1 ++ l2)
     then intsetMoveTail (set_contents s (encodes e l1 ++ encodes e l2 ++ F)) (msize l1) (msize l1 + 1)
     else Some (set_contents s (encodes e l1 ++ encodes e l2 ++ F)))
    = Some (set_contents s (encodes e l1 ++ G ++ encodes e l2))) as (G & HG & E).
  { destruct (Z.ltb_spec (msize l1) (msize (l1 ++ l2))) as [Hlt|Hge].
    - destruct (load_split (encodes e l2 ++ F) 0 e) as (E0 & G & R & EG & HE0 & HG);
        [lia|lia|rewrite msize_app; nia|].
      symmetry in HE0. apply msize_0_nil in HE0 as ->. simpl in EG.
      exists G. split; [done|].
      erewrite (intsetMoveTail_at e _ (l1 ++ l2) _ _ (encodes e l1) (encodes e l2) F
        (encodes e l1 ++ G ++ encodes e l2)); [done|done|done|done|lia|lia|done|done|lia|].
      rewrite EG, (store_at (encodes e l1 ++ G) R []); [by rewrite app_nil_r, <- app_assoc|..].
      + by rewrite app_nil_r, <- app_assoc.
      + rewrite msize_app. lia.
      + apply (f_equal msize) in EG. rewrite !msize_app in EG. lia.
    - assert (l2 = []) as -> by (apply msize_0_nil; lia).
      exists F. split; [done|]. by rewrite encodes_nil, app_nil_r. }
  rewrite E. cbn [obind]. rewrite sint_id by (unfold in_sint; lia).
  rewrite (intsetSet_at e _ (msize l1) (encodes e l1) G (encodes e l2)) by done. cbn [obind].
  cbn [is_length set_contents set_length]. rewrite Hsl, len_rev, uint_id by (done || lia).
  eexists; split; [done|]. apply Forall_app in Hf as [Hf1 Hf2].
  repeat split; cbn [is_encoding is_length is_contents set_contents set_length]; [done|done|..].
  - rewrite !msize_app, msize_cons. f_equal; lia.
  - by rewrite encodes_app.
  - apply Forall_app; split; [done|by constructor].
  - by apply sorted_insert.
  - rewrite msize_app, msize_cons. lia.
Qed.

(** Removal of [v] between [l1] and [l2]. *)
Lemma intsetRemove_place e s l1 v l2 :
  rep_enc e s (l1 ++ v :: l2) ->
  exists s',
    (let len := intrev32ifbe (is_length s) in
     s <- (if msize l1 <? uint 32 (len - 1)
           then intsetMoveTail s (uint 32 (msize l1 + 1)) (msize l1) else Some s);;
     let s := intsetResize s (uint 32 (len - 1)) in
     Some (set_length s (intrev32ifbe (uint 32 (len - 1))), true))
    = Some (s', true) /\ rep_enc e s' (l1 ++ l2).
Proof.
  intros (He & Hse & Hsl & Hc & Hf & Hs & Hlen).
  pose proof (enc_range e He). pose proof (msize_nonneg l1). pose proof (msize_nonneg l2).
  assert (Hml : msize (l1 ++ v :: l2) = msize l1 + 1 + msize l2) by (rewrite msize_app, msize_cons; lia).
  cbv zeta. rewrite Hsl, len_rev, Hml, !uint_id by lia.
  rewrite encodes_app, encodes_cons in Hc.
  assert (Hm1 : msize (encodes e l1) = msize l1 * e) by (apply msize_encodes; lia).
  assert (Hm2 : msize (encodes e l2) = msize l2 * e) by (apply msize_encodes; lia).
  set (V := le_encode (Z.to_nat e) v) in *.
  assert (HV : msize V = e) by (unfold V; rewrite msize_le_encode; lia).
  assert (exists G, msize G = e /\
    (if msize l1 <? msize l1 + 1 + msize l2 - 1
     then intsetMoveTail s (msize l1 + 1) (msize l1) else Some s)
    = Some (set_contents s (encodes e l1 ++ encodes e l2 ++ G))) as (G & HG & E).
  { destruct (Z.ltb_spec (msize l1) (msize l1 + 1 + msize l2 - 1)) as [Hlt|Hge].
    - destruct (load_split (V ++ encodes e l2) (msize l2 * e) e) as (R & G & E0 & EG & HR & HG);
        [nia|lia|rewrite msize_app; lia|].
      assert (E0 = []) as ->.
      { apply msize_0_nil. apply (f_equal msize) in EG. rewrite !msize_app in EG. lia. }
      rewrite app_nil_r in EG. exists G. split; [done|].
      erewrite (intsetMoveTail_at e _ (l1 ++ v :: l2) _ _ (encodes e l1 ++ V) (encodes e l2) []
        (encodes e l1 ++ encodes e l2 ++ G)); [done|done|done|done|lia|lia|..].
      + by rewrite app_nil_r, <- app_assoc.
      + rewrite msize_app. lia.
      + lia.
      + rewrite app_nil_r, <- app_assoc, EG. by rewrite (store_at (encodes e l1) R G) by (done || lia).
    - assert (l2 = []) as -> by (apply msize_0_nil; lia).
      exists V. split; [done|]. rewrite encodes_nil in *. rewrite app_nil_r in Hc. simpl.
      by rewrite <- Hc; destruct s. }
  rewrite E. cbn [obind]. unfold intsetResize. cbn [is_encoding is_contents set_contents].
  rewrite Hse, enc_rev, uint_id by (done || unfold enc_ok in *; nia).
  rewrite app_assoc, zrealloc_shrink by (rewrite msize_app; lia).
  eexists; split; [done|]. apply Forall_app in Hf as [Hf1 [_ Hf2]%Forall_cons_iff].
  repeat split; cbn [is_encoding is_length is_contents set_contents set_length]; [done|done|..].
  - rewrite msize_app. f_equal; lia.
  - by rewrite encodes_app.
  - by apply Forall_app.
  - by eapply sorted_delete.
  - rewrite msize_app. lia.
Qed.

(** ** The operations on represented sets *)

Lemma search_result_found (l : list Z) v b pos :
  StronglySorted Z.lt l -> search_result l v b pos -> b = bool_decide (v ∈ l).
Proof.
  intros Hs (l1 & l2 & _ & Hb). destruct b.
  - rewrite bool_decide_true; [done|]. subst. set_solver.
  - rewrite bool_decide_false; [done|]. destruct Hb as (-> & H1 & H2).
    rewrite List.Forall_forall in H1, H2.
    intros [Hin|Hin]%elem_of_app; apply list_elem_of_In in Hin; [apply H1 in Hin|apply H2 in Hin]; lia.
Qed.

Lemma intsetNew_rep : rep intsetNew [].
Proof.
  exists 2. repeat split; [by left|..|constructor|constructor]; try done.
  unfold intrev32ifbe. cbn. destruct big_endian eqn:E; [|done].
  unfold intrev32, host_encode. rewrite E. vm_compute le_encode. vm_compute reverse.
  rewrite (memrev32_at [] 0 0 0 0 []) by done. cbn. unfold host_decode. by rewrite E.
Qed.

Lemma intsetAdd_correct s l v :
  rep s l -> in_sint 64 v -> msize l + 1 < 2 ^ 29 ->
  exists s' l1 l2, intsetAdd s v = Some (s', bool_decide (v ∉ l)) /\
    l = l1 ++ l2 /\
    rep s' (if bool_decide (v ∈ l) then l else l1 ++ v :: l2).
Proof.
  intros [e Hr] Hv Hsz. pose proof Hr as (He & Hse & Hsl & _ & Hf & Hs & Hlen).
  unfold intsetAdd. rewrite Hse, enc_rev, Z.gtb_ltb by done.
  destruct (Z.ltb_spec e (_intsetValueEncoding v)) as [Hlt|Hge].
  - pose proof (valenc_gt_notin e s l v Hr Hv Hlt) as Hni.
    destruct (intsetUpgradeAndAdd_spec e s l v Hr Hv Hlt Hsz) as (s' & -> & Hr').
    cbn [obind]. rewrite (bool_decide_true (v ∉ l)), (bool_decide_false (v ∈ l)) by done.
    exists s'. destruct (v <? 0).
    + exists [], l. repeat split. by eexists.
    + exists l, []. rewrite app_nil_r. repeat split. by eexists.
  - destruct (valenc_spec v Hv) as (He' & Hvi & _).
    destruct (intsetSearch_spec e s l v Hr) as (b & pos & -> & Hres). cbn [obind].
    pose proof (search_result_found l v b pos Hs Hres) as Hb.
    destruct b; symmetry in Hb.
    + apply bool_decide_eq_true in Hb. exists s, l, [].
      rewrite (bool_decide_false (v ∉ l)), bool_decide_true by (done || tauto).
      rewrite app_nil_r. repeat split. by eexists.
    + apply bool_decide_eq_false in Hb. rewrite (bool_decide_true (v ∉ l)), (bool_decide_false (v ∈ l)) by done.
      destruct Hres as (l1 & l2 & -> & -> & H1 & H2).
      destruct (intsetAdd_place e s l1 l2 v Hr) as (s' & E & Hr'); [|done|done|done|].
      { by eapply enc_mono. }
      cbv zeta in E. rewrite E. exists s', l1, l2. repeat split. by eexists.
Qed.

Lemma intsetRemove_correct s l v :
  rep s l -> in_sint 64 v ->
  exists s' l1 l2, intsetRemove s v = Some (s', bool_decide (v ∈ l)) /\
    (if bool_decide (v ∈ l) then l = l1 ++ v :: l2 /\ rep s' (l1 ++ l2) else s' = s).
Proof.
  intros [e Hr] Hv. pose proof Hr as (He & Hse & Hsl & _ & Hf & Hs & Hlen).
  unfold intsetRemove. rewrite Hse, enc_rev by done.
  destruct (Z.leb_spec (_intsetValueEncoding v) e) as [Hle|Hgt].
  - destruct (intsetSearch_spec e s l v Hr) as (b & pos & -> & Hres). cbn [obind].
    pose proof (search_result_found l v b pos Hs Hres) as Hb.
    destruct b; rewrite <- Hb.
    + destruct Hres as (l1 & l2 & -> & ->).
      destruct (intsetRemove_place e s l1 v l2 Hr) as (s' & E & Hr').
      cbv zeta in E. rewrite E. exists s', l1, l2. repeat split. by eexists.
    + by exists s, [], [].
  - pose proof (valenc_gt_notin e s l v Hr Hv Hgt). rewrite bool_decide_false by done.
    by exists s, [], [].
Qed.

Lemma intsetFind_correct s l v :
  rep s l -> in_sint 64 v -> intsetFind s v = Some (bool_decide (v ∈ l)).
Proof.
  intros [e Hr] Hv. pose proof Hr as (He & Hse & Hsl & _ & Hf & Hs & Hlen).
  unfold intsetFind. rewrite Hse, enc_rev by done.
  destruct (Z.leb_spec (_intsetValueEncoding v) e) as [Hle|Hgt].
  - destruct (intsetSearch_spec e s l v Hr) as (b & pos & -> & Hres). cbn [obind fst].
    by rewrite (search_result_found l v b pos Hs Hres).
  - pose proof (valenc_gt_notin e s l v Hr Hv Hgt). by rewrite bool_decide_false.
Qed.

Lemma intsetGet_correct s l pos :
  rep s l -> 0 <= pos < 2 ^ 32 -> intsetGet s pos = Some (l !! Z.to_nat pos).
Proof.
  intros [e Hr] Hp. pose proof Hr as (He & Hse & Hsl & _ & Hf & Hs & Hlen).
  unfold intsetGet. rewrite Hsl, len_rev by done.
  destruct (Z.ltb_spec pos (msize l)) as [Hlt|Hge].
  - destruct (list_split_Z l pos) as (l1 & x & l2 & -> & <-); [lia|].
    rewrite sint_id by (unfold in_sint; lia).
    rewrite (intsetGet_rep e s l1 x l2) by done. cbn [obind].
    unfold msize. by rewrite Nat2Z.id, list_lookup_middle.
  - by rewrite lookup_ge_None_2 by (unfold msize in *; lia).
Qed.

Lemma intsetLen_correct s l : rep s l -> intsetLen s = msize l.
Proof. intros (e & _ & _ & Hsl & _ & _ & _ & Hlen). unfold intsetLen. by rewrite Hsl, len_rev. Qed.

(** ** Refinement of finite sets

    A client runs any sequence of operations; the specification is the same
    sequence on a finite set. *)

Inductive intset_op := OpAdd (v : Z) | OpRemove (v : Z) | OpFind (v : Z).

Definition op_value (o : intset_op) : Z :=
  match o with OpAdd v | OpRemove v | OpFind v => v end.

Definition step_impl (s : intset) (o : intset_op) : option (intset * bool) :=
  match o with
  | OpAdd v => intsetAdd s v
  | OpRemove v => intsetRemove s v
  | OpFind v => b <- intsetFind s v;; Some (s, b)
  end.

Definition step_spec (X : gset Z) (o : intset_op) : gset Z * bool :=
  match o with
  | OpAdd v => ({[v]} ∪ X, bool_decide (v ∉ X))
  | OpRemove v => (X ∖ {[v]}, bool_decide (v ∈ X))
  | OpFind v => (X, bool_decide (v ∈ X))
  end.

Fixpoint run_impl (s : intset) (ops : list intset_op) : option (intset * list bool) :=
  match ops with
  | [] => Some (s, [])
  | o :: ops =>
    ' (s, b) <- step_impl s o;;
    ' (s, bs) <- run_impl s ops;;
    Some (s, b :: bs)
  end.

Fixpoint run_spec (X : gset Z) (ops : list intset_op) : gset Z * list bool :=
  match ops with
  | [] => (X, [])
  | o :: ops => let '(X, b) := step_spec X o in let '(X, bs) := run_spec X ops in (X, b :: bs)
  end.

Definition models (s : intset) (X : gset Z) : Prop :=
  exists l, rep s l /\ list_to_set l = X.

Lemma models_elem l (X : gset Z) v : list_to_set l = X -> (v ∈ X <-> v ∈ l).
Proof. intros <-. apply elem_of_list_to_set. Qed.

Lemma models_size s (X : gset Z) : models s X -> intsetLen s = Z.of_nat (size X).
Proof.
  intros (l & Hr & <-). rewrite (intsetLen_correct s l Hr). destruct Hr as (e & _ & _ & _ & _ & _ & Hs & _).
  rewrite size_list_to_set; [done|]. clear -Hs. induction Hs as [|x l Hs IH Hf]; constructor; [|done].
  intros Hin%list_elem_of_In. rewrite List.Forall_forall in Hf. specialize (Hf _ Hin). lia.
Qed.

Lemma step_refines s (X : gset Z) o :
  models s X -> in_sint 64 (op_value o) -> Z.of_nat (size X) + 1 < 2 ^ 29 ->
  exists s', step_impl s o = Some (s', snd (step_spec X o)) /\ models s' (fst (step_spec X o)).
Proof.
  intros Hm Hv Hsz. pose proof (models_size s X Hm) as Hlen.
  destruct Hm as (l & Hr & HX). rewrite (intsetLen_correct s l Hr) in Hlen.
  assert (Hin : forall v, bool_decide (v ∈ X) = bool_decide (v ∈ l))
    by (intros; apply bool_decide_ext, (models_elem l X v HX)).
  assert (Hni : forall v, bool_decide (v ∉ X) = bool_decide (v ∉ l))
    by (intros w; apply bool_decide_ext; pose proof (models_elem l X w HX); tauto).
  destruct o as [v|v|v]; cbn [op_value step_impl step_spec fst snd] in *; rewrite ?Hin, ?Hni.
  - destruct (intsetAdd_correct s l v Hr Hv) as (s' & l1 & l2 & E & El & Hr'); [lia|].
    exists s'. split; [done|]. destruct (bool_decide_reflect (v ∈ l)) as [Hi|Hi].
    + exists l. split; [done|]. set_solver.
    + exists (l1 ++ v :: l2). split; [done|]. subst. set_solver.
  - destruct (intsetRemove_correct s l v Hr Hv) as (s' & l1 & l2 & E & Hr').
    exists s'. split; [done|]. destruct (bool_decide_reflect (v ∈ l)) as [Hi|Hi].
    + destruct Hr' as [-> Hr']. exists (l1 ++ l2). split; [done|].
      destruct Hr as (e & _ & _ & _ & _ & _ & Hs & _).
      destruct (sorted_middle _ _ _ Hs) as [H1 H2]. rewrite List.Forall_forall in H1, H2.
      apply set_eq. intros x. rewrite <- HX, elem_of_difference, !elem_of_list_to_set, !elem_of_app, elem_of_cons.
      rewrite elem_of_singleton. split; [|naive_solver].
      intros [Hx|Hx]; split; auto; apply list_elem_of_In in Hx; [apply H1 in Hx|apply H2 in Hx]; lia.
    + subst s'. exists l. split; [done|]. set_solver.
  - rewrite (intsetFind_correct s l v Hr Hv). cbn [obind]. exists s. split; [done|]. by exists l.
Qed.

Lemma step_spec_size X o : (size (fst (step_spec X o)) <= S (size X))%nat.
Proof.
  assert (Hd : forall v, (size (X ∖ {[v]}) <= size X)%nat)
    by (intros v; apply subseteq_size; set_solver).
  destruct o as [v|v|v]; cbn [step_spec fst]; [|specialize (Hd v); lia|lia].
  rewrite size_union_alt, size_singleton. specialize (Hd v). lia.
Qed.

Lemma run_refines s (X : gset Z) ops :
  models s X -> Forall (fun o => in_sint 64 (op_value o)) ops ->
  Z.of_nat (size X) + msize ops < 2 ^ 29 ->
  exists s', run_impl s ops = Some (s', snd (run_spec X ops)) /\ models s' (fst (run_spec X ops)).
Proof.
  revert s X. induction ops as [|o ops IH]; intros s X Hm Hf Hsz; cbn [run_impl run_spec]; [eauto|].
  apply Forall_cons_iff in Hf as [Hv Hf]. rewrite msize_cons in Hsz. pose proof (msize_nonneg ops).
  destruct (step_refines s X o Hm Hv) as (s1 & -> & Hm1); [lia|]. cbn [obind].
  pose proof (step_spec_size X o) as Hss. destruct (step_spec X o) as [X1 b]; cbn [fst snd] in *.
  destruct (IH s1 X1 Hm1 Hf) as (s2 & -> & Hm2); [lia|]. cbn [obind].
  destruct (run_spec X1 ops) as [X2 bs]. eauto.
Qed.
End Intset.

(** * Theorems *)



(** Binary search on a well-formed intset terminates within its bounds and
    without [int] overflow; it answers whether the value is stored and gives
    its index, or the index at which inserting it keeps the order. *)
Theorem intset_search_correct `{Host} (s : intset) (l : list Z) (value : Z) :
  rep s l ->
  exists found pos, intsetSearch s value = Some (found, pos) /\
    search_result l value found pos /\ found = bool_decide (value ∈ l).
Proof.
  intros [e Hr]. destruct (intsetSearch_spec e s l value Hr) as (b & pos & E & R).
  exists b, pos. repeat split; [done|done|].
  eapply search_result_found; [|done]. apply Hr.
Qed.

Lemma intset_search_correct_witness :
  exists found pos, @intsetSearch le_host (@intsetNew le_host) 3 = Some (found, pos) /\
    search_result [] 3 found pos /\ found = bool_decide (3 ∈ []).
Proof. apply (@intset_search_correct le_host), intsetNew_rep. Defined.

(** Adding a value that does not fit the current encoding re-encodes every
    element in place, back to front, and puts the new value at the end it
    belongs to; the result uses the encoding of the new value. *)
Theorem intset_upgrade_correct `{Host} (e : Z) (s : intset) (l : list Z) (v : Z) :
  rep_enc e s l -> in_sint 64 v -> e < _intsetValueEncoding v -> msize l + 1 < 2 ^ 29 ->
  exists s', intsetUpgradeAndAdd s v = Some s' /\
    rep_enc (_intsetValueEncoding v) s' (if v <? 0 then v :: l else l ++ [v]).
Proof. apply intsetUpgradeAndAdd_spec. Qed.

Lemma rep_enc_16 : @rep_enc le_host 2 (mkIntset 2 2 [255; 255; 7; 0]) [-1; 7].
Proof.
  repeat split; [by left|repeat constructor; vm_compute; congruence|repeat constructor; lia].
Qed.

Lemma intset_upgrade_correct_witness :
  exists s', @intsetUpgradeAndAdd le_host (mkIntset 2 2 [255; 255; 7; 0]) (-40000) = Some s' /\
    @rep_enc le_host 4 s' [-40000; -1; 7].
Proof.
  apply (@intset_upgrade_correct le_host 2 _ [-1; 7] (-40000));
    [exact rep_enc_16|vm_compute; intuition congruence|reflexivity|reflexivity].
Defined.

(** The byte count of a reallocation is computed in 32 bits: adding a new
    element to a set of 2^29 - 1 64-bit elements asks for a block of length 0,
    and the following write is out of bounds. *)
Theorem intset_add_overflow `{Host} (s : intset) (l : list Z) (v : Z) :
  rep_enc 8 s l -> msize l = 2 ^ 29 - 1 -> in_sint 64 v -> v ∉ l -> intsetAdd s v = None.
Proof.
  intros Hr Hl Hv Hni. pose proof Hr as (He & Hse & Hsl & _ & _ & Hs & Hlen).
  unfold intsetAdd. rewrite Hse, enc_rev by done.
  destruct (valenc_spec v Hv) as (_ & Hvi & Hmin).
  rewrite Z.gtb_ltb, (proj2 (Z.ltb_ge _ _)) by (apply Hmin; [by right; right|done]).
  destruct (intsetSearch_spec 8 s l v Hr) as (b & pos & -> & Hres). cbn [obind].
  pose proof (search_result_found l v b pos Hs Hres) as Hb.
  rewrite bool_decide_false in Hb by done. subst b.
  destruct Hres as (l1 & l2 & -> & El & _). subst l.
  unfold intsetResize. cbn [is_length set_contents].
  rewrite Hsl, len_rev, Hl, Hse, enc_rev by done.
  rewrite (uint_id 32 (2 ^ 29 - 1 + 1)) by lia.
  change (uint 32 ((2 ^ 29 - 1 + 1) * 8)) with 0.
  set (s0 := set_contents s (zrealloc _ 0)).
  assert (Hc : is_contents s0 = []).
  { unfold s0, zrealloc, fresh. cbn [is_contents set_contents].
    by rewrite seqZ_nil by (pose proof (msize_nonneg (is_contents s)); lia). }
  rewrite msize_app in Hl. pose proof (msize_nonneg l1). pose proof (msize_nonneg l2).
  assert (Hs0 : _intsetSet s0 (msize l1) v = None).
  { unfold _intsetSet. change (is_encoding s0) with (is_encoding s).
    rewrite Hse, enc_rev, Hc by done. cbn [Z.eqb Pos.eqb INTSET_ENC_INT64]. unfold store.
    change (msize (@nil Z)) with 0. replace (msize (host_encode 8 v)) with 8
      by (unfold msize; by rewrite length_host_encode). by bdecide. }
  destruct (Z.ltb_spec (msize l1) (2 ^ 29 - 1)) as [Hlt|Hge].
  - assert (Hm : intsetMoveTail s0 (msize l1) (uint 32 (msize l1 + 1)) = None); [|by rewrite Hm].
    unfold intsetMoveTail. cbv zeta. rewrite (move_width 8) by done.
    rewrite Hc. unfold memmove, load.
    change (is_length s0) with (is_length s). rewrite Hsl, len_rev, msize_app by (rewrite msize_app; lia).
    rewrite !uint_id by (rewrite ?uint_id; lia).
    change (msize (@nil Z)) with 0. by bdecide.
  - cbn [obind]. rewrite sint_id by (unfold in_sint; lia). by rewrite Hs0.
Qed.

(** The set {0, ..., n-1} with 64-bit elements. *)
Definition range_intset (n : Z) : intset := mkIntset 8 n (encodes 8 (seqZ 0 n)).

Lemma msize_seqZ a n : 0 <= n -> msize (seqZ a n) = n.
Proof. intros. unfold msize. rewrite length_seqZ. lia. Qed.

Lemma sorted_seqZ a n : StronglySorted Z.lt (seqZ a n).
Proof.
  destruct (Z.le_gt_cases 0 n) as [Hn|Hn]; [|rewrite seqZ_nil by lia; constructor].
  revert a. pattern n. apply natlike_ind; [|clear n Hn; intros n Hn IH a|done].
  - intros a. rewrite seqZ_nil by lia. constructor.
  - rewrite seqZ_cons by lia. constructor; [rewrite Z.pred_succ; apply IH|].
    apply List.Forall_forall. intros x Hx%list_elem_of_In%elem_of_seqZ. lia.
Qed.

Lemma range_intset_rep n : 0 <= n < 2 ^ 29 -> @rep_enc le_host 8 (range_intset n) (seqZ 0 n).
Proof.
  intros Hn. unfold rep_enc, range_intset. cbn [is_encoding is_length is_contents].
  rewrite msize_seqZ by lia. repeat split; [by right; right| |apply sorted_seqZ|lia].
  apply List.Forall_forall. intros x Hx%list_elem_of_In%elem_of_seqZ. unfold in_sint. lia.
Qed.

Lemma intset_add_overflow_witness : @intsetAdd le_host (range_intset (2 ^ 29 - 1)) (-1) = None.
Proof.
  apply (@intset_add_overflow le_host _ (seqZ 0 (2 ^ 29 - 1))).
  - apply range_intset_rep. lia.
  - apply msize_seqZ. lia.
  - unfold in_sint. lia.
  - intros Hx%elem_of_seqZ. lia.
Defined.
