(* ===== verification/Util.v ===== *)
(** String and number conversion: util.c.

    Strings are byte blocks; a C pointer is a block and an offset, a read
    outside the block is [None].  The parsing and printing of [long long]
    are shown to be exact inverses of each other: [string2ll] accepts exactly
    the canonical decimal notations of 64-bit integers, and [ll2string]
    produces them. *)

From S2P Require Import Prelude.

Definition LLONG_MAX := 2 ^ 63 - 1.
Definition LLONG_MIN := - 2 ^ 63.
Definition ULLONG_MAX := 2 ^ 64 - 1.

(** Signed [long long] arithmetic: overflow is undefined. *)
Definition ll_arith (v : Z) : option Z :=
  if (LLONG_MIN <=? v) && (v <=? LLONG_MAX) then Some v else None.

Lemma ll_arith_Some v : LLONG_MIN <= v <= LLONG_MAX -> ll_arith v = Some v.
Proof. intros Hv. unfold ll_arith. by rewrite (proj2 (Z.leb_le _ _)), (proj2 (Z.leb_le _ _)) by lia. Qed.

Definition is_digit (c : Z) : bool := (48 <=? c) && (c <=? 57).

(** * ll2string *)

(** [do { *p-- = '0'+(v%10); v /= 10; } while(v);] *)
Fixpoint ll2string_loop (fuel : nat) (buf : bytes) (p v : Z) : option (bytes * Z) :=
  match fuel with
  | O => None
  | S fuel =>
    buf <- store8 buf p (48 + v mod 10);;
    let p := p - 1 in
    let v := v / 10 in
    if v =? 0 then Some (buf, p) else ll2string_loop fuel buf p v
  end.

(** Writes into the block [s] of (at least) [len] bytes; returns it with the
    number of characters. *)
Definition ll2string `{Host} (s : bytes) (len value : Z) : option (bytes * Z) :=
  if len =? 0 then Some (s, 0) else
  v <- (if value <? 0 then ll_arith (- value) else Some value);;
  ' (buf, p) <- ll2string_loop 32 (zmalloc 32) 31 v;;
  ' (buf, p) <- (if value <? 0 then buf <- store8 buf p 45;; Some (buf, p - 1) else Some (buf, p));;
  let p := p + 1 in
  let l := 32 - p in
  let l := if l + 1 >? len then len - 1 else l in
  bs <- load buf p l;;
  s <- store s 0 bs;;
  s <- store8 s l 0;;
  Some (s, l).

(** * string2ll *)

(** [while (plen < slen && p[0] >= '0' && p[0] <= '9') {...}]: [inl] is the
    early [return 0], [inr (v, plen)] the state after the loop. *)
Fixpoint string2ll_loop (fuel : nat) (s : bytes) (slen p v : Z) : option (unit + Z * Z) :=
  match fuel with
  | O => None
  | S fuel =>
    if p <? slen then
      c <- load8 s p;;
      if is_digit c then
        if v >? ULLONG_MAX / 10 then Some (inl tt)
        else
          let v := uint 64 (v * 10) in
          if v >? ULLONG_MAX - (c - 48) then Some (inl tt)
          else string2ll_loop fuel s slen (p + 1) (uint 64 (v + (c - 48)))
      else Some (inr (v, p))
    else Some (inr (v, p))
  end.

(** [Some None]: returns 0; [Some (Some v)]: returns 1 and [*value = v].
    [p - s] always equals [plen], one offset stands for both. *)
Definition string2ll (s : bytes) (slen : Z) : option (option Z) :=
  if 0 =? slen then Some None else
  c0 <- load8 s 0;;
  if (slen =? 1) && (c0 =? 48) then Some (Some 0) else
  let negative := c0 =? 45 in
  let p := if negative then 1 else 0 in
  if negative && (p =? slen) then Some None else
  c <- load8 s p;;
  if (49 <=? c) && (c <=? 57) then
    r <- string2ll_loop (S (Z.to_nat slen)) s slen (p + 1) (c - 48);;
    match r with
    | inl _ => Some None
    | inr (v, p) =>
      if p <? slen then Some None
      else if negative then
        if v >? 2 ^ 63 then Some None
        else Some (Some (sint 64 (uint 64 (- v))))
      else
        if v >? LLONG_MAX then Some None
        else Some (Some v)
    end
  else if (c =? 48) && (slen =? 1) then Some (Some 0)
  else Some None.

(** [long] is 64 bits wide. *)
Definition string2l (s : bytes) (slen : Z) : option (option Z) :=
  r <- string2ll s slen;;
  match r with
  | None => Some None
  | Some llval =>
    if (llval <? LLONG_MIN) || (llval >? LLONG_MAX) then Some None else Some (Some llval)
  end.

(** * Decimal notation *)

(** Value of a string of digits, most significant first, after a prefix of
    value [acc]. *)
Fixpoint dec_value (acc : Z) (ds : bytes) : Z :=
  match ds with
  | [] => acc
  | d :: ds => dec_value (acc * 10 + (d - 48)) ds
  end.

(** Canonical notation of a natural number: digits, no leading zero except
    for "0" itself. *)
Definition canonical (ds : bytes) : Prop :=
  Forall (fun d => 48 <= d <= 57) ds /\
  match ds with [] => False | [_] => True | d :: _ => d <> 48 end.

(** [s] is the canonical decimal notation of [v]; there is no "-0". *)
Definition decimal (s : bytes) (v : Z) : Prop :=
  (canonical s /\ dec_value 0 s = v) \/
  (exists ds, s = 45 :: ds /\ canonical ds /\ dec_value 0 ds = - v /\ v < 0).

Abbreviation digits := (Forall (fun d => 48 <= d <= 57)).

Lemma is_digit_spec c : reflect (48 <= c <= 57) (is_digit c).
Proof. apply iff_reflect. unfold is_digit. rewrite andb_true_iff, !Z.leb_le. done. Qed.

Lemma dec_value_app acc a b : dec_value acc (a ++ b) = dec_value (dec_value acc a) b.
Proof. revert acc. induction a; simpl; auto. Qed.

Lemma dec_value_acc acc ds : dec_value acc ds = acc * 10 ^ msize ds + dec_value 0 ds.
Proof.
  revert acc. induction ds as [|d ds IH]; intros acc; cbn [dec_value].
  - rewrite msize_nil. lia.
  - rewrite IH, (IH (0 * 10 + (d - 48))), msize_cons, Z.pow_add_r by (pose proof (msize_nonneg ds); lia). lia.
Qed.

Lemma dec_value_ge acc ds : digits ds -> 0 <= acc -> acc <= dec_value acc ds.
Proof.
  intros Hd. revert acc. induction Hd as [|d ds Hd _ IH]; intros acc Ha; cbn [dec_value]; [lia|].
  specialize (IH (acc * 10 + (d - 48))). lia.
Qed.

Lemma dec_value_range ds : digits ds -> 0 <= dec_value 0 ds < 10 ^ msize ds.
Proof.
  induction 1 as [|d ds Hd _ IH]; [done|]. cbn [dec_value].
  rewrite dec_value_acc, msize_cons, Z.pow_add_r by (pose proof (msize_nonneg ds); lia). nia.
Qed.

(** The longest prefix of digits. *)
Lemma digits_split (s : bytes) :
  exists D T, s = D ++ T /\ digits D /\ match T with [] => True | c :: _ => is_digit c = false end.
Proof.
  induction s as [|c s (D & T & -> & HD & HT)]; [by exists [], []|].
  destruct (is_digit_spec c) as [Hc|Hc].
  - exists (c :: D), T. split; [done|]. split; [by constructor|done].
  - exists [], (c :: D ++ T). repeat split; [constructor|]. by destruct (is_digit_spec c).
Qed.

Lemma string2ll_loop_spec fuel s A D T v :
  s = A ++ D ++ T -> digits D ->
  match T with [] => True | c :: _ => is_digit c = false end ->
  0 <= v <= ULLONG_MAX -> msize D < Z.of_nat fuel ->
  string2ll_loop fuel s (msize s) (msize A) v =
    Some (if dec_value v D <=? ULLONG_MAX then inr (dec_value v D, msize A + msize D) else inl tt).
Proof.
  intros -> HD HT. revert fuel A v. induction HD as [|d D Hd HD IH]; intros fuel A v Hv Hf;
    (destruct fuel as [|fuel]; [msolve|]);
    cbn [string2ll_loop dec_value].
  - rewrite (proj2 (Z.leb_le _ _)) by lia. cbn [app]. rewrite !msize_app.
    change (msize (@nil Z)) with 0. rewrite Z.add_0_r. destruct T as [|c T].
    + change (msize (@nil Z)) with 0. by bdecide.
    + pose proof (msize_nonneg T). rewrite msize_cons. bdecide.
      rewrite (load8_at A c T) by done. cbn [obind]. by rewrite HT.
  - rewrite !msize_app, !msize_cons in *. pose proof (msize_nonneg D); pose proof (msize_nonneg T).
    bdecide. rewrite (load8_at A d (D ++ T)) by done. cbn [obind].
    destruct (is_digit_spec d); [|done].
    pose proof (dec_value_ge (v * 10 + (d - 48)) D HD) as Hge. unfold ULLONG_MAX in *.
    rewrite !Z.gtb_ltb. destruct (Z.ltb_spec ((2 ^ 64 - 1) / 10) v) as [Hov|Hov].
    { assert (2 ^ 64 - 1 < v * 10) by (change ((2 ^ 64 - 1) / 10) with 1844674407370955161 in Hov; lia).
      by bdecide. }
    assert (v * 10 < 2 ^ 64) by (change ((2 ^ 64 - 1) / 10) with 1844674407370955161 in Hov; lia).
    rewrite (uint_id 64 (v * 10)) by lia.
    destruct (Z.ltb_spec (2 ^ 64 - 1 - (d - 48)) (v * 10)) as [Hov2|Hov2].
    { by bdecide. }
    rewrite uint_id by lia.
    specialize (IH fuel (A ++ [d]) (v * 10 + (d - 48))).
    rewrite <- app_assoc in IH. simpl in IH.
    autorewrite with cmem in IH. rewrite Z.add_0_r in IH.
    replace (msize A + (1 + msize D + msize T)) with (msize A + (1 + (msize D + msize T))) by lia.
    cbn [app]. rewrite IH by lia. by rewrite Z.add_assoc.
Qed.

(** The result on an optional sign, a digit 1-9, further digits, and a rest. *)
Lemma string2ll_body s (neg : bool) c D T :
  s = (if neg then [45] else []) ++ c :: D ++ T -> 49 <= c <= 57 -> digits D ->
  match T with [] => True | c :: _ => is_digit c = false end ->
  string2ll s (msize s) = Some
    (let v := dec_value 0 (c :: D) in
     match T with
     | [] => if neg then (if v <=? 2 ^ 63 then Some (- v) else None)
             else (if v <=? LLONG_MAX then Some v else None)
     | _ => None
     end).
Proof.
  intros Hs Hc HD HT.
  assert (Hsz : msize s = (if neg then 1 else 0) + 1 + msize D + msize T)
    by (rewrite Hs; destruct neg; autorewrite with cmem; lia).
  pose proof (msize_nonneg D); pose proof (msize_nonneg T).
  unfold string2ll. rewrite (proj2 (Z.eqb_neq 0 (msize s))) by (destruct neg; lia).
  assert (Hl0 : load8 s 0 = Some (if neg then 45 else c)) by (rewrite Hs; by destruct neg).
  assert (Hl1 : load8 s (if neg then 1 else 0) = Some c) by (rewrite Hs; by destruct neg).
  rewrite Hl0. cbn [obind].
  assert (Hn : ((if neg then 45 else c) =? 45) = neg) by (destruct neg; [done|by bdecide]).
  rewrite Hn, (proj2 (Z.eqb_neq _ 48)), andb_false_r by (destruct neg; lia).
  rewrite (proj2 (Z.eqb_neq (if neg then 1 else 0) (msize s))), andb_false_r by (destruct neg; lia).
  rewrite Hl1. cbn [obind]. bdecide.
  pose proof (string2ll_loop_spec (S (Z.to_nat (msize s))) s ((if neg then [45] else []) ++ [c]) D T (c - 48)) as E.
  autorewrite with cmem in E.
  replace (msize (if neg then [45] else [])) with (if neg then 1 else 0) in E by by destruct neg.
  rewrite Z.add_0_r in E. rewrite E; clear E; [|by rewrite Hs, <- app_assoc|done|done|unfold ULLONG_MAX; lia|destruct neg; lia].
  cbn [obind]. change (dec_value 0 (c :: D)) with (dec_value (c - 48) D).
  set (v := dec_value (c - 48) D). cbv zeta.
  assert (Hv : 0 < v) by (pose proof (dec_value_ge (c - 48) D HD ltac:(lia)); lia).
  destruct (Z.leb_spec v ULLONG_MAX) as [Hle|Hgt]; unfold ULLONG_MAX, LLONG_MAX in *.
  - destruct T as [|t T].
    + change (msize (@nil Z)) with 0 in Hsz. rewrite (proj2 (Z.ltb_ge _ _)) by (destruct neg; lia).
      rewrite !Z.gtb_ltb. destruct neg; bcase; try done; try lia.
      do 2 f_equal. rewrite sint_uint, sint_id by (unfold in_sint; lia). done.
    + rewrite msize_cons in Hsz. pose proof (msize_nonneg T).
      by rewrite (proj2 (Z.ltb_lt _ _)) by (destruct neg; lia).
  - destruct T; destruct neg; bdecide; done.
Qed.

Lemma dec_value_inj_1 a ds : 49 <= a -> digits ds -> 0 < dec_value 0 (a :: ds).
Proof. intros Ha Hd. cbn [dec_value]. pose proof (dec_value_ge (0 * 10 + (a - 48)) ds Hd). lia. Qed.

(** The result when no digit 1-9 follows the optional sign. *)
Lemma string2ll_other s (neg : bool) c R :
  s = (if neg then [45] else []) ++ c :: R -> ~ 49 <= c <= 57 -> (neg = false -> c <> 45) ->
  string2ll s (msize s) = Some (if negb neg && (c =? 48) && (msize s =? 1) then Some 0 else None).
Proof.
  intros Hs Hc Hc45. pose proof (msize_nonneg R).
  assert (Hsz : msize s = (if neg then 1 else 0) + 1 + msize R)
    by (rewrite Hs; destruct neg; autorewrite with cmem; lia).
  unfold string2ll. rewrite (proj2 (Z.eqb_neq 0 (msize s))) by (destruct neg; lia).
  assert (Hl0 : load8 s 0 = Some (if neg then 45 else c)) by (rewrite Hs; by destruct neg).
  assert (Hl1 : load8 s (if neg then 1 else 0) = Some c) by (rewrite Hs; by destruct neg).
  rewrite Hl0. cbn [obind].
  assert (Hn : ((if neg then 45 else c) =? 45) = neg)
    by (destruct neg; [done|]; apply Z.eqb_neq; auto).
  rewrite Hn. destruct ((msize s =? 1) && ((if neg then 45 else c) =? 48)) eqn:E1.
  { apply andb_true_iff in E1 as [E1 E2]. destruct neg; bprop; [lia|]. subst c. by rewrite E1. }
  rewrite (proj2 (Z.eqb_neq (if neg then 1 else 0) (msize s))), andb_false_r by (destruct neg; lia).
  rewrite Hl1. cbn [obind].
  replace ((49 <=? c) && (c <=? 57)) with false; [|symmetry; apply andb_false_iff; rewrite !Z.leb_gt; lia].
  destruct neg; cbn [negb andb]; [|by destruct ((c =? 48) && (msize s =? 1))].
  rewrite (proj2 (Z.eqb_neq (msize s) 1)), andb_false_r by lia. done.
Qed.

(** Every non-empty string is a sign or not, then a first character. *)
Lemma sign_split (s : bytes) :
  s = [] \/ s = [45] \/
  exists (neg : bool) c R, s = (if neg then [45] else []) ++ c :: R /\ (neg = false -> c <> 45).
Proof.
  destruct s as [|c s]; [by left|right]. destruct (decide (c = 45)) as [->|Hc].
  - destruct s as [|d s]; [by left|right]. by exists true, d, s.
  - right. by exists false, c, s.
Qed.

Lemma string2ll_total (s : bytes) : exists r, string2ll s (msize s) = Some r.
Proof.
  destruct (sign_split s) as [->|[->|(neg & c & R & Hs & Hn)]]; [by eexists..|].
  destruct (decide (49 <= c <= 57)) as [Hc|Hc]; [|rewrite (string2ll_other s neg c R) by done; eauto].
  destruct (digits_split R) as (D & T & -> & HD & HT).
  rewrite (string2ll_body s neg c D T) by done. eauto.
Qed.

Lemma canonical_nonzero c D : 49 <= c <= 57 -> digits D -> canonical (c :: D).
Proof. intros. split; [constructor; [lia|done]|]. destruct D; [done|lia]. Qed.

Lemma string2ll_sound (s : bytes) v :
  string2ll s (msize s) = Some (Some v) -> decimal s v /\ in_sint 64 v.
Proof.
  destruct (sign_split s) as [->|[->|(neg & c & R & Hs & Hn)]]; [done..|].
  destruct (decide (49 <= c <= 57)) as [Hc|Hc].
  - destruct (digits_split R) as (D & T & -> & HD & HT).
    rewrite (string2ll_body s neg c D T) by done. cbv zeta.
    pose proof (dec_value_inj_1 c D ltac:(lia) HD). set (w := dec_value 0 (c :: D)) in *.
    unfold LLONG_MAX, in_sint. destruct T; [|done]. rewrite app_nil_r in Hs.
    destruct neg; bcase; try done; intros [= <-]; subst s; (split; [|lia]).
    + right. exists (c :: D). split; [done|]. split; [by apply canonical_nonzero|]. split; lia.
    + left. split; [|done]. by apply canonical_nonzero.
  - rewrite (string2ll_other s neg c R) by done.
    destruct neg; cbn [negb andb]; [done|]. bcase; intros [= <-].
    subst. cbn [app] in *. rewrite msize_cons in *.
    assert (R = []) as -> by (apply msize_0_nil; lia). split; [|unfold in_sint; lia].
    left. split; [|done]. split; [by repeat constructor|done].
Qed.

Lemma string2ll_complete (s : bytes) v :
  decimal s v -> in_sint 64 v -> string2ll s (msize s) = Some (Some v).
Proof.
  unfold in_sint. intros [[[Hd Hc] Hv]|(ds & -> & [Hd Hc] & Hv & Hneg)] Hr.
  - destruct s as [|c D]; [done|]. apply Forall_cons_iff in Hd as [Hcd HD].
    destruct (decide (c = 48)) as [->|Hne].
    + destruct D; [|done]. by subst v.
    + rewrite (string2ll_body (c :: D) false c D []); [|by rewrite app_nil_r|lia|done|done].
      cbv zeta. rewrite Hv. unfold LLONG_MAX. by bdecide.
  - destruct ds as [|c D]; [done|]. apply Forall_cons_iff in Hd as [Hcd HD].
    assert (c <> 48).
    { intros ->. destruct D; [|done]. cbn in Hv. lia. }
    rewrite (string2ll_body (45 :: c :: D) true c D []); [|by rewrite app_nil_r|lia|done|done].
    cbv zeta. rewrite Hv. bdecide. by rewrite Z.opp_involutive.
Qed.

(** ** Printing *)

Lemma ll2string_loop_spec fuel A R p v :
  p = msize A - 1 -> 0 <= v < 10 ^ Z.of_nat fuel -> Z.of_nat fuel <= msize A -> (0 < fuel)%nat ->
  exists A' D, ll2string_loop fuel (A ++ R) p v = Some (A' ++ D ++ R, msize A' - 1) /\
    msize A = msize A' + msize D /\ msize D <= Z.of_nat fuel /\ canonical D /\ dec_value 0 D = v.
Proof.
  revert A R p v. induction fuel as [|fuel IH]; intros A R p v -> Hv HA Hf; [lia|].
  destruct A as [|a A _] using rev_ind; [rewrite msize_nil in HA; lia|].
  rewrite msize_app, msize_cons, msize_nil in *. cbn [ll2string_loop].
  pose proof (Z.mod_pos_bound v 10 ltac:(lia)) as Hmod.
  pose proof (Z.div_mod v 10 ltac:(lia)) as Hdm.
  rewrite (store8_at A a R) by (rewrite <- ?app_assoc; done || lia). cbn [obind].
  rewrite uint_id by lia.
  destruct (Z.eqb_spec (v / 10) 0) as [Hz|Hz].
  - exists A, [48 + v mod 10]. split; [do 2 f_equal; lia|]. rewrite msize_cons, msize_nil.
    repeat split; try lia; [repeat constructor; lia|cbn [dec_value]; lia].
  - destruct fuel as [|fuel'].
    { exfalso. change (10 ^ Z.of_nat 1) with 10 in Hv. rewrite Z.div_small in Hz by lia. lia. }
    assert (0 <= v / 10 < 10 ^ Z.of_nat (S fuel')).
    { split; [apply Z.div_pos; lia|]. apply Z.div_lt_upper_bound; [lia|].
      rewrite <- Z.pow_succ_r by lia. rewrite <- Nat2Z.inj_succ. lia. }
    destruct (IH A ((48 + v mod 10) :: R) (msize A + (1 + 0) - 1 - 1) (v / 10))
      as (A' & D & E & H1 & H2 & [H3 H4] & H5); [lia|done|lia|lia|].
    rewrite E. exists A', (D ++ [48 + v mod 10]). rewrite <- app_assoc. split; [done|].
    rewrite msize_app, msize_cons, msize_nil. split; [lia|]. split; [lia|]. split.
    + split; [apply Forall_app; split; [done|by repeat constructor; lia]|].
      destruct D as [|d [|d' D]]; try done. cbn [app].
      cbn [dec_value] in H5. lia.
    + rewrite dec_value_app, H5. cbn [dec_value]. lia.
Qed.

Lemma canonical_ge D : canonical D -> 1 < msize D -> 10 ^ (msize D - 1) <= dec_value 0 D.
Proof.
  intros [Hd Hh] Hsz. destruct D as [|d D]; [done|].
  apply Forall_cons_iff in Hd as [Hd HD]. rewrite msize_cons in *.
  destruct D as [|d' D]; [rewrite msize_nil in Hsz; lia|]. change (d <> 48) in Hh.
  revert HD. generalize (d' :: D) as DD. intros DD HD. cbn [dec_value].
  rewrite dec_value_acc. pose proof (dec_value_range DD HD).
  replace (1 + msize DD - 1) with (msize DD) by lia.
  assert (1 * 10 ^ msize DD <= (0 * 10 + (d - 48)) * 10 ^ msize DD)
    by (apply Z.mul_le_mono_nonneg_r; lia). lia.
Qed.

(** The three steps that print a number from the end of a local buffer, shared
    by the functions that convert numbers. *)
Lemma ll_print_spec `{Host} value : LLONG_MIN < value <= LLONG_MAX ->
  exists v buf p A ds, (if value <? 0 then ll_arith (- value) else Some value) = Some v /\
    ll2string_loop 32 (zmalloc 32) 31 v = Some (buf, p) /\
    (if value <? 0 then buf <- store8 buf p 45;; Some (buf, p - 1) else Some (buf, p)) = Some (A ++ ds, msize A - 1) /\
    msize A + msize ds = 32 /\ 0 < msize ds <= 20 /\ decimal ds value.
Proof.
  unfold LLONG_MIN, LLONG_MAX. intros Hv. set (v := if value <? 0 then - value else value).
  assert (Hvv : (if value <? 0 then ll_arith (- value) else Some value) = Some v).
  { unfold v, ll_arith, LLONG_MIN, LLONG_MAX. destruct (Z.ltb_spec value 0); [|done]. by bdecide. }
  assert (Hvr : 0 <= v < 2 ^ 63) by (unfold v; bcase; lia).
  assert (Hm : msize (zmalloc 32) = 32) by (by apply msize_fresh).
  destruct (ll2string_loop_spec 32 (zmalloc 32) [] 31 v) as (A & D & E & HA & HD & Hcan & Hval);
    [lia|split; [lia|]; etrans; [apply Hvr|done]|lia|lia|].
  rewrite app_nil_r in E. rewrite app_nil_r in E.
  assert (HDs : 1 <= msize D <= 19).
  { split; [destruct D; [by destruct Hcan|rewrite msize_cons; pose proof (msize_nonneg D); lia]|].
    destruct (Z.le_gt_cases (msize D) 19) as [|Hgt]; [done|exfalso].
    pose proof (canonical_ge D Hcan ltac:(lia)).
    assert (10 ^ 19 <= 10 ^ (msize D - 1)) by (apply Z.pow_le_mono_r; lia). lia. }
  exists v, (A ++ D), (msize A - 1). unfold v in *. destruct (Z.ltb_spec value 0).
  - destruct A as [|a A _] using rev_ind; [rewrite msize_nil in HA; lia|].
    rewrite msize_app, msize_cons, msize_nil in *.
    exists A, (45 :: D). rewrite msize_cons. do 2 (split; [done|]).
    rewrite (store8_at A a D) by (rewrite <- ?app_assoc; done || lia). cbn [obind].
    split; [do 2 f_equal; lia|]. split; [lia|]. split; [lia|]. right. exists D. split; [done|]. split; [done|lia].
  - exists A, D. do 3 (split; [done|]). split; [lia|]. split; [lia|]. by left.
Qed.

(** With a large enough buffer, [ll2string] writes the decimal notation. *)
Lemma ll2string_room `{Host} s len value :
  LLONG_MIN < value <= LLONG_MAX -> 21 <= len -> 21 <= msize s ->
  exists ds rest, ll2string s len value = Some (ds ++ 0 :: rest, msize ds) /\
    decimal ds value /\ 0 < msize ds <= 20 /\ msize ds + 1 + msize rest = msize s.
Proof.
  intros Hv Hlen Hbuf. unfold ll2string. bdecide.
  destruct (ll_print_spec value Hv) as (v & buf & p & A' & ds & -> & E2 & E3 & Hsz & Hds & Hdec). cbn [obind].
  rewrite E2. cbn [obind]. rewrite E3. cbn [obind].
  rewrite Z.gtb_ltb. rewrite (proj2 (Z.ltb_ge len _)) by lia.
  rewrite (load_at A' ds []) by (rewrite ?app_nil_r; done || lia). cbn [obind].
  destruct (load_split s 0 (msize ds)) as (s0 & s1 & s2 & -> & Hs0 & Hs1); [lia|lia|lia|].
  symmetry in Hs0. apply msize_0_nil in Hs0 as ->. cbn [app] in *. rewrite msize_app in *.
  rewrite (store_at [] s1 s2) by (done || lia). cbn [obind app].
  destruct s2 as [|b s2]; [rewrite msize_nil in *; lia|]. rewrite msize_cons in *.
  rewrite (store8_at ds b s2) by (done || lia). cbn [obind].
  exists ds, s2. split; [|split; [done|lia]]. do 2 f_equal. lia.
Qed.

Lemma ll2string_spec `{Host} s len value :
  LLONG_MIN < value <= LLONG_MAX -> 22 <= len <= msize s ->
  exists ds rest, ll2string s len value = Some (ds ++ 0 :: rest, msize ds) /\
    decimal ds value /\ 0 < msize ds <= 20 /\ msize ds + 1 + msize rest = msize s.
Proof. intros Hv Hlen. apply ll2string_room; [done|lia|lia]. Qed.

Lemma ll2string_min_undefined `{Host} s len :
  len <> 0 -> ll2string s len LLONG_MIN = None.
Proof. intros. unfold ll2string. bdecide. done. Qed.

(** ** Uniqueness of decimal notations *)

Lemma dec_value_inj D D' :
  digits D -> digits D' -> msize D = msize D' -> dec_value 0 D = dec_value 0 D' -> D = D'.
Proof.
  intros HD. revert D'. induction HD as [|d D Hd HD IH]; intros D' HD' Hsz Hv.
  - symmetry. apply msize_0_nil. rewrite <- Hsz. apply msize_nil.
  - destruct HD' as [|d' D' Hd' HD']; [rewrite msize_cons, msize_nil in Hsz; pose proof (msize_nonneg D); lia|].
    rewrite !msize_cons in Hsz. cbn [dec_value] in Hv.
    rewrite (dec_value_acc _ D), (dec_value_acc _ D') in Hv.
    assert (Hs : msize D' = msize D) by lia.
    pose proof (dec_value_range D HD). pose proof (dec_value_range D' HD') as HD'r.
    rewrite Hs in Hv, HD'r.
    assert (d = d') as -> by nia. f_equal. apply IH; [done|lia|lia].
Qed.

Lemma canonical_inj D D' : canonical D -> canonical D' -> dec_value 0 D = dec_value 0 D' -> D = D'.
Proof.
  intros HC HC' Hv. apply dec_value_inj; [apply HC|apply HC'| |done].
  assert (Hne : forall E, canonical E -> 1 <= msize E).
  { intros E [_ HE]. destruct E; [done|]. rewrite msize_cons. pose proof (msize_nonneg E). lia. }
  assert (Hle : forall E E', canonical E -> canonical E' -> dec_value 0 E = dec_value 0 E' -> msize E <= msize E').
  { intros E E' HE HE' HEv. pose proof (Hne E HE). pose proof (Hne E' HE').
    destruct (Z.le_gt_cases (msize E) (msize E')) as [|Hgt]; [done|exfalso].
    pose proof (canonical_ge E HE ltac:(lia)). pose proof (dec_value_range E' (proj1 HE')).
    assert (10 ^ msize E' <= 10 ^ (msize E - 1)) by (apply Z.pow_le_mono_r; lia). lia. }
  pose proof (Hle D D' HC HC' Hv). pose proof (Hle D' D HC' HC (eq_sym Hv)). lia.
Qed.

Lemma decimal_inj s s' v : decimal s v -> decimal s' v -> s = s'.
Proof.
  assert (Hnn : forall D, canonical D -> 0 <= dec_value 0 D) by (intros D [HD _]; by apply dec_value_range).
  intros [[HC Hv]|(D & -> & HC & Hv & Hneg)] [[HC' Hv']|(D' & -> & HC' & Hv' & Hneg')].
  - apply canonical_inj; [done..|lia].
  - specialize (Hnn s HC). lia.
  - specialize (Hnn s' HC'). lia.
  - f_equal. apply canonical_inj; [done..|lia].
Qed.

(** ** printf *)

Fixpoint print_digits (fuel : nat) (v : Z) (acc : bytes) : bytes :=
  match fuel with
  | O => acc
  | S fuel => let acc := (48 + v mod 10) :: acc in if v / 10 =? 0 then acc else print_digits fuel (v / 10) acc
  end.

(** What "%d" and "%lu" print; 20 digits are enough for 64 bits. *)
Definition printf_d (v : Z) : bytes := if v <? 0 then 45 :: print_digits 20 (- v) [] else print_digits 20 v [].

Lemma print_digits_spec fuel : forall v acc, 0 <= v < 10 ^ Z.of_nat (S fuel) ->
  exists ds, print_digits (S fuel) v acc = ds ++ acc /\ canonical ds /\ dec_value 0 ds = v.
Proof.
  induction fuel as [|fuel IH]; intros v acc Hv; cbn [print_digits]; pose proof (Z.mod_pos_bound v 10); pose proof (Z.div_mod v 10).
  - change (10 ^ Z.of_nat 1) with 10 in Hv. rewrite (Z.div_small v 10), (Z.mod_small v 10) by lia. cbn [Z.eqb].
    exists [48 + v]. split; [done|]. split; [split; [apply Forall_singleton; lia|done]|cbn [dec_value]; lia].
  - destruct (Z.eqb_spec (v / 10) 0) as [Hz|Hz].
    + exists [48 + v mod 10]. split; [done|]. split; [split; [apply Forall_singleton; lia|done]|cbn [dec_value]; lia].
    + assert (0 <= v / 10 < 10 ^ Z.of_nat (S fuel)) as Hq.
      { split; [apply Z.div_pos; lia|]. apply Z.div_lt_upper_bound; [lia|].
        replace (Z.of_nat (S (S fuel))) with (1 + Z.of_nat (S fuel)) in Hv by lia. rewrite Z.pow_add_r in Hv by lia. lia. }
      destruct (IH (v / 10) ((48 + v mod 10) :: acc) Hq) as (ds & E & [Hd Hc] & Hval). exists (ds ++ [48 + v mod 10]).
      split; [rewrite <- app_assoc; exact E|]. split; [split|].
      * apply list.Forall_app. split; [done|]. apply Forall_singleton. lia.
      * destruct ds as [|d [|d' ds]]; [done| |done]. cbn [app]. intros ->. cbn [dec_value] in Hval. lia.
      * rewrite dec_value_app, Hval. cbn [dec_value]. lia.
Qed.

Lemma printf_d_decimal v : - 10 ^ 20 < v < 10 ^ 20 -> decimal (printf_d v) v.
Proof.
  intros Hv. unfold printf_d. destruct (Z.ltb_spec v 0).
  - destruct (print_digits_spec 19 (- v) []) as (ds & E & Hc & Hd); [change (10 ^ Z.of_nat 20) with (10 ^ 20); lia|].
    right. exists ds. rewrite E, app_nil_r. done.
  - destruct (print_digits_spec 19 v []) as (ds & E & Hc & Hd); [change (10 ^ Z.of_nat 20) with (10 ^ 20); lia|].
    left. rewrite E, app_nil_r. done.
Qed.

Lemma printf_d_eq ds v : - 10 ^ 20 < v < 10 ^ 20 -> decimal ds v -> ds = printf_d v.
Proof. intros Hv Hd. eapply decimal_inj; [exact Hd|]. by apply printf_d_decimal. Qed.

(** [ll2string] prints what "%d" does. *)
Lemma ll2string_printf {HOST : Host} s len v : LLONG_MIN < v <= LLONG_MAX -> 21 <= len -> 21 <= msize s ->
  exists rest, ll2string s len v = Some (printf_d v ++ 0 :: rest, msize (printf_d v)) /\
    0 < msize (printf_d v) <= 20 /\ msize (printf_d v) + 1 + msize rest = msize s.
Proof.
  intros Hv Hl Hs. destruct (ll2string_room s len v Hv Hl Hs) as (ds & rest & E & Hd & H1 & H2).
  unfold LLONG_MIN, LLONG_MAX in Hv. rewrite (printf_d_eq ds v ltac:(lia) Hd) in *. by exists rest.
Qed.

(** * memtoll *)

(** [tolower] in the C locale. *)
Definition tolower (c : Z) : Z := if (65 <=? c) && (c <=? 90) then c + 32 else c.

(** [!strcasecmp(s + off, lit)] for a literal [lit]. *)
Fixpoint strcaseeq (s : bytes) (off : Z) (lit : bytes) : option bool :=
  c <- load8 s off;;
  match lit with
  | [] => Some (c =? 0)
  | l :: lit => if tolower c =? tolower l then strcaseeq s (off + 1) lit else Some false
  end.

(** [while ( *u && isdigit( *u)) u++;] *)
Fixpoint skip_digits (fuel : nat) (s : bytes) (u : Z) : option Z :=
  match fuel with
  | O => None
  | S fuel =>
    c <- load8 s u;;
    if negb (c =? 0) && is_digit c then skip_digits fuel s (u + 1) else Some u
  end.

(** [strtoll(buf,NULL,10)] on an optional minus sign followed by digits:
    out-of-range values are clamped. *)
Definition strtoll_digits (buf : bytes) : Z :=
  let v := match buf with
           | c :: ds => if c =? 45 then - dec_value 0 ds else dec_value 0 buf
           | [] => 0
           end in
  Z.max LLONG_MIN (Z.min LLONG_MAX v).

(** Units: "b" "k" "kb" "m" "mb" "g" "gb". *)
Fixpoint memtoll_unit (s : bytes) (u : Z) (units : list (bytes * Z)) : option (option Z) :=
  match units with
  | [] => Some None
  | (name, mul) :: units =>
    eq <- strcaseeq s u name;;
    if eq then Some (Some mul) else memtoll_unit s u units
  end.

Definition memtoll_units : list (bytes * Z) :=
  [([98], 1); ([107], 1000); ([107; 98], 1024); ([109], 1000 * 1000); ([109; 98], 1024 * 1024);
   ([103], 1000 * 1000 * 1000); ([103; 98], 1024 * 1024 * 1024)].

(** Returns the number of bytes and [*err]. *)
Definition memtoll (p : bytes) : option (Z * bool) :=
  c <- load8 p 0;;
  u <- skip_digits (S (length p)) p (if c =? 45 then 1 else 0);;
  cu <- load8 p u;;
  unit <- (if cu =? 0 then Some (Some 1) else memtoll_unit p u memtoll_units);;
  let err := match unit with Some _ => false | None => true end in
  let mul := match unit with Some mul => mul | None => 1 end in
  let digits := u in
  if digits >=? 128 then Some (LLONG_MAX, true) else
  buf <- load p 0 digits;;
  r <- ll_arith (strtoll_digits buf * mul);;
  Some (r, err).

Lemma load8_shift A t k : 0 <= k -> load8 (A ++ t) (msize A + k) = load8 t k.
Proof.
  intros. unfold load8. pose proof (msize_nonneg A). bdecide.
  rewrite lookup_app_r by (unfold msize in *; lia). f_equal. unfold msize. lia.
Qed.

Lemma strcaseeq_shift A t k lit : 0 <= k -> strcaseeq (A ++ t) (msize A + k) lit = strcaseeq t k lit.
Proof.
  revert k. induction lit as [|l lit IH]; intros k Hk; cbn [strcaseeq]; rewrite load8_shift by done; [done|].
  destruct (load8 t k) as [c|]; [|done]. cbn [obind]. destruct (_ =? _); [|done].
  rewrite <- Z.add_assoc. apply IH. lia.
Qed.

Lemma memtoll_unit_shift A t units :
  memtoll_unit (A ++ t) (msize A) units = memtoll_unit t 0 units.
Proof.
  induction units as [|[name mul] units IH]; [done|]. cbn [memtoll_unit].
  pose proof (strcaseeq_shift A t 0 name ltac:(lia)) as E. rewrite Z.add_0_r in E. rewrite E, IH. done.
Qed.

Lemma skip_digits_spec fuel A D c R :
  digits D -> is_digit c = false -> msize D < Z.of_nat fuel ->
  skip_digits fuel (A ++ D ++ c :: R) (msize A) = Some (msize A + msize D).
Proof.
  intros HD Hc. revert fuel A. induction HD as [|d D Hd HD IH]; intros fuel A Hf;
    (destruct fuel as [|fuel]; [msolve|]); cbn [skip_digits app].
  - rewrite (load8_at A c R) by done. cbn [obind].
    rewrite Hc, andb_false_r, msize_nil. f_equal; lia.
  - rewrite (load8_at A d (D ++ c :: R)) by done. cbn [obind].
    destruct (is_digit_spec d); [|done]. bdecide.
    specialize (IH fuel (A ++ [d])). rewrite <- app_assoc in IH. autorewrite with cmem in *.
    rewrite Z.add_0_r in IH. cbn [app] in IH. rewrite IH by lia. f_equal. lia.
Qed.

Lemma memtoll_spec D name mul :
  digits D -> D <> [] -> msize D < 128 -> (name, mul) ∈ (([], 1) :: memtoll_units) ->
  dec_value 0 D * mul <= LLONG_MAX ->
  memtoll (D ++ name ++ [0]) = Some (dec_value 0 D * mul, false).
Proof.
  intros HD Hne Hsz Hin Hle.
  destruct D as [|d D]; [done|]. pose proof HD as [Hd HDt]%Forall_cons_iff.
  pose proof (dec_value_range (d :: D) HD) as Hnn.
  unfold memtoll. change (load8 ((d :: D) ++ _) 0) with (Some d). cbn [obind].
  rewrite (proj2 (Z.eqb_neq d 45)) by lia.
  assert (Ht : exists c R, name ++ [0] = c :: R /\ is_digit c = false /\ 1 <= mul /\
    (if c =? 0 then Some (Some 1) else memtoll_unit (name ++ [0]) 0 memtoll_units) = Some (Some mul)).
  { repeat (apply elem_of_cons in Hin as [[= -> ->]|Hin]; [by do 2 eexists|]). by apply not_elem_of_nil in Hin. }
  destruct Ht as (c & R & Ht & Hc & Hmul & Hunit).
  pose proof (skip_digits_spec (S (length ((d :: D) ++ name ++ [0]))) [] (d :: D) c R HD Hc) as Hsk.
  cbn [app] in Hsk. rewrite <- Ht in Hsk. change (msize (@nil Z)) with 0 in Hsk.
  cbn [app] in *. rewrite Hsk; clear Hsk; [|rewrite msize_cons; unfold msize; simpl; rewrite length_app; lia].
  cbn [obind]. rewrite Z.add_0_l.
  pose proof (load8_shift (d :: D) (name ++ [0]) 0 ltac:(lia)) as Hl. rewrite Z.add_0_r in Hl.
  cbn [app] in Hl. rewrite Hl.
  pose proof (memtoll_unit_shift (d :: D) (name ++ [0]) memtoll_units) as Hu. cbn [app] in Hu. rewrite Hu.
  replace (load8 (name ++ [0]) 0) with (Some c) by by rewrite Ht.
  cbn [obind]. rewrite Hunit. cbn [obind].
  rewrite Z.geb_leb, (proj2 (Z.leb_gt 128 _)) by lia.
  rewrite (load_at [] (d :: D) (name ++ [0])) by done.
  assert (Hst : strtoll_digits (d :: D) = dec_value 0 (d :: D)).
  { unfold strtoll_digits, LLONG_MIN, LLONG_MAX in *. rewrite (proj2 (Z.eqb_neq d 45)) by lia.
    rewrite Z.min_r, Z.max_r by nia. done. }
  cbn [obind]. rewrite Hst. unfold ll_arith, LLONG_MIN, LLONG_MAX in *.
  rewrite (proj2 (Z.leb_le _ _)), (proj2 (Z.leb_le _ _)) by nia. done.
Qed.

(** * Theorems *)

(** C30. [string2ll] never reads outside the string, always terminates with an
    answer, and accepts a string exactly when it is the canonical decimal
    notation of a 64-bit signed integer, which it returns. *)
Theorem string2ll_exact (s : bytes) :
  (exists r, string2ll s (msize s) = Some r) /\
  (forall v, string2ll s (msize s) = Some (Some v) <-> decimal s v /\ in_sint 64 v).
Proof.
  split; [apply string2ll_total|]. intros v. split; [apply string2ll_sound|].
  intros [? ?]. by apply string2ll_complete.
Qed.

(** Parsing what [ll2string] prints gives back the number, and printing a
    number parsed by [string2ll] gives back the same string. *)
Theorem ll_string_roundtrip `{Host} (buf : bytes) (len value : Z) (s : bytes) :
  LLONG_MIN < value <= LLONG_MAX -> 22 <= len <= msize buf ->
  exists ds rest, ll2string buf len value = Some (ds ++ 0 :: rest, msize ds) /\
    string2ll ds (msize ds) = Some (Some value) /\
    (string2ll s (msize s) = Some (Some value) -> s = ds).
Proof.
  intros Hv Hl. destruct (ll2string_spec buf len value Hv Hl) as (ds & rest & E & Hd & _).
  exists ds, rest. split; [done|]. split.
  - apply string2ll_complete; [done|]. unfold in_sint, LLONG_MIN, LLONG_MAX in *. lia.
  - intros [Hs _]%string2ll_sound. by eapply decimal_inj.
Qed.

Lemma ll_string_roundtrip_witness :
  exists ds rest, @ll2string le_host (replicate 32 7) 32 (-1234) = Some (ds ++ 0 :: rest, msize ds) /\
    string2ll ds (msize ds) = Some (Some (-1234)) /\
    (string2ll [45; 49; 50; 51; 52] (msize [45; 49; 50; 51; 52]) = Some (Some (-1234)) -> [45; 49; 50; 51; 52] = ds).
Proof.
  apply (@ll_string_roundtrip le_host); [unfold LLONG_MIN, LLONG_MAX; lia|].
  split; vm_compute; congruence.
Defined.

(** [memtoll] on a decimal number followed by one of the documented units
    returns the number times the unit, without error, whenever that fits a
    [long long]. *)
Theorem memtoll_correct (D name : bytes) (mul : Z) :
  digits D -> D <> [] -> msize D < 128 -> (name, mul) ∈ (([], 1) :: memtoll_units) ->
  dec_value 0 D * mul <= LLONG_MAX ->
  memtoll (D ++ name ++ [0]) = Some (dec_value 0 D * mul, false).
Proof. apply memtoll_spec. Qed.

Lemma memtoll_correct_witness : memtoll [52; 50; 109; 98; 0] = Some (42 * (1024 * 1024), false).
Proof.
  apply (memtoll_correct [52; 50] [109; 98] (1024 * 1024));
    [by repeat constructor|done|done|by repeat constructor|vm_compute; congruence].
Defined.

(** The unit of the function's own comment is not one it knows. *)
Lemma memtoll_Gi_is_an_error : memtoll [49; 71; 105; 0] = Some (1, true).
Proof. reflexivity. Qed.
