(* ===== verification/Ziplist.v ===== *)
(** The ziplist encoding: ziplist.c.

    A ziplist is one block
    [<zlbytes:4><zltail:4><zllen:2><entry>...<entry><255>]; every entry starts
    with the length of the previous one (1 or 5 bytes) and an encoding/length
    header.  This file has the definitions, one per function or macro of
    ziplist.c, on a bounds-checked block [zl] with offsets for pointers.  A
    pointer argument that may be [NULL] is an [option Z]. *)

From S2P Require Import Prelude Endian Util.

Definition ZIP_END := 255.
Definition ZIP_BIGLEN := 254.
Definition ZIP_STR_MASK := 192.       (* 0xc0 *)
Definition ZIP_INT_MASK := 48.        (* 0x30 *)
Definition ZIP_STR_06B := 0.          (* 0 << 6 *)
Definition ZIP_STR_14B := 64.         (* 1 << 6 *)
Definition ZIP_STR_32B := 128.        (* 2 << 6 *)
Definition ZIP_INT_16B := 192.        (* 0xc0 | 0<<4 *)
Definition ZIP_INT_32B := 208.        (* 0xc0 | 1<<4 *)
Definition ZIP_INT_64B := 224.        (* 0xc0 | 2<<4 *)
Definition ZIP_INT_24B := 240.        (* 0xc0 | 3<<4 *)
Definition ZIP_INT_8B := 254.         (* 0xfe *)
Definition ZIP_INT_IMM_MASK := 15.    (* 0x0f *)
Definition ZIP_INT_IMM_MIN := 241.    (* 0xf1 *)
Definition ZIP_INT_IMM_MAX := 253.    (* 0xfd *)
Definition INT24_MAX := 8388607.      (* 0x7fffff *)
Definition INT24_MIN := - INT24_MAX - 1.
Definition UINT16_MAX := 65535.
Definition UCHAR_MAX := 255.
Definition ZIPLIST_HEADER_SIZE := 10. (* sizeof(uint32_t)*2+sizeof(uint16_t) *)
Definition ZIPLIST_HEAD := 0.
Definition ZIPLIST_TAIL := 1.

Definition ZIP_IS_STR (enc : Z) : bool := Z.land enc ZIP_STR_MASK <? ZIP_STR_MASK.

Record zlentry := mkZlentry {
  prevrawlensize : Z; prevrawlen : Z;
  lensize : Z; len : Z;
  headersize : Z;
  encoding : Z;
  entry_p : Z
}.

(** Return bytes needed to store integer encoded by [encoding]. *)
Definition zipIntSize (encoding : Z) : Z :=
  if encoding =? ZIP_INT_8B then 1
  else if encoding =? ZIP_INT_16B then 2
  else if encoding =? ZIP_INT_24B then 3
  else if encoding =? ZIP_INT_32B then 4
  else if encoding =? ZIP_INT_64B then 8
  else 0.

Section Ziplist.
Context `{Host}.

(** ** Header fields *)

Definition ZIPLIST_BYTES (zl : bytes) : option Z :=
  bs <- load zl 0 4;; Some (host_decode bs).
Definition set_ZIPLIST_BYTES (zl : bytes) (v : Z) : option bytes :=
  store zl 0 (host_encode 4 v).
Definition ZIPLIST_TAIL_OFFSET (zl : bytes) : option Z :=
  bs <- load zl 4 4;; Some (host_decode bs).
Definition set_ZIPLIST_TAIL_OFFSET (zl : bytes) (v : Z) : option bytes :=
  store zl 4 (host_encode 4 v).
Definition ZIPLIST_LENGTH (zl : bytes) : option Z :=
  bs <- load zl 8 2;; Some (host_decode bs).
Definition set_ZIPLIST_LENGTH (zl : bytes) (v : Z) : option bytes :=
  store zl 8 (host_encode 2 v).

Definition ZIPLIST_ENTRY_HEAD : Z := ZIPLIST_HEADER_SIZE.
Definition ZIPLIST_ENTRY_TAIL (zl : bytes) : option Z :=
  t <- ZIPLIST_TAIL_OFFSET zl;; Some (intrev32ifbe t).
Definition ZIPLIST_ENTRY_END (zl : bytes) : option Z :=
  b <- ZIPLIST_BYTES zl;; Some (intrev32ifbe b - 1).

Definition ZIPLIST_INCR_LENGTH (zl : bytes) (incr : Z) : option bytes :=
  l <- ZIPLIST_LENGTH zl;;
  if l <? UINT16_MAX
  then set_ZIPLIST_LENGTH zl (intrev16ifbe (uint 16 (intrev16ifbe l + incr)))
  else Some zl.

(** [ZIPLIST_TAIL_OFFSET(zl) = intrev32ifbe(intrev32ifbe(ZIPLIST_TAIL_OFFSET(zl))+d);] *)
Definition add_tail_offset (zl : bytes) (d : Z) : option bytes :=
  t <- ZIPLIST_TAIL_OFFSET zl;;
  set_ZIPLIST_TAIL_OFFSET zl (intrev32ifbe (uint 32 (intrev32ifbe t + d))).

(** ** Entry headers *)

Definition ZIP_ENTRY_ENCODING (zl : bytes) (ptr : Z) : option Z :=
  b <- load8 zl ptr;;
  Some (if b <? ZIP_STR_MASK then Z.land b ZIP_STR_MASK else b).

(** With [p = None] only the number of bytes is returned. *)
Definition zipEncodeLength (zl : bytes) (p : option Z) (encoding rawlen : Z) : option (bytes * Z) :=
  if ZIP_IS_STR encoding then
    if rawlen <=? 63 then
      match p with
      | None => Some (zl, 1)
      | Some p => zl <- store zl p [Z.lor ZIP_STR_06B rawlen];; Some (zl, 1)
      end
    else if rawlen <=? 16383 then
      match p with
      | None => Some (zl, 2)
      | Some p =>
        zl <- store zl p [Z.lor ZIP_STR_14B (Z.land (Z.shiftr rawlen 8) 63); Z.land rawlen 255];;
        Some (zl, 2)
      end
    else
      match p with
      | None => Some (zl, 5)
      | Some p =>
        zl <- store zl p [ZIP_STR_32B; Z.land (Z.shiftr rawlen 24) 255; Z.land (Z.shiftr rawlen 16) 255;
                          Z.land (Z.shiftr rawlen 8) 255; Z.land rawlen 255];;
        Some (zl, 5)
      end
  else
    match p with
    | None => Some (zl, 1)
    | Some p => zl <- store zl p [encoding];; Some (zl, 1)
    end.

(** Returns [(encoding, lensize, len)]; the [assert(NULL)] branch is [None]. *)
Definition ZIP_DECODE_LENGTH (zl : bytes) (ptr : Z) : option (Z * Z * Z) :=
  encoding <- ZIP_ENTRY_ENCODING zl ptr;;
  if encoding <? ZIP_STR_MASK then
    if encoding =? ZIP_STR_06B then
      b0 <- load8 zl ptr;;
      Some (encoding, 1, Z.land b0 63)
    else if encoding =? ZIP_STR_14B then
      b0 <- load8 zl ptr;; b1 <- load8 zl (ptr + 1);;
      Some (encoding, 2, Z.lor (Z.shiftl (Z.land b0 63) 8) b1)
    else if encoding =? ZIP_STR_32B then
      b1 <- load8 zl (ptr + 1);; b2 <- load8 zl (ptr + 2);;
      b3 <- load8 zl (ptr + 3);; b4 <- load8 zl (ptr + 4);;
      Some (encoding, 5,
        uint 32 (Z.lor (Z.lor (Z.lor (Z.shiftl b1 24) (Z.shiftl b2 16)) (Z.shiftl b3 8)) b4))
    else None
  else Some (encoding, 1, zipIntSize encoding).

(** With [p = None] only the number of bytes is returned. *)
Definition zipPrevEncodeLength (zl : bytes) (p : option Z) (len : Z) : option (bytes * Z) :=
  match p with
  | None => Some (zl, if len <? ZIP_BIGLEN then 1 else 5)
  | Some p =>
    if len <? ZIP_BIGLEN then
      zl <- store8 zl p len;; Some (zl, 1)
    else
      zl <- store8 zl p ZIP_BIGLEN;;
      zl <- store zl (p + 1) (host_encode 4 len);;
      zl <- memrev32ifbe zl (p + 1);;
      Some (zl, 5)
  end.

Definition zipPrevEncodeLengthForceLarge (zl : bytes) (p len : Z) : option bytes :=
  zl <- store8 zl p ZIP_BIGLEN;;
  zl <- store zl (p + 1) (host_encode 4 len);;
  memrev32ifbe zl (p + 1).

Definition ZIP_DECODE_PREVLENSIZE (zl : bytes) (ptr : Z) : option Z :=
  b <- load8 zl ptr;; Some (if b <? ZIP_BIGLEN then 1 else 5).

(** Returns [(prevlensize, prevlen)]. *)
Definition ZIP_DECODE_PREVLEN (zl : bytes) (ptr : Z) : option (Z * Z) :=
  prevlensize <- ZIP_DECODE_PREVLENSIZE zl ptr;;
  if prevlensize =? 1 then
    b <- load8 zl ptr;; Some (prevlensize, b)
  else
    prevlen <- load zl (ptr + 1) 4;;
    prevlen <- memrev32ifbe prevlen 0;;
    Some (prevlensize, host_decode prevlen).

Definition zipPrevLenByteDiff (zl : bytes) (p len : Z) : option Z :=
  prevlensize <- ZIP_DECODE_PREVLENSIZE zl p;;
  ' (_, n) <- zipPrevEncodeLength zl None len;;
  Some (n - prevlensize).

Definition zipRawEntryLength (zl : bytes) (p : Z) : option Z :=
  prevlensize <- ZIP_DECODE_PREVLENSIZE zl p;;
  ' (_, lensize, len) <- ZIP_DECODE_LENGTH zl (p + prevlensize);;
  Some (prevlensize + lensize + len).

(** The encoding chosen for an integer by [zipTryEncoding]. *)
Definition zipIntEncoding (value : Z) : Z :=
  if (0 <=? value) && (value <=? 12) then ZIP_INT_IMM_MIN + value
  else if (- 2 ^ 7 <=? value) && (value <=? 2 ^ 7 - 1) then ZIP_INT_8B
  else if (- 2 ^ 15 <=? value) && (value <=? 2 ^ 15 - 1) then ZIP_INT_16B
  else if (INT24_MIN <=? value) && (value <=? INT24_MAX) then ZIP_INT_24B
  else if (- 2 ^ 31 <=? value) && (value <=? 2 ^ 31 - 1) then ZIP_INT_32B
  else ZIP_INT_64B.

(** [Some (Some (v, encoding))]: returns 1. *)
Definition zipTryEncoding (entry : bytes) (entrylen : Z) : option (option (Z * Z)) :=
  if (entrylen >=? 32) || (entrylen =? 0) then Some None else
  r <- string2ll entry entrylen;;
  match r with
  | Some value => Some (Some (value, zipIntEncoding value))
  | None => Some None
  end.

Definition zipSaveInteger (zl : bytes) (p value encoding : Z) : option bytes :=
  if encoding =? ZIP_INT_8B then store8 zl p value
  else if encoding =? ZIP_INT_16B then
    zl <- store zl p (host_encode 2 value);; memrev16ifbe zl p
  else if encoding =? ZIP_INT_24B then
    i32 <- memrev32ifbe (host_encode 4 (Z.shiftl value 8)) 0;;
    bs <- load i32 1 3;;
    store zl p bs
  else if encoding =? ZIP_INT_32B then
    zl <- store zl p (host_encode 4 value);; memrev32ifbe zl p
  else if encoding =? ZIP_INT_64B then
    zl <- store zl p (host_encode 8 value);; memrev64ifbe zl p
  else if (ZIP_INT_IMM_MIN <=? encoding) && (encoding <=? ZIP_INT_IMM_MAX) then Some zl
  else None.

Definition zipLoadInteger (zl : bytes) (p encoding : Z) : option Z :=
  if encoding =? ZIP_INT_8B then
    b <- load8 zl p;; Some (sint 8 b)
  else if encoding =? ZIP_INT_16B then
    i16 <- load zl p 2;; i16 <- memrev16ifbe i16 0;; Some (sint 16 (host_decode i16))
  else if encoding =? ZIP_INT_32B then
    i32 <- load zl p 4;; i32 <- memrev32ifbe i32 0;; Some (sint 32 (host_decode i32))
  else if encoding =? ZIP_INT_24B then
    bs <- load zl p 3;;
    i32 <- store (host_encode 4 0) 1 bs;;
    i32 <- memrev32ifbe i32 0;;
    Some (Z.shiftr (sint 32 (host_decode i32)) 8)
  else if encoding =? ZIP_INT_64B then
    i64 <- load zl p 8;; i64 <- memrev64ifbe i64 0;; Some (sint 64 (host_decode i64))
  else if (ZIP_INT_IMM_MIN <=? encoding) && (encoding <=? ZIP_INT_IMM_MAX) then
    Some (Z.land encoding ZIP_INT_IMM_MASK - 1)
  else None.

Definition zipEntry (zl : bytes) (p : Z) : option zlentry :=
  ' (prevrawlensize, prevrawlen) <- ZIP_DECODE_PREVLEN zl p;;
  ' (encoding, lensize, len) <- ZIP_DECODE_LENGTH zl (p + prevrawlensize);;
  Some (mkZlentry prevrawlensize prevrawlen lensize len (prevrawlensize + lensize) encoding p).

(** ** Whole lists *)

Definition ziplistNew : option bytes :=
  let bytes := ZIPLIST_HEADER_SIZE + 1 in
  let zl := zmalloc bytes in
  zl <- set_ZIPLIST_BYTES zl (intrev32ifbe bytes);;
  zl <- set_ZIPLIST_TAIL_OFFSET zl (intrev32ifbe ZIPLIST_HEADER_SIZE);;
  zl <- set_ZIPLIST_LENGTH zl 0;;
  store8 zl (bytes - 1) ZIP_END.

(** [len] is converted to [unsigned int]. *)
Definition ziplistResize (zl : bytes) (len : Z) : option bytes :=
  let len := uint 32 len in
  let zl := zrealloc zl len in
  zl <- set_ZIPLIST_BYTES zl (intrev32ifbe len);;
  store8 zl (len - 1) ZIP_END.

Fixpoint ziplistCascadeUpdate_loop (fuel : nat) (zl : bytes) (p curlen : Z) : option bytes :=
  match fuel with
  | O => None
  | S fuel =>
    b <- load8 zl p;;
    if b =? ZIP_END then Some zl else
    cur <- zipEntry zl p;;
    let rawlen := headersize cur + len cur in
    ' (_, rawlensize) <- zipPrevEncodeLength zl None rawlen;;
    bn <- load8 zl (p + rawlen);;
    if bn =? ZIP_END then Some zl else
    next <- zipEntry zl (p + rawlen);;
    if prevrawlen next =? rawlen then Some zl
    else if prevrawlensize next <? rawlensize then
      let extra := rawlensize - prevrawlensize next in
      zl <- ziplistResize zl (curlen + extra);;
      let np := p + rawlen in
      t <- ZIPLIST_TAIL_OFFSET zl;;
      zl <- (if intrev32ifbe t =? np then Some zl else add_tail_offset zl extra);;
      zl <- memmove zl (np + rawlensize) (np + prevrawlensize next)
              (curlen - np - prevrawlensize next - 1);;
      ' (zl, _) <- zipPrevEncodeLength zl (Some np) rawlen;;
      ziplistCascadeUpdate_loop fuel zl (p + rawlen) (curlen + extra)
    else if prevrawlensize next >? rawlensize then
      zipPrevEncodeLengthForceLarge zl (p + rawlen) rawlen
    else
      ' (zl, _) <- zipPrevEncodeLength zl (Some (p + rawlen)) rawlen;; Some zl
  end.

Definition __ziplistCascadeUpdate (zl : bytes) (p : Z) : option bytes :=
  b <- ZIPLIST_BYTES zl;;
  ziplistCascadeUpdate_loop (S (length zl)) zl p (intrev32ifbe b).

(** [for (i = 0; p[0] != ZIP_END && i < num; i++) {...}] with [num - i] as the
    bound; returns [(p, deleted)]. *)
Fixpoint ziplistDelete_loop (num : nat) (zl : bytes) (p deleted : Z) : option (Z * Z) :=
  b <- load8 zl p;;
  if b =? ZIP_END then Some (p, deleted) else
  match num with
  | O => Some (p, deleted)
  | S num =>
    n <- zipRawEntryLength zl p;;
    ziplistDelete_loop num zl (p + n) (deleted + 1)
  end.

Definition __ziplistDelete (zl : bytes) (p num : Z) : option bytes :=
  first <- zipEntry zl p;;
  ' (p, deleted) <- ziplistDelete_loop (Z.to_nat num) zl p 0;;
  let totlen := p - entry_p first in
  if totlen >? 0 then
    b <- load8 zl p;;
    ' (zl, nextdiff) <-
      (if negb (b =? ZIP_END) then
         nextdiff <- zipPrevLenByteDiff zl p (prevrawlen first);;
         let p := p - nextdiff in
         ' (zl, _) <- zipPrevEncodeLength zl (Some p) (prevrawlen first);;
         zl <- add_tail_offset zl (- totlen);;
         tail <- zipEntry zl p;;
         bt <- load8 zl (p + headersize tail + len tail);;
         zl <- (if negb (bt =? ZIP_END) then add_tail_offset zl nextdiff else Some zl);;
         total <- ZIPLIST_BYTES zl;;
         zl <- memmove zl (entry_p first) p (intrev32ifbe total - p - 1);;
         Some (zl, nextdiff)
       else
         zl <- set_ZIPLIST_TAIL_OFFSET zl
                 (intrev32ifbe (uint 32 (entry_p first - prevrawlen first)));;
         Some (zl, 0));;
    total <- ZIPLIST_BYTES zl;;
    zl <- ziplistResize zl (intrev32ifbe total - totlen + nextdiff);;
    zl <- ZIPLIST_INCR_LENGTH zl (- deleted);;
    if negb (nextdiff =? 0) then __ziplistCascadeUpdate zl (entry_p first) else Some zl
  else Some zl.

Definition __ziplistInsert (zl : bytes) (p : Z) (s : bytes) (slen : Z) : option bytes :=
  total <- ZIPLIST_BYTES zl;;
  let curlen := intrev32ifbe total in
  b <- load8 zl p;;
  prevlen <-
    (if negb (b =? ZIP_END) then
       entry <- zipEntry zl p;; Some (prevrawlen entry)
     else
       ptail <- ZIPLIST_ENTRY_TAIL zl;;
       bt <- load8 zl ptail;;
       if negb (bt =? ZIP_END) then zipRawEntryLength zl ptail else Some 0);;
  try <- zipTryEncoding s slen;;
  let encoding := match try with Some (_, enc) => enc | None => 0 end in
  let value := match try with Some (v, _) => v | None => 123456789 end in
  let reqlen := match try with Some (_, enc) => zipIntSize enc | None => slen end in
  ' (_, n1) <- zipPrevEncodeLength zl None prevlen;;
  ' (_, n2) <- zipEncodeLength zl None encoding slen;;
  let reqlen := reqlen + n1 + n2 in
  nextdiff <- (if negb (b =? ZIP_END) then zipPrevLenByteDiff zl p reqlen else Some 0);;
  let offset := p in
  zl <- ziplistResize zl (curlen + reqlen + nextdiff);;
  b <- load8 zl p;;
  zl <-
    (if negb (b =? ZIP_END) then
       zl <- memmove zl (p + reqlen) (p - nextdiff) (curlen - offset - 1 + nextdiff);;
       ' (zl, _) <- zipPrevEncodeLength zl (Some (p + reqlen)) reqlen;;
       zl <- add_tail_offset zl reqlen;;
       tail <- zipEntry zl (p + reqlen);;
       bt <- load8 zl (p + reqlen + headersize tail + len tail);;
       if negb (bt =? ZIP_END) then add_tail_offset zl nextdiff else Some zl
     else set_ZIPLIST_TAIL_OFFSET zl (intrev32ifbe (uint 32 p)));;
  zl <- (if negb (nextdiff =? 0) then __ziplistCascadeUpdate zl (p + reqlen) else Some zl);;
  ' (zl, n) <- zipPrevEncodeLength zl (Some p) prevlen;;
  let p := p + n in
  ' (zl, n) <- zipEncodeLength zl (Some p) encoding slen;;
  let p := p + n in
  zl <- (if ZIP_IS_STR encoding
         then bs <- load s 0 slen;; store zl p bs
         else zipSaveInteger zl p value encoding);;
  ZIPLIST_INCR_LENGTH zl 1.

Definition ziplistPush (zl s : bytes) (slen where_ : Z) : option bytes :=
  p <- (if where_ =? ZIPLIST_HEAD then Some ZIPLIST_ENTRY_HEAD else ZIPLIST_ENTRY_END zl);;
  __ziplistInsert zl p s slen.

(** [while (entry.prevrawlen > 0 && index--) {...}]; returns [(p, index)]. *)
Fixpoint ziplistIndex_back (fuel : nat) (zl : bytes) (p prevrawlen_ index : Z) : option (Z * Z) :=
  match fuel with
  | O => None
  | S fuel =>
    if prevrawlen_ >? 0 then
      if index =? 0 then Some (p, -1)
      else
        let p := p - prevrawlen_ in
        entry <- zipEntry zl p;;
        ziplistIndex_back fuel zl p (prevrawlen entry) (index - 1)
    else Some (p, index)
  end.

(** [while (p[0] != ZIP_END && index--) {...}] *)
Fixpoint ziplistIndex_forw (fuel : nat) (zl : bytes) (p index : Z) : option (Z * Z) :=
  match fuel with
  | O => None
  | S fuel =>
    b <- load8 zl p;;
    if b =? ZIP_END then Some (p, index)
    else if index =? 0 then Some (p, -1)
    else
      n <- zipRawEntryLength zl p;;
      ziplistIndex_forw fuel zl (p + n) (index - 1)
  end.

(** [Some None] is the [NULL] result. *)
Definition ziplistIndex (zl : bytes) (index : Z) : option (option Z) :=
  ' (p, index) <-
    (if index <? 0 then
       index <- int_arith (- index);;
       let index := index - 1 in
       p <- ZIPLIST_ENTRY_TAIL zl;;
       b <- load8 zl p;;
       if negb (b =? ZIP_END) then
         entry <- zipEntry zl p;;
         ziplistIndex_back (S (length zl)) zl p (prevrawlen entry) index
       else Some (p, index)
     else ziplistIndex_forw (S (length zl)) zl ZIPLIST_ENTRY_HEAD index);;
  b <- load8 zl p;;
  Some (if (b =? ZIP_END) || (index >? 0) then None else Some p).

Definition ziplistNext (zl : bytes) (p : Z) : option (option Z) :=
  b <- load8 zl p;;
  if b =? ZIP_END then Some None else
  n <- zipRawEntryLength zl p;;
  let p := p + n in
  b <- load8 zl p;;
  Some (if b =? ZIP_END then None else Some p).

(** A failed [assert] is [None]. *)
Definition ziplistPrev (zl : bytes) (p : Z) : option (option Z) :=
  b <- load8 zl p;;
  if b =? ZIP_END then
    p <- ZIPLIST_ENTRY_TAIL zl;;
    b <- load8 zl p;;
    Some (if b =? ZIP_END then None else Some p)
  else if p =? ZIPLIST_ENTRY_HEAD then Some None
  else
    entry <- zipEntry zl p;;
    if prevrawlen entry >? 0 then Some (Some (p - prevrawlen entry)) else None.

(** What [ziplistGet] stores: a string ([*sstr], [*slen]) or an integer ([*sval]). *)
Inductive zlvalue := ZStr (s : bytes) | ZInt (v : Z).

Definition ziplistGet (zl : bytes) (p : option Z) : option (option zlvalue) :=
  match p with
  | None => Some None
  | Some p =>
    b <- load8 zl p;;
    if b =? ZIP_END then Some None else
    entry <- zipEntry zl p;;
    if ZIP_IS_STR (encoding entry) then
      s <- load zl (p + headersize entry) (len entry);; Some (Some (ZStr s))
    else
      v <- zipLoadInteger zl (p + headersize entry) (encoding entry);; Some (Some (ZInt v))
  end.

Definition ziplistInsert (zl : bytes) (p : Z) (s : bytes) (slen : Z) : option bytes :=
  __ziplistInsert zl p s slen.

(** The updated pointer is at the same offset. *)
Definition ziplistDelete (zl : bytes) (p : Z) : option (bytes * Z) :=
  let offset := p in
  zl <- __ziplistDelete zl p 1;;
  Some (zl, offset).

Definition ziplistDeleteRange (zl : bytes) (index num : Z) : option bytes :=
  p <- ziplistIndex zl (sint 32 index);;
  match p with
  | None => Some zl
  | Some p => __ziplistDelete zl p num
  end.

Definition ziplistCompare (zl : bytes) (p : Z) (sstr : bytes) (slen : Z) : option bool :=
  b <- load8 zl p;;
  if b =? ZIP_END then Some false else
  entry <- zipEntry zl p;;
  if ZIP_IS_STR (encoding entry) then
    if len entry =? slen then
      bs <- load zl (p + headersize entry) slen;;
      s <- load sstr 0 slen;;
      Some (bool_decide (bs = s))
    else Some false
  else
    try <- zipTryEncoding sstr slen;;
    match try with
    | Some (sval, _) =>
      zval <- zipLoadInteger zl (p + headersize entry) (encoding entry);;
      Some (zval =? sval)
    | None => Some false
    end.

Fixpoint ziplistFind_loop (fuel : nat) (zl : bytes) (p : Z) (vstr : bytes) (vlen skip skipcnt vencoding vll : Z)
    : option (option Z) :=
  match fuel with
  | O => None
  | S fuel =>
    b <- load8 zl p;;
    if b =? ZIP_END then Some None else
    prevlensize <- ZIP_DECODE_PREVLENSIZE zl p;;
    ' (encoding, lensize, len) <- ZIP_DECODE_LENGTH zl (p + prevlensize);;
    let q := p + prevlensize + lensize in
    if skipcnt =? 0 then
      if ZIP_IS_STR encoding then
        eq <- (if len =? vlen then
                 bs <- load zl q vlen;; v <- load vstr 0 vlen;; Some (bool_decide (bs = v))
               else Some false);;
        if eq : bool then Some (Some p)
        else ziplistFind_loop fuel zl (q + len) vstr vlen skip skip vencoding vll
      else
        ' (vencoding, vll) <-
          (if vencoding =? 0 then
             try <- zipTryEncoding vstr vlen;;
             match try with
             | Some (v, enc) => if enc =? 0 then None else Some (enc, v)
             | None => Some (UCHAR_MAX, vll)
             end
           else Some (vencoding, vll));;
        eq <- (if negb (vencoding =? UCHAR_MAX) then
                 ll <- zipLoadInteger zl q encoding;; Some (ll =? vll)
               else Some false);;
        if eq : bool then Some (Some p)
        else ziplistFind_loop fuel zl (q + len) vstr vlen skip skip vencoding vll
    else ziplistFind_loop fuel zl (q + len) vstr vlen skip (skipcnt - 1) vencoding vll
  end.

Definition ziplistFind (zl : bytes) (p : Z) (vstr : bytes) (vlen skip : Z) : option (option Z) :=
  ziplistFind_loop (S (length zl)) zl p vstr vlen skip 0 0 0.

Fixpoint ziplistLen_loop (fuel : nat) (zl : bytes) (p n : Z) : option Z :=
  match fuel with
  | O => None
  | S fuel =>
    b <- load8 zl p;;
    if b =? ZIP_END then Some n
    else l <- zipRawEntryLength zl p;; ziplistLen_loop fuel zl (p + l) (n + 1)
  end.

(** Returns the length and the (possibly updated) list. *)
Definition ziplistLen (zl : bytes) : option (bytes * Z) :=
  l <- ZIPLIST_LENGTH zl;;
  if intrev16ifbe l <? UINT16_MAX then Some (zl, intrev16ifbe l)
  else
    len <- ziplistLen_loop (S (length zl)) zl ZIPLIST_HEADER_SIZE 0;;
    zl <- (if len <? UINT16_MAX then set_ZIPLIST_LENGTH zl (intrev16ifbe len) else Some zl);;
    Some (zl, len).

Definition ziplistBlobLen (zl : bytes) : option Z :=
  b <- ZIPLIST_BYTES zl;; Some (intrev32ifbe b).
End Ziplist.
