(* ===== verification/ZiplistRep.v ===== *)
(** Representation invariant of ziplists and the decoding of entries.

    [rep zl es] says that the block [zl] encodes the list of entries [es]: the
    header fields are right, every entry holds the length of its predecessor
    in one byte or in five (five are kept even when one would do), and its
    header and payload are in the format described at the top of ziplist.c.
    The lemmas show that the decoding functions of ziplist.c read back what
    the representation describes, inside the block. *)

From S2P Require Import Prelude Endian Util Ziplist.

(** * Bit arithmetic of the headers *)

Lemma lor4_add b1 b2 b3 b4 :
  is_byte b2 -> is_byte b3 -> is_byte b4 ->
  Z.lor (Z.lor (Z.lor (Z.shiftl b1 24) (Z.shiftl b2 16)) (Z.shiftl b3 8)) b4 =
  b1 * 2 ^ 24 + b2 * 2 ^ 16 + b3 * 2 ^ 8 + b4.
Proof.
  unfold is_byte. intros H2 H3 H4.
  change 24 with (8 + 16). rewrite <- (Z.shiftl_shiftl b1 8 16), <- Z.shiftl_lor by lia.
  rewrite (lor_shiftl_add b1 b2 8) by lia.
  change 16 with (8 + 8). rewrite <- (Z.shiftl_shiftl _ 8 8), <- Z.shiftl_lor by lia.
  rewrite (lor_shiftl_add _ b3 8), (lor_shiftl_add _ b4 8) by lia. lia.
Qed.

Lemma land255 n : Z.land n 255 = n mod 256.
Proof. change 255 with (Z.ones 8). by rewrite Z.land_ones. Qed.

Lemma bytes4_combine n : 0 <= n < 2 ^ 32 ->
  Z.shiftr n 24 mod 256 * 2 ^ 24 + Z.shiftr n 16 mod 256 * 2 ^ 16 + Z.shiftr n 8 mod 256 * 2 ^ 8 + n mod 256 = n.
Proof.
  intros Hn. pose proof (le_decode_encode 4 n) as E. rewrite uint_id in E by done.
  cbn [le_encode le_decode] in E. rewrite !Z.div_div in E by lia.
  rewrite !Z.shiftr_div_pow2 by lia. change (2 ^ 24) with (256 * 256 * 256). change (2 ^ 16) with (256 * 256).
  change (2 ^ 8) with 256. rewrite <- !Z.mul_assoc in *. lia.
Qed.

Lemma str06_bits b : 0 <= b < 64 -> Z.land b ZIP_STR_MASK = 0 /\ Z.land b 63 = b.
Proof.
  intros Hb.
  pose proof (byte_check (fun b => (Z.land b ZIP_STR_MASK =? 0) && (Z.land b 63 =? b)) 64 eq_refl b Hb) as E.
  cbv beta in E. bprop. done.
Qed.

Lemma str14_bits b : 0 <= b < 64 ->
  64 <= Z.lor ZIP_STR_14B b < 128 /\ Z.land (Z.lor ZIP_STR_14B b) ZIP_STR_MASK = 64 /\
  Z.land (Z.lor ZIP_STR_14B b) 63 = b.
Proof.
  intros Hb.
  pose proof (byte_check (fun b => (64 <=? Z.lor ZIP_STR_14B b) && (Z.lor ZIP_STR_14B b <? 128) &&
    (Z.land (Z.lor ZIP_STR_14B b) ZIP_STR_MASK =? 64) && (Z.land (Z.lor ZIP_STR_14B b) 63 =? b)) 64 eq_refl b Hb) as E.
  cbv beta in E. bprop. done.
Qed.

(** * Entries *)

Inductive payload := PStr (s : bytes) | PInt (enc v : Z).

(** An entry: whether its previous-length field is the large one, and its payload. *)
Abbreviation zentry := (bool * payload)%type.

Definition str_header (n : Z) : bytes :=
  if n <=? 63 then [n]
  else if n <=? 16383 then [Z.lor ZIP_STR_14B (Z.land (Z.shiftr n 8) 63); Z.land n 255]
  else [ZIP_STR_32B; Z.land (Z.shiftr n 24) 255; Z.land (Z.shiftr n 16) 255;
        Z.land (Z.shiftr n 8) 255; Z.land n 255].

Definition payload_header (pl : payload) : bytes :=
  match pl with PStr s => str_header (msize s) | PInt enc _ => [enc] end.

Definition payload_body (pl : payload) : bytes :=
  match pl with PStr s => s | PInt enc v => le_encode (Z.to_nat (zipIntSize enc)) v end.

Definition payload_bytes (pl : payload) : bytes := payload_header pl ++ payload_body pl.

Definition int_enc_ok (enc v : Z) : Prop :=
  (enc ∈ [ZIP_INT_8B; ZIP_INT_16B; ZIP_INT_24B; ZIP_INT_32B; ZIP_INT_64B] /\
   in_sint (8 * zipIntSize enc) v) \/
  (0 <= v <= 12 /\ enc = ZIP_INT_IMM_MIN + v).

(** A stored string never is the decimal notation of a [long long]. *)
Definition payload_ok (pl : payload) : Prop :=
  match pl with
  | PStr s => Forall is_byte s /\ msize s < 2 ^ 32 /\ zipTryEncoding s (msize s) = Some None
  | PInt enc v => int_enc_ok enc v
  end.

Definition prevlen_size (big : bool) : Z := if big then 5 else 1.

Definition prevlen_bytes (big : bool) (q : Z) : bytes :=
  if big then ZIP_BIGLEN :: le_encode 4 q else [q].

Definition prevlen_ok (big : bool) (q : Z) : Prop :=
  0 <= q < 2 ^ 32 /\ (big = false -> q < ZIP_BIGLEN).

Definition enc_entry (q : Z) (e : zentry) : bytes :=
  prevlen_bytes e.1 q ++ payload_bytes e.2.

Definition esize (e : zentry) : Z := prevlen_size e.1 + msize (payload_bytes e.2).

Fixpoint enc_list (q : Z) (es : list zentry) : bytes :=
  match es with
  | [] => []
  | e :: es => enc_entry q e ++ enc_list (esize e) es
  end.

Fixpoint chain (q : Z) (es : list zentry) : Prop :=
  match es with
  | [] => True
  | e :: es => prevlen_ok e.1 q /\ chain (esize e) es
  end.

Fixpoint sizes (es : list zentry) : Z :=
  match es with [] => 0 | e :: es => esize e + sizes es end.

(** Length of the last entry, [q] if there is none. *)
Fixpoint last_size (q : Z) (es : list zentry) : Z :=
  match es with [] => q | e :: es => last_size (esize e) es end.

(** Offset of the last entry of a list starting at [base]; [base] if there is none. *)
Fixpoint tail_from (base : Z) (es : list zentry) : Z :=
  match es with
  | [] => base
  | e :: es => match es with [] => base | _ => tail_from (base + esize e) es end
  end.

Definition zlheader (total tail L : Z) : bytes :=
  le_encode 4 total ++ le_encode 4 tail ++ le_encode 2 L.

(** The 16-bit count is exact below 65535; 65535 means "count by traversal". *)
Definition len_ok (L n : Z) : Prop := 0 <= L <= UINT16_MAX /\ (L < UINT16_MAX -> L = n).

Definition rep (zl : bytes) (es : list zentry) : Prop :=
  exists L,
    zl = zlheader (11 + sizes es) (tail_from 10 es) L ++ enc_list 0 es ++ [ZIP_END] /\
    chain 0 es /\ Forall (fun e => payload_ok e.2) es /\
    11 + sizes es < 2 ^ 32 /\ len_ok L (msize es).

(** * Sizes *)

Lemma msize_prevlen big q : msize (prevlen_bytes big q) = prevlen_size big.
Proof. by destruct big. Qed.

Lemma msize_enc_entry q e : msize (enc_entry q e) = esize e.
Proof. unfold enc_entry, esize. by rewrite msize_app, msize_prevlen. Qed.

Lemma msize_header pl : 1 <= msize (payload_header pl) <= 5.
Proof. destruct pl as [s|enc v]; simpl; [unfold str_header; bcase|]; autorewrite with cmem; lia. Qed.

Lemma esize_pos e : 2 <= esize e.
Proof.
  unfold esize, payload_bytes. rewrite msize_app. pose proof (msize_header e.2).
  pose proof (msize_nonneg (payload_body e.2)). unfold prevlen_size. destruct e.1; lia.
Qed.

Lemma sizes_nonneg es : 0 <= sizes es.
Proof. induction es as [|e es IH]; simpl; [lia|]. pose proof (esize_pos e). lia. Qed.

Lemma sizes_ge es : 2 * msize es <= sizes es.
Proof. induction es as [|e es IH]; [done|]. rewrite msize_cons. simpl. pose proof (esize_pos e). lia. Qed.

Lemma sizes_app es es' : sizes (es ++ es') = sizes es + sizes es'.
Proof. induction es as [|e es IH]; simpl; [lia|]. rewrite IH. lia. Qed.

Lemma msize_enc_list q es : msize (enc_list q es) = sizes es.
Proof.
  revert q. induction es as [|e es IH]; intros q; [done|]. simpl.
  by rewrite msize_app, msize_enc_entry, IH.
Qed.

Lemma msize_zlheader t o L : msize (zlheader t o L) = 10.
Proof. done. Qed.

#[export] Hint Rewrite msize_prevlen msize_enc_entry msize_enc_list msize_zlheader sizes_app : cmem.

Lemma last_size_app q es es' : last_size q (es ++ es') = last_size (last_size q es) es'.
Proof. revert q. induction es; simpl; auto. Qed.

Lemma enc_list_app q es es' :
  enc_list q (es ++ es') = enc_list q es ++ enc_list (last_size q es) es'.
Proof. revert q. induction es as [|e es IH]; intros q; simpl; [done|]. by rewrite IH, <- app_assoc. Qed.

Lemma chain_app q es es' : chain q (es ++ es') <-> chain q es /\ chain (last_size q es) es'.
Proof. revert q. induction es as [|e es IH]; intros q; simpl; [tauto|]. rewrite IH. tauto. Qed.

Lemma tail_from_app base es e es' :
  tail_from base (es ++ e :: es') = tail_from (base + sizes es) (e :: es').
Proof.
  revert base. induction es as [|e0 es IH]; intros base; [by rewrite Z.add_0_r|].
  cbn [app sizes]. transitivity (tail_from (base + esize e0) (es ++ e :: es')).
  { by destruct es. }
  rewrite IH. f_equal. lia.
Qed.

Lemma tail_from_range base es : base <= tail_from base es <= base + sizes es.
Proof.
  revert base. induction es as [|e es IH]; intros base; simpl; [lia|].
  pose proof (esize_pos e). pose proof (sizes_nonneg es).
  destruct es; [simpl in *; lia|]. specialize (IH (base + esize e)). lia.
Qed.

Lemma tail_from_shift base d es : tail_from (base + d) es = tail_from base es + d.
Proof.
  revert base. induction es as [|e es IH]; intros base; [done|].
  cbn [tail_from]. destruct es; [done|]. rewrite <- IH. f_equal. lia.
Qed.

Lemma last_size_range q es : 0 <= q -> 0 <= last_size q es <= q + sizes es.
Proof.
  revert q. induction es as [|e es IH]; intros q Hq; simpl; [lia|].
  pose proof (esize_pos e). specialize (IH (esize e)). lia.
Qed.

(** The tail offset is the end minus the length of the last entry. *)
Lemma tail_from_last base es :
  es <> [] -> tail_from base es = base + sizes es - last_size 0 es.
Proof.
  intros Hne. destruct es as [|e es _] using rev_ind; [done|].
  rewrite tail_from_app, last_size_app, sizes_app. simpl. lia.
Qed.

Section Decode.
Context `{Host}.

(** * Header fields *)

Lemma get_bytes t o L R : 0 <= t < 2 ^ 32 -> ZIPLIST_BYTES (zlheader t o L ++ R) = Some (intrev32ifbe t).
Proof.
  intros. unfold ZIPLIST_BYTES, zlheader. lsimpl.
  rewrite (load_at [] (le_encode 4 t) (le_encode 4 o ++ le_encode 2 L ++ R)) by done.
  cbn [obind]. by rewrite host_decode_le32.
Qed.

Lemma set_bytes t o L R v :
  set_ZIPLIST_BYTES (zlheader t o L ++ R) (intrev32ifbe v) = Some (zlheader v o L ++ R).
Proof.
  unfold set_ZIPLIST_BYTES, zlheader. lsimpl. rewrite host_encode_intrev32ifbe.
  by rewrite (store_at [] (le_encode 4 t) (le_encode 4 o ++ le_encode 2 L ++ R)).
Qed.

Lemma get_tail t o L R : 0 <= o < 2 ^ 32 -> ZIPLIST_TAIL_OFFSET (zlheader t o L ++ R) = Some (intrev32ifbe o).
Proof.
  intros. unfold ZIPLIST_TAIL_OFFSET, zlheader. lsimpl.
  rewrite (load_at (le_encode 4 t) (le_encode 4 o) (le_encode 2 L ++ R)) by done.
  cbn [obind]. by rewrite host_decode_le32.
Qed.

Lemma set_tail t o L R v :
  set_ZIPLIST_TAIL_OFFSET (zlheader t o L ++ R) (intrev32ifbe v) = Some (zlheader t v L ++ R).
Proof.
  unfold set_ZIPLIST_TAIL_OFFSET, zlheader. lsimpl. rewrite host_encode_intrev32ifbe.
  rewrite (store_at (le_encode 4 t) (le_encode 4 o) (le_encode 2 L ++ R)) by done. by lsimpl.
Qed.

Lemma get_len t o L R : 0 <= L < 2 ^ 16 -> ZIPLIST_LENGTH (zlheader t o L ++ R) = Some (intrev16ifbe L).
Proof.
  intros. unfold ZIPLIST_LENGTH, zlheader. lsimpl.
  rewrite (load_at (le_encode 4 t ++ le_encode 4 o) (le_encode 2 L) R) by (by lsimpl).
  cbn [obind]. by rewrite host_decode_le16.
Qed.

Lemma set_len t o L R v :
  set_ZIPLIST_LENGTH (zlheader t o L ++ R) (intrev16ifbe v) = Some (zlheader t o v ++ R).
Proof.
  unfold set_ZIPLIST_LENGTH, zlheader. lsimpl. rewrite host_encode_intrev16ifbe.
  rewrite (store_at (le_encode 4 t ++ le_encode 4 o) (le_encode 2 L) R) by (by lsimpl). by lsimpl.
Qed.

Lemma add_tail t o L R d :
  0 <= o < 2 ^ 32 -> 0 <= o + d < 2 ^ 32 ->
  add_tail_offset (zlheader t o L ++ R) d = Some (zlheader t (o + d) L ++ R).
Proof.
  intros. unfold add_tail_offset. rewrite get_tail by done. cbn [obind].
  rewrite intrev32ifbe_involutive, uint_id by done. apply set_tail.
Qed.

Lemma entry_tail t o L R : 0 <= o < 2 ^ 32 -> ZIPLIST_ENTRY_TAIL (zlheader t o L ++ R) = Some o.
Proof.
  intros. unfold ZIPLIST_ENTRY_TAIL. rewrite get_tail by done. cbn [obind].
  by rewrite intrev32ifbe_involutive.
Qed.

(** The test [ZIPLIST_LENGTH(zl) < UINT16_MAX] does not depend on the byte order. *)
Lemma intrev16ifbe_max L : 0 <= L <= UINT16_MAX -> (intrev16ifbe L <? UINT16_MAX) = (L <? UINT16_MAX).
Proof.
  unfold UINT16_MAX. intros HL. assert (Hr : 0 <= intrev16ifbe L < 2 ^ 16).
  { unfold intrev16ifbe. destruct big_endian; [apply intrev16_range|lia]. }
  assert (Hm : intrev16ifbe 65535 = 65535).
  { unfold intrev16ifbe, intrev16, host_encode, host_decode. by destruct big_endian. }
  destruct (Z.ltb_spec L 65535) as [Hlt|Hge].
  - apply Z.ltb_lt. destruct (Z.eq_dec (intrev16ifbe L) 65535) as [E|]; [|lia].
    apply (f_equal intrev16ifbe) in E. rewrite intrev16ifbe_involutive, Hm in E; lia.
  - assert (L = 65535) as -> by lia. by rewrite Hm.
Qed.

Lemma incr_len t o L R n d :
  len_ok L n -> 0 <= n + d -> d <= 1 ->
  exists L', ZIPLIST_INCR_LENGTH (zlheader t o L ++ R) d = Some (zlheader t o L' ++ R) /\ len_ok L' (n + d).
Proof.
  intros [HL Hn] Hd Hd1. unfold ZIPLIST_INCR_LENGTH, UINT16_MAX in *.
  rewrite get_len by lia. cbn [obind]. rewrite intrev16ifbe_max by done. unfold UINT16_MAX.
  destruct (Z.ltb_spec L 65535) as [Hlt|Hge].
  - rewrite intrev16ifbe_involutive, uint_id, set_len by lia. eexists. split; [done|].
    unfold len_ok, UINT16_MAX. lia.
  - exists L. split; [done|]. unfold len_ok, UINT16_MAX. lia.
Qed.

(** * Entries at an offset *)

Section At.
Context (A C zl : bytes) (q : Z) (e : zentry) (p : Z).
Context (Hzl : zl = A ++ enc_entry q e ++ C) (Hp : p = msize A).
Context (Hq : prevlen_ok e.1 q) (Hpl : payload_ok e.2).

Lemma entry_first : exists b, load8 zl p = Some b /\ (b <? ZIP_BIGLEN) = negb e.1 /\ b <> ZIP_END.
Proof.
  destruct e as [big pl]. unfold enc_entry, prevlen_ok, ZIP_BIGLEN, ZIP_END in *. simpl in *.
  destruct big; simpl in *; lsimpl.
  - eexists. split; [eapply load8_at; [exact Hzl|done]|]. done.
  - exists q. split; [eapply load8_at; [exact Hzl|done]|]. split; [|lia]. simpl. apply Z.ltb_lt. lia.
Qed.

Lemma decode_prevlensize : ZIP_DECODE_PREVLENSIZE zl p = Some (prevlen_size e.1).
Proof.
  destruct entry_first as (b & E & Hb & _). unfold ZIP_DECODE_PREVLENSIZE.
  rewrite E. cbn [obind]. rewrite Hb. by destruct e.1.
Qed.

Lemma decode_prevlen : ZIP_DECODE_PREVLEN zl p = Some (prevlen_size e.1, q).
Proof.
  unfold ZIP_DECODE_PREVLEN. rewrite decode_prevlensize. cbn [obind].
  destruct e as [big pl]. unfold enc_entry, prevlen_ok in *. simpl in *.
  destruct big; simpl in *.
  - rewrite (load_at (A ++ [ZIP_BIGLEN]) (le_encode 4 q) (payload_bytes pl ++ C));
      [|by rewrite Hzl; lsimpl|autorewrite with cmem; lia|done].
    cbn [obind]. destruct (memrev32ifbe_decode (le_encode 4 q)) as (x & E & D); [done|].
    rewrite E. cbn [obind]. rewrite D, le_decode_encode, uint_id; [done|apply Hq].
  - rewrite (load8_at A q (payload_bytes pl ++ C)) by done. done.
Qed.

(** What [ZIP_DECODE_LENGTH] returns for a payload. *)
Definition payload_enc : Z :=
  match e.2 with
  | PStr s => if msize s <=? 63 then ZIP_STR_06B else if msize s <=? 16383 then ZIP_STR_14B else ZIP_STR_32B
  | PInt enc _ => enc
  end.

Lemma int_enc_range enc v : int_enc_ok enc v -> 192 <= enc < 255 /\ ZIP_IS_STR enc = false /\ 0 <= zipIntSize enc <= 8.
Proof.
  unfold int_enc_ok, ZIP_INT_IMM_MIN. intros [[Hin _]|[Hv ->]].
  - repeat (apply elem_of_cons in Hin as [->|Hin]; [by vm_compute|]). by apply not_elem_of_nil in Hin.
  - assert (Hc : forall b, 0 <= b < 13 ->
      (192 <=? 241 + b) && (241 + b <? 255) && negb (ZIP_IS_STR (241 + b)) &&
      (0 <=? zipIntSize (241 + b)) && (zipIntSize (241 + b) <=? 8) = true)
      by (apply byte_check; reflexivity).
    specialize (Hc v ltac:(lia)). bprop. repeat split; (done || lia).
Qed.

Lemma decode_length :
  ZIP_DECODE_LENGTH zl (p + prevlen_size e.1) =
    Some (payload_enc, msize (payload_header e.2), msize (payload_body e.2)).
Proof.
  unfold ZIP_DECODE_LENGTH, ZIP_ENTRY_ENCODING, payload_enc. clear Hq.
  assert (Hz : zl = (A ++ prevlen_bytes e.1 q) ++ payload_header e.2 ++ payload_body e.2 ++ C)
    by (rewrite Hzl; unfold enc_entry, payload_bytes; by lsimpl).
  assert (Hm : p + prevlen_size e.1 = msize (A ++ prevlen_bytes e.1 q))
    by (rewrite msize_app, msize_prevlen; lia).
  rewrite Hm. set (A' := A ++ prevlen_bytes e.1 q) in *. clearbody A'. clear Hzl Hm.
  destruct e.2 as [s|enc v]; simpl in *.
  - destruct Hpl as (_ & Hs & _). pose proof (msize_nonneg s). unfold str_header in *.
    destruct (Z.leb_spec (msize s) 63) as [H1|H1]; [|destruct (Z.leb_spec (msize s) 16383) as [H2|H2]].
    + destruct (str06_bits (msize s)) as [E1 E2]; [lia|].
      rewrite (load8_at A' (msize s) (s ++ C)) by done. cbn [obind]. unfold ZIP_STR_MASK in *.
      rewrite (proj2 (Z.ltb_lt (msize s) 192)), E1 by lia. cbn. by rewrite E2.
    + rewrite Z.shiftr_div_pow2, land255 in * by lia.
      assert (Hb : 0 <= msize s / 2 ^ 8 < 64).
      { split; [apply Z.div_pos; lia|apply Z.div_lt_upper_bound; lia]. }
      change 63 with (Z.ones 6) in Hz. rewrite Z.land_ones, Z.mod_small in Hz by (lia || exact Hb).
      destruct (str14_bits (msize s / 2 ^ 8) Hb) as (E0 & E1 & E2).
      rewrite (load8_at A' (Z.lor ZIP_STR_14B (msize s / 2 ^ 8)) (msize s mod 256 :: s ++ C)) by done.
      cbn [obind]. unfold ZIP_STR_MASK, ZIP_STR_14B in *.
      rewrite (proj2 (Z.ltb_lt (Z.lor _ _) 192)), E1 by lia. cbn [Z.ltb Z.compare Pos.compare Pos.compare_cont Z.eqb ZIP_STR_06B Pos.eqb].
      rewrite (load8_at (A' ++ [Z.lor 64 (msize s / 2 ^ 8)]) (msize s mod 256) (s ++ C))
        by (rewrite ?Hz; lsimpl; (done || autorewrite with cmem; lia)).
      cbn [obind]. rewrite E2, lor_shiftl_add by (try apply Z.mod_pos_bound; lia).
      do 3 f_equal. rewrite Z.mul_comm. symmetry. change (2 ^ 8) with 256. apply Z.div_mod. lia.
    + rewrite !land255 in Hz. set (n := msize s) in *.
      set (b1 := Z.shiftr n 24 mod 256) in *. set (b2 := Z.shiftr n 16 mod 256) in *.
      set (b3 := Z.shiftr n 8 mod 256) in *. set (b4 := n mod 256) in *.
      assert (Hl : forall k b B D, zl = B ++ b :: D -> msize B = msize A' + k -> load8 zl (msize A' + k) = Some b).
      { intros k b B D HB <-. by eapply load8_at. }
      rewrite (load8_at A' ZIP_STR_32B ([b1; b2; b3; b4] ++ s ++ C)) by done. cbn [obind].
      change (ZIP_STR_32B <? ZIP_STR_MASK) with true. cbn [Z.land ZIP_STR_32B ZIP_STR_MASK Pos.land Pos.Nsucc_double Pos.Ndouble Z.of_N N.double N.succ_double].
      change (Z.land 128 192) with 128.
      cbn -[load8 uint Z.lor Z.shiftl].
      rewrite (Hl 1 b1 (A' ++ [128]) ([b2; b3; b4] ++ s ++ C)) by (rewrite ?Hz; lsimpl; (done || autorewrite with cmem; lia)).
      rewrite (Hl 2 b2 (A' ++ [128; b1]) ([b3; b4] ++ s ++ C)) by (rewrite ?Hz; lsimpl; (done || autorewrite with cmem; lia)).
      rewrite (Hl 3 b3 (A' ++ [128; b1; b2]) ([b4] ++ s ++ C)) by (rewrite ?Hz; lsimpl; (done || autorewrite with cmem; lia)).
      rewrite (Hl 4 b4 (A' ++ [128; b1; b2; b3]) (s ++ C)) by (rewrite ?Hz; lsimpl; (done || autorewrite with cmem; lia)).
      cbn [obind]. rewrite lor4_add by (apply Z.mod_pos_bound; lia).
      subst b1 b2 b3 b4. rewrite bytes4_combine, uint_id by (unfold n; lia). done.
  - destruct (int_enc_range enc v Hpl) as (He & _ & Hsz).
    rewrite (load8_at A' enc (le_encode (Z.to_nat (zipIntSize enc)) v ++ C)) by done. cbn [obind].
    unfold ZIP_STR_MASK. rewrite (proj2 (Z.ltb_ge enc 192)) by lia.
    rewrite (proj2 (Z.ltb_ge enc 192)) by lia.
    rewrite msize_le_encode. do 3 f_equal. lia.
Qed.

Lemma raw_entry_length : zipRawEntryLength zl p = Some (esize e).
Proof.
  unfold zipRawEntryLength. rewrite decode_prevlensize. cbn [obind].
  rewrite decode_length. cbn [obind]. f_equal. unfold esize, payload_bytes. rewrite msize_app. lia.
Qed.

Lemma zip_entry :
  zipEntry zl p = Some (mkZlentry (prevlen_size e.1) q (msize (payload_header e.2)) (msize (payload_body e.2))
    (prevlen_size e.1 + msize (payload_header e.2)) payload_enc p).
Proof.
  unfold zipEntry. rewrite decode_prevlen. cbn [obind]. rewrite decode_length. done.
Qed.
End At.

(** * Writing previous-length fields *)

Lemma prevlen_None zl q :
  zipPrevEncodeLength zl None q = Some (zl, prevlen_size (ZIP_BIGLEN <=? q)).
Proof. unfold zipPrevEncodeLength. rewrite Z.leb_antisym. by destruct (q <? ZIP_BIGLEN). Qed.

Lemma write_prevlen A O C zl p q :
  zl = A ++ O ++ C -> p = msize A -> 0 <= q < 2 ^ 32 ->
  msize O = prevlen_size (ZIP_BIGLEN <=? q) ->
  zipPrevEncodeLength zl (Some p) q =
    Some (A ++ prevlen_bytes (ZIP_BIGLEN <=? q) q ++ C, prevlen_size (ZIP_BIGLEN <=? q)).
Proof.
  unfold zipPrevEncodeLength, ZIP_BIGLEN. intros -> -> Hq HO.
  destruct (Z.leb_spec 254 q) as [Hge|Hlt]; simpl in HO.
  - rewrite (proj2 (Z.ltb_ge q 254)) by lia.
    destruct O as [|o O]; [rewrite msize_nil in HO; lia|]. rewrite msize_cons in HO.
    rewrite (store8_at A o (O ++ C)) by done. cbn [obind].
    rewrite (store_at (A ++ [uint 8 254]) O C);
      [|by lsimpl|autorewrite with cmem; lia|unfold msize at 1; rewrite length_host_encode; lia].
    cbn [obind]. rewrite (memrev32ifbe_encode (A ++ [uint 8 254]) q C) by (done || autorewrite with cmem; lia).
    cbn [obind]. by lsimpl.
  - rewrite (proj2 (Z.ltb_lt q 254)) by lia.
    destruct O as [|o [|? O]]; [done| |rewrite !msize_cons in HO; pose proof (msize_nonneg O); lia].
    rewrite (store8_at A o C) by done. cbn [obind]. rewrite uint_id by lia. done.
Qed.

Lemma write_prevlen_large A O C zl p q :
  zl = A ++ O ++ C -> p = msize A -> msize O = 5 ->
  zipPrevEncodeLengthForceLarge zl p q = Some (A ++ prevlen_bytes true q ++ C).
Proof.
  unfold zipPrevEncodeLengthForceLarge. intros -> -> HO.
  destruct O as [|o O]; [done|]. rewrite msize_cons in HO.
  rewrite (store8_at A o (O ++ C)) by done. cbn [obind].
  rewrite (store_at (A ++ [uint 8 ZIP_BIGLEN]) O C);
    [|by lsimpl|autorewrite with cmem; lia|unfold msize at 1; rewrite length_host_encode; lia].
  cbn [obind]. rewrite (memrev32ifbe_encode (A ++ [uint 8 ZIP_BIGLEN]) q C) by (done || autorewrite with cmem; lia).
  by lsimpl.
Qed.

Lemma prevlen_ok_auto q : 0 <= q < 2 ^ 32 -> prevlen_ok (ZIP_BIGLEN <=? q) q.
Proof. intros. split; [done|]. by intros ?%Z.leb_gt. Qed.

(** * Resizing *)

Lemma store_last m b v n :
  n = msize m -> store8 (m ++ [b]) n v = Some (m ++ [uint 8 v]).
Proof. intros ->. by apply (store8_at m b []). Qed.

(** Growing by [msize F] bytes: the old end mark and fresh bytes are in [F]. *)
Lemma resize_grow t o L B n :
  msize B + 11 <= n < 2 ^ 32 ->
  exists F, msize F = n - 11 - msize B /\ (0 < msize F -> exists F', F = ZIP_END :: F') /\
    ziplistResize (zlheader t o L ++ B ++ [ZIP_END]) n = Some (zlheader n o L ++ B ++ F ++ [ZIP_END]).
Proof.
  intros Hn. pose proof (msize_nonneg B). unfold ziplistResize. rewrite uint_id by lia.
  rewrite zrealloc_grow by (autorewrite with cmem; lia). autorewrite with cmem. lsimpl.
  set (f := fresh _ _). assert (Hf : msize f = n - 11 - msize B) by (unfold f; rewrite msize_fresh; lia).
  clearbody f. destruct f as [|x f _] using rev_ind.
  - exists []. rewrite msize_nil in *. split; [done|]. split; [lia|].
    rewrite set_bytes. cbn [obind]. rewrite (app_assoc (zlheader n o L)).
    rewrite store_last by (autorewrite with cmem; lia). by lsimpl.
  - rewrite msize_app, msize_cons, msize_nil in Hf. exists (ZIP_END :: f). rewrite msize_cons.
    split; [lia|]. split; [eauto|]. rewrite set_bytes. cbn [obind].
    replace (zlheader n o L ++ B ++ ZIP_END :: f ++ [x]) with ((zlheader n o L ++ B ++ ZIP_END :: f) ++ [x])
      by by lsimpl.
    rewrite store_last by (autorewrite with cmem; lia). by lsimpl.
Qed.

Lemma resize_shrink t o L B R n :
  n = 11 + msize B -> n < 2 ^ 32 -> 1 <= msize R ->
  ziplistResize (zlheader t o L ++ B ++ R) n = Some (zlheader n o L ++ B ++ [ZIP_END]).
Proof.
  intros -> Hn HR. pose proof (msize_nonneg B). unfold ziplistResize. rewrite uint_id by lia.
  destruct R as [|x R]; [rewrite msize_nil in HR; lia|].
  replace (zlheader t o L ++ B ++ x :: R) with ((zlheader t o L ++ B ++ [x]) ++ R) by by lsimpl.
  rewrite zrealloc_shrink by (autorewrite with cmem; lia).
  rewrite set_bytes. cbn [obind]. rewrite (app_assoc (zlheader _ o L)).
  rewrite store_last by (autorewrite with cmem; lia). by lsimpl.
Qed.
End Decode.
