(* ===== verification/ZiplistPayload.v ===== *)
(** Payloads of ziplist entries: the choice of an encoding for a string, and
    the writing and reading of the encoded value. *)

From S2P Require Import Prelude Endian Util Ziplist ZiplistRep.

(** The payload stored for a string: integers are recognised by their decimal
    notation. *)
Definition payload_of (s : bytes) : payload :=
  match zipTryEncoding s (msize s) with
  | Some (Some (v, enc)) => PInt enc v
  | _ => PStr s
  end.

(** The locals [encoding] and [value] of [__ziplistInsert]. *)
Definition pl_enc (pl : payload) : Z := match pl with PStr _ => 0 | PInt enc _ => enc end.
Definition pl_val (pl : payload) : Z := match pl with PStr _ => 123456789 | PInt _ v => v end.

(** The string a payload stands for: it is what the user stored. *)
Definition denotes (pl : payload) (s : bytes) : Prop :=
  match pl with PStr s' => s' = s | PInt _ v => decimal s v end.

Lemma try_encoding_total s : exists r, zipTryEncoding s (msize s) = Some r.
Proof.
  unfold zipTryEncoding. destruct (_ || _); [by eexists|].
  destruct (string2ll_total s) as [r ->]. cbn [obind]. destruct r; by eexists.
Qed.

Lemma try_encoding_inv s v enc :
  zipTryEncoding s (msize s) = Some (Some (v, enc)) ->
  decimal s v /\ in_sint 64 v /\ enc = zipIntEncoding v.
Proof.
  unfold zipTryEncoding. destruct (_ || _); [done|].
  destruct (string2ll s (msize s)) as [[w|]|] eqn:E; [|done..]. cbn [obind]. intros [= -> <-].
  apply string2ll_sound in E as [? ?]. by split_and!.
Qed.

Lemma int_encoding_ok v : in_sint 64 v -> int_enc_ok (zipIntEncoding v) v.
Proof.
  intros Hv. unfold zipIntEncoding, int_enc_ok, INT24_MIN, INT24_MAX in *. bcase; try (right; lia); left;
    (split; [rewrite !elem_of_cons; tauto|]); try done; unfold in_sint; cbn; lia.
Qed.

Lemma try_payload s :
  exists r, zipTryEncoding s (msize s) = Some r /\
    match r with Some (_, enc) => enc | None => 0 end = pl_enc (payload_of s) /\
    match r with Some (v, _) => v | None => 123456789 end = pl_val (payload_of s) /\
    match r with Some (_, enc) => zipIntSize enc | None => msize s end = msize (payload_body (payload_of s)) /\
    (forall s', payload_of s = PStr s' -> s = s').
Proof.
  destruct (try_encoding_total s) as [r E]. exists r. unfold payload_of. rewrite E.
  destruct r as [[v enc]|]; split_and!; try done; [|by intros ? [= ->]].
  apply try_encoding_inv in E as (_ & Hv & ->). cbn [payload_body]. rewrite msize_le_encode.
  destruct (int_enc_range _ _ (int_encoding_ok v Hv)) as (_ & _ & ?). lia.
Qed.

Lemma payload_of_ok s : Forall is_byte s -> msize s < 2 ^ 32 -> payload_ok (payload_of s).
Proof.
  intros Hs Hsz. unfold payload_of.
  destruct (try_encoding_total s) as [[[v enc]|] E]; rewrite E; [|done].
  apply try_encoding_inv in E as (_ & Hv & ->). by apply int_encoding_ok.
Qed.

Lemma payload_of_denotes s : denotes (payload_of s) s.
Proof.
  unfold payload_of. destruct (try_encoding_total s) as [[[v enc]|] E]; rewrite E; [|done].
  by apply try_encoding_inv in E as (? & _ & _).
Qed.

Lemma encode_shift8 v : le_encode 4 (Z.shiftl v 8) = 0 :: le_encode 3 v.
Proof.
  rewrite Z.shiftl_mul_pow2 by lia. change (2 ^ 8) with 256. change (le_encode 4 (v * 256))
    with (v * 256 mod 256 :: le_encode 3 (v * 256 / 256)).
  by rewrite Z.div_mul, Z.mod_mul by lia.
Qed.

Lemma payload_of_size b s :
  Forall is_byte s -> msize s < 2 ^ 32 -> 2 <= esize (b, payload_of s) <= 14 + msize s.
Proof.
  intros Hs Hsz. split; [apply esize_pos|]. pose proof (payload_of_ok s Hs Hsz) as Hok.
  destruct (try_payload s) as (_ & _ & _ & _ & _ & Hstr). pose proof (msize_nonneg s).
  unfold esize, payload_bytes, prevlen_size. cbn [fst snd]. rewrite msize_app.
  destruct (payload_of s) as [s'|enc v].
  - rewrite <- (Hstr s' eq_refl). pose proof (msize_header (PStr s)). cbn [payload_body]. destruct b; lia.
  - cbn [payload_body payload_header]. rewrite msize_le_encode, msize_cons, msize_nil.
    destruct (int_enc_range enc v Hok) as (_ & _ & ?). destruct b; lia.
Qed.

Section Payload.
Context `{Host}.

(** * Integers *)

Lemma save_integer A O C zl p v enc :
  int_enc_ok enc v -> zl = A ++ O ++ C -> p = msize A -> msize O = zipIntSize enc ->
  zipSaveInteger zl p v enc = Some (A ++ le_encode (Z.to_nat (zipIntSize enc)) v ++ C).
Proof.
  intros Henc -> -> HO. unfold int_enc_ok in Henc. destruct Henc as [[Hin Hv]|[Hv ->]].
  - repeat (apply elem_of_cons in Hin as [->|Hin]); [..|by apply not_elem_of_nil in Hin];
      match type of HO with _ = ?x => let y := eval vm_compute in x in change x with y in HO end;
      cbn in Hv; unfold zipSaveInteger; cbn [Z.eqb Pos.eqb ZIP_INT_8B ZIP_INT_16B ZIP_INT_24B ZIP_INT_32B ZIP_INT_64B].
    + destruct O as [|o [|? O]]; [done| |rewrite !msize_cons in HO; pose proof (msize_nonneg O); lia].
      by apply (store8_at A o C).
    + rewrite (store_at A O C) by (done || by rewrite msize_host_encode). cbn [obind]. by rewrite (memrev16ifbe_encode A v C).
    + rewrite (memrev32ifbe_encode [] (Z.shiftl v 8) []) by (by rewrite ?app_nil_r).
      cbn [obind]. rewrite app_nil_l, app_nil_r, encode_shift8.
      rewrite (load_at [0] (le_encode 3 v) []) by done. cbn [obind].
      by apply (store_at A O C).
    + rewrite (store_at A O C) by (done || by rewrite msize_host_encode). cbn [obind]. by rewrite (memrev32ifbe_encode A v C).
    + rewrite (store_at A O C) by (done || by rewrite msize_host_encode). cbn [obind]. by rewrite (memrev64ifbe_encode A v C).
  - unfold zipIntSize, zipSaveInteger, ZIP_INT_IMM_MIN, ZIP_INT_IMM_MAX, ZIP_INT_8B, ZIP_INT_16B, ZIP_INT_24B, ZIP_INT_32B, ZIP_INT_64B in *.
    revert HO. bdecide. intros ->%msize_0_nil. done.
Qed.

Lemma load_integer A C zl p v enc :
  int_enc_ok enc v -> zl = A ++ le_encode (Z.to_nat (zipIntSize enc)) v ++ C -> p = msize A ->
  zipLoadInteger zl p enc = Some v.
Proof.
  intros Henc -> ->. unfold int_enc_ok in Henc. destruct Henc as [[Hin Hv]|[Hv ->]].
  - repeat (apply elem_of_cons in Hin as [->|Hin]); [..|by apply not_elem_of_nil in Hin];
      match type of Hv with context [zipIntSize ?x] =>
        let y := eval vm_compute in (zipIntSize x) in change (zipIntSize x) with y in * end;
      unfold zipLoadInteger; cbn [Z.eqb Pos.eqb ZIP_INT_8B ZIP_INT_16B ZIP_INT_24B ZIP_INT_32B ZIP_INT_64B].
    + rewrite (load8_at A (v mod 256) C) by done. cbn [obind]. change 256 with (2 ^ 8).
      by rewrite sint_mod, sint_id by done.
    + rewrite (load_at A (le_encode 2 v) C) by done. cbn [obind].
      destruct (memrev16ifbe_decode (le_encode 2 v)) as (x & -> & E); [done|]. cbn [obind].
      by rewrite E, le_decode_encode, sint_uint, sint_id by done.
    + rewrite (load_at A (le_encode 3 v) C) by done. cbn [obind].
      rewrite (store_at [0] (le_encode 3 0) [])
        by (done || by unfold host_encode; destruct big_endian). cbn [obind].
      rewrite app_nil_r. change ([0] ++ le_encode 3 v) with (0 :: le_encode 3 v).
      rewrite <- encode_shift8.
      destruct (memrev32ifbe_decode (le_encode 4 (Z.shiftl v 8))) as (x & -> & E); [done|]. cbn [obind].
      rewrite E, le_decode_encode, sint_uint by done. rewrite sint_id; [|rewrite Z.shiftl_mul_pow2 by lia; unfold in_sint in *; cbn in *; lia|done].
      by rewrite Z.shiftr_shiftl_l, Z.shiftl_0_r by lia.
    + rewrite (load_at A (le_encode 4 v) C) by done. cbn [obind].
      destruct (memrev32ifbe_decode (le_encode 4 v)) as (x & -> & E); [done|]. cbn [obind].
      by rewrite E, le_decode_encode, sint_uint, sint_id by done.
    + rewrite (load_at A (le_encode 8 v) C) by done. cbn [obind].
      destruct (memrev64ifbe_decode (le_encode 8 v)) as (x & -> & E); [done|]. cbn [obind].
      by rewrite E, le_decode_encode, sint_uint, sint_id by done.
  - pose proof (byte_check (fun v => match zipLoadInteger (A ++ le_encode (Z.to_nat (zipIntSize (ZIP_INT_IMM_MIN + v))) v ++ C)
      (msize A) (ZIP_INT_IMM_MIN + v) with Some w => w =? v | None => false end) 13 eq_refl v ltac:(lia)) as E.
    cbv beta in E. destruct zipLoadInteger; [|done]. apply Z.eqb_eq in E. by subst.
Qed.

(** * Writing an entry into a gap of its size *)

Lemma write_header A O C zl p pl slen :
  payload_ok pl -> zl = A ++ O ++ C -> p = msize A -> msize O = msize (payload_header pl) ->
  (forall s, pl = PStr s -> slen = msize s) ->
  zipEncodeLength zl (Some p) (pl_enc pl) slen
  = Some (A ++ payload_header pl ++ C, msize (payload_header pl)).
Proof.
  intros Hok -> -> HO Hs. destruct pl as [s|enc v]; cbn in HO |- *.
  - rewrite (Hs s eq_refl). unfold zipEncodeLength. cbn [ZIP_IS_STR Z.land]. change (ZIP_IS_STR 0) with true.
    cbv iota. unfold str_header in *. destruct (msize s <=? 63); [|destruct (msize s <=? 16383)].
    + by rewrite (store_at A O C).
    + by rewrite (store_at A O C).
    + by rewrite (store_at A O C).
  - unfold zipEncodeLength. destruct (int_enc_range enc v Hok) as (_ & -> & _).
    by rewrite (store_at A O C).
Qed.

Lemma header_size zl pl slen :
  payload_ok pl -> (forall s, pl = PStr s -> slen = msize s) ->
  zipEncodeLength zl None (pl_enc pl) slen
  = Some (zl, msize (payload_header pl)).
Proof.
  intros Hok Hs. destruct pl as [s|enc v]; cbn.
  - rewrite (Hs s eq_refl). unfold zipEncodeLength. change (ZIP_IS_STR 0) with true.
    cbv iota. unfold str_header. by destruct (msize s <=? 63); [|destruct (msize s <=? 16383)].
  - unfold zipEncodeLength. by destruct (int_enc_range enc v Hok) as (_ & -> & _).
Qed.

(** The last writes of [__ziplistInsert]: the whole entry goes into the gap [G]. *)
Lemma write_entry {B} (K : bytes -> option B) A G C zl p q s :
  Forall is_byte s -> msize s < 2 ^ 32 -> 0 <= q < 2 ^ 32 ->
  zl = A ++ G ++ C -> p = msize A -> msize G = esize (ZIP_BIGLEN <=? q, payload_of s) ->
  (' (zl, n) <- zipPrevEncodeLength zl (Some p) q;;
   ' (zl, n0) <- zipEncodeLength zl (Some (p + n)) (pl_enc (payload_of s)) (msize s);;
   zl <- (if ZIP_IS_STR (pl_enc (payload_of s))
          then bs <- load s 0 (msize s);; store zl (p + n + n0) bs
          else zipSaveInteger zl (p + n + n0) (pl_val (payload_of s)) (pl_enc (payload_of s)));;
   K zl)
  = K (A ++ enc_entry q (ZIP_BIGLEN <=? q, payload_of s) ++ C).
Proof.
  intros Hs Hsz Hq -> -> HG. pose proof (payload_of_ok s Hs Hsz) as Hok.
  destruct (try_payload s) as (_ & _ & _ & _ & _ & Hstr).
  revert Hok Hstr HG. generalize (payload_of s). intros pl Hok Hstr HG.
  unfold esize, payload_bytes in HG. cbn [fst snd] in HG. rewrite msize_app in HG.
  pose proof (msize_nonneg (payload_header pl)). pose proof (msize_nonneg (payload_body pl)).
  destruct (split_at G (prevlen_size (ZIP_BIGLEN <=? q))) as (G1 & G' & -> & HG1);
    [unfold prevlen_size in *; destruct (_ <=? _); lia|]. rewrite msize_app in HG.
  destruct (split_at G' (msize (payload_header pl))) as (G2 & G3 & -> & HG2); [lia|]. rewrite msize_app in HG.
  rewrite (write_prevlen A G1 ((G2 ++ G3) ++ C)); [|by lsimpl|done|done|done]. cbn [obind].
  rewrite (write_header (A ++ prevlen_bytes (ZIP_BIGLEN <=? q) q) G2 (G3 ++ C));
    [|done|by lsimpl|by rewrite msize_app, msize_prevlen|done|by intros s' <-%Hstr]. cbn [obind].
  unfold enc_entry, payload_bytes. cbn [fst snd].
  assert (Hb : forall m, m = ((A ++ prevlen_bytes (ZIP_BIGLEN <=? q) q) ++ payload_header pl) ++ payload_body pl ++ C ->
    K m = K (A ++ (prevlen_bytes (ZIP_BIGLEN <=? q) q ++ payload_header pl ++ payload_body pl) ++ C))
    by (intros m ->; f_equal; by lsimpl).
  destruct pl as [s'|enc v]; cbn [pl_enc pl_val payload_body] in *.
  - rewrite <- (Hstr s' eq_refl) in *. change (ZIP_IS_STR 0) with true. cbv iota.
    rewrite (load_at [] s []) by (by rewrite ?app_nil_r). cbn [obind].
    rewrite (store_at ((A ++ prevlen_bytes (ZIP_BIGLEN <=? q) q) ++ payload_header (PStr s)) G3 C);
      [|by lsimpl|by rewrite !msize_app, msize_prevlen|lia]. cbn [obind]. by apply Hb.
  - destruct (int_enc_range enc v Hok) as (_ & -> & ?).
    rewrite (save_integer ((A ++ prevlen_bytes (ZIP_BIGLEN <=? q) q) ++ payload_header (PInt enc v)) G3 C);
      [|done|by lsimpl|by rewrite !msize_app, msize_prevlen|rewrite msize_le_encode in HG; lia].
    cbn [obind]. by apply Hb.
Qed.
End Payload.
