(* ===== verification/ZiplistUpdate.v ===== *)
(** Updates of ziplists: cascading previous-length updates, insertion and
    deletion preserve the representation invariant and act on the list of
    payloads as list insertion and deletion. *)

From S2P Require Import Prelude Endian Util Ziplist ZiplistRep ZiplistPayload.

Section Update.
Context `{Host}.

(** Solve equations between concatenations, and size equations. *)
Ltac eqapp := lsimpl; done.
Ltac szsolve := autorewrite with cmem in *; lia.

(** * Cascading updates *)

(** The previous-length field of [n] is rewritten in place. *)
Lemma cascade_in_place A n r s C zl p :
  zl = A ++ enc_entry r n ++ C -> p = msize A -> 0 <= s < 2 ^ 32 ->
  (prevlen_size n.1 <? prevlen_size (ZIP_BIGLEN <=? s)) = false ->
  (if prevlen_size n.1 >? prevlen_size (ZIP_BIGLEN <=? s)
   then zipPrevEncodeLengthForceLarge zl p s
   else ' (zl, _) <- zipPrevEncodeLength zl (Some p) s;; Some zl)
  = Some (A ++ enc_entry s n ++ C) /\ prevlen_ok n.1 s.
Proof.
  intros -> -> Hs Hlt. destruct n as [big pl]. unfold enc_entry. cbn [fst snd] in *. rewrite Z.gtb_ltb. lsimpl.
  destruct (ZIP_BIGLEN <=? s) eqn:Eb; destruct big; try done; cbn [prevlen_size] in *; cbn [Z.ltb Z.compare Pos.compare Pos.compare_cont].
  - rewrite (write_prevlen A (prevlen_bytes true r) (payload_bytes pl ++ C)); [|done|done|done|by rewrite Eb].
    rewrite Eb. cbn [obind]. by split.
  - by rewrite (write_prevlen_large A (prevlen_bytes true r) (payload_bytes pl ++ C)).
  - rewrite (write_prevlen A (prevlen_bytes false r) (payload_bytes pl ++ C)); [|done|done|done|by rewrite Eb].
    rewrite Eb. cbn [obind]. split; [done|]. split; [done|]. intros _. by apply Z.leb_gt.
Qed.

(** What the loop computes from the entry [c] before the entries [ns]: it
    repairs their previous-length fields. *)
Definition cascaded (L : Z) (fuel : nat) (t o : Z) (X : bytes) (q : Z) (c : zentry) (r : Z)
    (ns : list zentry) : Prop :=
  exists ns' o',
    ziplistCascadeUpdate_loop fuel
      (zlheader t o L ++ X ++ enc_entry q c ++ enc_list r ns ++ [ZIP_END]) (10 + msize X) t
    = Some (zlheader (11 + msize X + esize c + sizes ns') o' L
              ++ X ++ enc_entry q c ++ enc_list (esize c) ns' ++ [ZIP_END]) /\
    ns'.*2 = ns.*2 /\ chain (esize c) ns' /\
    o' = (if bool_decide (ns = []) then o else tail_from (10 + msize X + esize c) ns') /\
    sizes ns <= sizes ns' <= sizes ns + 4 * msize ns.

Definition cascade_ok (L : Z) (fuel : nat) : Prop := forall t o X q c r ns,
  t = 11 + msize X + esize c + sizes ns -> t + 4 * msize ns < 2 ^ 32 ->
  msize ns < Z.of_nat fuel ->
  prevlen_ok c.1 q -> payload_ok c.2 -> chain r ns -> Forall (fun e => payload_ok e.2) ns ->
  0 <= o < 2 ^ 32 -> (ns <> [] -> o = tail_from (10 + msize X + esize c) ns) ->
  cascaded L fuel t o X q c r ns.

(** The iterations after the field of [pl] has grown. *)
Lemma cascade_grow_rest L fuel t o X q c pl ns : cascade_ok L fuel ->
  t = 11 + msize X + esize c + (esize (false, pl) + sizes ns) -> t + 4 * (1 + msize ns) < 2 ^ 32 ->
  1 + msize ns < Z.of_nat (S fuel) -> payload_ok pl -> 254 <= esize c -> chain (esize (false, pl)) ns ->
  Forall (fun e => payload_ok e.2) ns -> 0 <= o < 2 ^ 32 ->
  o = tail_from (10 + msize X + esize c) ((false, pl) :: ns) ->
  exists ns' o', ziplistCascadeUpdate_loop fuel
      (zlheader (t + 4) (if o =? 10 + msize X + esize c then o else o + 4) L ++ (X ++ enc_entry q c)
        ++ enc_entry (esize c) (true, pl) ++ enc_list (esize (false, pl)) ns ++ [ZIP_END]) (10 + msize X + esize c) (t + 4)
    = Some (zlheader (11 + msize X + esize c + (esize (true, pl) + sizes ns')) o' L
              ++ X ++ enc_entry q c ++ (enc_entry (esize c) (true, pl) ++ enc_list (esize (true, pl)) ns') ++ [ZIP_END]) /\
    ns'.*2 = ns.*2 /\ chain (esize (true, pl)) ns' /\ o' = tail_from (10 + msize X + esize c) ((true, pl) :: ns') /\
    sizes ns <= sizes ns' <= sizes ns + 4 * msize ns.
Proof.
  intros IH Ht Ht4 Hfuel Hn Hc254 Hch Hok Ho Htail.
  pose proof (esize_pos c). pose proof (msize_nonneg X). pose proof (msize_nonneg ns). pose proof (sizes_nonneg ns).
  assert (Hen : esize (false, pl) = 1 + msize (payload_bytes pl)) by done.
  assert (Hen' : esize (true, pl) = 5 + msize (payload_bytes pl)) by done.
  pose proof (tail_from_range (10 + msize X + esize c) ((false, pl) :: ns)) as Htr. rewrite <- Htail in Htr. cbn [sizes] in Htr.
  pose proof (msize_nonneg (payload_bytes pl)).
  destruct (IH (t + 4) (if o =? 10 + msize X + esize c then o else o + 4) (X ++ enc_entry q c)
    (esize c) (true, pl) (esize (false, pl)) ns) as (ns' & o' & E & Hpl & Hch' & Ho' & Hsz'); try done.
  { autorewrite with cmem. lia. }
  { lia. }
  { lia. }
  { split; [cbn [fst]; lia|done]. }
  { destruct (o =? _); lia. }
  { intros Hns. destruct ns as [|n2 ns]; [done|].
    change (o = tail_from (10 + msize X + esize c + esize (false, pl)) (n2 :: ns)) in Htail.
    pose proof (tail_from_range (10 + msize X + esize c + esize (false, pl)) (n2 :: ns)).
    rewrite (proj2 (Z.eqb_neq o _)) by lia. rewrite Htail, <- tail_from_shift.
    f_equal. autorewrite with cmem. lia. }
  rewrite !msize_app, msize_enc_entry in *. exists ns', o'.
  split. { rewrite Z.add_assoc in E. rewrite E. do 2 f_equal; [f_equal; lia|eqapp]. }
  split; [done|]. split; [done|]. split; [|lia]. rewrite Ho'. destruct ns as [|n2 ns].
  - apply fmap_nil_inv in Hpl. subst ns'. cbn [tail_from] in *. rewrite Htail, Z.eqb_refl. done.
  - rewrite bool_decide_false by done. destruct ns' as [|n2' ns']; [done|].
    change (tail_from (10 + (msize X + esize c) + esize (true, pl)) (n2' :: ns')
      = tail_from (10 + msize X + esize c + esize (true, pl)) (n2' :: ns')). f_equal. lia.
Qed.

(** The previous-length field of [n] grows from one to five bytes. *)
Lemma cascade_grow {B} (K : bytes -> option B) t o L X pl r s C tailp :
  254 <= s < 2 ^ 32 -> 0 <= r < 254 ->
  t = 11 + msize X + 1 + msize (payload_bytes pl) + msize C -> t + 4 < 2 ^ 32 ->
  0 <= o < 2 ^ 32 -> 0 <= o + 4 < 2 ^ 32 -> tailp = 10 + msize X ->
  (zl <- ziplistResize (zlheader t o L ++ X ++ enc_entry r (false, pl) ++ C ++ [ZIP_END]) (t + 4);;
   t0 <- ZIPLIST_TAIL_OFFSET zl;;
   zl <- (if intrev32ifbe t0 =? tailp then Some zl else add_tail_offset zl 4);;
   zl <- memmove zl (tailp + 5) (tailp + 1) (t - tailp - 1 - 1);;
   ' (zl, _) <- zipPrevEncodeLength zl (Some tailp) s;;
   K zl)
  = K (zlheader (t + 4) (if o =? tailp then o else o + 4) L ++ X ++ enc_entry s (true, pl) ++ C ++ [ZIP_END]).
Proof.
  intros Hs Hr Ht Ht4 Ho Ho4 ->. unfold enc_entry. cbn [fst snd prevlen_bytes]. lsimpl.
  replace (zlheader t o L ++ X ++ r :: payload_bytes pl ++ C ++ [ZIP_END])
    with (zlheader t o L ++ (X ++ r :: payload_bytes pl ++ C) ++ [ZIP_END]) by eqapp.
  destruct (resize_grow t o L (X ++ r :: payload_bytes pl ++ C) (t + 4)) as (F & HF & _ & E); [szsolve|].
  rewrite E. cbn [obind]. clear E. rewrite get_tail by done. cbn [obind].
  rewrite intrev32ifbe_involutive by done.
  assert (E : (if o =? 10 + msize X then Some (zlheader (t + 4) o L ++ (X ++ r :: payload_bytes pl ++ C) ++ F ++ [ZIP_END])
    else add_tail_offset (zlheader (t + 4) o L ++ (X ++ r :: payload_bytes pl ++ C) ++ F ++ [ZIP_END]) 4)
    = Some (zlheader (t + 4) (if o =? 10 + msize X then o else o + 4) L ++ (X ++ r :: payload_bytes pl ++ C) ++ F ++ [ZIP_END])).
  { destruct (o =? 10 + msize X); [done|]. by rewrite add_tail. }
  rewrite E. cbn [obind]. clear E. set (o' := if o =? 10 + msize X then o else o + 4). clearbody o'.
  destruct (memmove_right (zlheader (t + 4) o' L ++ X ++ [r]) (payload_bytes pl ++ C) F [ZIP_END]
    (zlheader (t + 4) o' L ++ (X ++ r :: payload_bytes pl ++ C) ++ F ++ [ZIP_END])
    (10 + msize X + 5) (10 + msize X + 1) (t - (10 + msize X) - 1 - 1)) as (G & HG & E);
    [eqapp|szsolve|szsolve|szsolve|].
  rewrite E. cbn [obind]. clear E.
  rewrite (write_prevlen (zlheader (t + 4) o' L ++ X) (r :: G) ((payload_bytes pl ++ C) ++ [ZIP_END]));
    [|eqapp|szsolve|lia|unfold ZIP_BIGLEN; bdecide; simpl; szsolve].
  cbn [obind]. unfold ZIP_BIGLEN at 1. rewrite (proj2 (Z.leb_le 254 s)) by lia. eqapp.
Qed.

Lemma cascade_loop_spec L fuel : cascade_ok L fuel.
Proof.
  induction fuel as [|fuel IH];
    intros t o X q c r ns Ht Ht4 Hfuel Hq Hc Hch Hok Ho Htail; [pose proof (msize_nonneg ns); lia|].
  unfold cascaded. cbn [ziplistCascadeUpdate_loop].
  assert (Hzl : zlheader t o L ++ X ++ enc_entry q c ++ enc_list r ns ++ [ZIP_END]
    = (zlheader t o L ++ X) ++ enc_entry q c ++ (enc_list r ns ++ [ZIP_END])) by eqapp.
  assert (Hp : 10 + msize X = msize (zlheader t o L ++ X)) by szsolve.
  destruct (entry_first _ _ _ q c _ Hzl Hp Hq Hc) as (b & Eb & _ & Hb).
  rewrite Eb. cbn [obind]. rewrite (proj2 (Z.eqb_neq b _)) by done.
  rewrite (zip_entry _ _ _ q c _ Hzl Hp Hq Hc). cbn [obind headersize len]. rewrite prevlen_None. cbn [obind].
  replace (prevlen_size c.1 + msize (payload_header c.2) + msize (payload_body c.2)) with (esize c)
    by (unfold esize, payload_bytes; rewrite msize_app; lia).
  pose proof (esize_pos c). pose proof (msize_nonneg X). pose proof (sizes_nonneg ns).
  destruct ns as [|n ns].
  { rewrite (load8_at (zlheader t o L ++ X ++ enc_entry q c) ZIP_END []); [|eqapp|szsolve].
    cbn [obind]. rewrite Z.eqb_refl. exists [], o. subst t. by repeat split. }
  cbn [chain enc_list sizes] in *. destruct Hch as [Hr Hch]. apply Forall_cons_iff in Hok as [Hn Hok].
  rewrite msize_cons in *. pose proof (msize_nonneg ns). pose proof (sizes_nonneg ns). pose proof (esize_pos n).
  assert (Hzn : zlheader t o L ++ X ++ enc_entry q c ++ (enc_entry r n ++ enc_list (esize n) ns) ++ [ZIP_END]
    = (zlheader t o L ++ X ++ enc_entry q c) ++ enc_entry r n ++ (enc_list (esize n) ns ++ [ZIP_END])) by eqapp.
  assert (Hpn : 10 + msize X + esize c = msize (zlheader t o L ++ X ++ enc_entry q c)) by szsolve.
  destruct (entry_first _ _ _ r n _ Hzn Hpn Hr Hn) as (bn & En & _ & Hbn).
  rewrite En. cbn [obind]. rewrite (proj2 (Z.eqb_neq bn _)) by done.
  rewrite (zip_entry _ _ _ r n _ Hzn Hpn Hr Hn). cbn [obind prevrawlen prevrawlensize].
  destruct (Z.eqb_spec r (esize c)) as [->|Hne].
  { exists (n :: ns), o. rewrite bool_decide_false by done. cbn [sizes enc_list]. rewrite <- Ht.
    split; [done|]. split; [done|]. split; [by split|]. split; [by apply Htail|lia]. }
  destruct (prevlen_size n.1 <? prevlen_size (ZIP_BIGLEN <=? esize c)) eqn:Hgrow.
  - (* grow *)
    assert (Hnf : n.1 = false /\ (ZIP_BIGLEN <=? esize c) = true).
    { unfold prevlen_size in Hgrow. destruct n.1; by destruct (ZIP_BIGLEN <=? esize c). }
    destruct n as [nb pl]. cbn [fst snd] in *. destruct Hnf as [-> Hc254].
    rewrite Hc254. apply Z.leb_le in Hc254. unfold ZIP_BIGLEN in Hc254. cbn [prevlen_size].
    change (5 - 1) with 4.
    destruct Hr as [Hr Hr254]. specialize (Hr254 eq_refl). unfold ZIP_BIGLEN in Hr254.
    specialize (Htail ltac:(done)).
    assert (Hen : esize (false, pl) = 1 + msize (payload_bytes pl)) by done.
    pose proof (tail_from_range (10 + msize X + esize c) ((false, pl) :: ns)) as Htr. rewrite <- Htail in Htr. cbn [sizes] in Htr.
    pose proof (cascade_grow (fun zl => ziplistCascadeUpdate_loop fuel zl (10 + msize X + esize c) (t + 4))
      t o L (X ++ enc_entry q c) pl r (esize c) (enc_list (esize (false, pl)) ns) (10 + msize X + esize c)) as E.
    rewrite msize_app, msize_enc_entry, msize_enc_list in E.
    replace (zlheader t o L ++ (X ++ enc_entry q c) ++ enc_entry r (false, pl) ++ enc_list (esize (false, pl)) ns ++ [ZIP_END])
      with (zlheader t o L ++ X ++ enc_entry q c ++ (enc_entry r (false, pl) ++ enc_list (esize (false, pl)) ns) ++ [ZIP_END])
      in E by eqapp.
    rewrite E by lia. clear E.
    destruct (cascade_grow_rest L fuel t o X q c pl ns) as (ns' & o' & E & Hpl & Hch' & Ho' & Hsz'); try done; try lia.
    rewrite E. exists ((true, pl) :: ns'), o'. cbn [sizes enc_list fmap list_fmap chain snd]. rewrite bool_decide_false by done.
    split; [done|]. split; [f_equal; apply Hpl|]. split; [split; [split; [cbn [fst]; lia|done]|done]|]. split; [done|].
    assert (esize (true, pl) = 5 + msize (payload_bytes pl)) by done. lia.
  - destruct (cascade_in_place (zlheader t o L ++ X ++ enc_entry q c) n r (esize c) (enc_list (esize n) ns ++ [ZIP_END])
      _ (10 + msize X + esize c) Hzn Hpn) as [E Hok'].
    { pose proof (sizes_nonneg ns). lia. }
    { done. }
    rewrite E. exists (n :: ns), o. rewrite bool_decide_false by done. cbn [sizes enc_list]. rewrite <- Ht.
    split; [f_equal; eqapp|]. split; [done|]. split; [by split|]. split; [by apply Htail|lia].
Qed.
Lemma cascade_spec t o L X q c r ns zl p :
  zl = zlheader t o L ++ X ++ enc_entry q c ++ enc_list r ns ++ [ZIP_END] -> p = 10 + msize X ->
  t = 11 + msize X + esize c + sizes ns -> t + 4 * msize ns < 2 ^ 32 ->
  prevlen_ok c.1 q -> payload_ok c.2 -> chain r ns -> Forall (fun e => payload_ok e.2) ns ->
  0 <= o < 2 ^ 32 -> o = tail_from (10 + msize X) (c :: ns) ->
  exists ns',
    __ziplistCascadeUpdate zl p
    = Some (zlheader (11 + msize X + esize c + sizes ns') (tail_from (10 + msize X) (c :: ns')) L
              ++ X ++ enc_entry q c ++ enc_list (esize c) ns' ++ [ZIP_END]) /\
    ns'.*2 = ns.*2 /\ chain (esize c) ns' /\ sizes ns <= sizes ns' <= sizes ns + 4 * msize ns.
Proof.
  intros -> -> Ht Ht4 Hq Hc Hch Hok Ho Htail. unfold __ziplistCascadeUpdate.
  pose proof (esize_pos c). pose proof (msize_nonneg X). pose proof (sizes_ge ns). pose proof (msize_nonneg ns).
  rewrite get_bytes by lia. cbn [obind]. rewrite intrev32ifbe_involutive by lia.
  destruct (cascade_loop_spec L (S (length (zlheader t o L ++ X ++ enc_entry q c ++ enc_list r ns ++ [ZIP_END])))
    t o X q c r ns) as (ns' & o' & E & Hpl & Hch' & Ho' & Hsz); try done.
  { rewrite Nat2Z.inj_succ. fold (msize (zlheader t o L ++ X ++ enc_entry q c ++ enc_list r ns ++ [ZIP_END])).
    autorewrite with cmem. lia. }
  { intros Hne. rewrite Htail. by destruct ns. }
  exists ns'. split_and!; try done; [|lia..]. rewrite E. do 3 f_equal. rewrite Ho'.
  destruct ns as [|n ns]; [|by destruct ns'].
  apply fmap_nil_inv in Hpl as ->. done.
Qed.

(** * Insertion *)

(** The [memmove] of an insertion: the previous-length field [O] of the
    successor changes its size by [nd], the bytes behind it are kept. *)
Lemma insert_move A O R F D m nd n :
  m = A ++ O ++ R ++ F ++ D -> msize F = n + nd -> 0 <= n -> 0 <= n + nd ->
  nd <= msize A -> - msize O <= nd ->
  exists G J, msize G = n /\ msize J = msize O + nd /\
    memmove m (msize A + n) (msize A - nd) (msize O + msize R + nd) = Some (A ++ G ++ J ++ R ++ D).
Proof.
  intros -> HF Hn Hnn HA HO. pose proof (msize_nonneg O). pose proof (msize_nonneg R).
  assert (HJ : exists l1 J, A ++ O = l1 ++ J /\ msize J = msize O + nd /\ msize l1 = msize A - nd).
  { pose proof (msize_nonneg A).
    destruct (split_at (A ++ O) (msize A - nd)) as (l1 & J & E & Hl1); [rewrite msize_app; lia|].
    exists l1, J. split; [done|]. apply (f_equal msize) in E. rewrite !msize_app in E. lia. }
  destruct HJ as (l1 & J & E & HJ & Hl1).
  destruct (split_at (O ++ R ++ F) n) as (G & old & Eo & HG); [rewrite !msize_app; lia|].
  assert (Hold : msize old = msize O + msize R + nd).
  { apply (f_equal msize) in Eo. rewrite !msize_app in Eo. lia. }
  exists G, J. split; [done|]. split; [done|]. unfold memmove.
  rewrite (load_at l1 (J ++ R) (F ++ D)); [|by rewrite app_assoc, E; lsimpl|lia|rewrite msize_app; lia].
  cbn [obind]. rewrite (store_at (A ++ G) old D);
    [by lsimpl| |rewrite msize_app; lia|rewrite msize_app; lia].
  transitivity (A ++ (O ++ R ++ F) ++ D); [by lsimpl|]. rewrite Eo. by lsimpl.
Qed.
(** The length of the entry before the end, read from the tail. *)
Lemma tail_prevlen t L es R zl :
  zl = zlheader t (tail_from 10 es) L ++ enc_list 0 es ++ ZIP_END :: R ->
  chain 0 es -> Forall (fun e => payload_ok e.2) es -> 10 + sizes es < 2 ^ 32 ->
  (ptail <- ZIPLIST_ENTRY_TAIL zl;;
   bt <- load8 zl ptail;;
   if negb (bt =? ZIP_END) then zipRawEntryLength zl ptail else Some 0)
  = Some (last_size 0 es).
Proof.
  intros -> Hch Hok Hsz. pose proof (tail_from_range 10 es).
  rewrite entry_tail by lia. cbn [obind].
  destruct es as [|e es _] using rev_ind.
  - rewrite (load8_at (zlheader t 10 L) ZIP_END R) by done. done.
  - rewrite tail_from_app, last_size_app. cbn [tail_from last_size].
    rewrite enc_list_app. cbn [enc_list]. rewrite app_nil_r.
    apply chain_app in Hch as [_ [He _]]. apply Forall_app in Hok as [_ Hok]. apply Forall_cons_iff in Hok as [Hok _].
    assert (Hz : zlheader t (10 + sizes es) L ++ (enc_list 0 es ++ enc_entry (last_size 0 es) e) ++ ZIP_END :: R
      = (zlheader t (10 + sizes es) L ++ enc_list 0 es) ++ enc_entry (last_size 0 es) e ++ ZIP_END :: R) by eqapp.
    assert (Hp : 10 + sizes es = msize (zlheader t (10 + sizes es) L ++ enc_list 0 es)) by szsolve.
    destruct (entry_first _ _ _ _ e _ Hz Hp He Hok) as (b & -> & _ & Hb). cbn [obind].
    rewrite (proj2 (Z.eqb_neq b _)) by done. cbn [negb].
    by apply (raw_entry_length _ _ _ _ e _ Hz Hp).
Qed.

(** [__ziplistInsert] once the lengths are known: [q] that of the previous
    entry, [k] that of the new one, [nd] the change of the next one. *)
Definition insert_rest (zl : bytes) (p : Z) (s : bytes) (q k nd curlen : Z) : option bytes :=
  zl <- ziplistResize zl (curlen + k + nd);;
  b <- load8 zl p;;
  zl <- (if negb (b =? ZIP_END) then
           zl <- memmove zl (p + k) (p - nd) (curlen - p - 1 + nd);;
           ' (zl, _) <- zipPrevEncodeLength zl (Some (p + k)) k;;
           zl <- add_tail_offset zl k;;
           tail <- zipEntry zl (p + k);;
           bt <- load8 zl (p + k + headersize tail + len tail);;
           if negb (bt =? ZIP_END) then add_tail_offset zl nd else Some zl
         else set_ZIPLIST_TAIL_OFFSET zl (intrev32ifbe (uint 32 p)));;
  zl <- (if negb (nd =? 0) then __ziplistCascadeUpdate zl (p + k) else Some zl);;
  ' (zl, n) <- zipPrevEncodeLength zl (Some p) q;;
  ' (zl, n0) <- zipEncodeLength zl (Some (p + n)) (pl_enc (payload_of s)) (msize s);;
  zl <- (if ZIP_IS_STR (pl_enc (payload_of s))
         then bs <- load s 0 (msize s);; store zl (p + n + n0) bs
         else zipSaveInteger zl (p + n + n0) (pl_val (payload_of s)) (pl_enc (payload_of s)));;
  ZIPLIST_INCR_LENGTH zl 1.

Lemma insert_lengths zl p s t b q nd :
  let k := esize (ZIP_BIGLEN <=? q, payload_of s) in
  Forall is_byte s -> msize s < 2 ^ 32 -> 0 <= t < 2 ^ 32 ->
  ZIPLIST_BYTES zl = Some (intrev32ifbe t) -> load8 zl p = Some b ->
  (if negb (b =? ZIP_END) then entry <- zipEntry zl p;; Some (prevrawlen entry)
   else ptail <- ZIPLIST_ENTRY_TAIL zl;; bt <- load8 zl ptail;;
        if negb (bt =? ZIP_END) then zipRawEntryLength zl ptail else Some 0) = Some q ->
  (if negb (b =? ZIP_END) then zipPrevLenByteDiff zl p k else Some 0) = Some nd ->
  __ziplistInsert zl p s (msize s) = insert_rest zl p s q k nd t.
Proof.
  intros k Hs Hsz Ht Et Eb Eq End. unfold __ziplistInsert.
  rewrite Et. cbn [obind]. rewrite intrev32ifbe_involutive by done. rewrite Eb. cbn [obind].
  rewrite Eq. cbn [obind]. destruct (try_payload s) as (r & -> & Henc & Hval & Hreq & Hstr). cbn [obind].
  rewrite Henc, Hval, Hreq, prevlen_None. cbn [obind].
  rewrite header_size; [|by apply payload_of_ok|by intros s' <-%Hstr]. cbn [obind].
  replace (msize (payload_body (payload_of s)) + prevlen_size (ZIP_BIGLEN <=? q) + msize (payload_header (payload_of s)))
    with k by (unfold k, esize, payload_bytes; rewrite msize_app; cbn [fst snd]; lia).
  rewrite End. unfold insert_rest. cbv zeta. reflexivity.
Qed.

Lemma insert_end zl es s :
  rep zl es -> Forall is_byte s -> 25 + sizes es + msize s < 2 ^ 32 ->
  exists zl', __ziplistInsert zl (10 + sizes es) s (msize s) = Some zl' /\
    rep zl' (es ++ [(ZIP_BIGLEN <=? last_size 0 es, payload_of s)]).
Proof.
  intros (L & -> & Hch & Hok & Hsz & HL) Hs Hfit. pose proof (sizes_nonneg es). pose proof (msize_nonneg s).
  pose proof (tail_from_range 10 es). pose proof (last_size_range 0 es ltac:(lia)) as Hq.
  set (zl := _ ++ enc_list 0 es ++ [ZIP_END]).
  assert (Eb : load8 zl (10 + sizes es) = Some ZIP_END).
  { apply (load8_at (zlheader (11 + sizes es) (tail_from 10 es) L ++ enc_list 0 es) ZIP_END []); [unfold zl; eqapp|szsolve]. }
  assert (Et : ZIPLIST_BYTES zl = Some (intrev32ifbe (11 + sizes es))) by (apply get_bytes; lia).
  pose proof (tail_prevlen (11 + sizes es) L es [] zl eq_refl Hch Hok ltac:(lia)) as Eq.
  rewrite (insert_lengths zl (10 + sizes es) s (11 + sizes es) ZIP_END (last_size 0 es) 0 Hs ltac:(lia) ltac:(lia) Et Eb Eq eq_refl).
  unfold zl. clear zl Eb Et Eq.
  set (b := ZIP_BIGLEN <=? last_size 0 es). unfold insert_rest.
  pose proof (payload_of_size b s Hs ltac:(lia)) as Hes.
  assert (Hplok : payload_ok (payload_of s)) by (apply payload_of_ok; [done|lia]).
  destruct (resize_grow (11 + sizes es) (tail_from 10 es) L (enc_list 0 es) (11 + sizes es + esize (b, payload_of s) + 0))
    as (F & HF & HFe & ->); [szsolve|]. cbn [obind]. rewrite msize_enc_list in HF.
  destruct HFe as [F' ->]; [lia|].
  set (zh := zlheader (11 + sizes es + esize (b, payload_of s) + 0)).
  rewrite (load8_at (zh (tail_from 10 es) L ++ enc_list 0 es) ZIP_END (F' ++ [ZIP_END])); [|eqapp|unfold zh; szsolve].
  cbn [obind]. rewrite !Z.eqb_refl. cbn [negb].
  rewrite uint_id by lia. unfold zh. rewrite set_tail. fold zh. cbn [obind].
  rewrite (write_entry (fun zl => ZIPLIST_INCR_LENGTH zl 1) (zh (10 + sizes es) L ++ enc_list 0 es) (ZIP_END :: F') [ZIP_END]);
    [|done|lia|lia|eqapp|unfold zh; szsolve|fold b; lia].
  unfold zh. rewrite <- app_assoc. fold b.
  destruct (incr_len (11 + sizes es + esize (b, payload_of s) + 0) (10 + sizes es) L
    (enc_list 0 es ++ enc_entry (last_size 0 es) (b, payload_of s) ++ [ZIP_END]) (msize es) 1 HL) as (L' & E & HL').
  { pose proof (msize_nonneg es). lia. }
  { done. }
  rewrite E. eexists. split; [done|]. exists L'. rewrite tail_from_app, enc_list_app, msize_app, sizes_app. cbn [sizes tail_from enc_list].
  split_and!; [|apply chain_app; cbn [chain fst]|apply Forall_app; split; [done|by constructor]|lia|done].
  - f_equal; [f_equal; lia|eqapp].
  - split; [done|]. split; [|done]. apply prevlen_ok_auto. lia.
Qed.

(** The byte behind an entry is the end mark iff no entry follows. *)
Lemma after_entry A r ns R zl p :
  zl = A ++ enc_list r ns ++ ZIP_END :: R -> p = msize A ->
  chain r ns -> Forall (fun e => payload_ok e.2) ns ->
  exists b, load8 zl p = Some b /\ (b =? ZIP_END) = bool_decide (ns = []).
Proof.
  intros -> -> Hch Hok. destruct ns as [|n ns].
  - exists ZIP_END. split; [by apply (load8_at A ZIP_END R)|done].
  - destruct Hch as [Hn _]. apply Forall_cons_iff in Hok as [Hok _].
    destruct (entry_first A (enc_list (esize n) ns ++ ZIP_END :: R)
      (A ++ enc_list r (n :: ns) ++ ZIP_END :: R) r n (msize A)) as (b & E & _ & Hb); try done.
    { cbn [enc_list]. eqapp. }
    exists b. split; [done|]. rewrite bool_decide_false by done. by apply Z.eqb_neq.
Qed.

(** Opening a gap of [n] bytes before an entry. *)
Lemma insert_shift t L X q n ns F k zl p :
  let big := ZIP_BIGLEN <=? k in
  let nd := prevlen_size big - prevlen_size n.1 in
  zl = zlheader t (tail_from (10 + msize X) (n :: ns)) L ++ X ++ enc_entry q n ++ enc_list (esize n) ns ++ F ++ [ZIP_END] ->
  p = 10 + msize X -> msize F = k + nd -> 0 < k -> 0 <= k + nd ->
  14 + msize X + esize n + sizes ns + k < 2 ^ 32 ->
  payload_ok n.2 -> chain (esize n) ns -> Forall (fun e => payload_ok e.2) ns ->
  exists G, msize G = k /\
  (zl <- memmove zl (p + k) (p - nd) (11 + msize X + esize n + sizes ns - p - 1 + nd);;
   ' (zl, _) <- zipPrevEncodeLength zl (Some (p + k)) k;;
   zl <- add_tail_offset zl k;;
   tail <- zipEntry zl (p + k);;
   bt <- load8 zl (p + k + headersize tail + len tail);;
   if negb (bt =? ZIP_END) then add_tail_offset zl nd else Some zl)
  = Some (zlheader t (tail_from (10 + msize X + k) ((big, n.2) :: ns)) L
      ++ X ++ G ++ enc_entry k (big, n.2) ++ enc_list (esize n) ns ++ [ZIP_END]).
Proof.
  intros big nd -> -> HF Hk Hknd Hsz Hpl Hch Hok.
  set (o := tail_from (10 + msize X) (n :: ns)). pose proof (tail_from_range (10 + msize X) (n :: ns)) as Ho.
  fold o in Ho. cbn [sizes] in Ho. pose proof (esize_pos n). pose proof (sizes_nonneg ns). pose proof (msize_nonneg X).
  assert (Hnd : - 4 <= nd <= 4) by (unfold nd, prevlen_size; destruct big, n.1; lia).
  assert (Hen : esize n = prevlen_size n.1 + msize (payload_bytes n.2)) by done.
  destruct (insert_move (zlheader t o L ++ X) (prevlen_bytes n.1 q) (payload_bytes n.2 ++ enc_list (esize n) ns) F [ZIP_END]
    (zlheader t o L ++ X ++ enc_entry q n ++ enc_list (esize n) ns ++ F ++ [ZIP_END]) nd k)
    as (G & J & HG & HJ & E); [unfold enc_entry; eqapp|done|lia|lia|szsolve|rewrite msize_prevlen; unfold nd, prevlen_size; destruct big, n.1; lia|].
  exists G. split; [done|].
  rewrite msize_app, msize_zlheader, !msize_app, msize_prevlen, msize_enc_list in E.
  replace (11 + msize X + esize n + sizes ns - (10 + msize X) - 1 + nd)
    with (prevlen_size n.1 + (msize (payload_bytes n.2) + sizes ns) + nd) by lia.
  rewrite E. cbn [obind]. clear E.
  rewrite (write_prevlen ((zlheader t o L ++ X) ++ G) J ((payload_bytes n.2 ++ enc_list (esize n) ns) ++ [ZIP_END]));
    [|eqapp|szsolve|lia|rewrite HJ, msize_prevlen; fold big; lia]. cbn [obind]. fold big. rewrite <- !app_assoc.
  rewrite add_tail by lia. cbn [obind].
  set (zl := zlheader t (o + k) L ++ _).
  assert (Hzl : zl = (zlheader t (o + k) L ++ X ++ G) ++ enc_entry k (big, n.2) ++ (enc_list (esize n) ns ++ [ZIP_END]))
    by (unfold zl, enc_entry; cbn [fst snd]; eqapp).
  rewrite (zip_entry _ _ _ k (big, n.2) _ Hzl); [|szsolve|by apply prevlen_ok_auto; lia|done].
  cbn [obind headersize len fst snd].
  destruct (after_entry (zlheader t (o + k) L ++ X ++ G ++ enc_entry k (big, n.2)) (esize n) ns [] zl
    (10 + msize X + k + (prevlen_size big + msize (payload_header n.2)) + msize (payload_body n.2))) as (b & -> & Eb); try done.
  { rewrite Hzl. eqapp. }
  { autorewrite with cmem. unfold esize, payload_bytes. cbn [fst snd]. rewrite msize_app. lia. }
  cbn [obind]. rewrite Eb, Hzl. rewrite <- !app_assoc.
  destruct ns as [|n2 ns]; cbn [negb]; [rewrite bool_decide_true by done|rewrite bool_decide_false by done]; cbn [negb].
  - do 3 f_equal.
  - rewrite add_tail by lia. do 3 f_equal. unfold o.
    change (tail_from (10 + msize X + esize n) (n2 :: ns) + k + nd =
      tail_from (10 + msize X + k + esize (big, n.2)) (n2 :: ns)).
    rewrite <- !tail_from_shift. f_equal. rewrite Hen. unfold nd, esize. cbn [fst snd]. lia.
Qed.
(** [if (nextdiff != 0) zl = __ziplistCascadeUpdate(zl, p);] restores the chain
    of previous lengths behind an entry whose size changed by [nd]. *)
Lemma cascade_if t L X q c r ns zl p nd :
  let o := tail_from (10 + msize X) (c :: ns) in
  zl = zlheader t o L ++ X ++ enc_entry q c ++ enc_list r ns ++ [ZIP_END] -> p = 10 + msize X ->
  t = 11 + msize X + esize c + sizes ns -> t + 4 * msize ns < 2 ^ 32 ->
  prevlen_ok c.1 q -> payload_ok c.2 -> chain r ns -> Forall (fun e => payload_ok e.2) ns ->
  nd = esize c - r ->
  exists ns',
    (if negb (nd =? 0) then __ziplistCascadeUpdate zl p else Some zl)
    = Some (zlheader (11 + msize X + esize c + sizes ns') (tail_from (10 + msize X) (c :: ns')) L
              ++ X ++ enc_entry q c ++ enc_list (esize c) ns' ++ [ZIP_END]) /\
    ns'.*2 = ns.*2 /\ chain (esize c) ns' /\ sizes ns <= sizes ns' <= sizes ns + 4 * msize ns.
Proof.
  intros o Hzl Hp Ht Ht4 Hq Hc Hch Hok Hnd. pose proof (msize_nonneg ns).
  destruct (Z.eqb_spec nd 0) as [->|Hne]; cbn [negb].
  - assert (r = esize c) as -> by lia. exists ns. rewrite Hzl, Ht. by split_and!; try lia.
  - apply (cascade_spec t o L X q c r ns zl p); try done.
    unfold o. pose proof (tail_from_range (10 + msize X) (c :: ns)) as Ho. cbn [sizes] in Ho.
    pose proof (msize_nonneg X). lia.
Qed.

Lemma fmap_payload_ok (ns ns' : list zentry) :
  ns'.*2 = ns.*2 -> Forall (fun e => payload_ok e.2) ns -> Forall (fun e => payload_ok e.2) ns'.
Proof.
  intros E Hok. apply (Forall_fmap snd payload_ok). rewrite E. by apply (Forall_fmap snd payload_ok).
Qed.

(** A block with the entries [es1] and [e :: es2] represents them. *)
Lemma rep_join L t o es1 e es2 : chain 0 es1 -> Forall (fun e => payload_ok e.2) es1 ->
  chain (last_size 0 es1) (e :: es2) -> Forall (fun e => payload_ok e.2) (e :: es2) ->
  t = 11 + sizes es1 + sizes (e :: es2) -> t < 2 ^ 32 -> o = tail_from (10 + sizes es1) (e :: es2) ->
  len_ok L (msize es1 + msize (e :: es2)) ->
  rep (zlheader t o L ++ enc_list 0 es1 ++ enc_list (last_size 0 es1) (e :: es2) ++ [ZIP_END]) (es1 ++ e :: es2).
Proof.
  intros Hch1 Hok1 Hch2 Hok2 -> Ht -> HL. exists L. rewrite tail_from_app, enc_list_app, msize_app, sizes_app.
  split_and!; [|by apply chain_app|by apply Forall_app|lia|done]. rewrite Z.add_assoc. eqapp.
Qed.

(** How the insertion of an entry of size [es] changes the previous-length field
    of [n]. *)
Lemma nextdiff_ok es n : 2 <= es -> (n.1 = true -> 4 <= es) ->
  let big := ZIP_BIGLEN <=? es in
  let nd := prevlen_size big - prevlen_size n.1 in
  0 <= es + nd /\ nd <= 4 /\ nd = esize (big, n.2) - esize n.
Proof.
  intros Hes Hbug big nd. assert (E1 : esize n = prevlen_size n.1 + msize (payload_bytes n.2)) by done.
  assert (E2 : esize (big, n.2) = prevlen_size big + msize (payload_bytes n.2)) by done.
  unfold nd, prevlen_size in *. destruct n.1; [specialize (Hbug eq_refl)|]; destruct big; lia.
Qed.

(** The insertion before [n], from the resizing on. *)
Lemma insert_rest_middle es1 n ns s L :
  let q := last_size 0 es1 in
  let e := (ZIP_BIGLEN <=? q, payload_of s) in
  let big := ZIP_BIGLEN <=? esize e in
  let nd := prevlen_size big - prevlen_size n.1 in
  let t := 11 + (sizes es1 + (esize n + sizes ns)) in
  chain 0 es1 -> Forall (fun e => payload_ok e.2) es1 -> prevlen_ok n.1 q -> payload_ok n.2 ->
  chain (esize n) ns -> Forall (fun e => payload_ok e.2) ns -> Forall is_byte s ->
  29 + (sizes es1 + (esize n + sizes ns)) + msize s + 4 * msize ns < 2 ^ 32 ->
  (n.1 = true -> 4 <= esize e) -> len_ok L (msize es1 + (1 + msize ns)) ->
  exists zl' ns', insert_rest (zlheader t (tail_from (10 + sizes es1) (n :: ns)) L
      ++ (enc_list 0 es1 ++ enc_entry q n ++ enc_list (esize n) ns) ++ [ZIP_END]) (10 + sizes es1) s q (esize e) nd t = Some zl' /\
    rep zl' (es1 ++ e :: (big, n.2) :: ns') /\ ns'.*2 = ns.*2.
Proof.
  intros q e big nd t Hch1 Hok1 Hn Hokn Hch2 Hok2 Hs Hfit Hbug HL.
  pose proof (sizes_nonneg es1). pose proof (sizes_nonneg ns). pose proof (esize_pos n).
  pose proof (msize_nonneg es1). pose proof (msize_nonneg ns). pose proof (msize_nonneg s).
  pose proof (payload_of_size e.1 s Hs ltac:(lia)) as Hes. change (e.1, payload_of s) with e in Hes.
  pose proof (last_size_range 0 es1 ltac:(lia)) as Hq. fold q in Hq.
  assert (Hplok : payload_ok (payload_of s)) by (apply payload_of_ok; [done|lia]).
  destruct (nextdiff_ok (esize e) n ltac:(apply esize_pos) Hbug) as (Hnd0 & Hnd4 & Hnd). fold big nd in Hnd0, Hnd4, Hnd.
  set (o := tail_from (10 + sizes es1) (n :: ns)). unfold insert_rest.
  destruct (resize_grow t o L (enc_list 0 es1 ++ enc_entry q n ++ enc_list (esize n) ns) (t + esize e + nd))
    as (F & HF & _ & ->); [szsolve|]. cbn [obind]. autorewrite with cmem in HF.
  set (zh := zlheader (t + esize e + nd)).
  destruct (entry_first (zh o L ++ enc_list 0 es1) (enc_list (esize n) ns ++ F ++ [ZIP_END]) 
    (zh o L ++ (enc_list 0 es1 ++ enc_entry q n ++ enc_list (esize n) ns) ++ F ++ [ZIP_END]) q n (10 + sizes es1))
    as (b' & -> & _ & Hb'); [eqapp|unfold zh; szsolve|done|done|]. apply Z.eqb_neq in Hb'.
  cbn [obind]. rewrite Hb'. cbn [negb].
  destruct (insert_shift (t + esize e + nd) L (enc_list 0 es1) q n ns F (esize e)
    (zh o L ++ (enc_list 0 es1 ++ enc_entry q n ++ enc_list (esize n) ns) ++ F ++ [ZIP_END]) (10 + sizes es1))
    as (G & HG & E); try done; try (autorewrite with cmem; lia).
  { unfold zh, o. autorewrite with cmem. eqapp. }
  { fold big. fold nd. lia. }
  fold big in E. fold nd in E. rewrite msize_enc_list in E.
  replace (11 + sizes es1 + esize n + sizes ns) with t in E by lia. rewrite E. cbn [obind]. clear E.
  destruct (cascade_if (t + esize e + nd) L (enc_list 0 es1 ++ G) (esize e) (big, n.2) (esize n) ns
    (zh (tail_from (10 + sizes es1 + esize e) ((big, n.2) :: ns)) L ++ enc_list 0 es1 ++ G ++ enc_entry (esize e) (big, n.2)
      ++ enc_list (esize n) ns ++ [ZIP_END]) (10 + sizes es1 + esize e) nd)
    as (ns' & E & Hpl' & Hch' & Hsz'); try done; try (autorewrite with cmem; lia).
  { unfold zh. autorewrite with cmem. rewrite HG, Z.add_assoc. eqapp. }
  { apply prevlen_ok_auto. lia. }
  fold zh. rewrite E. cbn [obind]. clear E.
  rewrite !msize_app, msize_enc_list, HG. clear zh.
  set (t' := 11 + (sizes es1 + esize e) + esize (big, n.2) + sizes ns').
  set (o' := tail_from (10 + (sizes es1 + esize e)) ((big, n.2) :: ns')).
  set (C := enc_entry (esize e) (big, n.2) ++ enc_list (esize (big, n.2)) ns' ++ [ZIP_END]).
  rewrite (write_entry (fun zl => ZIPLIST_INCR_LENGTH zl 1) (zlheader t' o' L ++ enc_list 0 es1) G C);
    [|done|lia|lia|unfold C; eqapp|szsolve|done].
  fold e. rewrite <- app_assoc.
  destruct (incr_len t' o' L (enc_list 0 es1 ++ enc_entry q e ++ C) (msize es1 + (1 + msize ns)) 1) as (L' & E & HL');
    [done|lia|done|]. rewrite E. clear E.
  assert (Hlen : msize ns' = msize ns) by (unfold msize; rewrite <- (length_fmap snd ns'), Hpl', length_fmap; done).
  eexists _, ns'. split; [done|]. split; [|done].
  replace (zlheader t' o' L' ++ enc_list 0 es1 ++ enc_entry q e ++ C)
    with (zlheader t' o' L' ++ enc_list 0 es1 ++ enc_list q (e :: (big, n.2) :: ns') ++ [ZIP_END]) by (unfold C; cbn [enc_list]; eqapp).
  apply rep_join; try done.
  - split; [apply prevlen_ok_auto; lia|]. split; [apply prevlen_ok_auto; lia|done].
  - constructor; [done|]. constructor; [done|]. by eapply fmap_payload_ok.
  - unfold t'. cbn [sizes]. lia.
  - unfold t'. lia.
  - unfold o'. rewrite Z.add_assoc. done.
  - rewrite !msize_cons. replace (msize es1 + (1 + (1 + msize ns'))) with (msize es1 + (1 + msize ns) + 1) by lia. done.
Qed.

(** Insertion before the entry [n]. *)
Lemma insert_middle zl es1 n ns s :
  let e := (ZIP_BIGLEN <=? last_size 0 es1, payload_of s) in
  rep zl (es1 ++ n :: ns) -> Forall is_byte s ->
  29 + sizes (es1 ++ n :: ns) + msize s + 4 * msize ns < 2 ^ 32 ->
  (n.1 = true -> 4 <= esize e) ->
  exists zl' n' ns', __ziplistInsert zl (10 + sizes es1) s (msize s) = Some zl' /\
    rep zl' (es1 ++ e :: n' :: ns') /\ n'.2 = n.2 /\ ns'.*2 = ns.*2.
Proof.
  intros e (L & -> & Hch & Hok & Hsz & HL) Hs Hfit Hbug.
  apply chain_app in Hch as [Hch1 [Hn Hch2]]. apply Forall_app in Hok as [Hok1 Hok2].
  apply Forall_cons_iff in Hok2 as [Hokn Hok2].
  rewrite enc_list_app, tail_from_app, sizes_app, msize_app, msize_cons in *. cbn [sizes enc_list] in *.
  set (q := last_size 0 es1) in *. pose proof (sizes_nonneg es1). pose proof (sizes_nonneg ns). pose proof (esize_pos n).
  pose proof (msize_nonneg es1). pose proof (msize_nonneg ns). pose proof (msize_nonneg s).
  pose proof (payload_of_size e.1 s Hs ltac:(lia)) as Hes. fold e in Hes. change (e.1, payload_of s) with e in Hes.
  pose proof (last_size_range 0 es1 ltac:(lia)) as Hq. fold q in Hq.
  set (t := 11 + (sizes es1 + (esize n + sizes ns))) in *. set (o := tail_from (10 + sizes es1) (n :: ns)).
  assert (Hzl : zlheader t o L ++ (enc_list 0 es1 ++ enc_entry q n ++ enc_list (esize n) ns) ++ [ZIP_END]
    = (zlheader t o L ++ enc_list 0 es1) ++ enc_entry q n ++ (enc_list (esize n) ns ++ [ZIP_END])) by eqapp.
  assert (Hp : 10 + sizes es1 = msize (zlheader t o L ++ enc_list 0 es1)) by szsolve.
  destruct (entry_first _ _ _ q n _ Hzl Hp Hn Hokn) as (b & Eb & _ & Hb).
  apply Z.eqb_neq in Hb.
  set (nd := prevlen_size (ZIP_BIGLEN <=? esize e) - prevlen_size n.1).
  rewrite (insert_lengths _ _ s t b q nd);
    [|done|lia|lia|apply get_bytes; lia|done
     |rewrite Hb; cbn [negb]; by rewrite (zip_entry _ _ _ q n _ Hzl Hp Hn Hokn)
     |rewrite Hb; cbn [negb]; unfold zipPrevLenByteDiff; rewrite (decode_prevlensize _ _ _ q n _ Hzl Hp Hn Hokn);
      cbn [obind]; by rewrite prevlen_None].
  destruct (insert_rest_middle es1 n ns s L) as (zl' & ns' & E & Hr & Hns); try done; try lia.
  by eexists zl', _, ns'.
Qed.
End Update.
