(* ===== verification/ZiplistDelete.v ===== *)
(** Deletion from ziplists: [__ziplistDelete] preserves the representation
    invariant and removes a range of payloads. *)

From S2P Require Import Prelude Endian Util Ziplist ZiplistRep ZiplistPayload ZiplistUpdate.

Section Delete.
Context `{Host}.

Ltac eqapp := lsimpl; done.
Ltac szsolve := autorewrite with cmem in *; lia.

(** The loop over the deleted entries skips [take num es]. *)
Lemma delete_loop num A q es R zl p d :
  zl = A ++ enc_list q es ++ ZIP_END :: R -> p = msize A ->
  chain q es -> Forall (fun e => payload_ok e.2) es ->
  ziplistDelete_loop num zl p d = Some (p + sizes (take num es), d + msize (take num es)).
Proof.
  revert A q es p d. induction num as [|num IH]; intros A q es p d Hzl Hp Hch Hok; cbn [ziplistDelete_loop].
  - destruct (after_entry A q es R zl p Hzl Hp Hch Hok) as (b & -> & _). cbn [obind].
    cbn [take sizes]. rewrite msize_nil, !Z.add_0_r. by destruct (b =? ZIP_END).
  - destruct (after_entry A q es R zl p Hzl Hp Hch Hok) as (b & -> & Hb). cbn [obind]. rewrite Hb.
    destruct es as [|e es].
    { rewrite bool_decide_true by done. cbn [take sizes]. by rewrite msize_nil, !Z.add_0_r. }
    rewrite bool_decide_false by done. destruct Hch as [He Hch]. apply Forall_cons_iff in Hok as [Hoke Hok].
    assert (Hz : zl = A ++ enc_entry q e ++ (enc_list (esize e) es ++ ZIP_END :: R)) by (rewrite Hzl; cbn [enc_list]; eqapp).
    rewrite (raw_entry_length _ _ _ q e p Hz Hp He Hoke). cbn [obind].
    rewrite (IH (A ++ enc_entry q e) (esize e) es);
      [|rewrite Hz; eqapp|rewrite msize_app, msize_enc_entry; lia|done|done].
    cbn [take sizes]. rewrite msize_cons. do 2 f_equal; lia.
Qed.

(** Closing the gap of the deleted bytes [D] before the entry [n]. *)
Lemma delete_shift t L X D q r n ns zl p :
  let big := ZIP_BIGLEN <=? q in
  let nd := prevlen_size big - prevlen_size n.1 in
  zl = zlheader t (tail_from (10 + msize X + msize D) (n :: ns)) L ++ X ++ D ++ enc_entry r n ++ enc_list (esize n) ns ++ [ZIP_END] ->
  p = 10 + msize X + msize D -> t = 11 + msize X + msize D + esize n + sizes ns -> t < 2 ^ 32 ->
  0 <= q < 2 ^ 32 -> nd <= msize D -> prevlen_ok n.1 r -> payload_ok n.2 ->
  chain (esize n) ns -> Forall (fun e => payload_ok e.2) ns ->
  exists F, msize F = msize D - nd /\
  (nextdiff <- zipPrevLenByteDiff zl p q;;
   ' (zl, _) <- zipPrevEncodeLength zl (Some (p - nextdiff)) q;;
   zl <- add_tail_offset zl (- (p - (10 + msize X)));;
   tail <- zipEntry zl (p - nextdiff);;
   bt <- load8 zl (p - nextdiff + headersize tail + len tail);;
   zl <- (if negb (bt =? ZIP_END) then add_tail_offset zl nextdiff else Some zl);;
   total <- ZIPLIST_BYTES zl;;
   zl <- memmove zl (10 + msize X) (p - nextdiff) (intrev32ifbe total - (p - nextdiff) - 1);;
   Some (zl, nextdiff))
  = Some (zlheader t (tail_from (10 + msize X) ((big, n.2) :: ns)) L
      ++ X ++ enc_entry q (big, n.2) ++ enc_list (esize n) ns ++ F ++ [ZIP_END], nd).
Proof.
  intros big nd Hzl Hp Ht Ht32 Hq HnD Hr Hpl Hch Hok.
  pose proof (msize_nonneg X). pose proof (msize_nonneg D). pose proof (esize_pos n). pose proof (sizes_nonneg ns).
  assert (Hnd : - 4 <= nd <= 4) by (unfold nd, prevlen_size; destruct big, n.1; lia).
  assert (Hen : esize n = prevlen_size n.1 + msize (payload_bytes n.2)) by done.
  assert (Hen' : esize (big, n.2) = prevlen_size big + msize (payload_bytes n.2)) by done.
  set (o := tail_from (10 + msize X + msize D) (n :: ns)) in *.
  pose proof (tail_from_range (10 + msize X + msize D) (n :: ns)) as Ho. fold o in Ho. cbn [sizes] in Ho.
  assert (Hz : zl = (zlheader t o L ++ X ++ D) ++ enc_entry r n ++ (enc_list (esize n) ns ++ [ZIP_END])) by (rewrite Hzl; eqapp).
  unfold zipPrevLenByteDiff. rewrite (decode_prevlensize _ _ _ r n p Hz ltac:(szsolve) Hr Hpl). cbn [obind].
  rewrite prevlen_None. cbn [obind]. fold big. fold nd.
  assert (Hsplit : exists D' J, D ++ prevlen_bytes n.1 r = D' ++ J /\ msize D' = msize D - nd /\ msize J = prevlen_size big).
  { destruct (split_at (D ++ prevlen_bytes n.1 r) (msize D - nd)) as (D' & J & E & HD').
    { rewrite msize_app, msize_prevlen. unfold nd in *. destruct big, n.1; cbn [prevlen_size] in *; lia. }
    exists D', J. split; [done|]. split; [done|]. apply (f_equal msize) in E.
    rewrite !msize_app, msize_prevlen in E. unfold nd in *. lia. }
  destruct Hsplit as (D' & J & EJ & HD' & HJ).
  rewrite (write_prevlen (zlheader t o L ++ X ++ D') J (payload_bytes n.2 ++ enc_list (esize n) ns ++ [ZIP_END]));
    [|rewrite Hzl; unfold enc_entry; transitivity (zlheader t o L ++ X ++ (D ++ prevlen_bytes n.1 r) ++ payload_bytes n.2 ++ enc_list (esize n) ns ++ [ZIP_END]);
      [eqapp|rewrite EJ; eqapp]|szsolve|done|done].
  cbn [obind]. fold big. rewrite <- !app_assoc. rewrite add_tail by lia. cbn [obind].
  set (o1 := o + - (p - (10 + msize X))). set (zl1 := zlheader t o1 L ++ _).
  assert (Hz1 : zl1 = (zlheader t o1 L ++ X ++ D') ++ enc_entry q (big, n.2) ++ (enc_list (esize n) ns ++ [ZIP_END]))
    by (unfold zl1, enc_entry; cbn [fst snd]; eqapp).
  rewrite (zip_entry _ _ _ q (big, n.2) (p - nd) Hz1 ltac:(szsolve) (prevlen_ok_auto q Hq) Hpl).
  cbn [obind headersize len fst snd].
  destruct (after_entry (zlheader t o1 L ++ X ++ D' ++ enc_entry q (big, n.2)) (esize n) ns [] zl1
    (p - nd + (prevlen_size big + msize (payload_header n.2)) + msize (payload_body n.2))) as (b & -> & Eb); try done.
  { rewrite Hz1. eqapp. }
  { autorewrite with cmem. unfold payload_bytes in *. rewrite msize_app in *. lia. }
  cbn [obind]. rewrite Eb.
  assert (Eo : (if negb (bool_decide (ns = [])) then add_tail_offset zl1 nd else Some zl1)
    = Some (zlheader t (tail_from (10 + msize X) ((big, n.2) :: ns)) L ++ X ++ D' ++ enc_entry q (big, n.2) ++ enc_list (esize n) ns ++ [ZIP_END])).
  { rewrite Hz1, <- !app_assoc. destruct ns as [|n2 ns]; [rewrite bool_decide_true by done|rewrite bool_decide_false by done]; cbn [negb].
    - do 3 f_equal. unfold o1, o. cbn [tail_from]. lia.
    - rewrite add_tail by (unfold o1; lia). do 3 f_equal. unfold o1, o.
      change (tail_from (10 + msize X + msize D + esize n) (n2 :: ns) + - (p - (10 + msize X)) + nd =
        tail_from (10 + msize X + esize (big, n.2)) (n2 :: ns)).
      rewrite <- !tail_from_shift. f_equal. lia. }
  rewrite Eo. cbn [obind]. rewrite get_bytes by lia. cbn [obind]. rewrite intrev32ifbe_involutive by lia.
  set (o2 := tail_from _ _).
  destruct (memmove_left (zlheader t o2 L ++ X) D' (enc_entry q (big, n.2) ++ enc_list (esize n) ns) [ZIP_END]
    (zlheader t o2 L ++ X ++ D' ++ enc_entry q (big, n.2) ++ enc_list (esize n) ns ++ [ZIP_END])
    (10 + msize X) (p - nd) (t - (p - nd) - 1)) as (F & HF & ->); [eqapp|szsolve|szsolve|szsolve|].
  cbn [obind]. exists F. split; [lia|]. f_equal. f_equal. eqapp.
Qed.
(** A large previous length in a small successor never overruns the deleted range. *)
Lemma delete_room q d ds (n : zentry) :
  prevlen_ok d.1 q -> prevlen_size (ZIP_BIGLEN <=? q) - prevlen_size n.1 < sizes (d :: ds).
Proof.
  intros Hd. pose proof (esize_pos d). pose proof (sizes_nonneg ds). cbn [sizes].
  unfold prevlen_ok, ZIP_BIGLEN in *. destruct (Z.leb_spec 254 q), n.1; cbn [prevlen_size]; try lia.
  assert (d.1 = true) as Ed by (destruct d.1; [done|]; destruct Hd as [_ Hd]; specialize (Hd eq_refl); lia).
  unfold esize in *. rewrite Ed in *. cbn [prevlen_size] in *. pose proof (msize_nonneg (payload_bytes d.2)). lia.
Qed.

(** [__ziplistDelete] once the range [first, p) and the length [q] of the
    entry before it are known. *)
Definition delete_rest (zl : bytes) (first q p deleted : Z) : option bytes :=
  b <- load8 zl p;;
  ' (zl, nextdiff) <-
    (if negb (b =? ZIP_END) then
       nextdiff <- zipPrevLenByteDiff zl p q;;
       ' (zl, _) <- zipPrevEncodeLength zl (Some (p - nextdiff)) q;;
       zl <- add_tail_offset zl (- (p - first));;
       tail <- zipEntry zl (p - nextdiff);;
       bt <- load8 zl (p - nextdiff + headersize tail + len tail);;
       zl <- (if negb (bt =? ZIP_END) then add_tail_offset zl nextdiff else Some zl);;
       total <- ZIPLIST_BYTES zl;;
       zl <- memmove zl first (p - nextdiff) (intrev32ifbe total - (p - nextdiff) - 1);;
       Some (zl, nextdiff)
     else
       zl <- set_ZIPLIST_TAIL_OFFSET zl (intrev32ifbe (uint 32 (first - q)));; Some (zl, 0));;
  total <- ZIPLIST_BYTES zl;;
  zl <- ziplistResize zl (intrev32ifbe total - (p - first) + nextdiff);;
  zl <- ZIPLIST_INCR_LENGTH zl (- deleted);;
  if negb (nextdiff =? 0) then __ziplistCascadeUpdate zl first else Some zl.

Lemma delete_lengths A q d ds es2 zl num :
  zl = A ++ enc_list q ((d :: ds) ++ es2) ++ [ZIP_END] ->
  chain q ((d :: ds) ++ es2) -> Forall (fun e => payload_ok e.2) ((d :: ds) ++ es2) ->
  take (Z.to_nat num) ((d :: ds) ++ es2) = d :: ds ->
  __ziplistDelete zl (msize A) num = delete_rest zl (msize A) q (msize A + sizes (d :: ds)) (msize (d :: ds)).
Proof.
  intros Hzl Hch Hok Htake. unfold __ziplistDelete.
  pose proof Hch as [Hd _]. pose proof Hok as [Hokd _]%Forall_cons_iff.
  rewrite (zip_entry A (enc_list (esize d) (ds ++ es2) ++ [ZIP_END]) zl q d (msize A));
    [|rewrite Hzl; cbn [enc_list app]; eqapp|done|done|done]. cbn [obind entry_p prevrawlen].
  rewrite (delete_loop _ _ q _ [] zl _ 0 Hzl eq_refl Hch Hok), Htake. cbn [obind].
  cbn [sizes]. pose proof (esize_pos d). pose proof (sizes_nonneg ds).
  rewrite (proj2 (Z.gtb_lt _ _)) by lia. unfold delete_rest. rewrite Z.add_0_l. reflexivity.
Qed.

Lemma delete_end zl es1 d ds num :
  rep zl (es1 ++ d :: ds) -> take (Z.to_nat num) (d :: ds) = d :: ds ->
  exists zl', __ziplistDelete zl (10 + sizes es1) num = Some zl' /\ rep zl' es1.
Proof.
  intros (L & -> & Hch & Hok & Hsz & HL) Htake.
  apply chain_app in Hch as [Hch1 Hch2]. apply Forall_app in Hok as [Hok1 Hok2].
  rewrite enc_list_app, sizes_app, msize_app in *. set (o := tail_from _ _) in *.
  set (q := last_size 0 es1) in *. set (t := 11 + (sizes es1 + sizes (d :: ds))) in *.
  pose proof (sizes_nonneg es1). pose proof (msize_nonneg es1). pose proof (msize_nonneg (d :: ds)).
  pose proof (sizes_nonneg (d :: ds)). pose proof (last_size_range 0 es1 ltac:(lia)) as Hq. fold q in Hq.
  pose proof (delete_lengths (zlheader t o L ++ enc_list 0 es1) q d ds []
    (zlheader t o L ++ (enc_list 0 es1 ++ enc_list q (d :: ds)) ++ [ZIP_END]) num) as E.
  rewrite app_nil_r, msize_app, msize_zlheader, msize_enc_list in E.
  rewrite E; [|eqapp|done|done|done]. clear E. unfold delete_rest.
  rewrite (load8_at (zlheader t o L ++ enc_list 0 es1 ++ enc_list q (d :: ds)) ZIP_END []);
    [|eqapp|szsolve]. cbn [obind]. rewrite Z.eqb_refl. cbn [negb]. rewrite uint_id by lia.
  rewrite set_tail. cbn [obind]. rewrite get_bytes by lia. cbn [obind]. rewrite intrev32ifbe_involutive by lia.
  rewrite <- app_assoc. rewrite (resize_shrink _ _ _ (enc_list 0 es1) (enc_list q (d :: ds) ++ [ZIP_END]));
    [|szsolve|lia|autorewrite with cmem; lia]. cbn [obind].
  destruct (incr_len (t - (10 + sizes es1 + sizes (d :: ds) - (10 + sizes es1)) + 0) (10 + sizes es1 - q) L (enc_list 0 es1 ++ [ZIP_END]) _ (- msize (d :: ds)) HL) as (L' & E & HL');
    [lia|lia|]. rewrite E. cbn [obind]. rewrite Z.eqb_refl. cbn [negb].
  eexists. split; [done|]. exists L'.
  split_and!; [|done|done|lia|by replace (msize es1) with (msize es1 + msize (d :: ds) + - msize (d :: ds)) by lia].
  f_equal. f_equal; [lia|]. destruct es1 as [|e1 es1]; [done|].
  rewrite tail_from_last by done. unfold q. cbn [last_size]. lia.
Qed.

(** The end of a deletion before [n], after the resizing. *)
Lemma delete_finish es1 n ns L deleted :
  let q := last_size 0 es1 in
  let big := ZIP_BIGLEN <=? q in
  let nd := prevlen_size big - prevlen_size n.1 in
  let t1 := 11 + sizes es1 + esize (big, n.2) + sizes ns in
  chain 0 es1 -> Forall (fun e => payload_ok e.2) es1 -> payload_ok n.2 ->
  chain (esize n) ns -> Forall (fun e => payload_ok e.2) ns -> t1 + 4 * msize ns < 2 ^ 32 -> 0 <= deleted ->
  len_ok L (msize es1 + (deleted + (1 + msize ns))) ->
  exists zl' ns', (zl <- ZIPLIST_INCR_LENGTH (zlheader t1 (tail_from (10 + sizes es1) ((big, n.2) :: ns)) L
        ++ (enc_list 0 es1 ++ enc_entry q (big, n.2) ++ enc_list (esize n) ns) ++ [ZIP_END]) (- deleted);;
      if negb (nd =? 0) then __ziplistCascadeUpdate zl (10 + sizes es1) else Some zl) = Some zl' /\
    rep zl' (es1 ++ (big, n.2) :: ns') /\ ns'.*2 = ns.*2.
Proof.
  intros q big nd t1 Hch1 Hok1 Hokn Hchn Hokns Hfit Hdel HL. pose proof (sizes_nonneg es1). pose proof (msize_nonneg es1).
  pose proof (msize_nonneg ns). pose proof (sizes_nonneg ns). pose proof (esize_pos n). pose proof (esize_pos (big, n.2)).
  assert (Hnd : nd = esize (big, n.2) - esize n) by (unfold nd, esize; cbn [fst snd]; lia).
  pose proof (last_size_range 0 es1 ltac:(lia)) as Hq. fold q in Hq.
  set (o1 := tail_from (10 + sizes es1) ((big, n.2) :: ns)).
  destruct (incr_len t1 o1 L ((enc_list 0 es1 ++ enc_entry q (big, n.2) ++ enc_list (esize n) ns) ++ [ZIP_END]) _
    (- deleted) HL) as (L' & -> & HL'); [lia|lia|]. cbn [obind].
  destruct (cascade_if t1 L' (enc_list 0 es1) q (big, n.2) (esize n) ns
    (zlheader t1 o1 L' ++ (enc_list 0 es1 ++ enc_entry q (big, n.2) ++ enc_list (esize n) ns) ++ [ZIP_END])
    (10 + sizes es1) nd) as (ns' & -> & Hpl' & Hch' & Hsz'); try done; rewrite ?msize_enc_list; try lia.
  { unfold o1. eqapp. }
  { apply prevlen_ok_auto. lia. }
  assert (Hlen : msize ns' = msize ns) by (unfold msize; rewrite <- (length_fmap snd ns'), Hpl', length_fmap; done).
  eexists _, ns'. split; [done|]. split; [|done].
  match goal with |- rep ?z _ => replace z with (zlheader (11 + sizes es1 + sizes ((big, n.2) :: ns'))
    (tail_from (10 + sizes es1) ((big, n.2) :: ns')) L' ++ enc_list 0 es1 ++ enc_list q ((big, n.2) :: ns') ++ [ZIP_END]) end.
  2: { cbn [sizes enc_list]. f_equal; [f_equal; lia|eqapp]. }
  apply rep_join; try done.
  - split; [apply prevlen_ok_auto; lia|done].
  - constructor; [done|]. by eapply fmap_payload_ok.
  - cbn [sizes]. lia.
  - rewrite msize_cons. replace (msize es1 + (1 + msize ns')) with (msize es1 + (deleted + (1 + msize ns)) + - deleted) by lia. done.
Qed.

Lemma delete_middle zl es1 d ds n ns num :
  rep zl (es1 ++ (d :: ds) ++ n :: ns) -> take (Z.to_nat num) ((d :: ds) ++ n :: ns) = d :: ds ->
  11 + sizes (es1 ++ (d :: ds) ++ n :: ns) + 4 * msize ns < 2 ^ 32 ->
  exists zl' n' ns', __ziplistDelete zl (10 + sizes es1) num = Some zl' /\
    rep zl' (es1 ++ n' :: ns') /\ n' = (ZIP_BIGLEN <=? last_size 0 es1, n.2) /\ ns'.*2 = ns.*2.
Proof.
  intros (L & -> & Hch & Hok & Hsz & HL) Htake Hfit.
  apply chain_app in Hch as [Hch1 Hch2]. pose proof Hch2 as [Hd _]. apply Forall_app in Hok as [Hok1 Hok2].
  pose proof Hch2 as Hch3. apply (chain_app _ (d :: ds)) in Hch3 as [_ [Hn Hchn]].
  pose proof Hok2 as [_ [Hokn Hokns]%Forall_cons_iff]%(Forall_app _ (d :: ds)).
  rewrite enc_list_app, !sizes_app, !msize_app, (msize_cons n ns) in *.
  set (q := last_size 0 es1) in *. set (t := 11 + (sizes es1 + (sizes (d :: ds) + sizes (n :: ns)))) in *.
  pose proof (delete_room q d ds n Hd) as Hroom.
  pose proof (sizes_nonneg es1). pose proof (msize_nonneg es1). pose proof (msize_nonneg (d :: ds)). pose proof (msize_nonneg ns).
  pose proof (sizes_nonneg (d :: ds)). pose proof (last_size_range 0 es1 ltac:(lia)) as Hq. fold q in Hq.
  pose proof (sizes_nonneg ns). pose proof (esize_pos n).
  assert (Hsn : sizes (n :: ns) = esize n + sizes ns) by done.
  assert (Eo : tail_from 10 (es1 ++ (d :: ds) ++ n :: ns) = tail_from (10 + msize (enc_list 0 es1) + msize (enc_list q (d :: ds))) (n :: ns)).
  { rewrite app_assoc, tail_from_app, sizes_app. autorewrite with cmem. f_equal. lia. }
  rewrite Eo. set (o := tail_from _ _).
  pose proof (delete_lengths (zlheader t o L ++ enc_list 0 es1) q d ds (n :: ns)
    (zlheader t o L ++ (enc_list 0 es1 ++ enc_list q ((d :: ds) ++ n :: ns)) ++ [ZIP_END]) num) as E.
  rewrite msize_app, msize_zlheader, msize_enc_list in E.
  rewrite E; [|eqapp|done|done|done]. clear E. unfold delete_rest.
  set (r := last_size q (d :: ds)) in *. set (D := enc_list q (d :: ds)) in *.
  assert (HD : msize D = sizes (d :: ds)) by apply msize_enc_list.
  set (zl := zlheader t o L ++ _).
  assert (Hzl : zl = zlheader t o L ++ enc_list 0 es1 ++ D ++ enc_entry r n ++ enc_list (esize n) ns ++ [ZIP_END])
    by (unfold zl; rewrite (enc_list_app q (d :: ds) (n :: ns)); fold r D; change (enc_list r (n :: ns)) with (enc_entry r n ++ enc_list (esize n) ns); eqapp).
  destruct (entry_first (zlheader t o L ++ enc_list 0 es1 ++ D) (enc_list (esize n) ns ++ [ZIP_END]) zl r n
    (10 + sizes es1 + sizes (d :: ds))) as (b & -> & _ & Hb); [rewrite Hzl; eqapp|szsolve|done|done|].
  apply Z.eqb_neq in Hb. cbn [obind]. rewrite Hb. cbn [negb].
  destruct (delete_shift t L (enc_list 0 es1) D q r n ns zl (10 + sizes es1 + sizes (d :: ds)))
    as (F & HF & E); try done; rewrite ?msize_enc_list; try lia.
  rewrite msize_enc_list in E. rewrite E. clear E. cbn [obind].
  set (big := ZIP_BIGLEN <=? q) in *. set (nd := prevlen_size big - prevlen_size n.1) in *.
  assert (Hnd : nd = esize (big, n.2) - esize n) by (unfold nd, esize; cbn [fst snd]; lia).
  rewrite get_bytes by lia. cbn [obind]. rewrite intrev32ifbe_involutive by lia.
  set (t1 := t - (10 + sizes es1 + sizes (d :: ds) - (10 + sizes es1)) + nd).
  set (o1 := tail_from (10 + sizes es1) ((big, n.2) :: ns)).
  replace (zlheader t o1 L ++ enc_list 0 es1 ++ enc_entry q (big, n.2) ++ enc_list (esize n) ns ++ F ++ [ZIP_END])
    with (zlheader t o1 L ++ (enc_list 0 es1 ++ enc_entry q (big, n.2) ++ enc_list (esize n) ns) ++ F ++ [ZIP_END]) by eqapp.
  rewrite (resize_shrink t o1 L (enc_list 0 es1 ++ enc_entry q (big, n.2) ++ enc_list (esize n) ns) (F ++ [ZIP_END]) t1);
    [|unfold t1; autorewrite with cmem; lia|lia|pose proof (msize_nonneg F); rewrite msize_app, msize_cons, msize_nil; lia]. cbn [obind].
  replace t1 with (11 + sizes es1 + esize (big, n.2) + sizes ns) by (unfold t1, t; lia).
  destruct (delete_finish es1 n ns L (msize (d :: ds))) as (zl' & ns' & E & Hr & Hns); try done; try lia.
  { fold q big. lia. }
  by eexists zl', (big, n.2), ns'.
Qed.
End Delete.
