(* ===== verification/ZiplistRead.v ===== *)
(** Reading ziplists: access by index, traversal in both directions, search
    and length agree with the represented list of entries. *)

From S2P Require Import Prelude Endian Util Ziplist ZiplistRep ZiplistPayload ZiplistUpdate.

(** Offset of the entry at position [i]. *)
Definition offset (es : list zentry) (i : nat) : Z := 10 + sizes (take i es).

Lemma sizes_take_S es i e : es !! i = Some e -> sizes (take (S i) es) = sizes (take i es) + esize e.
Proof. intros E. rewrite (take_S_r _ _ _ E), sizes_app. cbn. lia. Qed.

Lemma fmap_Some_offset es i : offset es <$> Some i = Some (offset es i).
Proof. done. Qed.

Lemma offset_length es i : (length es <= i)%nat -> offset es i = 10 + sizes es.
Proof. intros. unfold offset. by rewrite take_ge. Qed.

Lemma take_drop_entry (es : list zentry) i e : es !! i = Some e -> es = take i es ++ e :: drop (S i) es.
Proof. intros E. by rewrite (take_drop_middle es i e E). Qed.

(** The position an index stands for: negative indexes count from the end. *)
Definition norm_index (n : nat) (i : Z) : option nat :=
  if i <? 0 then (if - i <=? Z.of_nat n then Some (Z.to_nat (Z.of_nat n + i)) else None)
  else if i <? Z.of_nat n then Some (Z.to_nat i) else None.

(** What [ziplistGet] returns for a payload. *)
Definition value_of (pl : payload) : zlvalue :=
  match pl with PStr s => ZStr s | PInt _ v => ZInt v end.

(** When [ziplistCompare] and [ziplistFind] accept a payload. *)
Definition payload_matches (v : bytes) (pl : payload) : bool :=
  match pl with
  | PStr s => bool_decide (s = v)
  | PInt _ x => match zipTryEncoding v (msize v) with Some (Some (y, _)) => x =? y | _ => false end
  end.

Lemma payload_enc_str e : payload_ok e.2 -> ZIP_IS_STR (payload_enc e) = match e.2 with PStr _ => true | _ => false end.
Proof.
  unfold payload_enc. destruct e.2 as [s|enc v]; intros Hok.
  - by destruct (_ <=? _); [|destruct (_ <=? _)].
  - by destruct (int_enc_range enc v Hok) as (_ & ? & _).
Qed.

Section Read.
Context `{Host}.
Ltac eqapp := lsimpl; done.
Ltac szsolve := autorewrite with cmem in *; lia.

Section Rep.
Context (zl : bytes) (es : list zentry) (Hrep : rep zl es).

(** The block around position [i]. *)
Lemma rep_at i e :
  es !! i = Some e ->
  exists A C, zl = A ++ enc_entry (last_size 0 (take i es)) e ++ C /\ offset es i = msize A /\
    prevlen_ok e.1 (last_size 0 (take i es)) /\ payload_ok e.2.
Proof.
  intros E. pose proof (take_drop_entry es i e E) as Es. destruct Hrep as (L & Hzl & Hch & Hok & _ & _).
  rewrite Es in Hch. apply chain_app in Hch as [_ [He _]].
  assert (Hoke : payload_ok e.2) by (rewrite Forall_lookup in Hok; by apply (Hok i)).
  exists (zlheader (11 + sizes es) (tail_from 10 es) L ++ enc_list 0 (take i es)), (enc_list (esize e) (drop (S i) es) ++ [ZIP_END]).
  split_and!; [|unfold offset; by rewrite msize_app, msize_enc_list, msize_zlheader|done|done].
  rewrite Hzl. rewrite Es at 3. rewrite enc_list_app. cbn [enc_list]. eqapp.
Qed.

Lemma load_offset i : exists b, load8 zl (offset es i) = Some b /\ (b =? ZIP_END) = bool_decide (length es <= i)%nat.
Proof.
  destruct (es !! i) as [e|] eqn:E.
  - destruct (rep_at i e E) as (A & C & Hz & Hp & He & Hok).
    destruct (entry_first A C zl _ e _ Hz Hp He Hok) as (b & Hb & _ & Hne). exists b. split; [done|].
    apply lookup_lt_Some in E. rewrite bool_decide_false by lia. by apply Z.eqb_neq.
  - apply lookup_ge_None in E. exists ZIP_END. rewrite bool_decide_true by done. split; [|done].
    destruct Hrep as (L & Hzl & _). rewrite offset_length by done. rewrite Hzl.
    eapply (load8_at (zlheader _ _ L ++ enc_list 0 es) ZIP_END []); [eqapp|szsolve].
Qed.

Lemma offset_S i e : es !! i = Some e -> offset es (S i) = offset es i + esize e.
Proof. intros E. unfold offset. rewrite (sizes_take_S es i e E). lia. Qed.

Lemma raw_length_at i e : es !! i = Some e -> zipRawEntryLength zl (offset es i) = Some (esize e).
Proof.
  intros E. destruct (rep_at i e E) as (A & C & Hz & Hp & He & Hok). by apply (raw_entry_length A C zl _ e _ Hz Hp).
Qed.

Lemma prevrawlen_at i e : es !! i = Some e ->
  exists en, zipEntry zl (offset es i) = Some en /\ prevrawlen en = last_size 0 (take i es).
Proof.
  intros E. destruct (rep_at i e E) as (A & C & Hz & Hp & He & Hok).
  rewrite (zip_entry A C zl _ e _ Hz Hp He Hok). by eexists.
Qed.

Lemma rep_size : msize zl = 11 + sizes es.
Proof. destruct Hrep as (L & -> & _). autorewrite with cmem. lia. Qed.

Lemma rep_length : (length es < length zl)%nat.
Proof. pose proof rep_size as E. pose proof (sizes_ge es). unfold msize in *. lia. Qed.

(** ** Forward *)

Lemma index_forw fuel i k :
  (i <= length es)%nat -> (length es - i < fuel)%nat ->
  ziplistIndex_forw fuel zl (offset es i) (Z.of_nat k) =
    Some (if bool_decide (i + k < length es)%nat then (offset es (i + k), -1)
          else (offset es (length es), Z.of_nat (i + k - length es))).
Proof.
  revert i k. induction fuel as [|fuel IH]; intros i k Hi Hf; [lia|]. cbn [ziplistIndex_forw].
  destruct (load_offset i) as (b & -> & Hb). cbn [obind]. rewrite Hb.
  case_bool_decide as Hl.
  { rewrite bool_decide_false by lia. assert (i = length es) as -> by lia. do 3 f_equal; lia. }
  destruct (lookup_lt_is_Some_2 es i ltac:(lia)) as [e E].
  destruct (Z.eqb_spec (Z.of_nat k) 0) as [Hk|Hk].
  { rewrite bool_decide_true by lia. do 3 f_equal; lia. }
  rewrite (raw_length_at i e E). cbn [obind]. rewrite <- (offset_S i e E).
  replace (Z.of_nat k - 1) with (Z.of_nat (k - 1)) by lia. rewrite IH by lia.
  replace (S i + (k - 1))%nat with (i + k)%nat by lia. done.
Qed.

(** ** Backward *)

Lemma last_size_zero i : (i <= length es)%nat -> (last_size 0 (take i es) >? 0) = negb (bool_decide (i = 0%nat)).
Proof.
  intros Hi. destruct i as [|i]; [done|]. rewrite bool_decide_false by done. cbn [negb].
  destruct (lookup_lt_is_Some_2 es i ltac:(lia)) as [e E].
  rewrite (take_S_r _ _ _ E), last_size_app. cbn [last_size]. pose proof (esize_pos e). apply Z.gtb_lt. lia.
Qed.

Lemma offset_prev i : (i < length es)%nat -> offset es (S i) - last_size 0 (take (S i) es) = offset es i.
Proof.
  intros Hi. destruct (lookup_lt_is_Some_2 es i Hi) as [e E].
  rewrite (offset_S i e E), (take_S_r _ _ _ E), last_size_app. cbn [last_size]. lia.
Qed.

Lemma index_back fuel i k :
  (i < length es)%nat -> (i < fuel)%nat ->
  ziplistIndex_back fuel zl (offset es i) (last_size 0 (take i es)) (Z.of_nat k) =
    Some (if bool_decide (k < i)%nat then (offset es (i - k), -1)
          else (offset es 0, Z.of_nat (k - i))).
Proof.
  revert i k. induction fuel as [|fuel IH]; intros i k Hi Hf; [lia|]. cbn [ziplistIndex_back].
  rewrite last_size_zero by lia. destruct i as [|i].
  { rewrite bool_decide_true by done. cbn [negb]. rewrite bool_decide_false by lia. by rewrite Nat.sub_0_r. }
  rewrite bool_decide_false by done. cbn [negb].
  destruct (Z.eqb_spec (Z.of_nat k) 0) as [Hk|Hk].
  { assert (k = 0%nat) as -> by lia. rewrite bool_decide_true by lia. by rewrite Nat.sub_0_r. }
  rewrite offset_prev by lia. destruct (lookup_lt_is_Some_2 es i ltac:(lia)) as [e E].
  destruct (prevrawlen_at i e E) as (en & -> & Hen). cbn [obind]. rewrite Hen.
  replace (Z.of_nat k - 1) with (Z.of_nat (k - 1)) by lia. rewrite IH by lia.
  destruct k as [|k]; [lia|]. cbn [Nat.sub]. rewrite Nat.sub_0_r.
  rewrite (bool_decide_ext (k < i)%nat (S k < S i)%nat) by lia. done.
Qed.

Lemma entry_tail_at : ZIPLIST_ENTRY_TAIL zl = Some (offset es (length es - 1)).
Proof.
  destruct Hrep as (L & Hzl & _ & _ & Hsz & _). rewrite Hzl. pose proof (tail_from_range 10 es).
  rewrite entry_tail by lia. f_equal. destruct es as [|e es' _] using rev_ind; [done|].
  rewrite tail_from_app, length_app. cbn. unfold offset. rewrite take_app_length' by lia. done.
Qed.

Lemma index_spec i :
  - 2 ^ 31 < i <= 2 ^ 31 -> ziplistIndex zl i = Some (offset es <$> norm_index (length es) i).
Proof.
  intros Hi. unfold ziplistIndex, norm_index. pose proof rep_length as Hlen.
  destruct (Z.ltb_spec i 0) as [Hneg|Hpos].
  - rewrite int_arith_Some by lia. cbn [obind].
    rewrite entry_tail_at. cbn [obind]. destruct (load_offset (length es - 1)) as (b & -> & Hb). cbn [obind]. rewrite Hb.
    destruct (decide (length es = 0%nat)) as [E0|Hne].
    { rewrite bool_decide_true by lia. cbn [negb obind].
      destruct (load_offset (length es - 1)) as (b' & -> & Hb'). cbn [obind]. rewrite Hb', bool_decide_true by lia.
      cbn [orb]. rewrite E0. by rewrite (proj2 (Z.leb_gt _ _)) by lia. }
    rewrite bool_decide_false by lia. cbn [negb].
    destruct (lookup_lt_is_Some_2 es (length es - 1) ltac:(lia)) as [e E].
    destruct (prevrawlen_at _ e E) as (en & -> & Hen). cbn [obind]. rewrite Hen.
    replace (- i - 1) with (Z.of_nat (Z.to_nat (- i - 1))) by lia.
    rewrite index_back by lia. cbn [obind].
    destruct (decide (Z.to_nat (- i - 1) < length es - 1)%nat) as [Hk|Hk];
      [rewrite bool_decide_true by done|rewrite bool_decide_false by done].
    + destruct (load_offset (length es - 1 - Z.to_nat (- i - 1))) as (b' & -> & Hb'). cbn [obind].
      rewrite Hb', bool_decide_false by lia. cbn [orb]. change (-1 >? 0) with false.
      rewrite (proj2 (Z.leb_le _ _)) by lia. rewrite fmap_Some_offset. do 3 f_equal. lia.
    + destruct (load_offset 0) as (b' & -> & Hb'). cbn [obind]. rewrite Hb', bool_decide_false by lia. cbn [orb].
      destruct (Z.leb_spec (- i) (Z.of_nat (length es))); rewrite Z.gtb_ltb.
      * rewrite (proj2 (Z.ltb_ge _ _)) by lia. rewrite fmap_Some_offset. do 3 f_equal. lia.
      * by rewrite (proj2 (Z.ltb_lt _ _)) by lia.
  - replace i with (Z.of_nat (Z.to_nat i)) at 1 by lia.
    change ZIPLIST_ENTRY_HEAD with (offset es 0). rewrite index_forw by lia. cbn [obind Nat.add].
    destruct (decide (Z.to_nat i < length es)%nat) as [Hk|Hk];
      [rewrite bool_decide_true by done|rewrite bool_decide_false by done].
    + destruct (load_offset (Z.to_nat i)) as (b & -> & Hb). cbn [obind].
      rewrite Hb, bool_decide_false by lia. cbn [orb]. change (-1 >? 0) with false.
      by rewrite (proj2 (Z.ltb_lt _ _)) by lia.
    + destruct (load_offset (length es)) as (b & -> & Hb). cbn [obind]. rewrite Hb, bool_decide_true by lia.
      cbn [orb]. by rewrite (proj2 (Z.ltb_ge _ _)) by lia.
Qed.

Lemma next_spec i :
  ziplistNext zl (offset es i) = Some (if bool_decide (S i < length es)%nat then Some (offset es (S i)) else None).
Proof.
  unfold ziplistNext. destruct (load_offset i) as (b & -> & Hb). cbn [obind]. rewrite Hb. case_bool_decide as Hl.
  { by rewrite bool_decide_false by lia. }
  destruct (lookup_lt_is_Some_2 es i ltac:(lia)) as [e E]. rewrite (raw_length_at i e E). cbn [obind].
  rewrite <- (offset_S i e E). destruct (load_offset (S i)) as (b' & -> & Hb'). cbn [obind]. rewrite Hb'.
  by do 2 case_bool_decide; try lia.
Qed.

Lemma offset_inj_0 i : (i <= length es)%nat -> (offset es i =? ZIPLIST_ENTRY_HEAD) = bool_decide (i = 0%nat).
Proof.
  intros Hi. unfold offset, ZIPLIST_ENTRY_HEAD, ZIPLIST_HEADER_SIZE. destruct i as [|i]; [done|].
  rewrite bool_decide_false by done. apply Z.eqb_neq. pose proof (sizes_ge (take (S i) es)) as Hs.
  unfold msize in Hs. rewrite length_take in Hs. lia.
Qed.

Lemma prev_spec i :
  (i <= length es)%nat ->
  ziplistPrev zl (offset es i) = Some (match i with O => None | S j => Some (offset es j) end).
Proof.
  intros Hi. unfold ziplistPrev. destruct (load_offset i) as (b & -> & Hb). cbn [obind]. rewrite Hb.
  case_bool_decide as Hl.
  - assert (i = length es) as -> by lia.
    rewrite entry_tail_at. cbn [obind]. destruct (load_offset (length es - 1)) as (b' & -> & Hb'). cbn [obind]. rewrite Hb'.
    destruct (length es) as [|n]; [done|]. rewrite bool_decide_false by lia. do 3 f_equal. lia.
  - rewrite offset_inj_0 by lia. destruct i as [|i]; [done|]. rewrite bool_decide_false by done.
    destruct (lookup_lt_is_Some_2 es (S i) ltac:(lia)) as [e E].
    destruct (prevrawlen_at _ e E) as (en & -> & Hen). cbn [obind]. rewrite Hen, last_size_zero by lia.
    rewrite bool_decide_false by done. cbn [negb]. by rewrite offset_prev by lia.
Qed.

(** ** Values *)

(** The body of the entry at position [i]. *)
Lemma body_at i e : es !! i = Some e ->
  exists A C, zl = A ++ payload_body e.2 ++ C /\
    offset es i + (prevlen_size e.1 + msize (payload_header e.2)) = msize A.
Proof.
  intros E. destruct (rep_at i e E) as (A & C & Hz & Hp & He & Hok).
  eexists (A ++ prevlen_bytes e.1 _ ++ payload_header e.2), C. split.
  - rewrite Hz. unfold enc_entry, payload_bytes. eqapp.
  - autorewrite with cmem. lia.
Qed.

Lemma entry_at i e : es !! i = Some e ->
  zipEntry zl (offset es i) = Some (mkZlentry (prevlen_size e.1) (last_size 0 (take i es))
    (msize (payload_header e.2)) (msize (payload_body e.2))
    (prevlen_size e.1 + msize (payload_header e.2)) (payload_enc e) (offset es i)) /\ payload_ok e.2.
Proof.
  intros E. destruct (rep_at i e E) as (A & C & Hz & Hp & He & Hok).
  split; [by apply (zip_entry A C)|done].
Qed.

Lemma get_spec i : ziplistGet zl (Some (offset es i)) = Some ((fun e => value_of e.2) <$> es !! i).
Proof.
  unfold ziplistGet. destruct (load_offset i) as (b & -> & Hb). cbn [obind]. rewrite Hb.
  destruct (es !! i) as [e|] eqn:E.
  - pose proof (lookup_lt_Some _ _ _ E). rewrite bool_decide_false by lia.
    destruct (entry_at i e E) as [-> Hok]. cbn [obind encoding headersize len].
    rewrite payload_enc_str by done. destruct (body_at i e E) as (A & C & Hz & HA). rewrite HA.
    cbn [fmap option_fmap option_map]. unfold payload_enc, value_of. destruct e.2 as [s|enc v]; cbn [payload_body] in *.
    + by rewrite (load_at A s C) by done.
    + by rewrite (load_integer A C zl _ v enc Hok Hz).
  - apply lookup_ge_None in E. by rewrite bool_decide_true by lia.
Qed.

Lemma compare_spec i v : ziplistCompare zl (offset es i) v (msize v) =
  Some (match es !! i with Some e => payload_matches v e.2 | None => false end).
Proof.
  unfold ziplistCompare. destruct (load_offset i) as (b & -> & Hb). cbn [obind]. rewrite Hb.
  destruct (es !! i) as [e|] eqn:E; [|apply lookup_ge_None in E; by rewrite bool_decide_true by lia].
  pose proof (lookup_lt_Some _ _ _ E). rewrite bool_decide_false by lia.
  destruct (entry_at i e E) as [-> Hok]. cbn [obind encoding headersize len].
  rewrite payload_enc_str by done. destruct (body_at i e E) as (A & C & Hz & HA). rewrite HA.
  unfold payload_enc, payload_matches. destruct e.2 as [s|enc x]; cbn [payload_body] in *.
  - destruct (Z.eqb_spec (msize s) (msize v)) as [Hl|Hl].
    + rewrite <- Hl. rewrite (load_at A s C) by done. cbn [obind].
      by rewrite (load_at [] v []) by (by rewrite ?app_nil_r).
    + rewrite bool_decide_false; [done|congruence].
  - destruct (try_encoding_total v) as [[[y encv]|] Et]; rewrite Et; cbn [obind]; [|done].
    by rewrite (load_integer A C zl _ x enc Hok Hz).
Qed.

(** ** Search *)

(** [j] is a position that a search from [i] with [skip] inspects first
    after [cnt] skipped entries. *)
Definition inspected (i cnt skip j : nat) : Prop := exists m : nat, (j = i + cnt + m * S skip)%nat.

Definition found_at (v : bytes) (j : nat) : Prop :=
  exists e, es !! j = Some e /\ payload_matches v e.2 = true.

(** The cache [(vencoding, vll)] of [ziplistFind]. *)
Definition cache_ok (v : bytes) (venc vll : Z) : Prop :=
  venc = 0 \/ match zipTryEncoding v (msize v) with
              | Some (Some (y, enc)) => venc = enc /\ vll = y
              | _ => venc = UCHAR_MAX
              end.

Lemma find_step v venc vll i e :
  es !! i = Some e -> cache_ok v venc vll ->
  exists venc' vll', cache_ok v venc' vll' /\ forall (K : Z -> Z -> option (option Z)),
  (let q := offset es i + prevlen_size e.1 + msize (payload_header e.2) in
   if ZIP_IS_STR (payload_enc e) then
     eq <- (if msize (payload_body e.2) =? msize v then
              bs <- load zl q (msize v);; w <- load v 0 (msize v);; Some (bool_decide (bs = w))
            else Some false);;
     if eq : bool then Some (Some (offset es i)) else K venc vll
   else
     ' (venc, vll) <-
       (if venc =? 0 then
          try <- zipTryEncoding v (msize v);;
          match try with
          | Some (v, enc) => if enc =? 0 then None else Some (enc, v)
          | None => Some (UCHAR_MAX, vll)
          end
        else Some (venc, vll));;
     eq <- (if negb (venc =? UCHAR_MAX) then ll <- zipLoadInteger zl q (payload_enc e);; Some (ll =? vll) else Some false);;
     if eq : bool then Some (Some (offset es i)) else K venc vll)
  = if payload_matches v e.2 then Some (Some (offset es i)) else K venc' vll'.
Proof.
  intros E Hc. destruct (entry_at i e E) as [_ Hok]. destruct (body_at i e E) as (A & C & Hz & HA).
  rewrite payload_enc_str by done. rewrite Z.add_assoc in HA. cbv zeta. rewrite HA.
  unfold payload_enc, payload_matches. destruct e.2 as [s|enc x]; cbn [payload_body] in *.
  - exists venc, vll. split; [done|]. intros K. destruct (Z.eqb_spec (msize s) (msize v)) as [Hl|Hl].
    + rewrite <- Hl. rewrite (load_at A s C) by done. cbn [obind].
      rewrite (load_at [] v []) by (by rewrite ?app_nil_r). done.
    + rewrite bool_decide_false by congruence. done.
  - unfold cache_ok in *. destruct (try_encoding_total v) as [[[y encv]|] Et]; rewrite Et in *; cbn [obind].
    + exists encv, y. split; [by right|]. intros K.
      apply try_encoding_inv in Et as (_ & Hy & ->). destruct (int_enc_range _ _ (int_encoding_ok y Hy)) as (Hr & _ & _).
      rewrite (load_integer A C zl _ x enc Hok Hz eq_refl). unfold UCHAR_MAX. destruct (Z.eqb_spec venc 0) as [->|Hne].
      * rewrite (proj2 (Z.eqb_neq (zipIntEncoding y) 0)) by lia. cbn [obind].
        rewrite (proj2 (Z.eqb_neq (zipIntEncoding y) 255)) by lia. done.
      * destruct Hc as [?|[-> ->]]; [done|]. cbn [obind]. rewrite (proj2 (Z.eqb_neq (zipIntEncoding y) 255)) by lia. done.
    + destruct (Z.eqb_spec venc 0) as [->|Hne].
      * exists UCHAR_MAX, vll. split; [by right|]. done.
      * destruct Hc as [?| ->]; [done|]. exists UCHAR_MAX, vll. split; [by right|]. done.
Qed.

Lemma inspected_0 i skip j : inspected i 0 skip j <-> j = i \/ inspected (S i) skip skip j.
Proof.
  unfold inspected. split.
  - intros [m ->]. destruct m as [|m]; [left; lia|right]. exists m. lia.
  - intros [->|[m ->]]; [exists 0%nat; lia|]. exists (S m). lia.
Qed.

Lemma inspected_S i cnt skip j : inspected i (S cnt) skip j <-> inspected (S i) cnt skip j.
Proof. unfold inspected. split; intros [m ->]; exists m; lia. Qed.

(** The result of a search from position [i]. *)
Definition find_result (v : bytes) (i cnt skip : nat) (r : option Z) : Prop :=
  match r with
  | Some p => exists j, p = offset es j /\ inspected i cnt skip j /\ found_at v j /\
      forall k, (k < j)%nat -> inspected i cnt skip k -> ~ found_at v k
  | None => forall j, inspected i cnt skip j -> ~ found_at v j
  end.

Lemma find_loop fuel i cnt skip v venc vll :
  (i <= length es)%nat -> (length es - i < fuel)%nat -> cache_ok v venc vll ->
  exists r, ziplistFind_loop fuel zl (offset es i) v (msize v) (Z.of_nat skip) (Z.of_nat cnt) venc vll = Some r /\
    find_result v i cnt skip r.
Proof.
  revert i cnt venc vll. induction fuel as [|fuel IH]; intros i cnt venc vll Hi Hf Hc; [lia|].
  cbn [ziplistFind_loop]. destruct (load_offset i) as (b & -> & Hb). cbn [obind]. rewrite Hb.
  case_bool_decide as Hl.
  { exists None. split; [done|]. intros j [m ->] (e & E & _). apply lookup_lt_Some in E. lia. }
  destruct (lookup_lt_is_Some_2 es i ltac:(lia)) as [e E].
  destruct (rep_at i e E) as (A & C & Hz & Hp & He & Hok).
  rewrite (decode_prevlensize A C zl _ e _ Hz Hp He Hok). cbn [obind].
  rewrite (decode_length A C zl _ e _ Hz Hp Hok). cbn [obind].
  assert (Hn : offset es i + prevlen_size e.1 + msize (payload_header e.2) + msize (payload_body e.2) = offset es (S i)).
  { rewrite (offset_S i e E). unfold esize, payload_bytes. rewrite msize_app. lia. }
  destruct cnt as [|cnt].
  - change (Z.of_nat 0 =? 0) with true. cbv iota.
    destruct (find_step v venc vll i e E Hc) as (venc' & vll' & Hc' & Est). cbv zeta in Est.
    rewrite (Est (fun venc vll => ziplistFind_loop fuel zl _ v (msize v) (Z.of_nat skip) (Z.of_nat skip) venc vll)).
    destruct (payload_matches v e.2) eqn:Hm.
    + eexists. split; [done|]. exists i. split; [done|]. split; [apply inspected_0; by left|].
      split; [by exists e|]. intros k Hk [m ->]. lia.
    + rewrite Hn. destruct (IH (S i) skip venc' vll' ltac:(lia) ltac:(lia) Hc') as (r & -> & Hr).
      exists r. split; [done|]. assert (Hni : ~ found_at v i) by (intros (e' & E' & Hm'); congruence).
      destruct r as [p|].
      * destruct Hr as (j & -> & Hj & Hfj & Hmin). exists j. split; [done|]. split; [apply inspected_0; by right|].
        split; [done|]. intros k Hk Hki. apply inspected_0 in Hki as [->|Hki]; [done|by apply Hmin].
      * intros j Hj. apply inspected_0 in Hj as [->|Hj]; [done|by apply Hr].
  - rewrite (proj2 (Z.eqb_neq _ _)) by lia. rewrite Hn. replace (Z.of_nat (S cnt) - 1) with (Z.of_nat cnt) by lia.
    destruct (IH (S i) cnt venc vll ltac:(lia) ltac:(lia) Hc) as (r & -> & Hr). exists r. split; [done|].
    destruct r as [p|].
    + destruct Hr as (j & -> & Hj & Hfj & Hmin). exists j. split; [done|]. split; [by apply inspected_S|].
      split; [done|]. intros k Hk Hki%inspected_S. by apply Hmin.
    + intros j Hj%inspected_S. by apply Hr.
Qed.

Lemma find_spec i skip v :
  (i <= length es)%nat ->
  exists r, ziplistFind zl (offset es i) v (msize v) (Z.of_nat skip) = Some r /\ find_result v i 0 skip r.
Proof.
  intros Hi. pose proof rep_length. apply (find_loop (S (length zl)) i 0 skip v 0 0); [done|lia|by left].
Qed.

(** ** Length *)

Lemma len_loop fuel i n :
  (i <= length es)%nat -> (length es - i < fuel)%nat ->
  ziplistLen_loop fuel zl (offset es i) n = Some (n + Z.of_nat (length es - i)).
Proof.
  revert i n. induction fuel as [|fuel IH]; intros i n Hi Hf; [lia|]. cbn [ziplistLen_loop].
  destruct (load_offset i) as (b & -> & Hb). cbn [obind]. rewrite Hb. case_bool_decide as Hl.
  { f_equal. lia. }
  destruct (lookup_lt_is_Some_2 es i ltac:(lia)) as [e E]. rewrite (raw_length_at i e E). cbn [obind].
  rewrite <- (offset_S i e E), IH by lia. f_equal. lia.
Qed.

Lemma len_spec : exists zl', ziplistLen zl = Some (zl', msize es) /\ rep zl' es.
Proof.
  unfold ziplistLen. pose proof rep_length as Hlen. pose proof (len_loop (S (length zl)) 0 0 ltac:(lia) ltac:(lia)) as Hloop.
  change (offset es 0) with ZIPLIST_HEADER_SIZE in Hloop.
  destruct Hrep as (L & Hzl & Hch & Hok & Hsz & [HL HL']).
  assert (El : ZIPLIST_LENGTH zl = Some (intrev16ifbe L)) by (rewrite Hzl; apply get_len; unfold UINT16_MAX in *; lia).
  rewrite El. cbn [obind]. rewrite intrev16ifbe_involutive by (unfold UINT16_MAX in *; lia).
  destruct (Z.ltb_spec L UINT16_MAX) as [Hlt|Hge].
  { exists zl. rewrite (HL' Hlt). done. }
  rewrite Hloop. cbn [obind]. replace (0 + Z.of_nat (length es - 0)) with (msize es) by (unfold msize; lia).
  destruct (Z.ltb_spec (msize es) UINT16_MAX) as [Hlt2|Hge2].
  - rewrite Hzl, set_len. cbn [obind]. eexists. split; [done|]. exists (msize es).
    split_and!; try done. split; [pose proof (msize_nonneg es); unfold UINT16_MAX in *; lia|done].
  - exists zl. done.
Qed.
End Rep.
End Read.
