(* ===== verification/ZiplistSpec.v ===== *)
(** The contract of ziplists: a block represents a list of byte strings, and
    every operation of ziplist.c implements the operation on that list. *)

From S2P Require Import Prelude Endian Util Ziplist ZiplistRep ZiplistPayload ZiplistUpdate ZiplistDelete ZiplistRead.

(** The first entry never has a large previous-length field. *)
Definition head_small (es : list zentry) : Prop :=
  match es with e :: _ => e.1 = false | [] => True end.

(** [zl] represents the list of strings [vs]. *)
Definition repr (zl : bytes) (vs : list bytes) : Prop :=
  exists es, rep zl es /\ es.*2 = payload_of <$> vs /\ Forall (Forall is_byte) vs /\ head_small es.

(** Bound of the room the strings need, with the largest possible headers. *)
Fixpoint weight (vs : list bytes) : Z :=
  match vs with [] => 0 | v :: vs => 18 + msize v + weight vs end.

Definition fits (vs : list bytes) : Prop := 32 + weight vs < 2 ^ 32.

Lemma weight_app vs vs' : weight (vs ++ vs') = weight vs + weight vs'.
Proof. induction vs as [|v vs IH]; cbn [weight app]; lia. Qed.

Lemma weight_nonneg vs : 0 <= weight vs.
Proof. induction vs as [|v vs IH]; cbn [weight]; [lia|]. pose proof (msize_nonneg v). lia. Qed.

Lemma weight_ge vs : 18 * msize vs <= weight vs.
Proof. induction vs as [|v vs IH]; [done|]. rewrite msize_cons. cbn [weight]. pose proof (msize_nonneg v). lia. Qed.

Lemma weight_elem vs v : v ∈ vs -> msize v <= weight vs.
Proof.
  induction 1 as [v vs|v w vs _ IH]; cbn [weight]; pose proof (weight_nonneg vs); pose proof (msize_nonneg v); [lia|].
  pose proof (msize_nonneg w). lia.
Qed.

Lemma sizes_weight es vs :
  es.*2 = payload_of <$> vs -> Forall (Forall is_byte) vs -> weight vs < 2 ^ 32 ->
  sizes es + 4 * msize es <= weight vs.
Proof.
  revert vs. induction es as [|[b pl] es IH]; intros [|v vs] E Hb Hw; try done.
  cbn in E. injection E as -> E. apply Forall_cons_iff in Hb as [Hv Hb]. cbn [weight sizes] in *. rewrite msize_cons.
  pose proof (weight_nonneg vs). pose proof (msize_nonneg v).
  specialize (IH vs E Hb ltac:(lia)). pose proof (payload_of_size b v Hv ltac:(lia)). lia.
Qed.

Lemma repr_length (es : list zentry) (vs : list bytes) : es.*2 = payload_of <$> vs -> length es = length vs.
Proof. intros E. apply (f_equal length) in E. by rewrite !length_fmap in E. Qed.

Lemma fmap_app_split {A B C} (f : A -> C) (g : B -> C) (es : list A) (vs : list B) i :
  f <$> es = g <$> vs -> f <$> take i es = g <$> take i vs /\ f <$> drop i es = g <$> drop i vs.
Proof. intros E. by rewrite !fmap_take, !fmap_drop, E. Qed.

(** [payload_of] loses nothing: distinct strings have distinct payloads. *)
Lemma payload_of_inj s s' : payload_of s = payload_of s' -> s = s'.
Proof.
  intros E. pose proof (payload_of_denotes s) as D. pose proof (payload_of_denotes s') as D'. rewrite E in D.
  destruct (payload_of s') as [t|enc v]; cbn in *; [congruence|]. by eapply decimal_inj.
Qed.

Lemma payload_matches_spec v s : payload_matches v (payload_of s) = bool_decide (s = v).
Proof.
  unfold payload_matches. pose proof (payload_of_denotes s) as D.
  destruct (payload_of s) as [t|enc x] eqn:E; cbn in D; [by subst|].
  destruct (try_encoding_total v) as [[[y encv]|] Et]; rewrite Et.
  - case_bool_decide as Heq.
    + subst v. unfold payload_of in E. rewrite Et in E. injection E as -> ->. apply Z.eqb_refl.
    + apply Z.eqb_neq. intros ->. apply Heq. apply try_encoding_inv in Et as (Hy & _ & _). by eapply decimal_inj.
  - rewrite bool_decide_false; [done|]. intros ->. unfold payload_of in E. by rewrite Et in E.
Qed.

Section Spec.
Context `{Host}.

Lemma new_spec : exists zl, ziplistNew = Some zl /\ repr zl [].
Proof.
  unfold ziplistNew, ZIPLIST_HEADER_SIZE, zmalloc.
  set (f := fresh 0 (10 + 1)). assert (Hf : msize f = 11) by (unfold f; by rewrite msize_fresh).
  clearbody f. destruct (split_at f 4) as (a & f1 & -> & Ha); [lia|]. rewrite msize_app in Hf.
  destruct (split_at f1 4) as (b & f2 & -> & Hb); [lia|]. rewrite msize_app in Hf.
  destruct (split_at f2 2) as (c & d & -> & Hc); [lia|]. rewrite msize_app in Hf.
  destruct d as [|d [|? d']]; [rewrite msize_nil in Hf; lia| |rewrite !msize_cons in Hf; pose proof (msize_nonneg d'); lia].
  unfold set_ZIPLIST_BYTES. rewrite host_encode_intrev32ifbe.
  rewrite (store_at [] a (b ++ c ++ [d])) by done. cbn [obind].
  unfold set_ZIPLIST_TAIL_OFFSET. rewrite host_encode_intrev32ifbe.
  rewrite (store_at (le_encode 4 (10 + 1)) b (c ++ [d])) by done. cbn [obind].
  unfold set_ZIPLIST_LENGTH.
  rewrite (store_at (le_encode 4 (10 + 1) ++ le_encode 4 10) c [d]);
    [|by lsimpl|done|by rewrite msize_host_encode]. cbn [obind].
  rewrite (store8_at ((le_encode 4 (10 + 1) ++ le_encode 4 10) ++ host_encode 2 0) d []);
    [|by lsimpl|by autorewrite with cmem]. eexists. split; [done|].
  exists []. split_and!; [|done|done|done]. exists 0. split_and!; try done.
  unfold host_encode. by destruct big_endian.
Qed.

(** ** Insertion *)

Lemma head_small_app (es es' : list zentry) e :
  head_small (es ++ es') -> (es = [] -> e.1 = false) -> head_small (es ++ e :: es').
Proof. destruct es; cbn; auto. Qed.

Lemma insert_repr zl vs es i s :
  rep zl es -> es.*2 = payload_of <$> vs -> Forall (Forall is_byte) vs -> head_small es ->
  Forall is_byte s -> fits (s :: vs) ->
  (forall n, es !! i = Some n -> n.1 = true -> 3 <= msize (payload_bytes (payload_of s))) ->
  exists zl', __ziplistInsert zl (offset es i) s (msize s) = Some zl' /\
    repr zl' (take i vs ++ s :: drop i vs).
Proof.
  intros Hrep Hpl Hvs Hhd Hs Hfit Hroom. unfold fits in Hfit. cbn [weight] in Hfit. pose proof (msize_nonneg s).
  pose proof (sizes_weight es vs Hpl Hvs ltac:(lia)) as Hw. pose proof (msize_nonneg es).
  destruct (fmap_app_split _ _ es vs i Hpl) as [Hp1 Hp2].
  assert (Hvs' : Forall (Forall is_byte) (take i vs ++ s :: drop i vs)).
  { apply Forall_app. split; [by apply Forall_take|]. constructor; [done|]. by apply Forall_drop. }
  set (e := (ZIP_BIGLEN <=? last_size 0 (take i es), payload_of s)).
  assert (He : take i es = [] -> e.1 = false) by (intros E; unfold e; by rewrite E).
  unfold offset. destruct (drop i es) as [|n ns] eqn:Hd.
  - destruct (insert_end zl es s Hrep Hs ltac:(lia)) as (zl' & E & Hrep').
    assert (Hi : (length es <= i)%nat) by (apply (f_equal length) in Hd; rewrite length_drop in Hd; cbn in Hd; lia).
    rewrite take_ge by done. exists zl'. split; [done|]. eexists. split; [exact Hrep'|].
    rewrite take_ge in He, Hp1 by done. unfold e in He. rewrite take_ge in He by done.
    split_and!; [|done|].
    + rewrite !fmap_app, Hp1. cbn. f_equal. f_equal. destruct (drop i vs); done.
    + destruct es; [by apply He|done].
  - pose proof (take_drop i es) as Hes. rewrite Hd in Hes. rewrite <- Hes in Hrep, Hw.
    rewrite msize_app, msize_cons in Hw. pose proof (msize_nonneg (take i es)).
    destruct (insert_middle zl (take i es) n ns s Hrep Hs) as (zl' & n' & ns' & E & Hrep' & Hn' & Hns').
    { lia. }
    { intros Hbig. assert (Hn : es !! i = Some n).
      { rewrite <- (Nat.add_0_r i), <- lookup_drop, Hd. done. }
      specialize (Hroom n Hn Hbig). unfold esize. cbn [fst snd]. unfold prevlen_size. destruct (_ <=? _); lia. }
    exists zl'. split; [done|]. eexists. split; [exact Hrep'|]. split_and!; [|done|].
    + rewrite !fmap_app, Hp1. do 2 (cbn [fmap list_fmap]). rewrite Hn', Hns'. cbn in Hp2 |- *. by rewrite <- Hp2.
    + fold e. destruct (take i es) eqn:Et; [by apply He|]. rewrite <- Hes in Hhd. done.
Qed.

(** ** Deletion *)

Lemma delete_zero zl es i :
  rep zl es -> (i < length es)%nat -> __ziplistDelete zl (offset es i) 0 = Some zl.
Proof.
  intros Hrep Hi. destruct (lookup_lt_is_Some_2 es i Hi) as [e E]. unfold __ziplistDelete.
  destruct (entry_at zl es Hrep i e E) as [-> _]. cbn [obind]. change (Z.to_nat 0) with 0%nat. cbn [ziplistDelete_loop].
  destruct (load_offset zl es Hrep i) as (b & -> & _). cbn [obind].
  assert (Hs : (if b =? ZIP_END then Some (offset es i, 0) else Some (offset es i, 0)) = Some (offset es i, 0)) by by destruct (_ =? _).
  rewrite Hs. cbn [obind entry_p]. by rewrite Z.sub_diag.
Qed.

Lemma delete_repr zl vs es i (num : nat) :
  rep zl es -> es.*2 = payload_of <$> vs -> Forall (Forall is_byte) vs -> head_small es ->
  fits vs -> (i < length es)%nat ->
  exists zl', __ziplistDelete zl (offset es i) (Z.of_nat num) = Some zl' /\
    repr zl' (take i vs ++ drop (i + num) vs).
Proof.
  intros Hrep Hpl Hvs Hhd Hfit Hi. unfold fits in Hfit.
  pose proof (sizes_weight es vs Hpl Hvs ltac:(lia)) as Hw. pose proof (msize_nonneg es).
  destruct num as [|num].
  { exists zl. rewrite Nat.add_0_r, take_drop. split; [by apply delete_zero|]. by exists es. }
  destruct (fmap_app_split _ _ es vs i Hpl) as [Hp1 _]. destruct (fmap_app_split _ _ es vs (i + S num) Hpl) as [_ Hp2].
  assert (Hvs' : Forall (Forall is_byte) (take i vs ++ drop (i + S num) vs)).
  { apply Forall_app. split; [by apply Forall_take|by apply Forall_drop]. }
  destruct (drop i es) as [|d rest] eqn:Hd.
  { apply (f_equal length) in Hd. rewrite length_drop in Hd. cbn in Hd. lia. }
  pose proof (take_drop i es) as Hes. rewrite Hd in Hes.
  assert (Hrest : drop (i + S num) es = drop num rest) by (rewrite <- drop_drop, Hd; done).
  pose proof (take_drop num rest) as Hr. set (ds := take num rest) in *. rewrite Hrest in Hp2.
  assert (Htake : take (Z.to_nat (Z.of_nat (S num))) ((d :: ds) ++ drop num rest) = d :: ds).
  { rewrite Nat2Z.id. cbn [app take]. by rewrite Hr. }
  unfold offset. rewrite <- Hes in Hrep, Hw. rewrite <- Hr in Hrep, Hw.
  destruct (drop num rest) as [|n ns].
  - rewrite app_nil_r in Hrep, Htake. destruct (delete_end zl (take i es) d ds _ Hrep Htake) as (zl' & E & Hrep').
    exists zl'. split; [done|]. eexists. split; [exact Hrep'|]. split_and!; [|done|].
    + rewrite fmap_app, Hp1, <- Hp2. by rewrite app_nil_r.
    + destruct es, i; done.
  - destruct (delete_middle zl (take i es) d ds n ns _ Hrep Htake) as (zl' & n' & ns' & E & Hrep' & Hn' & Hns').
    { rewrite !msize_app, !msize_cons in Hw. cbn [app]. pose proof (msize_nonneg (take i es)). pose proof (msize_nonneg ds).
      rewrite !msize_app in Hw. rewrite msize_cons in Hw. lia. }
    exists zl'. split; [done|]. exists (take i es ++ n' :: ns'). split; [done|]. split_and!; [|done|].
    + rewrite !fmap_app, Hp1. cbn in Hp2 |- *. by rewrite <- Hp2, Hn', Hns'.
    + subst n'. destruct es, i; done.
Qed.
End Spec.

(** * Histories of operations *)

Inductive zlop :=
  | ZPush (s : bytes) (where_ : Z)
  | ZDeleteRange (index num : Z).

Definition run_op `{Host} (zl : bytes) (op : zlop) : option bytes :=
  match op with
  | ZPush s where_ => ziplistPush zl s (msize s) where_
  | ZDeleteRange index num => ziplistDeleteRange zl index num
  end.

Fixpoint run_ops `{Host} (zl : bytes) (ops : list zlop) : option bytes :=
  match ops with
  | [] => Some zl
  | op :: ops => zl <- run_op zl op;; run_ops zl ops
  end.

Definition delete_range (vs : list bytes) (index : Z) (num : nat) : list bytes :=
  match norm_index (length vs) index with
  | Some i => take i vs ++ drop (i + num) vs
  | None => vs
  end.

Definition spec_op (vs : list bytes) (op : zlop) : list bytes :=
  match op with
  | ZPush s where_ => if where_ =? ZIPLIST_HEAD then s :: vs else vs ++ [s]
  | ZDeleteRange index num => delete_range vs (sint 32 index) (Z.to_nat num)
  end.

(** [index] and [num] are [unsigned int]; the index is converted to [int] and
    negated, which the smallest [int] does not survive. *)
Definition op_ok (op : zlop) : Prop :=
  match op with
  | ZPush s _ => Forall is_byte s
  | ZDeleteRange index num => 0 <= num < 2 ^ 32 /\ sint 32 index <> - 2 ^ 31
  end.

Definition pushed (ops : list zlop) : list bytes :=
  omap (fun op => match op with ZPush s _ => Some s | _ => None end) ops.

Lemma norm_index_lt n i k : norm_index n i = Some k -> (k < n)%nat.
Proof. unfold norm_index. bcase; intros [= <-]; lia. Qed.

Lemma weight_delete vs index num : weight (delete_range vs index num) <= weight vs.
Proof.
  unfold delete_range. destruct norm_index as [i|]; [|done].
  rewrite <- (take_drop i vs) at 3. rewrite <- (take_drop num (drop i vs)), !weight_app, drop_drop.
  pose proof (weight_nonneg (take num (drop i vs))). lia.
Qed.

Lemma sint32_range v : - 2 ^ 31 <= sint 32 v < 2 ^ 31.
Proof. unfold sint. pose proof (Z.mod_pos_bound (v + 2 ^ (32 - 1)) (2 ^ 32)). lia. Qed.

Section Histories.
Context `{Host}.

Lemma push_repr zl vs s where_ :
  repr zl vs -> Forall is_byte s -> fits (s :: vs) ->
  exists zl', ziplistPush zl s (msize s) where_ = Some zl' /\ repr zl' (spec_op vs (ZPush s where_)).
Proof.
  intros (es & Hrep & Hpl & Hvs & Hhd) Hs Hfit. unfold ziplistPush, spec_op.
  pose proof (repr_length es vs Hpl) as Hlen.
  destruct (where_ =? ZIPLIST_HEAD); cbn [obind].
  - change ZIPLIST_ENTRY_HEAD with (offset es 0).
    destruct (insert_repr zl vs es 0 s) as (zl' & E & Hr); try done; [|by exists zl'].
    intros n Hn Hb. destruct es as [|e es]; [done|]. injection Hn as ->. cbn in Hhd. congruence.
  - assert (He : ZIPLIST_ENTRY_END zl = Some (offset es (length es))).
    { destruct Hrep as (L & Hzl & _ & _ & Hsz & _). unfold ZIPLIST_ENTRY_END. rewrite Hzl.
      pose proof (sizes_nonneg es). rewrite get_bytes by lia. cbn [obind].
      rewrite intrev32ifbe_involutive, offset_length by lia. f_equal. lia. }
    rewrite He. cbn [obind]. destruct (insert_repr zl vs es (length es) s) as (zl' & E & Hr); try done.
    { intros n Hn. apply lookup_lt_Some in Hn. lia. }
    exists zl'. split; [done|]. by rewrite take_ge, drop_ge in Hr by lia.
Qed.

Lemma delete_range_repr zl vs index num :
  repr zl vs -> fits vs -> op_ok (ZDeleteRange index num) ->
  exists zl', ziplistDeleteRange zl index num = Some zl' /\ repr zl' (spec_op vs (ZDeleteRange index num)).
Proof.
  intros (es & Hrep & Hpl & Hvs & Hhd) Hfit [Hnum Hi]. unfold ziplistDeleteRange, spec_op, delete_range.
  pose proof (repr_length es vs Hpl) as Hlen. pose proof (sint32_range index).
  rewrite (index_spec zl es Hrep) by lia. cbn [obind]. rewrite <- Hlen.
  destruct (norm_index (length es) (sint 32 index)) as [k|] eqn:E; cbn [fmap option_fmap option_map].
  - apply norm_index_lt in E. pose proof (delete_repr zl vs es k (Z.to_nat num)) as Hdel.
    rewrite Z2Nat.id in Hdel by lia. by apply Hdel.
  - exists zl. split; [done|]. by exists es.
Qed.

Lemma run_ops_repr zl vs ops :
  repr zl vs -> Forall op_ok ops -> fits (vs ++ pushed ops) ->
  exists zl', run_ops zl ops = Some zl' /\ repr zl' (foldl spec_op vs ops).
Proof.
  revert zl vs. induction ops as [|op ops IH]; intros zl vs Hr Hok Hfit; [by exists zl|].
  apply Forall_cons_iff in Hok as [Hop Hok]. unfold fits in Hfit. rewrite weight_app in Hfit.
  pose proof (weight_nonneg (pushed ops)). cbn [run_ops foldl].
  destruct op as [s w|index num]; cbn [run_op].
  - cbn [pushed omap list_omap weight] in Hfit. fold (pushed ops) in Hfit.
    destruct (push_repr zl vs s w Hr Hop) as (zl1 & -> & Hr1); [unfold fits; cbn [weight]; lia|].
    cbn [obind]. apply IH; [done|done|]. unfold fits. rewrite weight_app. cbn [spec_op].
    destruct (_ =? _); [|rewrite weight_app]; cbn [weight]; lia.
  - change (pushed (ZDeleteRange index num :: ops)) with (pushed ops) in Hfit.
    destruct (delete_range_repr zl vs index num Hr ltac:(unfold fits; lia) Hop) as (zl1 & -> & Hr1).
    cbn [obind]. apply IH; [done|done|]. unfold fits. rewrite weight_app. cbn [spec_op].
    pose proof (weight_delete vs (sint 32 index) (Z.to_nat num)). lia.
Qed.
End Histories.

(** * Theorems *)

(** C3. Every history of pushes and range deletions on a new ziplist runs
    without leaving the block, and the result represents the list obtained by
    the same operations on plain lists of strings (as long as the strings fit
    the 32-bit size field). *)
Theorem ziplist_history_refines_list `{Host} (ops : list zlop) :
  Forall op_ok ops -> fits (pushed ops) ->
  exists zl zl', ziplistNew = Some zl /\ run_ops zl ops = Some zl' /\ repr zl' (foldl spec_op [] ops).
Proof.
  intros Hok Hfit. destruct new_spec as (zl & -> & Hr).
  destruct (run_ops_repr zl [] ops Hr Hok Hfit) as (zl' & E & Hr'). eauto.
Qed.

Lemma ziplist_history_refines_list_witness :
  exists zl zl', @ziplistNew le_host = Some zl /\
    @run_ops le_host zl [ZPush [97] 1; ZPush [49; 50] 0; ZDeleteRange 1 1] = Some zl' /\ repr zl' [[49; 50]].
Proof.
  apply (@ziplist_history_refines_list le_host [ZPush [97] 1; ZPush [49; 50] 0; ZDeleteRange 1 1]).
  - repeat constructor; by vm_compute.
  - by vm_compute.
Defined.

(** [ziplistInsert] before the entry at position [i] inserts the string
    there, previous-length fields of the entries behind it included; excluded
    is a successor with a five byte previous-length field in front of which
    an entry of less than four bytes is put. *)
Theorem ziplist_insert_correct `{Host} (zl : bytes) (vs : list bytes) (i : nat) (p : Z) (s : bytes) :
  repr zl vs -> Forall is_byte s -> fits (s :: vs) -> Z.of_nat i < 2 ^ 31 ->
  ziplistIndex zl (Z.of_nat i) = Some (Some p) ->
  load8 zl p <> Some ZIP_BIGLEN \/ 3 <= msize (payload_bytes (payload_of s)) ->
  exists zl', ziplistInsert zl p s (msize s) = Some zl' /\ repr zl' (take i vs ++ s :: drop i vs).
Proof.
  intros (es & Hrep & Hpl & Hvs & Hhd) Hs Hfit Hi Hidx Hroom.
  rewrite (index_spec zl es Hrep) in Hidx by lia. unfold norm_index in Hidx.
  rewrite (proj2 (Z.ltb_ge _ 0)), Nat2Z.id in Hidx by lia.
  destruct (Z.of_nat i <? Z.of_nat (length es)); [|done]. injection Hidx as <-.
  apply insert_repr; try done. intros n Hn Hbig. destruct Hroom as [Hroom|]; [|done]. exfalso. apply Hroom.
  destruct (rep_at zl es Hrep i n Hn) as (A & C & Hz & Hp & _). unfold enc_entry in Hz. rewrite Hbig in Hz.
  by apply (load8_at A ZIP_BIGLEN ((le_encode 4 (last_size 0 (take i es)) ++ payload_bytes n.2) ++ C)).
Qed.

(** A block with the strings "a" and "12". *)
Definition sample_zl : bytes := [16; 0; 0; 0; 13; 0; 0; 0; 2; 0; 0; 1; 97; 3; 253; 255].

Lemma sample_repr : repr sample_zl [[97]; [49; 50]].
Proof.
  exists [(false, PStr [97]); (false, PInt 253 12)]. split_and!; [|done|repeat constructor; by vm_compute|done].
  exists 2. split_and!; [done|by vm_compute|..|done|done].
  constructor; [|constructor; [right; by vm_compute|constructor]].
  split_and!; [repeat constructor; by vm_compute|by vm_compute|done].
Qed.

Lemma ziplist_insert_correct_witness :
  exists zl', @ziplistInsert le_host sample_zl 13 [98] 1 = Some zl' /\ repr zl' [[97]; [98]; [49; 50]].
Proof.
  apply (@ziplist_insert_correct le_host sample_zl [[97]; [49; 50]] 1 13 [98] sample_repr).
  - by repeat constructor.
  - by vm_compute.
  - done.
  - by vm_compute.
  - left. by vm_compute.
Defined.

(** [ziplistIndex] followed by [ziplistGet] reads the string at the
    index, from the front or (negative) from the back, and reports [NULL]
    exactly for the indexes out of range. *)
Theorem ziplist_index_get `{Host} (zl : bytes) (vs : list bytes) (i : Z) :
  repr zl vs -> - 2 ^ 31 < i < 2 ^ 31 ->
  exists p, ziplistIndex zl i = Some p /\
    (p = None <-> norm_index (length vs) i = None) /\
    ziplistGet zl p = Some (k <- norm_index (length vs) i;; v <- vs !! k;; Some (value_of (payload_of v))).
Proof.
  intros (es & Hrep & Hpl & _ & _) Hi. rewrite <- (repr_length es vs Hpl).
  eexists. split; [apply (index_spec zl es Hrep); lia|].
  destruct norm_index as [k|] eqn:E; cbn [obind]; [|done]. rewrite fmap_Some_offset. split; [done|].
  rewrite (get_spec zl es Hrep). apply norm_index_lt in E.
  destruct (lookup_lt_is_Some_2 es k E) as [e Ek]. rewrite Ek.
  pose proof (f_equal (lookup k) Hpl) as El. rewrite !list_lookup_fmap, Ek in El.
  destruct (vs !! k) as [v|]; [|done]. injection El as El. cbn. by rewrite El.
Qed.

Lemma ziplist_index_get_witness :
  exists p, @ziplistIndex le_host sample_zl (-1) = Some p /\ (p = None <-> Some 1%nat = None) /\
    @ziplistGet le_host sample_zl p = Some (Some (ZInt 12)).
Proof. apply (@ziplist_index_get le_host sample_zl [[97]; [49; 50]] (-1)); [exact sample_repr|done]. Defined.

(** [ziplistNext] and [ziplistPrev] walk the list: from the pointer of
    index [i] they lead to those of [i + 1] and [i - 1], to [NULL] at the
    ends, and [ziplistPrev] from the end of the list leads to the last entry. *)
Theorem ziplist_walk `{Host} (zl : bytes) (vs : list bytes) (i : nat) :
  repr zl vs -> (i < length vs)%nat -> Z.of_nat (length vs) < 2 ^ 31 ->
  exists p, ziplistIndex zl (Z.of_nat i) = Some (Some p) /\
    ziplistNext zl p = ziplistIndex zl (Z.of_nat (S i)) /\
    ziplistPrev zl p = (if decide (i = 0%nat) then Some None else ziplistIndex zl (Z.of_nat i - 1)) /\
    ziplistPrev zl (msize zl - 1) = ziplistIndex zl (-1).
Proof.
  intros (es & Hrep & Hpl & _ & _). rewrite <- (repr_length es vs Hpl). intros Hi Hl. exists (offset es i).
  rewrite !(index_spec zl es Hrep) by lia. unfold norm_index.
  assert (Hend : msize zl - 1 = offset es (length es)).
  { rewrite (rep_size zl es Hrep), offset_length by lia. lia. }
  rewrite Hend, (next_spec zl es Hrep), !(prev_spec zl es Hrep) by lia. split_and!.
  - bdecide. by rewrite Nat2Z.id.
  - bdecide. case_bool_decide; [|by bdecide]. bdecide. by rewrite Nat2Z.id.
  - destruct (decide _) as [->|Hne]; [done|]. destruct i as [|j]; [done|]. bdecide.
    cbn. do 3 f_equal. lia.
  - destruct (length es) as [|n]; [lia|]. bdecide. cbn. do 3 f_equal. lia.
Qed.

Lemma ziplist_walk_witness :
  exists p, @ziplistIndex le_host sample_zl 0 = Some (Some p) /\
    ziplistNext sample_zl p = @ziplistIndex le_host sample_zl 1 /\
    @ziplistPrev le_host sample_zl p = Some None /\
    @ziplistPrev le_host sample_zl (msize sample_zl - 1) = @ziplistIndex le_host sample_zl (-1).
Proof. apply (@ziplist_walk le_host sample_zl [[97]; [49; 50]] 0); [exact sample_repr|cbn; lia|done]. Defined.

(** [ziplistFind] started at the entry of index [i] returns the first
    entry equal to the string among those [skip + 1] apart, and [NULL] if
    there is none; integers are compared by value but with the same outcome
    as strings. *)
Theorem ziplist_find_correct `{Host} (zl v : bytes) (vs : list bytes) (i skip : nat) (p : Z) :
  repr zl vs -> Z.of_nat (length vs) < 2 ^ 31 -> (i < length vs)%nat ->
  ziplistIndex zl (Z.of_nat i) = Some (Some p) ->
  exists r, ziplistFind zl p v (msize v) (Z.of_nat skip) = Some r /\
    match r with
    | Some p' => exists m : nat, ziplistIndex zl (Z.of_nat (i + m * S skip)) = Some (Some p') /\
        vs !! (i + m * S skip)%nat = Some v /\
        forall m', (m' < m)%nat -> vs !! (i + m' * S skip)%nat <> Some v
    | None => forall m : nat, vs !! (i + m * S skip)%nat <> Some v
    end.
Proof.
  intros (es & Hrep & Hpl & _ & _) Hl Hi Hidx. pose proof (repr_length es vs Hpl) as Hlen.
  rewrite (index_spec zl es Hrep) in Hidx by lia. unfold norm_index in Hidx.
  rewrite (proj2 (Z.ltb_ge _ 0)), (proj2 (Z.ltb_lt _ _)), Nat2Z.id in Hidx by lia. injection Hidx as <-.
  assert (Hf : forall j, found_at es v j <-> vs !! j = Some v).
  { intros j. pose proof (f_equal (lookup j) Hpl) as El. rewrite !list_lookup_fmap in El. unfold found_at.
    destruct (es !! j) as [e|], (vs !! j) as [w|]; try done; [|split; [by intros (? & ? & _)|done]].
    injection El as El. split.
    - intros (e' & [= <-] & Hm). rewrite El, payload_matches_spec in Hm. by apply bool_decide_eq_true in Hm as ->.
    - intros [= ->]. exists e. rewrite El, payload_matches_spec. split; [done|]. by rewrite bool_decide_true. }
  destruct (find_spec zl es Hrep i skip v ltac:(lia)) as (r & E & Hr). exists r. split; [exact E|].
  destruct r as [p'|].
  - destruct Hr as (j & -> & [m ->] & Hj & Hmin). rewrite Nat.add_0_r in *. exists m. apply Hf in Hj. split_and!.
    + apply lookup_lt_Some in Hj. rewrite (index_spec zl es Hrep) by lia. unfold norm_index.
      rewrite (proj2 (Z.ltb_ge _ 0)), (proj2 (Z.ltb_lt _ _)), Nat2Z.id by lia. done.
    + done.
    + intros m' Hm'. rewrite <- Hf. apply Hmin; [nia|]. exists m'. lia.
  - intros m. rewrite <- Hf. apply Hr. exists m. lia.
Qed.

Lemma ziplist_find_correct_witness :
  exists r, @ziplistFind le_host sample_zl 10 [49; 50] 2 0 = Some r /\
    match r with
    | Some p' => exists m : nat, @ziplistIndex le_host sample_zl (Z.of_nat (0 + m * 1)) = Some (Some p') /\
        [[97]; [49; 50]] !! (0 + m * 1)%nat = Some [49; 50] /\
        forall m', (m' < m)%nat -> [[97]; [49; 50]] !! (0 + m' * 1)%nat <> Some [49; 50]
    | None => forall m : nat, [[97]; [49; 50]] !! (0 + m * 1)%nat <> Some [49; 50]
    end.
Proof.
  apply (@ziplist_find_correct le_host sample_zl [49; 50] [[97]; [49; 50]] 0 0 10 sample_repr); [done|cbn; lia|].
  by vm_compute.
Defined.

(** [ziplistCompare] decides equality with the string at an index, and
    [ziplistLen] returns the number of strings (recounting, and repairing the
    16-bit field, when that field is saturated). *)
Theorem ziplist_compare_len `{Host} (zl v : bytes) (vs : list bytes) (i : nat) (p : Z) :
  repr zl vs -> Z.of_nat (length vs) < 2 ^ 31 -> (i < length vs)%nat ->
  ziplistIndex zl (Z.of_nat i) = Some (Some p) ->
  ziplistCompare zl p v (msize v) = Some (bool_decide (vs !! i = Some v)) /\
  exists zl', ziplistLen zl = Some (zl', msize vs) /\ repr zl' vs.
Proof.
  intros (es & Hrep & Hpl & Hvs & Hhd) Hl Hi Hidx. pose proof (repr_length es vs Hpl) as Hlen.
  rewrite (index_spec zl es Hrep) in Hidx by lia. unfold norm_index in Hidx.
  rewrite (proj2 (Z.ltb_ge _ 0)), (proj2 (Z.ltb_lt _ _)), Nat2Z.id in Hidx by lia. injection Hidx as <-. split.
  - rewrite (compare_spec zl es Hrep). f_equal.
    pose proof (f_equal (lookup i) Hpl) as El. rewrite !list_lookup_fmap in El.
    destruct (lookup_lt_is_Some_2 vs i Hi) as [w Ew]. rewrite Ew in *. destruct (es !! i) as [e|]; [|done].
    injection El as El. rewrite El, payload_matches_spec. apply bool_decide_ext. split; [by intros ->|by intros [= ->]].
  - destruct (len_spec zl es Hrep) as (zl' & E & Hrep'). exists zl'.
    unfold msize in *. rewrite <- Hlen. split; [done|]. by exists es.
Qed.

Lemma ziplist_compare_len_witness :
  @ziplistCompare le_host sample_zl 13 [49; 50] 2 = Some true /\
  exists zl', @ziplistLen le_host sample_zl = Some (zl', 2) /\ repr zl' [[97]; [49; 50]].
Proof.
  apply (@ziplist_compare_len le_host sample_zl [49; 50] [[97]; [49; 50]] 1 13 sample_repr); [done|cbn; lia|].
  by vm_compute.
Defined.

(** Integers survive the encodings of 0 (immediate), 1, 2, 3, 4 and 8
    bytes: what [zipSaveInteger] writes with the encoding chosen by
    [zipTryEncoding], [zipLoadInteger] reads back, on hosts of either byte order. *)
Theorem zip_integer_roundtrip `{Host} (A O C : bytes) (v : Z) :
  in_sint 64 v -> msize O = zipIntSize (zipIntEncoding v) ->
  exists zl, zipSaveInteger (A ++ O ++ C) (msize A) v (zipIntEncoding v) = Some zl /\
    zipLoadInteger zl (msize A) (zipIntEncoding v) = Some v.
Proof.
  intros Hv HO. pose proof (int_encoding_ok v Hv) as Hok. eexists.
  split; [by apply (save_integer A O C)|]. by eapply (load_integer A C).
Qed.

Lemma zip_integer_roundtrip_witness :
  exists zl, @zipSaveInteger be_host ([1] ++ [0; 0; 0] ++ [2]) 1 (-70000) (zipIntEncoding (-70000)) = Some zl /\
    @zipLoadInteger be_host zl 1 (zipIntEncoding (-70000)) = Some (-70000).
Proof. by apply (@zip_integer_roundtrip be_host [1] [0; 0; 0] [2] (-70000)). Defined.

