(* ===== verification/Crc.v ===== *)
(** Checksums: crc16.c, crc64.c, and the key to slot mapping of cluster.c.

    The table driven routines are translated as they are; the theorems show
    that they compute the shift register definition of the checksums with the
    documented polynomials, and what the hash slot of a key depends on. *)

From S2P Require Import Prelude.

(** * crc16.c: CRC-16 (XMODEM), polynomial 1021, most significant bit first *)

Definition crc16tab : list Z :=
  [0x0000; 0x1021; 0x2042; 0x3063; 0x4084; 0x50a5; 0x60c6; 0x70e7;
   0x8108; 0x9129; 0xa14a; 0xb16b; 0xc18c; 0xd1ad; 0xe1ce; 0xf1ef;
   0x1231; 0x0210; 0x3273; 0x2252; 0x52b5; 0x4294; 0x72f7; 0x62d6;
   0x9339; 0x8318; 0xb37b; 0xa35a; 0xd3bd; 0xc39c; 0xf3ff; 0xe3de;
   0x2462; 0x3443; 0x0420; 0x1401; 0x64e6; 0x74c7; 0x44a4; 0x5485;
   0xa56a; 0xb54b; 0x8528; 0x9509; 0xe5ee; 0xf5cf; 0xc5ac; 0xd58d;
   0x3653; 0x2672; 0x1611; 0x0630; 0x76d7; 0x66f6; 0x5695; 0x46b4;
   0xb75b; 0xa77a; 0x9719; 0x8738; 0xf7df; 0xe7fe; 0xd79d; 0xc7bc;
   0x48c4; 0x58e5; 0x6886; 0x78a7; 0x0840; 0x1861; 0x2802; 0x3823;
   0xc9cc; 0xd9ed; 0xe98e; 0xf9af; 0x8948; 0x9969; 0xa90a; 0xb92b;
   0x5af5; 0x4ad4; 0x7ab7; 0x6a96; 0x1a71; 0x0a50; 0x3a33; 0x2a12;
   0xdbfd; 0xcbdc; 0xfbbf; 0xeb9e; 0x9b79; 0x8b58; 0xbb3b; 0xab1a;
   0x6ca6; 0x7c87; 0x4ce4; 0x5cc5; 0x2c22; 0x3c03; 0x0c60; 0x1c41;
   0xedae; 0xfd8f; 0xcdec; 0xddcd; 0xad2a; 0xbd0b; 0x8d68; 0x9d49;
   0x7e97; 0x6eb6; 0x5ed5; 0x4ef4; 0x3e13; 0x2e32; 0x1e51; 0x0e70;
   0xff9f; 0xefbe; 0xdfdd; 0xcffc; 0xbf1b; 0xaf3a; 0x9f59; 0x8f78;
   0x9188; 0x81a9; 0xb1ca; 0xa1eb; 0xd10c; 0xc12d; 0xf14e; 0xe16f;
   0x1080; 0x00a1; 0x30c2; 0x20e3; 0x5004; 0x4025; 0x7046; 0x6067;
   0x83b9; 0x9398; 0xa3fb; 0xb3da; 0xc33d; 0xd31c; 0xe37f; 0xf35e;
   0x02b1; 0x1290; 0x22f3; 0x32d2; 0x4235; 0x5214; 0x6277; 0x7256;
   0xb5ea; 0xa5cb; 0x95a8; 0x8589; 0xf56e; 0xe54f; 0xd52c; 0xc50d;
   0x34e2; 0x24c3; 0x14a0; 0x0481; 0x7466; 0x6447; 0x5424; 0x4405;
   0xa7db; 0xb7fa; 0x8799; 0x97b8; 0xe75f; 0xf77e; 0xc71d; 0xd73c;
   0x26d3; 0x36f2; 0x0691; 0x16b0; 0x6657; 0x7676; 0x4615; 0x5634;
   0xd94c; 0xc96d; 0xf90e; 0xe92f; 0x99c8; 0x89e9; 0xb98a; 0xa9ab;
   0x5844; 0x4865; 0x7806; 0x6827; 0x18c0; 0x08e1; 0x3882; 0x28a3;
   0xcb7d; 0xdb5c; 0xeb3f; 0xfb1e; 0x8bf9; 0x9bd8; 0xabbb; 0xbb9a;
   0x4a75; 0x5a54; 0x6a37; 0x7a16; 0x0af1; 0x1ad0; 0x2ab3; 0x3a92;
   0xfd2e; 0xed0f; 0xdd6c; 0xcd4d; 0xbdaa; 0xad8b; 0x9de8; 0x8dc9;
   0x7c26; 0x6c07; 0x5c64; 0x4c45; 0x3ca2; 0x2c83; 0x1ce0; 0x0cc1;
   0xef1f; 0xff3e; 0xcf5d; 0xdf7c; 0xaf9b; 0xbfba; 0x8fd9; 0x9ff8;
   0x6e17; 0x7e36; 0x4e55; 0x5e74; 0x2e93; 0x3eb2; 0x0ed1; 0x1ef0].

(** One round of the loop; [b] is a [char], sign extended before the mask. *)
Definition crc16_step (crc b : Z) : option Z :=
  t <- crc16tab !! Z.to_nat (Z.land (Z.lxor (Z.shiftr crc 8) (sint 8 b)) 255);;
  Some (uint 16 (Z.lxor (Z.shiftl crc 8) t)).

Fixpoint crc16_loop (n : nat) (buf : bytes) (p crc : Z) : option Z :=
  match n with
  | O => Some crc
  | S n => b <- load8 buf p;; crc <- crc16_step crc b;; crc16_loop n buf (p + 1) crc
  end.

Definition crc16 (buf : bytes) (p len : Z) : option Z :=
  crc16_loop (Z.to_nat len) buf p 0.

(** * crc64.c: CRC-64 (Jones), least significant bit first *)

Definition crc64_tab : list Z :=
  [0x0000000000000000; 0x7ad870c830358979; 0xf5b0e190606b12f2; 0x8f689158505e9b8b;
   0xc038e5739841b68f; 0xbae095bba8743ff6; 0x358804e3f82aa47d; 0x4f50742bc81f2d04;
   0xab28ecb46814fe75; 0xd1f09c7c5821770c; 0x5e980d24087fec87; 0x24407dec384a65fe;
   0x6b1009c7f05548fa; 0x11c8790fc060c183; 0x9ea0e857903e5a08; 0xe478989fa00bd371;
   0x7d08ff3b88be6f81; 0x07d08ff3b88be6f8; 0x88b81eabe8d57d73; 0xf2606e63d8e0f40a;
   0xbd301a4810ffd90e; 0xc7e86a8020ca5077; 0x4880fbd87094cbfc; 0x32588b1040a14285;
   0xd620138fe0aa91f4; 0xacf86347d09f188d; 0x2390f21f80c18306; 0x594882d7b0f40a7f;
   0x1618f6fc78eb277b; 0x6cc0863448deae02; 0xe3a8176c18803589; 0x997067a428b5bcf0;
   0xfa11fe77117cdf02; 0x80c98ebf2149567b; 0x0fa11fe77117cdf0; 0x75796f2f41224489;
   0x3a291b04893d698d; 0x40f16bccb908e0f4; 0xcf99fa94e9567b7f; 0xb5418a5cd963f206;
   0x513912c379682177; 0x2be1620b495da80e; 0xa489f35319033385; 0xde51839b2936bafc;
   0x9101f7b0e12997f8; 0xebd98778d11c1e81; 0x64b116208142850a; 0x1e6966e8b1770c73;
   0x8719014c99c2b083; 0xfdc17184a9f739fa; 0x72a9e0dcf9a9a271; 0x08719014c99c2b08;
   0x4721e43f0183060c; 0x3df994f731b68f75; 0xb29105af61e814fe; 0xc849756751dd9d87;
   0x2c31edf8f1d64ef6; 0x56e99d30c1e3c78f; 0xd9810c6891bd5c04; 0xa3597ca0a188d57d;
   0xec09088b6997f879; 0x96d1784359a27100; 0x19b9e91b09fcea8b; 0x636199d339c963f2;
   0xdf7adabd7a6e2d6f; 0xa5a2aa754a5ba416; 0x2aca3b2d1a053f9d; 0x50124be52a30b6e4;
   0x1f423fcee22f9be0; 0x659a4f06d21a1299; 0xeaf2de5e82448912; 0x902aae96b271006b;
   0x74523609127ad31a; 0x0e8a46c1224f5a63; 0x81e2d7997211c1e8; 0xfb3aa75142244891;
   0xb46ad37a8a3b6595; 0xceb2a3b2ba0eecec; 0x41da32eaea507767; 0x3b024222da65fe1e;
   0xa2722586f2d042ee; 0xd8aa554ec2e5cb97; 0x57c2c41692bb501c; 0x2d1ab4dea28ed965;
   0x624ac0f56a91f461; 0x1892b03d5aa47d18; 0x97fa21650afae693; 0xed2251ad3acf6fea;
   0x095ac9329ac4bc9b; 0x7382b9faaaf135e2; 0xfcea28a2faafae69; 0x8632586aca9a2710;
   0xc9622c4102850a14; 0xb3ba5c8932b0836d; 0x3cd2cdd162ee18e6; 0x460abd1952db919f;
   0x256b24ca6b12f26d; 0x5fb354025b277b14; 0xd0dbc55a0b79e09f; 0xaa03b5923b4c69e6;
   0xe553c1b9f35344e2; 0x9f8bb171c366cd9b; 0x10e3202993385610; 0x6a3b50e1a30ddf69;
   0x8e43c87e03060c18; 0xf49bb8b633338561; 0x7bf329ee636d1eea; 0x012b592653589793;
   0x4e7b2d0d9b47ba97; 0x34a35dc5ab7233ee; 0xbbcbcc9dfb2ca865; 0xc113bc55cb19211c;
   0x5863dbf1e3ac9dec; 0x22bbab39d3991495; 0xadd33a6183c78f1e; 0xd70b4aa9b3f20667;
   0x985b3e827bed2b63; 0xe2834e4a4bd8a21a; 0x6debdf121b863991; 0x1733afda2bb3b0e8;
   0xf34b37458bb86399; 0x8993478dbb8deae0; 0x06fbd6d5ebd3716b; 0x7c23a61ddbe6f812;
   0x3373d23613f9d516; 0x49aba2fe23cc5c6f; 0xc6c333a67392c7e4; 0xbc1b436e43a74e9d;
   0x95ac9329ac4bc9b5; 0xef74e3e19c7e40cc; 0x601c72b9cc20db47; 0x1ac40271fc15523e;
   0x5594765a340a7f3a; 0x2f4c0692043ff643; 0xa02497ca54616dc8; 0xdafce7026454e4b1;
   0x3e847f9dc45f37c0; 0x445c0f55f46abeb9; 0xcb349e0da4342532; 0xb1eceec59401ac4b;
   0xfebc9aee5c1e814f; 0x8464ea266c2b0836; 0x0b0c7b7e3c7593bd; 0x71d40bb60c401ac4;
   0xe8a46c1224f5a634; 0x927c1cda14c02f4d; 0x1d148d82449eb4c6; 0x67ccfd4a74ab3dbf;
   0x289c8961bcb410bb; 0x5244f9a98c8199c2; 0xdd2c68f1dcdf0249; 0xa7f41839ecea8b30;
   0x438c80a64ce15841; 0x3954f06e7cd4d138; 0xb63c61362c8a4ab3; 0xcce411fe1cbfc3ca;
   0x83b465d5d4a0eece; 0xf96c151de49567b7; 0x76048445b4cbfc3c; 0x0cdcf48d84fe7545;
   0x6fbd6d5ebd3716b7; 0x15651d968d029fce; 0x9a0d8ccedd5c0445; 0xe0d5fc06ed698d3c;
   0xaf85882d2576a038; 0xd55df8e515432941; 0x5a3569bd451db2ca; 0x20ed197575283bb3;
   0xc49581ead523e8c2; 0xbe4df122e51661bb; 0x3125607ab548fa30; 0x4bfd10b2857d7349;
   0x04ad64994d625e4d; 0x7e7514517d57d734; 0xf11d85092d094cbf; 0x8bc5f5c11d3cc5c6;
   0x12b5926535897936; 0x686de2ad05bcf04f; 0xe70573f555e26bc4; 0x9ddd033d65d7e2bd;
   0xd28d7716adc8cfb9; 0xa85507de9dfd46c0; 0x273d9686cda3dd4b; 0x5de5e64efd965432;
   0xb99d7ed15d9d8743; 0xc3450e196da80e3a; 0x4c2d9f413df695b1; 0x36f5ef890dc31cc8;
   0x79a59ba2c5dc31cc; 0x037deb6af5e9b8b5; 0x8c157a32a5b7233e; 0xf6cd0afa9582aa47;
   0x4ad64994d625e4da; 0x300e395ce6106da3; 0xbf66a804b64ef628; 0xc5bed8cc867b7f51;
   0x8aeeace74e645255; 0xf036dc2f7e51db2c; 0x7f5e4d772e0f40a7; 0x05863dbf1e3ac9de;
   0xe1fea520be311aaf; 0x9b26d5e88e0493d6; 0x144e44b0de5a085d; 0x6e963478ee6f8124;
   0x21c640532670ac20; 0x5b1e309b16452559; 0xd476a1c3461bbed2; 0xaeaed10b762e37ab;
   0x37deb6af5e9b8b5b; 0x4d06c6676eae0222; 0xc26e573f3ef099a9; 0xb8b627f70ec510d0;
   0xf7e653dcc6da3dd4; 0x8d3e2314f6efb4ad; 0x0256b24ca6b12f26; 0x788ec2849684a65f;
   0x9cf65a1b368f752e; 0xe62e2ad306bafc57; 0x6946bb8b56e467dc; 0x139ecb4366d1eea5;
   0x5ccebf68aecec3a1; 0x2616cfa09efb4ad8; 0xa97e5ef8cea5d153; 0xd3a62e30fe90582a;
   0xb0c7b7e3c7593bd8; 0xca1fc72bf76cb2a1; 0x45775673a732292a; 0x3faf26bb9707a053;
   0x70ff52905f188d57; 0x0a2722586f2d042e; 0x854fb3003f739fa5; 0xff97c3c80f4616dc;
   0x1bef5b57af4dc5ad; 0x61372b9f9f784cd4; 0xee5fbac7cf26d75f; 0x9487ca0fff135e26;
   0xdbd7be24370c7322; 0xa10fceec0739fa5b; 0x2e675fb4576761d0; 0x54bf2f7c6752e8a9;
   0xcdcf48d84fe75459; 0xb71738107fd2dd20; 0x387fa9482f8c46ab; 0x42a7d9801fb9cfd2;
   0x0df7adabd7a6e2d6; 0x772fdd63e7936baf; 0xf8474c3bb7cdf024; 0x829f3cf387f8795d;
   0x66e7a46c27f3aa2c; 0x1c3fd4a417c62355; 0x935745fc4798b8de; 0xe98f353477ad31a7;
   0xa6df411fbfb21ca3; 0xdc0731d78f8795da; 0x536fa08fdfd90e51; 0x29b7d047efec8728].

Definition crc64_step (crc byte : Z) : option Z :=
  t <- crc64_tab !! Z.to_nat (Z.lxor (uint 8 crc) byte);;
  Some (Z.lxor t (Z.shiftr crc 8)).

Fixpoint crc64_loop (n : nat) (s : bytes) (j crc : Z) : option Z :=
  match n with
  | O => Some crc
  | S n => b <- load8 s j;; crc <- crc64_step crc b;; crc64_loop n s (j + 1) crc
  end.

Definition crc64 (crc : Z) (s : bytes) (l : Z) : option Z :=
  crc64_loop (Z.to_nat l) s 0 crc.

(** * cluster.c: keyHashSlot *)

(** [for (i = from; i < keylen; i++) if (key[i] == c) break;] *)
Fixpoint scan_char (n : nat) (key : bytes) (i c : Z) : option Z :=
  match n with
  | O => Some i
  | S n => b <- load8 key i;; if b =? c then Some i else scan_char n key (i + 1) c
  end.

Definition keyHashSlot (key : bytes) (keylen : Z) : option Z :=
  s <- scan_char (Z.to_nat keylen) key 0 123;;
  if s =? keylen then crc <- crc16 key 0 keylen;; Some (Z.land crc 16383) else
  e <- scan_char (Z.to_nat (keylen - (s + 1))) key (s + 1) 125;;
  if (e =? keylen) || (e =? s + 1) then crc <- crc16 key 0 keylen;; Some (Z.land crc 16383) else
  crc <- crc16 key (s + 1) (e - s - 1);; Some (Z.land crc 16383).

(** * Shift register definitions *)

(** One bit of the register: shift left, subtract the polynomial on a carry. *)
Definition crc16_bit (c : Z) : Z :=
  Z.lxor (Z.land (Z.shiftl c 1) 65535) (if Z.testbit c 15 then 0x1021 else 0).

Definition crc16_ref (c : Z) (bs : bytes) : Z :=
  foldl (fun c b => Nat.iter 8 crc16_bit (Z.lxor c (Z.shiftl b 8))) c bs.

(** The reflected register; 95AC9329AC4BC9B5 is AD93D23594C935A9 reflected. *)
Definition crc64_bit (c : Z) : Z :=
  Z.lxor (Z.shiftr c 1) (if Z.testbit c 0 then 0x95AC9329AC4BC9B5 else 0).

Definition crc64_ref (c : Z) (bs : bytes) : Z :=
  foldl (fun c b => Nat.iter 8 crc64_bit (Z.lxor c b)) c bs.

Definition reflect64 (v : Z) : Z :=
  foldr (fun i acc => Z.lor acc (if Z.testbit v i then Z.shiftl 1 (63 - i) else 0)) 0 (seqZ 0 64).

(** * The tables *)

Lemma sint8_mask b : is_byte b -> Z.land (sint 8 b) 255 = b.
Proof.
  intros Hb. apply Z.eqb_eq. revert b Hb. apply (byte_check (fun b => Z.land (sint 8 b) 255 =? b) 256). by vm_compute.
Qed.

Lemma crc16tab_ok h : is_byte h -> crc16tab !! Z.to_nat h = Some (Nat.iter 8 crc16_bit (Z.shiftl h 8)).
Proof.
  intros Hh. assert (E : forall h, 0 <= h < 256 ->
    bool_decide (crc16tab !! Z.to_nat h = Some (Nat.iter 8 crc16_bit (Z.shiftl h 8))) = true).
  { apply byte_check. by vm_compute. }
  by eapply bool_decide_eq_true_1, E.
Qed.

Lemma crc64_tab_ok h : is_byte h -> crc64_tab !! Z.to_nat h = Some (Nat.iter 8 crc64_bit h).
Proof.
  intros Hh. assert (E : forall h, 0 <= h < 256 ->
    bool_decide (crc64_tab !! Z.to_nat h = Some (Nat.iter 8 crc64_bit h)) = true).
  { apply byte_check. by vm_compute. }
  by eapply bool_decide_eq_true_1, E.
Qed.

(** * Linearity *)

Lemma bits_ext a b : (forall i, 0 <= i -> Z.testbit a i = Z.testbit b i) -> a = b.
Proof. apply Z.bits_inj'. Qed.

Lemma land_lxor_distr a b m : Z.land (Z.lxor a b) m = Z.lxor (Z.land a m) (Z.land b m).
Proof.
  apply bits_ext. intros i _. rewrite Z.land_spec, !Z.lxor_spec, !Z.land_spec.
  by destruct (Z.testbit a i), (Z.testbit b i), (Z.testbit m i).
Qed.

Lemma lxor_swap a b c d : Z.lxor (Z.lxor a b) (Z.lxor c d) = Z.lxor (Z.lxor a c) (Z.lxor b d).
Proof. rewrite !Z.lxor_assoc. f_equal. rewrite <- !Z.lxor_assoc. by rewrite (Z.lxor_comm b c). Qed.

Lemma if_lxor (a b : bool) p :
  (if xorb a b then p else 0) = Z.lxor (if a then p else 0) (if b then p else 0).
Proof. destruct a, b; cbn [xorb]; by rewrite ?Z.lxor_nilpotent, ?Z.lxor_0_r, ?Z.lxor_0_l. Qed.

Lemma crc16_bit_linear a b : crc16_bit (Z.lxor a b) = Z.lxor (crc16_bit a) (crc16_bit b).
Proof.
  unfold crc16_bit. by rewrite Z.lxor_spec, if_lxor, Z.shiftl_lxor, land_lxor_distr, lxor_swap.
Qed.

Lemma crc64_bit_linear a b : crc64_bit (Z.lxor a b) = Z.lxor (crc64_bit a) (crc64_bit b).
Proof. unfold crc64_bit. by rewrite Z.lxor_spec, if_lxor, Z.shiftr_lxor, lxor_swap. Qed.

Lemma iter_linear f n a b :
  (forall a b, f (Z.lxor a b) = Z.lxor (f a) (f b)) ->
  Nat.iter n f (Z.lxor a b) = Z.lxor (Nat.iter n f a) (Nat.iter n f b).
Proof.
  intros Hf. induction n as [|n IH]; [done|]. change (f (Nat.iter n f (Z.lxor a b)) = Z.lxor (f (Nat.iter n f a)) (f (Nat.iter n f b))).
  by rewrite IH, Hf.
Qed.

(** The low half of the register only moves. *)
Lemma crc16_low l : is_byte l -> Nat.iter 8 crc16_bit l = Z.shiftl l 8.
Proof.
  intros Hl. apply Z.eqb_eq. revert l Hl. apply (byte_check (fun l => Nat.iter 8 crc16_bit l =? Z.shiftl l 8) 256).
  by vm_compute.
Qed.

Lemma crc64_bit_even h : crc64_bit (Z.shiftl h 1) = h.
Proof.
  unfold crc64_bit. rewrite Z.shiftl_spec_low, Z.lxor_0_r by lia. by rewrite Z.shiftr_shiftl_l, Z.shiftl_0_r by lia.
Qed.

Lemma crc64_high h : Nat.iter 8 crc64_bit (Z.shiftl h 8) = h.
Proof.
  assert (E : forall n, Nat.iter n crc64_bit (Z.shiftl h (Z.of_nat n)) = h).
  { induction n as [|n IH]; [apply Z.shiftl_0_r|]. rewrite Nat.iter_succ_r.
    replace (Z.of_nat (S n)) with (Z.of_nat n + 1) by lia. rewrite <- Z.shiftl_shiftl by lia.
    by rewrite crc64_bit_even. }
  apply (E 8%nat).
Qed.

Lemma testbit_byte b i : is_byte b -> 8 <= i -> Z.testbit b i = false.
Proof.
  intros Hb Hi. unfold is_byte in Hb. rewrite <- (Z.mod_small b (2 ^ 8)) by lia. by apply Z.mod_pow2_bits_high.
Qed.

(** A 16-bit register split into halves. *)
Lemma split16 c b : 0 <= c < 2 ^ 16 -> is_byte b ->
  Z.lxor c (Z.shiftl b 8) = Z.lxor (Z.shiftl (Z.lxor (Z.shiftr c 8) b) 8) (Z.land c 255).
Proof.
  intros Hc Hb. apply bits_ext. intros i Hi. change 255 with (Z.ones 8).
  rewrite !Z.lxor_spec, Z.land_spec.
  destruct (Z.lt_ge_cases i 8) as [Hlt|Hge].
  - rewrite !Z.shiftl_spec_low, Z.ones_spec_low by lia. by destruct (Z.testbit c i).
  - rewrite !Z.shiftl_spec, Z.ones_spec_high, Z.lxor_spec, Z.shiftr_spec by lia.
    replace (i - 8 + 8) with i by lia. by destruct (Z.testbit c i), (Z.testbit b (i - 8)).
Qed.

Lemma split64 c : c = Z.lxor (Z.shiftl (Z.shiftr c 8) 8) (uint 8 c).
Proof.
  unfold uint. rewrite <- Z.land_ones by lia. apply bits_ext. intros i Hi. rewrite Z.lxor_spec, Z.land_spec.
  destruct (Z.lt_ge_cases i 8) as [Hlt|Hge].
  - rewrite Z.shiftl_spec_low, Z.ones_spec_low by lia. by destruct (Z.testbit c i).
  - rewrite Z.shiftl_spec, Z.ones_spec_high, Z.shiftr_spec by lia.
    replace (i - 8 + 8) with i by lia. by destruct (Z.testbit c i).
Qed.

(** * Steps *)

Lemma lxor_byte a b : is_byte a -> is_byte b -> is_byte (Z.lxor a b).
Proof.
  intros Ha Hb. unfold is_byte. assert (E : Z.lxor a b = Z.land (Z.lxor a b) (Z.ones 8)).
  { apply bits_ext. intros i Hi. rewrite Z.land_spec. destruct (Z.lt_ge_cases i 8).
    - by rewrite Z.ones_spec_low, andb_true_r by lia.
    - by rewrite Z.ones_spec_high, Z.lxor_spec, !testbit_byte by (done || lia). }
  rewrite E, Z.land_ones by lia. apply Z.mod_pos_bound. lia.
Qed.

Lemma land_ones_range v n : 0 <= n -> 0 <= Z.land v (Z.ones n) < 2 ^ n.
Proof. intros. rewrite Z.land_ones by lia. apply Z.mod_pos_bound. lia. Qed.

Lemma crc16_step_ref c b : 0 <= c < 2 ^ 16 -> is_byte b ->
  crc16_step c b = Some (Nat.iter 8 crc16_bit (Z.lxor c (Z.shiftl b 8))) /\
  0 <= Nat.iter 8 crc16_bit (Z.lxor c (Z.shiftl b 8)) < 2 ^ 16.
Proof.
  intros Hc Hb. unfold crc16_step.
  assert (Hh : is_byte (Z.shiftr c 8)).
  { rewrite Z.shiftr_div_pow2 by lia. split; [apply Z.div_pos; lia|apply Z.div_lt_upper_bound; lia]. }
  rewrite land_lxor_distr, sint8_mask by done. change 255 with (Z.ones 8) at 1.
  rewrite Z.land_ones, Z.mod_small by (unfold is_byte in Hh; lia).
  rewrite crc16tab_ok by (by apply lxor_byte). cbn [obind].
  rewrite (split16 c b Hc Hb), (iter_linear crc16_bit 8 _ (Z.land c 255) crc16_bit_linear).
  pose proof (land_ones_range c 8 ltac:(lia)) as Hl. change (Z.ones 8) with 255 in Hl.
  rewrite (crc16_low (Z.land c 255)) by (unfold is_byte; lia). set (t := Nat.iter 8 crc16_bit _).
  assert (Ht : 0 <= t < 2 ^ 16).
  { assert (E : (0 <=? t) && (t <? 2 ^ 16) = true); [|bprop; lia]. unfold t.
    apply (byte_check (fun h => let t := Nat.iter 8 crc16_bit (Z.shiftl h 8) in (0 <=? t) && (t <? 2 ^ 16)) 256);
      [by vm_compute|]. by apply lxor_byte. }
  assert (E : uint 16 (Z.lxor (Z.shiftl c 8) t) = Z.lxor t (Z.shiftl (Z.land c 255) 8)).
  { unfold uint. rewrite <- Z.land_ones, land_lxor_distr, Z.lxor_comm by lia. f_equal.
    - rewrite Z.land_ones, Z.mod_small by lia. done.
    - change 255 with (Z.ones 8). apply bits_ext. intros i Hi. rewrite Z.land_spec.
      destruct (Z.lt_ge_cases i 8); [by rewrite !Z.shiftl_spec_low by lia|].
      rewrite !Z.shiftl_spec, Z.land_spec by lia. f_equal.
      destruct (Z.lt_ge_cases i 16); [by rewrite !Z.ones_spec_low by lia|by rewrite !Z.ones_spec_high by lia]. }
  split; [by rewrite E|]. rewrite <- E. by apply uint_range.
Qed.

Lemma crc64_step_ref c b : is_byte b -> crc64_step c b = Some (Nat.iter 8 crc64_bit (Z.lxor c b)).
Proof.
  intros Hb. unfold crc64_step. rewrite crc64_tab_ok by (apply lxor_byte; [by apply uint_range|done]). cbn [obind].
  assert (E : Z.lxor c b = Z.lxor (Z.shiftl (Z.shiftr c 8) 8) (Z.lxor (uint 8 c) b)).
  { rewrite <- Z.lxor_assoc. by rewrite <- split64. }
  rewrite E, (iter_linear crc64_bit 8 (Z.shiftl _ 8) _ crc64_bit_linear). by rewrite crc64_high, Z.lxor_comm.
Qed.

Lemma crc16_loop_ref A bs C c :
  Forall is_byte bs -> 0 <= c < 2 ^ 16 ->
  crc16_loop (length bs) (A ++ bs ++ C) (msize A) c = Some (crc16_ref c bs).
Proof.
  revert A c. induction bs as [|b bs IH]; intros A c Hb Hc; [done|]. apply Forall_cons_iff in Hb as [Hb Hbs].
  cbn [length crc16_loop]. rewrite (load8_at A b (bs ++ C)) by done. cbn [obind].
  destruct (crc16_step_ref c b Hc Hb) as [-> Hr]. cbn [obind].
  pose proof (IH (A ++ [b]) _ Hbs Hr) as E. rewrite msize_app, msize_cons, msize_nil, (Z.add_0_r 1) in E.
  replace (A ++ (b :: bs) ++ C) with ((A ++ [b]) ++ bs ++ C) by (by lsimpl). rewrite E. done.
Qed.

Lemma crc16_spec A bs C :
  Forall is_byte bs -> crc16 (A ++ bs ++ C) (msize A) (msize bs) = Some (crc16_ref 0 bs).
Proof. intros Hb. unfold crc16. change (msize bs) with (Z.of_nat (length bs)). rewrite Nat2Z.id. by apply crc16_loop_ref. Qed.

Lemma crc64_loop_ref A bs C c :
  Forall is_byte bs ->
  crc64_loop (length bs) (A ++ bs ++ C) (msize A) c = Some (crc64_ref c bs).
Proof.
  revert A c. induction bs as [|b bs IH]; intros A c Hb; [done|]. apply Forall_cons_iff in Hb as [Hb Hbs].
  cbn [length crc64_loop]. rewrite (load8_at A b (bs ++ C)) by done. cbn [obind].
  rewrite crc64_step_ref by done. cbn [obind].
  pose proof (IH (A ++ [b]) (Nat.iter 8 crc64_bit (Z.lxor c b)) Hbs) as E. rewrite msize_app, msize_cons, msize_nil, (Z.add_0_r 1) in E.
  replace (A ++ (b :: bs) ++ C) with ((A ++ [b]) ++ bs ++ C) by (by lsimpl). rewrite E. done.
Qed.

(** * Hash tags *)

(** The text before and after the first [c]. *)
Fixpoint split_char (c : Z) (l : bytes) : option (bytes * bytes) :=
  match l with
  | [] => None
  | b :: l =>
    if b =? c then Some ([], l)
    else ' (t, r) <- split_char c l;; Some (b :: t, r)
  end.

(** The part of a key that is hashed: between the first brace and the first
    closing brace behind it if that is not empty, else the whole key. *)
Definition hash_tag (key : bytes) : bytes :=
  match split_char 123 key with
  | Some (_, r) => match split_char 125 r with Some (t, _) => if decide (t = []) then key else t | None => key end
  | None => key
  end.

Lemma split_char_Some c l t r : split_char c l = Some (t, r) -> l = t ++ c :: r.
Proof.
  revert t. induction l as [|b l IH]; intros t; cbn [split_char]; [done|].
  destruct (Z.eqb_spec b c) as [->|Hne]; [by intros [= <- <-]|].
  destruct (split_char c l) as [[t' r']|]; [|done]. cbn [obind]. intros [= <- <-]. by rewrite (IH t').
Qed.

Lemma scan_char_spec A l c :
  scan_char (length l) (A ++ l) (msize A) c =
    Some (msize A + match split_char c l with Some (t, _) => msize t | None => msize l end).
Proof.
  revert A. induction l as [|b l IH]; intros A; cbn [length scan_char split_char].
  { by rewrite msize_nil, Z.add_0_r. }
  rewrite (load8_at A b l) by done. cbn [obind]. destruct (Z.eqb_spec b c) as [->|Hne].
  { by rewrite msize_nil, Z.add_0_r. }
  pose proof (IH (A ++ [b])) as E. rewrite msize_app, msize_cons, msize_nil, (Z.add_0_r 1) in E.
  replace (A ++ b :: l) with ((A ++ [b]) ++ l) by (by lsimpl). rewrite E. f_equal.
  destruct (split_char c l) as [[t r]|]; cbn [obind]; rewrite msize_cons; lia.
Qed.

Lemma split_char_lt c l t r : split_char c l = Some (t, r) -> msize t < msize l.
Proof. intros ->%split_char_Some. rewrite msize_app, msize_cons. pose proof (msize_nonneg r). lia. Qed.

Lemma key_hash_slot_spec key :
  Forall is_byte key -> keyHashSlot key (msize key) = Some (Z.land (crc16_ref 0 (hash_tag key)) 16383).
Proof.
  intros Hk. unfold keyHashSlot, hash_tag. pose proof (scan_char_spec [] key 123) as E.
  rewrite msize_nil in E. cbn [app] in E. unfold msize at 1. rewrite Nat2Z.id, E. cbn [obind]. rewrite Z.add_0_l. clear E.
  assert (Ew : crc16 key 0 (msize key) = Some (crc16_ref 0 key)).
  { pose proof (crc16_spec [] key [] Hk) as E. by rewrite app_nil_r in E. }
  destruct (split_char 123 key) as [[t r]|] eqn:Es; [|by rewrite Z.eqb_refl, Ew].
  rewrite (proj2 (Z.eqb_neq _ _)) by (apply split_char_lt in Es; lia).
  apply split_char_Some in Es. assert (Hr : msize key = msize t + 1 + msize r).
  { rewrite Es, msize_app, msize_cons. lia. }
  pose proof (scan_char_spec (t ++ [123]) r 125) as E. rewrite msize_app, msize_cons, msize_nil, (Z.add_0_r 1) in E.
  replace ((t ++ [123]) ++ r) with key in E by (by rewrite Es; lsimpl).
  replace (Z.to_nat (msize key - (msize t + 1))) with (length r) by (unfold msize in *; lia).
  rewrite E. cbn [obind]. clear E. pose proof (msize_nonneg r).
  destruct (split_char 125 r) as [[u w]|] eqn:Eu.
  - pose proof (split_char_lt _ _ _ _ Eu). pose proof (msize_nonneg u).
    rewrite (proj2 (Z.eqb_neq _ (msize key))) by lia. cbn [orb].
    destruct (decide (u = [])) as [->|Hu].
    { rewrite msize_nil, Z.add_0_r, Z.eqb_refl, Ew. done. }
    rewrite (proj2 (Z.eqb_neq _ _)); [|destruct u; [done|rewrite msize_cons; pose proof (msize_nonneg u); lia]].
    apply split_char_Some in Eu. subst r. rewrite Es in Hk |- *.
    apply Forall_app in Hk as [_ [_ [Hu' _]%Forall_app]%Forall_cons_iff].
    pose proof (crc16_spec (t ++ [123]) u (125 :: w) Hu') as E. rewrite msize_app, msize_cons, msize_nil, (Z.add_0_r 1) in E.
    replace ((t ++ [123]) ++ u ++ 125 :: w) with (t ++ 123 :: u ++ 125 :: w) in E by (by lsimpl).
    replace (msize t + 1 + msize u - msize t - 1) with (msize u) by lia. by rewrite E.
  - rewrite (proj2 (Z.eqb_eq _ (msize key))) by lia. cbn [orb]. by rewrite Ew.
Qed.

(** * Theorems *)

(** The table driven [crc16] computes, for every byte string inside a
    block, the shift register checksum with polynomial 0x1021 and initial
    value 0, most significant bit first. *)
Theorem crc16_is_shift_register (A bs C : bytes) :
  Forall is_byte bs -> crc16 (A ++ bs ++ C) (msize A) (msize bs) = Some (crc16_ref 0 bs).
Proof. apply crc16_spec. Qed.

Lemma crc16_is_shift_register_witness :
  crc16 ([] ++ [49; 50; 51; 52; 53; 54; 55; 56; 57] ++ []) 0 9 = Some (crc16_ref 0 [49; 50; 51; 52; 53; 54; 55; 56; 57]).
Proof. apply (crc16_is_shift_register [] [49; 50; 51; 52; 53; 54; 55; 56; 57] []). by repeat constructor. Defined.

(** C31. The table driven [crc64] computes the shift register checksum with
    the reflection of the polynomial 0xad93d23594c935a9, continuing from any
    register value; checksums of concatenated buffers compose, and the
    checksum of "123456789" from 0 is the documented one. *)
Theorem crc64_is_shift_register (c : Z) (bs bs' : bytes) :
  Forall is_byte bs -> Forall is_byte bs' ->
  crc64 c bs (msize bs) = Some (crc64_ref c bs) /\
  (r <- crc64 c bs (msize bs);; crc64 r bs' (msize bs')) = crc64 c (bs ++ bs') (msize (bs ++ bs')) /\
  reflect64 0xad93d23594c935a9 = 0x95AC9329AC4BC9B5 /\
  crc64 0 [49; 50; 51; 52; 53; 54; 55; 56; 57] 9 = Some 0xe9c6d914c4b8d9ca.
Proof.
  intros Hb Hb'. assert (E : forall c bs, Forall is_byte bs -> crc64 c bs (msize bs) = Some (crc64_ref c bs)).
  { intros c0 bs0 H0. unfold crc64, msize. rewrite Nat2Z.id. pose proof (crc64_loop_ref [] bs0 [] c0 H0) as E.
    by rewrite app_nil_r in E. }
  split; [by apply E|]. split; [|by vm_compute].
  rewrite E by done. cbn [obind]. rewrite !E by (done || by apply Forall_app). f_equal.
  unfold crc64_ref. by rewrite foldl_app.
Qed.

Lemma crc64_is_shift_register_witness :
  crc64 5 [1; 2] 2 = Some (crc64_ref 5 [1; 2]) /\
  (r <- crc64 5 [1; 2] 2;; crc64 r [3] 1) = crc64 5 [1; 2; 3] 3 /\
  reflect64 0xad93d23594c935a9 = 0x95AC9329AC4BC9B5 /\
  crc64 0 [49; 50; 51; 52; 53; 54; 55; 56; 57] 9 = Some 0xe9c6d914c4b8d9ca.
Proof. apply (crc64_is_shift_register 5 [1; 2] [3]); by repeat constructor. Defined.

(** The specification in the header of crc64.c gives the register an
    initial exclusive or with all ones; with it the check value of that same
    specification is not obtained. *)
Theorem crc64_header_init_is_wrong :
  crc64 0xffffffffffffffff [49; 50; 51; 52; 53; 54; 55; 56; 57] 9 <> Some 0xe9c6d914c4b8d9ca.
Proof. by vm_compute. Qed.

(** The hash slot of a key is the checksum of its hash tag modulo 16384:
    it is always a slot, and keys with the same tag share it. *)
Theorem key_hash_slot_tag (key key' : bytes) :
  Forall is_byte key -> Forall is_byte key' -> hash_tag key = hash_tag key' ->
  exists slot, keyHashSlot key (msize key) = Some slot /\ keyHashSlot key' (msize key') = Some slot /\
    slot = crc16_ref 0 (hash_tag key) mod 16384 /\ 0 <= slot < 16384.
Proof.
  intros Hk Hk' E. exists (Z.land (crc16_ref 0 (hash_tag key)) 16383).
  split; [by apply key_hash_slot_spec|]. split; [rewrite E; by apply key_hash_slot_spec|].
  change 16383 with (Z.ones 14). rewrite Z.land_ones by lia. split; [done|]. apply Z.mod_pos_bound. lia.
Qed.

(** The keys "{u1}a" and "b{u1}". *)
Lemma key_hash_slot_tag_witness :
  exists slot, keyHashSlot [123; 117; 49; 125; 97] 5 = Some slot /\ keyHashSlot [98; 123; 117; 49; 125] 5 = Some slot /\
    slot = crc16_ref 0 [117; 49] mod 16384 /\ 0 <= slot < 16384.
Proof.
  apply (key_hash_slot_tag [123; 117; 49; 125; 97] [98; 123; 117; 49; 125]); [by repeat constructor..|by vm_compute].
Defined.
