(* ===== verification/Dict.v ===== *)
(** Hash tables with incremental rehashing: dict.c and dict.h.

    A chain of [dictEntry] is the list of its key/value pairs, a table the
    list of its chains; [NULL] is the empty table.  An entry pointer is the
    table, bucket and position of the entry.  Bucket accesses are bounds
    checked, a failed [assert] and signed overflow are [None].  The hash and
    comparison functions of a [dictType] are a class; key and value copies
    are values, so the duplication and destruction hooks have no effect here. *)

From S2P Require Import Prelude Util.

Definition DICT_OK := 0.
Definition DICT_ERR := 1.
Definition DICT_HT_INITIAL_SIZE := 4.
Definition LONG_MAX := 2 ^ 63 - 1.

(** ** Hash functions *)

(** Thomas Wang's 32 bit mix function. *)
Definition dictIntHashFunction (key : Z) : Z :=
  let key := uint 32 (key + uint 32 (Z.lnot (uint 32 (Z.shiftl key 15)))) in
  let key := Z.lxor key (Z.shiftr key 10) in
  let key := uint 32 (key + uint 32 (Z.shiftl key 3)) in
  let key := Z.lxor key (Z.shiftr key 6) in
  let key := uint 32 (key + uint 32 (Z.lnot (uint 32 (Z.shiftl key 11)))) in
  Z.lxor key (Z.shiftr key 16).

Definition dictIdentityHashFunction (key : Z) : Z := key.

(** [dict_hash_function_seed] is a static variable: the hash functions get
    its value, the setter returns the new one. *)
Definition dictSetHashFunctionSeed (seed : Z) : Z := seed.
Definition dictGetHashFunctionSeed (dict_hash_function_seed : Z) : Z := dict_hash_function_seed.

(** MurmurHash2 constants and the mixing of one 4 byte group. *)
Definition murmur_m := 0x5bd1e995.

Definition murmur_round `{Host} (h : Z) (group : bytes) : Z :=
  let k := host_decode group in
  let k := uint 32 (k * murmur_m) in
  let k := Z.lxor k (Z.shiftr k 24) in
  let k := uint 32 (k * murmur_m) in
  Z.lxor (uint 32 (h * murmur_m)) k.

Fixpoint murmur_loop `{Host} (fuel : nat) (data : bytes) (p len h : Z) : option (Z * Z * Z) :=
  match fuel with
  | O => None
  | S fuel =>
    if len >=? 4 then
      group <- load data p 4;;
      murmur_loop fuel data (p + 4) (len - 4) (murmur_round h group)
    else Some (p, len, h)
  end.

Definition dictGenHashFunction `{Host} (dict_hash_function_seed : Z) (key : bytes) (len : Z) : option Z :=
  let h := Z.lxor dict_hash_function_seed (uint 32 len) in
  ' (data, len, h) <- murmur_loop (S (Z.to_nat len)) key 0 len h;;
  h <- (if len =? 3 then b <- load8 key (data + 2);; Some (Z.lxor h (Z.shiftl b 16)) else Some h);;
  h <- (if (len =? 3) || (len =? 2) then b <- load8 key (data + 1);; Some (Z.lxor h (Z.shiftl b 8)) else Some h);;
  h <- (if (len =? 3) || (len =? 2) || (len =? 1)
        then b <- load8 key data;; Some (uint 32 (Z.lxor h b * murmur_m)) else Some h);;
  let h := Z.lxor h (Z.shiftr h 13) in
  let h := uint 32 (h * murmur_m) in
  Some (Z.lxor h (Z.shiftr h 15)).

(** [while (len--)]: case insensitive, based on the djb hash. *)
Fixpoint genCaseHash_loop (len : nat) (buf : bytes) (p hash : Z) : option Z :=
  match len with
  | O => Some hash
  | S len =>
    b <- load8 buf p;;
    genCaseHash_loop len buf (p + 1) (uint 32 (uint 32 (uint 32 (Z.shiftl hash 5) + hash) + tolower b))
  end.

Definition dictGenCaseHashFunction (dict_hash_function_seed : Z) (buf : bytes) (len : Z) : option Z :=
  genCaseHash_loop (Z.to_nat len) buf 0 dict_hash_function_seed.

(** ** Data *)

(** What a [dictType] provides. *)
Class dictType (K : Type) := {
  hashFunction : K -> Z;
  keyCompare : K -> K -> bool
}.

(** What the table relies on: comparison of keys by value, 32 bit hashes. *)
Class DictTypeOk (K : Type) `{dictType K} := {
  keyCompare_spec k k' : reflect (k = k') (keyCompare k k');
  hashFunction_range k : 0 <= hashFunction k < 2 ^ 32
}.

Section Dict.
Context {K V : Type} `{dictType K}.

Abbreviation chain := (list (K * V)).

Record dictht := mkHt { table : list chain; size : Z; sizemask : Z; used : Z }.

Record dict := mkDict { ht0 : dictht; ht1 : dictht; rehashidx : Z; iterators : Z }.

(** A [dictEntry *]: which table, which bucket, which position in the chain. *)
Record entry := mkEntry { e_table : Z; e_index : Z; e_pos : nat }.

Definition dictIsRehashing (d : dict) : bool := negb (rehashidx d =? -1).
Definition dictSize (d : dict) : Z := uint 64 (used (ht0 d) + used (ht1 d)).
Definition dictSlots (d : dict) : Z := uint 64 (size (ht0 d) + size (ht1 d)).
Definition dictHashKey (k : K) : Z := hashFunction k.
Definition dictCompareKeys (k k' : K) : bool := keyCompare k k'.

(** [ht->table[i]] as a value and as a target. *)
Definition bucket (ht : dictht) (i : Z) : option chain :=
  if 0 <=? i then table ht !! Z.to_nat i else None.

Definition set_bucket (ht : dictht) (i : Z) (c : chain) : option dictht :=
  if (0 <=? i) && (i <? msize (table ht))
  then Some (mkHt (<[Z.to_nat i := c]> (table ht)) (size ht) (sizemask ht) (used ht))
  else None.

Definition add_used (ht : dictht) (n : Z) : dictht :=
  mkHt (table ht) (size ht) (sizemask ht) (uint 64 (used ht + n)).

(** [d->ht[table]] *)
Definition ht (d : dict) (t : Z) : dictht := if t =? 0 then ht0 d else ht1 d.
Definition set_ht (d : dict) (t : Z) (h : dictht) : dict :=
  if t =? 0 then mkDict h (ht1 d) (rehashidx d) (iterators d)
  else mkDict (ht0 d) h (rehashidx d) (iterators d).

(** ** Creation and resizing *)

Definition _dictReset : dictht := mkHt [] 0 0 0.

Definition _dictInit : dict := mkDict _dictReset _dictReset (-1) 0.
Definition dictCreate : dict := _dictInit.

(** [while(1) { if (i >= size) return i; i *= 2; }] *)
Fixpoint nextPower_loop (fuel : nat) (i size : Z) : option Z :=
  match fuel with
  | O => None
  | S fuel => if i >=? size then Some i else nextPower_loop fuel (uint 64 (i * 2)) size
  end.

Definition _dictNextPower (size : Z) : option Z :=
  if size >=? LONG_MAX then Some LONG_MAX else nextPower_loop 64 DICT_HT_INITIAL_SIZE size.

(** Returns the dictionary and [DICT_OK] or [DICT_ERR]. *)
Definition dictExpand (d : dict) (size : Z) : option (dict * Z) :=
  realsize <- _dictNextPower size;;
  if dictIsRehashing d || (used (ht0 d) >? size) then Some (d, DICT_ERR) else
  let n := mkHt (replicate (Z.to_nat realsize) []) realsize (realsize - 1) 0 in
  match table (ht0 d) with
  | [] => Some (mkDict n (ht1 d) (rehashidx d) (iterators d), DICT_OK)
  | _ => Some (mkDict (ht0 d) n 0 (iterators d), DICT_OK)
  end.

(** [dict_can_resize] is a static variable, here an argument. *)
Definition dictEnableResize : bool := true.
Definition dictDisableResize : bool := false.
Definition dict_force_resize_ratio := 5.

Definition dictResize (dict_can_resize : bool) (d : dict) : option (dict * Z) :=
  if negb dict_can_resize || dictIsRehashing d then Some (d, DICT_ERR) else
  let minimal := sint 32 (used (ht0 d)) in
  let minimal := if minimal <? DICT_HT_INITIAL_SIZE then DICT_HT_INITIAL_SIZE else minimal in
  dictExpand d (uint 64 minimal).

(** ** Rehashing *)

(** [while(d->ht[0].table[d->rehashidx] == NULL) d->rehashidx++;] *)
Fixpoint skip_empty (fuel : nat) (h : dictht) (idx : Z) : option Z :=
  match fuel with
  | O => None
  | S fuel =>
    c <- bucket h idx;;
    match c with
    | [] => idx <- int_arith (idx + 1);; skip_empty fuel h idx
    | _ => Some idx
    end
  end.

(** [while(de) {...}]: move the keys of a bucket from [h0] to [h1]. *)
Fixpoint move_bucket (de : chain) (h0 h1 : dictht) : option (dictht * dictht) :=
  match de with
  | [] => Some (h0, h1)
  | (k, v) :: nextde =>
    let h := uint 32 (Z.land (dictHashKey k) (sizemask h1)) in
    next <- bucket h1 h;;
    h1 <- set_bucket h1 h ((k, v) :: next);;
    move_bucket nextde (add_used h0 (-1)) (add_used h1 1)
  end.

(** [while(n--) {...}]; returns the dictionary and the return value. *)
Fixpoint dictRehash_loop (n : nat) (d : dict) : option (dict * Z) :=
  match n with
  | O => Some (d, 1)
  | S n =>
    if used (ht0 d) =? 0 then Some (mkDict (ht1 d) _dictReset (-1) (iterators d), 0)
    else if size (ht0 d) >? uint 32 (rehashidx d) then
      idx <- skip_empty (S (length (table (ht0 d)))) (ht0 d) (rehashidx d);;
      de <- bucket (ht0 d) idx;;
      ' (h0, h1) <- move_bucket de (ht0 d) (ht1 d);;
      h0 <- set_bucket h0 idx [];;
      idx <- int_arith (idx + 1);;
      dictRehash_loop n (mkDict h0 h1 idx (iterators d))
    else None
  end.

Definition dictRehash (d : dict) (n : nat) : option (dict * Z) :=
  if negb (dictIsRehashing d) then Some (d, 0) else dictRehash_loop n d.

(** [while(dictRehash(d,100)) {...}]; [clock] are the later readings of
    [timeInMilliseconds()], one per round. *)
Fixpoint rehashMilliseconds_loop (clock : list Z) (d : dict) (start ms rehashes : Z) : option (dict * Z) :=
  ' (d, r) <- dictRehash d 100;;
  if r =? 0 then Some (d, rehashes) else
  match clock with
  | [] => None
  | now :: clock =>
    rehashes <- int_arith (rehashes + 100);;
    if now - start >? ms then Some (d, rehashes)
    else rehashMilliseconds_loop clock d start ms rehashes
  end.

Definition dictRehashMilliseconds (clock : list Z) (d : dict) (ms : Z) : option (dict * Z) :=
  match clock with
  | [] => None
  | start :: clock => rehashMilliseconds_loop clock d start ms 0
  end.

Definition _dictRehashStep (d : dict) : option dict :=
  if iterators d =? 0 then ' (d, _) <- dictRehash d 1;; Some d else Some d.

(** ** Lookup and update *)

Definition _dictExpandIfNeeded (dict_can_resize : bool) (d : dict) : option (dict * Z) :=
  if dictIsRehashing d then Some (d, DICT_OK)
  else if size (ht0 d) =? 0 then dictExpand d DICT_HT_INITIAL_SIZE
  else if (used (ht0 d) >=? size (ht0 d)) &&
          (dict_can_resize || (used (ht0 d) / size (ht0 d) >? dict_force_resize_ratio))
  then dictExpand d (uint 64 (used (ht0 d) * 2))
  else Some (d, DICT_OK).

(** Position of a key in a chain. *)
Fixpoint find_chain (key : K) (c : chain) : option nat :=
  match c with
  | [] => None
  | (k, _) :: c => if dictCompareKeys key k then Some O else S <$> find_chain key c
  end.

Definition hash_index (h : dictht) (key : K) : Z := uint 32 (Z.land (dictHashKey key) (sizemask h)).

(** The index for a new entry, [-1] if the key exists (an [int]). *)
Definition _dictKeyIndex (dict_can_resize : bool) (d : dict) (key : K) : option (dict * Z) :=
  ' (d, r) <- _dictExpandIfNeeded dict_can_resize d;;
  if r =? DICT_ERR then Some (d, -1) else
  let idx := hash_index (ht0 d) key in
  he <- bucket (ht0 d) idx;;
  match find_chain key he with
  | Some _ => Some (d, -1)
  | None =>
    if negb (dictIsRehashing d) then Some (d, sint 32 idx) else
    let idx := hash_index (ht1 d) key in
    he <- bucket (ht1 d) idx;;
    match find_chain key he with
    | Some _ => Some (d, -1)
    | None => Some (d, sint 32 idx)
    end
  end.

(** The value of a new entry is not initialised: it is [uninit]. *)
Definition dictAddRaw (dict_can_resize : bool) (uninit : V) (d : dict) (key : K)
    : option (dict * option entry) :=
  d <- (if dictIsRehashing d then _dictRehashStep d else Some d);;
  ' (d, index) <- _dictKeyIndex dict_can_resize d key;;
  if index =? -1 then Some (d, None) else
  let t := if dictIsRehashing d then 1 else 0 in
  next <- bucket (ht d t) index;;
  h <- set_bucket (ht d t) index ((key, uninit) :: next);;
  Some (set_ht d t (add_used h 1), Some (mkEntry t index 0)).

(** [entry->v.val = val] and [dictGetVal(entry)] *)
Definition dictSetVal (d : dict) (e : entry) (val : V) : option dict :=
  c <- bucket (ht d (e_table e)) (e_index e);;
  kv <- c !! e_pos e;;
  h <- set_bucket (ht d (e_table e)) (e_index e) (<[e_pos e := (fst kv, val)]> c);;
  Some (set_ht d (e_table e) h).

Definition dictGetVal (d : dict) (e : entry) : option V :=
  c <- bucket (ht d (e_table e)) (e_index e);;
  kv <- c !! e_pos e;;
  Some (snd kv).

Definition dictAdd (dict_can_resize : bool) (uninit : V) (d : dict) (key : K) (val : V) : option (dict * Z) :=
  ' (d, e) <- dictAddRaw dict_can_resize uninit d key;;
  match e with
  | None => Some (d, DICT_ERR)
  | Some e => d <- dictSetVal d e val;; Some (d, DICT_OK)
  end.

Definition dictFind (d : dict) (key : K) : option (dict * option entry) :=
  if size (ht0 d) =? 0 then Some (d, None) else
  d <- (if dictIsRehashing d then _dictRehashStep d else Some d);;
  let idx := hash_index (ht0 d) key in
  he <- bucket (ht0 d) idx;;
  match find_chain key he with
  | Some p => Some (d, Some (mkEntry 0 idx p))
  | None =>
    if negb (dictIsRehashing d) then Some (d, None) else
    let idx := hash_index (ht1 d) key in
    he <- bucket (ht1 d) idx;;
    Some (d, match find_chain key he with Some p => Some (mkEntry 1 idx p) | None => None end)
  end.

Definition dictFetchValue (d : dict) (key : K) : option (dict * option V) :=
  ' (d, he) <- dictFind d key;;
  match he with
  | None => Some (d, None)
  | Some he => v <- dictGetVal d he;; Some (d, Some v)
  end.

(** [1] if the key was added, [0] if its value was replaced. *)
Definition dictReplace (dict_can_resize : bool) (uninit : V) (d : dict) (key : K) (val : V) : option (dict * Z) :=
  ' (d, r) <- dictAdd dict_can_resize uninit d key val;;
  if r =? DICT_OK then Some (d, 1) else
  ' (d, e) <- dictFind d key;;
  match e with
  | None => None
  | Some e => d <- dictSetVal d e val;; Some (d, 0)
  end.

Definition dictReplaceRaw (dict_can_resize : bool) (uninit : V) (d : dict) (key : K) : option (dict * option entry) :=
  ' (d, e) <- dictFind d key;;
  match e with
  | Some e => Some (d, Some e)
  | None => dictAddRaw dict_can_resize uninit d key
  end.

(** Unlink the entry at a position of a chain. *)
Definition unlink (d : dict) (t idx : Z) (p : nat) : option dict :=
  c <- bucket (ht d t) idx;;
  h <- set_bucket (ht d t) idx (delete p c);;
  Some (set_ht d t (add_used h (-1))).

Definition dictGenericDelete (d : dict) (key : K) (nofree : bool) : option (dict * Z) :=
  if size (ht0 d) =? 0 then Some (d, DICT_ERR) else
  d <- (if dictIsRehashing d then _dictRehashStep d else Some d);;
  let idx := hash_index (ht0 d) key in
  he <- bucket (ht0 d) idx;;
  match find_chain key he with
  | Some p => d <- unlink d 0 idx p;; Some (d, DICT_OK)
  | None =>
    if negb (dictIsRehashing d) then Some (d, DICT_ERR) else
    let idx := hash_index (ht1 d) key in
    he <- bucket (ht1 d) idx;;
    match find_chain key he with
    | Some p => d <- unlink d 1 idx p;; Some (d, DICT_OK)
    | None => Some (d, DICT_ERR)
    end
  end.

Definition dictDelete (d : dict) (key : K) : option (dict * Z) := dictGenericDelete d key false.
Definition dictDeleteNoFree (d : dict) (key : K) : option (dict * Z) := dictGenericDelete d key true.

(** [for (i = 0; i < ht->size && ht->used > 0; i++)]: the entries freed. *)
Fixpoint clear_loop (n : nat) (h : dictht) (i : Z) (freed : chain) : option chain :=
  match n with
  | O => Some freed
  | S n =>
    if used h >? 0 then
      he <- bucket h i;;
      clear_loop n (add_used h (- msize he)) (i + 1) (freed ++ he)
    else Some freed
  end.

(** The callback for long operations does not touch the dictionary. *)
Definition _dictClear (h : dictht) : option (dictht * chain) :=
  freed <- clear_loop (Z.to_nat (size h)) h 0 [];;
  Some (_dictReset, freed).

Definition dictEmpty (d : dict) : option (dict * chain) :=
  ' (h0, f0) <- _dictClear (ht0 d);;
  ' (h1, f1) <- _dictClear (ht1 d);;
  Some (mkDict h0 h1 (-1) 0, f0 ++ f1).

Definition dictRelease (d : dict) : option chain :=
  ' (_, f0) <- _dictClear (ht0 d);;
  ' (_, f1) <- _dictClear (ht1 d);;
  Some (f0 ++ f1).
End Dict.

Arguments dictht : clear implicits.
Arguments dict : clear implicits.
