(* ===== verification/DictMap.v ===== *)
(** Hash tables implement finite maps: the invariant of dict.c, its
    preservation by every operation, rehashing steps included, and the
    refinement of a finite map. *)

From stdpp Require Import gmap.
From S2P Require Import Prelude Util Dict.
Local Open Scope Z_scope.

(** * Chains and tables *)

Section Tables.
Context {A : Type}.

(** One bucket inside the concatenation of all. *)
Lemma concat_bucket (t : list (list A)) i c :
  t !! i = Some c -> exists l1 l2, concat t = l1 ++ c ++ l2 /\ forall c', concat (<[i := c']> t) = l1 ++ c' ++ l2.
Proof.
  revert i. induction t as [|b t IH]; intros [|i] E; try done.
  - injection E as ->. exists [], (concat t). done.
  - destruct (IH i E) as (l1 & l2 & E1 & E2). exists (b ++ l1), l2. cbn. rewrite E1. split; [by rewrite <- app_assoc|].
    intros c'. rewrite E2. by rewrite <- app_assoc.
Qed.

Lemma concat_insert_perm (t : list (list A)) i c c' :
  t !! i = Some c -> concat (<[i := c']> t) ++ c ≡ₚ concat t ++ c'.
Proof.
  intros E. destruct (concat_bucket t i c E) as (l1 & l2 & -> & ->).
  rewrite <- !app_assoc. apply Permutation_app_head.
  rewrite (Permutation_app_comm l2 c'), (Permutation_app_comm l2 c), !app_assoc. apply Permutation_app_tail, Permutation_app_comm.
Qed.

Lemma elem_of_concat (x : A) (t : list (list A)) : x ∈ concat t <-> exists i c, t !! i = Some c /\ x ∈ c.
Proof.
  rewrite list_elem_of_In, in_concat. split.
  - intros (c & Hc%list_elem_of_In & Hx%list_elem_of_In). apply list_elem_of_lookup in Hc as (i & Hi). eauto.
  - intros (i & c & Hi & Hx). exists c. split; apply list_elem_of_In; [by eapply list_elem_of_lookup_2|done].
Qed.

Lemma concat_replicate_nil n : concat (replicate n (@nil A)) = [].
Proof. induction n; [done|]. cbn. done. Qed.
End Tables.

Section Wf.
Context {K V : Type} `{Countable K, dictType K, !DictTypeOk K}.
Implicit Types (h : dictht K V) (d : dict K V) (c : list (K * V)) (m : gmap K V).

(** A hash table with buckets: a power of two of them, every key in the
    bucket of its hash, and the number of entries. *)
Definition ht_ok (h : dictht K V) : Prop :=
  exists k, 2 <= k <= 30 /\ size h = 2 ^ k /\ sizemask h = 2 ^ k - 1 /\ msize (table h) = 2 ^ k /\
    used h = msize (concat (table h)) /\ used h < 2 ^ 63 /\
    forall i c e, table h !! i = Some c -> e ∈ c -> hashFunction e.1 mod 2 ^ k = Z.of_nat i.

Definition entries (d : dict K V) : list (K * V) := concat (table (ht0 d)) ++ concat (table (ht1 d)).

(** Either one table (or none at all), or two during a rehashing, with the
    buckets before [rehashidx] already moved. *)
Definition dict_ok (d : dict K V) : Prop :=
  (rehashidx d = -1 /\ (ht0 d = _dictReset \/ ht_ok (ht0 d)) /\ ht1 d = _dictReset) \/
  (0 <= rehashidx d <= size (ht0 d) /\ ht_ok (ht0 d) /\ ht_ok (ht1 d) /\
   forall i, Z.of_nat i < rehashidx d -> table (ht0 d) !! i = Some []).

(** [d] represents the finite map [m]. *)
Definition dict_repr (d : dict K V) (m : gmap K V) : Prop :=
  dict_ok d /\ entries d ≡ₚ map_to_list m /\ Z.of_nat (base.size m) < 2 ^ 62.

(** ** Indexes *)

Lemma land_mask x k : 0 <= k -> Z.land x (2 ^ k - 1) = x mod 2 ^ k.
Proof. intros. replace (2 ^ k - 1) with (Z.ones k) by (rewrite Z.ones_equiv; lia). by apply Z.land_ones. Qed.

Lemma hash_index_spec h key k :
  0 <= k <= 30 -> sizemask h = 2 ^ k - 1 ->
  hash_index h key = hashFunction key mod 2 ^ k /\ 0 <= hashFunction key mod 2 ^ k < 2 ^ k /\ 2 ^ k <= 2 ^ 30.
Proof.
  intros Hk Hm. unfold hash_index, dictHashKey. rewrite Hm, land_mask by lia.
  pose proof (Z.mod_pos_bound (hashFunction key) (2 ^ k) ltac:(lia)).
  pose proof (Z.pow_le_mono_r 2 k 30 ltac:(lia) ltac:(lia)). rewrite uint_id by lia. done.
Qed.

Lemma bucket_Some h i : 0 <= i < msize (table h) -> exists c, bucket h i = Some c /\ table h !! Z.to_nat i = Some c.
Proof.
  intros Hi. unfold bucket. rewrite (proj2 (Z.leb_le _ _)) by lia.
  destruct (lookup_lt_is_Some_2 (table h) (Z.to_nat i)) as [c E]; [unfold msize in Hi; lia|]. eauto.
Qed.

Lemma bucket_inv h i c : bucket h i = Some c -> 0 <= i < msize (table h) /\ table h !! Z.to_nat i = Some c.
Proof.
  unfold bucket. destruct (Z.leb_spec 0 i) as [Hi|]; [|done]. intros E. split; [|done].
  apply lookup_lt_Some in E. unfold msize. lia.
Qed.

Lemma set_bucket_Some h i c :
  0 <= i < msize (table h) ->
  set_bucket h i c = Some (mkHt (<[Z.to_nat i := c]> (table h)) (size h) (sizemask h) (used h)).
Proof. intros Hi. unfold set_bucket. by bdecide. Qed.

(** ** Search in one table *)

Lemma find_chain_spec key c :
  match find_chain key c with
  | Some p => exists v, c !! p = Some (key, v)
  | None => forall v, (key, v) ∉ c
  end.
Proof.
  induction c as [|[k v] c IH]; cbn [find_chain]; [intros v; apply not_elem_of_nil|].
  unfold dictCompareKeys. destruct (keyCompare_spec key k) as [<-|Hne]; [by exists v|].
  destruct (find_chain key c) as [p|]; cbn; [done|].
  intros w [[= ? ?]|?]%elem_of_cons; [done|by eapply IH].
Qed.

(** The bucket of a key holds it if any does. *)
Lemma search_ok h key :
  ht_ok h -> exists c, bucket h (hash_index h key) = Some c /\ table h !! Z.to_nat (hash_index h key) = Some c /\
    0 <= hash_index h key < msize (table h) /\ hash_index h key < 2 ^ 30 /\
    (find_chain key c = None -> forall v, (key, v) ∉ concat (table h)).
Proof.
  intros (k & Hk & Hs & Hm & Hl & Hu & _ & Hplace).
  destruct (hash_index_spec h key k ltac:(lia) Hm) as (E & Hr & Hp).
  destruct (bucket_Some h (hash_index h key)) as (c & Ec & Et); [lia|].
  exists c. split_and!; try done; try lia. intros Hn v (i & c' & Hi & Hv)%elem_of_concat.
  specialize (Hplace i c' (key, v) Hi Hv). cbn in Hplace. rewrite <- E in Hplace.
  rewrite Hplace, Nat2Z.id in Et. assert (c' = c) as -> by congruence.
  pose proof (find_chain_spec key c) as Hf. rewrite Hn in Hf. by apply (Hf v).
Qed.
(** ** Updates of one bucket *)

Lemma msize_perm {A} (l l' : list A) : l ≡ₚ l' -> msize l = msize l'.
Proof. intros E. unfold msize. by rewrite E. Qed.

Lemma ht_update h (i : nat) c c' n :
  ht_ok h -> table h !! i = Some c ->
  (forall e, e ∈ c' -> e ∈ c \/ Z.to_nat (hash_index h e.1) = i) ->
  n = used h + msize c' - msize c -> n < 2 ^ 63 ->
  ht_ok (mkHt (<[i := c']> (table h)) (size h) (sizemask h) n) /\
  concat (<[i := c']> (table h)) ++ c ≡ₚ concat (table h) ++ c'.
Proof.
  intros (k & Hk & Hs & Hm & Hl & Hu & Hb & Hplace) Hc Hc' -> Hn.
  pose proof (concat_insert_perm (table h) i c c' Hc) as Hp. split; [|done].
  exists k. cbn [size sizemask table used]. split_and!; try done; try lia.
  - unfold msize in *. by rewrite length_insert.
  - apply msize_perm in Hp. rewrite !msize_app in Hp. lia.
  - intros j cj e Hj He. destruct (decide (i = j)) as [<-|Hne].
    + rewrite list_lookup_insert_eq in Hj by (by eapply lookup_lt_Some). injection Hj as <-.
      destruct (Hc' e He) as [Hin|Hidx]; [by apply (Hplace i c)|].
      destruct (hash_index_spec h e.1 k ltac:(lia) Hm) as (E & Hr & _). lia.
    + rewrite list_lookup_insert_ne in Hj by done. by apply (Hplace j cj).
Qed.

Lemma ht_used_bound h : ht_ok h -> 0 <= used h < 2 ^ 63.
Proof. intros (k & _ & _ & _ & _ & -> & ? & _). pose proof (msize_nonneg (concat (table h))). lia. Qed.

Lemma perm_cancel {A} (X T c c' a a' r : list A) :
  X ++ c ≡ₚ T ++ c' -> c ≡ₚ a ++ r -> c' ≡ₚ a' ++ r -> a ++ X ≡ₚ a' ++ T.
Proof.
  intros E E1 E2. rewrite E1, E2, !app_assoc in E. apply Permutation_app_inv_r in E.
  by rewrite (Permutation_app_comm a X), (Permutation_app_comm a' T).
Qed.

(** Adding at the head of the bucket of the key. *)
Lemma ht_push h key v c :
  ht_ok h -> bucket h (hash_index h key) = Some c -> used h + 1 < 2 ^ 63 ->
  exists h', set_bucket h (hash_index h key) ((key, v) :: c) = Some h' /\
    ht_ok (add_used h' 1) /\ concat (table (add_used h' 1)) ≡ₚ (key, v) :: concat (table h) /\
    size h' = size h /\ sizemask h' = sizemask h /\ used h' = used h /\
    bucket h' (hash_index h key) = Some ((key, v) :: c).
Proof.
  intros Hok [Hi Hc]%bucket_inv Hu. rewrite set_bucket_Some by done. eexists. split; [done|].
  unfold add_used. cbn [size sizemask table used]. pose proof (ht_used_bound h Hok).
  rewrite uint_id by lia.
  destruct (ht_update h (Z.to_nat (hash_index h key)) c ((key, v) :: c) (used h + 1)) as [Hok' Hp]; try done.
  { intros e [->|He]%elem_of_cons; [by right|by left]. }
  { rewrite msize_cons. lia. }
  split_and!; try done.
  - by apply (perm_cancel _ _ c ((key, v) :: c) [] [(key, v)] c Hp).
  - unfold bucket. rewrite (proj2 (Z.leb_le _ _)) by lia. cbn [table].
    apply list_lookup_insert_eq. unfold msize in Hi. lia.
Qed.

Lemma delete_perm {A} (l : list A) p x : l !! p = Some x -> x :: delete p l ≡ₚ l.
Proof. intros E. by apply delete_Permutation in E as <-. Qed.

Lemma delete_insert_same {A} (l : list A) p x : delete p (<[p := x]> l) = delete p l.
Proof. revert p. induction l as [|y l IH]; intros [|p]; cbn; [done..|]. by f_equal. Qed.

Lemma ht_remove h i c p e :
  ht_ok h -> bucket h i = Some c -> c !! p = Some e ->
  exists h', set_bucket h i (delete p c) = Some h' /\
    ht_ok (add_used h' (-1)) /\ e :: concat (table (add_used h' (-1))) ≡ₚ concat (table h) /\ size h' = size h.
Proof.
  intros Hok [Hi Hc]%bucket_inv Hp. rewrite set_bucket_Some by done. eexists. split; [done|].
  unfold add_used. cbn [size sizemask table used]. pose proof (ht_used_bound h Hok).
  pose proof (delete_perm c p e Hp) as Hd. pose proof (msize_perm _ _ Hd) as Hsz. rewrite msize_cons in Hsz.
  assert (Hpos : 0 < used h).
  { destruct Hok as (k & _ & _ & _ & _ & -> & _). destruct (concat_bucket _ _ _ Hc) as (l1 & l2 & -> & _).
    rewrite !msize_app. pose proof (msize_nonneg l1). pose proof (msize_nonneg l2). pose proof (msize_nonneg (delete p c)). lia. }
  rewrite uint_id by lia.
  destruct (ht_update h (Z.to_nat i) c (delete p c) (used h + -1)) as [Hok' Hpm]; try done; try lia.
  { intros e' He'. left. rewrite <- Hd. by apply elem_of_cons; right. }
  split_and!; try done. by apply (perm_cancel _ _ c (delete p c) [e] [] (delete p c) Hpm).
Qed.

Lemma ht_setval h i c p key v0 v :
  ht_ok h -> bucket h i = Some c -> c !! p = Some (key, v0) ->
  exists h', set_bucket h i (<[p := (key, v)]> c) = Some h' /\ ht_ok h' /\ size h' = size h /\
    (key, v0) :: concat (table h') ≡ₚ (key, v) :: concat (table h).
Proof.
  intros Hok [Hi Hc]%bucket_inv Hp. rewrite set_bucket_Some by done. eexists. split; [done|].
  pose proof (ht_used_bound h Hok). pose proof (lookup_lt_Some _ _ _ Hp) as Hlt.
  destruct (ht_update h (Z.to_nat i) c (<[p := (key, v)]> c) (used h)) as [Hok' Hpm]; try done; try lia.
  { intros e (j & Hj)%list_elem_of_lookup. destruct (decide (p = j)) as [<-|Hne].
    - rewrite list_lookup_insert_eq in Hj by done. injection Hj as <-. right.
      destruct Hok as (k & Hk & _ & Hm & _ & _ & _ & Hplace).
      destruct (hash_index_spec h key k ltac:(lia) Hm) as (E & Hr & _). cbn. rewrite E.
      pose proof (Hplace _ _ (key, v0) Hc ltac:(by eapply list_elem_of_lookup_2)) as E'. cbn in E'. lia.
    - rewrite list_lookup_insert_ne in Hj by done. left. by eapply list_elem_of_lookup_2. }
  { unfold msize. rewrite length_insert. lia. }
  split_and!; try done. cbn [table].
  apply (perm_cancel _ _ c (<[p := (key, v)]> c) [(key, v0)] [(key, v)] (delete p c) Hpm).
  - by rewrite <- (delete_perm c p (key, v0) Hp) at 1.
  - rewrite <- (delete_perm (<[p := (key, v)]> c) p (key, v)) at 1 by (by apply list_lookup_insert_eq).
    cbn. apply perm_skip. by rewrite delete_insert_same.
Qed.
(** ** Rehashing *)

(** The loop over empty buckets stops at the first non-empty one. *)
Lemma skip_empty_spec fuel h idx :
  0 <= idx <= msize (table h) -> msize (table h) <= 2 ^ 30 -> concat (table h) <> [] ->
  (forall i, Z.of_nat i < idx -> table h !! i = Some []) ->
  msize (table h) - idx < Z.of_nat fuel ->
  exists j c, skip_empty fuel h idx = Some j /\ idx <= j < msize (table h) /\ bucket h j = Some c /\ c <> [] /\
    (forall i, Z.of_nat i < j -> table h !! i = Some []).
Proof.
  intros Hidx Hsz Hne. revert idx Hidx. induction fuel as [|fuel IH]; intros idx Hidx Hempty Hfuel; [lia|].
  cbn [skip_empty]. destruct (decide (idx = msize (table h))) as [->|Hlt].
  { exfalso. apply Hne. apply elem_of_nil_inv. intros x (i & c & Hi & Hx)%elem_of_concat.
    rewrite Hempty in Hi by (apply lookup_lt_Some in Hi; unfold msize; lia). injection Hi as <-.
    by apply not_elem_of_nil in Hx. }
  destruct (bucket_Some h idx) as (c & Ec & Et); [lia|]. rewrite Ec. cbn [obind].
  destruct c as [|e c].
  - rewrite int_arith_Some by lia. cbn [obind].
    destruct (IH (idx + 1)) as (j & c & Ej & Hj & Hc & Hcne & Hbefore); [lia| |lia|].
    { intros i Hi. destruct (decide (Z.of_nat i = idx)) as [<-|]; [by rewrite Nat2Z.id in Et|apply Hempty; lia]. }
    exists j, c. split_and!; try done; lia.
  - exists idx, (e :: c). split_and!; try done; lia.
Qed.

Lemma move_bucket_spec de h0 h1 :
  ht_ok h1 -> used h1 + msize de < 2 ^ 63 -> msize de <= used h0 < 2 ^ 63 ->
  exists h1', move_bucket de h0 h1 = Some (mkHt (table h0) (size h0) (sizemask h0) (used h0 - msize de), h1') /\
    ht_ok h1' /\ concat (table h1') ≡ₚ de ++ concat (table h1) /\ size h1' = size h1.
Proof.
  revert h0 h1. induction de as [|[k v] de IH]; intros h0 h1 Hok Hu1 Hu0; cbn [move_bucket].
  { exists h1. rewrite msize_nil, Z.sub_0_r. by destruct h0. }
  rewrite msize_cons in *. pose proof (msize_nonneg de).
  fold (hash_index h1 k). destruct (search_ok h1 k Hok) as (c & Ec & _). rewrite Ec. cbn [obind].
  destruct (ht_push h1 k v c Hok Ec ltac:(lia)) as (h1a & -> & Hok1 & Hp1 & Hs1 & _ & Hua & _). cbn [obind].
  pose proof (ht_used_bound _ Hok).
  destruct (IH (add_used h0 (-1)) (add_used h1a 1) Hok1) as (h1' & E & Hok' & Hp' & Hs').
  { cbn [add_used used]. rewrite Hua, uint_id by lia. lia. }
  { cbn [add_used used]. rewrite uint_id by lia. lia. }
  exists h1'. rewrite E. split_and!; try done.
  - unfold add_used. cbn [table size sizemask used]. rewrite uint_id by lia. do 3 f_equal. lia.
  - rewrite Hp', Hp1. cbn. by rewrite Permutation_middle.
  - by rewrite Hs'.
Qed.

Lemma ht_ok_size h : ht_ok h -> size h = msize (table h) /\ 4 <= size h <= 2 ^ 30 /\ table h <> [].
Proof.
  intros (k & Hk & -> & _ & Hl & _). pose proof (Z.pow_le_mono_r 2 k 30 ltac:(lia) ltac:(lia)).
  pose proof (Z.pow_le_mono_r 2 2 k ltac:(lia) ltac:(lia)). split_and!; try lia.
  intros E. rewrite E in Hl. rewrite msize_nil in Hl. lia.
Qed.

(** One round of [dictRehash] with entries left in the first table. *)
Lemma rehash_round d :
  0 <= rehashidx d <= size (ht0 d) -> ht_ok (ht0 d) -> ht_ok (ht1 d) ->
  (forall i, Z.of_nat i < rehashidx d -> table (ht0 d) !! i = Some []) ->
  used (ht0 d) <> 0 -> used (ht0 d) + used (ht1 d) < 2 ^ 63 ->
  exists d', (forall n, dictRehash_loop (S n) d = dictRehash_loop n d') /\
    dict_ok d' /\ rehashidx d < rehashidx d' /\ 0 <= rehashidx d' /\ size (ht0 d') = size (ht0 d) /\ size (ht1 d') = size (ht1 d) /\
    entries d' ≡ₚ entries d /\ iterators d' = iterators d.
Proof.
  intros Hidx Hok0 Hok1 Hempty Hne Hfit. destruct (ht_ok_size _ Hok0) as (Hs0 & Hr0 & _).
  pose proof (ht_used_bound _ Hok0). pose proof (ht_used_bound _ Hok1).
  assert (Hcne : concat (table (ht0 d)) <> []).
  { destruct Hok0 as (k & _ & _ & _ & _ & Hu & _). intros E. rewrite E, msize_nil in Hu. lia. }
  assert (Hlt : rehashidx d < size (ht0 d)).
  { destruct (decide (rehashidx d = size (ht0 d))) as [E|]; [|lia]. exfalso. apply Hcne.
    apply elem_of_nil_inv. intros x (i & c & Hi & Hx)%elem_of_concat.
    rewrite Hempty in Hi by (apply lookup_lt_Some in Hi; unfold msize in *; lia). injection Hi as <-.
    by apply not_elem_of_nil in Hx. }
  destruct (skip_empty_spec (S (length (table (ht0 d)))) (ht0 d) (rehashidx d)) as (j & c & Ej & Hj & Hc & Hcn & Hbefore);
    [lia|lia|done|done|unfold msize in *; lia|].
  destruct (bucket_inv _ _ _ Hc) as [Hjr Hct].
  assert (Hcu : msize c <= used (ht0 d)).
  { destruct Hok0 as (k & _ & _ & _ & _ & -> & _). destruct (concat_bucket _ _ _ Hct) as (l1 & l2 & -> & _).
    rewrite !msize_app. pose proof (msize_nonneg l1). pose proof (msize_nonneg l2). lia. }
  destruct (move_bucket_spec c (ht0 d) (ht1 d) Hok1 ltac:(lia) ltac:(lia)) as (h1' & Em & Hok1' & Hp1 & Hs1).
  set (h0' := mkHt (<[Z.to_nat j := []]> (table (ht0 d))) (size (ht0 d)) (sizemask (ht0 d)) (used (ht0 d) - msize c)).
  destruct (ht_update (ht0 d) (Z.to_nat j) c [] (used (ht0 d) - msize c)) as [Hok0' Hp0]; try done.
  { intros e He. by apply not_elem_of_nil in He. }
  { rewrite msize_nil. lia. }
  { pose proof (msize_nonneg c). lia. }
  exists (mkDict h0' h1' (j + 1) (iterators d)). cbn [rehashidx ht0 ht1 iterators h0' size].
  split_and!; try done; try lia.
  - intros n. cbn [dictRehash_loop]. rewrite (proj2 (Z.eqb_neq _ _)) by done.
    rewrite uint_id by lia. rewrite (proj2 (Z.gtb_lt _ _)) by lia. rewrite Ej. cbn [obind]. rewrite Hc. cbn [obind].
    rewrite Em. cbn [obind]. rewrite set_bucket_Some by done. cbn [obind table size sizemask used].
    rewrite int_arith_Some by lia. done.
  - right. cbn [rehashidx ht0 ht1 h0' size]. split_and!; try done; try lia.
    intros i Hi. unfold h0'. cbn [table]. destruct (decide (i = Z.to_nat j)) as [->|Hij].
    + apply list_lookup_insert_eq. by eapply lookup_lt_Some.
    + rewrite list_lookup_insert_ne by done. apply Hbefore. lia.
  - unfold entries. unfold h0'. cbn [ht0 ht1 table]. rewrite Hp1. rewrite app_assoc. rewrite Hp0. by rewrite app_nil_r.
Qed.
Lemma reset_entries : concat (table (@_dictReset K V)) = [].
Proof. done. Qed.

Lemma ht_ok_used h : ht_ok h -> used h = msize (concat (table h)).
Proof. by intros (k & _ & _ & _ & _ & -> & _). Qed.

Lemma rehashing_ok d : dict_ok d -> dictIsRehashing d = true ->
  0 <= rehashidx d <= size (ht0 d) /\ ht_ok (ht0 d) /\ ht_ok (ht1 d) /\
  forall i, Z.of_nat i < rehashidx d -> table (ht0 d) !! i = Some [].
Proof.
  unfold dictIsRehashing. intros [(E & _)|Hd] Hr; [|done]. by rewrite E in Hr.
Qed.

Lemma not_rehashing_ok d : dict_ok d -> dictIsRehashing d = false ->
  rehashidx d = -1 /\ (ht0 d = _dictReset \/ ht_ok (ht0 d)) /\ ht1 d = _dictReset.
Proof.
  unfold dictIsRehashing. intros [Hd|(Hi & _)] Hr; [done|]. bprop. lia.
Qed.

Lemma used_total d : dict_ok d -> used (ht0 d) + used (ht1 d) = msize (entries d) /\ 0 <= used (ht0 d) /\ 0 <= used (ht1 d).
Proof.
  intros Hd. unfold entries. rewrite msize_app.
  assert (Hu : forall h, h = _dictReset \/ ht_ok h -> used h = msize (concat (table h))) by (intros h [->|?]; [done|by apply ht_ok_used]).
  pose proof (msize_nonneg (concat (table (ht0 d)))). pose proof (msize_nonneg (concat (table (ht1 d)))).
  destruct Hd as [(_ & H0' & H1')|(_ & H0' & H1' & _)]; rewrite !Hu by auto; lia.
Qed.

Lemma repr_used d m : dict_repr d m -> used (ht0 d) + used (ht1 d) = Z.of_nat (base.size m) /\ 0 <= used (ht0 d) /\ 0 <= used (ht1 d).
Proof.
  intros (Hd & Hp & _). destruct (used_total d Hd) as (-> & ? & ?). split; [|done].
  rewrite (msize_perm _ _ Hp). unfold msize. by rewrite length_map_to_list.
Qed.

Lemma rehash_loop_spec n d m :
  dict_repr d m -> dictIsRehashing d = true ->
  exists d' r, dictRehash_loop n d = Some (d', r) /\ dict_repr d' m /\ iterators d' = iterators d /\
    r = (if dictIsRehashing d' then 1 else 0) /\
    (size (ht0 d) - rehashidx d < Z.of_nat n -> r = 0) /\
    (if dictIsRehashing d' then size (ht0 d') = size (ht0 d) /\ size (ht1 d') = size (ht1 d) else size (ht0 d') = size (ht1 d)).
Proof.
  revert d. induction n as [|n IH]; intros d Hrep Hreh.
  { destruct (rehashing_ok d (proj1 Hrep) Hreh) as (Hi & _). exists d, 1. rewrite Hreh. split_and!; try done; lia. }
  pose proof (repr_used d m Hrep) as (Hu & Hu0 & Hu1). pose proof Hrep as (Hd & Hp & Hfit).
  destruct (rehashing_ok d Hd Hreh) as (Hi & Hok0 & Hok1 & Hempty).
  destruct (decide (used (ht0 d) = 0)) as [E|Hne].
  - cbn [dictRehash_loop]. rewrite (proj2 (Z.eqb_eq _ _)) by done. eexists _, _. split; [done|]. cbn.
    split_and!; try done. split; [left; split_and!; [done|by right|done]|]. split; [|done].
    rewrite <- Hp. unfold entries. cbn [ht0 ht1 table _dictReset concat]. rewrite app_nil_r.
    rewrite ht_ok_used in E by done. apply msize_0_nil in E. by rewrite E.
  - destruct (rehash_round d Hi Hok0 Hok1 Hempty Hne) as (d1 & E & Hd1 & Hgt & Hge & Hs0 & Hs1 & Hp1 & Hit); [lia|].
    rewrite E. destruct (IH d1) as (d' & r & E' & Hrep' & Hit' & Hr & Hdone & Hsz).
    { split; [done|]. split; [by rewrite Hp1|done]. }
    { unfold dictIsRehashing. apply negb_true_iff, Z.eqb_neq. lia. }
    exists d', r. split_and!; try done; [by rewrite Hit'|intros; apply Hdone; lia|].
    destruct (dictIsRehashing d'); lia.
Qed.

Lemma rehash_step_spec d m :
  dict_repr d m -> exists d', (if dictIsRehashing d then _dictRehashStep d else Some d) = Some d' /\
    dict_repr d' m /\ iterators d' = iterators d /\ (size (ht0 d) <> 0 -> ht_ok (ht0 d')).
Proof.
  intros Hrep. destruct (dictIsRehashing d) eqn:Hreh.
  - destruct (rehashing_ok d (proj1 Hrep) Hreh) as (_ & Hok0 & _).
    unfold _dictRehashStep. destruct (iterators d =? 0); [|exists d; split_and!; try done].
    unfold dictRehash. rewrite Hreh. cbn [negb].
    destruct (rehash_loop_spec 1 d m Hrep Hreh) as (d' & r & -> & Hrep' & Hit & Hr & _ & Hsz). cbn [obind].
    exists d'. split_and!; try done. intros _. destruct (dictIsRehashing d') eqn:Hreh'.
    + by apply (rehashing_ok d' (proj1 Hrep')).
    + destruct (not_rehashing_ok d' (proj1 Hrep') Hreh') as (_ & [E|?] & _); [|done]. exfalso.
      destruct (rehashing_ok d (proj1 Hrep) Hreh) as (_ & _ & Hok1 & _). apply ht_ok_size in Hok1.
      rewrite E in Hsz. cbn in Hsz. lia.
  - exists d. split_and!; try done. intros Hs.
    destruct (not_rehashing_ok d (proj1 Hrep) Hreh) as (_ & [E|?] & _); [|done]. by rewrite E in Hs.
Qed.
(** ** Search in the dictionary *)

Lemma repr_lookup d m key v : dict_repr d m -> (key, v) ∈ entries d <-> m !! key = Some v.
Proof. intros (_ & Hp & _). rewrite Hp. apply elem_of_map_to_list. Qed.

(** The pointer [e] leads to an entry with this key and value. *)
Definition entry_at (d : dict K V) (e : entry) (key : K) (v : V) : Prop :=
  (e_table e = 0 \/ e_table e = 1 /\ dictIsRehashing d = true) /\ ht_ok (ht d (e_table e)) /\
  exists c, bucket (ht d (e_table e)) (e_index e) = Some c /\ c !! e_pos e = Some (key, v).

Lemma entry_at_elem d e key v : entry_at d e key v -> (key, v) ∈ entries d.
Proof.
  intros (Ht & _ & c & [_ Hc]%bucket_inv & Hp). unfold entries.
  assert (Hin : (key, v) ∈ concat (table (ht d (e_table e)))).
  { apply elem_of_concat. eexists _, c. split; [done|]. by eapply list_elem_of_lookup_2. }
  apply elem_of_app. destruct Ht as [E|[E _]]; rewrite E in Hin; [by left|by right].
Qed.

Lemma dict_find_spec d m key :
  dict_repr d m -> exists d' r, dictFind d key = Some (d', r) /\ dict_repr d' m /\ iterators d' = iterators d /\
    match r with
    | Some e => exists v, m !! key = Some v /\ entry_at d' e key v
    | None => m !! key = None
    end.
Proof.
  intros Hrep. unfold dictFind. destruct (Z.eqb_spec (size (ht0 d)) 0) as [Hs|Hs].
  { exists d, None. split_and!; try done. destruct (m !! key) as [v|] eqn:E; [|done]. exfalso.
    apply (repr_lookup d m key v Hrep) in E. revert E. unfold entries.
    destruct (proj1 Hrep) as [(_ & [->|Hok] & ->)|(_ & Hok & _)]; [apply not_elem_of_nil|apply ht_ok_size in Hok; lia..]. }
  destruct (rehash_step_spec d m Hrep) as (d' & -> & Hrep' & Hit & Hok0). cbn [obind]. specialize (Hok0 Hs).
  destruct (search_ok (ht0 d') key Hok0) as (c0 & Ec0 & _ & _ & _ & Hn0). rewrite Ec0. cbn [obind].
  pose proof (find_chain_spec key c0) as Hf0. destruct (find_chain key c0) as [p|].
  { destruct Hf0 as [v Hv]. eexists _, _. split; [done|]. split_and!; try done.
    assert (He : entry_at d' (mkEntry 0 (hash_index (ht0 d') key) p) key v) by (split_and!; [by left|done|by exists c0]).
    exists v. split; [|done]. rewrite <- (repr_lookup d' m key v Hrep'). by eapply entry_at_elem. }
  specialize (Hn0 eq_refl). destruct (dictIsRehashing d') eqn:Hreh; cbn [negb].
  - destruct (rehashing_ok d' (proj1 Hrep') Hreh) as (_ & _ & Hok1 & _).
    destruct (search_ok (ht1 d') key Hok1) as (c1 & Ec1 & _ & _ & _ & Hn1). rewrite Ec1. cbn [obind].
    pose proof (find_chain_spec key c1) as Hf1. destruct (find_chain key c1) as [p|]; eexists _, _; (split; [done|]); split_and!; try done.
    + destruct Hf1 as [v Hv].
      assert (He : entry_at d' (mkEntry 1 (hash_index (ht1 d') key) p) key v) by (split_and!; [by right|done|by exists c1]).
      exists v. split; [|done]. rewrite <- (repr_lookup d' m key v Hrep'). by eapply entry_at_elem.
    + destruct (m !! key) as [v|] eqn:E; [|done]. exfalso. apply (repr_lookup d' m key v Hrep') in E.
      apply elem_of_app in E as [E|E]; [by apply (Hn0 v)|by apply (Hn1 eq_refl v)].
  - eexists _, _. split; [done|]. split_and!; try done.
    destruct (m !! key) as [v|] eqn:E; [|done]. exfalso. apply (repr_lookup d' m key v Hrep') in E.
    destruct (not_rehashing_ok d' (proj1 Hrep') Hreh) as (_ & _ & E1).
    unfold entries in E. rewrite E1 in E. cbn in E. rewrite app_nil_r in E. by apply (Hn0 v).
Qed.

(** ** Replacing one of the tables *)

Lemma dict_ok_set d t h' :
  dict_ok d -> (t = 0 \/ t = 1 /\ dictIsRehashing d = true) -> ht_ok h' -> size h' = size (ht d t) ->
  (t = 0 -> forall i, table (ht0 d) !! i = Some [] -> dictIsRehashing d = true -> table h' !! i = Some []) ->
  dict_ok (set_ht d t h') /\ dictIsRehashing (set_ht d t h') = dictIsRehashing d.
Proof.
  intros Hd [->|[-> Hreh]] Hok' Hs Hempty; cbn [set_ht Z.eqb ht] in *; (split; [|done]).
  - destruct Hd as [(E & _ & E1)|(Hi & Hok0 & Hok1 & He)].
    + left. split_and!; try done. by right.
    + right. cbn [rehashidx ht0 ht1]. split_and!; try done; try lia.
      intros i Hi'. apply (Hempty eq_refl i (He i Hi')). unfold dictIsRehashing. apply negb_true_iff, Z.eqb_neq. lia.
  - destruct (rehashing_ok d Hd Hreh) as (Hi & Hok0 & Hok1 & He). right. split_and!; try done; cbn; lia.
Qed.

Lemma entries_set d t h' a b :
  (t = 0 \/ t = 1 /\ dictIsRehashing d = true) ->
  a ++ concat (table h') ≡ₚ b ++ concat (table (ht d t)) -> a ++ entries (set_ht d t h') ≡ₚ b ++ entries d.
Proof.
  unfold entries. intros [->|[-> _]] E; cbn [set_ht Z.eqb ht ht0 ht1] in *.
  - rewrite !app_assoc. by rewrite E.
  - rewrite (Permutation_app_comm (concat (table (ht0 d)))), (Permutation_app_comm (concat (table (ht0 d)))), !app_assoc. by rewrite E.
Qed.

Lemma bucket_nonempty d t i c :
  dict_ok d -> bucket (ht d t) i = Some c -> c <> [] -> t = 0 ->
  forall j c', table (ht0 d) !! j = Some [] -> <[Z.to_nat i := c']> (table (ht0 d)) !! j = Some [].
Proof.
  intros Hd [Hi Hc]%bucket_inv Hne -> j c' Hj. cbn in Hc, Hi. rewrite list_lookup_insert_ne; [done|].
  intros <-. congruence.
Qed.

Lemma set_val_spec d m e key v0 v :
  dict_repr d m -> entry_at d e key v0 ->
  exists d', dictSetVal d e v = Some d' /\ dict_repr d' (<[key := v]> m) /\ iterators d' = iterators d.
Proof.
  intros Hrep He. pose proof (entry_at_elem _ _ _ _ He) as Hm. apply (repr_lookup d m) in Hm; [|done].
  destruct He as (Ht & Hok & c & Hc & Hp). unfold dictSetVal. rewrite Hc. cbn [obind]. rewrite Hp. cbn [obind fst].
  destruct (ht_setval _ _ _ _ _ _ v Hok Hc Hp) as (h' & Eh & Hok' & Hs & Hperm). rewrite Eh. cbn [obind].
  eexists. split; [done|]. split.
  - destruct Hrep as (Hd & Hpm & Hfit). split.
    + apply dict_ok_set; try done. intros Et i Hi _. rewrite set_bucket_Some in Eh by (by apply bucket_inv in Hc as [? _]).
      injection Eh as <-. cbn [table]. rewrite Et in *. eapply bucket_nonempty; try done. intros ->. done.
    + split.
      * pose proof (entries_set d (e_table e) h' [(key, v0)] [(key, v)] Ht Hperm) as E. cbn in E.
        rewrite Hpm, <- (map_to_list_delete m key v0 Hm), Permutation_swap in E. apply Permutation_cons_inv in E.
        rewrite E, <- map_to_list_insert by apply lookup_delete_eq. by rewrite insert_delete_eq.
      * rewrite map_size_insert_Some; eauto.
  - destruct Ht as [->|[-> _]]; done.
Qed.
(** ** Deletion *)

Lemma unlink_spec d m e key v :
  dict_repr d m -> entry_at d e key v ->
  exists d', unlink d (e_table e) (e_index e) (e_pos e) = Some d' /\ dict_repr d' (delete key m) /\ iterators d' = iterators d.
Proof.
  intros Hrep He. pose proof (entry_at_elem _ _ _ _ He) as Hm. apply (repr_lookup d m) in Hm; [|done].
  destruct He as (Ht & Hok & c & Hc & Hp). unfold unlink. rewrite Hc. cbn [obind].
  destruct (ht_remove _ _ _ _ _ Hok Hc Hp) as (h' & Eh & Hok' & Hperm & Hs). rewrite Eh. cbn [obind].
  eexists. split; [done|]. split.
  - destruct Hrep as (Hd & Hpm & Hfit). split.
    + apply dict_ok_set; try done. intros Et i Hi _. rewrite set_bucket_Some in Eh by (by apply bucket_inv in Hc as [? _]).
      injection Eh as <-. cbn [add_used table]. rewrite Et in *. eapply bucket_nonempty; try done. intros ->. done.
    + split.
      * pose proof (entries_set d (e_table e) (add_used h' (-1)) [(key, v)] [] Ht Hperm) as E. cbn in E.
        rewrite Hpm, <- (map_to_list_delete m key v Hm) in E. by apply Permutation_cons_inv in E.
      * rewrite map_size_delete_Some by eauto. lia.
  - destruct Ht as [->|[-> _]]; done.
Qed.

(** [dictGenericDelete] is the search of [dictFind] followed by an unlink. *)
Lemma delete_find d key nofree :
  dictGenericDelete d key nofree =
    ' (d, e) <- dictFind d key;;
    match e with
    | Some e => d <- unlink d (e_table e) (e_index e) (e_pos e);; Some (d, DICT_OK)
    | None => Some (d, DICT_ERR)
    end.
Proof.
  unfold dictGenericDelete, dictFind. destruct (size (ht0 d) =? 0); [done|].
  destruct (if dictIsRehashing d then _dictRehashStep d else Some d) as [d'|]; [|done]. cbn [obind].
  destruct (bucket (ht0 d') (hash_index (ht0 d') key)) as [c0|]; [|done]. cbn [obind].
  destruct (find_chain key c0); [done|]. destruct (dictIsRehashing d'); [|done]. cbn [negb].
  destruct (bucket (ht1 d') (hash_index (ht1 d') key)) as [c1|]; [|done]. cbn [obind].
  by destruct (find_chain key c1).
Qed.

Lemma delete_spec d m key nofree :
  dict_repr d m -> exists d', dictGenericDelete d key nofree = Some (d', if decide (is_Some (m !! key)) then DICT_OK else DICT_ERR) /\
    dict_repr d' (delete key m) /\ iterators d' = iterators d.
Proof.
  intros Hrep. rewrite delete_find. destruct (dict_find_spec d m key Hrep) as (d1 & r & -> & Hrep1 & Hit & Hr). cbn [obind].
  destruct r as [e|].
  - destruct Hr as (v & Hv & He). destruct (unlink_spec d1 m e key v Hrep1 He) as (d' & -> & Hrep' & Hit'). cbn [obind].
    exists d'. rewrite decide_True by eauto. split_and!; try done. by rewrite Hit'.
  - exists d1. rewrite decide_False by (rewrite Hr; by intros []). split_and!; try done. by rewrite delete_id.
Qed.

(** ** Growth *)

Lemma nextPower_loop_spec fuel j size :
  2 <= j <= 30 -> size <= 2 ^ 30 -> 30 - j < Z.of_nat fuel ->
  exists k, j <= k <= 30 /\ nextPower_loop fuel (2 ^ j) size = Some (2 ^ k) /\ size <= 2 ^ k /\ (j < k -> 2 ^ (k - 1) < size).
Proof.
  revert j. induction fuel as [|fuel IH]; intros j Hj Hsz Hf; [lia|]. cbn [nextPower_loop].
  rewrite Z.geb_leb. destruct (Z.leb_spec size (2 ^ j)) as [Hle|Hgt].
  { exists j. split_and!; try done; lia. }
  assert (j < 30) by (destruct (decide (j = 30)) as [->|]; lia).
  pose proof (Z.pow_le_mono_r 2 j 30 ltac:(lia) ltac:(lia)).
  rewrite uint_id by lia. replace (2 ^ j * 2) with (2 ^ (j + 1)) by (rewrite Z.pow_add_r; lia).
  destruct (IH (j + 1) ltac:(lia) Hsz ltac:(lia)) as (k & Hk & -> & Hsk & Hmin). exists k. split_and!; try done; try lia.
  intros _. destruct (decide (k = j + 1)) as [->|]; [by rewrite Z.add_simpl_r|apply Hmin; lia].
Qed.

Lemma nextPower_spec size :
  size <= 2 ^ 30 -> exists k, 2 <= k <= 30 /\ _dictNextPower size = Some (2 ^ k) /\ size <= 2 ^ k /\ (2 < k -> 2 ^ (k - 1) < size).
Proof.
  intros Hsz. unfold _dictNextPower, LONG_MAX, DICT_HT_INITIAL_SIZE. rewrite Z.geb_leb, (proj2 (Z.leb_gt _ _)) by lia.
  apply (nextPower_loop_spec 64 2 size); lia.
Qed.

Lemma new_ht_ok k : 2 <= k <= 30 -> ht_ok (mkHt (replicate (Z.to_nat (2 ^ k)) ([] : list (K * V))) (2 ^ k) (2 ^ k - 1) 0).
Proof.
  intros Hk. exists k. cbn [size sizemask table used]. rewrite concat_replicate_nil. split_and!; try done; try lia.
  - unfold msize. rewrite length_replicate. lia.
  - intros i c e Hi He. apply lookup_replicate in Hi as [-> _]. by apply not_elem_of_nil in He.
Qed.

Lemma expand_spec d m sz :
  dict_repr d m -> sz <= 2 ^ 30 ->
  exists d' r, dictExpand d sz = Some (d', r) /\ dict_repr d' m /\ iterators d' = iterators d /\
    r = (if dictIsRehashing d || (used (ht0 d) >? sz) then DICT_ERR else DICT_OK) /\
    (r = DICT_OK -> ht_ok (ht0 d')).
Proof.
  intros Hrep Hsz. unfold dictExpand. destruct (nextPower_spec sz Hsz) as (k & Hk & -> & _). cbn [obind].
  destruct (dictIsRehashing d) eqn:Hreh; cbn [orb]; [by exists d, DICT_ERR|].
  destruct (used (ht0 d) >? sz) eqn:Hu; [by exists d, DICT_ERR|].
  destruct (not_rehashing_ok d (proj1 Hrep) Hreh) as (Hi & H0' & H1'). pose proof Hrep as (_ & Hp & Hfit).
  pose proof (new_ht_ok k Hk) as Hnew. destruct (table (ht0 d)) as [|b t] eqn:Et; (eexists _, _; split; [done|]); split_and!; try done.
  - split; [|split; [|done]].
    + left. cbn. split_and!; [done|by right|done].
    + rewrite <- Hp. unfold entries. cbn [ht0 ht1 table]. rewrite concat_replicate_nil, Et. done.
  - split; [|split; [|done]].
    + destruct H0' as [E|Hok0]; [by rewrite E in Et|]. apply ht_ok_size in Hok0 as Hs. right. cbn [rehashidx ht0 ht1 size].
      split_and!; try done; try lia.
    + rewrite <- Hp. unfold entries. cbn [ht0 ht1 table]. rewrite concat_replicate_nil, H1', Et. done.
  - intros _. cbn [ht0]. destruct H0' as [E|Hok0]; [by rewrite E in Et|done].
Qed.
Lemma expand_if_needed_spec can d m :
  dict_repr d m -> Z.of_nat (base.size m) <= 2 ^ 29 ->
  exists d', _dictExpandIfNeeded can d = Some (d', DICT_OK) /\ dict_repr d' m /\ iterators d' = iterators d /\ ht_ok (ht0 d').
Proof.
  intros Hrep Hm. unfold _dictExpandIfNeeded. pose proof (repr_used d m Hrep) as (Hu & Hu0 & Hu1).
  destruct (dictIsRehashing d) eqn:Hreh.
  { exists d. split_and!; try done. by apply (rehashing_ok d (proj1 Hrep)). }
  destruct (not_rehashing_ok d (proj1 Hrep) Hreh) as (_ & H0' & _).
  destruct (Z.eqb_spec (size (ht0 d)) 0) as [Hs|Hs].
  { destruct (expand_spec d m DICT_HT_INITIAL_SIZE Hrep) as (d' & r & -> & Hrep' & Hit & Hr & Hok); [done|].
    destruct H0' as [E|Hok0]; [|apply ht_ok_size in Hok0; lia]. rewrite Hreh, E in Hr. cbn in Hr. subst r. exists d'. eauto. }
  destruct H0' as [E|Hok0]; [by rewrite E in Hs|].
  destruct (_ && _); [|by exists d].
  rewrite uint_id by lia. destruct (expand_spec d m (used (ht0 d) * 2) Hrep) as (d' & r & -> & Hrep' & Hit & Hr & Hok); [lia|].
  rewrite Hreh, Z.gtb_ltb, (proj2 (Z.ltb_ge _ _)) in Hr by lia. cbn in Hr. subst r. exists d'. eauto.
Qed.

(** The table that receives new entries. *)
Definition target (d : dict K V) : Z := if dictIsRehashing d then 1 else 0.

Lemma target_ok d : dict_ok d -> ht_ok (ht0 d) -> ht_ok (ht d (target d)) /\ (target d = 0 \/ target d = 1 /\ dictIsRehashing d = true).
Proof.
  intros Hd Hok0. unfold target. destruct (dictIsRehashing d) eqn:Hreh; cbn; [|auto].
  split; [|by right]. by apply (rehashing_ok d Hd).
Qed.

Lemma sint32_small v : 0 <= v < 2 ^ 30 -> sint 32 v = v.
Proof. intros Hv. apply sint_id; [unfold in_sint; cbn; lia|done]. Qed.

Lemma key_index_spec can d m key :
  dict_repr d m -> Z.of_nat (base.size m) <= 2 ^ 29 ->
  exists d', dict_repr d' m /\ iterators d' = iterators d /\ ht_ok (ht0 d') /\
    _dictKeyIndex can d key = Some (d', if decide (is_Some (m !! key)) then -1 else hash_index (ht d' (target d')) key).
Proof.
  intros Hrep Hm. unfold _dictKeyIndex. destruct (expand_if_needed_spec can d m Hrep Hm) as (d' & -> & Hrep' & Hit & Hok0).
  cbn [obind]. change (DICT_OK =? DICT_ERR) with false. cbv iota. exists d'. split_and!; try done.
  destruct (search_ok (ht0 d') key Hok0) as (c0 & -> & Et0 & Hr0 & Hb0 & Hn0). cbn [obind].
  pose proof (find_chain_spec key c0) as Hf0. destruct (find_chain key c0) as [p|].
  { destruct Hf0 as [v Hv]. rewrite decide_True; [done|]. exists v. rewrite <- (repr_lookup d' m) by done.
    apply elem_of_app. left. apply elem_of_concat. eexists _, c0. split; [done|]. by eapply list_elem_of_lookup_2. }
  specialize (Hn0 eq_refl). unfold target. destruct (dictIsRehashing d') eqn:Hreh; cbn [negb ht Z.eqb].
  - destruct (rehashing_ok d' (proj1 Hrep') Hreh) as (_ & _ & Hok1 & _).
    destruct (search_ok (ht1 d') key Hok1) as (c1 & -> & Et1 & Hr1 & Hb1 & Hn1). cbn [obind].
    pose proof (find_chain_spec key c1) as Hf1. destruct (find_chain key c1) as [p|].
    + destruct Hf1 as [v Hv]. rewrite decide_True; [done|]. exists v. rewrite <- (repr_lookup d' m) by done.
      apply elem_of_app. right. apply elem_of_concat. eexists _, c1. split; [done|]. by eapply list_elem_of_lookup_2.
    + rewrite decide_False; [rewrite sint32_small by lia; done|]. intros [v Hv]. rewrite <- (repr_lookup d' m) in Hv by done.
      apply elem_of_app in Hv as [Hv|Hv]; [by apply (Hn0 v)|by apply (Hn1 eq_refl v)].
  - rewrite decide_False; [rewrite sint32_small by lia; done|]. intros [v Hv]. rewrite <- (repr_lookup d' m) in Hv by done.
    destruct (not_rehashing_ok d' (proj1 Hrep') Hreh) as (_ & _ & E1).
    unfold entries in Hv. rewrite E1 in Hv. cbn in Hv. rewrite app_nil_r in Hv. by apply (Hn0 v).
Qed.

Lemma push_spec d m key v c :
  dict_repr d m -> ht_ok (ht0 d) -> m !! key = None -> Z.of_nat (base.size m) <= 2 ^ 29 ->
  bucket (ht d (target d)) (hash_index (ht d (target d)) key) = Some c ->
  exists h', set_bucket (ht d (target d)) (hash_index (ht d (target d)) key) ((key, v) :: c) = Some h' /\
    let d' := set_ht d (target d) (add_used h' 1) in
    dict_repr d' (<[key := v]> m) /\ iterators d' = iterators d /\
    entry_at d' (mkEntry (target d) (hash_index (ht d (target d)) key) 0) key v.
Proof.
  intros Hrep Hok0 Hnone Hm Hc. destruct (target_ok d (proj1 Hrep) Hok0) as [Hokt Ht].
  pose proof (repr_used d m Hrep) as (Hu & Hu0 & Hu1).
  destruct (ht_push _ key v c Hokt Hc) as (h' & Eh & Hok' & Hperm & Hs & _ & _ & Hb).
  { destruct Ht as [->|[-> _]]; cbn; lia. }
  exists h'. split; [done|]. cbv zeta.
  assert (Hset : dict_ok (set_ht d (target d) (add_used h' 1)) /\ dictIsRehashing (set_ht d (target d) (add_used h' 1)) = dictIsRehashing d).
  { apply dict_ok_set; try done; [by apply Hrep|]. intros E0 i _ Hreh. unfold target in E0. by rewrite Hreh in E0. }
  destruct Hset as [Hset Hreh']. split_and!.
  - split; [done|]. split; [|rewrite map_size_insert_None by done; lia].
    pose proof (entries_set d (target d) (add_used h' 1) [] [(key, v)] Ht Hperm) as E. cbn in E.
    rewrite E, map_to_list_insert by done. apply perm_skip, Hrep.
  - by destruct Ht as [->|[-> _]].
  - unfold entry_at. cbn [e_table e_index e_pos]. rewrite Hreh'. split; [done|].
    assert (Eht : ht (set_ht d (target d) (add_used h' 1)) (target d) = add_used h' 1) by (by destruct Ht as [->|[-> _]]).
    rewrite Eht. split; [done|]. exists ((key, v) :: c). split; [|done]. exact Hb.
Qed.

Lemma add_raw_spec can uninit d m key :
  dict_repr d m -> Z.of_nat (base.size m) <= 2 ^ 29 ->
  exists d' r, dictAddRaw can uninit d key = Some (d', r) /\ iterators d' = iterators d /\
    match m !! key with
    | Some _ => r = None /\ dict_repr d' m
    | None => exists e, r = Some e /\ dict_repr d' (<[key := uninit]> m) /\ entry_at d' e key uninit
    end.
Proof.
  intros Hrep Hm. unfold dictAddRaw. destruct (rehash_step_spec d m Hrep) as (d1 & -> & Hrep1 & Hit1 & _). cbn [obind].
  destruct (key_index_spec can d1 m key Hrep1 Hm) as (d2 & Hrep2 & Hit2 & Hok0 & ->). cbn [obind].
  destruct (m !! key) as [v|] eqn:E.
  { rewrite decide_True by eauto. cbn. exists d2, None. split_and!; try done. congruence. }
  rewrite decide_False by (by intros []). destruct (target_ok d2 (proj1 Hrep2) Hok0) as [Hokt _].
  destruct (search_ok _ key Hokt) as (c & Hc & _ & Hr & _ & _).
  rewrite (proj2 (Z.eqb_neq _ _)) by lia. fold (target d2). rewrite Hc. cbn [obind].
  destruct (push_spec d2 m key uninit c Hrep2 Hok0 E Hm Hc) as (h' & -> & Hrep' & Hit' & He). cbn [obind].
  eexists _, _. split; [done|]. split; [congruence|]. eexists. split_and!; done.
Qed.

Lemma add_spec can uninit d m key val :
  dict_repr d m -> Z.of_nat (base.size m) <= 2 ^ 29 ->
  exists d', dictAdd can uninit d key val = Some (d', if decide (is_Some (m !! key)) then DICT_ERR else DICT_OK) /\
    iterators d' = iterators d /\ dict_repr d' (if decide (is_Some (m !! key)) then m else <[key := val]> m).
Proof.
  intros Hrep Hm. unfold dictAdd. destruct (add_raw_spec can uninit d m key Hrep Hm) as (d1 & r & -> & Hit & Hr). cbn [obind].
  destruct (m !! key) as [v|] eqn:E.
  - destruct Hr as [-> Hrep1]. exists d1. rewrite !decide_True by eauto. done.
  - destruct Hr as (e & -> & Hrep1 & He). destruct (set_val_spec d1 _ e key uninit val Hrep1 He) as (d2 & -> & Hrep2 & Hit2).
    cbn [obind]. exists d2. rewrite !decide_False by (by intros []). split_and!; [done|congruence|].
    by rewrite insert_insert_eq in Hrep2.
Qed.

Lemma replace_spec can uninit d m key val :
  dict_repr d m -> Z.of_nat (base.size m) <= 2 ^ 29 ->
  exists d', dictReplace can uninit d key val = Some (d', if decide (is_Some (m !! key)) then 0 else 1) /\
    iterators d' = iterators d /\ dict_repr d' (<[key := val]> m).
Proof.
  intros Hrep Hm. unfold dictReplace. destruct (add_spec can uninit d m key val Hrep Hm) as (d1 & -> & Hit & Hrep1). cbn [obind].
  destruct (decide (is_Some (m !! key))) as [[v0 Hv0]|Hn]; cbn.
  - destruct (dict_find_spec d1 m key Hrep1) as (d2 & r & -> & Hrep2 & Hit2 & Hr). cbn [obind].
    destruct r as [e|]; [|congruence]. destruct Hr as (v & Hv & He).
    destruct (set_val_spec d2 m e key v val Hrep2 He) as (d3 & -> & Hrep3 & Hit3). cbn [obind].
    exists d3. split_and!; try done. congruence.
  - exists d1. done.
Qed.

Lemma fetch_spec d m key :
  dict_repr d m -> exists d', dictFetchValue d key = Some (d', m !! key) /\ dict_repr d' m /\ iterators d' = iterators d.
Proof.
  intros Hrep. unfold dictFetchValue. destruct (dict_find_spec d m key Hrep) as (d1 & r & -> & Hrep1 & Hit & Hr). cbn [obind].
  exists d1. destruct r as [e|]; [|by rewrite Hr].
  destruct Hr as (v & -> & _ & _ & c & Hc & Hp). unfold dictGetVal. rewrite Hc. cbn [obind]. by rewrite Hp.
Qed.
Lemma resize_spec can d m :
  dict_repr d m -> Z.of_nat (base.size m) <= 2 ^ 29 ->
  exists d' r, dictResize can d = Some (d', r) /\ dict_repr d' m /\ iterators d' = iterators d /\
    r = (if can && negb (dictIsRehashing d) then DICT_OK else DICT_ERR).
Proof.
  intros Hrep Hm. unfold dictResize. pose proof (repr_used d m Hrep) as (Hu & Hu0 & Hu1).
  destruct can; [|by exists d, DICT_ERR]. cbn [negb orb andb].
  destruct (dictIsRehashing d) eqn:Hreh; [by exists d, DICT_ERR|]. cbn [negb].
  rewrite sint32_small by lia. unfold DICT_HT_INITIAL_SIZE.
  set (mn := if used (ht0 d) <? 4 then 4 else used (ht0 d)).
  assert (Hmn : used (ht0 d) <= mn <= 2 ^ 29) by (unfold mn; destruct (Z.ltb_spec (used (ht0 d)) 4); lia).
  rewrite uint_id by lia. destruct (expand_spec d m mn Hrep) as (d' & r & -> & Hrep' & Hit & Hr & _); [lia|].
  exists d', r. split_and!; try done. rewrite Hr, Hreh, Z.gtb_ltb, (proj2 (Z.ltb_ge _ _)) by lia. done.
Qed.

Lemma rehash_spec d m n :
  dict_repr d m -> exists d' r, dictRehash d n = Some (d', r) /\ dict_repr d' m /\ iterators d' = iterators d.
Proof.
  intros Hrep. unfold dictRehash. destruct (dictIsRehashing d) eqn:Hreh; cbn [negb]; [|by exists d, 0].
  destruct (rehash_loop_spec n d m Hrep Hreh) as (d' & r & -> & Hrep' & Hit & _). by exists d', r.
Qed.

(** ** Clearing *)

Lemma clear_loop_spec n (h : dictht K V) i freed :
  (i + n = length (table h))%nat -> used h = msize (concat (drop i (table h))) -> used h < 2 ^ 63 ->
  clear_loop n h (Z.of_nat i) freed = Some (freed ++ concat (drop i (table h))).
Proof.
  revert h i freed. induction n as [|n IH]; intros h i freed Hl Hu Hb; cbn [clear_loop].
  { rewrite drop_ge by lia. cbn. by rewrite app_nil_r. }
  rewrite Z.gtb_ltb. destruct (Z.ltb_spec 0 (used h)) as [Hpos|Hz].
  - destruct (bucket_Some h (Z.of_nat i)) as (c & -> & Hc); [unfold msize; lia|]. cbn [obind]. rewrite Nat2Z.id in Hc.
    rewrite (drop_S _ _ _ Hc) in *. cbn [concat] in *. rewrite msize_app in Hu.
    pose proof (msize_nonneg c). pose proof (msize_nonneg (concat (drop (S i) (table h)))).
    replace (Z.of_nat i + 1) with (Z.of_nat (S i)) by lia. rewrite IH.
    + cbn [add_used table]. by rewrite <- app_assoc.
    + cbn [add_used table]. lia.
    + cbn [add_used table used]. rewrite uint_id by lia. lia.
    + cbn [add_used table used]. rewrite uint_id by lia. lia.
  - assert (E : concat (drop i (table h)) = []) by (apply msize_0_nil; pose proof (msize_nonneg (concat (drop i (table h)))); lia).
    by rewrite E, app_nil_r.
Qed.

Lemma clear_spec h : h = _dictReset \/ ht_ok h -> _dictClear h = Some (_dictReset, concat (table h)).
Proof.
  intros [->|Hok]; [done|]. unfold _dictClear. pose proof (ht_used_bound h Hok). pose proof (ht_ok_used h Hok).
  destruct (ht_ok_size h Hok) as (Hs & _ & _).
  change 0 with (Z.of_nat 0) at 1. rewrite (clear_loop_spec (Z.to_nat (size h)) h 0 []); [by rewrite drop_0|unfold msize in Hs; lia|by rewrite drop_0|lia].
Qed.

Lemma empty_spec d m :
  dict_repr d m -> exists freed, dictEmpty d = Some (dictCreate, freed) /\ freed ≡ₚ map_to_list m /\ dictRelease d = Some freed.
Proof.
  intros (Hd & Hp & _). exists (entries d). unfold dictEmpty, dictRelease.
  assert (H0' : ht0 d = _dictReset \/ ht_ok (ht0 d)) by (destruct Hd as [(_ & ? & _)|(_ & ? & _)]; auto).
  assert (H1' : ht1 d = _dictReset \/ ht_ok (ht1 d)) by (destruct Hd as [(_ & _ & ->)|(_ & _ & ? & _)]; auto).
  rewrite (clear_spec _ H0'), (clear_spec _ H1'). done.
Qed.

Lemma create_spec : dict_repr dictCreate ∅.
Proof. split; [left; cbn; auto|]. split; [by rewrite map_to_list_empty|done]. Qed.
End Wf.

(** * Histories *)

Inductive dop (K V : Type) :=
  | OAdd (k : K) (v : V) | OReplace (k : K) (v : V) | ODelete (k : K) | OFetch (k : K)
  | OResize | ORehash (n : nat) | OEmpty.
Arguments OAdd {K V}. Arguments OReplace {K V}. Arguments ODelete {K V}. Arguments OFetch {K V}.
Arguments OResize {K V}. Arguments ORehash {K V}. Arguments OEmpty {K V}.

(** The results a caller observes: return codes and values. *)
Inductive dres (V : Type) := RCode (z : Z) | RValue (v : option V) | RNone.
Arguments RCode {V}. Arguments RValue {V}. Arguments RNone {V}.

Section Histories.
Context {K V : Type} `{Countable K, dictType K, !DictTypeOk K}.

(** An operation with the current value of [dict_can_resize]. *)
Definition run_dop (uninit : V) (d : dict K V) (op : bool * dop K V) : option (dict K V * dres V) :=
  match op.2 with
  | OAdd k v => ' (d, r) <- dictAdd op.1 uninit d k v;; Some (d, RCode r)
  | OReplace k v => ' (d, r) <- dictReplace op.1 uninit d k v;; Some (d, RCode r)
  | ODelete k => ' (d, r) <- dictDelete d k;; Some (d, RCode r)
  | OFetch k => ' (d, v) <- dictFetchValue d k;; Some (d, RValue v)
  | OResize => ' (d, _) <- dictResize op.1 d;; Some (d, RNone)
  | ORehash n => ' (d, _) <- dictRehash d n;; Some (d, RNone)
  | OEmpty => ' (d, _) <- dictEmpty d;; Some (d, RNone)
  end.

Definition spec_dop (m : gmap K V) (op : bool * dop K V) : gmap K V * dres V :=
  match op.2 with
  | OAdd k v => match m !! k with Some _ => (m, RCode DICT_ERR) | None => (<[k := v]> m, RCode DICT_OK) end
  | OReplace k v => (<[k := v]> m, RCode (if decide (is_Some (m !! k)) then 0 else 1))
  | ODelete k => (delete k m, RCode (if decide (is_Some (m !! k)) then DICT_OK else DICT_ERR))
  | OFetch k => (m, RValue (m !! k))
  | OResize | ORehash _ => (m, RNone)
  | OEmpty => (∅, RNone)
  end.

Fixpoint run_dops (uninit : V) (d : dict K V) (ops : list (bool * dop K V)) : option (dict K V * list (dres V)) :=
  match ops with
  | [] => Some (d, [])
  | op :: ops =>
    ' (d, r) <- run_dop uninit d op;;
    ' (d, rs) <- run_dops uninit d ops;;
    Some (d, r :: rs)
  end.

Fixpoint spec_dops (m : gmap K V) (ops : list (bool * dop K V)) : gmap K V * list (dres V) :=
  match ops with
  | [] => (m, [])
  | op :: ops =>
    let (m, r) := spec_dop m op in
    let (m, rs) := spec_dops m ops in
    (m, r :: rs)
  end.

Lemma run_dop_spec uninit d m op :
  dict_repr d m -> Z.of_nat (base.size m) <= 2 ^ 29 ->
  exists d', run_dop uninit d op = Some (d', (spec_dop m op).2) /\ dict_repr d' (spec_dop m op).1 /\
    (base.size (spec_dop m op).1 <= S (base.size m))%nat.
Proof.
  intros Hrep Hm. destruct op as [can [k v|k v|k|k| |n|]]; unfold run_dop, spec_dop; cbn [fst snd].
  - destruct (add_spec can uninit d m k v Hrep Hm) as (d' & -> & _ & Hrep'). cbn [obind]. exists d'.
    destruct (m !! k) eqn:E; rewrite ?E in *.
    + rewrite decide_True in * by eauto. split_and!; try done. cbn. lia.
    + rewrite decide_False in * by (by intros []). split_and!; try done. cbn. rewrite map_size_insert_None by done. lia.
  - destruct (replace_spec can uninit d m k v Hrep Hm) as (d' & -> & _ & Hrep'). cbn [obind]. exists d'. split_and!; try done.
    cbn. rewrite map_size_insert. destruct (m !! k); cbn; lia.
  - destruct (delete_spec d m k false Hrep) as (d' & E & Hrep' & _). unfold dictDelete. rewrite E. cbn [obind]. exists d'.
    split_and!; try done. cbn. rewrite map_size_delete. destruct (m !! k); cbn; lia.
  - destruct (fetch_spec d m k Hrep) as (d' & -> & Hrep' & _). cbn [obind]. exists d'. split_and!; try done. cbn. lia.
  - destruct (resize_spec can d m Hrep Hm) as (d' & r & -> & Hrep' & _). cbn [obind]. exists d'. split_and!; try done. cbn. lia.
  - destruct (rehash_spec d m n Hrep) as (d' & r & -> & Hrep' & _). cbn [obind]. exists d'. split_and!; try done. cbn. lia.
  - destruct (empty_spec d m Hrep) as (freed & -> & _). cbn [obind]. exists dictCreate. split_and!; [done|apply create_spec|].
    cbn. rewrite map_size_empty. lia.
Qed.

Lemma run_dops_spec uninit d m ops :
  dict_repr d m -> Z.of_nat (base.size m) + msize ops <= 2 ^ 29 ->
  exists d', run_dops uninit d ops = Some (d', (spec_dops m ops).2) /\ dict_repr d' (spec_dops m ops).1.
Proof.
  revert d m. induction ops as [|op ops IH]; intros d m Hrep Hm; [by exists d|].
  rewrite msize_cons in Hm. pose proof (msize_nonneg ops). cbn [run_dops spec_dops].
  destruct (run_dop_spec uninit d m op Hrep ltac:(lia)) as (d1 & -> & Hrep1 & Hsz). cbn [obind].
  destruct (spec_dop m op) as [m1 r]. cbn [fst snd] in *.
  destruct (IH d1 m1 Hrep1 ltac:(lia)) as (d2 & -> & Hrep2). cbn [obind].
  destruct (spec_dops m1 ops) as [m2 rs]. by exists d2.
Qed.
End Histories.

(** * Theorems *)

(** Integer keys hashed by themselves, for examples. *)
Definition int_dictType : dictType Z := {| hashFunction k := uint 32 k; keyCompare := Z.eqb |}.
Lemma int_dictTypeOk : @DictTypeOk Z int_dictType.
Proof. split; [intros k k'; apply Z.eqb_spec|intros k; by apply uint_range]. Qed.



(** C26. Incremental rehashing keeps the contents, never runs past the old
    table, reports by its return value whether it is finished, and is
    finished after at most one more step than the old table has buckets left. *)
Theorem dict_rehash_correct {K V} `{Countable K, dictType K, !DictTypeOk K} (d : dict K V) (m : gmap K V) (n : nat) :
  dict_repr d m -> dictIsRehashing d = true ->
  exists d' r, dictRehash d n = Some (d', r) /\ dict_repr d' m /\ r = (if dictIsRehashing d' then 1 else 0) /\
    (size (ht0 d) - rehashidx d < Z.of_nat n -> dictIsRehashing d' = false /\ ht1 d' = _dictReset).
Proof.
  intros Hrep Hreh. unfold dictRehash. rewrite Hreh. cbn [negb].
  destruct (rehash_loop_spec n d m Hrep Hreh) as (d' & r & E & Hrep' & _ & Hr & Hdone & _).
  exists d', r. split_and!; try done; intros Hn; specialize (Hdone Hn); subst r; destruct (dictIsRehashing d') eqn:E'; try done.
  split; [done|]. by apply (not_rehashing_ok d' (proj1 Hrep')).
Qed.

(** A dictionary that started to rehash: four entries, one more bucket array. *)
Definition sample_dict : dict Z Z :=
  match @run_dops Z Z int_dictType 0 dictCreate
    [(true, OAdd 1 10); (true, OAdd 2 20); (true, OAdd 3 30); (true, OAdd 4 40); (true, OAdd 5 50)] with
  | Some (d, _) => d
  | None => dictCreate
  end.

Definition sample_map : gmap Z Z := <[5 := 50]> (<[4 := 40]> (<[3 := 30]> (<[2 := 20]> (<[1 := 10]> ∅)))).

Lemma sample_dict_repr : @dict_repr Z Z _ _ int_dictType sample_dict sample_map.
Proof.
  destruct (@run_dops_spec Z Z _ _ int_dictType int_dictTypeOk 0 dictCreate ∅
    [(true, OAdd 1 10); (true, OAdd 2 20); (true, OAdd 3 30); (true, OAdd 4 40); (true, OAdd 5 50)]) as (d & E & Hrep).
  { apply (@create_spec Z Z _ _ int_dictType). }
  { done. }
  unfold sample_dict. rewrite E. eapply eq_rect; [exact Hrep|]. by vm_compute.
Qed.

Lemma dict_rehash_correct_witness :
  exists d' r, @dictRehash Z Z int_dictType sample_dict 9 = Some (d', r) /\ @dict_repr Z Z _ _ int_dictType d' sample_map /\
    r = (if dictIsRehashing d' then 1 else 0) /\
    (size (ht0 sample_dict) - rehashidx sample_dict < 9 -> dictIsRehashing d' = false /\ ht1 d' = _dictReset).
Proof.
  apply (@dict_rehash_correct Z Z _ _ int_dictType int_dictTypeOk sample_dict sample_map 9 sample_dict_repr).
  by vm_compute.
Defined.

(** [dictEmpty] and [dictRelease] free every entry exactly once, and
    [dictEmpty] leaves a new dictionary. *)
Theorem dict_empty_frees_all {K V} `{Countable K, dictType K, !DictTypeOk K} (d : dict K V) (m : gmap K V) :
  dict_repr d m ->
  exists freed, dictEmpty d = Some (dictCreate, freed) /\ freed ≡ₚ map_to_list m /\ dictRelease d = Some freed.
Proof. apply empty_spec. Qed.

Lemma dict_empty_frees_all_witness :
  exists freed, dictEmpty sample_dict = Some (dictCreate, freed) /\ freed ≡ₚ map_to_list sample_map /\
    dictRelease sample_dict = Some freed.
Proof. apply (@dict_empty_frees_all Z Z _ _ int_dictType int_dictTypeOk sample_dict sample_map sample_dict_repr). Defined.

(** [_dictNextPower] does not return a power of two for the largest sizes. *)
Theorem dictNextPower_largest_not_a_power :
  _dictNextPower LONG_MAX = Some LONG_MAX /\ forall k, LONG_MAX <> 2 ^ k.
Proof.
  split; [by vm_compute|]. intros k E. unfold LONG_MAX in E.
  destruct (Z.lt_ge_cases k 63) as [Hlt|Hge].
  - destruct (Z.lt_ge_cases k 0); [by rewrite (Z.pow_neg_r 2 k) in E by lia|].
    pose proof (Z.pow_le_mono_r 2 k 62 ltac:(lia) ltac:(lia)). lia.
  - pose proof (Z.pow_le_mono_r 2 63 k ltac:(lia) ltac:(lia)). lia.
Qed.
