(* ===== verification/DictScan.v ===== *)
(** Iteration over hash tables: the cursor of [dictScan], iterators and random
    entries (dict.c).

    A scan is stateless: it returns the next cursor, and the table may be
    resized between the calls.  The theorems say which entries a complete
    scan reports when the table changes, and that an iterator reports every
    entry once. *)

From stdpp Require Import gmap.
From S2P Require Import Prelude Util Dict DictMap.
Local Open Scope Z_scope.

(** [~x] on [unsigned long] *)
Definition not64 (x : Z) : Z := uint 64 (Z.lnot x).

(** [while ((s >>= 1) > 0) {...}] *)
Fixpoint rev_loop (fuel : nat) (s mask v : Z) : option Z :=
  match fuel with
  | O => None
  | S fuel =>
    let s := Z.shiftr s 1 in
    if s >? 0 then
      let mask := Z.lxor mask (uint 64 (Z.shiftl mask s)) in
      let v := Z.lor (Z.land (Z.shiftr v s) mask) (Z.land (uint 64 (Z.shiftl v s)) (not64 mask)) in
      rev_loop fuel s mask v
    else Some v
  end.

Definition rev (v : Z) : option Z := rev_loop 7 64 (2 ^ 64 - 1) v.

Section Scan.
Context {K V : Type}.

(** [v = (((v | m0) + 1) & ~m0) | (v & m0)] *)
Definition next_expansion (v m0 : Z) : Z :=
  Z.lor (Z.land (uint 64 (Z.lor v m0 + 1)) (not64 m0)) (Z.land v m0).

(** [do {...} while (v & (m0 ^ m1));]: the entries reported and the last [v]. *)
Fixpoint scan_expansions (fuel : nat) (t1 : dictht K V) (m0 m1 v : Z) (out : list (K * V))
    : option (list (K * V) * Z) :=
  match fuel with
  | O => None
  | S fuel =>
    de <- bucket t1 (Z.land v m1);;
    let out := out ++ de in
    let v := next_expansion v m0 in
    if Z.land v (Z.lxor m0 m1) =? 0 then Some (out, v)
    else scan_expansions fuel t1 m0 m1 v out
  end.

(** The entries passed to the callback, in order, and the next cursor. *)
Definition dictScan (d : dict K V) (v : Z) : option (list (K * V) * Z) :=
  if dictSize d =? 0 then Some ([], 0) else
  ' (out, v, m0) <-
    (if negb (dictIsRehashing d) then
       let m0 := sizemask (ht0 d) in
       de <- bucket (ht0 d) (Z.land v m0);;
       Some (de, v, m0)
     else
       let (t0, t1) := if size (ht0 d) >? size (ht1 d) then (ht1 d, ht0 d) else (ht0 d, ht1 d) in
       let m0 := sizemask t0 in
       let m1 := sizemask t1 in
       de <- bucket t0 (Z.land v m0);;
       ' (out, v) <- scan_expansions (length (table t1)) t1 m0 m1 v de;;
       Some (out, v, m0));;
  let v := Z.lor v (not64 m0) in
  v <- rev v;;
  v <- rev (uint 64 (v + 1));;
  Some (out, v).

(** A scan in several calls, each on the state of the dictionary at that time. *)
Fixpoint scan_calls (ds : list (dict K V)) (v : Z) : option (list (K * V) * Z) :=
  match ds with
  | [] => Some ([], v)
  | d :: ds =>
    ' (out, v) <- dictScan d v;;
    ' (out', v) <- scan_calls ds v;;
    Some (out ++ out', v)
  end.

(** ** Iterators *)

(** An entry pointer of an iterator is the rest of the chain from that entry on. *)
Record dictIterator := mkIter {
  it_table : Z; it_index : Z; it_safe : bool;
  it_entry : list (K * V); it_nextEntry : list (K * V);
  fingerprint : Z
}.

(** Thomas Wang's 64 bit mix on [long long], computed modulo [2 ^ 64]. *)
Definition fingerprint_mix (hash i : Z) : Z :=
  let hash := sint 64 (hash + i) in
  let hash := sint 64 (Z.lnot hash + sint 64 (Z.shiftl hash 21)) in
  let hash := Z.lxor hash (Z.shiftr hash 24) in
  let hash := sint 64 (sint 64 (hash + sint 64 (Z.shiftl hash 3)) + sint 64 (Z.shiftl hash 8)) in
  let hash := Z.lxor hash (Z.shiftr hash 14) in
  let hash := sint 64 (sint 64 (hash + sint 64 (Z.shiftl hash 2)) + sint 64 (Z.shiftl hash 4)) in
  let hash := Z.lxor hash (Z.shiftr hash 28) in
  sint 64 (hash + sint 64 (Z.shiftl hash 31)).

(** [a0] and [a1] are the addresses of the two tables. *)
Definition dictFingerprint (a0 a1 : Z) (d : dict K V) : Z :=
  foldl fingerprint_mix 0
    [a0; size (ht0 d); used (ht0 d); a1; size (ht1 d); used (ht1 d)].

Definition dictGetIterator : dictIterator := mkIter 0 (-1) false [] [] 0.
Definition dictGetSafeIterator : dictIterator := mkIter 0 (-1) true [] [] 0.

(** The first half of the loop body: the next bucket, [None] to leave the loop. *)
Definition next_bucket (a0 a1 : Z) (d : dict K V) (it : dictIterator) : option (dict K V * dictIterator * bool) :=
  let first := (it_index it =? -1) && (it_table it =? 0) in
  d <- (if first && it_safe it
        then n <- int_arith (iterators d + 1);; Some (mkDict (ht0 d) (ht1 d) (rehashidx d) n)
        else Some d);;
  let fp := if first && negb (it_safe it) then dictFingerprint a0 a1 d else fingerprint it in
  index <- int_arith (it_index it + 1);;
  if index >=? size (ht d (it_table it)) then
    if dictIsRehashing d && (it_table it =? 0) then
      e <- bucket (ht1 d) 0;;
      Some (d, mkIter 1 0 (it_safe it) e (it_nextEntry it) fp, true)
    else Some (d, mkIter (it_table it) index (it_safe it) (it_entry it) (it_nextEntry it) fp, false)
  else
    e <- bucket (ht d (it_table it)) index;;
    Some (d, mkIter (it_table it) index (it_safe it) e (it_nextEntry it) fp, true).

(** [while (1) {...}]: the next entry, [None] at the end. *)
Fixpoint dictNext_loop (fuel : nat) (a0 a1 : Z) (d : dict K V) (it : dictIterator)
    : option (dict K V * dictIterator * option (K * V)) :=
  match fuel with
  | O => None
  | S fuel =>
    ' (d, it, more) <-
      (match it_entry it with
       | [] => next_bucket a0 a1 d it
       | _ => Some (d, mkIter (it_table it) (it_index it) (it_safe it) (it_nextEntry it) (it_nextEntry it) (fingerprint it), true)
       end);;
    if negb more then Some (d, it, None) else
    match it_entry it with
    | [] => dictNext_loop fuel a0 a1 d it
    | e :: next =>
      Some (d, mkIter (it_table it) (it_index it) (it_safe it) (it_entry it) next (fingerprint it), Some e)
    end
  end.

Definition dictNext (a0 a1 : Z) (d : dict K V) (it : dictIterator) : option (dict K V * dictIterator * option (K * V)) :=
  dictNext_loop (2 + length (table (ht0 d)) + length (table (ht1 d))) a0 a1 d it.

(** A failed assertion is [None]. *)
Definition dictReleaseIterator (a0 a1 : Z) (d : dict K V) (it : dictIterator) : option (dict K V) :=
  if negb ((it_index it =? -1) && (it_table it =? 0)) then
    if it_safe it then
      n <- int_arith (iterators d - 1);; Some (mkDict (ht0 d) (ht1 d) (rehashidx d) n)
    else if fingerprint it =? dictFingerprint a0 a1 d then Some d else None
  else Some d.

(** ** Random entries *)

(** [do {...} while(he == NULL);]: [randoms] are the results of [random()]. *)
Fixpoint random_bucket (randoms : list Z) (pick : Z -> option (list (K * V))) : option (list (K * V) * list Z) :=
  match randoms with
  | [] => None
  | r :: randoms =>
    he <- pick r;;
    match he with [] => random_bucket randoms pick | _ => Some (he, randoms) end
  end.

Definition dictGetRandomKey `{dictType K} (randoms : list Z) (d : dict K V) : option (dict K V * option (K * V)) :=
  if dictSize d =? 0 then Some (d, None) else
  d <- (if dictIsRehashing d then _dictRehashStep d else Some d);;
  ' (he, randoms) <-
    (if dictIsRehashing d then
       random_bucket randoms (fun r =>
         let h := uint 32 (r mod uint 64 (size (ht0 d) + size (ht1 d))) in
         if h >=? size (ht0 d) then bucket (ht1 d) (h - size (ht0 d)) else bucket (ht0 d) h)
     else random_bucket randoms (fun r => bucket (ht0 d) (uint 32 (Z.land r (sizemask (ht0 d))))));;
  match randoms with
  | [] => None
  | r :: _ =>
    let listlen := msize he in
    e <- he !! Z.to_nat (r mod listlen);;
    Some (d, Some e)
  end.
End Scan.

Arguments dictIterator : clear implicits.

(** * Bit reversal *)

(** One round on the bits: bit [i] of the result is bit [i + s] or [i - s]. *)
Lemma rev_round v s mask i :
  0 <= i < 64 -> 0 < s ->
  Z.testbit (Z.lor (Z.land (Z.shiftr v s) mask) (Z.land (uint 64 (Z.shiftl v s)) (not64 mask))) i
  = if Z.testbit mask i then Z.testbit v (i + s) else Z.testbit v (i - s).
Proof.
  intros Hi Hs. unfold not64, uint. rewrite Z.lor_spec, !Z.land_spec, !Z.mod_pow2_bits_low by lia.
  rewrite Z.lnot_spec, Z.shiftr_spec, Z.shiftl_spec by lia.
  destruct (Z.testbit mask i); cbn [negb]; by rewrite ?andb_true_r, ?andb_false_r, ?orb_false_r.
Qed.

(** The masks of the rounds and the source of each bit. *)
Definition rev_masks : list (Z * Z) :=
  [(32, 0x00000000FFFFFFFF); (16, 0x0000FFFF0000FFFF); (8, 0x00FF00FF00FF00FF);
   (4, 0x0F0F0F0F0F0F0F0F); (2, 0x3333333333333333); (1, 0x5555555555555555)].

Definition rev_step (v : Z) (sm : Z * Z) : Z :=
  Z.lor (Z.land (Z.shiftr v sm.1) sm.2) (Z.land (uint 64 (Z.shiftl v sm.1)) (not64 sm.2)).

Definition rev_src (i : Z) (sm : Z * Z) : Z := if Z.testbit sm.2 i then i + sm.1 else i - sm.1.

Lemma rev_rounds v : rev v = Some (foldl rev_step v rev_masks).
Proof. reflexivity. Qed.

Lemma rev_bit_rounds l v i :
  0 <= i < 64 -> Forall (fun sm => 0 < sm.1) l ->
  (forall j, (j <= length l)%nat -> 0 <= foldr (fun sm i => rev_src i sm) i (drop j l) < 64) ->
  Z.testbit (foldl rev_step v l) i = Z.testbit v (foldr (fun sm i => rev_src i sm) i l).
Proof.
  revert v. induction l as [|sm l IH]; intros v Hi Hpos Hr; [done|]. apply Forall_cons_iff in Hpos as [Hs Hpos].
  cbn [foldl foldr]. rewrite IH; [|done|done|intros j Hj; apply (Hr (S j)); cbn; lia].
  pose proof (Hr 1%nat ltac:(cbn; lia)) as Hr1. cbn [drop] in Hr1. rewrite drop_0 in Hr1.
  set (x := foldr _ i l) in *. clearbody x. unfold rev_step, rev_src. rewrite rev_round by done. by destruct (Z.testbit _ _).
Qed.

Lemma rev_bit v i : 0 <= i < 64 -> Z.testbit (foldl rev_step v rev_masks) i = Z.testbit v (63 - i).
Proof.
  intros Hi.
  assert (Hc : forall i, 0 <= i < 64 ->
    forallb (fun j => (0 <=? foldr (fun sm i => rev_src i sm) i (drop j rev_masks)) &&
      (foldr (fun sm i => rev_src i sm) i (drop j rev_masks) <? 64)) (seq 0 7) &&
    (foldr (fun sm i => rev_src i sm) i rev_masks =? 63 - i) = true) by (apply byte_check; by vm_compute).
  specialize (Hc i Hi). apply andb_true_iff in Hc as [Hr He]. apply Z.eqb_eq in He.
  rewrite rev_bit_rounds; [by rewrite He|done|by repeat constructor|].
  intros j Hj. rewrite forallb_forall in Hr. specialize (Hr j ltac:(apply in_seq; cbn in Hj; lia)). bprop. done.
Qed.

Lemma lt_pow2_bits v n : 0 <= n -> 0 <= v -> (forall i, n <= i -> Z.testbit v i = false) -> v < 2 ^ n.
Proof.
  intros Hn Hv Hb. assert (E : v = v mod 2 ^ n).
  { apply Z.bits_inj'. intros i Hi. destruct (Z.lt_ge_cases i n).
    - by rewrite Z.mod_pow2_bits_low by lia.
    - by rewrite Z.mod_pow2_bits_high, Hb by lia. }
  rewrite E. apply Z.mod_pos_bound. lia.
Qed.

Lemma testbit_high v n i : 0 <= v < 2 ^ n -> 0 <= n <= i -> Z.testbit v i = false.
Proof. intros Hv Hi. rewrite <- (Z.mod_small v (2 ^ n)) by lia. by apply Z.mod_pow2_bits_high. Qed.

(** The reversal of 64 bits, as a total function. *)
Definition rho (v : Z) : Z := foldl rev_step v rev_masks.

Lemma rev_step_range v sm : 0 <= sm.2 < 2 ^ 64 -> 0 <= rev_step v sm < 2 ^ 64.
Proof.
  intros Hm. assert (Hn : 0 <= rev_step v sm).
  { unfold rev_step. apply Z.lor_nonneg. split; apply Z.land_nonneg; right; [lia|by apply uint_range]. }
  split; [done|]. apply lt_pow2_bits; [lia|done|]. intros i Hi. unfold rev_step.
  rewrite Z.lor_spec, !Z.land_spec. rewrite (testbit_high sm.2 64), (testbit_high (not64 sm.2) 64) by (done || lia || by apply uint_range).
  by rewrite !andb_false_r.
Qed.

Lemma rho_range v : 0 <= rho v < 2 ^ 64.
Proof. unfold rho, rev_masks. cbn [foldl]. by apply rev_step_range. Qed.

Lemma rev_rho v : rev v = Some (rho v).
Proof. reflexivity. Qed.

Lemma rho_bit v i : 0 <= i < 64 -> Z.testbit (rho v) i = Z.testbit v (63 - i).
Proof. apply rev_bit. Qed.

Lemma bits64_ext a b : 0 <= a < 2 ^ 64 -> 0 <= b < 2 ^ 64 -> (forall i, 0 <= i < 64 -> Z.testbit a i = Z.testbit b i) -> a = b.
Proof.
  intros Ha Hb E. apply Z.bits_inj'. intros i Hi. destruct (Z.lt_ge_cases i 64); [apply E; lia|].
  by rewrite (testbit_high a 64), (testbit_high b 64) by lia.
Qed.

Lemma rho_involutive v : 0 <= v < 2 ^ 64 -> rho (rho v) = v.
Proof.
  intros Hv. apply bits64_ext; [apply rho_range|done|]. intros i Hi. rewrite !rho_bit by lia. f_equal. lia.
Qed.

(** * The cursor *)

(** Reversed, the buckets of a table of [2 ^ k] are intervals: two hashes are
    in the same bucket iff they have the same upper [k] bits reversed. *)
Lemma rho_bucket a b k : 0 <= k <= 64 -> 0 <= a < 2 ^ 64 -> 0 <= b < 2 ^ 64 ->
  a mod 2 ^ k = b mod 2 ^ k <-> rho a / 2 ^ (64 - k) = rho b / 2 ^ (64 - k).
Proof.
  intros Hk Ha Hb. split; intros E; apply Z.bits_inj'; intros i Hi.
  - rewrite <- !Z.shiftr_div_pow2, !Z.shiftr_spec by lia.
    destruct (Z.lt_ge_cases i k).
    + rewrite !rho_bit by lia. apply (f_equal (fun z => Z.testbit z (63 - (i + (64 - k))))) in E.
      by rewrite !Z.mod_pow2_bits_low in E by lia.
    + by rewrite !(testbit_high _ 64) by (apply rho_range || lia).
  - destruct (Z.lt_ge_cases i k); [|by rewrite !Z.mod_pow2_bits_high by lia].
    rewrite !Z.mod_pow2_bits_low by lia. apply (f_equal (fun z => Z.testbit z (k - 1 - i))) in E.
    rewrite <- !Z.shiftr_div_pow2, !Z.shiftr_spec, !rho_bit in E by lia.
    by replace (63 - (k - 1 - i + (64 - k))) with i in E by lia.
Qed.

(** [v |= ~m0; v = rev(v); v++; v = rev(v)] moves to the next interval. *)
Lemma rho_next v k : 0 <= k <= 64 -> 0 <= v < 2 ^ 64 ->
  rho (Z.lor v (not64 (2 ^ k - 1))) = rho v / 2 ^ (64 - k) * 2 ^ (64 - k) + (2 ^ (64 - k) - 1).
Proof.
  intros Hk Hv.
  assert (Hor : 0 <= Z.lor v (not64 (2 ^ k - 1)) < 2 ^ 64).
  { split; [apply Z.lor_nonneg; split; [lia|by apply uint_range]|]. apply lt_pow2_bits; [lia|apply Z.lor_nonneg; split; [lia|by apply uint_range]|].
    intros i Hi. rewrite Z.lor_spec, !(testbit_high _ 64) by (lia || by apply uint_range). done. }
  set (w := 64 - k). assert (Hw : 0 <= w <= 64) by lia.
  replace (rho v / 2 ^ w * 2 ^ w + (2 ^ w - 1)) with (Z.lor (Z.shiftl (rho v / 2 ^ w) w) (Z.ones w)).
  2:{ rewrite Z.ones_equiv, lor_shiftl_add; lia. }
  apply Z.bits_inj'. intros i Hi. rewrite Z.lor_spec.
  destruct (Z.lt_ge_cases i 64) as [Hlt|Hge].
  - rewrite rho_bit, Z.lor_spec by lia. unfold not64, uint. rewrite Z.mod_pow2_bits_low, Z.lnot_spec by lia.
    replace (2 ^ k - 1) with (Z.ones k) by (rewrite Z.ones_equiv; lia).
    destruct (Z.lt_ge_cases i w).
    + rewrite (Z.ones_spec_low w i), (Z.ones_spec_high k) by lia. cbn [negb]. by rewrite !orb_true_r.
    + rewrite (Z.ones_spec_high w i), (Z.ones_spec_low k) by lia. cbn [negb]. rewrite !orb_false_r.
      rewrite Z.shiftl_spec, <- Z.shiftr_div_pow2, Z.shiftr_spec by lia.
      rewrite rho_bit by lia. f_equal. lia.
  - rewrite (testbit_high _ 64), Z.ones_spec_high, orb_false_r by (apply rho_range || lia).
    rewrite Z.shiftl_spec, <- Z.shiftr_div_pow2, Z.shiftr_spec by lia.
    by rewrite (testbit_high _ 64) by (apply rho_range || lia).
Qed.

(** * Expansions of the cursor in the larger table *)

Lemma land_ones_low y lo k : 0 <= k -> 0 <= lo < 2 ^ k -> Z.land (y * 2 ^ k + lo) (2 ^ k - 1) = lo.
Proof.
  intros Hk Hlo. rewrite land_mask by lia. rewrite Z.add_comm, Z_mod_plus_full. by apply Z.mod_small.
Qed.

Lemma next_expansion_spec y lo k :
  0 <= k -> 0 <= lo < 2 ^ k -> 0 <= y -> (y + 1) * 2 ^ k < 2 ^ 64 ->
  next_expansion (y * 2 ^ k + lo) (2 ^ k - 1) = (y + 1) * 2 ^ k + lo.
Proof.
  intros Hk Hlo Hy Hb. unfold next_expansion. rewrite land_ones_low by done.
  assert (E1 : Z.lor (y * 2 ^ k + lo) (2 ^ k - 1) = y * 2 ^ k + (2 ^ k - 1)).
  { rewrite <- !lor_shiftl_add by lia. rewrite <- Z.lor_assoc. f_equal.
    replace (2 ^ k - 1) with (Z.ones k) by (rewrite Z.ones_equiv; lia).
    apply Z.bits_inj'. intros i Hi. rewrite Z.lor_spec. destruct (Z.lt_ge_cases i k).
    - rewrite Z.ones_spec_low by lia. apply orb_true_r.
    - by rewrite Z.ones_spec_high, (testbit_high lo k) by lia. }
  rewrite E1. replace (y * 2 ^ k + (2 ^ k - 1) + 1) with ((y + 1) * 2 ^ k) by lia.
  rewrite uint_id by lia.
  assert (E2 : Z.land ((y + 1) * 2 ^ k) (not64 (2 ^ k - 1)) = (y + 1) * 2 ^ k).
  { apply Z.bits_inj'. intros i Hi. rewrite Z.land_spec.
    destruct (Z.lt_ge_cases i k); [by rewrite Z.mul_pow2_bits_low by lia|].
    destruct (Z.lt_ge_cases i 64); [|rewrite (testbit_high ((y + 1) * 2 ^ k) 64) by lia; done].
    unfold not64, uint. rewrite Z.mod_pow2_bits_low, Z.lnot_spec by lia.
    replace (2 ^ k - 1) with (Z.ones k) by (rewrite Z.ones_equiv; lia).
    rewrite Z.ones_spec_high by lia. apply andb_true_r. }
  rewrite E2, <- (lor_shiftl_add (y + 1) lo k), Z.shiftl_mul_pow2 by lia. done.
Qed.

Lemma mask_difference y lo k j :
  0 <= k -> 0 <= j -> 0 <= lo < 2 ^ k ->
  (Z.land (y * 2 ^ k + lo) (Z.lxor (2 ^ k - 1) (2 ^ (k + j) - 1)) =? 0) = (y mod 2 ^ j =? 0).
Proof.
  intros Hk Hj Hlo.
  assert (E : Z.land (y * 2 ^ k + lo) (Z.lxor (2 ^ k - 1) (2 ^ (k + j) - 1)) = Z.shiftl (y mod 2 ^ j) k).
  { replace (2 ^ k - 1) with (Z.ones k) by (rewrite Z.ones_equiv; lia).
    replace (2 ^ (k + j) - 1) with (Z.ones (k + j)) by (rewrite Z.ones_equiv; lia).
    rewrite <- lor_shiftl_add by lia. apply Z.bits_inj'. intros i Hi.
    rewrite Z.land_spec, Z.lxor_spec, Z.lor_spec. destruct (Z.lt_ge_cases i k).
    - by rewrite !Z.ones_spec_low, !Z.shiftl_spec_low, andb_false_r by lia.
    - rewrite (Z.ones_spec_high k), !Z.shiftl_spec, (testbit_high lo k), orb_false_r by lia. cbn [xorb].
      destruct (Z.lt_ge_cases i (k + j)).
      + by rewrite Z.ones_spec_low, Z.mod_pow2_bits_low, andb_true_r by lia.
      + by rewrite Z.ones_spec_high, Z.mod_pow2_bits_high, andb_false_r by lia. }
  rewrite E, Z.shiftl_mul_pow2 by lia. destruct (Z.eqb_spec (y mod 2 ^ j) 0) as [->|Hne]; [done|].
  apply Z.eqb_neq. pose proof (Z.pow_pos_nonneg 2 k). nia.
Qed.

Section Expansions.
Context {K V : Type}.

Lemma expansions_spec (t1 : dictht K V) k j lo fuel y out :
  0 <= k -> 0 <= j -> k + j <= 30 -> 0 <= lo < 2 ^ k -> 0 <= y < 2 ^ j -> msize (table t1) = 2 ^ (k + j) ->
  2 ^ j - y <= Z.of_nat fuel ->
  exists out', scan_expansions fuel t1 (2 ^ k - 1) (2 ^ (k + j) - 1) (y * 2 ^ k + lo) out = Some (out ++ out', 2 ^ (k + j) + lo) /\
    forall e, e ∈ out' <-> exists y' c, y <= y' < 2 ^ j /\ table t1 !! Z.to_nat (y' * 2 ^ k + lo) = Some c /\ e ∈ c.
Proof.
  intros Hk Hj Hkj Hlo. rewrite Z.pow_add_r by lia. set (P := 2 ^ k) in *. set (Q := 2 ^ j) in *.
  assert (HP : 0 < P) by (apply Z.pow_pos_nonneg; lia). assert (HPQ : P * Q <= 2 ^ 30).
  { unfold P, Q. rewrite <- Z.pow_add_r by lia. apply Z.pow_le_mono_r; lia. }
  revert y out. induction fuel as [|fuel IH]; intros y out Hy Ht Hf; [lia|].
  cbn [scan_expansions].
  assert (Hv : 0 <= y * P + lo < P * Q) by nia.
  assert (El : Z.land (y * P + lo) (P * Q - 1) = y * P + lo).
  { unfold P, Q. rewrite <- Z.pow_add_r by lia. rewrite land_mask by lia. apply Z.mod_small. unfold P, Q in Hv. rewrite Z.pow_add_r by lia. lia. }
  rewrite El. destruct (bucket_Some t1 (y * P + lo)) as (c & -> & Hc); [lia|]. cbn [obind].
  assert (En : next_expansion (y * P + lo) (P - 1) = (y + 1) * P + lo) by (apply next_expansion_spec; fold P; nia || lia).
  rewrite !En.
  assert (Em : (Z.land ((y + 1) * P + lo) (Z.lxor (P - 1) (P * Q - 1)) =? 0) = ((y + 1) mod Q =? 0)).
  { unfold P, Q. rewrite <- Z.pow_add_r by lia. by apply mask_difference. }
  rewrite Em. destruct (Z.eqb_spec ((y + 1) mod Q) 0) as [E0|Hne].
  - assert (Hlast : y + 1 = Q).
    { destruct (Z.lt_ge_cases (y + 1) Q); [rewrite Z.mod_small in E0 by lia; lia|lia]. }
    exists c. rewrite Hlast. split; [do 3 f_equal; lia|]. intros e. split.
    + intros He. exists y, c. split_and!; try done; lia.
    + intros (y' & c' & Hy' & Hc' & He). assert (y' = y) as -> by lia. congruence.
  - assert (Hmore : y + 1 < Q) by (destruct (Z.lt_ge_cases (y + 1) Q); [lia|]; assert (y + 1 = Q) as E1 by lia; rewrite E1, Z_mod_same_full in Hne; lia).
    destruct (IH (y + 1) (out ++ c)) as (out' & E & Hout'); [lia|done|lia|].
    exists (c ++ out'). rewrite E, <- app_assoc. split; [done|]. intros e. rewrite elem_of_app, Hout'. split.
    + intros [He|(y' & c' & Hy' & Hc' & He)]; [exists y, c|exists y', c']; split_and!; try done; lia.
    + intros (y' & c' & Hy' & Hc' & He). destruct (decide (y' = y)) as [->|]; [left; congruence|right].
      exists y', c'. split_and!; try done; lia.
Qed.
End Expansions.

(** * One call *)

Section Call.
Context {K V : Type} `{Countable K, dictType K, !DictTypeOk K}.
Implicit Types (d : dict K V) (t : dictht K V).

(** Buckets of the smaller table in use. *)
Definition small_size (d : dict K V) : Z :=
  if dictIsRehashing d then Z.min (size (ht0 d)) (size (ht1 d)) else size (ht0 d).

(** The cursor is inside the smaller table. *)
Definition cursor_fits (d : dict K V) (v : Z) : Prop := dictIsRehashing d = true -> v < small_size d.

(** The cursor that follows [v] in a table of [2 ^ k] buckets. *)
Definition next_cursor (v k : Z) : Z := rho (uint 64 (rho v / 2 ^ (64 - k) * 2 ^ (64 - k) + 2 ^ (64 - k))).

Lemma next_cursor_steps v k :
  0 <= k <= 64 -> 0 <= v < 2 ^ 64 ->
  (v <- rev (Z.lor v (not64 (2 ^ k - 1)));; rev (uint 64 (v + 1))) = Some (next_cursor v k).
Proof.
  intros Hk Hv. rewrite rev_rho. cbn [obind]. rewrite rev_rho, rho_next by done. unfold next_cursor. do 3 f_equal. lia.
Qed.

(** The entries of a table whose hash agrees with the cursor on [k] bits. *)
Lemma bucket_entries t k v c :
  ht_ok t -> size t = 2 ^ k -> 2 <= k -> table t !! Z.to_nat (v mod 2 ^ k) = Some c ->
  forall e, e ∈ concat (table t) -> hashFunction e.1 mod 2 ^ k = v mod 2 ^ k -> e ∈ c.
Proof.
  intros (k' & Hk' & Hs & _ & _ & _ & _ & Hplace) Hsk Hk Hc e (i & ci & Hi & He)%elem_of_concat Heq.
  assert (k' = k) as -> by (apply (Z.pow_inj_r 2); lia).
  rewrite (Hplace i ci e Hi He) in Heq. rewrite <- Heq, Nat2Z.id in Hc. congruence.
Qed.

Lemma mod_mod_pow a k j : 0 <= k -> 0 <= j -> (a mod 2 ^ (k + j)) mod 2 ^ k = a mod 2 ^ k.
Proof.
  intros Hk Hj. rewrite Z.pow_add_r by lia. rewrite Z.rem_mul_r by lia.
  rewrite (Z.mul_comm (2 ^ k)), Z_mod_plus_full. apply Z.mod_mod. lia.
Qed.

Lemma large_entries t k j lo e :
  ht_ok t -> size t = 2 ^ (k + j) -> 2 <= k -> 0 <= j -> 0 <= lo < 2 ^ k -> e ∈ concat (table t) ->
  hashFunction e.1 mod 2 ^ k = lo ->
  exists y' c, 0 <= y' < 2 ^ j /\ table t !! Z.to_nat (y' * 2 ^ k + lo) = Some c /\ e ∈ c.
Proof.
  intros (k' & Hk' & Hs & _ & _ & _ & _ & Hplace) Hsk Hk Hj Hlo (i & ci & Hi & He)%elem_of_concat Heq.
  assert (k' = k + j) as -> by (apply (Z.pow_inj_r 2); lia).
  pose proof (Hplace i ci e Hi He) as Hp.
  pose proof (Z.mod_pos_bound (hashFunction e.1) (2 ^ (k + j)) ltac:(lia)) as Hr.
  rewrite Hp in Hr. rewrite <- (mod_mod_pow _ k j), Hp in Heq by lia.
  exists (Z.of_nat i / 2 ^ k), ci. split; [|split; [|done]].
  - rewrite Z.pow_add_r in Hr by lia. split; [apply Z.div_pos; lia|apply Z.div_lt_upper_bound; lia].
  - rewrite <- Heq. rewrite Z.mul_comm, <- Z.div_mod by lia. by rewrite Nat2Z.id.
Qed.

Lemma scan_two (t0 t1 : dictht K V) k j v :
  ht_ok t0 -> ht_ok t1 -> size t0 = 2 ^ k -> size t1 = 2 ^ (k + j) -> 2 <= k -> 0 <= j -> k + j <= 30 -> 0 <= v < 2 ^ k ->
  exists out, (de <- bucket t0 (Z.land v (sizemask t0));;
    ' (out, v) <- scan_expansions (length (table t1)) t1 (sizemask t0) (sizemask t1) v de;;
    Some (out, v, sizemask t0)) = Some (out, 2 ^ (k + j) + v, 2 ^ k - 1) /\
    (forall e, e ∈ concat (table t0) ++ concat (table t1) -> hashFunction e.1 mod 2 ^ k = v mod 2 ^ k -> e ∈ out) /\
    (forall e, e ∈ out -> e ∈ concat (table t0) ++ concat (table t1)).
Proof.
  intros Hok0 Hok1 Hs0 Hs1 Hk Hj Hkj Hv.
  assert (Hm : forall t n, ht_ok t -> size t = 2 ^ n -> 0 <= n -> sizemask t = 2 ^ n - 1 /\ msize (table t) = 2 ^ n).
  { intros t n (k' & Hk' & Hs & Hm & Hl & _) Hs' Hn. assert (k' = n) as -> by (apply (Z.pow_inj_r 2); lia). done. }
  destruct (Hm t0 k Hok0 Hs0) as [Hm0 Hl0]; [lia|]. destruct (Hm t1 (k + j) Hok1 Hs1) as [Hm1 Hl1]; [lia|].
  rewrite Hm0, Hm1, land_mask, Z.mod_small by lia.
  destruct (bucket_Some t0 v) as (c & -> & Hc); [lia|]. cbn [obind].
  destruct (expansions_spec t1 k j v (length (table t1)) 0 c) as (out' & E & Hout'); try lia.
  { unfold msize in Hl1. rewrite Z.pow_add_r in Hl1 by lia. pose proof (Z.pow_pos_nonneg 2 k). pose proof (Z.pow_pos_nonneg 2 j). nia. }
  rewrite Z.mul_0_l, Z.add_0_l in E. rewrite E. cbn [obind]. eexists. split; [done|]. split.
  - intros e [He|He]%elem_of_app Heq; apply elem_of_app.
    + left. apply (bucket_entries t0 k v c Hok0 Hs0 Hk); [by rewrite Z.mod_small by lia|done|by rewrite (Z.mod_small v) by lia].
    + right. apply Hout'. by apply (large_entries t1 k j v e).
  - intros e [He|He]%elem_of_app; apply elem_of_app.
    + left. apply elem_of_concat. eauto.
    + right. apply Hout' in He as (y' & c' & _ & Hc' & He). apply elem_of_concat. eauto.
Qed.
Lemma scan_tail (out : list (K * V)) v v1 k :
  0 <= k <= 64 -> 0 <= v < 2 ^ 64 -> 0 <= v1 < 2 ^ 64 -> v1 mod 2 ^ k = v mod 2 ^ k ->
  (w <- rev (Z.lor v1 (not64 (2 ^ k - 1)));; w <- rev (uint 64 (w + 1));; Some (out, w)) = Some (out, next_cursor v k).
Proof.
  intros Hk Hv Hv1 E. pose proof (next_cursor_steps v1 k Hk Hv1) as En. rewrite rev_rho in *. cbn [obind] in *.
  rewrite En. cbn [obind]. unfold next_cursor. apply (rho_bucket v1 v k) in E; [|done..]. by rewrite E.
Qed.

Lemma scan_rehashing d (t0 t1 : dictht K V) k0 k1 v :
  ht_ok t0 -> ht_ok t1 -> size t0 = 2 ^ k0 -> size t1 = 2 ^ k1 -> 2 <= k0 <= k1 -> k1 <= 30 -> 0 <= v < 2 ^ k0 ->
  concat (table t0) ++ concat (table t1) ≡ₚ entries d ->
  exists out, (' (out, v, m0) <- (de <- bucket t0 (Z.land v (sizemask t0));;
      ' (out, v) <- scan_expansions (length (table t1)) t1 (sizemask t0) (sizemask t1) v de;;
      Some (out, v, sizemask t0));;
    v <- rev (Z.lor v (not64 m0));; v <- rev (uint 64 (v + 1));; Some (out, v)) = Some (out, next_cursor v k0) /\
    (forall e, e ∈ entries d -> hashFunction e.1 mod 2 ^ k0 = v mod 2 ^ k0 -> e ∈ out) /\
    (forall e, e ∈ out -> e ∈ entries d).
Proof.
  intros Hok0 Hok1 Hs0 Hs1 Hk Hk1 Hv Hp.
  destruct (scan_two t0 t1 k0 (k1 - k0) v) as (out & -> & Hin & Hout); try lia; try done.
  { rewrite Hs1. f_equal. lia. }
  cbn [obind]. replace (k0 + (k1 - k0)) with k1 by lia. exists out.
  pose proof (Z.pow_le_mono_r 2 k0 k1 ltac:(lia) ltac:(lia)). pose proof (Z.pow_le_mono_r 2 k1 30 ltac:(lia) ltac:(lia)).
  split; [|setoid_rewrite <- Hp; done].
  apply scan_tail; try lia. rewrite Z.add_comm. replace k1 with (k0 + (k1 - k0)) by lia.
  rewrite Z.pow_add_r, Z.mul_comm, Z_mod_plus_full by lia. done.
Qed.

Lemma scan_call d v :
  dict_ok d -> entries d <> [] -> msize (entries d) < 2 ^ 63 -> 0 <= v < 2 ^ 64 -> cursor_fits d v ->
  exists out k, dictScan d v = Some (out, next_cursor v k) /\ 2 <= k <= 30 /\ small_size d = 2 ^ k /\
    (forall e, e ∈ entries d -> hashFunction e.1 mod 2 ^ k = v mod 2 ^ k -> e ∈ out) /\
    (forall e, e ∈ out -> e ∈ entries d).
Proof.
  intros Hd Hne Hfit Hv Hcur. unfold dictScan, dictSize. destruct (used_total d Hd) as (Hu & Hu0 & Hu1).
  assert (Hpos : 0 < msize (entries d)) by (destruct (entries d); [done|rewrite msize_cons; pose proof (msize_nonneg l); lia]).
  rewrite uint_id, Hu, (proj2 (Z.eqb_neq _ _)) by lia.
  unfold cursor_fits, small_size in *. destruct (dictIsRehashing d) eqn:Hreh; cbn [negb].
  - specialize (Hcur eq_refl). destruct (rehashing_ok d Hd Hreh) as (_ & Hok0 & Hok1 & _).
    pose proof Hok0 as (k0 & Hk0 & Hs0 & _). pose proof Hok1 as (k1 & Hk1 & Hs1 & _). rewrite Hs0, Hs1 in *.
    rewrite Z.gtb_ltb. destruct (Z.ltb_spec (2 ^ k1) (2 ^ k0)) as [Hlt|Hge].
    + assert (k1 < k0) by (apply (Z.pow_lt_mono_r_iff 2); lia). rewrite Z.min_r in * by lia.
      destruct (scan_rehashing d (ht1 d) (ht0 d) k1 k0 v) as (out & E & Hin & Hout); try lia; try done.
      { apply Permutation_app_comm. }
      exists out, k1. split_and!; try done; lia.
    + assert (k0 <= k1) by (apply (Z.pow_le_mono_r_iff 2); lia). rewrite Z.min_l in * by lia.
      destruct (scan_rehashing d (ht0 d) (ht1 d) k0 k1 v) as (out & E & Hin & Hout); try lia; try done.
      exists out, k0. split_and!; try done; lia.
  - destruct (not_rehashing_ok d Hd Hreh) as (_ & [E|Hok0] & E1).
    { exfalso. apply Hne. unfold entries. by rewrite E, E1. }
    pose proof Hok0 as (k & Hk & Hs & Hm & Hl & _). rewrite Hm, land_mask by lia.
    pose proof (Z.mod_pos_bound v (2 ^ k) ltac:(lia)).
    destruct (bucket_Some (ht0 d) (v mod 2 ^ k)) as (c & -> & Hc); [lia|]. cbn [obind].
    exists c, k. split; [by apply scan_tail; try lia|]. split; [done|]. split; [done|].
    assert (Ee : entries d = concat (table (ht0 d))) by (unfold entries; rewrite E1; cbn; by rewrite app_nil_r).
    rewrite Ee. split.
    + intros e He Heq. by apply (bucket_entries (ht0 d) k v c Hok0 Hs ltac:(lia)).
    + intros e He. apply elem_of_concat. eauto.
Qed.

(** ** Complete scans *)

Lemma next_cursor_range v k : 0 <= next_cursor v k < 2 ^ 64.
Proof. apply rho_range. Qed.

(** The hashes not yet passed by the cursor are reported now or are not
    passed by the next cursor. *)
Lemma next_cursor_progress v k h :
  2 <= k <= 30 -> 0 <= v < 2 ^ 64 -> 0 <= h < 2 ^ 64 -> rho v <= rho h ->
  h mod 2 ^ k = v mod 2 ^ k \/ (next_cursor v k <> 0 /\ rho v < rho (next_cursor v k) <= rho h).
Proof.
  intros Hk Hv Hh Hle. pose proof (rho_range v) as Hrv. pose proof (rho_range h) as Hrh.
  set (w := 2 ^ (64 - k)). assert (Hw : 0 < w) by (apply Z.pow_pos_nonneg; lia).
  destruct (decide (rho h / w = rho v / w)) as [E|Hne]; [left; apply rho_bucket; done || lia|right].
  assert (Hlt : rho v / w < rho h / w) by (pose proof (Z.div_le_mono (rho v) (rho h) w Hw Hle); lia).
  pose proof (Z.div_mod (rho v) w ltac:(lia)) as Dv. pose proof (Z.mod_pos_bound (rho v) w Hw).
  pose proof (Z.div_mod (rho h) w ltac:(lia)) as Dh. pose proof (Z.mod_pos_bound (rho h) w Hw).
  unfold next_cursor. fold w. set (b := rho v / w * w + w).
  assert (Hb : rho v < b <= rho h) by (unfold b; nia). rewrite uint_id by lia.
  rewrite rho_involutive by lia. split; [|done]. intros E. apply (f_equal rho) in E.
  rewrite rho_involutive in E by lia. change (rho 0) with 0 in E. lia.
Qed.

Lemma next_cursor_last v k h :
  2 <= k <= 30 -> 0 <= v < 2 ^ 64 -> 0 <= h < 2 ^ 64 -> rho v <= rho h -> next_cursor v k = 0 ->
  h mod 2 ^ k = v mod 2 ^ k.
Proof. intros Hk Hv Hh Hle E. destruct (next_cursor_progress v k h) as [|[? _]]; done. Qed.

Lemma next_cursor_forward v k : 2 <= k <= 30 -> next_cursor v k = 0 \/ rho v < rho (next_cursor v k).
Proof.
  intros Hk. unfold next_cursor. pose proof (rho_range v) as Hrv. set (w := 2 ^ (64 - k)).
  assert (Hw : 0 < w) by (apply Z.pow_pos_nonneg; lia).
  assert (Hww : w * 2 ^ k = 2 ^ 64) by (unfold w; rewrite <- Z.pow_add_r by lia; f_equal; lia).
  pose proof (Z.div_mod (rho v) w ltac:(lia)). pose proof (Z.mod_pos_bound (rho v) w Hw).
  assert (Hq : rho v / w < 2 ^ k) by (apply Z.div_lt_upper_bound; lia).
  set (b := rho v / w * w + w). assert (Hb : rho v < b <= 2 ^ 64) by (unfold b; nia).
  destruct (decide (b = 2 ^ 64)) as [->|]; [by left|right].
  rewrite rho_involutive by (by apply uint_range). rewrite uint_id by lia. lia.
Qed.

Lemma next_cursor_small v k : 2 <= k <= 30 -> 0 <= next_cursor v k < 2 ^ k.
Proof.
  intros Hk. split; [apply next_cursor_range|]. apply lt_pow2_bits; [lia|apply next_cursor_range|].
  intros i Hi. destruct (Z.lt_ge_cases i 64); [|apply (testbit_high _ 64); [apply next_cursor_range|lia]].
  unfold next_cursor. rewrite rho_bit by lia. unfold uint. rewrite Z.mod_pow2_bits_low by lia.
  replace (rho v / 2 ^ (64 - k) * 2 ^ (64 - k) + 2 ^ (64 - k)) with ((rho v / 2 ^ (64 - k) + 1) * 2 ^ (64 - k)) by lia.
  apply Z.mul_pow2_bits_low. lia.
Qed.

(** Every state of the dictionary during the scan has the key, and the cursor fits. *)
Fixpoint scan_ok (key : K) (ds : list (dict K V)) (v : Z) : Prop :=
  match ds with
  | [] => True
  | d :: ds => dict_ok d /\ msize (entries d) < 2 ^ 63 /\ (exists x, (key, x) ∈ entries d) /\ cursor_fits d v /\
      forall out v', dictScan d v = Some (out, v') -> scan_ok key ds v'
  end.

Lemma hash_range64 key : 0 <= hashFunction key < 2 ^ 64.
Proof. pose proof (hashFunction_range key). lia. Qed.

Lemma scan_ok_call key d ds v :
  scan_ok key (d :: ds) v -> 0 <= v < 2 ^ 64 ->
  exists out k, dictScan d v = Some (out, next_cursor v k) /\ 2 <= k <= 30 /\ scan_ok key ds (next_cursor v k) /\
    (hashFunction key mod 2 ^ k = v mod 2 ^ k -> exists x, (key, x) ∈ out) /\ (forall e, e ∈ out -> e ∈ entries d).
Proof.
  intros (Hd & Hfit & (x & Hx) & Hcur & Hnext) Hv.
  destruct (scan_call d v Hd) as (out & k & E & Hk & _ & Hin & Hout); try done.
  { intros En. rewrite En in Hx. by apply not_elem_of_nil in Hx. }
  exists out, k. split_and!; try done; try lia; [by eapply Hnext|]. intros Heq. exists x. by apply Hin.
Qed.

Lemma scan_calls_total key ds v :
  scan_ok key ds v -> 0 <= v < 2 ^ 64 ->
  exists out v', scan_calls ds v = Some (out, v') /\ forall e, e ∈ out -> exists d', d' ∈ ds /\ e ∈ entries d'.
Proof.
  revert v. induction ds as [|d ds IH]; intros v Hok Hv; cbn [scan_calls].
  { exists [], v. split; [done|]. intros e He. by apply not_elem_of_nil in He. }
  destruct (scan_ok_call key d ds v Hok Hv) as (out & k & -> & _ & Hok' & _ & Hout). cbn [obind].
  destruct (IH _ Hok' (next_cursor_range v k)) as (out' & v' & -> & Hout'). cbn [obind].
  eexists _, _. split; [done|]. intros e [He|He]%elem_of_app.
  - exists d. split; [by apply elem_of_cons; left|by apply Hout].
  - destruct (Hout' e He) as (d' & Hd' & He'). exists d'. split; [by apply elem_of_cons; right|done].
Qed.

Lemma scan_calls_complete key d ds v out :
  scan_ok key (d :: ds) v -> 0 <= v < 2 ^ 64 -> rho v <= rho (hashFunction key) ->
  scan_calls (d :: ds) v = Some (out, 0) -> exists x, (key, x) ∈ out.
Proof.
  revert d v out. induction ds as [|d' ds IH]; intros d v out Hok Hv Hle E; cbn [scan_calls] in E;
    destruct (scan_ok_call key d _ v Hok Hv) as (out1 & k & E1 & Hk & Hok' & Hin & _); rewrite E1 in E; cbn [obind] in E.
  - injection E as <- E0. destruct (Hin (next_cursor_last v k _ Hk Hv (hash_range64 key) Hle E0)) as [x Hx].
    exists x. rewrite app_nil_r. done.
  - destruct (next_cursor_progress v k (hashFunction key) Hk Hv (hash_range64 key) Hle) as [Heq|(_ & Hprog)].
    + destruct (Hin Heq) as [x Hx]. exists x. change ((' (out', v) <- scan_calls (d' :: ds) (next_cursor v k);; Some (out1 ++ out', v)) = Some (out, 0)) in E.
      destruct (scan_calls (d' :: ds) (next_cursor v k)) as [[out' v']|]; [|done]. cbn [obind] in E. injection E as <- _.
      apply elem_of_app. by left.
    + change ((' (out', v) <- scan_calls (d' :: ds) (next_cursor v k);; Some (out1 ++ out', v)) = Some (out, 0)) in E.
      destruct (scan_calls (d' :: ds) (next_cursor v k)) as [[out' v']|] eqn:E2; [|done]. cbn [obind] in E. injection E as <- ->.
      destruct (IH d' (next_cursor v k) out' Hok' (next_cursor_range v k)) as [x Hx]; [lia|done|].
      exists x. apply elem_of_app. by right.
Qed.
End Call.

(** * Iterators report every entry once *)

Section Iterate.
Context {K V : Type} `{Countable K, dictType K, !DictTypeOk K}.
Implicit Types (d : dict K V) (it : dictIterator K V).

(** [while ((de = dictNext(iter)) != NULL)]: the entries and the final states. *)
Fixpoint iterate (fuel : nat) (a0 a1 : Z) (d : dict K V) (it : dictIterator K V) : option (list (K * V) * dict K V * dictIterator K V) :=
  match fuel with
  | O => None
  | S fuel =>
    ' (d, it, e) <- dictNext a0 a1 d it;;
    match e with
    | None => Some ([], d, it)
    | Some e => ' (es, d, it) <- iterate fuel a0 a1 d it;; Some (e :: es, d, it)
    end
  end.

(** Tables as [ht_ok] or none. *)
Definition tables_ok (d : dict K V) : Prop :=
  size (ht0 d) = msize (table (ht0 d)) /\ size (ht1 d) = msize (table (ht1 d)) /\
  size (ht0 d) <= 2 ^ 30 /\ size (ht1 d) <= 2 ^ 30 /\ (dictIsRehashing d = false -> table (ht1 d) = []) /\
  (dictIsRehashing d = true -> 0 < size (ht1 d)).

Lemma dict_tables_ok d : dict_ok d -> tables_ok d.
Proof.
  intros Hd. unfold tables_ok.
  assert (Hh : forall h : dictht K V, h = _dictReset \/ ht_ok h -> size h = msize (table h) /\ size h <= 2 ^ 30).
  { intros h [->|Hok]; [done|]. destruct (ht_ok_size h Hok) as (? & ? & _). lia. }
  destruct (dictIsRehashing d) eqn:Hreh.
  - destruct (rehashing_ok d Hd Hreh) as (_ & H0' & H1' & _). pose proof (ht_ok_size _ H1').
    destruct (Hh _ (or_intror H0')), (Hh _ (or_intror H1')). split_and!; try done; lia.
  - destruct (not_rehashing_ok d Hd Hreh) as (_ & H0' & E1). rewrite E1. destruct (Hh _ H0'). split_and!; try done; lia.
Qed.

(** The entries behind the current bucket. *)
Definition later (d : dict K V) (it : dictIterator K V) : list (K * V) :=
  concat (drop (Z.to_nat (it_index it + 1)) (table (ht d (it_table it)))) ++
  (if it_table it =? 0 then concat (table (ht1 d)) else []).

(** The entries an iterator has not reported yet. *)
Definition todo (d : dict K V) (it : dictIterator K V) : list (K * V) :=
  (match it_entry it with [] => [] | _ => it_nextEntry it end) ++ later d it.

Definition iter_ok (d : dict K V) (it : dictIterator K V) : Prop :=
  (it_table it = 0 \/ it_table it = 1 /\ dictIsRehashing d = true) /\
  -1 <= it_index it < size (ht d (it_table it)) /\ (it_table it = 1 -> 0 <= it_index it).

(** Buckets to come. *)
Definition buckets_left (d : dict K V) (it : dictIterator K V) : Z :=
  size (ht d (it_table it)) - it_index it + (if it_table it =? 0 then size (ht1 d) else 0).

Definition same_tables (d d' : dict K V) : Prop := ht0 d' = ht0 d /\ ht1 d' = ht1 d /\ rehashidx d' = rehashidx d.

Definition started (it : dictIterator K V) : bool := negb ((it_index it =? -1) && (it_table it =? 0)).

(** The safe iterator is counted from its first step on. *)
Definition count_ok (n : Z) (d : dict K V) (it : dictIterator K V) : Prop :=
  - 2 ^ 31 <= n < 2 ^ 31 - 1 /\ it_safe it = true /\ iterators d = if started it then n + 1 else n.

Lemma started_pos it : 0 <= it_index it -> started it = true.
Proof. intros. unfold started. by rewrite (proj2 (Z.eqb_neq _ _)) by lia. Qed.

Lemma next_bucket_spec a0 a1 n d it :
  tables_ok d -> iter_ok d it -> count_ok n d it -> it_entry it = [] ->
  exists d' it' more, next_bucket a0 a1 d it = Some (d', it', more) /\ same_tables d d' /\ count_ok n d' it' /\
    started it' = true /\ (if more : bool then iter_ok d' it' /\ later d it = it_entry it' ++ later d' it' /\
       buckets_left d' it' < buckets_left d it else later d it = []).
Proof.
  intros (Hs0 & Hs1 & Hb0 & Hb1 & Hn1 & Hp1) (Ht & Hi & Ht1) (Hn & Hsafe & Hcnt) Hentry.
  assert (Hst : size (ht d (it_table it)) = msize (table (ht d (it_table it))) /\ size (ht d (it_table it)) <= 2 ^ 30)
    by (destruct Ht as [->|[-> _]]; done).
  destruct Hst as [Hst Hbt]. unfold next_bucket. rewrite Hsafe. cbn [negb andb]. rewrite andb_true_r, andb_false_r.
  unfold started in Hcnt. set (first := (it_index it =? -1) && (it_table it =? 0)) in *.
  set (d' := mkDict (ht0 d) (ht1 d) (rehashidx d) (n + 1)).
  assert (Ed : (if first then n0 <- int_arith (iterators d + 1);; Some (mkDict (ht0 d) (ht1 d) (rehashidx d) n0) else Some d) = Some d').
  { destruct first; cbn [negb] in Hcnt; [rewrite int_arith_Some by lia; cbn [obind]; unfold d'; by rewrite Hcnt|].
    unfold d'. rewrite <- Hcnt. by destruct d. }
  rewrite Ed. cbn [obind]. rewrite int_arith_Some by lia. cbn [obind].
  assert (Eht : forall t, ht d' t = ht d t) by done. rewrite Eht. change (dictIsRehashing d') with (dictIsRehashing d).
  assert (Hc' : forall t i e ne fp, 0 <= i -> count_ok n d' (mkIter t i true e ne fp)).
  { intros t i e ne fp Hpos. split; [done|]. split; [done|]. by rewrite started_pos. }
  rewrite Z.geb_leb. destruct (Z.leb_spec (size (ht d (it_table it))) (it_index it + 1)) as [Hge|Hlt].
  - assert (Hcur : concat (drop (Z.to_nat (it_index it + 1)) (table (ht d (it_table it)))) = []).
    { rewrite drop_ge; [done|]. unfold msize in Hst. lia. }
    unfold later at 1 3. rewrite Hcur. cbn [app].
    destruct (dictIsRehashing d && (it_table it =? 0)) eqn:Esw.
    + apply andb_true_iff in Esw as [Hreh Et%Z.eqb_eq]. specialize (Hp1 Hreh).
      change (ht1 d') with (ht1 d). destruct (bucket_Some (ht1 d) 0) as (e & -> & He); [lia|]. cbn [obind].
      eexists d', _, true. split; [done|]. split; [done|]. split; [by apply Hc'|]. split; [done|]. rewrite Et in *.
      split; [split_and!; [by right|cbn; lia..]|]. split.
      * unfold later. cbn [it_table it_index it_entry Z.eqb]. rewrite app_nil_r. change (ht d' 1) with (ht1 d).
        change (Z.to_nat 0) with 0%nat in He. destruct (table (ht1 d)) as [|b t]; [done|]. injection He as ->. done.
      * unfold buckets_left. rewrite Et. cbn in *. lia.
    + eexists d', _, false. split; [done|]. split; [done|]. split; [apply Hc'; lia|]. split; [apply started_pos; cbn; lia|].
      destruct (Z.eqb_spec (it_table it) 0) as [E0|]; [|done]. apply andb_false_iff in Esw as [Hreh|E1]; [|done]. by rewrite Hn1.
  - destruct (bucket_Some (ht d (it_table it)) (it_index it + 1)) as (e & -> & He); [lia|]. cbn [obind].
    eexists d', _, true. split; [done|]. split; [done|]. split; [apply Hc'; lia|]. split; [apply started_pos; cbn; lia|].
    split; [split_and!; [done|cbn; rewrite ?Eht; lia..]|]. split.
    + unfold later. cbn [it_table it_index it_entry]. rewrite Eht, (drop_S _ _ _ He). cbn [concat]. rewrite <- app_assoc.
      replace (Z.to_nat (it_index it + 1 + 1)) with (S (Z.to_nat (it_index it + 1))) by lia. done.
    + unfold buckets_left. cbn [it_table it_index]. rewrite Eht. change (ht1 d') with (ht1 d). lia.
Qed.
Lemma same_tables_spec d d' it : same_tables d d' ->
  (tables_ok d -> tables_ok d') /\ buckets_left d' it = buckets_left d it /\ later d' it = later d it /\
  (dict_ok d -> dict_ok d') /\ entries d' = entries d.
Proof.
  intros (E0 & E1 & Er).
  assert (Eh : forall t, ht d' t = ht d t) by (intros t; unfold ht; by rewrite E0, E1).
  assert (Ei : dictIsRehashing d' = dictIsRehashing d) by (unfold dictIsRehashing; by rewrite Er).
  unfold tables_ok, buckets_left, later, dict_ok, entries. rewrite !Eh, Ei, E0, E1, Er. done.
Qed.

Lemma next_loop_spec fuel a0 a1 n d it :
  tables_ok d -> iter_ok d it -> count_ok n d it -> (it_entry it <> [] -> started it = true) ->
  buckets_left d it + (if decide (it_entry it = []) then 0 else 1) < Z.of_nat fuel ->
  exists d' it' r, dictNext_loop fuel a0 a1 d it = Some (d', it', r) /\ same_tables d d' /\ count_ok n d' it' /\ started it' = true /\
    match r with
    | None => todo d it = []
    | Some e => todo d it = e :: todo d' it' /\ iter_ok d' it' /\ it_entry it' <> []
    end.
Proof.
  revert d it. induction fuel as [|fuel IH]; intros d it Htab Hit Hcnt Hst Hf.
  { destruct Hit as (_ & Hi & _). unfold buckets_left in Hf. destruct Htab as (_ & Hs1 & _). pose proof (msize_nonneg (table (ht1 d))).
    destruct (_ =? 0), (decide _); lia. }
  cbn [dictNext_loop]. unfold todo. destruct (it_entry it) as [|e0 en] eqn:Eentry.
  - rewrite decide_True in Hf by done. cbn [app].
    destruct (next_bucket_spec a0 a1 n d it Htab Hit Hcnt Eentry) as (d1 & it1 & more & -> & Hsame & Hcnt1 & Hst1 & Hmore).
    cbn [obind]. destruct more; cbn [negb].
    + destruct Hmore as (Hit1 & Hl & Hb). destruct (it_entry it1) as [|e next] eqn:Ee1.
      * destruct (IH d1 it1) as (d' & it' & r & -> & Hsame' & Hc' & Hs' & Hr); try done.
        { by apply (same_tables_spec d d1 it). }
        { rewrite decide_True by done. lia. }
        exists d', it', r. split; [done|]. split; [destruct Hsame as (? & ? & ?), Hsame' as (? & ? & ?); split_and!; congruence|].
        split; [done|]. split; [done|]. unfold todo in Hr. rewrite Ee1 in Hr. cbn [app] in Hl, Hr. by rewrite Hl.
      * eexists d1, _, (Some e). split; [done|]. split; [done|]. split_and!; try done.
    + exists d1, it1, None. done.
  - rewrite decide_False in Hf by done. cbn [obind negb it_entry]. destruct (it_nextEntry it) as [|e next] eqn:En.
    + destruct (IH d (mkIter (it_table it) (it_index it) (it_safe it) [] [] (fingerprint it))) as (d' & it' & r & -> & Hsame' & Hc' & Hs' & Hr); try done.
      { rewrite decide_True by done. change (buckets_left d (mkIter (it_table it) (it_index it) (it_safe it) [] [] (fingerprint it))) with (buckets_left d it). lia. }
      exists d', it', r. done.
    + eexists d, _, (Some e). split; [done|]. split; [done|]. split; [done|]. split; [by apply Hst|]. done.
Qed.

Lemma iterate_spec fuel a0 a1 n d it :
  tables_ok d -> iter_ok d it -> count_ok n d it -> (it_entry it <> [] -> started it = true) ->
  (length (todo d it) < fuel)%nat ->
  exists d' it', iterate fuel a0 a1 d it = Some (todo d it, d', it') /\ same_tables d d' /\ count_ok n d' it' /\ started it' = true.
Proof.
  revert d it. induction fuel as [|fuel IH]; intros d it Htab Hit Hcnt Hst Hf; [lia|]. cbn [iterate]. unfold dictNext.
  destruct (next_loop_spec (2 + length (table (ht0 d)) + length (table (ht1 d))) a0 a1 n d it) as (d1 & it1 & r & -> & Hsame & Hc1 & Hs1 & Hr); try done.
  { destruct Htab as (Hs0 & Hs1 & _). destruct Hit as (Ht & Hi & Ht1). unfold buckets_left, msize in *.
    assert (Hidx : it_entry it <> [] -> 0 <= it_index it).
    { intros Hne. specialize (Hst Hne). unfold started in Hst. apply negb_true_iff, andb_false_iff in Hst as [E|E].
      - apply Z.eqb_neq in E. lia.
      - apply Z.eqb_neq in E. destruct Ht as [?|[? _]]; [done|]. by apply Ht1. }
    destruct Ht as [E|[E _]]; rewrite E in *; cbn in *; destruct (decide (it_entry it = [])) as [|Hne]; try specialize (Hidx Hne); lia. }
  cbn [obind]. destruct r as [e|].
  - destruct Hr as (Htodo & Hit1 & Hne1). rewrite Htodo in Hf |- *. cbn in Hf.
    destruct (IH d1 it1) as (d' & it' & -> & Hsame' & Hc' & Hs'); try done; [by apply (same_tables_spec d d1 it)|lia|].
    cbn [obind]. exists d', it'. split; [done|]. split; [|done].
    destruct Hsame as (? & ? & ?), Hsame' as (? & ? & ?); split_and!; congruence.
  - rewrite Hr. exists d1, it1. done.
Qed.
End Iterate.

(** * Theorems *)

(** C21. A scan started with cursor 0 and continued until the cursor is 0
    again reports every key that is in the dictionary at all calls, whatever
    resizing and rehashing happens between them, provided that no call meets
    a rehashing whose smaller table the cursor exceeds; it reports nothing
    that was not in the dictionary. *)
Theorem dict_scan_complete {K V} `{Countable K, dictType K, !DictTypeOk K} (key : K) (d : dict K V) (ds : list (dict K V)) :
  scan_ok key (d :: ds) 0 ->
  exists out v, scan_calls (d :: ds) 0 = Some (out, v) /\ (v = 0 -> exists x, (key, x) ∈ out) /\
    forall e, e ∈ out -> exists d', d' ∈ d :: ds /\ e ∈ entries d'.
Proof.
  intros Hok. destruct (scan_calls_total key (d :: ds) 0 Hok) as (out & v & E & Hout); [lia|].
  exists out, v. split; [done|]. split; [|done]. intros ->.
  apply (scan_calls_complete key d ds 0 out); try done. apply rho_range.
Qed.

Lemma sample_scan_ok : @scan_ok Z Z int_dictType 4 [sample_dict; sample_dict; sample_dict; sample_dict] 0.
Proof.
  destruct sample_dict_repr as (Hd & Hp & _).
  assert (Hsz : msize (entries sample_dict) < 2 ^ 63) by (rewrite (msize_perm _ _ Hp); by vm_compute).
  assert (Hin : exists x, (4, x) ∈ entries sample_dict).
  { exists 40. rewrite Hp. apply elem_of_map_to_list. by vm_compute. }
  cbn [scan_ok].
  do 4 (split; [done|]; split; [done|]; split; [done|]; split; [intros _; by vm_compute|];
    intros ? ? E; vm_compute in E; injection E as _ <-). done.
Qed.

Lemma dict_scan_complete_witness :
  exists out v, scan_calls [sample_dict; sample_dict; sample_dict; sample_dict] 0 = Some (out, v) /\
    (v = 0 -> exists x, (4, x) ∈ out) /\
    forall e, e ∈ out -> exists d', d' ∈ [sample_dict; sample_dict; sample_dict; sample_dict] /\ e ∈ entries d'.
Proof.
  apply (@dict_scan_complete Z Z _ _ int_dictType int_dictTypeOk 4 sample_dict [sample_dict; sample_dict; sample_dict] sample_scan_ok).
Defined.

(** Each call moves the cursor forward in reversed bit order or ends the
    scan, and the cursor it returns is inside the (smaller) table of the call. *)
Theorem dict_scan_advances {K V} `{Countable K, dictType K, !DictTypeOk K} (d : dict K V) (v : Z) :
  dict_ok d -> entries d <> [] -> msize (entries d) < 2 ^ 63 -> 0 <= v < 2 ^ 64 -> cursor_fits d v ->
  exists out v', dictScan d v = Some (out, v') /\ (v' = 0 \/ rho v < rho v') /\ 0 <= v' < small_size d.
Proof.
  intros Hd Hne Hfit Hv Hcur. destruct (scan_call d v Hd Hne Hfit Hv Hcur) as (out & k & E & Hk & Hs & _).
  eexists _, _. split; [exact E|]. rewrite Hs. split; [|by apply next_cursor_small]. by apply next_cursor_forward.
Qed.

Lemma dict_scan_advances_witness :
  exists out v', dictScan sample_dict 2 = Some (out, v') /\ (v' = 0 \/ rho 2 < rho v') /\ 0 <= v' < small_size sample_dict.
Proof.
  apply (@dict_scan_advances Z Z _ _ int_dictType int_dictTypeOk sample_dict 2); [apply sample_dict_repr| | | |].
  - by vm_compute.
  - by vm_compute.
  - done.
  - intros _. by vm_compute.
Defined.

(** A table of 16 buckets with the keys 4 and 8, then shrinking. *)
Definition shrink_ops : list (bool * dop Z Z) :=
  [(true, OAdd 0 0); (true, OAdd 1 0); (true, OAdd 2 0); (true, OAdd 3 0); (true, OAdd 4 0); (true, OAdd 5 0);
   (true, OAdd 6 0); (true, OAdd 7 0); (true, ORehash 100); (true, OAdd 8 0); (true, ORehash 100); (true, ODelete 0); (true, ODelete 1);
   (true, ODelete 2); (true, ODelete 3); (true, ODelete 5); (true, ODelete 6); (true, ODelete 7)].

Definition run_to_dict (ops : list (bool * dop Z Z)) : dict Z Z :=
  match @run_dops Z Z int_dictType 0 dictCreate ops with Some (d, _) => d | None => dictCreate end.

Definition before_shrink : dict Z Z := run_to_dict shrink_ops.
Definition during_shrink : dict Z Z := run_to_dict (shrink_ops ++ [(true, OResize)]).

Lemma run_to_dict_repr ops : msize ops <= 2 ^ 29 -> @dict_repr Z Z _ _ int_dictType (run_to_dict ops) (spec_dops ∅ ops).1.
Proof.
  intros Hm. unfold run_to_dict.
  destruct (@run_dops_spec Z Z _ _ int_dictType int_dictTypeOk 0 dictCreate ∅ ops) as (d & -> & Hrep); [apply create_spec| |done].
  rewrite map_size_empty. lia.
Qed.

(** C33. The documented guarantee of [dictScan], that all the elements present
    from the start to the end are returned, fails when the table shrinks: in
    this run the key 4 is present at every call and is not returned. *)
Theorem dict_scan_misses_when_shrinking :
  exists m out, @dict_repr Z Z _ _ int_dictType before_shrink m /\ @dict_repr Z Z _ _ int_dictType during_shrink m /\
    m !! 4 = Some 0 /\
    scan_calls [before_shrink; during_shrink; during_shrink; during_shrink; during_shrink] 0 = Some (out, 0) /\
    forall x, (4, x) ∉ out.
Proof.
  exists (spec_dops ∅ shrink_ops).1, [(8, 0)]. split; [by apply run_to_dict_repr|].
  split; [by apply (run_to_dict_repr (shrink_ops ++ [(true, OResize)]))|].
  split; [by vm_compute|]. split; [by vm_compute|]. intros x Hx%list_elem_of_singleton. done.
Qed.

(** C28. A safe iterator reports every entry exactly once (in the order of the
    tables), leaves the tables as they are, and its release restores the
    number of running iterators. *)
Theorem dict_iterator_complete {K V} `{Countable K, dictType K, !DictTypeOk K} (d : dict K V) (m : gmap K V) (a0 a1 : Z) :
  dict_repr d m -> 0 <= iterators d < 2 ^ 31 - 1 ->
  exists es d' it, iterate (S (length (entries d))) a0 a1 d dictGetSafeIterator = Some (es, d', it) /\
    es ≡ₚ map_to_list m /\ dictReleaseIterator a0 a1 d' it = Some d.
Proof.
  intros (Hd & Hp & _) Hn.
  assert (Htodo : todo d dictGetSafeIterator = entries d) by done.
  destruct (iterate_spec (S (length (entries d))) a0 a1 (iterators d) d dictGetSafeIterator) as (d' & it & E & Hsame & Hc & Hs).
  { by apply dict_tables_ok. }
  { destruct (dict_tables_ok d Hd) as (Hs0 & _). pose proof (msize_nonneg (table (ht0 d))).
    split_and!; [by left|done|cbn; lia|done]. }
  { split_and!; [lia|lia|done|done]. }
  { done. }
  { rewrite Htodo. lia. }
  rewrite Htodo in E. exists (entries d), d', it. split; [done|]. split; [done|].
  unfold dictReleaseIterator. destruct Hc as (_ & -> & Hit). rewrite Hs in Hit.
  unfold started in Hs. rewrite Hs, Hit, int_arith_Some by lia. cbn [obind].
  destruct Hsame as (-> & -> & ->). destruct d as [h0 h1 r i]. cbn. do 2 f_equal. lia.
Qed.

Lemma dict_iterator_complete_witness :
  exists es d' it, iterate (S (length (entries sample_dict))) 0 0 sample_dict dictGetSafeIterator = Some (es, d', it) /\
    es ≡ₚ map_to_list sample_map /\ dictReleaseIterator 0 0 d' it = Some sample_dict.
Proof.
  apply (@dict_iterator_complete Z Z _ _ int_dictType int_dictTypeOk sample_dict sample_map 0 0 sample_dict_repr).
  by vm_compute.
Defined.
