(* ===== verification/Robj.v ===== *)
(** String objects and scores: the comparison of string objects of
    [object.c] ([compareStringObjects], [equalStringObjects]) and the
    comparison of IEEE doubles, both related to one lexicographic order. *)

From Stdlib Require Import SpecFloat.
From S2P Require Import Prelude.
From S2P Require Import Util.

(** * String objects

    A [robj] of type [REDIS_STRING]: either sds encoded (raw or embedded
    string) or a [long] stored in the pointer field. *)

Inductive robj :=
  | ObjSds (s : bytes)
  | ObjInt (v : Z).

Definition sdsEncodedObject (o : robj) : bool :=
  match o with ObjSds _ => true | ObjInt _ => false end.

#[export] Instance robj_eq_dec : EqDecision robj.
Proof. solve_decision. Defined.

(** [memcmp]: the difference of the first two bytes that differ, [None] on a
    read outside of the operands. *)
Fixpoint memcmp (a b : bytes) (n : nat) {struct n} : option Z :=
  match n, a, b with
  | O, _, _ => Some 0
  | S n, x :: a, y :: b => if x =? y then memcmp a b n else Some (x - y)
  | _, _, _ => None
  end.

Section Compare.
Context `{Host}.

(** The string of an object and its length; an integer is printed in a local
    buffer of 128 bytes. *)
Definition obj_string (o : robj) : option (bytes * Z) :=
  match o with
  | ObjSds s => Some (s, msize s)
  | ObjInt v => ll2string (zmalloc 128) 128 v
  end.

(** The [REDIS_COMPARE_BINARY] comparison.  The shortcut for two pointers to
    the same object returns 0, as the comparison of the contents does. *)
Definition compareStringObjects (a b : robj) : option Z :=
  ' (astr, alen) <- obj_string a;;
  ' (bstr, blen) <- obj_string b;;
  let minlen := if alen <? blen then alen else blen in
  cmp <- memcmp astr bstr (Z.to_nat minlen);;
  if cmp =? 0 then Some (sint 32 (uint 64 (alen - blen))) else Some cmp.

Definition equalStringObjects (a b : robj) : option bool :=
  match a, b with
  | ObjInt v, ObjInt w => Some (v =? w)
  | _, _ => c <- compareStringObjects a b;; Some (c =? 0)
  end.

(** The bytes an object stands for. *)
Definition obj_val (o : robj) : bytes :=
  match obj_string o with Some (s, n) => take (Z.to_nat n) s | None => [] end.

(** Objects the comparison is defined for: strings of at most 2^31 - 1
    characters, and integers other than the least one, on which [ll2string]
    overflows. *)
Definition robj_ok (o : robj) : Prop :=
  match o with
  | ObjSds s => msize s < 2 ^ 31
  | ObjInt v => LLONG_MIN < v <= LLONG_MAX
  end.

End Compare.

(** * Lexicographic order *)

Fixpoint lex (a b : list Z) : comparison :=
  match a, b with
  | [], [] => Eq
  | [], _ :: _ => Lt
  | _ :: _, [] => Gt
  | x :: a, y :: b => match x ?= y with Eq => lex a b | c => c end
  end.

Lemma lex_refl a : lex a a = Eq.
Proof. induction a as [|x a IH]; cbn; [done|]. by rewrite Z.compare_refl. Qed.

Lemma lex_eq a b : lex a b = Eq <-> a = b.
Proof.
  split; [|intros ->; apply lex_refl].
  revert b. induction a as [|x a IH]; intros [|y b]; cbn; try done.
  destruct (Z.compare_spec x y) as [->| |]; try done. intros ?. f_equal. by apply IH.
Qed.

Lemma lex_opp a b : lex b a = CompOpp (lex a b).
Proof.
  revert b. induction a as [|x a IH]; intros [|y b]; cbn; try done.
  rewrite (Z.compare_antisym x y). destruct (x ?= y); cbn; done.
Qed.

Lemma lex_trans a b c : lex a b = Lt -> lex b c = Lt -> lex a c = Lt.
Proof.
  revert b c. induction a as [|x a IH]; intros [|y b] [|z c]; cbn; try done.
  destruct (Z.compare_spec x y), (Z.compare_spec y z), (Z.compare_spec x z); subst; try done; try lia.
  apply IH.
Qed.

Lemma lex_total a b : lex a b <> Lt -> a = b \/ lex b a = Lt.
Proof.
  intros Hn. rewrite (lex_opp a b). destruct (lex a b) eqn:E; [left; by apply lex_eq|done|by right].
Qed.

(** * The comparison functions *)

(** A difference of sizes computed in [size_t] and returned as an [int]. *)
Lemma sint32_uint64 d : in_sint 32 d -> sint 32 (uint 64 d) = d.
Proof.
  intros Hd. rewrite <- (sint_id 32 d Hd ltac:(done)) at 2. unfold sint, uint. f_equal.
  rewrite <- (Z.add_mod_idemp_l (d mod 2 ^ 64)), <- (Z.add_mod_idemp_l d) by done.
  replace (2 ^ 64) with (2 ^ 32 * 2 ^ 32) by done. rewrite Z.rem_mul_r by done.
  rewrite Z.mul_comm, Z_mod_plus_full. by rewrite Z.mod_mod.
Qed.

Lemma decimal_value_inj s v v' :
  decimal s v -> decimal s v' -> in_sint 64 v -> in_sint 64 v' -> v = v'.
Proof.
  intros Hv Hv' Hr Hr'. pose proof (string2ll_complete s v Hv Hr).
  pose proof (string2ll_complete s v' Hv' Hr'). congruence.
Qed.

Section CompareSpec.
Context `{Host}.

Lemma obj_string_ok o : robj_ok o ->
  exists rest, obj_string o = Some (obj_val o ++ rest, msize (obj_val o)) /\
    0 <= msize (obj_val o) < 2 ^ 31.
Proof.
  assert (Hval : forall s rest, obj_string o = Some (s ++ rest, msize s) -> obj_val o = s).
  { intros s rest E. unfold obj_val. rewrite E. unfold msize. by rewrite Nat2Z.id, take_app_length. }
  pose proof (@msize_nonneg Z) as Hnn.
  destruct o as [s|v]; cbn [robj_ok obj_string] in *; intros Hok.
  - rewrite (Hval s []) by (by rewrite app_nil_r). exists []. by rewrite app_nil_r.
  - destruct (ll2string_spec (zmalloc 128) 128 v Hok) as (ds & rest & E & _ & Hsz & _).
    { unfold zmalloc. rewrite msize_fresh; lia. }
    rewrite (Hval _ _ E), E. exists (0 :: rest). split; [done|lia].
Qed.

Lemma memcmp_lex a b ra rb :
  exists c, memcmp (a ++ ra) (b ++ rb) (Nat.min (length a) (length b)) = Some c /\
    (if c =? 0 then msize a ?= msize b else c ?= 0) = lex a b.
Proof.
  revert b. induction a as [|x a IH]; intros [|y b]; cbn [length Nat.min memcmp app lex].
  - exists 0. split; [done|]. reflexivity.
  - exists 0. split; [done|]. cbn. rewrite msize_cons, msize_nil. apply Z.compare_lt_iff.
    pose proof (msize_nonneg b). lia.
  - exists 0. split; [done|]. cbn. rewrite msize_cons, msize_nil. apply Z.compare_gt_iff.
    pose proof (msize_nonneg a). lia.
  - destruct (Z.eqb_spec x y) as [->|Hne].
    + destruct (IH b) as (c & -> & Hc). exists c. split; [done|]. rewrite Z.compare_refl, <- Hc.
      rewrite !msize_cons. destruct (c =? 0); [|done].
      destruct (Z.compare_spec (msize a) (msize b)); [apply Z.compare_eq_iff|apply Z.compare_lt_iff|
        apply Z.compare_gt_iff]; lia.
    + eexists. split; [done|]. destruct (Z.eqb_spec (x - y) 0); [lia|].
      destruct (Z.compare_spec x y); [lia|apply Z.compare_lt_iff|apply Z.compare_gt_iff]; lia.
Qed.

(** The sign of [compareStringObjects] is the lexicographic order of the two
    strings, a proper prefix being smaller. *)
Lemma compareStringObjects_spec a b : robj_ok a -> robj_ok b ->
  exists c, compareStringObjects a b = Some c /\ (c ?= 0) = lex (obj_val a) (obj_val b).
Proof.
  intros (ra & Ea & Ha)%obj_string_ok (rb & Eb & Hb)%obj_string_ok.
  unfold compareStringObjects. rewrite Ea, Eb. cbn [obind].
  destruct (memcmp_lex (obj_val a) (obj_val b) ra rb) as (c & E & Hc).
  replace (Z.to_nat _) with (Nat.min (length (obj_val a)) (length (obj_val b)))
    by (unfold msize; bcase; lia).
  rewrite E. cbn [obind]. destruct (Z.eqb_spec c 0) as [->|].
  - eexists. split; [done|]. rewrite <- Hc. rewrite sint32_uint64 by (unfold in_sint; lia).
    destruct (Z.compare_spec (msize (obj_val a)) (msize (obj_val b)));
      [apply Z.compare_eq_iff|apply Z.compare_lt_iff|apply Z.compare_gt_iff]; lia.
  - exists c. by split.
Qed.

Lemma equalStringObjects_spec a b : robj_ok a -> robj_ok b ->
  equalStringObjects a b = Some (bool_decide (obj_val a = obj_val b)).
Proof.
  intros Ha Hb. unfold equalStringObjects.
  assert (Hc : (c <- compareStringObjects a b;; Some (c =? 0))
               = Some (bool_decide (obj_val a = obj_val b))).
  { destruct (compareStringObjects_spec a b Ha Hb) as (c & -> & Hc). cbn [obind]. f_equal.
    case_bool_decide as Heq.
    - rewrite Heq, lex_refl in Hc. apply Z.compare_eq_iff in Hc as ->. done.
    - apply Z.eqb_neq. intros ->. rewrite Z.compare_refl in Hc. symmetry in Hc. by apply lex_eq in Hc. }
  destruct a as [s|v], b as [s'|v']; try done. clear Hc. f_equal. cbn [robj_ok] in *.
  unfold obj_val, obj_string.
  destruct (ll2string_spec (zmalloc 128) 128 v Ha) as (ds & rest & -> & Hd & _).
  { unfold zmalloc. rewrite msize_fresh; lia. }
  destruct (ll2string_spec (zmalloc 128) 128 v' Hb) as (ds' & rest' & -> & Hd' & _).
  { unfold zmalloc. rewrite msize_fresh; lia. }
  unfold msize. rewrite !Nat2Z.id, !take_app_length.
  case_bool_decide as Heq.
  - subst. apply Z.eqb_eq. eapply decimal_value_inj; [done..| |];
    unfold in_sint, LLONG_MIN, LLONG_MAX in *; lia.
  - apply Z.eqb_neq. intros ->. apply Heq. by eapply decimal_inj.
Qed.

End CompareSpec.

(** * Scores

    C doubles as IEEE 754 values; on values that are not NaN the comparison
    is the lexicographic order of a key. *)

Abbreviation double := spec_float.

Definition isnan (x : double) : bool :=
  match x with S754_nan => true | _ => false end.

Definition double_key (x : double) : list Z :=
  match x with
  | S754_zero _ => [0; 0; 0]
  | S754_infinity s => [if s then -2 else 2; 0; 0]
  | S754_nan => []
  | S754_finite s m e => if s then [-1; - e; - Zpos m] else [1; e; Zpos m]
  end.

Lemma SFcompare_key x y : isnan x = false -> isnan y = false ->
  SFcompare x y = Some (lex (double_key x) (double_key y)).
Proof.
  destruct x as [|[]| |[] m e], y as [|[]| |[] m' e']; try done; intros _ _; cbn.
  - destruct (Z.compare_spec e e'), (Z.compare_spec (- e) (- e')); try lia; try done.
    change (Pos.compare_cont Eq m m') with (Pos.compare m m').
    change (- Z.pos m ?= - Z.pos m') with (CompOpp (Pos.compare m m')). by destruct (Pos.compare m m').
  - destruct (Z.compare_spec e e'); try done.
    change (Pos.compare_cont Eq m m') with (Pos.compare m m'). by destruct (Pos.compare m m').
Qed.

Lemma length_double_key x : isnan x = false -> length (double_key x) = 3%nat.
Proof. by destruct x as [| | |[]]. Qed.

(** Lexicographic order of two sequences, the first ones of equal length. *)
Lemma lex_app a b c d : length a = length b ->
  lex (a ++ c) (b ++ d) = match lex a b with Eq => lex c d | r => r end.
Proof.
  revert b. induction a as [|x a IH]; intros [|y b]; cbn; try done.
  intros [= Hl]. destruct (x ?= y); [by apply IH|done|done].
Qed.
