(* ===== verification/Skiplist.v ===== *)
(** The skiplists of sorted sets ([t_zset.c], [zsl*]): nodes on a heap with
    towers of forward pointers and spans, and one definition per function. *)

From stdpp Require Import gmap.
From Stdlib Require Import SpecFloat.
From S2P Require Import Prelude.
From S2P Require Import Util.
From S2P Require Import Robj.

(** * The heap *)

Abbreviation ptr := positive.

Record zskiplistLevel := MkLevel { forward : option ptr; span : Z }.

(** The header node has no object. *)
Record zskiplistNode := MkNode {
  obj : option robj;
  score : double;
  backward : option ptr;
  levels : list zskiplistLevel
}.

Record zskiplist := MkZsl {
  header : ptr;
  tail : option ptr;
  zlength : Z;
  zlevel : nat
}.

(** The nodes that are allocated, and the objects given to [decrRefCount],
    latest first. *)
Record mem := MkMem {
  nodes : gmap ptr zskiplistNode;
  decremented : list robj
}.

Definition set_nodes (m : mem) (ns : gmap ptr zskiplistNode) : mem :=
  {| nodes := ns; decremented := decremented m |}.

(** [x->level[i]] *)
Definition getLevel (m : mem) (x : ptr) (i : nat) : option zskiplistLevel :=
  n <- nodes m !! x;; levels n !! i.

Definition setLevel (m : mem) (x : ptr) (i : nat) (lv : zskiplistLevel) : option mem :=
  n <- nodes m !! x;;
  _ <- levels n !! i;;
  Some (set_nodes m (<[x := {| obj := obj n; score := score n; backward := backward n;
                              levels := <[i := lv]> (levels n) |}]> (nodes m))).

(** [x->level[i].forward = f], [x->level[i].span = s] *)
Definition setForward (m : mem) (x : ptr) (i : nat) (f : option ptr) : option mem :=
  lv <- getLevel m x i;; setLevel m x i {| forward := f; span := span lv |}.

Definition setSpan (m : mem) (x : ptr) (i : nat) (s : Z) : option mem :=
  lv <- getLevel m x i;; setLevel m x i {| forward := forward lv; span := uint 32 s |}.

(** [x->backward = b] *)
Definition setBackward (m : mem) (x : ptr) (b : option ptr) : option mem :=
  n <- nodes m !! x;;
  Some (set_nodes m (<[x := {| obj := obj n; score := score n; backward := b;
                              levels := levels n |}]> (nodes m))).

(** [for (i = from; i < from+n; i++) m = f(i, m)] *)
Fixpoint for_up (from n : nat) (f : nat -> mem -> option mem) (m : mem) : option mem :=
  match n with
  | O => Some m
  | S n => m <- f from m;; for_up (S from) n f m
  end.

Definition ZSKIPLIST_MAXLEVEL : nat := 32.

(** * Creation *)

Section Zsl.
Context `{Host}.

(** What [zmalloc] leaves in the fields that are not assigned yet. *)
Variable junk_backward : option ptr.
Variable junk_level : zskiplistLevel.

Definition zslCreateNode (m : mem) (lvl : nat) (sc : double) (o : option robj) : mem * ptr :=
  let x := base.fresh (dom (nodes m) : gset ptr) in
  (set_nodes m (<[x := {| obj := o; score := sc; backward := junk_backward;
                         levels := replicate lvl junk_level |}]> (nodes m)), x).

Definition zslCreate (m : mem) : option (mem * zskiplist) :=
  let '(m, h) := zslCreateNode m ZSKIPLIST_MAXLEVEL (S754_zero false) None in
  m <- for_up 0 ZSKIPLIST_MAXLEVEL (fun j m => m <- setForward m h j None;; setSpan m h j 0) m;;
  m <- setBackward m h None;;
  Some (m, {| header := h; tail := None; zlength := 0; zlevel := 1 |}).

Definition zslFreeNode (m : mem) (x : ptr) : option mem :=
  n <- nodes m !! x;;
  o <- obj n;;
  Some {| nodes := delete x (nodes m); decremented := o :: decremented m |}.

Fixpoint zslFree_loop (fuel : nat) (m : mem) (node : option ptr) : option mem :=
  match fuel with
  | O => None
  | S fuel =>
    match node with
    | None => Some m
    | Some x =>
      lv <- getLevel m x 0;;
      m <- zslFreeNode m x;;
      zslFree_loop fuel m (forward lv)
    end
  end.

(** The header is freed without [decrRefCount]. *)
Definition zslFree (m : mem) (z : zskiplist) : option mem :=
  lv <- getLevel m (header z) 0;;
  let m' := set_nodes m (delete (header z) (nodes m)) in
  zslFree_loop (base.size (nodes m)) m' (forward lv).

(** [random()] is a sequence of values.  [ZSKIPLIST_P * 0xFFFF] is the double
    16383.75, so the comparison is that of the integers times four. *)
Fixpoint zslRandomLevel_loop (rnd : list Z) (lvl : nat) : option (nat * list Z) :=
  match rnd with
  | [] => None
  | r :: rnd =>
    if 4 * Z.land r 0xFFFF <? 0xFFFF then zslRandomLevel_loop rnd (S lvl) else Some (lvl, rnd)
  end.

Definition zslRandomLevel (rnd : list Z) : option (nat * list Z) :=
  ' (lvl, rnd) <- zslRandomLevel_loop rnd 1;;
  Some (if (lvl <? ZSKIPLIST_MAXLEVEL)%nat then lvl else ZSKIPLIST_MAXLEVEL, rnd).

(** * Searching

    The loops that go down the levels of a list share the same shape.  [cond]
    is the condition of the inner loop beyond [x->level[i].forward]: it gets
    the rank reached by the step and the next node.  [rank] is the sum of the
    spans followed (in an integer of [w] bits); the functions that do not keep
    it ignore it. *)
Fixpoint zslAdvance (fuel : nat) (w : Z) (cond : Z -> ptr -> option bool) (m : mem)
    (i : nat) (x : ptr) (rank : Z) : option (ptr * Z) :=
  match fuel with
  | O => None
  | S fuel =>
    lv <- getLevel m x i;;
    match forward lv with
    | None => Some (x, rank)
    | Some y =>
      let rank' := uint w (rank + span lv) in
      c <- cond rank' y;;
      if c then zslAdvance fuel w cond m i y rank' else Some (x, rank)
    end
  end.

(** The arrays [update] and [rank], from level 0, and the last node. *)
Fixpoint zslSearch (fuel : nat) (w : Z) (cond : Z -> ptr -> option bool) (m : mem)
    (n : nat) (x : ptr) (rank : Z) (up : list (ptr * Z)) : option (ptr * Z * list (ptr * Z)) :=
  match n with
  | O => Some (x, rank, up)
  | S i =>
    ' (x, rank) <- zslAdvance fuel w cond m i x rank;;
    zslSearch fuel w cond m i x rank ((x, rank) :: up)
  end.

Definition fuel_of (m : mem) : nat := S (base.size (nodes m)).

(** The order of the elements: [x->score < score || (x->score == score &&
    compareStringObjects(x->obj,o) < 0)], and the same with [<= 0]. *)
Definition before (test : Z -> bool) (m : mem) (sc : double) (o : robj) (rank : Z) (y : ptr)
    : option bool :=
  n <- nodes m !! y;;
  if SFltb (score n) sc then Some true
  else if SFeqb (score n) sc then
    o' <- obj n;;
    c <- compareStringObjects o' o;;
    Some (test c)
  else Some false.

(** * Insertion *)

(** One iteration of the loop that links the new node at level [i]. *)
Definition insert_link (up : list (ptr * Z)) (rank0 : Z) (x : ptr) (i : nat) (m : mem) : option mem :=
  ' (u, r) <- up !! i;;
  lv <- getLevel m u i;;
  m <- setForward m x i (forward lv);;
  m <- setForward m u i (Some x);;
  lv <- getLevel m u i;;
  m <- setSpan m x i (span lv - (rank0 - r));;
  setSpan m u i (rank0 - r + 1).

Definition incr_span (up : list (ptr * Z)) (i : nat) (m : mem) : option mem :=
  ' (u, _) <- up !! i;;
  lv <- getLevel m u i;;
  setSpan m u i (span lv + 1).

Definition zslInsert (rnd : list Z) (m : mem) (z : zskiplist) (sc : double) (o : robj)
    : option (mem * zskiplist * ptr * list Z) :=
  if isnan sc then None else
  ' (_, _, up) <- zslSearch (fuel_of m) 32 (before (fun c => c <? 0) m sc o) m (zlevel z) (header z) 0 [];;
  ' (lvl, rnd) <- zslRandomLevel rnd;;
  let grow := (lvl - zlevel z)%nat in
  m <- for_up (zlevel z) grow (fun i m => setSpan m (header z) i (zlength z)) m;;
  let up := up ++ replicate grow (header z, 0) in
  let zlv := Nat.max (zlevel z) lvl in
  let '(m, x) := zslCreateNode m lvl sc (Some o) in
  ' (u0, rank0) <- up !! 0%nat;;
  m <- for_up 0 lvl (insert_link up rank0 x) m;;
  m <- for_up lvl (zlv - lvl) (incr_span up) m;;
  m <- setBackward m x (if Pos.eqb u0 (header z) then None else Some u0);;
  lv <- getLevel m x 0;;
  ' (m, tl) <- match forward lv with
               | Some y => m <- setBackward m y (Some x);; Some (m, tail z)
               | None => Some (m, Some x)
               end;;
  Some (m, {| header := header z; tail := tl; zlength := uint 64 (zlength z + 1); zlevel := zlv |},
        x, rnd).

(** * Deletion *)

Definition unlink_level (up : list (ptr * Z)) (x : ptr) (i : nat) (m : mem) : option mem :=
  ' (u, _) <- up !! i;;
  lv <- getLevel m u i;;
  if bool_decide (forward lv = Some x) then
    lx <- getLevel m x i;;
    m <- setSpan m u i (span lv + (span lx - 1));;
    setForward m u i (forward lx)
  else setSpan m u i (span lv - 1).

(** [while(zsl->level > 1 && header->level[zsl->level-1].forward == NULL) zsl->level--;] *)
Fixpoint shrink_level (m : mem) (h : ptr) (lvl : nat) : option nat :=
  match lvl with
  | S (S _ as lvl') =>
    lv <- getLevel m h lvl';;
    match forward lv with None => shrink_level m h lvl' | Some _ => Some lvl end
  | _ => Some lvl
  end.

Definition zslDeleteNode (m : mem) (z : zskiplist) (x : ptr) (up : list (ptr * Z))
    : option (mem * zskiplist) :=
  m <- for_up 0 (zlevel z) (unlink_level up x) m;;
  lv <- getLevel m x 0;;
  n <- nodes m !! x;;
  ' (m, tl) <- match forward lv with
               | Some y => m <- setBackward m y (backward n);; Some (m, tail z)
               | None => Some (m, backward n)
               end;;
  lvl <- shrink_level m (header z) (zlevel z);;
  Some (m, {| header := header z; tail := tl; zlength := uint 64 (zlength z - 1); zlevel := lvl |}).

Definition zslDelete (m : mem) (z : zskiplist) (sc : double) (o : robj)
    : option (mem * zskiplist * Z) :=
  ' (x, _, up) <- zslSearch (fuel_of m) 32 (before (fun c => c <? 0) m sc o) m (zlevel z) (header z) 0 [];;
  lv <- getLevel m x 0;;
  match forward lv with
  | None => Some (m, z, 0)
  | Some x =>
    n <- nodes m !! x;;
    found <- (if SFeqb sc (score n) then o' <- obj n;; equalStringObjects o' o else Some false);;
    if (found : bool) then
      ' (m, z) <- zslDeleteNode m z x up;;
      m <- zslFreeNode m x;;
      Some (m, z, 1)
    else Some (m, z, 0)
  end.

(** * Ranges of scores *)

Record zrangespec := MkRange { rmin : double; rmax : double; minex : bool; maxex : bool }.

Definition zslValueGteMin (value : double) (spec : zrangespec) : bool :=
  if minex spec then SFltb (rmin spec) value else SFleb (rmin spec) value.

Definition zslValueLteMax (value : double) (spec : zrangespec) : bool :=
  if maxex spec then SFltb value (rmax spec) else SFleb value (rmax spec).

Definition zslIsInRange (m : mem) (z : zskiplist) (range : zrangespec) : option bool :=
  if SFltb (rmax range) (rmin range)
     || (SFeqb (rmin range) (rmax range) && (minex range || maxex range)) then Some false else
  match tail z with
  | None => Some false
  | Some t =>
    n <- nodes m !! t;;
    if negb (zslValueGteMin (score n) range) then Some false else
    lv <- getLevel m (header z) 0;;
    match forward lv with
    | None => Some false
    | Some x => n <- nodes m !! x;; Some (zslValueLteMax (score n) range)
    end
  end.

Definition zslFirstInRange (m : mem) (z : zskiplist) (range : zrangespec) : option (option ptr) :=
  b <- zslIsInRange m z range;;
  if negb b then Some None else
  ' (x, _, _) <- zslSearch (fuel_of m) 32
    (fun _ y => n <- nodes m !! y;; Some (negb (zslValueGteMin (score n) range))) m (zlevel z) (header z) 0 [];;
  lv <- getLevel m x 0;;
  x <- forward lv;;
  n <- nodes m !! x;;
  Some (if negb (zslValueLteMax (score n) range) then None else Some x).

Definition zslLastInRange (m : mem) (z : zskiplist) (range : zrangespec) : option (option ptr) :=
  b <- zslIsInRange m z range;;
  if negb b then Some None else
  ' (x, _, _) <- zslSearch (fuel_of m) 32
    (fun _ y => n <- nodes m !! y;; Some (zslValueLteMax (score n) range)) m (zlevel z) (header z) 0 [];;
  n <- nodes m !! x;;
  Some (if negb (zslValueGteMin (score n) range) then None else Some x).

(** The loop that deletes nodes from [x] on while [inrange] holds of the rank
    and the node; it returns the number of nodes removed and the objects given
    to [dictDelete], in order. *)
Fixpoint zslDeleteRange_loop (fuel : nat) (inrange : mem -> Z -> ptr -> option bool)
    (m : mem) (z : zskiplist) (up : list (ptr * Z)) (traversed removed : Z) (x : option ptr)
    (dels : list robj) : option (mem * zskiplist * Z * list robj) :=
  match fuel with
  | O => None
  | S fuel =>
    match x with
    | None => Some (m, z, removed, dels)
    | Some x =>
      c <- inrange m traversed x;;
      if (c : bool) then
        lv <- getLevel m x 0;;
        ' (m, z) <- zslDeleteNode m z x up;;
        n <- nodes m !! x;;
        o <- obj n;;
        m <- zslFreeNode m x;;
        zslDeleteRange_loop fuel inrange m z up (uint 64 (traversed + 1)) (uint 64 (removed + 1))
          (forward lv) (dels ++ [o])
      else Some (m, z, removed, dels)
    end
  end.

Definition zslDeleteRangeByScore (m : mem) (z : zskiplist) (range : zrangespec)
    : option (mem * zskiplist * Z * list robj) :=
  ' (x, _, up) <- zslSearch (fuel_of m) 32
    (fun _ y => n <- nodes m !! y;;
       Some (if minex range then SFleb (score n) (rmin range) else SFltb (score n) (rmin range)))
    m (zlevel z) (header z) 0 [];;
  lv <- getLevel m x 0;;
  zslDeleteRange_loop (fuel_of m)
    (fun m _ y => n <- nodes m !! y;;
       Some (if maxex range then SFltb (score n) (rmax range) else SFleb (score n) (rmax range)))
    m z up 0 0 (forward lv) [].

Definition zslDeleteRangeByRank (m : mem) (z : zskiplist) (start stop : Z)
    : option (mem * zskiplist * Z * list robj) :=
  ' (x, traversed, up) <- zslSearch (fuel_of m) 64 (fun rank _ => Some (rank <? start))
    m (zlevel z) (header z) 0 [];;
  lv <- getLevel m x 0;;
  zslDeleteRange_loop (fuel_of m) (fun _ traversed _ => Some (traversed <=? stop))
    m z up (uint 64 (traversed + 1)) 0 (forward lv) [].

(** * Ranks *)

Fixpoint zslGetRank_loop (fuel : nat) (cond : Z -> ptr -> option bool) (m : mem) (o : robj)
    (n : nat) (x : ptr) (rank : Z) : option Z :=
  match n with
  | O => Some 0
  | S i =>
    ' (x, rank) <- zslAdvance fuel 64 cond m i x rank;;
    nd <- nodes m !! x;;
    e <- match obj nd with None => Some false | Some o' => equalStringObjects o' o end;;
    if (e : bool) then Some rank else zslGetRank_loop fuel cond m o i x rank
  end.

Definition zslGetRank (m : mem) (z : zskiplist) (sc : double) (o : robj) : option Z :=
  zslGetRank_loop (fuel_of m) (before (fun c => c <=? 0) m sc o) m o (zlevel z) (header z) 0.

Fixpoint zslGetElementByRank_loop (fuel : nat) (m : mem) (rank : Z) (n : nat) (x : ptr)
    (traversed : Z) : option (option ptr) :=
  match n with
  | O => Some None
  | S i =>
    ' (x, traversed) <- zslAdvance fuel 64 (fun t _ => Some (t <=? rank)) m i x traversed;;
    if traversed =? rank then Some (Some x) else zslGetElementByRank_loop fuel m rank i x traversed
  end.

Definition zslGetElementByRank (m : mem) (z : zskiplist) (rank : Z) : option (option ptr) :=
  zslGetElementByRank_loop (fuel_of m) m rank (zlevel z) (header z) 0.

End Zsl.
