(* ===== verification/SkiplistRep.v ===== *)
(** What a skiplist represents: the list of its towers, the links every level
    must hold, and the functional behaviour of the search loops. *)

From stdpp Require Import gmap.
From Stdlib Require Import SpecFloat.
From S2P Require Import Prelude.
From S2P Require Import Util.
From S2P Require Import Robj.
From S2P Require Import Skiplist.

(** * Towers *)

Record tower := MkTower { t_ptr : ptr; t_score : double; t_obj : robj; t_height : nat }.

(** The first tower higher than level [i], and the distance to it: to the end
    of the list if there is none. *)
Fixpoint nextAt (i : nat) (t : list tower) : option ptr :=
  match t with
  | [] => None
  | x :: t => if (i <? t_height x)%nat then Some (t_ptr x) else nextAt i t
  end.

Fixpoint spanAt (i : nat) (t : list tower) : Z :=
  match t with
  | [] => 0
  | x :: t => if (i <? t_height x)%nat then 1 else 1 + spanAt i t
  end.

Definition link (i : nat) (t : list tower) : zskiplistLevel :=
  {| forward := nextAt i t; span := spanAt i t |}.

Definition low (i : nat) (x : tower) : Prop := (t_height x <= i)%nat.

#[export] Instance low_dec i x : Decision (low i x).
Proof. unfold low. apply _. Defined.

Lemma link_low i a t : Forall (low i) a ->
  link i (a ++ t) = {| forward := nextAt i t; span := msize a + spanAt i t |}.
Proof.
  unfold link, low. induction 1 as [|x a Hx _ IH]; [by rewrite msize_nil|].
  cbn [app nextAt spanAt]. rewrite (proj2 (Nat.ltb_ge _ _)) by done.
  injection IH as -> ->. f_equal. rewrite msize_cons. lia.
Qed.

Lemma link_high i a t t' : ~ Forall (low i) a -> link i (a ++ t) = link i (a ++ t').
Proof.
  unfold link, low. induction a as [|x a IH]; intros Hn; [by destruct Hn|].
  cbn [app nextAt spanAt]. destruct (Nat.ltb_spec i (t_height x)) as [|Hle]; [done|].
  assert (Ha : ~ Forall (fun x => (t_height x <= i)%nat) a) by (intros Ha; apply Hn; by constructor).
  specialize (IH Ha). by injection IH as -> ->.
Qed.

Lemma spanAt_range i t : 0 <= spanAt i t <= msize t.
Proof.
  induction t as [|x t IH]; cbn [spanAt]; [done|]. rewrite msize_cons. pose proof (msize_nonneg t).
  destruct (i <? t_height x)%nat; lia.
Qed.

(** Either no tower of the list reaches level [i], or the link leads to the
    first one that does. *)
Lemma link_cases i t :
  (Forall (low i) t /\ link i t = {| forward := None; span := msize t |}) \/
  (exists a x b, t = a ++ x :: b /\ Forall (low i) a /\ (i < t_height x)%nat /\
    link i t = {| forward := Some (t_ptr x); span := msize a + 1 |}).
Proof.
  induction t as [|x t IH]; [by left|]. destruct (Nat.ltb_spec i (t_height x)) as [Hlt|Hge].
  - right. exists [], x, t. unfold link. cbn [nextAt spanAt].
    rewrite (proj2 (Nat.ltb_lt _ _)) by done. done.
  - assert (Hl : link i (x :: t) = {| forward := nextAt i t; span := 1 + spanAt i t |})
      by (apply (link_low i [x] t); by constructor).
    rewrite Hl. unfold link in IH. destruct IH as [[Hf E]|(a & y & b & -> & Ha & Hy & E)];
      injection E as -> ->.
    + left. split; [by constructor|]. by rewrite msize_cons.
    + right. exists (x :: a), y, b. split; [done|]. split; [by constructor|]. split; [done|].
      f_equal. rewrite msize_cons. lia.
Qed.

(** * The representation of a list of towers *)

(** The header as a tower, of the height in use. *)
Definition hdr (z : zskiplist) : tower :=
  {| t_ptr := header z; t_score := S754_zero false; t_obj := ObjSds []; t_height := zlevel z |}.

(** The [backward] pointer of the node after the towers [a]. *)
Definition back (a : list tower) : option ptr := t_ptr <$> list.last a.

(** A node without the contents of its levels. *)
Definition shape (m : mem) (x : ptr) : option (option robj * double * option ptr * nat) :=
  (fun n => (obj n, score n, backward n, length (levels n))) <$> nodes m !! x.

Record zsl_rep (m : mem) (z : zskiplist) (l : list tower) : Prop := {
  r_nodup : NoDup (t_ptr <$> hdr z :: l);
  r_level : (1 <= zlevel z <= ZSKIPLIST_MAXLEVEL)%nat;
  r_heights : Forall (fun t => (1 <= t_height t <= zlevel z)%nat) l;
  r_length : zlength z = msize l;
  r_bound : msize l < 2 ^ 32;
  r_tail : tail z = back l;
  r_hdr : shape m (header z) = Some (None, S754_zero false, None, ZSKIPLIST_MAXLEVEL);
  r_hdr_null i : (zlevel z <= i < ZSKIPLIST_MAXLEVEL)%nat ->
    exists s, getLevel m (header z) i = Some (MkLevel None s);
  r_node a x b : l = a ++ x :: b ->
    shape m (t_ptr x) = Some (Some (t_obj x), t_score x, back a, t_height x);
  r_links a x b i : hdr z :: l = a ++ x :: b -> (i < t_height x)%nat ->
    getLevel m (t_ptr x) i = Some (link i b)
}.

(** The level of the list is that of its highest tower. *)
Definition top_ok (z : zskiplist) (l : list tower) : Prop :=
  zlevel z = 1%nat \/ Exists (fun t => t_height t = zlevel z) l.

(** The heap holds the nodes of the list and nothing else. *)
Definition owns (m : mem) (z : zskiplist) (l : list tower) : Prop :=
  dom (nodes m) = list_to_set (t_ptr <$> hdr z :: l).

(** The element of a tower, and its key in the order of the list. *)
Abbreviation elem := (double * robj)%type.

Definition t_elem (t : tower) : elem := (t_score t, t_obj t).

Section Rep.
Context `{Host}.

Definition ekey (e : elem) : list Z := double_key e.1 ++ obj_val e.2.

Definition elem_ok (e : elem) : Prop := isnan e.1 = false /\ robj_ok e.2.

Definition elt (e e' : elem) : Prop := lex (ekey e) (ekey e') = Lt.

(** A decomposition of the list with the header. *)
Lemma rep_ptr_inj m z l a x b a' x' b' : zsl_rep m z l ->
  hdr z :: l = a ++ x :: b -> hdr z :: l = a' ++ x' :: b' -> t_ptr x = t_ptr x' ->
  a = a' /\ x = x' /\ b = b'.
Proof.
  intros Hr E E' Hp. pose proof (r_nodup _ _ _ Hr) as Hnd. rewrite E in Hnd.
  assert (Hlen : length a = length a').
  { eapply (NoDup_lookup _ _ _ (t_ptr x) Hnd).
    - rewrite list_lookup_fmap, list_lookup_middle by done. done.
    - rewrite <- E, E', list_lookup_fmap, list_lookup_middle by done. by rewrite Hp. }
  rewrite E in E'. apply app_inj_1 in E' as [-> E']; [|done]. naive_solver.
Qed.

(** * The inner search loop *)

(** [x] is the last tower of [hdr z :: pre] that reaches level [i]: there are
    [n] towers up to it, and [c] are the ones after it. *)
Definition upd_at (L : list tower) (i : nat) (u : ptr) (r : Z) : Prop :=
  exists a x c, L = a ++ x :: c /\ u = t_ptr x /\ r = msize a /\ (i < t_height x)%nat /\ Forall (low i) c.

(** A condition that holds of the towers of [pre], by rank, and not of the
    next one. *)
Definition cond_ok (cond : Z -> ptr -> option bool) (pre post : list tower) : Prop :=
  (forall a x b, pre = a ++ x :: b -> cond (msize a + 1) (t_ptr x) = Some true) /\
  (forall a x b, post = a ++ x :: b -> cond (msize pre + msize a + 1) (t_ptr x) = Some false).

Lemma zslAdvance_spec fuel w cond m z pre post i a x c :
  zsl_rep m z (pre ++ post) -> 32 <= w -> cond_ok cond pre post ->
  hdr z :: pre = a ++ x :: c -> (i < t_height x)%nat -> (length c < fuel)%nat ->
  exists u r, zslAdvance fuel w cond m i (t_ptr x) (msize a) = Some (u, r) /\ upd_at (hdr z :: pre) i u r.
Proof.
  intros Hr Hw [Hpre Hpost]. revert a x c. induction fuel as [|fuel IH]; intros a x c E Hi Hf; [lia|].
  cbn [zslAdvance].
  rewrite (r_links _ _ _ Hr a x (c ++ post) i); [cbn [obind]| |done].
  2: { rewrite app_comm_cons, E, <- app_assoc. done. }
  assert (Hstop : Forall (low i) c -> upd_at (hdr z :: pre) i (t_ptr x) (msize a)).
  { intros Hc. exists a, x, c. done. }
  assert (Hsz : 1 + msize pre = msize a + 1 + msize c).
  { rewrite <- (msize_cons (hdr z) pre), E, msize_app, msize_cons. lia. }
  pose proof (r_bound _ _ _ Hr) as Hb. rewrite msize_app in Hb.
  pose proof (msize_nonneg a) as Ha0. pose proof (msize_nonneg post) as Hp0. pose proof (msize_nonneg c).
  assert (Hpow : 2 ^ 32 <= 2 ^ w) by (apply Z.pow_le_mono_r; lia).
  destruct (decide (Forall (low i) c)) as [Hc|Hc].
  - rewrite (link_low i c post Hc). cbn [forward span].
    destruct (link_cases i post) as [[Hl E']|(b & y & d & -> & Hlow & Hy & E')];
      unfold link in E'; injection E' as En Es; rewrite En; [naive_solver|]. rewrite Es.
    rewrite msize_app, msize_cons in Hb, Hp0. pose proof (msize_nonneg b). pose proof (msize_nonneg d).
    rewrite uint_id by lia. replace (msize a + _) with (msize pre + msize b + 1) by lia.
    rewrite (Hpost b y d eq_refl). cbn [obind]. naive_solver.
  - rewrite (link_high i c post [] Hc), app_nil_r.
    destruct (link_cases i c) as [[? _]|(b & y & d & -> & Hlow & Hy & ->)]; [done|]. cbn [forward span].
    rewrite msize_app, msize_cons in Hsz. pose proof (msize_nonneg b). pose proof (msize_nonneg d).
    rewrite uint_id by lia.
    assert (Ec : cond (msize a + (msize b + 1)) (t_ptr y) = Some true).
    { destruct a as [|h a]; injection E as _ Ep.
      - rewrite msize_nil, Z.add_0_l. by apply (Hpre b y d).
      - rewrite msize_cons. replace (1 + msize a + _) with (msize (a ++ x :: b) + 1)
          by (rewrite msize_app, msize_cons; lia).
        apply (Hpre (a ++ x :: b) y d). by rewrite <- app_assoc. }
    rewrite Ec. cbn [obind].
    replace (msize a + (msize b + 1)) with (msize (a ++ x :: b)) by (rewrite msize_app, msize_cons; lia).
    apply (IH (a ++ x :: b) y d); [by rewrite <- app_assoc|done|].
    rewrite length_app in Hf. cbn in Hf. lia.
Qed.

Lemma upd_at_lower L i j u r : upd_at L i u r -> (j <= i)%nat ->
  exists a x c, L = a ++ x :: c /\ u = t_ptr x /\ r = msize a /\ (j < t_height x)%nat.
Proof. intros (a & x & c & ? & ? & ? & ? & ?) ?. exists a, x, c. repeat split; try done. lia. Qed.

(** The arrays [update] and [rank]. *)
Definition upd_ok (L : list tower) (n : nat) (up : list (ptr * Z)) : Prop :=
  forall i, (i < n)%nat -> exists u r, up !! i = Some (u, r) /\ upd_at L i u r.

Lemma zslSearch_spec fuel w cond m z pre post n a x c up :
  zsl_rep m z (pre ++ post) -> 32 <= w -> cond_ok cond pre post -> (length pre < fuel)%nat ->
  hdr z :: pre = a ++ x :: c -> (n <= t_height x)%nat ->
  exists x' r' up', zslSearch fuel w cond m n (t_ptr x) (msize a) up = Some (x', r', up' ++ up) /\
    length up' = n /\ upd_ok (hdr z :: pre) n up' /\
    (up' ++ [(t_ptr x, msize a)]) !! 0%nat = Some (x', r').
Proof.
  intros Hr Hw Hc Hf. revert a x c up. induction n as [|i IH]; intros a x c up E Hn; cbn [zslSearch].
  - exists (t_ptr x), (msize a), []. split; [done|]. split; [done|]. split; [intros ? ?; lia|done].
  - destruct (zslAdvance_spec fuel w cond m z pre post i a x c) as (u & r & -> & Hu); [done..|lia| |].
    { apply (f_equal length) in E. rewrite length_app in E. cbn in E. lia. }
    cbn [obind]. destruct (upd_at_lower _ i i u r Hu) as (a' & x' & c' & E' & -> & -> & Hlt); [lia|].
    destruct (IH a' x' c' ((t_ptr x', msize a') :: up) E') as (x'' & r'' & up' & -> & Hlen & Hok & H0); [lia|].
    exists x'', r'', (up' ++ [(t_ptr x', msize a')]). rewrite <- app_assoc. split; [done|].
    split; [rewrite length_app; cbn; lia|]. split.
    + intros j Hj. destruct (decide (j < i)%nat) as [Hji|].
      * destruct (Hok j Hji) as (u & r & Hup & Hat). exists u, r. by rewrite lookup_app_l by lia.
      * replace j with i by lia. exists (t_ptr x'), (msize a'). split; [|done].
        by rewrite lookup_app_r, Hlen, Nat.sub_diag by lia.
    + rewrite lookup_app_l by (rewrite length_app; cbn; lia). done.
Qed.

End Rep.
