(* ===== verification/SkiplistUpdate.v ===== *)
(** The updates of skiplists: linking a new tower ([zslInsert]) and unlinking
    one ([zslDeleteNode]) keep every link and span of every level right. *)

From stdpp Require Import gmap.
From Stdlib Require Import SpecFloat.
From S2P Require Import Prelude.
From S2P Require Import Util.
From S2P Require Import Robj.
From S2P Require Import Skiplist.
From S2P Require Import SkiplistRep.

(** * Assignments *)

(** [m'] is [m] up to the contents of levels. *)
Definition same_shape (m m' : mem) : Prop :=
  (forall y, shape m' y = shape m y) /\ decremented m' = decremented m.

Lemma same_shape_refl m : same_shape m m.
Proof. done. Qed.

Lemma same_shape_trans m1 m2 m3 : same_shape m1 m2 -> same_shape m2 m3 -> same_shape m1 m3.
Proof. intros [H1 E1] [H2 E2]. split; [intros y; by rewrite H2, H1|by rewrite E2, E1]. Qed.

Lemma same_shape_dom m m' : same_shape m m' -> dom (nodes m') = dom (nodes m).
Proof.
  intros [Hs _]. apply set_eq. intros y. rewrite !elem_of_dom.
  specialize (Hs y). unfold shape in Hs.
  destruct (nodes m !! y), (nodes m' !! y); cbn in Hs; try done; split; by intros [].
Qed.

(** [m'] is [m] with the level [i] of [x] set to [lv]. *)
Definition set_at (m : mem) (x : ptr) (i : nat) (lv : zskiplistLevel) (m' : mem) : Prop :=
  same_shape m m' /\
  forall y j, getLevel m' y j = if decide (y = x /\ j = i) then Some lv else getLevel m y j.

Lemma setLevel_ok m x i lv0 lv : getLevel m x i = Some lv0 ->
  exists m', setLevel m x i lv = Some m' /\ set_at m x i lv m'.
Proof.
  unfold getLevel, setLevel. destruct (nodes m !! x) as [n|] eqn:En; [cbn [obind]|done].
  intros El. rewrite El. cbn [obind]. eexists. split; [done|]. split; [split; [|done]|].
  - intros y. unfold shape. cbn. destruct (decide (y = x)) as [->|].
    + rewrite lookup_insert_eq, En. cbn. by rewrite length_insert.
    + by rewrite lookup_insert_ne.
  - intros y j. unfold getLevel. cbn. destruct (decide (y = x)) as [->|Hy].
    + rewrite lookup_insert_eq, En. cbn. apply lookup_lt_Some in El as Hlt. destruct (decide _) as [[_ ->]|Hj].
      * by apply list_lookup_insert_eq.
      * apply list_lookup_insert_ne. naive_solver.
    + rewrite lookup_insert_ne by done. by destruct (decide _) as [[? _]|].
Qed.

Lemma setForward_ok m x i lv f : getLevel m x i = Some lv ->
  exists m', setForward m x i f = Some m' /\ set_at m x i {| forward := f; span := span lv |} m'.
Proof. intros E. unfold setForward. rewrite E. cbn [obind]. by eapply setLevel_ok. Qed.

Lemma setSpan_ok m x i lv s : getLevel m x i = Some lv ->
  exists m', setSpan m x i s = Some m' /\ set_at m x i {| forward := forward lv; span := uint 32 s |} m'.
Proof. intros E. unfold setSpan. rewrite E. cbn [obind]. by eapply setLevel_ok. Qed.

Lemma setBackward_ok m x b o sc b0 h : shape m x = Some (o, sc, b0, h) ->
  exists m', setBackward m x b = Some m' /\ decremented m' = decremented m /\
    (forall y j, getLevel m' y j = getLevel m y j) /\
    (forall y, shape m' y = if decide (y = x) then Some (o, sc, b, h) else shape m y).
Proof.
  unfold shape, setBackward. destruct (nodes m !! x) as [n|] eqn:En; [|done].
  cbn [fmap option_fmap option_map obind]. intros [= <- <- <- <-].
  eexists. split; [done|]. split; [done|]. split.
  - intros y j. unfold getLevel. cbn. destruct (decide (y = x)) as [->|].
    + by rewrite lookup_insert_eq, En.
    + by rewrite lookup_insert_ne.
  - intros y. cbn. destruct (decide (y = x)) as [->|].
    + by rewrite lookup_insert_eq.
    + by rewrite lookup_insert_ne.
Qed.

Lemma set_at_same m x i lv m' : set_at m x i lv m' -> getLevel m' x i = Some lv.
Proof. intros [_ Hg]. rewrite Hg. by rewrite decide_True. Qed.

Lemma set_at_other m x i lv m' y j : set_at m x i lv m' -> y <> x \/ j <> i ->
  getLevel m' y j = getLevel m y j.
Proof. intros [_ Hg] Hne. rewrite Hg. rewrite decide_False; [done|naive_solver]. Qed.

(** ** Loops over the levels *)

(** An iteration that brings level [i] from [m0] to what [G] says, whatever
    the other levels hold. *)
Definition level_step (m0 : mem) (G : ptr -> nat -> option zskiplistLevel) (i : nat)
    (f : nat -> mem -> option mem) : Prop :=
  forall m, same_shape m0 m -> (forall y, getLevel m y i = getLevel m0 y i) ->
    exists m', f i m = Some m' /\ same_shape m m' /\
      (forall y, getLevel m' y i = G y i) /\
      (forall y j, j <> i -> getLevel m' y j = getLevel m y j).

Lemma for_up_levels m0 G f from n :
  (forall i, (from <= i < from + n)%nat -> level_step m0 G i f) ->
  exists m', for_up from n f m0 = Some m' /\ same_shape m0 m' /\
    forall y j, getLevel m' y j = if decide (from <= j < from + n)%nat then G y j else getLevel m0 y j.
Proof.
  assert (Hgen : forall n from' m, (from <= from')%nat ->
    (forall i, (from' <= i < from' + n)%nat -> level_step m0 G i f) -> same_shape m0 m ->
    (forall y j, getLevel m y j = if decide (from <= j < from')%nat then G y j else getLevel m0 y j) ->
    exists m', for_up from' n f m = Some m' /\ same_shape m0 m' /\
      forall y j, getLevel m' y j = if decide (from <= j < from' + n)%nat then G y j else getLevel m0 y j).
  { clear n. induction n as [|n IH]; intros from' m Hle Hs Hsh Hg; cbn [for_up].
    - exists m. split; [done|]. split; [done|]. intros y j. by rewrite Hg, Nat.add_0_r.
    - destruct (Hs from' ltac:(lia) m Hsh) as (m1 & -> & Hsh1 & Hg1 & Ho1).
      { intros y. rewrite Hg. rewrite decide_False by lia. done. }
      cbn [obind]. replace (from' + S n)%nat with (S from' + n)%nat by lia.
      apply IH; [lia|intros i ?; apply Hs; lia|by eapply same_shape_trans|].
      intros y j. destruct (decide (j = from')) as [->|].
      + rewrite Hg1. by rewrite decide_True by lia.
      + rewrite Ho1, Hg by done. repeat case_decide; done || lia. }
  intros Hs. apply Hgen; [lia|done|apply same_shape_refl|].
  intros y j. by rewrite decide_False by lia.
Qed.

(** * Single iterations *)

Section Steps.
Context (m0 : mem) (up : list (ptr * Z)) (x u : ptr) (r : Z) (i : nat) (lu : zskiplistLevel).
Hypothesis Hup : up !! i = Some (u, r).
Hypothesis Hu : getLevel m0 u i = Some lu.
Hypothesis Hxu : x <> u.

Lemma insert_link_step rank0 lx G : getLevel m0 x i = Some lx ->
  (forall y, G y i = if decide (y = x) then Some (MkLevel (forward lu) (uint 32 (span lu - (rank0 - r))))
                     else if decide (y = u) then Some (MkLevel (Some x) (uint 32 (rank0 - r + 1)))
                     else getLevel m0 y i) ->
  level_step m0 G i (insert_link up rank0 x).
Proof.
  intros Hx HG m Hsh Hg. unfold insert_link. rewrite Hup. cbn [obind]. rewrite Hg, Hu. cbn [obind].
  destruct (setForward_ok m x i lx (forward lu)) as (m1 & -> & S1); [by rewrite Hg|]. cbn [obind].
  destruct (setForward_ok m1 u i lu (Some x)) as (m2 & -> & S2).
  { rewrite (set_at_other _ _ _ _ _ _ _ S1) by (left; done). by rewrite Hg. }
  cbn [obind]. rewrite (set_at_same _ _ _ _ _ S2). cbn [obind span].
  destruct (setSpan_ok m2 x i (MkLevel (forward lu) (span lx)) (span lu - (rank0 - r))) as (m3 & -> & S3).
  { rewrite (set_at_other _ _ _ _ _ _ _ S2) by (left; done). apply (set_at_same _ _ _ _ _ S1). }
  cbn [obind].
  destruct (setSpan_ok m3 u i (MkLevel (Some x) (span lu)) (rank0 - r + 1)) as (m4 & -> & S4).
  { rewrite (set_at_other _ _ _ _ _ _ _ S3) by (left; done). apply (set_at_same _ _ _ _ _ S2). }
  exists m4. split; [done|]. split; [|split].
  - destruct S1, S2, S3, S4. eauto using same_shape_trans.
  - intros y. rewrite HG. destruct S1 as [_ G1], S2 as [_ G2], S3 as [_ G3], S4 as [_ G4].
    rewrite G4, G3, G2, G1, Hg. repeat case_decide; naive_solver.
  - intros y j Hj.
    by rewrite (set_at_other _ _ _ _ _ _ _ S4), (set_at_other _ _ _ _ _ _ _ S3),
      (set_at_other _ _ _ _ _ _ _ S2), (set_at_other _ _ _ _ _ _ _ S1) by (right; done).
Qed.

Lemma incr_span_step G :
  (forall y, G y i = if decide (y = u) then Some (MkLevel (forward lu) (uint 32 (span lu + 1)))
                     else getLevel m0 y i) ->
  level_step m0 G i (incr_span up).
Proof.
  intros HG m Hsh Hg. unfold incr_span. rewrite Hup. cbn [obind]. rewrite Hg, Hu. cbn [obind].
  destruct (setSpan_ok m u i lu (span lu + 1)) as (m1 & -> & S1); [by rewrite Hg|].
  exists m1. split; [done|]. split; [by destruct S1|]. split.
  - intros y. rewrite HG. destruct S1 as [_ G1]. rewrite G1, Hg. repeat case_decide; naive_solver.
  - intros y j Hj. by rewrite (set_at_other _ _ _ _ _ _ _ S1) by (right; done).
Qed.

Lemma unlink_step lx G : (forward lu = Some x -> getLevel m0 x i = Some lx) ->
  (forall y, G y i = if decide (y = u)
                     then Some (if bool_decide (forward lu = Some x)
                                then MkLevel (forward lx) (uint 32 (span lu + (span lx - 1)))
                                else MkLevel (forward lu) (uint 32 (span lu - 1)))
                     else getLevel m0 y i) ->
  level_step m0 G i (unlink_level up x).
Proof.
  intros Hx HG m Hsh Hg. unfold unlink_level. rewrite Hup. cbn [obind]. rewrite Hg, Hu. cbn [obind].
  case_bool_decide as Hf.
  - rewrite Hg, (Hx Hf). cbn [obind].
    destruct (setSpan_ok m u i lu (span lu + (span lx - 1))) as (m1 & -> & S1); [by rewrite Hg|]. cbn [obind].
    edestruct (setForward_ok m1 u i) as (m2 & -> & S2); [apply (set_at_same _ _ _ _ _ S1)|].
    exists m2. split; [done|]. split; [destruct S1, S2; eauto using same_shape_trans|]. split.
    + intros y. rewrite HG. destruct S1 as [_ G1], S2 as [_ G2]. rewrite G2, G1, Hg.
      repeat case_decide; naive_solver.
    + intros y j Hj.
      by rewrite (set_at_other _ _ _ _ _ _ _ S2), (set_at_other _ _ _ _ _ _ _ S1) by (right; done).
  - destruct (setSpan_ok m u i lu (span lu - 1)) as (m1 & -> & S1); [by rewrite Hg|].
    exists m1. split; [done|]. split; [by destruct S1|]. split.
    + intros y. rewrite HG. destruct S1 as [_ G1]. rewrite G1, Hg. repeat case_decide; naive_solver.
    + intros y j Hj. by rewrite (set_at_other _ _ _ _ _ _ _ S1) by (right; done).
Qed.

End Steps.

(** * Decompositions *)

Lemma app_split {A} (p q a b : list A) (y : A) : p ++ q = a ++ y :: b ->
  (exists c, p = a ++ y :: c /\ b = c ++ q) \/ (exists d, a = p ++ d /\ q = d ++ y :: b).
Proof.
  revert a. induction p as [|h p IH]; intros a E; [right; by exists a|].
  destruct a as [|h' a]; injection E as -> E.
  - left. by exists p.
  - destruct (IH a E) as [(c & -> & ->)|(d & -> & ->)]; [left; by exists c|right; by exists d].
Qed.

Lemma app_cons_split {A} (p q a b : list A) (X y : A) : p ++ X :: q = a ++ y :: b ->
  (exists c, p = a ++ y :: c /\ b = c ++ X :: q) \/ (p = a /\ X = y /\ q = b) \/
  (exists d, a = p ++ X :: d /\ q = d ++ y :: b).
Proof.
  intros [(c & -> & ->)|([|h d] & -> & E)]%app_split; [left; by exists c| |]; injection E as -> ->.
  - right; left. by rewrite app_nil_r.
  - right; right. by exists d.
Qed.

(** The last tower that reaches level [i] is unique. *)
Lemma upd_at_inj (L : list tower) i a y c a' y' c' :
  L = a ++ y :: c -> L = a' ++ y' :: c' -> (i < t_height y)%nat -> (i < t_height y')%nat ->
  Forall (low i) c -> Forall (low i) c' -> a = a' /\ y = y' /\ c = c'.
Proof.
  intros E E' Hy Hy' Hc Hc'. rewrite E in E'.
  assert (Hno : forall d e (t : tower), Forall (low i) (d ++ t :: e) -> (i < t_height t)%nat -> False).
  { intros d e t [_ Hf]%Forall_app ?. apply list.Forall_cons_1 in Hf as [Hl _]. unfold low in Hl. lia. }
  destruct (app_cons_split _ _ _ _ _ _ E') as [(e & -> & ->)|[|(d & -> & ->)]]; [|done|].
  - exfalso. by eapply Hno.
  - exfalso. by eapply Hno.
Qed.

Section Rep.
Context (m : mem) (z : zskiplist) (l : list tower) (Hr : zsl_rep m z l).

Lemma rep_shape_Some a y b : hdr z :: l = a ++ y :: b -> is_Some (shape m (t_ptr y)).
Proof.
  destruct a as [|h a]; intros [= ? E].
  - subst. cbn. by rewrite (r_hdr _ _ _ Hr).
  - by rewrite (r_node _ _ _ Hr a y b E).
Qed.

Lemma rep_fresh x a y b : shape m x = None -> hdr z :: l = a ++ y :: b -> t_ptr y <> x.
Proof. intros Hx E <-. apply rep_shape_Some in E as [? E]. congruence. Qed.

End Rep.

(** A level of a node that exists. *)
Lemma getLevel_Some m x o sc b h i : shape m x = Some (o, sc, b, h) -> (i < h)%nat ->
  is_Some (getLevel m x i).
Proof.
  unfold shape, getLevel. destruct (nodes m !! x); [|done]. cbn. intros [= <- <- <- <-] ?.
  by apply lookup_lt_is_Some.
Qed.

(** * Insertion *)

Section Insert.
Context (m1 : mem) (up : list (ptr * Z)) (x : ptr) (rank0 : Z) (lvl zlv : nat).
Hypothesis Hx : forall i, (i < lvl)%nat -> is_Some (getLevel m1 x i).
Hypothesis Hup : forall i, (i < zlv)%nat -> exists u r lu,
  up !! i = Some (u, r) /\ getLevel m1 u i = Some lu /\ x <> u.
Hypothesis Hlvl : (lvl <= zlv)%nat.

(** The effect of the two loops on level [i], whose predecessor is [u]. *)
Definition inserted (y : ptr) (i : nat) (u : ptr) (r : Z) (lu : zskiplistLevel) : option zskiplistLevel :=
  if decide (i < lvl)%nat then
    if decide (y = x) then Some (MkLevel (forward lu) (uint 32 (span lu - (rank0 - r))))
    else if decide (y = u) then Some (MkLevel (Some x) (uint 32 (rank0 - r + 1)))
    else getLevel m1 y i
  else if decide (y = u) then Some (MkLevel (forward lu) (uint 32 (span lu + 1)))
  else getLevel m1 y i.

Lemma insert_loops :
  exists m2 m3, for_up 0 lvl (insert_link up rank0 x) m1 = Some m2 /\
    for_up lvl (zlv - lvl) (incr_span up) m2 = Some m3 /\ same_shape m1 m3 /\
    (forall y i, (zlv <= i)%nat -> getLevel m3 y i = getLevel m1 y i) /\
    (forall y i u r lu, (i < zlv)%nat -> up !! i = Some (u, r) -> getLevel m1 u i = Some lu ->
      getLevel m3 y i = inserted y i u r lu).
Proof.
  set (G := fun y i => ' (u, r) <- up !! i;; lu <- getLevel m1 u i;; inserted y i u r lu).
  destruct (for_up_levels m1 G (insert_link up rank0 x) 0 lvl) as (m2 & E2 & S2 & G2).
  { intros i Hi. destruct (Hup i) as (u & r & lu & Hu & Hlu & Hne); [lia|].
    destruct (Hx i) as [lx Hlx]; [lia|]. eapply (insert_link_step _ _ _ u r); [done..|].
    intros y. unfold G, inserted. rewrite Hu. cbn [obind]. rewrite Hlu. cbn [obind].
    by rewrite (decide_True (P := (i < lvl)%nat)) by lia. }
  destruct (for_up_levels m2 G (incr_span up) lvl (zlv - lvl)) as (m3 & E3 & S3 & G3).
  { intros i Hi. destruct (Hup i) as (u & r & lu & Hu & Hlu & Hne); [lia|].
    assert (Hm : forall y, getLevel m2 y i = getLevel m1 y i)
      by (intros y; rewrite G2; by rewrite decide_False by lia).
    eapply (incr_span_step _ _ u r); [done|by rewrite Hm|].
    intros y. unfold G, inserted. rewrite Hu. cbn [obind]. rewrite Hlu. cbn [obind].
    rewrite (decide_False (P := (i < lvl)%nat)) by lia. by rewrite Hm. }
  exists m2, m3. split; [done|]. split; [done|]. split; [by eapply same_shape_trans|].
  split.
  - intros y i Hi. rewrite G3, decide_False, G2, decide_False by lia. done.
  - intros y i u r lu Hi Hu Hlu. rewrite G3, G2.
    assert (HG : G y i = inserted y i u r lu) by (unfold G; rewrite Hu; cbn [obind]; by rewrite Hlu).
    rewrite HG. repeat case_decide; done || lia.
Qed.

End Insert.

Section InsertRep.
Context (m m1 m3 : mem) (z : zskiplist) (pre post : list tower) (up : list (ptr * Z)) (X : tower).
Hypothesis Hr : zsl_rep m z (pre ++ post).
Hypothesis Hfresh : shape m (t_ptr X) = None.
Hypothesis Hm1 : forall y i, y <> t_ptr X -> getLevel m1 y i = getLevel m y i.
Hypothesis Hupd : upd_ok (hdr z :: pre) (zlevel z) up.
Hypothesis HX : (t_height X <= zlevel z)%nat.
Hypothesis Hbound : msize (pre ++ post) + 1 < 2 ^ 32.

(** The predecessor at level [i] and its link. *)
Lemma upd_link i : (i < zlevel z)%nat ->
  exists au w cu, hdr z :: pre = au ++ w :: cu /\ up !! i = Some (t_ptr w, msize au) /\
    (i < t_height w)%nat /\ Forall (low i) cu /\ t_ptr X <> t_ptr w /\ msize pre = msize au + msize cu /\
    getLevel m1 (t_ptr w) i = Some (MkLevel (nextAt i post) (msize cu + spanAt i post)).
Proof.
  intros Hi. destruct (Hupd i Hi) as (u & r & Hu & (au & w & cu & E & -> & -> & Hw & Hcu)).
  assert (E' : hdr z :: pre ++ post = au ++ w :: cu ++ post) by (rewrite app_comm_cons, E, <- app_assoc; done).
  exists au, w, cu. split; [done|]. split; [done|]. split; [done|]. split; [done|].
  assert (Hne : t_ptr w <> t_ptr X) by (by eapply (rep_fresh m z _ Hr)).
  split; [done|]. split.
  - apply (f_equal msize) in E. rewrite msize_app, !msize_cons in E. lia.
  - rewrite Hm1, (r_links _ _ _ Hr au w (cu ++ post) i) by done. by rewrite link_low.
Qed.

Hypothesis Hm3 : forall y i u r lu, (i < zlevel z)%nat -> up !! i = Some (u, r) ->
  getLevel m1 u i = Some lu -> getLevel m3 y i = inserted m1 (t_ptr X) (msize pre) (t_height X) y i u r lu.

Lemma insert_links a y b i :
  hdr z :: pre ++ X :: post = a ++ y :: b -> (i < t_height y)%nat ->
  getLevel m3 (t_ptr y) i = Some (link i b).
Proof.
  rewrite app_comm_cons. intros E Hi.
  rewrite msize_app in Hbound. pose proof (spanAt_range i post) as Hsp.
  assert (Hiz : (i < zlevel z)%nat).
  { pose proof (r_heights _ _ _ Hr) as Hh. rewrite Forall_app in Hh. destruct Hh as [Hh1 Hh2].
    assert (Hall : Forall (fun t => (t_height t <= zlevel z)%nat) (a ++ y :: b)).
    { rewrite <- E. apply Forall_cons; [done|]. apply Forall_app. split; [eapply Forall_impl; [|done]; cbn; lia|].
      constructor; [done|]. eapply Forall_impl; [|done]; cbn; lia. }
    apply Forall_app in Hall as [_ Hall]. apply list.Forall_cons_1 in Hall as [? _]. lia. }
  destruct (upd_link i Hiz) as (au & w & cu & Ew & Hu & Hw & Hcu & Hne & Hsz & Hlu).
  pose proof (msize_nonneg au). pose proof (msize_nonneg cu).
  rewrite (Hm3 _ i _ _ _ Hiz Hu Hlu). unfold inserted. cbn [forward span].
  destruct (app_cons_split _ _ _ _ _ _ E) as [(c & Ec & ->)|[(<- & <- & <-)|(d & -> & Ed)]].
  - (* before the new tower *)
    assert (E' : hdr z :: pre ++ post = a ++ y :: c ++ post) by (rewrite app_comm_cons, Ec, <- app_assoc; done).
    rewrite (decide_False (P := t_ptr y = t_ptr X)) by (by eapply (rep_fresh m z _ Hr)).
    destruct (decide (t_ptr y = t_ptr w)) as [Hp|Hp].
    + destruct (rep_ptr_inj m z _ a y (c ++ post) au w (cu ++ post) Hr) as (-> & -> & Hc); [done| |done|].
      { rewrite app_comm_cons, Ew, <- app_assoc. done. }
      apply app_inv_tail in Hc as ->. rewrite (link_low i cu (X :: post) Hcu). cbn [nextAt spanAt].
      destruct (Nat.ltb_spec i (t_height X)).
      * rewrite decide_True, uint_id by lia. do 2 f_equal. lia.
      * rewrite decide_False, uint_id by lia. do 2 f_equal. lia.
    + assert (Hold : getLevel m1 (t_ptr y) i = Some (link i (c ++ X :: post))).
      { rewrite Hm1 by (by eapply (rep_fresh m z _ Hr)).
        rewrite (r_links _ _ _ Hr a y (c ++ post) i) by done. f_equal. apply link_high.
        intros Hlow. apply Hp. by destruct (upd_at_inj (hdr z :: pre) i a y c au w cu) as (_ & -> & _). }
      by case_decide.
  - (* the new tower *)
    rewrite decide_True by done. rewrite decide_True by done. rewrite uint_id by lia.
    unfold link. do 2 f_equal. lia.
  - (* after it *)
    assert (E' : hdr z :: pre ++ post = (hdr z :: pre ++ d) ++ y :: b).
    { cbn. f_equal. rewrite <- app_assoc. by rewrite Ed. }
    rewrite (decide_False (P := t_ptr y = t_ptr X)) by (by eapply (rep_fresh m z _ Hr)).
    assert (Hyw : t_ptr y <> t_ptr w).
    { intros Hp. destruct (rep_ptr_inj m z _ (hdr z :: pre ++ d) y b au w (cu ++ post) Hr) as (<- & _ & _);
           [done| |done|].
         { rewrite app_comm_cons, Ew, <- app_assoc. done. }
         apply (f_equal msize) in Ew. cbn in Ew. rewrite !msize_cons, !msize_app, !msize_cons in Ew.
         pose proof (msize_nonneg d). lia. }
    assert (Hold : getLevel m1 (t_ptr y) i = Some (link i b)).
    { rewrite Hm1 by (by eapply (rep_fresh m z _ Hr)). by apply (r_links _ _ _ Hr _ y b i E'). }
    repeat case_decide; done.
Qed.

End InsertRep.

(** ** New levels *)

Definition set_level (z : zskiplist) (n : nat) : zskiplist :=
  {| header := header z; tail := tail z; zlength := zlength z; zlevel := n |}.

Lemma link_all_low i l : Forall (low i) l -> link i l = MkLevel None (msize l).
Proof. intros Hl. rewrite <- (app_nil_r l) at 1. rewrite link_low by done. f_equal. cbn. lia. Qed.

Lemma rep_low m z l i : zsl_rep m z l -> (zlevel z <= i)%nat -> Forall (low i) l.
Proof.
  intros Hr Hi. eapply Forall_impl; [|apply (r_heights _ _ _ Hr)]. unfold low. cbn. lia.
Qed.

Lemma rep_same_shape m m' z l : zsl_rep m z l -> same_shape m m' ->
  (forall i, (zlevel z <= i < ZSKIPLIST_MAXLEVEL)%nat ->
    exists s, getLevel m' (header z) i = Some (MkLevel None s)) ->
  (forall a x b i, hdr z :: l = a ++ x :: b -> (i < t_height x)%nat ->
    getLevel m' (t_ptr x) i = Some (link i b)) ->
  zsl_rep m' z l.
Proof.
  intros Hr [Hsh _] Hn Hl. destruct Hr. split; try done.
  - by rewrite Hsh.
  - intros a x b E. rewrite Hsh. by eapply r_node.
Qed.

Lemma rep_grow m z l n : zsl_rep m z l -> (zlevel z <= n <= ZSKIPLIST_MAXLEVEL)%nat ->
  exists m', for_up (zlevel z) (n - zlevel z) (fun i m => setSpan m (header z) i (zlength z)) m = Some m' /\
    same_shape m m' /\ zsl_rep m' (set_level z n) l.
Proof.
  intros Hr Hn. pose proof (r_bound _ _ _ Hr) as Hb. pose proof (msize_nonneg l) as Hb0.
  set (G := fun (y : ptr) (i : nat) => if decide (y = header z) then Some (MkLevel None (msize l)) else getLevel m y i).
  destruct (for_up_levels m G (fun i m => setSpan m (header z) i (zlength z)) (zlevel z) (n - zlevel z))
    as (m' & E & Hs & Hg).
  { intros i Hi m1 Hs1 Hg1. destruct (r_hdr_null _ _ _ Hr i) as [s Es]; [lia|].
    destruct (setSpan_ok m1 (header z) i (MkLevel None s) (zlength z)) as (m2 & -> & S2);
      [by rewrite Hg1|].
    rewrite (r_length _ _ _ Hr), uint_id in S2 by lia.
    exists m2. split; [done|]. split; [by destruct S2|]. split.
    - intros y. destruct S2 as [_ G2]. rewrite G2, Hg1. unfold G. repeat case_decide; naive_solver.
    - intros y j Hj. by rewrite (set_at_other _ _ _ _ _ _ _ S2) by (right; done). }
  exists m'. split; [done|]. split; [done|].
  destruct Hs as [Hsh _]. split; cbn [set_level header tail zlength zlevel]; try apply Hr.
  - pose proof (r_level _ _ _ Hr). lia.
  - eapply Forall_impl; [|apply (r_heights _ _ _ Hr)]. cbn. lia.
  - rewrite Hsh. apply Hr.
  - intros i Hi. rewrite Hg, decide_False by lia. apply (r_hdr_null _ _ _ Hr). lia.
  - intros a x b E'. rewrite Hsh. by apply (r_node _ _ _ Hr a x b).
  - intros a x b i E' Hi. rewrite Hg. unfold G. destruct a as [|h a]; injection E' as <- E'.
    + subst b. cbn [hdr t_ptr t_height set_level zlevel] in *. rewrite (decide_True (P := header z = header z)) by done.
      case_decide as Hd; [by rewrite (link_all_low i l) by (eapply rep_low; [done|lia])|].
      apply (r_links _ _ _ Hr [] (hdr z) l i); [done|]. cbn. lia.
    + assert (E2 : hdr z :: l = (hdr z :: a) ++ x :: b) by (by rewrite E').
      assert (Hx : (t_height x <= zlevel z)%nat).
      { pose proof (r_heights _ _ _ Hr) as Hh. rewrite E' in Hh. apply Forall_app in Hh as [_ Hh].
        apply list.Forall_cons_1 in Hh as [? _]. lia. }
      rewrite decide_False by lia. by apply (r_links _ _ _ Hr _ x b i E2).
Qed.

Lemma upd_ok_grow z pre n up : (1 <= zlevel z <= n)%nat ->
  Forall (fun t => (t_height t <= zlevel z)%nat) pre -> length up = zlevel z ->
  upd_ok (hdr z :: pre) (zlevel z) up ->
  upd_ok (hdr (set_level z n) :: pre) n (up ++ replicate (n - zlevel z) (header z, 0)).
Proof.
  intros Hn Hh Hlen Hup i Hi. destruct (decide (i < zlevel z)%nat) as [Hlt|Hge].
  - destruct (Hup i Hlt) as (u & r & Hu & (a & x & c & E & -> & -> & Hx & Hc)).
    exists (t_ptr x), (msize a). split; [by rewrite lookup_app_l by lia|].
    destruct a as [|h a]; injection E as Ex E.
    + exists [], (hdr (set_level z n)), c. subst. cbn in *. repeat split; done || lia.
    + exists (hdr (set_level z n) :: a), x, c. rewrite E, !msize_cons. done.
  - exists (header z), 0. split.
    + rewrite lookup_app_r by lia. apply lookup_replicate. split; [done|lia].
    + exists [], (hdr (set_level z n)), pre. repeat split; [cbn; lia|].
      eapply Forall_impl; [|done]. unfold low. cbn. lia.
Qed.

(** ** The new node *)

Lemma zslCreateNode_spec jb jl m lvl sc o :
  exists m' x, zslCreateNode jb jl m lvl sc o = (m', x) /\ shape m x = None /\
    decremented m' = decremented m /\ dom (nodes m') = {[x]} ∪ dom (nodes m) /\
    (forall y, shape m' y = if decide (y = x) then Some (o, sc, jb, lvl) else shape m y) /\
    (forall y i, y <> x -> getLevel m' y i = getLevel m y i) /\
    (forall i, (i < lvl)%nat -> getLevel m' x i = Some jl).
Proof.
  unfold zslCreateNode. set (x := base.fresh _). eexists _, x. split; [done|].
  assert (Hx : nodes m !! x = None).
  { apply not_elem_of_dom. apply (is_fresh (dom (nodes m) : gset ptr)). }
  split; [unfold shape; by rewrite Hx|]. split; [done|]. split; [cbn; apply dom_insert_L|]. split; [|split].
  - intros y. unfold shape. cbn. case_decide; subst.
    + rewrite lookup_insert_eq. cbn. by rewrite length_replicate.
    + by rewrite lookup_insert_ne.
  - intros y i Hy. unfold getLevel. cbn. by rewrite lookup_insert_ne.
  - intros i Hi. unfold getLevel. cbn. rewrite lookup_insert_eq. cbn. apply lookup_replicate. done.
Qed.

(** At level 0 the predecessor is the last tower. *)
Lemma upd_at_0 z pre u r : Forall (fun t => (1 <= t_height t)%nat) pre -> upd_at (hdr z :: pre) 0 u r ->
  r = msize pre /\ exists a w, hdr z :: pre = a ++ [w] /\ u = t_ptr w.
Proof.
  intros Hh (a & w & c & E & -> & -> & _ & Hc). destruct c as [|t c].
  - split; [|by exists a, w]. apply (f_equal msize) in E. rewrite msize_app, !msize_cons, msize_nil in E. lia.
  - exfalso. apply list.Forall_cons_1 in Hc as [Ht _]. unfold low in Ht.
    destruct a as [|h a]; injection E as _ ->; [|apply Forall_app in Hh as [_ Hh]; apply list.Forall_cons_1 in Hh as [_ Hh]];
      apply list.Forall_cons_1 in Hh as [? _]; lia.
Qed.

Lemma back_snoc a x : back (a ++ [x]) = Some (t_ptr x).
Proof. unfold back. by rewrite last_snoc. Qed.

Lemma back_app a x b : back (a ++ x :: b) = back (x :: b).
Proof. unfold back. rewrite last_app, last_cons. by destruct (list.last b). Qed.

(** The [backward] pointer of the new node. *)
Lemma back_pred m z pre post a w : zsl_rep m z (pre ++ post) -> hdr z :: pre = a ++ [w] ->
  (if Pos.eqb (t_ptr w) (header z) then None else Some (t_ptr w)) = back pre.
Proof.
  intros Hr E. destruct a as [|h a]; injection E as Eh E.
  - subst. cbn. by rewrite Pos.eqb_refl.
  - subst pre. rewrite back_snoc. destruct (Pos.eqb_spec (t_ptr w) (header z)) as [Hp|]; [|done].
    exfalso. destruct (rep_ptr_inj m z _ (hdr z :: a) w post [] (hdr z) ((a ++ [w]) ++ post) Hr); [|done..].
    cbn. by rewrite <- app_assoc.
Qed.

Lemma nextAt_0 t : Forall (fun x => (1 <= t_height x)%nat) t -> nextAt 0 t = t_ptr <$> head t.
Proof.
  destruct t as [|x t]; [done|]. intros [Hx _]%list.Forall_cons_1. cbn. by destruct (t_height x); [lia|].
Qed.

Lemma rep_heights m z l : zsl_rep m z l -> Forall (fun x => (1 <= t_height x)%nat) l.
Proof. intros Hr. eapply Forall_impl; [|apply (r_heights _ _ _ Hr)]. cbn. lia. Qed.

Lemma setBackward_dom m x b m' : setBackward m x b = Some m' -> dom (nodes m') = dom (nodes m).
Proof.
  unfold setBackward. destruct (nodes m !! x) eqn:E; [|done]. intros [= <-]. cbn.
  rewrite dom_insert_lookup_L; [done|by eexists].
Qed.

(** ** Completing the insertion *)

Section InsertFinish.
Context (m m4 : mem) (z : zskiplist) (pre post : list tower) (X : tower) (jb : option ptr).
Hypothesis Hr : zsl_rep m z (pre ++ post).
Hypothesis Hfresh : shape m (t_ptr X) = None.
Hypothesis HX : (1 <= t_height X <= zlevel z)%nat.
Hypothesis Hbound : msize (pre ++ post) + 1 < 2 ^ 32.
Hypothesis Hsh : forall y, shape m4 y =
  if decide (y = t_ptr X) then Some (Some (t_obj X), t_score X, jb, t_height X) else shape m y.
Hypothesis Hlinks : forall a y b i, hdr z :: pre ++ X :: post = a ++ y :: b -> (i < t_height y)%nat ->
  getLevel m4 (t_ptr y) i = Some (link i b).
Hypothesis Hnull : forall i, (zlevel z <= i < ZSKIPLIST_MAXLEVEL)%nat ->
  exists s, getLevel m4 (header z) i = Some (MkLevel None s).

Definition set_tail_length (tl : option ptr) (n : Z) : zskiplist :=
  {| header := header z; tail := tl; zlength := n; zlevel := zlevel z |}.

Lemma rep_inserted m6 tl :
  (forall y i, getLevel m6 y i = getLevel m4 y i) ->
  (forall a y b, pre ++ X :: post = a ++ y :: b ->
    shape m6 (t_ptr y) = Some (Some (t_obj y), t_score y, back a, t_height y)) ->
  shape m6 (header z) = shape m (header z) -> tl = back (pre ++ X :: post) ->
  zsl_rep m6 (set_tail_length tl (uint 64 (zlength z + 1))) (pre ++ X :: post).
Proof.
  intros Hg Hn Hh ->. pose proof (msize_nonneg (pre ++ post)) as Hnn.
  assert (Hsz : msize (pre ++ X :: post) = msize (pre ++ post) + 1)
    by (rewrite !msize_app, msize_cons; lia).
  split; cbn [set_tail_length header tail zlength zlevel]; try done.
  - pose proof (r_nodup _ _ _ Hr) as Hnd. cbn [fmap list_fmap] in *.
    rewrite fmap_app, fmap_cons. rewrite fmap_app in Hnd. cbn [hdr t_ptr] in *.
    assert (Hp : Permutation (header z :: (t_ptr <$> pre) ++ t_ptr X :: (t_ptr <$> post))
                   (t_ptr X :: header z :: (t_ptr <$> pre) ++ (t_ptr <$> post))).
    { rewrite <- Permutation_middle. apply perm_swap. }
    cbn. rewrite Hp. apply NoDup_cons_2; [|done]. rewrite <- fmap_app.
    intros Hin. apply (list_elem_of_fmap_1 t_ptr (hdr z :: pre ++ post)) in Hin as (y & Ey & Hy).
    apply list_elem_of_split in Hy as (a & b & E). symmetry in Ey.
    by apply (rep_fresh m z _ Hr _ _ _ _ Hfresh E).
  - apply (r_level _ _ _ Hr).
  - pose proof (r_heights _ _ _ Hr) as Hh'. apply Forall_app in Hh' as [H1 H2]. apply Forall_app.
    split; [done|]. by constructor.
  - rewrite (r_length _ _ _ Hr), uint_id by lia. done.
  - lia.
  - rewrite Hh. apply (r_hdr _ _ _ Hr).
  - intros i Hi. rewrite Hg. by apply Hnull.
  - intros a y b i E Hi. rewrite Hg. by apply (Hlinks a y b i).
Qed.

(** Positions of the other nodes. *)
Lemma post_first t : head post = Some t -> exists q, post = t :: q.
Proof. destruct post as [|x q]; [done|]. intros [= ->]. by exists q. Qed.

Lemma old_not_X a y b : hdr z :: pre ++ post = a ++ y :: b -> t_ptr y <> t_ptr X.
Proof. by apply (rep_fresh m z _ Hr). Qed.

Lemma old_not_first t a y b : head post = Some t -> hdr z :: pre ++ post = a ++ y :: b ->
  length a <> length (hdr z :: pre) -> t_ptr y <> t_ptr t.
Proof.
  intros (q & Eq)%post_first E Ha Hp. apply Ha.
  destruct (rep_ptr_inj m z _ a y b (hdr z :: pre) t q Hr E) as [-> _]; [by rewrite Eq|done|done].
Qed.

Lemma inserted_shapes m6 :
  (forall y, y <> t_ptr X -> (forall t, head post = Some t -> y <> t_ptr t) -> shape m6 y = shape m y) ->
  shape m6 (t_ptr X) = Some (Some (t_obj X), t_score X, back pre, t_height X) ->
  (forall t, head post = Some t -> shape m6 (t_ptr t) = Some (Some (t_obj t), t_score t, Some (t_ptr X), t_height t)) ->
  shape m6 (header z) = shape m (header z) /\
  (forall a y b, pre ++ X :: post = a ++ y :: b ->
    shape m6 (t_ptr y) = Some (Some (t_obj y), t_score y, back a, t_height y)).
Proof.
  intros Hold HXs Hfirst. split.
  - apply Hold; [by apply (old_not_X [] (hdr z) (pre ++ post))|].
    intros t Ht. by apply (old_not_first t [] (hdr z) (pre ++ post) Ht).
  - intros a y b [(c & Ec & _)|[(-> & -> & _)|(d & -> & Ed)]]%app_cons_split; [|done|].
    + assert (E : pre ++ post = a ++ y :: c ++ post) by (rewrite Ec, <- app_assoc; done).
      assert (E' : hdr z :: pre ++ post = (hdr z :: a) ++ y :: c ++ post) by (by rewrite E).
      rewrite Hold; [by apply (r_node _ _ _ Hr a y (c ++ post))|by eapply old_not_X|].
      intros t Ht. eapply old_not_first; [done|done|]. rewrite Ec. cbn. rewrite length_app. cbn. lia.
    + destruct d as [|t d].
      * rewrite (Hfirst y) by (by rewrite Ed). by rewrite back_snoc.
      * assert (E : pre ++ post = (pre ++ t :: d) ++ y :: b) by (rewrite Ed, <- app_assoc; done).
        assert (E' : hdr z :: pre ++ post = (hdr z :: pre ++ t :: d) ++ y :: b) by (by rewrite E).
        rewrite Hold; [|by eapply old_not_X|].
        { rewrite (r_node _ _ _ Hr (pre ++ t :: d) y b E). do 3 f_equal.
          rewrite (back_app pre t d), (back_app pre X (t :: d)). symmetry. apply (back_app [X] t d). }
        intros t' Ht. eapply old_not_first; [done|done|]. cbn. rewrite length_app. cbn. lia.
Qed.

Lemma insert_finish a w : hdr z :: pre = a ++ [w] ->
  exists m6 tl,
    (m <- setBackward m4 (t_ptr X) (if Pos.eqb (t_ptr w) (header z) then None else Some (t_ptr w));;
     lv <- getLevel m (t_ptr X) 0;;
     match forward lv with
     | Some y => m <- setBackward m y (Some (t_ptr X));; Some (m, tail z)
     | None => Some (m, Some (t_ptr X))
     end) = Some (m6, tl) /\
    zsl_rep m6 (set_tail_length tl (uint 64 (zlength z + 1))) (pre ++ X :: post) /\
    decremented m6 = decremented m4 /\ dom (nodes m6) = dom (nodes m4).
Proof.
  intros E. rewrite (back_pred m z pre post a w Hr E).
  edestruct (setBackward_ok m4 (t_ptr X) (back pre)) as (m5 & E5 & D5 & G5 & S5).
  { rewrite Hsh. by rewrite decide_True. }
  rewrite E5. cbn [obind]. rewrite G5, (Hlinks (hdr z :: pre) X post 0 eq_refl) by lia. cbn [obind forward link].
  pose proof (rep_heights _ _ _ Hr) as Hh1. apply Forall_app in Hh1 as [_ Hh1]. rewrite nextAt_0 by done.
  apply setBackward_dom in E5 as Ed5.
  destruct (head post) as [t|] eqn:Ehd; cbn [fmap option_fmap option_map].
  - destruct (post_first t Ehd) as [q Eq].
    assert (Et : hdr z :: pre ++ post = (hdr z :: pre) ++ t :: q) by (by rewrite Eq).
    assert (HtX : t_ptr t <> t_ptr X) by (by eapply old_not_X).
    edestruct (setBackward_ok m5 (t_ptr t) (Some (t_ptr X))) as (m6 & E6 & D6 & G6 & S6).
    { rewrite S5, Hsh, !decide_False by done. apply (r_node _ _ _ Hr pre t q). by rewrite Eq. }
    rewrite E6. cbn [obind]. exists m6, (tail z). split; [done|].
    destruct (inserted_shapes m6) as [Hh Hn].
    { intros y Hy Ht. specialize (Ht t Ehd). by rewrite S6, S5, Hsh, !decide_False. }
    { rewrite S6, S5, decide_False, decide_True by done. done. }
    { intros ? Ht. rewrite Ehd in Ht. injection Ht as <-. by rewrite S6, decide_True. }
    split; [|split; [by rewrite D6|by apply setBackward_dom in E6 as ->]].
    apply rep_inserted; [intros; by rewrite G6|done|done|].
    rewrite (r_tail _ _ _ Hr), Eq, back_app, (back_app pre X). symmetry. apply (back_app [X] t q).
  - assert (Eq : post = []) by (by destruct post).
    exists m5, (Some (t_ptr X)). split; [done|].
    destruct (inserted_shapes m5) as [Hh Hn]; [|by rewrite S5, decide_True|intros ?; by rewrite Ehd|].
    { intros y Hy _. by rewrite S5, Hsh, !decide_False. }
    split; [|done]. apply rep_inserted; [done|done|done|by rewrite Eq, back_snoc].
Qed.

End InsertFinish.

(** ** [zslInsert] *)

Lemma rep_fuel m z l : zsl_rep m z l -> (length l < base.size (nodes m))%nat.
Proof.
  intros Hr. pose proof (r_nodup _ _ _ Hr) as Hnd.
  assert (Hsub : list_to_set (t_ptr <$> hdr z :: l) ⊆ dom (nodes m)).
  { intros p Hp. apply elem_of_list_to_set, list_elem_of_fmap in Hp as (y & -> & Hy).
    apply list_elem_of_split in Hy as (a & b & E). apply elem_of_dom.
    destruct (rep_shape_Some _ _ _ Hr a y b E) as [? Es]. unfold shape in Es.
    by destruct (nodes m !! t_ptr y). }
  apply subseteq_size in Hsub. rewrite size_list_to_set, size_dom, length_fmap in Hsub by done. cbn in Hsub. lia.
Qed.

(** A search from the header ends at the last tower of [pre]. *)
Lemma zslSearch_hdr w cond m z pre post :
  zsl_rep m z (pre ++ post) -> 32 <= w -> cond_ok cond pre post ->
  exists a t up, zslSearch (fuel_of m) w cond m (zlevel z) (header z) 0 [] = Some (t_ptr t, msize pre, up) /\
    hdr z :: pre = a ++ [t] /\ length up = zlevel z /\ upd_ok (hdr z :: pre) (zlevel z) up.
Proof.
  intros Hr Hw Hc. pose proof (r_level _ _ _ Hr) as Hlv.
  pose proof (rep_fuel _ _ _ Hr) as Hfuel. rewrite length_app in Hfuel.
  destruct (zslSearch_spec (fuel_of m) w cond m z pre post (zlevel z) [] (hdr z) pre [] Hr)
    as (u & r & up & E & Hlen & Hup & H0); [lia|done|unfold fuel_of; lia|done|done|].
  rewrite msize_nil, app_nil_r in E. cbn [hdr t_ptr] in E. rewrite lookup_app_l in H0 by lia.
  destruct (Hup 0%nat) as (u' & r' & Hu' & Hat); [lia|]. rewrite Hu' in H0. injection H0 as -> ->.
  pose proof (rep_heights _ _ _ Hr) as Hh. apply Forall_app in Hh as [Hh _].
  destruct (upd_at_0 _ _ _ _ Hh Hat) as (-> & a & t & Et & ->). by exists a, t, up.
Qed.

Lemma zslRandomLevel_range rnd lvl rnd' : zslRandomLevel rnd = Some (lvl, rnd') ->
  (1 <= lvl <= ZSKIPLIST_MAXLEVEL)%nat.
Proof.
  assert (Hge : forall rnd lvl lvl' rnd', zslRandomLevel_loop rnd lvl = Some (lvl', rnd') -> (lvl <= lvl')%nat).
  { clear. induction rnd as [|r rnd IH]; intros lvl lvl' rnd'; cbn; [done|].
    case_match; [intros ?%IH; lia|intros [= -> ->]; lia]. }
  unfold zslRandomLevel. destruct (zslRandomLevel_loop rnd 1) as [[lvl' ?]|] eqn:E; cbn [obind]; [|done].
  apply Hge in E. intros [= <- _]. unfold ZSKIPLIST_MAXLEVEL. destruct (Nat.ltb_spec lvl' 32); lia.
Qed.

Section InsertSpec.
Context `{Host} (jb : option ptr) (jl : zskiplistLevel).

(** From the state after [zslCreateNode] to the end. *)
Lemma insert_core m z pre post up lvl sc o :
  zsl_rep m z (pre ++ post) -> (1 <= lvl <= zlevel z)%nat ->
  upd_ok (hdr z :: pre) (zlevel z) up -> msize (pre ++ post) + 1 < 2 ^ 32 ->
  exists m1 x u0 m2 m3 m4 tl, zslCreateNode jb jl m lvl sc (Some o) = (m1, x) /\
    up !! 0%nat = Some (u0, msize pre) /\
    for_up 0 lvl (insert_link up (msize pre) x) m1 = Some m2 /\
    for_up lvl (zlevel z - lvl) (incr_span up) m2 = Some m3 /\
    (m <- setBackward m3 x (if Pos.eqb u0 (header z) then None else Some u0);;
     lv <- getLevel m x 0;;
     match forward lv with
     | Some y => m <- setBackward m y (Some x);; Some (m, tail z)
     | None => Some (m, Some x)
     end) = Some (m4, tl) /\
    zsl_rep m4 (set_tail_length z tl (uint 64 (zlength z + 1))) (pre ++ MkTower x sc o lvl :: post) /\
    decremented m4 = decremented m /\ shape m x = None /\ dom (nodes m4) = {[x]} ∪ dom (nodes m).
Proof.
  intros Hr Hlvl Hup Hb.
  destruct (zslCreateNode_spec jb jl m lvl sc (Some o)) as (m1 & x & E1 & Hfx & D1 & Hd1 & S1 & G1 & Gx).
  pose proof (rep_heights _ _ _ Hr) as Hh. apply Forall_app in Hh as [Hh _].
  destruct (Hup 0%nat) as (u0 & r0 & Hu0 & Hat0); [lia|].
  destruct (upd_at_0 _ _ _ _ Hh Hat0) as (-> & a & w & Ew & ->).
  set (X := MkTower x sc o lvl).
  destruct (insert_loops m1 up x (msize pre) lvl (zlevel z)) as (m2 & m3 & E2 & E3 & S3 & G3 & G3').
  { intros i Hi. by rewrite Gx. }
  { intros i Hi. destruct (upd_link m m1 z pre post up X Hr Hfx G1 Hup (proj2 Hlvl) i Hi)
      as (au & w' & cu & _ & Hu & _ & _ & Hne & _ & Hl). by eexists _, _, _. }
  { lia. }
  assert (Hl3 : forall a y b i, hdr z :: pre ++ X :: post = a ++ y :: b -> (i < t_height y)%nat ->
    getLevel m3 (t_ptr y) i = Some (link i b)).
  { intros. eapply (insert_links m m1 m3 z pre post up X); try done. cbn. lia. }
  destruct (insert_finish m m3 z pre post X jb) with (a := a) (w := w) as (m4 & tl & E4 & Hr4 & D4 & Hd4);
    try done.
  { intros y. destruct S3 as [S3 _]. by rewrite S3, S1. }
  { intros i Hi. rewrite G3, G1; [by apply (r_hdr_null _ _ _ Hr)| |lia].
    by apply (rep_fresh m z _ Hr x [] (hdr z) (pre ++ post)). }
  exists m1, x, (t_ptr w), m2, m3, m4, tl. do 6 (split; [done|]). destruct S3 as [S3 D3].
  split; [by rewrite D4, D3|]. split; [done|]. rewrite Hd4, <- Hd1. by apply same_shape_dom.
Qed.

Lemma zslInsert_spec rnd lvl rnd' m z pre post sc o :
  zsl_rep m z (pre ++ post) -> top_ok z (pre ++ post) -> isnan sc = false ->
  cond_ok (before (fun c => c <? 0) m sc o) pre post ->
  zslRandomLevel rnd = Some (lvl, rnd') -> msize (pre ++ post) + 1 < 2 ^ 32 ->
  exists m' z' x, zslInsert jb jl rnd m z sc o = Some (m', z', x, rnd') /\
    zsl_rep m' z' (pre ++ MkTower x sc o lvl :: post) /\ top_ok z' (pre ++ MkTower x sc o lvl :: post) /\
    header z' = header z /\ decremented m' = decremented m /\ shape m x = None /\
    dom (nodes m') = {[x]} ∪ dom (nodes m).
Proof.
  intros Hr Htop Hnan Hc Ernd Hb. unfold zslInsert. rewrite Hnan.
  pose proof (r_level _ _ _ Hr) as Hlv. pose proof (zslRandomLevel_range _ _ _ Ernd) as Hlvl.
  destruct (zslSearch_hdr 32 _ m z pre post Hr ltac:(lia) Hc) as (a & t & up & E & _ & Hlen & Hup).
  rewrite E. cbn [obind]. rewrite Ernd. cbn [obind].
  set (zlv := Nat.max (zlevel z) lvl).
  replace (lvl - zlevel z)%nat with (zlv - zlevel z)%nat by lia.
  destruct (rep_grow m z (pre ++ post) zlv Hr) as (m1 & E1 & S1 & Hr1); [lia|].
  rewrite E1. cbn [obind].
  assert (Hup' := upd_ok_grow z pre zlv up ltac:(lia)).
  destruct (insert_core m1 (set_level z zlv) pre post (up ++ replicate (zlv - zlevel z) (header z, 0)) lvl sc o)
    as (m2 & x & u0 & m3 & m4 & m5 & tl & E2 & Hu0 & E3 & E4 & E5 & Hr5 & D5 & Hfx & Hd5);
    [done|cbn; lia| |done|].
  { apply Hup'; [|done|done]. pose proof (r_heights _ _ _ Hr) as Hh. apply Forall_app in Hh as [Hh _].
    eapply Forall_impl; [|done]. cbn. lia. }
  rewrite E2, Hu0. cbn [obind]. rewrite E3. cbn [obind]. cbn [set_level header tail zlevel zlength] in E4, E5.
  rewrite E4. cbn [obind]. destruct (setBackward m4 x _) as [m4'|]; [|done]. cbn [obind] in E5 |- *.
  destruct (getLevel m4' x 0) as [lv|]; [|done]. cbn [obind] in E5 |- *. rewrite E5. cbn [obind].
  eexists m5, _, x. split; [done|]. split; [exact Hr5|]. destruct S1 as [S1 D1]. split.
  - unfold top_ok. cbn. rewrite Exists_app, Exists_cons. cbn. unfold top_ok in Htop. rewrite Exists_app in Htop.
    unfold zlv. destruct (Nat.max_spec (zlevel z) lvl) as [[? ->]|[? ->]]; [by right; right; left|].
    naive_solver lia.
  - split; [done|]. split; [congruence|]. split; [by rewrite <- S1|].
    rewrite Hd5. f_equal. by apply same_shape_dom.
Qed.

End InsertSpec.
