(* ===== verification/SkiplistDelete.v ===== *)
(** Unlinking a tower from a skiplist ([zslDeleteNode]) and freeing it. *)

From stdpp Require Import gmap.
From Stdlib Require Import SpecFloat.
From S2P Require Import Prelude.
From S2P Require Import Util.
From S2P Require Import Robj.
From S2P Require Import Skiplist.
From S2P Require Import SkiplistRep.
From S2P Require Import SkiplistUpdate.

(** A link leads to a tower of the list. *)
Lemma nextAt_in i t p : nextAt i t = Some p -> exists a y b, t = a ++ y :: b /\ p = t_ptr y.
Proof.
  induction t as [|x t IH]; cbn; [done|]. case_match.
  - intros [= <-]. by exists [], x, t.
  - intros (a & y & b & -> & ->)%IH. by exists (x :: a), y, b.
Qed.

Lemma head_cons (t : list tower) x : head t = Some x -> exists q, t = x :: q.
Proof. destruct t as [|y q]; [done|]. intros [= ->]. by exists q. Qed.

Section DeleteNode.
Context (m : mem) (z : zskiplist) (pre post : list tower) (X : tower) (up : list (ptr * Z)).
Hypothesis Hr : zsl_rep m z (pre ++ X :: post).
Hypothesis Hupd : upd_ok (hdr z :: pre) (zlevel z) up.

(** The predecessor at level [i] and its link. *)
Lemma del_upd i : (i < zlevel z)%nat ->
  exists au w cu, hdr z :: pre = au ++ w :: cu /\ up !! i = Some (t_ptr w, msize au) /\
    Forall (low i) cu /\ t_ptr X <> t_ptr w /\ msize pre = msize au + msize cu /\
    getLevel m (t_ptr w) i = Some (link i (cu ++ X :: post)).
Proof.
  intros Hi. destruct (Hupd i Hi) as (u & r & Hu & (au & w & cu & E & -> & -> & Hw & Hcu)).
  assert (E' : hdr z :: pre ++ X :: post = au ++ w :: cu ++ X :: post)
    by (rewrite app_comm_cons, E, <- app_assoc; done).
  assert (Hsz : msize pre = msize au + msize cu).
  { apply (f_equal msize) in E. rewrite msize_app, !msize_cons in E. lia. }
  exists au, w, cu. split; [done|]. split; [done|]. split; [done|]. split; [|split; [done|]].
  - intros Hp. destruct (rep_ptr_inj m z _ (hdr z :: pre) X post au w (cu ++ X :: post) Hr) as [Ha _]; [done..|].
    apply (f_equal msize) in Ha. rewrite msize_cons in Ha. pose proof (msize_nonneg cu). lia.
  - by rewrite (r_links _ _ _ Hr au w (cu ++ X :: post) i).
Qed.

Lemma post_not_X p i : nextAt i post = Some p -> p <> t_ptr X.
Proof.
  intros (a & y & b & E & ->)%nextAt_in Hp.
  destruct (rep_ptr_inj m z _ (hdr z :: pre ++ X :: a) y b (hdr z :: pre) X post Hr) as [Ha _]; [|done..|].
  - cbn. by rewrite <- app_assoc, E.
  - apply (f_equal length) in Ha. cbn in Ha. rewrite length_app in Ha. cbn in Ha. lia.
Qed.

Definition unlinked (y : ptr) (i : nat) : option zskiplistLevel :=
  ' (u, r) <- up !! i;;
  if decide (y = u) then Some (MkLevel (nextAt i post) (msize pre - r + spanAt i post)) else getLevel m y i.

Lemma unlink_loop :
  exists m', for_up 0 (zlevel z) (unlink_level up (t_ptr X)) m = Some m' /\ same_shape m m' /\
    forall y i, getLevel m' y i = if decide (0 <= i < 0 + zlevel z)%nat then unlinked y i else getLevel m y i.
Proof.
  apply for_up_levels. intros i Hi.
  destruct (del_upd i) as (au & w & cu & E & Hu & Hcu & Hne & Hsz & Hl); [lia|].
  pose proof (r_bound _ _ _ Hr) as Hb. rewrite msize_app, msize_cons in Hb.
  pose proof (spanAt_range i post) as Hsp. pose proof (msize_nonneg au). pose proof (msize_nonneg cu).
  rewrite link_low in Hl by done. cbn [nextAt spanAt] in Hl.
  eapply (unlink_step m up (t_ptr X) (t_ptr w) (msize au) i _ Hu Hl (link i post)).
  - cbn [forward]. destruct (Nat.ltb_spec i (t_height X)).
    + intros _. by apply (r_links _ _ _ Hr (hdr z :: pre) X post i).
    + intros Hn%post_not_X. done.
  - intros y. unfold unlinked. rewrite Hu. cbn [obind forward span link]. case_decide; [|done]. f_equal.
    destruct (Nat.ltb_spec i (t_height X)).
    + rewrite bool_decide_true by done. f_equal. rewrite uint_id by lia. lia.
    + rewrite bool_decide_false by (intros Hn%post_not_X; done). f_equal. rewrite uint_id by lia. lia.
Qed.

(** After the loop every link skips the tower. *)
Lemma unlinked_links m' a y b i :
  (forall y i, getLevel m' y i = if decide (0 <= i < 0 + zlevel z)%nat then unlinked y i else getLevel m y i) ->
  hdr z :: pre ++ post = a ++ y :: b -> (i < t_height y)%nat ->
  getLevel m' (t_ptr y) i = Some (link i b).
Proof.
  rewrite app_comm_cons. intros Hg E Hi. rewrite Hg.
  assert (Hiz : (i < zlevel z)%nat).
  { pose proof (r_heights _ _ _ Hr) as Hh. rewrite Forall_app, list.Forall_cons in Hh. destruct Hh as [Hh1 [_ Hh2]].
    assert (Hall : Forall (fun t => (t_height t <= zlevel z)%nat) (a ++ y :: b)).
    { rewrite <- E. constructor; [done|]. apply Forall_app. split; eapply Forall_impl; [|done| |done]; cbn; lia. }
    apply Forall_app in Hall as [_ Hall]. apply list.Forall_cons_1 in Hall as [? _]. lia. }
  rewrite decide_True by lia.
  destruct (del_upd i Hiz) as (au & w & cu & Ew & Hu & Hcu & Hne & Hsz & Hl).
  unfold unlinked. rewrite Hu. cbn [obind].
  destruct (app_split _ _ _ _ _ E) as [(c & Ec & ->)|(d & -> & Ed)].
  - assert (E' : hdr z :: pre ++ X :: post = a ++ y :: c ++ X :: post)
      by (rewrite app_comm_cons, Ec, <- app_assoc; done).
    destruct (decide (t_ptr y = t_ptr w)) as [Hp|Hp].
    + destruct (rep_ptr_inj m z _ a y (c ++ X :: post) au w (cu ++ X :: post) Hr) as (-> & -> & Hc); [done| |done|].
      { rewrite app_comm_cons, Ew, <- app_assoc. done. }
      apply app_inv_tail in Hc as ->. rewrite (link_low i cu post Hcu). do 2 f_equal. lia.
    + rewrite (r_links _ _ _ Hr a y (c ++ X :: post) i) by done. f_equal. apply link_high.
      intros Hlow. apply Hp.
      destruct (Hupd i Hiz) as (u & r & Hu' & (a' & x' & c' & E2 & -> & -> & Hx' & Hc')).
      rewrite Hu in Hu'. injection Hu' as Hpw _. rewrite Hpw.
      by destruct (upd_at_inj (hdr z :: pre) i a y c a' x' c') as (_ & -> & _).
  - assert (E' : hdr z :: pre ++ X :: post = (hdr z :: pre ++ X :: d) ++ y :: b).
    { cbn. f_equal. rewrite <- app_assoc. by rewrite Ed. }
    rewrite decide_False; [by apply (r_links _ _ _ Hr _ y b i E')|].
    intros Hp. destruct (rep_ptr_inj m z _ (hdr z :: pre ++ X :: d) y b au w (cu ++ X :: post) Hr) as (<- & _ & _);
      [done| |done|].
    { rewrite app_comm_cons, Ew, <- app_assoc. done. }
    rewrite msize_cons, msize_app, msize_cons in Hsz. pose proof (msize_nonneg d).
    pose proof (msize_nonneg cu). lia.
Qed.

End DeleteNode.

(** * The level of the list *)

Lemma r_header_links m z l i : zsl_rep m z l -> (i < zlevel z)%nat ->
  getLevel m (header z) i = Some (link i l).
Proof. intros Hr Hi. by apply (r_links _ _ _ Hr [] (hdr z) l i). Qed.

Lemma rep_lower m z l n : zsl_rep m z l -> zlevel z = S n -> (1 <= n)%nat -> Forall (low n) l ->
  zsl_rep m (set_level z n) l.
Proof.
  intros Hr Hz Hn Hlow. pose proof (r_level _ _ _ Hr) as Hlv.
  split; cbn [set_level header tail zlength zlevel]; try apply Hr.
  - lia.
  - pose proof (rep_heights _ _ _ Hr) as Hh. apply Forall_and; [exact Hh|exact Hlow].
  - intros i Hi. destruct (decide (i = n)) as [->|].
    + exists (msize l). rewrite (r_header_links m z l n) by (done || lia).
      by rewrite link_all_low.
    + apply (r_hdr_null _ _ _ Hr). lia.
  - intros a x b i E Hi. destruct a as [|h a]; injection E as Eh E.
    + subst x b. apply (r_links _ _ _ Hr [] (hdr z) l i); [done|]. cbn in *. lia.
    + apply (r_links _ _ _ Hr (hdr z :: a) x b i); [by rewrite E|done].
Qed.

Lemma shrink_level_spec m z l : zsl_rep m z l ->
  exists lvl, shrink_level m (header z) (zlevel z) = Some lvl /\ (lvl <= zlevel z)%nat /\
    zsl_rep m (set_level z lvl) l /\ top_ok (set_level z lvl) l.
Proof.
  intros Hr. assert (Hgen : forall n, zsl_rep m (set_level z n) l ->
    exists lvl, shrink_level m (header z) n = Some lvl /\ (lvl <= n)%nat /\
      zsl_rep m (set_level z lvl) l /\ top_ok (set_level z lvl) l).
  { induction n as [|[|n] IH]; intros Hn.
    - pose proof (r_level _ _ _ Hn). cbn in *. lia.
    - exists 1%nat. split; [done|]. split; [done|]. split; [done|]. by left.
    - cbn [shrink_level]. fold shrink_level.
      rewrite (r_header_links m (set_level z (S (S n))) l (S n) Hn ltac:(cbn; lia) : getLevel m (header z) _ = _). cbn [obind].
      destruct (link_cases (S n) l) as [[Hlow ->]|(a & x & b & El & _ & Hx & ->)]; cbn [forward].
      + destruct IH as (lvl & E & Hle & Hrest); [apply (rep_lower m (set_level z (S (S n))) l (S n)); done || lia|].
        exists lvl. split; [exact E|]. split; [lia|done].
      + exists (S (S n)). split; [done|]. split; [done|]. split; [done|]. right. cbn.
        pose proof (r_heights _ _ _ Hn) as Hh. rewrite El in Hh |- *.
        apply Forall_app in Hh as [_ Hh]. apply list.Forall_cons_1 in Hh as [[_ Hx'] _]. cbn in Hx'.
        apply Exists_app. right. constructor. lia. }
  apply Hgen. by destruct z.
Qed.

Lemma upd_ok_lower z z' pre up : (zlevel z' <= zlevel z)%nat -> header z' = header z ->
  upd_ok (hdr z :: pre) (zlevel z) up -> upd_ok (hdr z' :: pre) (zlevel z') up.
Proof.
  intros Hle Hh Hup i Hi. destruct (Hup i) as (u & r & Hu & (a & x & c & E & -> & -> & Hx & Hc)); [lia|].
  exists (t_ptr x), (msize a). split; [done|].
  destruct a as [|h a]; injection E as Eh E.
  - exists [], (hdr z'), c. subst. cbn. repeat split; done || lia.
  - exists (hdr z' :: a), x, c. by rewrite E, !msize_cons.
Qed.

(** * [zslDeleteNode] *)

Section DeleteSpec.
Context (m : mem) (z : zskiplist) (pre post : list tower) (X : tower) (up : list (ptr * Z)).
Hypothesis Hr : zsl_rep m z (pre ++ X :: post).
Hypothesis Hupd : upd_ok (hdr z :: pre) (zlevel z) up.

(** Two towers at different positions have different addresses. *)
Lemma ptr_ne a y b a' y' b' : hdr z :: pre ++ X :: post = a ++ y :: b ->
  hdr z :: pre ++ X :: post = a' ++ y' :: b' -> length a <> length a' -> t_ptr y <> t_ptr y'.
Proof. intros E E' Hl Hp. by destruct (rep_ptr_inj m z _ a y b a' y' b' Hr E E' Hp) as [-> _]. Qed.

Lemma removed_shapes m2 :
  (forall y, (forall t, head post = Some t -> y <> t_ptr t) -> shape m2 y = shape m y) ->
  (forall t, head post = Some t -> shape m2 (t_ptr t) = Some (Some (t_obj t), t_score t, back pre, t_height t)) ->
  shape m2 (header z) = shape m (header z) /\ shape m2 (t_ptr X) = shape m (t_ptr X) /\
  (forall a y b, pre ++ post = a ++ y :: b ->
    shape m2 (t_ptr y) = Some (Some (t_obj y), t_score y, back a, t_height y)).
Proof.
  intros Hold Hfirst.
  assert (Hpos : forall a y b t, hdr z :: pre ++ X :: post = a ++ y :: b -> head post = Some t ->
    length a <> S (S (length pre)) -> t_ptr y <> t_ptr t).
  { intros a y b t E Ht Ha. apply head_cons in Ht as [q Eq].
    eapply (ptr_ne a y b (hdr z :: pre ++ [X]) t q);
      [done|cbn; by rewrite <- app_assoc, Eq|cbn; rewrite length_app; cbn; lia]. }
  split; [|split].
  - apply Hold. intros t Ht. by apply (Hpos [] (hdr z) (pre ++ X :: post)).
  - apply Hold. intros t Ht. apply (Hpos (hdr z :: pre) X post); [done|done|cbn; lia].
  - intros a y b [(c & Ec & ->)|(d & -> & Ed)]%app_split.
    + assert (E : pre ++ X :: post = a ++ y :: c ++ X :: post) by (rewrite Ec, <- app_assoc; done).
      rewrite Hold; [by apply (r_node _ _ _ Hr _ _ _ E)|]. intros t Ht.
      apply (Hpos (hdr z :: a) y (c ++ X :: post) t); [by rewrite E|done|].
      rewrite Ec. cbn. rewrite length_app. cbn. lia.
    + destruct d as [|t d]; [rewrite app_nil_r; apply Hfirst; by rewrite Ed|].
      assert (E : pre ++ X :: post = (pre ++ X :: t :: d) ++ y :: b) by (rewrite Ed, <- app_assoc; done).
      rewrite Hold.
      * rewrite (r_node _ _ _ Hr _ _ _ E). do 3 f_equal.
        rewrite (back_app pre t d), (back_app pre X (t :: d)). apply (back_app [X] t d).
      * intros t' Ht. apply (Hpos (hdr z :: pre ++ X :: t :: d) y b t'); [by rewrite E|done|].
        cbn. rewrite length_app. cbn. lia.
Qed.

Lemma rep_removed m1 m2 tl :
  (forall y i, getLevel m1 y i = if decide (0 <= i < 0 + zlevel z)%nat
    then unlinked m pre post up y i else getLevel m y i) ->
  (forall y i, getLevel m2 y i = getLevel m1 y i) ->
  shape m2 (header z) = shape m (header z) ->
  (forall a y b, pre ++ post = a ++ y :: b ->
    shape m2 (t_ptr y) = Some (Some (t_obj y), t_score y, back a, t_height y)) ->
  tl = back (pre ++ post) ->
  zsl_rep m2 (set_tail_length z tl (uint 64 (zlength z - 1))) (pre ++ post).
Proof.
  intros Hg Hg2 Hh Hn ->. pose proof (r_bound _ _ _ Hr) as Hb. pose proof (msize_nonneg (pre ++ post)) as Hnn.
  assert (Hsz : msize (pre ++ X :: post) = msize (pre ++ post) + 1) by (rewrite !msize_app, msize_cons; lia).
  split; cbn [set_tail_length header tail zlength zlevel]; try done.
  - pose proof (r_nodup _ _ _ Hr) as Hnd. rewrite app_comm_cons, fmap_app in Hnd.
    rewrite (fmap_cons t_ptr X), <- Permutation_middle in Hnd. apply NoDup_cons_1_2 in Hnd.
    by rewrite <- fmap_app in Hnd.
  - apply (r_level _ _ _ Hr).
  - pose proof (r_heights _ _ _ Hr) as Hh'. rewrite Forall_app, list.Forall_cons in Hh'. apply Forall_app. naive_solver.
  - rewrite (r_length _ _ _ Hr), uint_id by lia. lia.
  - lia.
  - rewrite Hh. apply (r_hdr _ _ _ Hr).
  - intros i Hi. rewrite Hg2, Hg, decide_False by lia. by apply (r_hdr_null _ _ _ Hr).
  - intros a y b i E Hi. rewrite Hg2. by apply (unlinked_links m z pre post X up Hr Hupd m1 a).
Qed.

Lemma unlinked_X m1 :
  (forall y i, getLevel m1 y i = if decide (0 <= i < 0 + zlevel z)%nat
    then unlinked m pre post up y i else getLevel m y i) ->
  getLevel m1 (t_ptr X) 0 = Some (link 0 post).
Proof.
  intros Hg. pose proof (r_level _ _ _ Hr) as Hlv. pose proof (rep_heights _ _ _ Hr) as Hh.
  rewrite Forall_app, list.Forall_cons in Hh.
  rewrite Hg, decide_True by lia. unfold unlinked.
  destruct (del_upd m z pre post X up Hr Hupd 0) as (au & w & cu & _ & Hu & _ & Hne & _); [lia|].
  rewrite Hu. cbn [obind]. rewrite decide_False by done.
  apply (r_links _ _ _ Hr (hdr z :: pre) X post 0); [done|]. naive_solver lia.
Qed.

Lemma zslDeleteNode_spec :
  exists m' z', zslDeleteNode m z (t_ptr X) up = Some (m', z') /\
    zsl_rep m' z' (pre ++ post) /\ top_ok z' (pre ++ post) /\ header z' = header z /\
    upd_ok (hdr z' :: pre) (zlevel z') up /\ decremented m' = decremented m /\
    dom (nodes m') = dom (nodes m) /\ shape m' (t_ptr X) = shape m (t_ptr X).
Proof.
  destruct (unlink_loop m z pre post X up Hr Hupd) as (m1 & E1 & S1 & G1).
  unfold zslDeleteNode. rewrite E1. cbn [obind]. rewrite (unlinked_X m1 G1). cbn [obind link forward].
  pose proof (rep_heights _ _ _ Hr) as Hh. rewrite Forall_app, list.Forall_cons in Hh. destruct Hh as (_ & _ & Hh).
  rewrite nextAt_0 by done.
  pose proof (r_node _ _ _ Hr pre X post eq_refl) as HX. apply same_shape_dom in S1 as Hd1.
  destruct S1 as [S1 D1]. rewrite <- S1 in HX.
  destruct (nodes m1 !! t_ptr X) as [n|] eqn:En; [|unfold shape in HX; by rewrite En in HX].
  assert (Hback : backward n = back pre) by (unfold shape in HX; rewrite En in HX; by injection HX).
  cbn [obind]. rewrite Hback.
  assert (Hmid : exists m2 tl, match t_ptr <$> head post with
      | Some y => m <- setBackward m1 y (back pre);; Some (m, tail z)
      | None => Some (m1, back pre) end = Some (m2, tl) /\
    zsl_rep m2 (set_tail_length z tl (uint 64 (zlength z - 1))) (pre ++ post) /\
    decremented m2 = decremented m /\ dom (nodes m2) = dom (nodes m) /\ shape m2 (t_ptr X) = shape m (t_ptr X)).
  { destruct (head post) as [t|] eqn:Ehd; cbn [fmap option_fmap option_map].
    - destruct (head_cons _ _ Ehd) as [q Eq].
      edestruct (setBackward_ok m1 (t_ptr t) (back pre)) as (m2 & E2 & D2 & G2 & S2).
      { rewrite S1. apply (r_node _ _ _ Hr (pre ++ [X]) t q). by rewrite Eq, <- app_assoc. }
      rewrite E2. cbn [obind]. exists m2, (tail z). split; [done|].
      destruct (removed_shapes m2) as (Hhd & HXs & Hns).
      { intros y Hy. by rewrite S2, S1, decide_False by (by apply Hy). }
      { intros ? Ht. rewrite Ehd in Ht. injection Ht as <-. by rewrite S2, decide_True. }
      split; [|split; [by rewrite D2|split; [|done]]].
      + apply (rep_removed m1); [done..|].
        rewrite (r_tail _ _ _ Hr), Eq, (back_app pre X), (back_app pre t). apply (back_app [X] t q).
      + apply setBackward_dom in E2 as ->. done.
    - assert (Eq : post = []) by (by destruct post).
      exists m1, (back pre). split; [done|].
      destruct (removed_shapes m1) as (Hhd & HXs & Hns); [done|intros ?; by rewrite Ehd|].
      split; [|done]. apply (rep_removed m1); [done..|]. by rewrite Eq, app_nil_r. }
  destruct Hmid as (m2 & tl & -> & Hr2 & D2 & Hd2 & HX2). cbn [obind].
  destruct (shrink_level_spec _ _ _ Hr2) as (lvl & E3 & Hle & Hr3 & Htop). cbn in E3, Hle. rewrite E3. cbn [obind].
  eexists m2, _. split; [done|]. split; [exact Hr3|]. split; [exact Htop|]. split; [done|].
  split; [by eapply upd_ok_lower|done].
Qed.

End DeleteSpec.

(** * Freeing nodes *)

(** A list that is all of the heap, with the level of its highest tower. *)
Definition zsl_own (m : mem) (z : zskiplist) (l : list tower) : Prop :=
  zsl_rep m z l /\ owns m z l /\ top_ok z l.

Lemma shape_obj m x o sc b h : shape m x = Some (Some o, sc, b, h) ->
  exists n, nodes m !! x = Some n /\ obj n = Some o /\ score n = sc.
Proof. unfold shape. destruct (nodes m !! x) as [n|]; [|done]. intros [= ? ? ? ?]. by exists n. Qed.

Lemma zslFreeNode_ok m x o sc b h : shape m x = Some (Some o, sc, b, h) ->
  zslFreeNode m x = Some {| nodes := delete x (nodes m); decremented := o :: decremented m |}.
Proof.
  intros (n & En & Eo & _)%shape_obj. unfold zslFreeNode. rewrite En. cbn [obind]. rewrite Eo. done.
Qed.

Lemma rep_free m z l x d : zsl_rep m z l -> x ∉ (t_ptr <$> hdr z :: l) ->
  zsl_rep {| nodes := delete x (nodes m); decremented := d |} z l.
Proof.
  intros Hr Hx. set (m' := {| nodes := _; decremented := _ |}).
  assert (Hn : forall a y b, hdr z :: l = a ++ y :: b -> nodes m' !! t_ptr y = nodes m !! t_ptr y).
  { intros a y b E. cbn. apply lookup_delete_ne. intros ->. apply Hx. rewrite E, fmap_app. set_solver. }
  assert (Hs : forall a y b, hdr z :: l = a ++ y :: b -> shape m' (t_ptr y) = shape m (t_ptr y)).
  { intros a y b E. unfold shape. by rewrite (Hn a y b E). }
  assert (Hg : forall a y b i, hdr z :: l = a ++ y :: b -> getLevel m' (t_ptr y) i = getLevel m (t_ptr y) i).
  { intros a y b i E. unfold getLevel. by rewrite (Hn a y b E). }
  split; try apply Hr.
  - etransitivity; [apply (Hs [] (hdr z) l eq_refl)|apply Hr].
  - intros i Hi. destruct (r_hdr_null _ _ _ Hr i Hi) as [s Es]. exists s. rewrite <- Es.
    apply (Hg [] (hdr z) l i eq_refl).
  - intros a y b E. rewrite (Hs (hdr z :: a) y b) by (by rewrite E). by apply (r_node _ _ _ Hr a y b).
  - intros a y b i E Hi. rewrite (Hg a y b i E). by apply (r_links _ _ _ Hr a y b i).
Qed.

Section Unlink.
Context (m : mem) (z : zskiplist) (pre post : list tower) (X : tower) (up : list (ptr * Z)).

Lemma own_not_in : zsl_rep m z (pre ++ X :: post) -> t_ptr X ∉ (t_ptr <$> hdr z :: pre ++ post).
Proof.
  intros Hr. pose proof (r_nodup _ _ _ Hr) as Hnd. rewrite app_comm_cons, fmap_app, (fmap_cons t_ptr X) in Hnd.
  rewrite <- Permutation_middle in Hnd. apply NoDup_cons_1_1 in Hnd. by rewrite <- fmap_app in Hnd.
Qed.

Lemma delete_free : zsl_own m z (pre ++ X :: post) -> upd_ok (hdr z :: pre) (zlevel z) up ->
  exists m1 z1 n m2, zslDeleteNode m z (t_ptr X) up = Some (m1, z1) /\
    nodes m1 !! t_ptr X = Some n /\ obj n = Some (t_obj X) /\ zslFreeNode m1 (t_ptr X) = Some m2 /\
    zsl_own m2 z1 (pre ++ post) /\ header z1 = header z /\ upd_ok (hdr z1 :: pre) (zlevel z1) up /\
    decremented m2 = t_obj X :: decremented m.
Proof.
  intros (Hr & Ho & Ht) Hu.
  destruct (zslDeleteNode_spec m z pre post X up Hr Hu) as (m1 & z1 & E1 & Hr1 & Ht1 & Hh & Hu1 & D1 & Hd1 & HX1).
  rewrite (r_node _ _ _ Hr pre X post eq_refl) in HX1.
  destruct (shape_obj _ _ _ _ _ _ HX1) as (n & En & Eo & _).
  pose proof (own_not_in Hr) as Hnot.
  assert (Hnot1 : t_ptr X ∉ (t_ptr <$> hdr z1 :: pre ++ post)) by (cbn in *; by rewrite Hh).
  eexists m1, z1, n, _. split; [done|]. split; [done|]. split; [done|].
  split; [by eapply zslFreeNode_ok|]. split; [|by rewrite <- D1].
  split; [by apply rep_free|]. split; [|done]. unfold owns in *. cbn [nodes]. rewrite dom_delete_L, Hd1, Ho.
  apply set_eq. intros p. rewrite elem_of_difference, !elem_of_list_to_set, elem_of_singleton.
  rewrite !app_comm_cons, !fmap_app, (fmap_cons t_ptr X). cbn in Hnot1 |- *. rewrite fmap_app in Hnot1. rewrite Hh in *.
  rewrite !elem_of_cons, !elem_of_app, elem_of_cons in *. naive_solver.
Qed.

End Unlink.

(** [zslFree] frees every node and drops one reference to each object. *)
Lemma zslFree_loop_spec fuel l : forall m,
  (length l < fuel)%nat -> NoDup (t_ptr <$> l) -> dom (nodes m) = list_to_set (t_ptr <$> l) ->
  (forall a x b, l = a ++ x :: b -> (exists sc bk h, shape m (t_ptr x) = Some (Some (t_obj x), sc, bk, h)) /\
     exists s, getLevel m (t_ptr x) 0 = Some (MkLevel (t_ptr <$> head b) s)) ->
  exists m', zslFree_loop fuel m (t_ptr <$> head l) = Some m' /\ nodes m' = ∅ /\
    decremented m' = reverse (t_obj <$> l) ++ decremented m.
Proof.
  induction fuel as [|fuel IH] in l |- *; intros m Hf Hnd Hd Hn; [lia|].
  destruct l as [|x l]; cbn [head fmap option_fmap option_map zslFree_loop].
  - exists m. split; [done|]. split; [|done]. by apply dom_empty_inv_L.
  - destruct (Hn [] x l eq_refl) as [(sc & bk & h & Es) [s El]]. rewrite El. cbn [obind forward].
    rewrite (zslFreeNode_ok _ _ _ _ _ _ Es). cbn [obind].
    rewrite fmap_cons in Hnd, Hd. apply list.NoDup_cons in Hnd as [Hx Hnd].
    set (m1 := {| nodes := _; decremented := _ |}).
    destruct (IH l m1) as (m' & E & He & Hdec).
    + cbn in Hf. lia.
    + done.
    + cbn [m1 nodes]. rewrite dom_delete_L, Hd, list_to_set_cons.
      assert (t_ptr x ∉ (list_to_set (t_ptr <$> l) : gset ptr)) by (by rewrite elem_of_list_to_set). set_solver.
    + intros a y b Ey. destruct (Hn (x :: a) y b) as [Hs Hl]; [by rewrite Ey|].
      assert (Hne : t_ptr x <> t_ptr y) by (intros Hp; apply Hx; rewrite Hp, Ey, fmap_app; set_solver).
      unfold shape, getLevel in *. cbn [m1 nodes]. by rewrite lookup_delete_ne.
    + exists m'. split; [done|]. split; [done|]. rewrite Hdec. cbn [m1 decremented].
      rewrite fmap_cons, reverse_cons, <- app_assoc. done.
Qed.

Lemma zslFree_spec m z l : zsl_own m z l ->
  exists m', zslFree m z = Some m' /\ nodes m' = ∅ /\ decremented m' = reverse (t_obj <$> l) ++ decremented m.
Proof.
  intros (Hr & Ho & _). pose proof (r_level _ _ _ Hr) as Hlv. unfold zslFree.
  rewrite (r_header_links m z l 0 Hr) by lia. cbn [obind link forward].
  pose proof (rep_heights _ _ _ Hr) as Hh. rewrite nextAt_0 by done.
  pose proof (r_nodup _ _ _ Hr) as Hnd. rewrite fmap_cons in Hnd. apply list.NoDup_cons in Hnd as [Hx Hnd].
  cbn [hdr t_ptr] in Hx. apply (zslFree_loop_spec _ l (set_nodes m (delete (header z) (nodes m)))).
  - by apply (rep_fuel _ _ _ Hr).
  - done.
  - unfold owns in Ho. cbn [set_nodes nodes]. rewrite dom_delete_L, Ho, fmap_cons, list_to_set_cons. cbn [hdr t_ptr].
    assert (header z ∉ (list_to_set (t_ptr <$> l) : gset ptr)) by (by rewrite elem_of_list_to_set). set_solver.
  - intros a y b E. assert (Hne : header z <> t_ptr y) by (intros Hp; apply Hx; rewrite Hp, E, fmap_app; set_solver).
    unfold shape, getLevel. cbn [set_nodes nodes]. rewrite lookup_delete_ne by done.
    fold (getLevel m (t_ptr y) 0) (shape m (t_ptr y)).
    rewrite E in Hh. rewrite Forall_app, list.Forall_cons in Hh. split.
    + rewrite (r_node _ _ _ Hr a y b E). eauto.
    + rewrite (r_links _ _ _ Hr (hdr z :: a) y b 0); [|by rewrite E|naive_solver lia].
      unfold link. rewrite nextAt_0 by naive_solver. eauto.
Qed.
