(* ===== verification/SkiplistOrder.v ===== *)
(** The order of the elements of a skiplist, and where the conditions of the
    search loops cut a sorted list. *)

From stdpp Require Import gmap sorting.
From Stdlib Require Import SpecFloat.
From S2P Require Import Prelude.
From S2P Require Import Util.
From S2P Require Import Robj.
From S2P Require Import Skiplist.
From S2P Require Import SkiplistRep.
From S2P Require Import SkiplistUpdate.
From S2P Require Import SkiplistDelete.

Section Order.
Context `{Host}.

(** * Keys *)

Lemma ekey_lex (e e' : elem) : elem_ok e -> elem_ok e' ->
  lex (ekey e) (ekey e') =
    match lex (double_key e.1) (double_key e'.1) with Eq => lex (obj_val e.2) (obj_val e'.2) | r => r end.
Proof. intros [He _] [He' _]. apply lex_app. by rewrite !length_double_key. Qed.

Lemma ekey_inj (e e' : elem) : elem_ok e -> elem_ok e' ->
  ekey e = ekey e' <-> double_key e.1 = double_key e'.1 /\ obj_val e.2 = obj_val e'.2.
Proof.
  intros [He _] [He' _]. unfold ekey. split; [|by intros [-> ->]].
  intros E. apply app_inj_1 in E; [done|]. by rewrite !length_double_key.
Qed.

Lemma elt_trans e1 e2 e3 : elt e1 e2 -> elt e2 e3 -> elt e1 e3.
Proof. apply lex_trans. Qed.

Lemma elt_irrefl e e' : elt e e' -> ekey e <> ekey e'.
Proof. unfold elt. intros E Hk. rewrite Hk, lex_refl in E. done. Qed.

Lemma elt_score e e' : elem_ok e -> elem_ok e' -> elt e e' ->
  lex (double_key e.1) (double_key e'.1) <> Gt.
Proof. unfold elt. intros He He'. rewrite ekey_lex by done. by destruct (lex (double_key _) _). Qed.

(** Comparison of scores, through their keys. *)
Definition is_lt (c : comparison) : bool := match c with Lt => true | _ => false end.
Definition is_le (c : comparison) : bool := match c with Gt => false | _ => true end.

Lemma SFltb_key x y : isnan x = false -> isnan y = false ->
  SFltb x y = is_lt (lex (double_key x) (double_key y)).
Proof. intros. unfold SFltb. rewrite SFcompare_key by done. done. Qed.

Lemma SFleb_key x y : isnan x = false -> isnan y = false ->
  SFleb x y = is_le (lex (double_key x) (double_key y)).
Proof. intros. unfold SFleb. rewrite SFcompare_key by done. done. Qed.

Lemma SFeqb_key x y : isnan x = false -> isnan y = false ->
  SFeqb x y = bool_decide (double_key x = double_key y).
Proof.
  intros. unfold SFeqb. rewrite SFcompare_key by done. destruct (lex _ _) eqn:E.
  - apply lex_eq in E. by rewrite bool_decide_true.
  - rewrite bool_decide_false; [done|]. intros Hk. rewrite Hk, lex_refl in E. done.
  - rewrite bool_decide_false; [done|]. intros Hk. rewrite Hk, lex_refl in E. done.
Qed.

Lemma is_lt_trans a b c : is_le (lex a b) = true -> is_lt (lex b c) = true -> is_lt (lex a c) = true.
Proof.
  destruct (lex a b) eqn:E; [|intros _|done]; intros.
  - apply lex_eq in E as ->. done.
  - destruct (lex b c) eqn:E'; try done. by rewrite (lex_trans a b c).
Qed.

Lemma is_le_trans a b c : is_le (lex a b) = true -> is_le (lex b c) = true -> is_le (lex a c) = true.
Proof.
  intros Hab Hbc. destruct (lex b c) eqn:E; [apply lex_eq in E as ->; done| |done].
  pose proof (is_lt_trans a b c Hab) as Ht. rewrite E in Ht. specialize (Ht eq_refl). by destruct (lex a c).
Qed.

Lemma is_lt_trans_l a b c : is_lt (lex a b) = true -> is_le (lex b c) = true -> is_lt (lex a c) = true.
Proof.
  intros Hab Hbc. destruct (lex b c) eqn:E; [apply lex_eq in E as ->; done| |done].
  apply (is_lt_trans a b c); [by destruct (lex a b)|by rewrite E].
Qed.

Lemma elt_le e e' : elem_ok e -> elem_ok e' -> elt e e' ->
  is_le (lex (double_key e.1) (double_key e'.1)) = true.
Proof. intros He He' Hlt. apply elt_score in Hlt; [|done..]. by destruct (lex _ _). Qed.

(** * Sorted lists *)

Definition sorted (es : list elem) : Prop := Forall elem_ok es /\ StronglySorted elt es.

Lemma sorted_app es es' : sorted (es ++ es') <->
  sorted es /\ sorted es' /\ forall x y, x ∈ es -> y ∈ es' -> elt x y.
Proof. unfold sorted. rewrite Forall_app, StronglySorted_app. naive_solver. Qed.

Lemma sorted_cons e es : sorted (e :: es) <-> elem_ok e /\ sorted es /\ forall y, y ∈ es -> elt e y.
Proof.
  change (e :: es) with ([e] ++ es). rewrite sorted_app. unfold sorted at 1. rewrite list.Forall_singleton.
  split.
  - intros [[? _] [? Hlt]]. split; [done|]. split; [done|]. intros y Hy. apply Hlt; [|done]. by apply list_elem_of_singleton.
  - intros (? & ? & Hlt). split; [split; [done|repeat constructor]|]. split; [done|].
    intros x y ->%list_elem_of_singleton. apply Hlt.
Qed.

(** A predicate closed downwards splits a sorted list in two. *)
Definition closed_down (p : elem -> bool) : Prop :=
  forall x y, elem_ok x -> elem_ok y -> elt x y -> p y = true -> p x = true.

Definition holds (p : elem -> bool) (l : list tower) : Prop := Forall (fun t => p (t_elem t) = true) l.
Definition fails (p : elem -> bool) (l : list tower) : Prop := Forall (fun t => p (t_elem t) = false) l.

Lemma sorted_cut p l : closed_down p -> sorted (t_elem <$> l) ->
  exists pre post, l = pre ++ post /\ holds p pre /\ fails p post.
Proof.
  intros Hp. induction l as [|x l IH]; intros Hs; [exists [], []; split; [done|split; constructor]|].
  rewrite fmap_cons, sorted_cons in Hs. destruct Hs as (Hx & Hs & Hlt).
  destruct (p (t_elem x)) eqn:Ex.
  - destruct (IH Hs) as (pre & post & -> & Hpre & Hpost). exists (x :: pre), post. split; [done|]. split; [by constructor|done].
  - exists [], (x :: l). split; [done|]. split; [constructor|]. constructor; [done|].
    apply list.Forall_forall. intros y Hy. destruct (p (t_elem y)) eqn:Ey; [|done].
    assert (Hy' : t_elem y ∈ t_elem <$> l) by (by apply list_elem_of_fmap_2).
    rewrite (Hp (t_elem x) (t_elem y)) in Ex; try done; [|by apply Hlt].
    destruct Hs as [Hok _]. rewrite list.Forall_forall in Hok. by apply Hok.
Qed.

(** * The conditions of the search loops *)

(** A condition that only looks at the element of the next node. *)
Definition tests (m : mem) (z : zskiplist) (l : list tower) (cond : Z -> ptr -> option bool) (p : elem -> bool) : Prop :=
  forall a t b r, l = a ++ t :: b -> cond r (t_ptr t) = Some (p (t_elem t)).

Lemma tests_cond m z pre post cond p : tests m z (pre ++ post) cond p -> holds p pre -> fails p post ->
  cond_ok cond pre post.
Proof.
  intros Ht Hpre Hpost. split.
  - intros a x b ->. rewrite (Ht a x (b ++ post)) by (by rewrite <- app_assoc). f_equal.
    apply Forall_app in Hpre as [_ Hpre]. by apply list.Forall_cons_1 in Hpre as [? _].
  - intros a x b ->. rewrite (Ht (pre ++ a) x b) by (by rewrite <- app_assoc). f_equal.
    apply Forall_app in Hpost as [_ Hpost]. by apply list.Forall_cons_1 in Hpost as [? _].
Qed.

Lemma rep_lookup m z l a t b : zsl_rep m z l -> l = a ++ t :: b ->
  exists n, nodes m !! t_ptr t = Some n /\ obj n = Some (t_obj t) /\ score n = t_score t.
Proof. intros Hr E. eapply shape_obj, (r_node _ _ _ Hr a t b E). Qed.

Lemma sorted_ok l a t b : sorted (t_elem <$> l) -> l = a ++ t :: b -> elem_ok (t_elem t).
Proof.
  intros [Hok _] ->. rewrite fmap_app, fmap_cons, Forall_app, list.Forall_cons in Hok. naive_solver.
Qed.

(** The order test of insertion, deletion and rank. *)
Lemma before_tests test q m z l e : zsl_rep m z l -> sorted (t_elem <$> l) -> elem_ok e ->
  (forall c, test c = q (c ?= 0)) -> q Lt = true -> q Gt = false ->
  tests m z l (before test m e.1 e.2) (fun x => q (lex (ekey x) (ekey e))).
Proof.
  intros Hr Hs [Hn Ho] Hq Hlt Hgt a t b r E. pose proof (sorted_ok _ _ _ _ Hs E) as [Hnt Hot].
  destruct (rep_lookup _ _ _ _ _ _ Hr E) as (n & En & Eo & Es). cbn in Hnt, Hot.
  unfold before. rewrite En. cbn [obind]. rewrite Es, SFltb_key, SFeqb_key, ekey_lex by done. cbn [t_elem fst snd].
  destruct (lex (double_key (t_score t)) (double_key e.1)) eqn:El; cbn [is_lt]; [|by rewrite Hlt|].
  - apply lex_eq in El. rewrite bool_decide_true by done. rewrite Eo. cbn [obind].
    destruct (compareStringObjects_spec (t_obj t) e.2) as (c & -> & Hc); [done..|]. cbn [obind].
    by rewrite Hq, Hc.
  - rewrite bool_decide_false; [by rewrite Hgt|]. intros Hk. rewrite Hk, lex_refl in El. done.
Qed.

Definition key_lt (e x : elem) : bool := is_lt (lex (ekey x) (ekey e)).
Definition key_le (e x : elem) : bool := is_le (lex (ekey x) (ekey e)).

Lemma before_lt_tests m z l e : zsl_rep m z l -> sorted (t_elem <$> l) -> elem_ok e ->
  tests m z l (before (fun c => c <? 0) m e.1 e.2) (key_lt e).
Proof. intros. by apply (before_tests _ is_lt). Qed.

Lemma before_le_tests m z l e : zsl_rep m z l -> sorted (t_elem <$> l) -> elem_ok e ->
  tests m z l (before (fun c => c <=? 0) m e.1 e.2) (key_le e).
Proof. intros. by apply (before_tests _ is_le). Qed.

Lemma key_lt_down e : closed_down (key_lt e).
Proof. intros x y _ _ Hxy Hy. apply (is_lt_trans _ (ekey y)); [by rewrite Hxy|done]. Qed.

Lemma key_le_down e : closed_down (key_le e).
Proof. intros x y _ _ Hxy Hy. apply (is_le_trans _ (ekey y)); [by rewrite Hxy|done]. Qed.

(** A test on the score of the next node. *)
Lemma score_tests m z l (p : double -> bool) : zsl_rep m z l ->
  tests m z l (fun _ y => n <- nodes m !! y;; Some (p (score n))) (fun x => p x.1).
Proof.
  intros Hr a t b r E. destruct (rep_lookup _ _ _ _ _ _ Hr E) as (n & En & _ & Es).
  rewrite En. cbn [obind]. by rewrite Es.
Qed.

(** The bounds of a range cut the list. *)
Definition range_ok (r : zrangespec) : Prop := isnan (rmin r) = false /\ isnan (rmax r) = false.

Lemma lte_max_down r : range_ok r -> closed_down (fun x => zslValueLteMax x.1 r).
Proof.
  intros [_ Hr] x y Hx Hy Hxy. pose proof (elt_le x y Hx Hy Hxy) as Hle. destruct Hx as [Hx _], Hy as [Hy _].
  unfold zslValueLteMax. rewrite !SFltb_key, !SFleb_key by done. destruct (maxex r); intros.
  - by eapply is_lt_trans.
  - by eapply is_le_trans.
Qed.

Lemma gte_min_down r : range_ok r -> closed_down (fun x => negb (zslValueGteMin x.1 r)).
Proof.
  intros [Hr _] x y Hx Hy Hxy. pose proof (elt_le x y Hx Hy Hxy) as Hle. destruct Hx as [Hx _], Hy as [Hy _].
  rewrite !negb_true_iff. unfold zslValueGteMin. rewrite !SFltb_key, !SFleb_key by done.
  destruct (minex r).
  - intros E. apply not_true_is_false. intros El. by rewrite (is_lt_trans_l _ _ _ El Hle) in E.
  - intros E. apply not_true_is_false. intros El. by rewrite (is_le_trans _ _ _ El Hle) in E.
Qed.

End Order.
