(* ===== verification/SkiplistOps.v ===== *)
(** Every operation of the skiplists against operations on sorted lists of
    elements. *)

From stdpp Require Import gmap sorting.
From Stdlib Require Import SpecFloat.
From S2P Require Import Prelude.
From S2P Require Import Util.
From S2P Require Import Robj.
From S2P Require Import Skiplist.
From S2P Require Import SkiplistRep.
From S2P Require Import SkiplistUpdate.
From S2P Require Import SkiplistDelete.
From S2P Require Import SkiplistOrder.

Section Ops.
Context `{Host}.

(** * Operations on sorted lists *)

Fixpoint zins (e : elem) (es : list elem) : list elem :=
  match es with
  | [] => [e]
  | x :: es' => if key_lt e x then x :: zins e es' else e :: es
  end.

Definition zrem (e : elem) (es : list elem) : list elem := filter (fun x => ekey x <> ekey e) es.

(** The position (from 1) of the element whose object has the value of [o]. *)
Fixpoint zrank (o : robj) (es : list elem) : Z :=
  match es with
  | [] => 0
  | x :: es => if decide (obj_val x.2 = obj_val o) then 1
               else let r := zrank o es in if r =? 0 then 0 else r + 1
  end.

Definition in_range (r : zrangespec) (x : elem) : bool := zslValueGteMin x.1 r && zslValueLteMax x.1 r.

Definition zselect (r : zrangespec) (es : list elem) : list elem := filter (fun x => in_range r x = true) es.
Definition zreject (r : zrangespec) (es : list elem) : list elem := filter (fun x => in_range r x = false) es.

Lemma zins_app e pre post : Forall (fun x => key_lt e x = true) pre -> Forall (fun x => key_lt e x = false) post ->
  zins e (pre ++ post) = pre ++ e :: post.
Proof.
  intros Hpre Hpost. induction Hpre as [|x pre Hx _ IH]; cbn [app zins]; [|by rewrite Hx, IH].
  destruct Hpost as [|y post Hy _]; cbn [zins]; [done|by rewrite Hy].
Qed.

Lemma elem_of_zins e es x : x ∈ zins e es <-> x = e \/ x ∈ es.
Proof.
  induction es as [|y es IH]; cbn [zins]; [set_solver|]. destruct (key_lt e y); set_solver.
Qed.

Lemma zins_sorted e es : elem_ok e -> sorted es -> (forall x, x ∈ es -> ekey x <> ekey e) -> sorted (zins e es).
Proof.
  intros He. induction es as [|y es IH]; intros Hs Hne; cbn [zins].
  - apply sorted_cons. split; [done|]. split; [repeat constructor|]. set_solver.
  - rewrite sorted_cons in Hs. destruct Hs as (Hy & Hs & Hlt). destruct (key_lt e y) eqn:Ey.
    + apply sorted_cons. split; [done|]. split; [apply IH; [done|set_solver]|].
      intros x [->|Hx]%elem_of_zins; [|by apply Hlt]. unfold key_lt, elt in *. by destruct (lex _ _).
    + assert (Hey : elt e y).
      { unfold key_lt, elt in *. destruct (lex_total (ekey y) (ekey e)) as [Hk|Hk]; [|by destruct (Hne y); [set_solver|]|done].
        intros Hk. by rewrite Hk in Ey. }
      apply sorted_cons. split; [done|]. split; [apply sorted_cons; done|].
      intros x [->|Hx]%elem_of_cons; [done|]. by apply (elt_trans _ y); [|apply Hlt].
Qed.

Lemma sorted_filter (P : elem -> Prop) `{!forall x, Decision (P x)} es : sorted es -> sorted (filter P es).
Proof.
  induction es as [|x es IH]; [done|]. rewrite sorted_cons. intros (Hx & Hs & Hlt).
  rewrite list.filter_cons. case_decide; [|by apply IH]. apply sorted_cons.
  split; [done|]. split; [by apply IH|]. intros y [_ Hy]%list_elem_of_filter. by apply Hlt.
Qed.

Lemma filter_id {A} (P : A -> Prop) `{!forall x, Decision (P x)} (l : list A) :
  Forall P l -> filter P l = l.
Proof. induction 1 as [|x l Hx _ IH]; [done|]. by rewrite filter_cons_True, IH. Qed.

Lemma filter_none {A} (P : A -> Prop) `{!forall x, Decision (P x)} (l : list A) :
  Forall (fun x => ~ P x) l -> filter P l = [].
Proof. induction 1 as [|x l Hx _ IH]; [done|]. by rewrite filter_cons_False. Qed.

(** Removing an element from a list split around it. *)
Lemma zrem_found e pre x post : sorted (pre ++ x :: post) -> ekey x = ekey e ->
  zrem e (pre ++ x :: post) = pre ++ post.
Proof.
  rewrite sorted_app, sorted_cons. intros (_ & (_ & _ & Hpost) & Hpre) Ek.
  unfold zrem. rewrite list.filter_app, filter_cons_False by naive_solver.
  rewrite !filter_id; [done| |]; apply list.Forall_forall; intros y Hy.
  - rewrite <- Ek. apply not_eq_sym, elt_irrefl, Hpost, Hy.
  - rewrite <- Ek. apply elt_irrefl, Hpre; [done|]. set_solver.
Qed.

Lemma zrem_absent e es : (forall x, x ∈ es -> ekey x <> ekey e) -> zrem e es = es.
Proof. intros Hne. apply filter_id, list.Forall_forall. done. Qed.

Lemma holds_elems p l : holds p l -> Forall (fun x => p x = true) (t_elem <$> l).
Proof. intros Hl. apply Forall_fmap. exact Hl. Qed.

Lemma fails_elems p l : fails p l -> Forall (fun x => p x = false) (t_elem <$> l).
Proof. intros Hl. apply Forall_fmap. exact Hl. Qed.

(** The first element not below [e] decides whether [e] is in the list. *)
Lemma first_not_below e pre post : sorted (pre ++ post) ->
  Forall (fun x => key_lt e x = true) pre -> Forall (fun x => key_lt e x = false) post ->
  (forall y, list.head post = Some y -> ekey y <> ekey e) -> forall x, x ∈ pre ++ post -> ekey x <> ekey e.
Proof.
  intros Hs Hpre Hpost Hhd x [Hx|Hx]%elem_of_app Ek.
  - rewrite list.Forall_forall in Hpre. specialize (Hpre x Hx). unfold key_lt in Hpre.
    by rewrite Ek, lex_refl in Hpre.
  - destruct post as [|y post]; [set_solver|]. specialize (Hhd y eq_refl).
    apply elem_of_cons in Hx as [->|Hx]; [done|].
    rewrite sorted_app, sorted_cons in Hs. destruct Hs as (_ & (_ & _ & Hlt) & _).
    apply list.Forall_cons_1 in Hpost as [Hy _]. specialize (Hlt x Hx). unfold elt in Hlt. unfold key_lt in Hy.
    rewrite Ek in Hlt. by rewrite Hlt in Hy.
Qed.

(** * The representation of a sorted list *)

Definition values (es : list elem) : list bytes := (fun x => obj_val x.2) <$> es.

(** No two elements have the same object: the list is a sorted set. *)
Definition zset_ok (es : list elem) : Prop := sorted es /\ NoDup (values es).

Definition zsl_repr (m : mem) (z : zskiplist) (es : list elem) : Prop :=
  exists l, zsl_own m z l /\ t_elem <$> l = es /\ zset_ok es.

(** The element a node holds. *)
Definition node_elem (m : mem) (x : ptr) : option elem :=
  n <- nodes m !! x;; o <- obj n;; Some (score n, o).

Lemma rep_node_elem m z l a t b : zsl_rep m z l -> l = a ++ t :: b -> node_elem m (t_ptr t) = Some (t_elem t).
Proof.
  intros Hr E. destruct (rep_lookup _ _ _ _ _ _ Hr E) as (n & En & Eo & Es).
  unfold node_elem. rewrite En. cbn [obind]. rewrite Eo. cbn [obind]. by rewrite Es.
Qed.

Lemma zins_perm e es : Permutation (zins e es) (e :: es).
Proof.
  induction es as [|x es IH]; cbn [zins]; [done|]. destruct (key_lt e x); [|done].
  rewrite IH. apply perm_swap.
Qed.

Lemma zset_ok_zins e es : elem_ok e -> zset_ok es -> (forall x, x ∈ es -> obj_val x.2 <> obj_val e.2) ->
  zset_ok (zins e es).
Proof.
  intros He [Hs Hnd] Hne. split.
  - apply zins_sorted; [done..|]. intros x Hx Hk. apply (Hne x Hx).
    assert (elem_ok x) by (destruct Hs as [Hok _]; rewrite list.Forall_forall in Hok; by apply Hok).
    by apply ekey_inj in Hk as [_ ?].
  - unfold values. rewrite (zins_perm e es), fmap_cons. apply list.NoDup_cons. split; [|done].
    intros (x & Hx & Hin)%list_elem_of_fmap. by apply (Hne x Hin).
Qed.

Lemma zset_ok_filter (P : elem -> Prop) `{!forall x, Decision (P x)} es : zset_ok es -> zset_ok (filter P es).
Proof.
  intros [Hs Hnd]. split; [by apply sorted_filter|]. unfold values in *. clear Hs.
  induction es as [|x es IH]; [constructor|]. rewrite fmap_cons in Hnd. apply list.NoDup_cons in Hnd as [Hx Hnd].
  rewrite list.filter_cons. case_decide; [|by apply IH]. rewrite fmap_cons. apply list.NoDup_cons.
  split; [|by apply IH]. intros (y & Hy & [_ Hin]%list_elem_of_filter)%list_elem_of_fmap. apply Hx.
  rewrite Hy. by apply (list_elem_of_fmap_2 (fun x : elem => obj_val x.2)).
Qed.

(** * Insertion *)

Lemma zslInsert_repr jb jl rnd lvl rnd' m z es e :
  zsl_repr m z es -> elem_ok e -> (forall x, x ∈ es -> obj_val x.2 <> obj_val e.2) ->
  zslRandomLevel rnd = Some (lvl, rnd') -> msize es + 1 < 2 ^ 32 ->
  exists m' z' x, zslInsert jb jl rnd m z e.1 e.2 = Some (m', z', x, rnd') /\
    zsl_repr m' z' (zins e es) /\ decremented m' = decremented m /\ node_elem m' x = Some e.
Proof.
  intros (l & (Hr & Ho & Ht) & El & Hok) He Hne Ernd Hb. pose proof Hok as [Hs _]. rewrite <- El in Hs.
  destruct (sorted_cut (key_lt e) l (key_lt_down e) Hs) as (pre & post & -> & Hpre & Hpost).
  pose proof (tests_cond _ _ _ _ _ _ (before_lt_tests m z _ e Hr Hs He) Hpre Hpost) as Hc.
  destruct (zslInsert_spec jb jl rnd lvl rnd' m z pre post e.1 e.2 Hr Ht) as
    (m' & z' & x & E & Hr' & Ht' & Hh & Hd & Hfx & Hdom); [apply He|done|done| |].
  { rewrite <- El in Hb. unfold msize in *. by rewrite length_fmap in Hb. }
  exists m', z', x. split; [done|]. split; [|split; [done|]].
  - exists (pre ++ MkTower x e.1 e.2 lvl :: post). split; [split; [done|split; [|done]]|].
    + unfold owns in *. rewrite Hdom, Ho. cbn. rewrite !fmap_app, fmap_cons, Hh. cbn. set_solver.
    + rewrite fmap_app, fmap_cons. cbn [t_elem t_score t_obj]. split; [|by apply zset_ok_zins].
      rewrite <- El, fmap_app, zins_app; [by destruct e|by apply holds_elems|by apply fails_elems].
  - etransitivity; [apply (rep_node_elem _ _ _ pre (MkTower x e.1 e.2 lvl) post Hr' eq_refl)|by destruct e].
Qed.

(** * Deletion *)

Lemma own_search w cond m z l p : zsl_own m z l -> 32 <= w -> closed_down p -> sorted (t_elem <$> l) ->
  tests m z l cond p ->
  exists pre post a t up, l = pre ++ post /\ holds p pre /\ fails p post /\
    zslSearch (fuel_of m) w cond m (zlevel z) (header z) 0 [] = Some (t_ptr t, msize pre, up) /\
    hdr z :: pre = a ++ [t] /\ upd_ok (hdr z :: pre) (zlevel z) up /\
    (exists s, getLevel m (t_ptr t) 0 = Some (MkLevel (t_ptr <$> list.head post) s)).
Proof.
  intros (Hr & _) Hw Hp Hs Ht. destruct (sorted_cut p l Hp Hs) as (pre & post & -> & Hpre & Hpost).
  destruct (zslSearch_hdr w cond m z pre post Hr Hw) as (a & t & up & E & Ea & _ & Hup);
    [by eapply tests_cond|].
  exists pre, post, a, t, up. split; [done|]. split; [done|]. split; [done|]. split; [done|].
  split; [done|]. split; [done|]. exists (spanAt 0 post).
  pose proof (rep_heights _ _ _ Hr) as Hh. apply Forall_app in Hh as [Hh1 Hh2].
  rewrite (r_links _ _ _ Hr a t post 0).
  - unfold link. by rewrite nextAt_0.
  - by rewrite app_comm_cons, Ea, <- app_assoc.
  - pose proof (r_level _ _ _ Hr). assert (Hall : Forall (fun x => (1 <= t_height x)%nat) (hdr z :: pre)).
    { constructor; [cbn; lia|done]. }
    rewrite Ea in Hall. apply Forall_app in Hall as [_ Hall]. by apply list.Forall_cons_1 in Hall as [? _].
Qed.

Lemma zslDelete_repr m z es e : zsl_repr m z es -> elem_ok e ->
  exists m' z', zslDelete m z e.1 e.2 = Some (m', z', msize es - msize (zrem e es)) /\
    zsl_repr m' z' (zrem e es) /\
    decremented m' = (snd <$> filter (fun x => ekey x = ekey e) es) ++ decremented m.
Proof.
  intros (l & Hown & El & Hok) He. pose proof Hok as [Hs _]. rewrite <- El in Hs.
  destruct (own_search 32 _ m z l _ Hown ltac:(lia) (key_lt_down e) Hs (before_lt_tests m z l e (proj1 Hown) Hs He))
    as (pre & post & a & t & up & -> & Hpre & Hpost & E & Ea & Hup & [s Elv]).
  unfold zslDelete. rewrite E. cbn [obind]. rewrite Elv. cbn [obind forward].
  assert (Habs : (forall y, list.head (t_elem <$> post) = Some y -> ekey y <> ekey e) ->
    exists m' z', Some (m, z, 0) = Some (m', z', msize es - msize (zrem e es)) /\ zsl_repr m' z' (zrem e es) /\
      decremented m' = (snd <$> filter (fun x => ekey x = ekey e) es) ++ decremented m).
  { intros Hhd. assert (Hne : forall x, x ∈ es -> ekey x <> ekey e).
    { rewrite <- El, fmap_app in *. apply first_not_below; [done|by apply holds_elems|by apply fails_elems|done]. }
    rewrite zrem_absent by done. exists m, z. rewrite Z.sub_diag. split; [done|]. split; [by exists (pre ++ post)|].
    by rewrite filter_none by (by apply list.Forall_forall). }
  destruct post as [|X post]; cbn [list.head fmap option_fmap option_map]; [by apply Habs|].
  destruct (rep_lookup _ _ _ pre X post (proj1 Hown) eq_refl) as (n & En & Eo & Es). rewrite En. cbn [obind].
  pose proof (sorted_ok _ pre X post Hs eq_refl) as HX.
  assert (Hfound : (if SFeqb e.1 (score n) then o' <- obj n;; equalStringObjects o' e.2 else Some false)
    = Some (bool_decide (ekey (t_elem X) = ekey e))).
  { rewrite Es, Eo. destruct HX as [HX1 HX2], He as [He1 He2]. rewrite SFeqb_key by done. cbn [obind].
    rewrite equalStringObjects_spec by done. case_bool_decide as Hk.
    - f_equal. apply bool_decide_ext. rewrite ekey_inj by done. naive_solver.
    - f_equal. symmetry. apply bool_decide_eq_false. rewrite ekey_inj by done. naive_solver. }
  rewrite Hfound. cbn [obind]. case_bool_decide as Hk.
  - destruct (delete_free m z pre post X up Hown Hup) as (m1 & z1 & n1 & m2 & -> & _ & _ & Ef & Hown2 & _ & _ & Hd).
    cbn [obind]. rewrite Ef. cbn [obind]. exists m2, z1.
    rewrite fmap_app, fmap_cons in Hs. rewrite <- El, fmap_app, fmap_cons. rewrite (zrem_found e _ (t_elem X)) by done.
    rewrite !msize_app, msize_cons. split; [do 2 f_equal; lia|]. split.
    + exists (pre ++ post). split; [done|]. split; [by rewrite fmap_app|].
      rewrite <- (zrem_found e _ (t_elem X)) by done. apply zset_ok_filter.
      by rewrite <- El, fmap_app, fmap_cons in Hok.
    + rewrite Hd, list.filter_app, filter_cons_True by done.
      rewrite sorted_app, sorted_cons in Hs. destruct Hs as (_ & (_ & _ & Hgt) & Hlt).
      rewrite !filter_none; [done| |]; apply list.Forall_forall; intros y Hy; rewrite <- Hk.
      * apply not_eq_sym, elt_irrefl, Hgt, Hy.
      * apply elt_irrefl, Hlt; [done|]. set_solver.
  - apply Habs. intros y [= <-]. done.
Qed.

(** * Ranks *)

Lemma zrank_found o a x b : NoDup (values (a ++ x :: b)) -> obj_val x.2 = obj_val o ->
  zrank o (a ++ x :: b) = msize a + 1.
Proof.
  intros Hnd Hx. induction a as [|y a IH]; cbn [app zrank].
  - by rewrite decide_True by done.
  - cbn in Hnd. apply list.NoDup_cons in Hnd as [Hy Hnd]. rewrite IH by done. pose proof (msize_nonneg a).
    rewrite decide_False.
    + rewrite msize_cons. bdecide. lia.
    + intros Hk. apply Hy. unfold values. rewrite fmap_app, fmap_cons, Hk, <- Hx. set_solver.
Qed.

Lemma zrank_absent o es : (forall x, x ∈ es -> obj_val x.2 <> obj_val o) -> zrank o es = 0.
Proof.
  induction es as [|y es IH]; intros Hne; cbn [zrank]; [done|].
  rewrite decide_False by (apply Hne; set_solver). by rewrite IH by set_solver.
Qed.

(** The tower a search stands on is the header or a node of [pre]. *)
Lemma pred_node m z pre post a t c : zsl_rep m z (pre ++ post) -> hdr z :: pre = a ++ t :: c ->
  (a = [] /\ t = hdr z /\ exists n, nodes m !! t_ptr t = Some n /\ obj n = None /\ score n = S754_zero false) \/
  (exists a', a = hdr z :: a' /\ pre = a' ++ t :: c /\
    exists n, nodes m !! t_ptr t = Some n /\ obj n = Some (t_obj t) /\ score n = t_score t).
Proof.
  intros Hr E. destruct a as [|h a]; injection E as Eh E.
  - left. split; [done|]. split; [done|]. subst. pose proof (r_hdr _ _ _ Hr) as Hh. unfold shape in Hh.
    cbn [hdr t_ptr]. destruct (nodes m !! header z) as [n|]; [|done]. injection Hh as ? ? ? ?. by exists n.
  - right. exists a. subst h. split; [done|]. split; [done|].
    apply (rep_lookup m z _ a t (c ++ post) Hr). by rewrite E, <- app_assoc.
Qed.

Lemma zslGetRank_loop_spec cond m z pre post o n a t c :
  zsl_rep m z (pre ++ post) -> cond_ok cond pre post -> Forall (fun x => robj_ok (t_obj x)) pre -> robj_ok o ->
  hdr z :: pre = a ++ t :: c -> (n <= t_height t)%nat ->
  exists r, zslGetRank_loop (fuel_of m) cond m o n (t_ptr t) (msize a) = Some r /\
    ((r = 0 /\ ((0 < n)%nat -> forall u v, pre = u ++ [v] -> obj_val (t_obj v) <> obj_val o)) \/
     exists u v w, pre = u ++ v :: w /\ obj_val (t_obj v) = obj_val o /\ r = msize u + 1).
Proof.
  intros Hr Hc Hok Ho. pose proof (rep_fuel _ _ _ Hr) as Hfuel. rewrite length_app in Hfuel.
  revert a t c. induction n as [|i IH]; intros a t c E Hn; cbn [zslGetRank_loop].
  { exists 0. split; [done|]. left. split; [done|lia]. }
  destruct (zslAdvance_spec (fuel_of m) 64 cond m z pre post i a t c Hr ltac:(lia) Hc E) as (u & r & -> & Hu);
    [lia|apply (f_equal length) in E; rewrite length_app in E; unfold fuel_of; cbn in E; lia|].
  cbn [obind]. destruct (upd_at_lower _ i i u r Hu) as (a' & t' & c' & E' & -> & -> & Hlt); [lia|].
  destruct (IH a' t' c' E') as (r' & Er' & Hr'); [lia|].
  assert (Hlast : forall u v, pre = u ++ [v] -> i = 0%nat -> t' = v).
  { intros u v Ev ->. pose proof (rep_heights _ _ _ Hr) as Hh. apply Forall_app in Hh as [Hh _].
    destruct (upd_at_0 _ _ _ _ Hh Hu) as (Hsz & _). rewrite Ev in E'.
    assert (Hl : length a' = length (hdr z :: u)).
    { unfold msize in Hsz. rewrite Ev, length_app in Hsz. cbn in *. lia. }
    rewrite app_comm_cons in E'. apply app_inj_1 in E' as [_ Hv]; [|done]. by injection Hv. }
  destruct (pred_node _ _ _ _ _ _ _ Hr E') as [(-> & -> & n & En & Eo & _)|(a'' & -> & Ep & n & En & Eo & _)];
    rewrite En; cbn [obind]; rewrite Eo; cbn [obind].
  - exists r'. split; [done|]. destruct Hr' as [[-> Hr']|Hr']; [left|by right]. split; [done|].
    intros _ u v Ev. destruct (decide (i = 0%nat)) as [Hi|Hi]; [|apply (Hr' ltac:(lia) u v Ev)].
    destruct pre as [|p pre]; [by destruct u|]. exfalso. destruct Hu as (au & w & cu & Eu & Hp & Hz & _ & Hlow).
    rewrite msize_nil in Hz. symmetry in Hz. apply msize_0_nil in Hz as ->. injection Eu as _ <-.
    pose proof (rep_heights _ _ _ Hr) as Hh. cbn in Hh. apply list.Forall_cons_1 in Hh as [Hh _].
    apply list.Forall_cons_1 in Hlow as [Hlow _]. unfold low in Hlow. lia.
  - assert (Ht' : robj_ok (t_obj t')).
    { rewrite Ep in Hok. apply Forall_app in Hok as [_ Hok]. by apply list.Forall_cons_1 in Hok as [? _]. }
    rewrite equalStringObjects_spec by done. cbn [obind]. case_bool_decide as Hk.
    + exists (msize (hdr z :: a'')). split; [done|]. right. exists a'', t', c'.
      split; [done|]. split; [done|]. rewrite msize_cons. lia.
    + exists r'. split; [done|]. destruct Hr' as [[-> Hr']|Hr']; [left|by right]. split; [done|].
      intros _ u v Ev. destruct (decide (i = 0%nat)) as [Hi|Hi]; [|apply (Hr' ltac:(lia) u v Ev)].
      by rewrite <- (Hlast u v Ev Hi).
Qed.

Lemma zslGetRank_repr m z es e : zsl_repr m z es -> elem_ok e ->
  (exists x, x ∈ es /\ ekey x = ekey e) \/ (forall x, x ∈ es -> obj_val x.2 <> obj_val e.2) ->
  zslGetRank m z e.1 e.2 = Some (zrank e.2 es).
Proof.
  intros (l & (Hr & _) & El & [Hs Hnd]) He Hcase. rewrite <- El in Hs, Hnd, Hcase |- *. clear El es.
  destruct (sorted_cut (key_le e) l (key_le_down e) Hs) as (pre & post & -> & Hpre & Hpost).
  pose proof (tests_cond _ _ _ _ _ _ (before_le_tests m z _ e Hr Hs He) Hpre Hpost) as Hc.
  assert (Hok : Forall (fun x => robj_ok (t_obj x)) pre).
  { destruct Hs as [Hok _]. rewrite fmap_app in Hok. apply Forall_app in Hok as [Hok _]. rewrite (Forall_fmap t_elem) in Hok.
    eapply Forall_impl; [|exact Hok]. intros t [_ ?]. done. }
  pose proof (r_level _ _ _ Hr) as Hlv. unfold zslGetRank.
  destruct (zslGetRank_loop_spec _ m z pre post e.2 (zlevel z) [] (hdr z) pre Hr Hc Hok (proj2 He) eq_refl)
    as (r & E & Hres); [done|]. rewrite msize_nil in E. cbn [hdr t_ptr] in E. rewrite E. f_equal.
  destruct Hres as [[-> Hlast]|(u & v & w & -> & Hv & ->)].
  - symmetry. apply zrank_absent. destruct Hcase as [(x & Hx & Hk)|Hne]; [|done].
    exfalso. apply list_elem_of_fmap in Hx as (t & -> & Hin).
    apply list_elem_of_split in Hin as (a & b & Et).
    assert (Hpre_last : exists u, pre = u ++ [t]).
    { destruct (app_split _ _ _ _ _ Et) as [(c & Ec & ->)|(d & -> & Ed)].
      - exists a. destruct c as [|y c]; [done|exfalso].
        rewrite Ec in Hpre. apply Forall_app in Hpre as [_ Hpre]. apply list.Forall_cons_1 in Hpre as [_ Hpre].
        apply list.Forall_cons_1 in Hpre as [Hy _]. rewrite Ec in Hs.
        rewrite <- !app_assoc, fmap_app, sorted_app in Hs. destruct Hs as (_ & Hs & _). cbn in Hs.
        rewrite sorted_cons in Hs. destruct Hs as (_ & _ & Hlt). specialize (Hlt (t_elem y)).
        unfold key_le in Hy. rewrite lex_opp, <- Hk in Hy. rewrite Hlt in Hy; [done|set_solver].
      - exfalso. rewrite Ed in Hpost. apply Forall_app in Hpost as [_ Hpost].
        apply list.Forall_cons_1 in Hpost as [Hf _]. unfold key_le in Hf. by rewrite Hk, lex_refl in Hf. }
    destruct Hpre_last as [u Eu]. apply (Hlast ltac:(lia) u t Eu).
    apply ekey_inj in Hk as [_ Hk]; [done| |done]. eapply (sorted_ok _ a t b Hs Et).
  - rewrite fmap_app, fmap_app, fmap_cons, <- app_assoc. cbn [app].
    rewrite (zrank_found e.2 _ (t_elem v)); [unfold msize; by rewrite length_fmap| |done].
    by rewrite !fmap_app, fmap_cons, <- app_assoc in Hnd.
Qed.

Lemma zslGetElementByRank_loop_spec m z pre post rank n a t c :
  zsl_rep m z (pre ++ post) -> cond_ok (fun t _ => Some (t <=? rank)) pre post -> msize pre <= rank ->
  hdr z :: pre = a ++ t :: c -> (n <= t_height t)%nat ->
  exists r, zslGetElementByRank_loop (fuel_of m) m rank n (t_ptr t) (msize a) = Some r /\
    ((r = None /\ ((0 < n)%nat -> msize pre <> rank)) \/
     exists u v, hdr z :: pre = u ++ [v] /\ msize u = rank /\ r = Some (t_ptr v)).
Proof.
  intros Hr Hc Hle. pose proof (rep_fuel _ _ _ Hr) as Hfuel. rewrite length_app in Hfuel.
  revert a t c. induction n as [|i IH]; intros a t c E Hn; cbn [zslGetElementByRank_loop].
  { exists None. split; [done|]. left. split; [done|lia]. }
  destruct (zslAdvance_spec (fuel_of m) 64 _ m z pre post i a t c Hr ltac:(lia) Hc E) as (u & r & -> & Hu);
    [lia|apply (f_equal length) in E; rewrite length_app in E; unfold fuel_of; cbn in E; lia|].
  cbn [obind]. destruct (upd_at_lower _ i i u r Hu) as (a' & t' & c' & E' & -> & -> & Hlt); [lia|].
  destruct (Z.eqb_spec (msize a') rank) as [Hk|Hk].
  - exists (Some (t_ptr t')). split; [done|]. right. exists a', t'. split; [|done].
    destruct c' as [|x c']; [done|exfalso]. apply (f_equal msize) in E'.
    rewrite msize_app, !msize_cons in E'. pose proof (msize_nonneg c'). lia.
  - destruct (IH a' t' c' E') as (r' & Er' & [[-> Hr']|Hr']); [lia| |exists r'; split; [done|by right]].
    exists None. split; [done|]. left. split; [done|]. intros _. destruct (decide (i = 0%nat)) as [->|]; [|apply Hr'; lia].
    pose proof (rep_heights _ _ _ Hr) as Hh. apply Forall_app in Hh as [Hh _].
    destruct (upd_at_0 _ _ _ _ Hh Hu) as (<- & _). done.
Qed.

Lemma zslGetElementByRank_repr m z es rank : zsl_repr m z es -> 1 <= rank < 2 ^ 64 ->
  exists r, zslGetElementByRank m z rank = Some r /\ obind r (node_elem m) = es !! Z.to_nat (rank - 1).
Proof.
  intros (l & (Hr & _) & El & _) Hrank. rewrite <- El, list_lookup_fmap. clear El es.
  rewrite <- (take_drop (Z.to_nat rank) l) in Hr.
  set (pre := take (Z.to_nat rank) l) in *. set (post := drop (Z.to_nat rank) l) in *.
  assert (Hpre : msize pre = Z.min rank (msize l)) by (unfold pre, msize; rewrite length_take; lia).
  assert (Hpost : msize post = msize l - msize pre).
  { unfold post, msize in *. rewrite length_drop. lia. }
  assert (Hc : cond_ok (fun t _ => Some (t <=? rank)) pre post).
  { split; intros a x b E; f_equal.
    - apply (f_equal msize) in E. rewrite msize_app, msize_cons in E. pose proof (msize_nonneg b). bdecide. done.
    - apply (f_equal msize) in E. rewrite msize_app, msize_cons in E. pose proof (msize_nonneg b).
      pose proof (msize_nonneg a). bdecide. done. }
  pose proof (r_level _ _ _ Hr) as Hlv. unfold zslGetElementByRank.
  destruct (zslGetElementByRank_loop_spec m z pre post rank (zlevel z) [] (hdr z) pre Hr Hc)
    as (r & E & Hres); [lia|done|done|]. rewrite msize_nil in E. cbn [hdr t_ptr] in E.
  exists r. split; [done|]. destruct Hres as [[-> Hne]|(u & v & Ev & Hu & ->)].
  - cbn [obind]. rewrite lookup_ge_None_2; [done|]. unfold msize in *. lia.
  - cbn [obind]. destruct (pred_node _ _ _ _ _ _ _ Hr Ev) as [(-> & _)|(u' & -> & Ep & n & En & Eo & Es)];
      [rewrite msize_nil in Hu; lia|].
    unfold node_elem. rewrite En. cbn [obind]. rewrite Eo. cbn [obind]. rewrite Es.
    rewrite <- (take_drop (Z.to_nat rank) l). fold pre. rewrite Ep, <- app_assoc, lookup_app_r.
    + rewrite msize_cons in Hu. unfold msize in Hu. replace (_ - _)%nat with 0%nat by lia. done.
    + rewrite msize_cons in Hu. unfold msize in Hu. lia.
Qed.

(** * Ranges *)

Lemma in_range_bounds r x : range_ok r -> elem_ok x -> in_range r x = true ->
  is_le (lex (double_key (rmin r)) (double_key (rmax r))) = true /\
  (minex r || maxex r = true -> is_lt (lex (double_key (rmin r)) (double_key (rmax r))) = true).
Proof.
  intros [Hmin Hmax] [Hx _] [Hg Hl]%andb_true_iff. unfold zslValueGteMin, zslValueLteMax in *.
  rewrite SFltb_key, SFleb_key in Hg, Hl by done.
  set (a := double_key (rmin r)) in *. set (b := double_key x.1) in *. set (c := double_key (rmax r)) in *.
  assert (Hw : forall k k', is_lt (lex k k') = true -> is_le (lex k k') = true) by (intros k k'; by destruct (lex k k')).
  destruct (minex r), (maxex r); cbn [orb]; split; try done; intros;
    eauto using is_lt_trans, is_le_trans, is_lt_trans_l.
Qed.

Lemma empty_range r es : range_ok r -> Forall elem_ok es ->
  SFltb (rmax r) (rmin r) || (SFeqb (rmin r) (rmax r) && (minex r || maxex r)) = true -> zselect r es = [].
Proof.
  intros Hr Hok He. pose proof Hr as [Hmin Hmax]. unfold zselect. apply filter_none. eapply Forall_impl; [|exact Hok].
  intros x Hx Hin. cbn in Hin. destruct (in_range_bounds r x Hr Hx Hin) as [Hle Hlt].
  rewrite SFltb_key, SFeqb_key in He by done. rewrite lex_opp in He.
  apply orb_true_iff in He as [He|[Hk%bool_decide_eq_true Hex]%andb_true_iff].
  - by destruct (lex (double_key (rmin r)) (double_key (rmax r))).
  - specialize (Hlt Hex). by rewrite Hk, lex_refl in Hlt.
Qed.

(** The two ends of a sorted list decide whether a range can meet it. *)
Lemma closed_down_last p l t : closed_down p -> sorted (t_elem <$> l) -> list.last l = Some t ->
  p (t_elem t) = true -> holds p l.
Proof.
  intros Hp Hs Hl Ht. destruct l as [|x l _] using rev_ind; [done|]. rewrite last_snoc in Hl. injection Hl as ->.
  rewrite fmap_app, sorted_app in Hs. destruct Hs as (Hs & Hst & Hlt). cbn in Hst. rewrite sorted_cons in Hst.
  apply Forall_app. split; [|by constructor]. apply list.Forall_forall. intros y Hy.
  assert (Hin : t_elem y ∈ t_elem <$> l) by (by apply list_elem_of_fmap_2).
  eapply (Hp _ (t_elem t)); [|naive_solver|apply Hlt; [done|set_solver]|done].
  destruct Hs as [Hok _]. rewrite list.Forall_forall in Hok. by apply Hok.
Qed.

Lemma closed_down_head p t l : closed_down p -> sorted (t_elem <$> t :: l) -> p (t_elem t) = false -> fails p (t :: l).
Proof.
  intros Hp Hs Ht. constructor; [done|]. rewrite fmap_cons, sorted_cons in Hs. destruct Hs as (Hok & [Hall _] & Hlt).
  apply list.Forall_forall. intros y Hy. assert (Hin : t_elem y ∈ t_elem <$> l) by (by apply list_elem_of_fmap_2).
  apply not_true_is_false. intros Hy'. rewrite (Hp (t_elem t) (t_elem y)) in Ht; try done; [|by apply Hlt].
  rewrite list.Forall_forall in Hall. by apply Hall.
Qed.

Lemma zselect_nil r l : (forall t, t ∈ l -> in_range r (t_elem t) = false) -> zselect r (t_elem <$> l) = [].
Proof.
  intros Hf. apply filter_none, list.Forall_forall. intros x (t & -> & Hin)%list_elem_of_fmap.
  by rewrite (Hf t Hin).
Qed.

Lemma zslIsInRange_spec m z l r : zsl_own m z l -> sorted (t_elem <$> l) -> range_ok r ->
  exists b, zslIsInRange m z r = Some b /\
    if b then (exists t, list.head l = Some t /\ zslValueLteMax (t_score t) r = true) /\
              (exists t, list.last l = Some t /\ zslValueGteMin (t_score t) r = true)
    else zselect r (t_elem <$> l) = [].
Proof.
  intros (Hr & _) Hs Hrange. unfold zslIsInRange. destruct (_ || _) eqn:Eempty.
  { exists false. split; [done|]. apply empty_range; [done|apply Hs|done]. }
  clear Eempty. rewrite (r_tail _ _ _ Hr). unfold back.
  destruct (list.last l) as [t|] eqn:Elast; cbn [fmap option_fmap option_map].
  2: { apply last_None in Elast as ->. by exists false. }
  apply last_Some in Elast as Hl. destruct Hl as [l' El'].
  destruct (rep_lookup _ _ _ l' t [] Hr El') as (n & En & _ & Es). rewrite En. cbn [obind]. rewrite Es.
  destruct (zslValueGteMin (t_score t) r) eqn:Hg; cbn [negb].
  - rewrite (r_header_links m z l 0 Hr) by (pose proof (r_level _ _ _ Hr); lia). cbn [obind link forward].
    rewrite nextAt_0 by (by eapply rep_heights).
    destruct l as [|h q]; [by destruct l'|]. cbn [list.head fmap option_fmap option_map].
    destruct (rep_lookup _ _ _ [] h q Hr eq_refl) as (n' & En' & _ & Es'). rewrite En'. cbn [obind]. rewrite Es'.
    eexists. split; [done|]. destruct (zslValueLteMax (t_score h) r) eqn:Hm; [split; eauto|].
    apply zselect_nil. intros y Hy. unfold in_range. apply andb_false_iff. right.
    pose proof (closed_down_head _ h q (lte_max_down r Hrange) Hs Hm) as Hf. unfold fails in Hf.
    rewrite list.Forall_forall in Hf. by apply (Hf y Hy).
  - exists false. split; [done|]. apply zselect_nil. intros y Hy. unfold in_range. apply andb_false_iff. left.
    assert (Hf : holds (fun x => negb (zslValueGteMin x.1 r)) l).
    { eapply closed_down_last; [by apply gte_min_down|done|done|]. cbn. by rewrite Hg. }
    unfold holds in Hf. rewrite list.Forall_forall in Hf. specialize (Hf y Hy). cbn in Hf. by apply negb_true_iff.
Qed.

Lemma zslFirstInRange_repr m z es r : zsl_repr m z es -> range_ok r ->
  exists p, zslFirstInRange m z r = Some p /\ obind p (node_elem m) = list.head (zselect r es).
Proof.
  intros (l & Hown & El & [Hs _]) Hrange. rewrite <- El in *. unfold zslFirstInRange.
  destruct (zslIsInRange_spec m z l r Hown Hs Hrange) as ([|] & -> & Hin); cbn [obind negb].
  2: { exists None. by rewrite Hin. }
  destruct Hin as [_ (t & Elast & Hg)].
  destruct (own_search 32 _ m z l _ Hown ltac:(lia) (gte_min_down r Hrange) Hs
      (score_tests m z l (fun s => negb (zslValueGteMin s r)) (proj1 Hown)))
    as (pre & post & a & t' & up & -> & Hpre & Hpost & E & Ea & Hup & [s Elv]).
  rewrite E. cbn [obind]. rewrite Elv. cbn [obind forward].
  assert (Hno : zselect r (t_elem <$> pre) = []).
  { apply zselect_nil. intros y Hy. unfold holds in Hpre. rewrite list.Forall_forall in Hpre.
    specialize (Hpre y Hy). cbn in Hpre. apply negb_true_iff in Hpre. unfold in_range. cbn. by rewrite Hpre. }
  assert (Hsel : zselect r (t_elem <$> pre ++ post) = zselect r (t_elem <$> post)).
  { unfold zselect in *. by rewrite fmap_app, list.filter_app, Hno. }
  rewrite Hsel. destruct post as [|X post].
  { exfalso. rewrite app_nil_r in Elast. apply last_Some in Elast as [l' ->].
    apply Forall_app in Hpre as [_ Hpre]. apply list.Forall_cons_1 in Hpre as [Hpre _]. cbn in Hpre. by rewrite Hg in Hpre. }
  cbn [list.head fmap option_fmap option_map obind].
  destruct (rep_lookup _ _ _ pre X post (proj1 Hown) eq_refl) as (n & En & Eo & Es). rewrite En. cbn [obind]. rewrite Es.
  eexists. split; [done|]. rewrite fmap_app, sorted_app in Hs. destruct Hs as (_ & Hs & _).
  destruct (zslValueLteMax (t_score X) r) eqn:Hm; cbn [negb obind].
  - rewrite (rep_node_elem m z _ pre X post (proj1 Hown) eq_refl). unfold zselect. cbn [fmap list_fmap].
    rewrite filter_cons_True; [done|]. unfold in_range. cbn. rewrite Hm.
    apply list.Forall_cons_1 in Hpost as [HX _]. cbn in HX. apply negb_false_iff in HX. by rewrite HX.
  - rewrite zselect_nil; [done|]. intros y Hy. unfold in_range. apply andb_false_iff. right.
    pose proof (closed_down_head _ X post (lte_max_down r Hrange) Hs Hm) as Hf. unfold fails in Hf.
    rewrite list.Forall_forall in Hf. by apply (Hf y Hy).
Qed.

Lemma zslLastInRange_repr m z es r : zsl_repr m z es -> range_ok r ->
  exists p, zslLastInRange m z r = Some p /\ obind p (node_elem m) = list.last (zselect r es).
Proof.
  intros (l & Hown & El & [Hs _]) Hrange. rewrite <- El in *. unfold zslLastInRange.
  destruct (zslIsInRange_spec m z l r Hown Hs Hrange) as ([|] & -> & Hin); cbn [obind negb].
  2: { exists None. by rewrite Hin. }
  destruct Hin as [(h & Ehd & Hm) _].
  destruct (own_search 32 _ m z l _ Hown ltac:(lia) (lte_max_down r Hrange) Hs
      (score_tests m z l (fun s => zslValueLteMax s r) (proj1 Hown)))
    as (pre & post & a & t & up & -> & Hpre & Hpost & E & Ea & Hup & _).
  rewrite E. cbn [obind].
  assert (Hno : zselect r (t_elem <$> post) = []).
  { apply zselect_nil. intros y Hy. unfold fails in Hpost. rewrite list.Forall_forall in Hpost.
    specialize (Hpost y Hy). cbn in Hpost. unfold in_range. cbn. rewrite Hpost. apply andb_false_r. }
  assert (Hsel : zselect r (t_elem <$> pre ++ post) = zselect r (t_elem <$> pre)).
  { unfold zselect in *. by rewrite fmap_app, list.filter_app, Hno, app_nil_r. }
  rewrite Hsel. destruct (pred_node _ _ _ _ _ _ _ (proj1 Hown) Ea) as [(-> & -> & _)|(a' & -> & Ep & n & En & Eo & Es)].
  { exfalso. injection Ea as ->. apply head_cons in Ehd as [q Eq]. cbn in Eq. rewrite Eq in Hpost.
    apply list.Forall_cons_1 in Hpost as [Hpost _]. cbn in Hpost. by rewrite Hm in Hpost. }
  rewrite En. cbn [obind]. rewrite Es. eexists. split; [done|].
  rewrite fmap_app, sorted_app in Hs. destruct Hs as (Hs & _).
  destruct (zslValueGteMin (t_score t) r) eqn:Hg; cbn [negb obind].
  - unfold node_elem. rewrite En. cbn [obind]. rewrite Eo. cbn [obind]. rewrite Es, Ep.
    unfold zselect. rewrite fmap_app, list.filter_app. cbn [fmap list_fmap]. rewrite filter_cons_True.
    + by rewrite list.filter_nil, last_snoc.
    + unfold in_range. cbn. rewrite Hg. rewrite Ep in Hpre. apply Forall_app in Hpre as [_ Hpre].
      by apply list.Forall_cons_1 in Hpre as [Hpre _].
  - rewrite zselect_nil; [done|]. intros y Hy. unfold in_range. apply andb_false_iff. left.
    assert (Hf : holds (fun x => negb (zslValueGteMin x.1 r)) pre).
    { eapply closed_down_last; [by apply gte_min_down|done|by rewrite Ep, last_snoc|]. cbn. by rewrite Hg. }
    unfold holds in Hf. rewrite list.Forall_forall in Hf. specialize (Hf y Hy). cbn in Hf. by apply negb_true_iff.
Qed.

(** * Deleting ranges *)

(** The loop removes the towers [mid] for which its condition holds. *)
Lemma delete_range_loop inrange (Q : Z -> tower -> bool) up pre post : forall mid fuel m z tr removed dels,
  (forall m' z' a t b tr, zsl_rep m' z' (a ++ t :: b) -> inrange m' tr (t_ptr t) = Some (Q tr t)) ->
  zsl_own m z (pre ++ mid ++ post) -> upd_ok (hdr z :: pre) (zlevel z) up ->
  (forall a t b, mid = a ++ t :: b -> Q (tr + msize a) t = true) ->
  (forall t, list.head post = Some t -> Q (tr + msize mid) t = false) ->
  (length mid < fuel)%nat -> 0 <= tr -> tr + msize mid < 2 ^ 64 -> 0 <= removed -> removed + msize mid < 2 ^ 64 ->
  exists m' z', zslDeleteRange_loop fuel inrange m z up tr removed (t_ptr <$> list.head (mid ++ post)) dels
      = Some (m', z', removed + msize mid, dels ++ (t_obj <$> mid)) /\
    zsl_own m' z' (pre ++ post) /\ decremented m' = reverse (t_obj <$> mid) ++ decremented m.
Proof.
  induction mid as [|X mid IH]; intros fuel m z tr removed dels Hin Hown Hup Hmid Hpost Hf Htr Htr' Hrm Hrm';
    (destruct fuel as [|fuel]; [cbn in Hf; lia|]); cbn [app zslDeleteRange_loop].
  - rewrite msize_nil, Z.add_0_r. cbn [fmap list_fmap]. rewrite app_nil_r.
    destruct post as [|t post]; cbn [list.head fmap option_fmap option_map]; [by exists m, z|].
    rewrite (Hin m z pre t post) by (by destruct Hown). cbn [obind].
    specialize (Hpost t eq_refl). rewrite msize_nil, Z.add_0_r in Hpost. rewrite Hpost. by exists m, z.
  - cbn [list.head fmap option_fmap option_map]. cbn [app] in Hown. pose proof Hown as (Hr & _).
    rewrite (Hin m z pre X (mid ++ post)) by done. cbn [obind].
    pose proof (Hmid [] X mid eq_refl) as HX. rewrite msize_nil, Z.add_0_r in HX. rewrite HX.
    pose proof (rep_heights _ _ _ Hr) as Hh. rewrite Forall_app, list.Forall_cons in Hh. destruct Hh as (_ & HhX & Hh).
    rewrite (r_links _ _ _ Hr (hdr z :: pre) X (mid ++ post) 0) by (done || lia). cbn [obind link forward].
    rewrite nextAt_0 by done.
    destruct (delete_free m z pre (mid ++ post) X up Hown Hup)
      as (m1 & z1 & n & m2 & -> & En & Eo & Ef & Hown2 & Hh2 & Hup2 & Hd). cbn [obind].
    rewrite En. cbn [obind]. rewrite Eo. cbn [obind]. rewrite Ef. cbn [obind].
    rewrite msize_cons in Htr', Hrm'. pose proof (msize_nonneg mid). rewrite !uint_id by lia.
    destruct (IH fuel m2 z1 (tr + 1) (removed + 1) (dels ++ [t_obj X])) as (m' & z' & E & Hown' & Hd');
      [done|done|done| | |cbn in Hf; lia|lia|lia|lia|lia|].
    + intros a t b ->. specialize (Hmid (X :: a) t b eq_refl). rewrite msize_cons in Hmid. by rewrite <- Z.add_assoc.
    + intros t Ht. specialize (Hpost t Ht). rewrite msize_cons in Hpost. by rewrite <- Z.add_assoc.
    + exists m', z'. rewrite E, msize_cons, <- app_assoc. cbn [app]. split; [by rewrite Z.add_assoc|].
      split; [done|]. rewrite Hd', Hd, fmap_cons, reverse_cons, <- app_assoc. done.
Qed.

Lemma below_min r x : range_ok r -> elem_ok x ->
  (if minex r then SFleb x.1 (rmin r) else SFltb x.1 (rmin r)) = negb (zslValueGteMin x.1 r).
Proof.
  intros [Hr _] [Hx _]. unfold zslValueGteMin. rewrite !SFltb_key, !SFleb_key, (lex_opp (double_key x.1)) by done.
  by destruct (minex r), (lex (double_key x.1) (double_key (rmin r))).
Qed.

Lemma zselect_app r es es' : zselect r (es ++ es') = zselect r es ++ zselect r es'.
Proof. apply list.filter_app. Qed.

Lemma zreject_app r es es' : zreject r (es ++ es') = zreject r es ++ zreject r es'.
Proof. apply list.filter_app. Qed.

Lemma zrange_all r l : (forall t, t ∈ l -> in_range r (t_elem t) = true) ->
  zselect r (t_elem <$> l) = t_elem <$> l /\ zreject r (t_elem <$> l) = [].
Proof.
  intros Hl. split; [apply filter_id|apply filter_none]; apply list.Forall_forall;
    intros x (t & -> & Hin)%list_elem_of_fmap; by rewrite (Hl t Hin).
Qed.

Lemma zrange_none r l : (forall t, t ∈ l -> in_range r (t_elem t) = false) ->
  zselect r (t_elem <$> l) = [] /\ zreject r (t_elem <$> l) = t_elem <$> l.
Proof.
  intros Hl. split; [apply filter_none|apply filter_id]; apply list.Forall_forall;
    intros x (t & -> & Hin)%list_elem_of_fmap; by rewrite (Hl t Hin).
Qed.

Lemma zslDeleteRangeByScore_repr m z es r : zsl_repr m z es -> range_ok r ->
  exists m' z', zslDeleteRangeByScore m z r = Some (m', z', msize (zselect r es), snd <$> zselect r es) /\
    zsl_repr m' z' (zreject r es) /\ decremented m' = reverse (snd <$> zselect r es) ++ decremented m.
Proof.
  intros (l & Hown & El & Hok) Hrange. pose proof Hok as [Hs _]. rewrite <- El in *. unfold zslDeleteRangeByScore.
  destruct (own_search 32 (fun _ y => n <- nodes m !! y;;
       Some (if minex r then SFleb (score n) (rmin r) else SFltb (score n) (rmin r)))
      m z l _ Hown ltac:(lia) (gte_min_down r Hrange) Hs)
    as (pre & post & a & t & up & -> & Hpre & Hpost & E & _ & Hup & [s Elv]).
  { intros a t b k Et. rewrite (score_tests m z l (fun x => if minex r then SFleb x (rmin r) else SFltb x (rmin r))
      (proj1 Hown) a t b k Et). f_equal. apply (below_min r (t_elem t) Hrange). eapply sorted_ok; done. }
  rewrite E. cbn [obind]. rewrite Elv. cbn [obind forward].
  rewrite fmap_app, sorted_app in Hs. destruct Hs as (_ & Hs & _).
  destruct (sorted_cut _ post (lte_max_down r Hrange) Hs) as (mid & rest & -> & Hmid & Hrest).
  unfold holds, fails in *. rewrite Forall_app in Hpost. destruct Hpost as [Hmid' _].
  rewrite list.Forall_forall in Hpre, Hmid, Hmid', Hrest. cbn in Hpre, Hmid', Hmid, Hrest.
  destruct (zrange_none r pre) as [Sp Rp].
  { intros y Hy. unfold in_range. cbn. specialize (Hpre y Hy). apply negb_true_iff in Hpre. by rewrite Hpre. }
  destruct (zrange_all r mid) as [Sm Rm].
  { intros y Hy. unfold in_range. cbn. rewrite (Hmid y Hy). specialize (Hmid' y Hy).
    apply negb_false_iff in Hmid'. by rewrite Hmid'. }
  destruct (zrange_none r rest) as [Sr Rr].
  { intros y Hy. unfold in_range. cbn. rewrite (Hrest y Hy). apply andb_false_r. }
  assert (Hsel : zselect r (t_elem <$> pre ++ mid ++ rest) = t_elem <$> mid).
  { by rewrite !fmap_app, !zselect_app, Sp, Sm, Sr, app_nil_r. }
  assert (Hrej : zreject r (t_elem <$> pre ++ mid ++ rest) = t_elem <$> pre ++ rest).
  { by rewrite !fmap_app, !zreject_app, Rp, Rm, Rr. }
  pose proof (r_bound _ _ _ (proj1 Hown)) as Hb. rewrite !msize_app in Hb.
  pose proof (msize_nonneg pre). pose proof (msize_nonneg mid). pose proof (msize_nonneg rest).
  destruct (delete_range_loop (fun m _ y => n <- nodes m !! y;; Some (zslValueLteMax (score n) r))
      (fun _ t => zslValueLteMax (t_score t) r) up pre rest mid (fuel_of m) m z 0 0 [])
    as (m' & z' & Ed & Hown' & Hd); try done; try lia.
  { intros m' z' a' t' b' tr Hr'. by apply (score_tests m' z' _ (fun s => zslValueLteMax s r) Hr' a' t' b' tr). }
  { intros a' t' b' ->. apply Hmid. set_solver. }
  { intros t' [q ->]%head_cons. apply Hrest. set_solver. }
  { pose proof (rep_fuel _ _ _ (proj1 Hown)) as Hfuel. rewrite !length_app in Hfuel. unfold fuel_of. lia. }
  unfold zslValueLteMax in Ed. rewrite Ed. exists m', z'. rewrite Hsel, Hrej.
  rewrite <- list_fmap_compose. split; [unfold msize; by rewrite length_fmap|]. split; [|by rewrite Hd].
  exists (pre ++ rest). split; [done|]. split; [done|]. rewrite <- Hrej. by apply zset_ok_filter.
Qed.

Lemma zslDeleteRangeByRank_repr m z es start stop : zsl_repr m z es ->
  1 <= start < 2 ^ 32 -> start - 1 <= stop < 2 ^ 32 ->
  let mid := drop (Z.to_nat (start - 1)) (take (Z.to_nat stop) es) in
  exists m' z', zslDeleteRangeByRank m z start stop = Some (m', z', msize mid, snd <$> mid) /\
    zsl_repr m' z' (take (Z.to_nat (start - 1)) es ++ drop (Z.to_nat stop) es) /\
    decremented m' = reverse (snd <$> mid) ++ decremented m.
Proof.
  intros (l & Hown & El & Hok) Hst Hsp. cbn zeta. rewrite <- El, <- fmap_take, <- fmap_drop, <- fmap_take, <- fmap_drop.
  set (pre := take (Z.to_nat (start - 1)) l). set (mid := drop (Z.to_nat (start - 1)) (take (Z.to_nat stop) l)).
  set (post := drop (Z.to_nat stop) l).
  assert (Hl : l = pre ++ mid ++ post).
  { unfold pre, mid, post. rewrite <- (take_drop (Z.to_nat stop) l) at 1.
    rewrite <- (take_drop (Z.to_nat (start - 1)) (take (Z.to_nat stop) l)) at 1.
    rewrite take_take, Nat.min_l, <- app_assoc by lia. done. }
  assert (Hpre : msize pre = Z.min (start - 1) (msize l)) by (unfold pre, msize; rewrite length_take; lia).
  assert (Hmid : msize pre + msize mid = Z.min stop (msize l)).
  { unfold pre, mid, msize. rewrite length_drop, !length_take. lia. }
  assert (Hpost : msize post = msize l - Z.min stop (msize l)).
  { unfold post, msize. rewrite length_drop. lia. }
  clearbody pre mid post. rewrite Hl in El, Hown. pose proof Hown as (Hr & _).
  pose proof (r_bound _ _ _ Hr) as Hb. rewrite <- Hl in Hb.
  pose proof (msize_nonneg pre). pose proof (msize_nonneg mid). pose proof (msize_nonneg post).
  destruct (zslSearch_hdr 64 (fun rank _ => Some (rank <? start)) m z pre (mid ++ post) Hr) as (a & t & up & E & Ea & _ & Hup);
    [lia| |].
  { split; intros a x b Ex; f_equal; apply (f_equal msize) in Ex; rewrite ?msize_app, ?msize_cons in Ex;
      pose proof (msize_nonneg a); pose proof (msize_nonneg b); by bdecide. }
  unfold zslDeleteRangeByRank. rewrite E. cbn [obind].
  assert (Elv : getLevel m (t_ptr t) 0 = Some (link 0 (mid ++ post))).
  { apply (r_links _ _ _ Hr a t (mid ++ post) 0).
    - by rewrite app_comm_cons, Ea, <- app_assoc.
    - pose proof (r_level _ _ _ Hr). pose proof (rep_heights _ _ _ Hr) as Hh. apply Forall_app in Hh as [Hh _].
      assert (Hall : Forall (fun x => (1 <= t_height x)%nat) (hdr z :: pre)) by (constructor; [cbn; lia|done]).
      rewrite Ea in Hall. apply Forall_app in Hall as [_ Hall]. by apply list.Forall_cons_1 in Hall as [? _]. }
  rewrite Elv. cbn [obind link forward]. rewrite nextAt_0.
  2: { pose proof (rep_heights _ _ _ Hr) as Hh. by apply Forall_app in Hh as [_ Hh]. }
  rewrite uint_id by lia.
  destruct (delete_range_loop (fun _ traversed _ => Some (traversed <=? stop)) (fun tr _ => tr <=? stop)
      up pre post mid (fuel_of m) m z (msize pre + 1) 0 []) as (m' & z' & Ed & Hown' & Hd); try done; try lia.
  { intros a' t' b' Ex. apply (f_equal msize) in Ex. rewrite msize_app, msize_cons in Ex.
    pose proof (msize_nonneg a'). pose proof (msize_nonneg b'). by bdecide. }
  { intros t' [q Eq]%head_cons. apply (f_equal msize) in Eq. rewrite msize_cons in Eq.
    pose proof (msize_nonneg q). by bdecide. }
  { pose proof (rep_fuel _ _ _ Hr) as Hfuel. rewrite !length_app in Hfuel. unfold fuel_of. lia. }
  rewrite Ed. exists m', z'. rewrite <- list_fmap_compose. split; [unfold msize; by rewrite length_fmap|].
  split; [|by rewrite Hd]. exists (pre ++ post). split; [done|]. split; [by rewrite fmap_app|].
  rewrite <- El, !fmap_app in Hok. destruct Hok as [Hs Hnd]. split.
  - rewrite !sorted_app in *. set_solver.
  - unfold values in *. rewrite !fmap_app. rewrite !fmap_app in Hnd; try rewrite !fmap_app in Hnd.
    rewrite !list.NoDup_app in Hnd. apply list.NoDup_app.
    destruct Hnd as (Hn1 & Hd1 & Hn2 & _ & Hn3). split; [done|]. split; [|done].
    intros v Hv Hv'. apply (Hd1 v Hv). apply elem_of_app. by right.
Qed.

End Ops.
