(* ===== verification/SkiplistSpec.v ===== *)
(** What the skiplists of sorted sets promise: every history of operations
    behaves as on a sorted list of elements, the structural invariant holds in
    every reachable state, and freeing a list releases all it holds. *)

From stdpp Require Import gmap sorting.
From Stdlib Require Import SpecFloat.
From S2P Require Import Prelude.
From S2P Require Import Util.
From S2P Require Import Robj.
From S2P Require Import Skiplist.
From S2P Require Import SkiplistRep.
From S2P Require Import SkiplistUpdate.
From S2P Require Import SkiplistDelete.
From S2P Require Import SkiplistOrder.
From S2P Require Import SkiplistOps.

(** * Histories *)

(** The operations; an insertion comes with the random numbers it consumes. *)
Inductive zop :=
  | ZInsert (sc : double) (o : robj) (rnd : list Z)
  | ZDelete (sc : double) (o : robj)
  | ZRank (sc : double) (o : robj)
  | ZAt (rank : Z)
  | ZFirst (r : zrangespec)
  | ZLast (r : zrangespec)
  | ZDeleteScores (r : zrangespec)
  | ZDeleteRanks (start stop : Z).

Inductive zres :=
  | ZUnit
  | ZInt (v : Z)
  | ZElem (e : option elem)
  | ZDeleted (n : Z) (objs : list robj).

Definition robj_okb (o : robj) : bool :=
  match o with
  | ObjSds s => msize s <? 2 ^ 31
  | ObjInt v => (LLONG_MIN <? v) && (v <=? LLONG_MAX)
  end.

Definition elem_okb (e : elem) : bool := negb (isnan e.1) && robj_okb e.2.

Definition range_okb (r : zrangespec) : bool := negb (isnan (rmin r)) && negb (isnan (rmax r)).

Section Histories.
Context `{Host} (jb : option ptr) (jl : zskiplistLevel).

Definition run_zop (s : mem * zskiplist) (op : zop) : option (mem * zskiplist * zres) :=
  let '(m, z) := s in
  match op with
  | ZInsert sc o rnd => ' (m, z, _, _) <- zslInsert jb jl rnd m z sc o;; Some (m, z, ZUnit)
  | ZDelete sc o => ' (m, z, r) <- zslDelete m z sc o;; Some (m, z, ZInt r)
  | ZRank sc o => r <- zslGetRank m z sc o;; Some (m, z, ZInt r)
  | ZAt rank => p <- zslGetElementByRank m z rank;; Some (m, z, ZElem (obind p (node_elem m)))
  | ZFirst r => p <- zslFirstInRange m z r;; Some (m, z, ZElem (obind p (node_elem m)))
  | ZLast r => p <- zslLastInRange m z r;; Some (m, z, ZElem (obind p (node_elem m)))
  | ZDeleteScores r => ' (m, z, n, objs) <- zslDeleteRangeByScore m z r;; Some (m, z, ZDeleted n objs)
  | ZDeleteRanks start stop =>
      ' (m, z, n, objs) <- zslDeleteRangeByRank m z start stop;; Some (m, z, ZDeleted n objs)
  end.

Fixpoint run_zops (s : mem * zskiplist) (ops : list zop) : option (mem * zskiplist * list zres) :=
  match ops with
  | [] => Some (s, [])
  | op :: ops => ' (s, r) <- run_zop s op;; ' (s, rs) <- run_zops s ops;; Some (s, r :: rs)
  end.

(** The same operations on a sorted list; [None] when the caller breaks the
    contract of the operation (a NaN, an element whose object is already
    there, ranks that are not positive). *)
Definition spec_zop (es : list elem) (op : zop) : option (list elem * zres) :=
  match op with
  | ZInsert sc o rnd =>
      if elem_okb (sc, o) && bool_decide (obj_val o ∉ values es) && (msize es + 1 <? 2 ^ 32)
         && bool_decide (is_Some (zslRandomLevel rnd))
      then Some (zins (sc, o) es, ZUnit) else None
  | ZDelete sc o =>
      if elem_okb (sc, o) then Some (zrem (sc, o) es, ZInt (msize es - msize (zrem (sc, o) es))) else None
  | ZRank sc o =>
      if elem_okb (sc, o) && (bool_decide (Exists (fun x => ekey x = ekey (sc, o)) es)
                              || bool_decide (obj_val o ∉ values es))
      then Some (es, ZInt (zrank o es)) else None
  | ZAt rank => if (1 <=? rank) && (rank <? 2 ^ 64) then Some (es, ZElem (es !! Z.to_nat (rank - 1))) else None
  | ZFirst r => if range_okb r then Some (es, ZElem (list.head (zselect r es))) else None
  | ZLast r => if range_okb r then Some (es, ZElem (list.last (zselect r es))) else None
  | ZDeleteScores r =>
      if range_okb r then Some (zreject r es, ZDeleted (msize (zselect r es)) (snd <$> zselect r es)) else None
  | ZDeleteRanks start stop =>
      if (1 <=? start) && (start <? 2 ^ 32) && (start - 1 <=? stop) && (stop <? 2 ^ 32) then
        let mid := drop (Z.to_nat (start - 1)) (take (Z.to_nat stop) es) in
        Some (take (Z.to_nat (start - 1)) es ++ drop (Z.to_nat stop) es, ZDeleted (msize mid) (snd <$> mid))
      else None
  end.

Fixpoint spec_zops (es : list elem) (ops : list zop) : option (list elem * list zres) :=
  match ops with
  | [] => Some (es, [])
  | op :: ops => ' (es, r) <- spec_zop es op;; ' (es, rs) <- spec_zops es ops;; Some (es, r :: rs)
  end.

(** * One step *)

Lemma elem_okb_spec e : elem_okb e = true -> elem_ok e.
Proof.
  unfold elem_okb, elem_ok. intros [Hn Ho]%andb_true_iff. apply negb_true_iff in Hn. split; [done|].
  destruct (e.2); cbn in *; bprop; [done|lia].
Qed.

Lemma range_okb_spec r : range_okb r = true -> range_ok r.
Proof. unfold range_okb. intros [?%negb_true_iff ?%negb_true_iff]%andb_true_iff. done. Qed.

Lemma values_absent o es : obj_val o ∉ values es -> forall x, x ∈ es -> obj_val x.2 <> obj_val o.
Proof.
  intros Hn x Hx Hk. apply Hn. rewrite <- Hk. by apply (list_elem_of_fmap_2 (fun x : elem => obj_val x.2)).
Qed.

Lemma run_zop_spec m z es op es' r : zsl_repr m z es -> spec_zop es op = Some (es', r) ->
  exists m' z', run_zop (m, z) op = Some (m', z', r) /\ zsl_repr m' z' es'.
Proof.
  intros Hrep Hsp. destruct op as [sc o rnd|sc o|sc o|rank|rg|rg|rg|start stop]; cbn [spec_zop run_zop] in *;
    (destruct (_ : bool) eqn:Hc in Hsp; [|done]); injection Hsp as <- <-; bprop.
  - match goal with H : bool_decide (_ ∉ _) = true |- _ => apply bool_decide_eq_true in H as Hne end.
    match goal with H : bool_decide (is_Some _) = true |- _ => apply bool_decide_eq_true in H as [[lvl rnd'] Ernd] end.
    destruct (zslInsert_repr jb jl rnd lvl rnd' m z es (sc, o) Hrep) as (m' & z' & x & E & Hrep' & _);
      [by apply elem_okb_spec|by apply values_absent|done|done|].
    cbn [fst snd] in E. rewrite E. by exists m', z'.
  - destruct (zslDelete_repr m z es (sc, o) Hrep) as (m' & z' & E & Hrep' & _); [by apply elem_okb_spec|].
    cbn [fst snd] in E. rewrite E. by exists m', z'.
  - pose proof (zslGetRank_repr m z es (sc, o) Hrep) as E. cbn [fst snd] in E. rewrite E.
    + by exists m, z.
    + by apply elem_okb_spec.
    + match goal with H : _ || _ = true |- _ => apply orb_true_iff in H as [Hx|Hx] end;
        apply bool_decide_eq_true in Hx; [left|right; by apply values_absent].
      apply list.Exists_exists in Hx as (x & ? & ?). by exists x.
  - destruct (zslGetElementByRank_repr m z es rank Hrep) as (p & -> & Hp); [lia|]. cbn [obind]. rewrite Hp. by exists m, z.
  - destruct (zslFirstInRange_repr m z es rg Hrep) as (p & -> & Hp); [by apply range_okb_spec|]. cbn [obind].
    rewrite Hp. by exists m, z.
  - destruct (zslLastInRange_repr m z es rg Hrep) as (p & -> & Hp); [by apply range_okb_spec|]. cbn [obind].
    rewrite Hp. by exists m, z.
  - destruct (zslDeleteRangeByScore_repr m z es rg Hrep) as (m' & z' & -> & Hrep' & _); [by apply range_okb_spec|].
    by exists m', z'.
  - destruct (zslDeleteRangeByRank_repr m z es start stop Hrep) as (m' & z' & E & Hrep' & _); [lia..|].
    rewrite E. by exists m', z'.
Qed.

Lemma run_zops_spec ops : forall m z es es' rs, zsl_repr m z es -> spec_zops es ops = Some (es', rs) ->
  exists m' z', run_zops (m, z) ops = Some (m', z', rs) /\ zsl_repr m' z' es'.
Proof.
  induction ops as [|op ops IH]; intros m z es es' rs Hrep Hsp; cbn [spec_zops run_zops] in *.
  - injection Hsp as <- <-. by exists m, z.
  - destruct (spec_zop es op) as [[es1 r]|] eqn:E1; [cbn [obind] in Hsp|done].
    destruct (spec_zops es1 ops) as [[es2 rs2]|] eqn:E2; [cbn [obind] in Hsp|done]. injection Hsp as <- <-.
    destruct (run_zop_spec m z es op es1 r Hrep E1) as (m1 & z1 & -> & Hrep1). cbn [obind].
    destruct (IH m1 z1 es1 es2 rs2 Hrep1 E2) as (m2 & z2 & -> & Hrep2). by exists m2, z2.
Qed.

(** * Creation *)

Definition empty_mem : mem := {| nodes := ∅; decremented := [] |}.

Lemma zslCreate_repr : exists m z, zslCreate jb jl empty_mem = Some (m, z) /\ zsl_repr m z [] /\ decremented m = [].
Proof.
  unfold zslCreate.
  destruct (zslCreateNode_spec jb jl empty_mem ZSKIPLIST_MAXLEVEL (S754_zero false) None)
    as (m1 & h & -> & _ & D1 & Hd1 & S1 & _ & G1).
  set (G := fun (y : ptr) (i : nat) => if decide (y = h) then Some (MkLevel None 0) else getLevel m1 y i).
  destruct (for_up_levels m1 G (fun j m => m <- setForward m h j None;; setSpan m h j 0) 0 ZSKIPLIST_MAXLEVEL)
    as (m2 & -> & S2 & G2).
  { intros i Hi m Hs Hg. destruct (setForward_ok m h i jl None) as (m' & -> & A1); [rewrite Hg; apply G1; lia|].
    cbn [obind]. destruct (setSpan_ok m' h i (MkLevel None (span jl)) 0) as (m'' & -> & A2).
    { by apply (set_at_same _ _ _ _ _ A1). }
    exists m''. split; [done|]. split; [destruct A1, A2; eauto using same_shape_trans|]. split.
    - intros y. destruct A1 as [_ A1], A2 as [_ A2]. rewrite A2, A1, Hg. unfold G. repeat case_decide; naive_solver.
    - intros y j Hj. by rewrite (set_at_other _ _ _ _ _ _ _ A2), (set_at_other _ _ _ _ _ _ _ A1) by (right; done). }
  cbn [obind]. apply same_shape_dom in S2 as Hd2. destruct S2 as [S2 D2].
  edestruct (setBackward_ok m2 h None) as (m3 & E3 & D3 & G3 & S3); [rewrite S2, S1; by rewrite decide_True|].
  rewrite E3. cbn [obind]. eexists m3, _. split; [done|]. split; [|by rewrite D3, D2, D1].
  apply setBackward_dom in E3.
  assert (Hl : forall i, (i < ZSKIPLIST_MAXLEVEL)%nat -> getLevel m3 h i = Some (MkLevel None 0)).
  { intros i Hi. rewrite G3, G2, decide_True by lia. unfold G. by rewrite decide_True. }
  exists []. split; [split; [|split; [|by left]]|split; [done|split; [split; constructor|constructor]]].
  - split; cbn; try done.
    + apply NoDup_singleton.
    + unfold ZSKIPLIST_MAXLEVEL. lia.
    + rewrite S3. by rewrite decide_True.
    + intros i Hi. exists 0. apply Hl. lia.
    + intros a x b E. by destruct a.
    + intros a x b i E Hi. destruct a as [|? [|]]; [|done..]. injection E as <- <-. cbn in *.
      apply Hl. unfold ZSKIPLIST_MAXLEVEL. lia.
  - unfold owns. rewrite E3, Hd2, Hd1. cbn. set_solver.
Qed.

End Histories.

(** * Reachable states *)

(** The states of a skiplist created on an empty heap and used within its
    contract, with the elements inserted and not deleted. *)
Inductive zsl_reach `{Host} (jb : option ptr) (jl : zskiplistLevel) : mem -> zskiplist -> list elem -> Prop :=
  | reach_create m z : zslCreate jb jl empty_mem = Some (m, z) -> zsl_reach jb jl m z []
  | reach_step m z es op m' z' es' r r' : zsl_reach jb jl m z es -> spec_zop es op = Some (es', r) ->
      run_zop jb jl (m, z) op = Some (m', z', r') -> zsl_reach jb jl m' z' es'.

Lemma reach_repr `{Host} jb jl m z es : zsl_reach jb jl m z es -> zsl_repr m z es.
Proof.
  induction 1 as [m z E|m z es op m' z' es' r r' _ IH Hsp Hrun].
  - destruct (zslCreate_repr jb jl) as (m1 & z1 & E' & Hrep & _). congruence.
  - destruct (run_zop_spec jb jl m z es op es' r IH Hsp) as (m1 & z1 & E' & Hrep). congruence.
Qed.

(** Example data: the doubles 1, 2 and 3. *)
Definition d1 : double := S754_finite false 4503599627370496 (-52).
Definition d2 : double := S754_finite false 4503599627370496 (-51).
Definition d3 : double := S754_finite false 6755399441055744 (-51).

Definition example_ops : list zop :=
  [ZInsert d2 (ObjSds [98]) [0; 0; 65535]; ZInsert d1 (ObjInt 12) [65535]; ZInsert d2 (ObjSds [97]) [1; 20000];
   ZInsert d3 (ObjSds []) [0; 0; 0; 40000]; ZRank d2 (ObjSds [98]); ZAt 2; ZAt 5;
   ZFirst (MkRange d1 d3 true false); ZLast (MkRange d1 d3 true true); ZDelete d1 (ObjSds [49; 50]);
   ZRank d1 (ObjInt 12); ZDelete d1 (ObjInt 12); ZDeleteRanks 2 2; ZDeleteScores (MkRange d3 d3 false false); ZAt 1].



(** C24. In every reachable state the nodes form a skiplist: the heap holds
    exactly the header and the nodes of the list, in strictly increasing order
    of score and object; at every level of every tower the forward pointer
    leads to the next tower of at least that height and the span is the
    distance to it, the backward pointers link the same list, and the level of
    the list is that of its highest tower. *)
Theorem zsl_reachable_invariant `{Host} (jb : option ptr) (jl : zskiplistLevel) (m : mem) (z : zskiplist)
    (es : list elem) :
  zsl_reach jb jl m z es ->
  exists l, t_elem <$> l = es /\ zsl_rep m z l /\ owns m z l /\ top_ok z l /\ zset_ok es.
Proof. intros (l & (Hr & Ho & Ht) & El & Hok)%reach_repr. by exists l. Qed.

Lemma zsl_reachable_invariant_witness :
  match zslCreate None (MkLevel None 7) empty_mem with
  | Some (m, z) => exists l, t_elem <$> l = [] /\ zsl_rep m z l /\ owns m z l /\ top_ok z l /\ @zset_ok le_host []
  | None => False
  end.
Proof.
  destruct (zslCreate None (MkLevel None 7) empty_mem) as [[m z]|] eqn:E.
  - apply (@zsl_reachable_invariant le_host None (MkLevel None 7) m z []). by apply reach_create.
  - vm_compute in E. discriminate E.
Defined.

(** Freeing a reachable skiplist frees the header and every node, and
    drops exactly one reference to the object of each element. *)
Theorem zsl_free_releases_all `{Host} (jb : option ptr) (jl : zskiplistLevel) (m : mem) (z : zskiplist)
    (es : list elem) :
  zsl_reach jb jl m z es ->
  exists m', zslFree m z = Some m' /\ nodes m' = ∅ /\ decremented m' = reverse (snd <$> es) ++ decremented m.
Proof.
  intros (l & Hown & <- & _)%reach_repr. destruct (zslFree_spec m z l Hown) as (m' & E & Hn & Hd).
  exists m'. split; [done|]. split; [done|]. by rewrite Hd, <- list_fmap_compose.
Qed.

Lemma zsl_free_releases_all_witness :
  match (s <- zslCreate None (MkLevel None 7) empty_mem;;
         @run_zop le_host None (MkLevel None 7) s (ZInsert d1 (ObjSds [97]) [0; 65535])) with
  | Some (m, z, _) => exists m', zslFree m z = Some m' /\ nodes m' = ∅ /\
      decremented m' = reverse (snd <$> [(d1, ObjSds [97])]) ++ decremented m
  | None => False
  end.
Proof.
  destruct (zslCreate None (MkLevel None 7) empty_mem) as [s|] eqn:E; [|vm_compute in E; discriminate E].
  destruct (obind (Some s) _) as [[[m z] r]|] eqn:E2.
  - apply (@zsl_free_releases_all le_host None (MkLevel None 7) m z [(d1, ObjSds [97])]).
    destruct s as [m0 z0]. eapply reach_step; [by apply reach_create| |exact E2]. vm_compute. reflexivity.
  - vm_compute in E. injection E as <-. vm_compute in E2. discriminate E2.
Defined.

(** [zslGetRank] compares only the object of the node it stops at: with
    a score higher than that of the element, it returns the rank of an element
    that is not in the list, where its comment promises 0. *)
Theorem zsl_rank_ignores_score :
  (' (m, z) <- zslCreate None (MkLevel None 0) empty_mem;;
   ' (m, z, _, _) <- @zslInsert le_host None (MkLevel None 0) [65535] m z d1 (ObjSds [97]);;
   @zslGetRank le_host m z d2 (ObjSds [97])) = Some 1.
Proof. vm_compute. reflexivity. Qed.
