(* ===== verification/Sds.v ===== *)
(** Dynamic strings ([sds.c], [sds.h]): the header with the length and the
    free space, the buffer behind it, and one definition per function. *)

From S2P Require Import Prelude.
From S2P Require Import Util.
From S2P Require Import Robj.

(** [struct sdshdr]: [buf] is the whole buffer, of [len + free + 1] bytes. *)
Record sdshdr := MkSds { len : Z; free : Z; buf : bytes }.

Definition SDS_MAX_PREALLOC : Z := 1024 * 1024.

Definition sdslen (s : sdshdr) : Z := uint 64 (len s).
Definition sdsavail (s : sdshdr) : Z := uint 64 (free s).

(** Assignments to the fields; the lengths are [int]s. *)
Definition set_len (s : sdshdr) (l : Z) : sdshdr := {| len := sint 32 l; free := free s; buf := buf s |}.
Definition set_free (s : sdshdr) (f : Z) : sdshdr := {| len := len s; free := sint 32 f; buf := buf s |}.
Definition set_buf (s : sdshdr) (b : bytes) : sdshdr := {| len := len s; free := free s; buf := b |}.

(** [memset(p,0,n)] inside a block. *)
Definition memset0 (m : bytes) (off n : Z) : option bytes := store m off (replicate (Z.to_nat n) 0).

(** [strlen] of the string that starts at [off]: [None] without terminator. *)
Fixpoint strlen_loop (fuel : nat) (m : bytes) (p n : Z) : option Z :=
  match fuel with
  | O => None
  | S fuel => c <- load8 m p;; if c =? 0 then Some n else strlen_loop fuel m (p + 1) (n + 1)
  end.

Definition strlen (m : bytes) : option Z := strlen_loop (S (length m)) m 0 0.

(** [strchr(set,c) != NULL]: the terminator belongs to the string. *)
Definition strchr (cset : bytes) (c : Z) : bool := existsb (Z.eqb c) (cset ++ [0]).

Definition toupper (c : Z) : Z := if (97 <=? c) && (c <=? 122) then c - 32 else c.

Section Sds.
Context `{Host}.

(** * Creation *)

Definition sdsnewlen (init : option bytes) (initlen : Z) : option sdshdr :=
  let b := match init with
           | Some _ => zmalloc (initlen + 1)
           | None => replicate (Z.to_nat (initlen + 1)) 0
           end in
  b <- match init with
       | Some t => if initlen =? 0 then Some b else bs <- load t 0 initlen;; store b 0 bs
       | None => Some b
       end;;
  b <- store8 b initlen 0;;
  Some {| len := sint 32 initlen; free := 0; buf := b |}.

Definition sdsempty : option sdshdr := sdsnewlen (Some []) 0.

Definition sdsnew (init : option bytes) : option sdshdr :=
  initlen <- match init with None => Some 0 | Some t => strlen t end;;
  sdsnewlen init initlen.

Definition sdsdup (s : sdshdr) : option sdshdr := sdsnewlen (Some (buf s)) (sdslen s).

(** * Lengths and space *)

Definition sdsupdatelen (s : sdshdr) : option sdshdr :=
  reallen <- strlen (buf s);;
  let s := set_free s (free s + (len s - reallen)) in
  Some (set_len s reallen).

Definition sdsclear (s : sdshdr) : option sdshdr :=
  let s := set_free s (free s + len s) in
  let s := set_len s 0 in
  b <- store8 (buf s) 0 0;;
  Some (set_buf s b).

Definition sdsMakeRoomFor (s : sdshdr) (addlen : Z) : sdshdr :=
  if addlen <=? sdsavail s then s else
  let l := sdslen s in
  let newlen := uint 64 (l + addlen) in
  let newlen := uint 64 (if newlen <? SDS_MAX_PREALLOC then newlen * 2 else newlen + SDS_MAX_PREALLOC) in
  let s := set_buf s (zrealloc (buf s) (newlen + 1)) in
  set_free s (newlen - l).

Definition sdsRemoveFreeSpace (s : sdshdr) : sdshdr :=
  set_free (set_buf s (zrealloc (buf s) (len s + 1))) 0.

(** The header takes two [int]s. *)
Definition sdsAllocSize (s : sdshdr) : Z := 8 + len s + free s + 1.

(** A failed assertion is [None]. *)
Definition sdsIncrLen (s : sdshdr) (incr : Z) : option sdshdr :=
  if negb (incr <=? free s) then None else
  l <- int_arith (len s + incr);;
  f <- int_arith (free s - incr);;
  if negb (0 <=? f) then None else
  b <- store8 (buf s) l 0;;
  Some {| len := l; free := f; buf := b |}.

Definition sdsgrowzero (s : sdshdr) (l : Z) : option sdshdr :=
  let curlen := sdslen s in
  if l <=? curlen then Some s else
  let s := sdsMakeRoomFor s (l - curlen) in
  b <- memset0 (buf s) curlen (l - curlen + 1);;
  let totlen := len s + free s in
  let s := set_len (set_buf s b) l in
  Some (set_free s (totlen - len s)).

(** * Concatenation and copy *)

Definition sdscatlen (s : sdshdr) (t : bytes) (l : Z) : option sdshdr :=
  let curlen := sdslen s in
  let s := sdsMakeRoomFor s l in
  bs <- load t 0 l;;
  b <- store (buf s) curlen bs;;
  let s := set_len (set_buf s b) (curlen + l) in
  let s := set_free s (free s - l) in
  b <- store8 (buf s) (curlen + l) 0;;
  Some (set_buf s b).

Definition sdscat (s : sdshdr) (t : bytes) : option sdshdr := l <- strlen t;; sdscatlen s t l.

Definition sdscatsds (s t : sdshdr) : option sdshdr := sdscatlen s (buf t) (sdslen t).

Definition sdscpylen (s : sdshdr) (t : bytes) (l : Z) : option sdshdr :=
  let totlen := uint 64 (free s + len s) in
  let '(s, totlen) := if totlen <? l then
      let s := sdsMakeRoomFor s (uint 64 (l - len s)) in (s, uint 64 (free s + len s))
    else (s, totlen) in
  bs <- load t 0 l;;
  b <- store (buf s) 0 bs;;
  b <- store8 b l 0;;
  let s := set_len (set_buf s b) l in
  Some (set_free s (totlen - l)).

Definition sdscpy (s : sdshdr) (t : bytes) : option sdshdr := l <- strlen t;; sdscpylen s t l.

(** [vsnprintf(buf, buflen, ...)] when the formatted output is [out]. *)
Definition vsnprintf (b : bytes) (buflen : Z) (out : bytes) : option bytes :=
  store b 0 (take (Z.to_nat (buflen - 1)) out ++ [0]).

(** [sdscatvprintf]: a buffer that is doubled until the output fits. *)
Fixpoint catvprintf_loop (fuel : nat) (out : bytes) (buflen : Z) : option bytes :=
  match fuel with
  | O => None
  | S fuel =>
    b <- store8 (zmalloc buflen) (buflen - 2) 0;;
    b <- vsnprintf b buflen out;;
    c <- load8 b (buflen - 2);;
    if negb (c =? 0) then catvprintf_loop fuel out (buflen * 2) else Some b
  end.

Definition sdscatprintf (s : sdshdr) (out : bytes) : option sdshdr :=
  b <- catvprintf_loop (S (length out)) out 16;;
  sdscat s b.

(** * Substrings *)

(** [while(sp <= end && strchr(cset, *sp)) sp++;] *)
Fixpoint trim_left (fuel : nat) (b cset : bytes) (sp last : Z) : option Z :=
  match fuel with
  | O => None
  | S fuel =>
    if sp <=? last then
      c <- load8 b sp;;
      if strchr cset c then trim_left fuel b cset (sp + 1) last else Some sp
    else Some sp
  end.

(** [while(ep > start && strchr(cset, *ep)) ep--;] *)
Fixpoint trim_right (fuel : nat) (b cset : bytes) (ep : Z) : option Z :=
  match fuel with
  | O => None
  | S fuel =>
    if 0 <? ep then
      c <- load8 b ep;;
      if strchr cset c then trim_right fuel b cset (ep - 1) else Some ep
    else Some ep
  end.

Definition sdstrim (s : sdshdr) (cset : bytes) : option sdshdr :=
  let last := sdslen s - 1 in
  sp <- trim_left (S (length (buf s))) (buf s) cset 0 last;;
  ep <- trim_right (S (length (buf s))) (buf s) cset last;;
  let l := if ep <? sp then 0 else ep - sp + 1 in
  b <- (if sp =? 0 then Some (buf s) else memmove (buf s) 0 sp l);;
  b <- store8 b l 0;;
  let s := set_free (set_buf s b) (free s + (len s - l)) in
  Some (set_len s l).

Definition sdsrange (s : sdshdr) (start stop : Z) : option sdshdr :=
  let l := sdslen s in
  if l =? 0 then Some s else
  let start := if start <? 0 then (let v := sint 32 (uint 64 (l + start)) in if v <? 0 then 0 else v) else start in
  let stop := if stop <? 0 then (let v := sint 32 (uint 64 (l + stop)) in if v <? 0 then 0 else v) else stop in
  newlen <- (if stop <? start then Some 0 else d <- int_arith (stop - start);; int_arith (d + 1));;
  ' (start, newlen) <-
    (if negb (newlen =? 0) then
       if sint 32 l <=? start then Some (start, 0)
       else if sint 32 l <=? stop then
         let stop := sint 32 (l - 1) in
         newlen <- (if stop <? start then Some 0 else d <- int_arith (stop - start);; int_arith (d + 1));;
         Some (start, newlen)
       else Some (start, newlen)
     else Some (0, newlen));;
  b <- (if negb (start =? 0) && negb (newlen =? 0) then memmove (buf s) 0 start newlen else Some (buf s));;
  b <- store8 b newlen 0;;
  let s := set_free (set_buf s b) (free s + (len s - newlen)) in
  Some (set_len s newlen).

(** * Characters *)

(** [for (j = 0; j < len; j++) s[j] = f(s[j]);] *)
Fixpoint map_loop (n : nat) (f : Z -> Z) (b : bytes) (j : Z) : option bytes :=
  match n with
  | O => Some b
  | S n => c <- load8 b j;; b <- store8 b j (f c);; map_loop n f b (j + 1)
  end.

Definition sdstolower (s : sdshdr) : option sdshdr :=
  b <- map_loop (Z.to_nat (sdslen s)) tolower (buf s) 0;; Some (set_buf s b).

Definition sdstoupper (s : sdshdr) : option sdshdr :=
  b <- map_loop (Z.to_nat (sdslen s)) toupper (buf s) 0;; Some (set_buf s b).

(** The inner loop of [sdsmapchars]: the first character of [from] that is
    [c] gives the new one. *)
Fixpoint map_char (from to : bytes) (c : Z) : Z :=
  match from, to with
  | f :: from, t :: to => if c =? f then t else map_char from to c
  | _, _ => c
  end.

Definition sdsmapchars (s : sdshdr) (from to : bytes) (setlen : Z) : option sdshdr :=
  from <- load from 0 setlen;;
  to <- load to 0 setlen;;
  b <- map_loop (Z.to_nat (sdslen s)) (map_char from to) (buf s) 0;;
  Some (set_buf s b).

Definition sdscmp (s1 s2 : sdshdr) : option Z :=
  let l1 := sdslen s1 in
  let l2 := sdslen s2 in
  let minlen := if l1 <? l2 then l1 else l2 in
  cmp <- memcmp (buf s1) (buf s2) (Z.to_nat minlen);;
  if cmp =? 0 then Some (sint 32 (uint 64 (l1 - l2))) else Some cmp.

Definition sdsfromlonglong (value : Z) : option sdshdr :=
  v <- (if value <? 0 then ll_arith (- value) else Some value);;
  ' (b, p) <- ll2string_loop 32 (zmalloc 32) 31 v;;
  ' (b, p) <- (if value <? 0 then b <- store8 b p 45;; Some (b, p - 1) else Some (b, p));;
  let p := p + 1 in
  bs <- load b p (32 - p);;
  sdsnewlen (Some bs) (32 - p).

(** * Splitting and joining *)

(** The array of tokens: its elements and the number of slots allocated; a
    store outside of the array is [None]. *)
Definition add_token (tokens : list sdshdr) (slots : Z) (t : sdshdr) : option (list sdshdr) :=
  if msize tokens <? slots then Some (tokens ++ [t]) else None.

(** A part of the string. *)
Definition sub_sds (s : bytes) (from n : Z) : option sdshdr :=
  bs <- load s from n;; sdsnewlen (Some bs) n.

Definition is_sep (s : bytes) (j : Z) (sep : bytes) (seplen : Z) : option bool :=
  c <- load8 s j;;
  c' <- load8 sep 0;;
  if (seplen =? 1) && (c =? c') then Some true else
  r <- load s j seplen;;
  r' <- load sep 0 seplen;;
  d <- memcmp r r' (Z.to_nat seplen);;
  Some (d =? 0).

Fixpoint split_loop (fuel : nat) (s : bytes) (l : Z) (sep : bytes) (seplen : Z)
    (tokens : list sdshdr) (slots start j : Z) : option (list sdshdr * Z * Z) :=
  match fuel with
  | O => None
  | S fuel =>
    if j <? l - (seplen - 1) then
      let slots := if slots <? msize tokens + 2 then slots * 2 else slots in
      b <- is_sep s j sep seplen;;
      if (b : bool) then
        t <- sub_sds s start (j - start);;
        tokens <- add_token tokens slots t;;
        split_loop fuel s l sep seplen tokens slots (j + seplen) (j + seplen - 1 + 1)
      else split_loop fuel s l sep seplen tokens slots start (j + 1)
    else Some (tokens, slots, start)
  end.

(** [Some None] is the [NULL] result. *)
Definition sdssplitlen (s : bytes) (l : Z) (sep : bytes) (seplen : Z) : option (option (list sdshdr)) :=
  if (seplen <? 1) || (l <? 0) then Some None else
  if l =? 0 then Some (Some []) else
  ' (tokens, slots, start) <- split_loop (S (Z.to_nat l)) s l sep seplen [] 5 0 0;;
  t <- sub_sds s start (l - start);;
  tokens <- add_token tokens slots t;;
  Some (Some tokens).

(** [sdsjoin]: the strings are null terminated. *)
Fixpoint join_loop (join : sdshdr) (argv : list bytes) (sep : bytes) : option sdshdr :=
  match argv with
  | [] => Some join
  | a :: argv' =>
    join <- sdscat join a;;
    join <- match argv' with [] => Some join | _ => sdscat join sep end;;
    join_loop join argv' sep
  end.

Definition sdsjoin (argv : list bytes) (sep : bytes) : option sdshdr :=
  join <- sdsempty;; join_loop join argv sep.

End Sds.
