(* ===== verification/SdsRep.v ===== *)
(** Dynamic strings against byte sequences: what a string represents, and
    every operation on the represented sequences. *)

From S2P Require Import Prelude.
From S2P Require Import Util.
From S2P Require Import Robj.
From S2P Require Import Sds.

(** [s] holds the bytes [bs]: they are followed by a terminator and the free
    space, and the two lengths are right. *)
Definition sds_rep (s : sdshdr) (bs : bytes) : Prop :=
  exists rest, buf s = bs ++ 0 :: rest /\ len s = msize bs /\ free s = msize rest /\
    msize bs + msize rest < 2 ^ 31 - 1.

Section Rep.
Context `{Host}.

Lemma sds_lengths s bs rest : buf s = bs ++ 0 :: rest -> len s = msize bs -> free s = msize rest ->
  msize bs + msize rest < 2 ^ 31 - 1 -> sdslen s = msize bs /\ sdsavail s = msize rest.
Proof. intros _ El Ef Hb. unfold sdslen, sdsavail. rewrite El, Ef, !uint_id by msolve. done. Qed.

Lemma sint32_id v : 0 <= v < 2 ^ 31 -> sint 32 v = v.
Proof. intros. apply sint_id; [unfold in_sint; lia|lia]. Qed.

(** Writing the lengths of a string that has been rebuilt. *)
Lemma rep_intro l f bs rest : l = msize bs -> f = msize rest -> msize bs + msize rest < 2 ^ 31 - 1 ->
  sds_rep {| len := sint 32 l; free := sint 32 f; buf := bs ++ 0 :: rest |} bs.
Proof. intros -> -> Hb. exists rest. cbn [len free buf]. rewrite !sint32_id by msolve. done. Qed.

(** * Creation *)

Lemma sdsnewlen_rep (bs t : bytes) : msize bs < 2 ^ 31 - 1 ->
  exists s, sdsnewlen (Some (bs ++ t)) (msize bs) = Some s /\ sds_rep s bs /\ free s = 0.
Proof.
  intros Hb. unfold sdsnewlen. pose proof (msize_nonneg bs) as Hn.
  destruct (split_at (zmalloc (msize bs + 1)) (msize bs)) as (z1 & z2 & Ez & Hz1).
  { unfold zmalloc. rewrite msize_fresh; lia. }
  assert (Hz2 : msize z2 = 1).
  { apply (f_equal msize) in Ez. unfold zmalloc in Ez. rewrite msize_fresh, msize_app in Ez by lia. lia. }
  destruct z2 as [|b z2]; [done|]. rewrite msize_cons in Hz2. assert (z2 = []) as -> by (apply msize_0_nil; lia).
  rewrite Ez. assert (Hst : (if msize bs =? 0 then Some (z1 ++ [b]) else
    bs0 <- load (bs ++ t) 0 (msize bs);; store (z1 ++ [b]) 0 bs0) = Some (bs ++ [b])).
  { destruct (Z.eqb_spec (msize bs) 0) as [E|].
    - apply msize_0_nil in E as ->. rewrite msize_nil in Hz1. apply msize_0_nil in Hz1 as ->. done.
    - rewrite (load_at [] bs t) by done. cbn [obind]. by rewrite (store_at [] z1 [b]). }
  rewrite Hst. cbn [obind]. rewrite (store8_at bs b []) by done. cbn [obind]. eexists. split; [done|].
  split; [|done]. exists []. cbn [len free buf]. rewrite sint32_id by lia. rewrite msize_nil. split; [done|lia].
Qed.

Lemma sdsempty_rep : exists s, sdsempty = Some s /\ sds_rep s [] /\ free s = 0.
Proof. apply (sdsnewlen_rep [] []). rewrite msize_nil. lia. Qed.

Lemma strlen_loop_spec fuel a bs t n : Forall (fun c => c <> 0) bs -> (length bs < fuel)%nat ->
  strlen_loop fuel (a ++ bs ++ 0 :: t) (msize a) n = Some (n + msize bs).
Proof.
  revert a bs n. induction fuel as [|fuel IH]; intros a bs n Hbs Hf; [lia|]. cbn [strlen_loop].
  destruct bs as [|c bs].
  - rewrite (load8_at a 0 t) by done. cbn [obind]. bdecide. rewrite msize_nil, Z.add_0_r. done.
  - rewrite (load8_at a c (bs ++ 0 :: t)) by done. cbn [obind]. apply list.Forall_cons_1 in Hbs as [Hc Hbs]. bdecide.
    specialize (IH (a ++ [c]) bs (n + 1) Hbs). rewrite msize_app, msize_cons, msize_nil, <- app_assoc in IH.
    cbn [app] in IH. rewrite Z.add_0_r in IH. rewrite msize_cons. cbn [app].
    rewrite IH by (cbn in Hf; lia). f_equal. lia.
Qed.

(** A C string: no zero before its terminator. *)
Definition cstring (bs : bytes) : Prop := Forall (fun c => c <> 0) bs.

Lemma strlen_spec bs t : cstring bs -> strlen (bs ++ 0 :: t) = Some (msize bs).
Proof.
  intros Hbs. unfold strlen. pose proof (strlen_loop_spec (S (length (bs ++ 0 :: t))) [] bs t 0 Hbs) as E.
  rewrite msize_nil in E. apply E. rewrite length_app. lia.
Qed.

(** The string up to the first zero. *)
Fixpoint until0 (bs : bytes) : bytes :=
  match bs with [] => [] | c :: bs => if c =? 0 then [] else c :: until0 bs end.

Lemma until0_split bs t : exists u, bs ++ 0 :: t = until0 bs ++ 0 :: u /\ cstring (until0 bs) /\
  msize u = msize bs + msize t - msize (until0 bs).
Proof.
  induction bs as [|c bs (u & E & Hc & Hs)]; cbn [until0 app].
  - exists t. rewrite msize_nil. split; [done|]. split; [constructor|lia].
  - destruct (Z.eqb_spec c 0) as [->|Hne].
    + exists (bs ++ 0 :: t). split; [done|]. split; [constructor|]. rewrite msize_app, !msize_cons, msize_nil. lia.
    + exists u. cbn [app]. rewrite E. split; [done|]. split; [by constructor|]. rewrite !msize_cons. lia.
Qed.

Lemma until0_cstring bs : cstring bs -> until0 bs = bs.
Proof. induction 1 as [|c bs Hc _ IH]; cbn [until0]; [done|]. bdecide. by rewrite IH. Qed.

(** * Space *)

Lemma sdsMakeRoomFor_rep s bs addlen : sds_rep s bs -> 0 <= addlen -> msize bs + addlen < 2 ^ 30 ->
  sds_rep (sdsMakeRoomFor s addlen) bs /\ addlen <= free (sdsMakeRoomFor s addlen).
Proof.
  intros (rest & Eb & El & Ef & Hb) Ha Hl. destruct (sds_lengths s bs rest Eb El Ef Hb) as [Elen Eav].
  unfold sdsMakeRoomFor. rewrite Elen, Eav. destruct (Z.leb_spec addlen (msize rest)) as [|Hlt].
  { split; [by exists rest|lia]. }
  pose proof (msize_nonneg bs). pose proof (msize_nonneg rest).
  rewrite (uint_id 64 (msize bs + addlen)) by lia. unfold SDS_MAX_PREALLOC.
  set (n := if msize bs + addlen <? 1024 * 1024 then (msize bs + addlen) * 2 else msize bs + addlen + 1024 * 1024).
  assert (Hn : msize bs + addlen <= n < 2 ^ 31 - 1) by (unfold n; bcase; lia).
  rewrite (uint_id 64 n) by lia. unfold set_free, set_buf. cbn [len free buf].
  rewrite zrealloc_grow by (rewrite Eb; msolve). rewrite Eb, <- app_assoc. cbn [app].
  set (g := fresh _ _). assert (Hg : msize g = n - msize bs - msize rest).
  { unfold g. rewrite msize_fresh by (rewrite msize_app, msize_cons; lia). rewrite msize_app, msize_cons. lia. }
  rewrite El, sint32_id by lia. split; [|lia]. exists (rest ++ g). cbn [len free buf]. rewrite msize_app. split; [done|]. lia.
Qed.

Lemma sdsRemoveFreeSpace_rep s bs : sds_rep s bs -> sds_rep (sdsRemoveFreeSpace s) bs /\ free (sdsRemoveFreeSpace s) = 0.
Proof.
  intros (rest & Eb & El & Ef & Hb). unfold sdsRemoveFreeSpace, set_free, set_buf. cbn [len free buf].
  split; [|done]. exists []. cbn [len free buf]. pose proof (msize_nonneg rest). rewrite Eb, El.
  replace (bs ++ 0 :: rest) with ((bs ++ [0]) ++ rest) by (by rewrite <- app_assoc).
  rewrite zrealloc_shrink by (by rewrite msize_app, msize_cons, msize_nil). rewrite msize_nil. repeat split; lia.
Qed.

Lemma sdsAllocSize_rep s bs : sds_rep s bs -> sdsAllocSize s = 8 + msize (buf s).
Proof. intros (rest & Eb & El & Ef & Hb). unfold sdsAllocSize. rewrite El, Ef, Eb. rewrite msize_app, msize_cons. lia. Qed.

Lemma sdsclear_rep s bs : sds_rep s bs -> exists s', sdsclear s = Some s' /\ sds_rep s' [].
Proof.
  intros (rest & Eb & El & Ef & Hb). unfold sdsclear, set_free, set_len, set_buf. cbn [len free buf]. rewrite Eb.
  destruct bs as [|c bs]; cbn [app].
  - rewrite (store8_at [] 0 rest) by done. cbn [obind]. eexists. split; [done|].
    apply (rep_intro 0 _ [] rest); [done|rewrite msize_nil in *; lia|done].
  - rewrite (store8_at [] c (bs ++ 0 :: rest)) by done. cbn [obind]. eexists. split; [done|].
    rewrite msize_cons in *. apply (rep_intro 0 _ [] (bs ++ 0 :: rest)); [done| |]; rewrite ?msize_nil, msize_app, msize_cons; lia.
Qed.

Lemma sdsupdatelen_rep s bs : sds_rep s bs -> exists s', sdsupdatelen s = Some s' /\ sds_rep s' (until0 bs).
Proof.
  intros (rest & Eb & El & Ef & Hb). destruct (until0_split bs rest) as (u & Eu & Hc & Hu).
  unfold sdsupdatelen. rewrite Eb, Eu, strlen_spec by done. cbn [obind]. eexists. split; [done|].
  unfold set_free, set_len. cbn [len free buf]. rewrite Eb, Eu.
  assert (msize u >= 0) by (pose proof (msize_nonneg u); lia).
  apply rep_intro; [done|lia|lia].
Qed.

(** * Concatenation and copy *)

(** A string with room for [n] more bytes. *)
Lemma rep_room s bs n : sds_rep s bs -> 0 <= n <= free s ->
  exists old c rest, buf s = bs ++ old ++ c :: rest /\ msize old = n /\ len s = msize bs /\
    free s = n + msize rest /\ msize bs + n + msize rest < 2 ^ 31 - 1.
Proof.
  intros (rest & Eb & El & Ef & Hb) Hn.
  destruct (split_at (0 :: rest) n) as (old & r & E & Ho); [msolve|].
  destruct r as [|c r]; [exfalso; apply (f_equal msize) in E; rewrite msize_app, msize_cons, msize_nil in E; lia|].
  exists old, c, r. apply (f_equal msize) in E as Es. rewrite msize_app, !msize_cons in Es.
  rewrite Eb, E. split; [done|]. lia.
Qed.

Lemma sdscatlen_rep s bs t u : sds_rep s bs -> msize bs + msize t < 2 ^ 30 ->
  exists s', sdscatlen s (t ++ u) (msize t) = Some s' /\ sds_rep s' (bs ++ t).
Proof.
  intros Hr Hb. unfold sdscatlen.
  assert (Elen : sdslen s = msize bs) by (destruct Hr as (rest & ? & ? & ? & ?); by destruct (sds_lengths s bs rest)).
  destruct (sdsMakeRoomFor_rep s bs (msize t) Hr) as [Hr' Hf]; [msolve|done|].
  destruct (rep_room _ bs (msize t) Hr') as (old & c & rest & Eb & Ho & El & Ef & Hb'); [msolve|].
  rewrite (load_at [] t u) by done. cbn [obind]. rewrite Eb, Elen.
  rewrite (store_at bs old (c :: rest)) by done. cbn [obind]. unfold set_len, set_free, set_buf. cbn [len free buf].
  rewrite (store8_at (bs ++ t) c rest) by (rewrite <- ?app_assoc, ?msize_app; done). cbn [obind]. eexists. split; [done|].
  apply rep_intro; rewrite ?msize_app; [done|lia|lia].
Qed.

Lemma sdscat_rep s bs t u : sds_rep s bs -> cstring t -> msize bs + msize t < 2 ^ 30 ->
  exists s', sdscat s (t ++ 0 :: u) = Some s' /\ sds_rep s' (bs ++ t).
Proof. intros Hr Ht Hb. unfold sdscat. rewrite strlen_spec by done. by apply sdscatlen_rep. Qed.

Lemma sdscatsds_rep s bs t ts : sds_rep s bs -> sds_rep t ts -> msize bs + msize ts < 2 ^ 30 ->
  exists s', sdscatsds s t = Some s' /\ sds_rep s' (bs ++ ts).
Proof.
  intros Hr (rest & Eb & El & Ef & Ht) Hb. unfold sdscatsds. destruct (sds_lengths t ts rest Eb El Ef Ht) as [-> _].
  rewrite Eb. by apply sdscatlen_rep.
Qed.

Lemma sdscpylen_rep s bs t u : sds_rep s bs -> msize t < 2 ^ 30 ->
  exists s', sdscpylen s (t ++ u) (msize t) = Some s' /\ sds_rep s' t.
Proof.
  intros Hr Hb. unfold sdscpylen.
  assert (Hroom : exists s1, (if uint 64 (free s + len s) <? msize t
      then (sdsMakeRoomFor s (uint 64 (msize t - len s)),
            uint 64 (free (sdsMakeRoomFor s (uint 64 (msize t - len s))) + len (sdsMakeRoomFor s (uint 64 (msize t - len s)))))
      else (s, uint 64 (free s + len s))) = (s1, msize (buf s1) - 1) /\
      msize t + 1 <= msize (buf s1) < 2 ^ 31).
  { destruct Hr as (rest & Eb & El & Ef & Ht). pose proof (msize_nonneg bs). pose proof (msize_nonneg rest).
    rewrite El, Ef, !(uint_id 64 (msize rest + msize bs)) by lia. destruct (Z.ltb_spec (msize rest + msize bs) (msize t)).
    - rewrite (uint_id 64 (msize t - msize bs)) by lia.
      destruct (sdsMakeRoomFor_rep s bs (msize t - msize bs)) as [(rest' & Eb' & El' & Ef' & Ht') Hf]; [by exists rest|lia|lia|].
      eexists. rewrite El', Ef', Eb', msize_app, msize_cons, uint_id by msolve. split; [f_equal; lia|lia].
    - exists s. rewrite Eb, msize_app, msize_cons. split; [f_equal; lia|lia]. }
  destruct Hroom as (s1 & -> & Hs1). rewrite (load_at [] t u) by done. cbn [obind].
  destruct (split_at (buf s1) (msize t)) as (old & r & E & Ho); [msolve|].
  destruct r as [|c r]; [exfalso; apply (f_equal msize) in E; rewrite msize_app, msize_nil in E; lia|].
  apply (f_equal msize) in E as Es. rewrite msize_app, msize_cons in Es.
  rewrite E, (store_at [] old (c :: r)) by done. cbn [obind app].
  rewrite (store8_at t c r) by done. cbn [obind]. unfold set_len, set_free, set_buf. cbn [len free buf].
  eexists. split; [done|]. apply rep_intro; [done|rewrite msize_app, msize_cons; lia|lia].
Qed.

Lemma sdsgrowzero_rep s bs n : sds_rep s bs -> 0 <= n < 2 ^ 30 ->
  exists s', sdsgrowzero s n = Some s' /\ sds_rep s' (bs ++ replicate (Z.to_nat (n - msize bs)) 0).
Proof.
  intros Hr Hn. unfold sdsgrowzero.
  assert (Elen : sdslen s = msize bs) by (destruct Hr as (rest & ? & ? & ? & ?); by destruct (sds_lengths s bs rest)).
  rewrite Elen. destruct (Z.leb_spec n (msize bs)).
  { exists s. split; [done|]. rewrite Z2Nat.nonpos by lia. cbn. by rewrite app_nil_r. }
  destruct (sdsMakeRoomFor_rep s bs (n - msize bs) Hr) as [Hr' Hf]; [lia|lia|].
  destruct (rep_room _ bs (n - msize bs) Hr') as (old & c & rest & Eb & Ho & El & Ef & Hb'); [lia|].
  set (zs := replicate (Z.to_nat (n - msize bs)) 0).
  assert (Hz : msize zs = n - msize bs) by (unfold zs; unfold msize at 1; rewrite length_replicate; lia).
  assert (Em : memset0 (buf (sdsMakeRoomFor s (n - msize bs))) (msize bs) (n - msize bs + 1) = Some ((bs ++ zs) ++ 0 :: rest)).
  { unfold memset0. replace (replicate _ 0) with (zs ++ [0]).
    2: { unfold zs. replace (Z.to_nat (n - msize bs + 1)) with (S (Z.to_nat (n - msize bs))) by lia.
         by rewrite replicate_S_end. }
    rewrite Eb, (store_at bs (old ++ [c]) rest); [by rewrite <- !app_assoc|by rewrite <- !app_assoc|done|].
    rewrite !msize_app, !msize_cons, msize_nil. lia. }
  rewrite Em. cbn [obind]. eexists. split; [done|]. unfold set_len, set_free, set_buf. cbn [len free buf].
  exists rest. cbn [len free buf]. pose proof (msize_nonneg rest). rewrite (sint32_id n), sint32_id by lia. rewrite msize_app. repeat split; lia.
Qed.

(** The protocol of the comment of [sdsIncrLen]: make room, write behind the
    end, adjust the length. *)
Definition sds_read (s : sdshdr) (room : Z) (data : bytes) : option sdshdr :=
  let oldlen := sdslen s in
  let s := sdsMakeRoomFor s room in
  b <- store (buf s) oldlen data;;
  sdsIncrLen (set_buf s b) (msize data).

Lemma sdsIncrLen_rep s bs t c rest : buf s = bs ++ t ++ c :: rest -> len s = msize bs ->
  free s = msize t + msize rest -> msize bs + msize t + msize rest < 2 ^ 31 - 1 ->
  exists s', sdsIncrLen s (msize t) = Some s' /\ sds_rep s' (bs ++ t).
Proof.
  intros Eb El Ef Hb. unfold sdsIncrLen. rewrite El, Ef. pose proof (msize_nonneg bs).
  pose proof (msize_nonneg t). pose proof (msize_nonneg rest). bdecide.
  rewrite !int_arith_Some by lia. cbn [obind]. bdecide.
  rewrite Eb, (store8_at (bs ++ t) c rest) by (rewrite <- ?app_assoc, ?msize_app; done). cbn [obind].
  eexists. split; [done|]. exists rest. cbn [len free buf]. rewrite msize_app. repeat split; lia.
Qed.

Lemma sds_read_rep s bs room t : sds_rep s bs -> msize t <= room -> msize bs + room < 2 ^ 30 ->
  exists s', sds_read s room t = Some s' /\ sds_rep s' (bs ++ t).
Proof.
  intros Hr Ht Hb. unfold sds_read.
  assert (Elen : sdslen s = msize bs) by (destruct Hr as (rest & ? & ? & ? & ?); by destruct (sds_lengths s bs rest)).
  destruct (sdsMakeRoomFor_rep s bs room Hr) as [Hr' Hf]; [msolve|done|].
  destruct (rep_room _ bs (msize t) Hr') as (old & c & rest & Eb & Ho & El & Ef & Hb'); [msolve|].
  rewrite Eb, Elen, (store_at bs old (c :: rest)) by done. cbn [obind].
  apply (sdsIncrLen_rep _ bs t c rest); unfold set_buf; cbn [len free buf]; done.
Qed.

(** * Substrings *)

(** The common end of [sdstrim] and [sdsrange]: terminate the string after
    its new contents and move the difference to the free space. *)
Lemma finish_rep s bs M r : sds_rep s bs -> msize M <= msize bs -> msize (M ++ r) = msize (buf s) ->
  exists s', (b <- store8 (M ++ r) (msize M) 0;;
              Some (set_len (set_free (set_buf s b) (free s + (len s - msize M))) (msize M))) = Some s' /\ sds_rep s' M.
Proof.
  intros (rest & Eb & El & Ef & Hb) Hle Hsz. rewrite Eb, !msize_app, msize_cons in Hsz.
  destruct r as [|c r]; [rewrite msize_nil in Hsz; msolve|]. rewrite msize_cons in Hsz.
  rewrite (store8_at M c r) by done. cbn [obind]. eexists. split; [done|].
  unfold set_len, set_free, set_buf. cbn [len free buf]. pose proof (msize_nonneg M). apply rep_intro; [done|lia|lia].
Qed.

(** [memmove] of an inner part to the front. *)
Lemma memmove_front (A M D : bytes) : exists r, memmove (A ++ M ++ D) 0 (msize A) (msize M) = Some (M ++ r) /\
  msize (M ++ r) = msize (A ++ M ++ D).
Proof.
  unfold memmove. rewrite (load_at A M D) by done. cbn [obind].
  destruct (split_at (A ++ M ++ D) (msize M)) as (o & r & E & Ho); [msolve|].
  rewrite E, (store_at [] o r) by done. exists r. split; [done|]. rewrite !msize_app. lia.
Qed.

(** Dropping the elements in front that satisfy a predicate, and those at both
    ends. *)
Fixpoint dropw (p : Z -> bool) (bs : bytes) : bytes :=
  match bs with [] => [] | c :: bs' => if p c then dropw p bs' else bs end.

Definition trim (p : Z -> bool) (bs : bytes) : bytes := reverse (dropw p (reverse (dropw p bs))).

Lemma dropw_app (p : Z -> bool) L x T : Forall (fun c => p c = true) L -> p x = false -> dropw p (L ++ x :: T) = x :: T.
Proof. intros HL Hx. induction HL as [|c L Hc _ IH]; cbn [app dropw]; [by rewrite Hx|by rewrite Hc]. Qed.

Lemma dropw_all (p : Z -> bool) L : Forall (fun c => p c = true) L -> dropw p L = [].
Proof. induction 1 as [|c L Hc _ IH]; cbn [dropw]; [done|by rewrite Hc]. Qed.

Lemma dropw_split (p : Z -> bool) bs : Forall (fun c => p c = true) bs \/
  exists L x T, bs = L ++ x :: T /\ Forall (fun c => p c = true) L /\ p x = false.
Proof.
  induction bs as [|c bs IH]; [left; constructor|]. destruct (p c) eqn:Ec.
  - destruct IH as [IH|(L & x & T & -> & HL & Hx)]; [left; by constructor|right].
    exists (c :: L), x, T. split; [done|]. split; [by constructor|done].
  - right. exists [], c, bs. done.
Qed.

(** A string is all trimmed away, or it is what remains between the trimmed
    ends, which starts and ends with characters that stay. *)
Lemma trim_split (p : Z -> bool) bs :
  (Forall (fun c => p c = true) bs /\ trim p bs = []) \/
  exists L M R y M' x, bs = L ++ M ++ R /\ Forall (fun c => p c = true) L /\ Forall (fun c => p c = true) R /\
    trim p bs = M /\ M = M' ++ [y] /\ p y = false /\ (exists M'', M = x :: M'') /\ p x = false.
Proof.
  destruct (dropw_split p bs) as [Hall|(L & x & T & -> & HL & Hx)].
  { left. split; [done|]. unfold trim. by rewrite (dropw_all p bs). }
  right. destruct (dropw_split p (reverse (x :: T))) as [Hall|(R & y & M' & E & HR & Hy)].
  { exfalso. rewrite list.Forall_forall in Hall. rewrite (Hall x) in Hx; [done|].
    apply elem_of_reverse. left. }
  assert (ET : x :: T = (reverse M' ++ [y]) ++ reverse R).
  { rewrite <- (reverse_involutive (x :: T)), E, reverse_app, reverse_cons. done. }
  exists L, (reverse M' ++ [y]), (reverse R), y, (reverse M'), x. rewrite <- ET. split; [done|]. split; [done|].
  split; [by apply Forall_reverse|]. split; [|split; [done|split; [done|split; [|done]]]].
  - unfold trim. rewrite dropw_app by done. rewrite E, dropw_app by done. by rewrite reverse_cons.
  - destruct (reverse M') as [|z M3]; injection ET as -> _; eauto.
Qed.

Lemma trim_left_stop fuel A L x T cset last : Forall (fun c => strchr cset c = true) L -> strchr cset x = false ->
  msize A + msize L <= last -> (length L < fuel)%nat ->
  trim_left fuel (A ++ L ++ x :: T) cset (msize A) last = Some (msize A + msize L).
Proof.
  intros HL Hx. revert A fuel. induction HL as [|c L Hc _ IH]; intros A [|fuel] Hl Hf; cbn in Hf; try lia; cbn [trim_left].
  - rewrite msize_nil in *. bdecide. cbn [app]. rewrite (load8_at A x T) by done. cbn [obind]. rewrite Hx. f_equal. lia.
  - rewrite msize_cons in *. pose proof (msize_nonneg L). bdecide. cbn [app].
    rewrite (load8_at A c (L ++ x :: T)) by done. cbn [obind]. rewrite Hc.
    specialize (IH (A ++ [c]) fuel). rewrite msize_app, msize_cons, msize_nil, <- app_assoc in IH. cbn [app] in IH.
    rewrite Z.add_0_r in IH. rewrite IH by lia. f_equal. lia.
Qed.

Lemma trim_left_all fuel A L T cset last : Forall (fun c => strchr cset c = true) L ->
  last = msize A + msize L - 1 -> (length L < fuel)%nat ->
  trim_left fuel (A ++ L ++ T) cset (msize A) last = Some (msize A + msize L).
Proof.
  intros HL. revert A fuel. induction HL as [|c L Hc _ IH]; intros A [|fuel] Hl Hf; cbn in Hf; try lia; cbn [trim_left].
  - rewrite msize_nil in *. bdecide. f_equal. lia.
  - rewrite msize_cons in *. pose proof (msize_nonneg L). bdecide. cbn [app].
    rewrite (load8_at A c (L ++ T)) by done. cbn [obind]. rewrite Hc.
    specialize (IH (A ++ [c]) fuel). rewrite msize_app, msize_cons, msize_nil, <- app_assoc in IH. cbn [app] in IH.
    rewrite Z.add_0_r in IH. rewrite IH by lia. f_equal. lia.
Qed.

Lemma trim_right_stop fuel A x R T cset : Forall (fun c => strchr cset c = true) R -> strchr cset x = false ->
  (length R < fuel)%nat -> trim_right fuel (A ++ x :: R ++ T) cset (msize A + msize R) = Some (msize A).
Proof.
  revert T fuel. induction R as [|c R IH] using rev_ind; intros T [|fuel] HR Hx Hf; try lia; cbn [trim_right].
  - rewrite msize_nil, Z.add_0_r. destruct (Z.ltb_spec 0 (msize A)); [|done].
    rewrite (load8_at A x ([] ++ T)) by done. cbn [obind]. by rewrite Hx.
  - rewrite length_app in Hf. cbn in Hf. apply Forall_app in HR as [HR Hc]. apply list.Forall_cons_1 in Hc as [Hc _].
    rewrite msize_app, msize_cons, msize_nil. pose proof (msize_nonneg A). pose proof (msize_nonneg R). bdecide.
    rewrite (load8_at (A ++ x :: R) c T).
    2: { by rewrite <- !app_assoc. }
    2: { rewrite msize_app, msize_cons. lia. }
    cbn [obind]. rewrite Hc, <- app_assoc. replace (_ - 1) with (msize A + msize R) by lia. apply IH; [done|done|lia].
Qed.

Lemma trim_right_all fuel R T cset : Forall (fun c => strchr cset c = true) R -> R <> [] ->
  (length R < fuel)%nat -> trim_right fuel (R ++ T) cset (msize R - 1) = Some 0.
Proof.
  revert T fuel. induction R as [|c R IH] using rev_ind; intros T [|fuel] HR Hne Hf; try lia; try done; cbn [trim_right].
  rewrite length_app in Hf. cbn in Hf. apply Forall_app in HR as [HR Hc]. apply list.Forall_cons_1 in Hc as [Hc _].
  rewrite msize_app, msize_cons, msize_nil. pose proof (msize_nonneg R).
  replace (msize R + _ - 1) with (msize R) by lia.
  destruct (decide (R = [])) as [->|Hne']; [done|].
  assert (msize R <> 0) by (intros E; by apply msize_0_nil in E). bdecide.
  rewrite (load8_at R c T) by (by rewrite <- ?app_assoc). cbn [obind]. rewrite Hc, <- app_assoc. apply IH; [done|done|lia].
Qed.

Lemma sdstrim_rep s bs cset : sds_rep s bs ->
  exists s', sdstrim s cset = Some s' /\ sds_rep s' (trim (strchr cset) bs).
Proof.
  intros Hr. pose proof Hr as (rest & Eb & El & Ef & Hb). destruct (sds_lengths s bs rest Eb El Ef Hb) as [Elen _].
  unfold sdstrim. rewrite Elen.
  assert (Hlb : (length (buf s) = length bs + S (length rest))%nat) by (by rewrite Eb, length_app).
  destruct (trim_split (strchr cset) bs) as [[Hall ->]|(L & M & R & y & M' & x & Ebs & HL & HR & -> & EM & Hy & (M'' & Ex) & Hx)].
  - pose proof (trim_left_all (S (length (buf s))) [] bs (0 :: rest) cset (msize bs - 1) Hall) as E1.
    rewrite msize_nil in E1. cbn [app] in E1. rewrite Eb in *. rewrite E1 by lia. cbn [obind].
    destruct (decide (bs = [])) as [->|Hne].
    + rewrite msize_nil. cbn [app]. change (trim_right _ _ _ (0 - 1)) with (Some (-1)). cbn [obind].
      change (-1 <? 0 + 0) with true. change (0 + 0 =? 0) with true. cbn [obind].
      apply (finish_rep s [] [] (0 :: rest) Hr); [done|by rewrite Eb].
    + rewrite trim_right_all by (done || lia). cbn [obind].
      assert (0 < msize bs) by (destruct bs; [done|rewrite msize_cons; pose proof (msize_nonneg bs); lia]). bdecide.
      destruct (memmove_front bs [] (0 :: rest)) as (r & Em & Hm). rewrite msize_nil in Em. cbn [app] in Em, Hm.
      rewrite Z.add_0_l, Em. cbn [obind].
      apply (finish_rep s bs [] r Hr); [rewrite msize_nil; lia|by rewrite Eb].
  - assert (Hbuf1 : buf s = [] ++ L ++ x :: M'' ++ R ++ 0 :: rest).
    { rewrite Eb, Ebs, Ex, <- !app_assoc. done. }
    assert (Hsz : msize bs = msize L + msize M + msize R) by (rewrite Ebs, !msize_app; lia).
    assert (HM : msize M = msize M' + 1) by (rewrite EM, msize_app, msize_cons, msize_nil; lia).
    pose proof (msize_nonneg L). pose proof (msize_nonneg M'). pose proof (msize_nonneg R).
    pose proof (trim_left_stop (S (length (buf s))) [] L x (M'' ++ R ++ 0 :: rest) cset (msize bs - 1) HL Hx) as E1.
    rewrite <- Hbuf1, msize_nil in E1. rewrite E1; [cbn [obind]|lia|].
    2: { rewrite Hbuf1, !length_app. cbn. lia. }
    pose proof (trim_right_stop (S (length (buf s))) (L ++ M') y R (0 :: rest) cset HR Hy) as E2.
    assert (Hbuf2 : buf s = (L ++ M') ++ y :: R ++ 0 :: rest).
    { rewrite Eb, Ebs, EM, <- !app_assoc. done. }
    rewrite <- Hbuf2, msize_app in E2. replace (msize bs - 1) with (msize L + msize M' + msize R) by lia.
    rewrite E2 by (rewrite Hbuf2, !length_app; cbn; rewrite length_app; lia). cbn [obind].
    rewrite Z.add_0_l. bdecide. replace (msize L + msize M' - msize L + 1) with (msize M) by lia.
    assert (Hbuf3 : buf s = L ++ M ++ R ++ 0 :: rest) by (rewrite Eb, Ebs, <- !app_assoc; done).
    destruct (Z.eqb_spec (msize L) 0) as [E|].
    + apply msize_0_nil in E as ->. cbn [obind]. rewrite Hbuf3. cbn [app].
      apply (finish_rep s bs M (R ++ 0 :: rest) Hr); [rewrite msize_nil in *; lia|by rewrite Hbuf3].
    + destruct (memmove_front L M (R ++ 0 :: rest)) as (r & Em & Hm). rewrite Hbuf3, Em. cbn [obind].
      apply (finish_rep s bs M r Hr); [lia|by rewrite Hm, Hbuf3].
Qed.

(** The bytes from [start] to [stop], both included, counted from the end if
    negative. *)
Definition abs_index (l i : Z) : Z := if i <? 0 then Z.max 0 (l + i) else i.

Definition range_of (bs : bytes) (start stop : Z) : bytes :=
  let l := msize bs in
  drop (Z.to_nat (abs_index l start)) (take (Z.to_nat (abs_index l stop + 1)) bs).

Lemma range_split (bs : bytes) a n : 0 <= a -> 0 <= n -> a + n <= msize bs ->
  exists L M R, bs = L ++ M ++ R /\ msize L = a /\ msize M = n /\
    M = drop (Z.to_nat a) (take (Z.to_nat (a + n)) bs).
Proof.
  intros Ha Hn Hb. exists (take (Z.to_nat a) bs), (drop (Z.to_nat a) (take (Z.to_nat (a + n)) bs)), (drop (Z.to_nat (a + n)) bs).
  unfold msize in *. rewrite !length_take, length_drop, length_take. split; [|split; [lia|split; [lia|done]]].
  pose proof (take_drop (Z.to_nat a) (take (Z.to_nat (a + n)) bs)) as E. rewrite take_take, Nat.min_l in E by lia.
  by rewrite app_assoc, E, take_drop.
Qed.

Lemma sdsrange_rep s bs start stop : sds_rep s bs -> - 2 ^ 31 <= start < 2 ^ 31 -> - 2 ^ 31 <= stop < 2 ^ 31 - 1 ->
  exists s', sdsrange s start stop = Some s' /\ sds_rep s' (range_of bs start stop).
Proof.
  intros Hr Hst Hsp. pose proof Hr as (rest & Eb & El & Ef & Hb). destruct (sds_lengths s bs rest Eb El Ef Hb) as [Elen _].
  unfold sdsrange. rewrite Elen. pose proof (msize_nonneg bs). pose proof (msize_nonneg rest).
  destruct (Z.eqb_spec (msize bs) 0) as [E|Hne].
  { apply msize_0_nil in E as ->. exists s. split; [done|]. unfold range_of. rewrite take_nil, drop_nil. done. }
  assert (Habs : forall i, - 2 ^ 31 <= i < 2 ^ 31 ->
    (if i <? 0 then (let v := sint 32 (uint 64 (msize bs + i)) in if v <? 0 then 0 else v) else i) = abs_index (msize bs) i).
  { intros i Hi. unfold abs_index. destruct (Z.ltb_spec i 0); [|done]. cbv zeta.
    rewrite sint32_uint64 by (unfold in_sint; lia). bcase; lia. }
  rewrite !Habs by lia. unfold range_of. set (a := abs_index (msize bs) start). set (e := abs_index (msize bs) stop).
  assert (Ha : 0 <= a < 2 ^ 31) by (unfold a, abs_index; bcase; lia).
  assert (He : 0 <= e < 2 ^ 31 - 1) by (unfold e, abs_index; bcase; lia).
  rewrite !(sint32_id (msize bs)), (sint32_id (msize bs - 1)) by lia.
  assert (Hnl : (if e <? a then Some 0 else d <- int_arith (e - a);; int_arith (d + 1)) = Some (Z.max 0 (e - a + 1))).
  { destruct (Z.ltb_spec e a); [f_equal; lia|]. rewrite int_arith_Some by lia. cbn [obind].
    rewrite int_arith_Some by lia. f_equal. lia. }
  rewrite Hnl. cbn [obind].
  (* the start and the length that remain *)
  set (n := Z.max 0 (Z.min (e + 1) (msize bs) - a)).
  assert (Hpair : exists a', (if negb (Z.max 0 (e - a + 1) =? 0) then
       if msize bs <=? a then Some (a, 0)
       else if msize bs <=? e then
         newlen <- (if msize bs - 1 <? a then Some 0 else d <- int_arith (msize bs - 1 - a);; int_arith (d + 1));;
         Some (a, newlen)
       else Some (a, Z.max 0 (e - a + 1))
     else Some (0, Z.max 0 (e - a + 1))) = Some (a', n) /\ (n <> 0 -> a' = a)).
  { unfold n. destruct (Z.eqb_spec (Z.max 0 (e - a + 1)) 0); cbn [negb].
    - exists 0. split; [do 2 f_equal; lia|lia].
    - exists a. split; [|done]. destruct (Z.leb_spec (msize bs) a); [do 2 f_equal; lia|].
      destruct (Z.leb_spec (msize bs) e); [|do 2 f_equal; lia]. bdecide.
      rewrite int_arith_Some by lia. cbn [obind]. rewrite int_arith_Some by lia. cbn [obind]. do 2 f_equal. lia. }
  destruct Hpair as (a' & -> & Ha'). cbn [obind].
  destruct (Z.eqb_spec n 0) as [Hn|Hn]; rewrite ?andb_false_r; cbn [negb andb obind].
  - replace (drop _ _) with (@nil Z).
    2: { symmetry. apply drop_ge. rewrite length_take. unfold n, msize in *. lia. }
    rewrite Hn. apply (finish_rep s bs [] (buf s) Hr); rewrite ?msize_nil; done || lia.
  - rewrite (Ha' Hn), andb_true_r. destruct (range_split bs a n) as (L & M & R & Ebs & HL & HM & EM); [lia|unfold n; lia|unfold n in *; lia|].
    assert (Hbuf : buf s = L ++ M ++ R ++ 0 :: rest) by (rewrite Eb, Ebs, <- !app_assoc; done).
    replace (drop (Z.to_nat a) (take (Z.to_nat (e + 1)) bs)) with M.
    2: { rewrite EM. unfold n in *. destruct (Z.le_ge_cases (e + 1) (msize bs)); [do 2 f_equal; lia|].
         rewrite !(take_ge bs) by (unfold msize in *; lia). done. }
    assert (Hle : msize M <= msize bs) by (rewrite Ebs, !msize_app; msolve).
    rewrite <- HL, <- HM. destruct (Z.eqb_spec (msize L) 0) as [E|]; cbn [negb].
    + apply msize_0_nil in E as ->. cbn [obind]. rewrite Hbuf. cbn [app].
      apply (finish_rep s bs M (R ++ 0 :: rest) Hr); [done|by rewrite Hbuf].
    + destruct (memmove_front L M (R ++ 0 :: rest)) as (r & Em & Hm). rewrite Hbuf, Em. cbn [obind].
      apply (finish_rep s bs M r Hr); [done|by rewrite Hm, Hbuf].
Qed.

(** * Characters *)

Lemma map_loop_spec f : forall B A T, map_loop (length B) f (A ++ B ++ T) (msize A)
  = Some (A ++ ((fun c => uint 8 (f c)) <$> B) ++ T).
Proof.
  induction B as [|c B IH]; intros A T; cbn [length map_loop]; [done|].
  cbn [app]. rewrite (load8_at A c (B ++ T)) by done. cbn [obind]. rewrite (store8_at A c (B ++ T)) by done. cbn [obind].
  specialize (IH (A ++ [uint 8 (f c)]) T). rewrite msize_app, msize_cons, msize_nil, Z.add_0_r in IH.
  rewrite <- !app_assoc in IH. cbn [app] in IH. rewrite IH, fmap_cons. done.
Qed.

Lemma map_rep s bs f : sds_rep s bs -> Forall (fun c => is_byte (f c)) bs ->
  exists b, map_loop (Z.to_nat (sdslen s)) f (buf s) 0 = Some b /\ sds_rep (set_buf s b) (f <$> bs).
Proof.
  intros (rest & Eb & El & Ef & Hb) Hf. destruct (sds_lengths s bs rest Eb El Ef Hb) as [Elen _].
  rewrite Elen, Eb. unfold msize at 1. rewrite Nat2Z.id.
  pose proof (map_loop_spec f bs [] (0 :: rest)) as E. rewrite msize_nil in E. cbn [app] in E. rewrite E.
  eexists. split; [done|]. replace ((fun c => uint 8 (f c)) <$> bs) with (f <$> bs).
  2: { clear -Hf. induction Hf as [|c bs Hc _ IH]; [done|]. rewrite !fmap_cons, IH. f_equal. symmetry. by apply uint_id. }
  exists rest. unfold set_buf, msize in *. cbn [len free buf]. rewrite length_fmap. done.
Qed.

Lemma tolower_byte c : is_byte c -> is_byte (tolower c).
Proof. unfold is_byte, tolower. bcase; lia. Qed.

Lemma toupper_byte c : is_byte c -> is_byte (toupper c).
Proof. unfold is_byte, toupper. bcase; lia. Qed.

Lemma map_char_byte from to c : Forall is_byte to -> is_byte c -> is_byte (map_char from to c).
Proof.
  intros Hto Hc. revert from. induction Hto as [|t to Ht _ IH]; intros [|f from]; cbn [map_char]; try done.
  destruct (c =? f); [done|apply IH].
Qed.

(** * Comparison *)

Lemma sdscmp_rep s1 s2 a b : sds_rep s1 a -> sds_rep s2 b ->
  exists c, sdscmp s1 s2 = Some c /\ (c ?= 0) = lex a b.
Proof.
  intros (r1 & Eb1 & El1 & Ef1 & Hb1) (r2 & Eb2 & El2 & Ef2 & Hb2).
  destruct (sds_lengths s1 a r1 Eb1 El1 Ef1 Hb1) as [L1 _]. destruct (sds_lengths s2 b r2 Eb2 El2 Ef2 Hb2) as [L2 _].
  unfold sdscmp. rewrite L1, L2, Eb1, Eb2. destruct (memcmp_lex a b (0 :: r1) (0 :: r2)) as (c & E & Hc).
  replace (Z.to_nat _) with (Nat.min (length a) (length b)) by (unfold msize; bcase; lia).
  rewrite E. cbn [obind]. destruct (Z.eqb_spec c 0) as [->|]; [|by exists c].
  eexists. split; [done|]. rewrite <- Hc, sint32_uint64 by (unfold in_sint; msolve).
  destruct (Z.compare_spec (msize a) (msize b)); [apply Z.compare_eq_iff|apply Z.compare_lt_iff|apply Z.compare_gt_iff]; lia.
Qed.

(** * Formatted output *)

Lemma catvprintf_loop_spec fuel out n : cstring out -> 16 <= n -> msize out + 2 - n < Z.of_nat fuel -> (0 < fuel)%nat ->
  exists T, catvprintf_loop fuel out n = Some (out ++ 0 :: T).
Proof.
  intros Hout. revert n. induction fuel as [|fuel IH]; intros n Hn Hf Hpos; [lia|]. cbn [catvprintf_loop].
  assert (Hm : msize (zmalloc n) = n) by (unfold zmalloc; apply msize_fresh; lia).
  destruct (split_at (zmalloc n) (n - 2)) as (z1 & z2 & Ez & Hz1); [lia|].
  destruct z2 as [|b z2]; [apply (f_equal msize) in Ez; rewrite msize_app, msize_nil in Ez; lia|].
  rewrite Ez, (store8_at z1 b z2) by done. cbn [obind]. change (uint 8 0) with 0.
  apply (f_equal msize) in Ez. rewrite msize_app, msize_cons in Ez.
  unfold vsnprintf. destruct (Z.le_gt_cases (msize out) (n - 2)) as [Hle|Hgt].
  - rewrite take_ge by (unfold msize in *; lia).
    destruct (split_at (z1 ++ 0 :: z2) (msize out + 1)) as (o & T & Eo & Ho); [msolve|].
    rewrite Eo, (store_at [] o T); [cbn [obind app]|done|done|msolve].
    exists T. assert (Hc : load8 ((out ++ [0]) ++ T) (n - 2) = Some 0).
    { destruct (Z.eq_dec (msize out) (n - 2)) as [He|Hlt].
      - by apply (load8_at out 0 T); [rewrite <- app_assoc|].
      - assert (ET : exists q q', T = q ++ 0 :: q' /\ msize q = n - 2 - (msize out + 1)).
        { destruct (split_at T (n - 2 - (msize out + 1))) as (q & q' & Eq & Hq).
          { apply (f_equal msize) in Eo. rewrite !msize_app, msize_cons in Eo. lia. }
          rewrite Eq, app_assoc in Eo. destruct q' as [|d q'].
          { exfalso. apply (f_equal msize) in Eo. rewrite !msize_app, msize_cons, msize_nil in Eo. lia. }
          apply app_inj_1 in Eo as [_ Ed]; [|unfold msize in *; rewrite length_app; lia]. injection Ed as <- _.
          by exists q, q'. }
        destruct ET as (q & q' & -> & Hq). apply (load8_at (out ++ [0] ++ q) 0 q').
        + by rewrite <- !app_assoc.
        + rewrite !msize_app, msize_cons, msize_nil. lia. }
    rewrite Hc. cbn [obind]. bdecide. by rewrite <- app_assoc.
  - destruct (split_at out (n - 2)) as (o1 & o2 & Eo & Ho1); [lia|].
    destruct o2 as [|c o2]; [apply (f_equal msize) in Eo; rewrite msize_app, msize_nil in Eo; lia|].
    assert (Ht : take (Z.to_nat (n - 1)) out = o1 ++ [c]).
    { rewrite Eo, take_app_ge by (unfold msize in *; lia).
      replace (_ - _)%nat with 1%nat by (unfold msize in *; lia). done. }
    rewrite Ht. assert (Hz2 : exists d, z2 = [d]).
    { destruct z2 as [|d z2]; [rewrite msize_nil in *; lia|]. rewrite msize_cons in Ez.
      exists d. f_equal. apply msize_0_nil. lia. }
    destruct Hz2 as [d ->]. rewrite (store_at [] (z1 ++ [0; d]) []); [cbn [obind app]|by rewrite app_nil_r|done|msolve].
    rewrite (load8_at o1 c [0]) by (rewrite <- ?app_assoc, ?app_nil_r; done). cbn [obind].
    assert (Hc : c <> 0).
    { rewrite Eo in Hout. apply Forall_app in Hout as [_ Hout]. by apply list.Forall_cons_1 in Hout as [? _]. }
    bdecide. apply IH; lia.
Qed.

Lemma sdscatprintf_rep s bs out : sds_rep s bs -> cstring out -> msize bs + msize out < 2 ^ 30 ->
  exists s', sdscatprintf s out = Some s' /\ sds_rep s' (bs ++ out).
Proof.
  intros Hr Hout Hb. unfold sdscatprintf.
  destruct (catvprintf_loop_spec (S (length out)) out 16 Hout) as [T ->]; [lia|unfold msize; lia|lia|].
  cbn [obind]. by apply sdscat_rep.
Qed.

Lemma sdsfromlonglong_rep value : LLONG_MIN < value <= LLONG_MAX ->
  exists s ds, sdsfromlonglong value = Some s /\ sds_rep s ds /\ decimal ds value.
Proof.
  intros Hv. unfold sdsfromlonglong.
  destruct (ll_print_spec value Hv) as (v & b & p & A & ds & -> & E2 & E3 & Hsz & Hds & Hdec). cbn [obind].
  rewrite E2. cbn [obind]. rewrite E3. cbn [obind].
  rewrite (load_at A ds []) by (rewrite ?app_nil_r; done || lia). cbn [obind].
  destruct (sdsnewlen_rep ds []) as (s & E & Hr & _); [lia|]. rewrite app_nil_r in E.
  replace (32 - (msize A - 1 + 1)) with (msize ds) by lia. rewrite E. by exists s, ds.
Qed.

Lemma sdsdup_rep s bs : sds_rep s bs -> exists s', sdsdup s = Some s' /\ sds_rep s' bs /\ free s' = 0.
Proof.
  intros (rest & Eb & El & Ef & Hb). destruct (sds_lengths s bs rest Eb El Ef Hb) as [Elen _].
  unfold sdsdup. rewrite Eb, Elen. apply sdsnewlen_rep. pose proof (msize_nonneg rest). lia.
Qed.

End Rep.
