(* ===== verification/SdsArgs.v ===== *)
(** Quoting and parsing of argument lines ([sdscatrepr], [sdssplitargs] of
    [sds.c]). *)

From S2P Require Import Prelude.
From S2P Require Import Util.
From S2P Require Import Robj.
From S2P Require Import Sds.
From S2P Require Import SdsRep.

(** Character classes of the C locale. *)
Definition isprint (c : Z) : bool := (32 <=? c) && (c <=? 126).
Definition isspace (c : Z) : bool := (c =? 32) || ((9 <=? c) && (c <=? 13)).

(** * sdscatrepr *)

(** The digits of [%02x]. *)
Definition hex_char (d : Z) : Z := if d <? 10 then 48 + d else 87 + d.

Section Args.
Context `{Host}.

(** One character of the string; the formats print a backslash and the
    character, the character, or a backslash, [x] and two digits. *)
Definition repr_char (s : sdshdr) (c : Z) : option sdshdr :=
  if (c =? 92) || (c =? 34) then sdscatprintf s [92; c]
  else if c =? 10 then sdscatlen s [92; 110] 2
  else if c =? 13 then sdscatlen s [92; 114] 2
  else if c =? 9 then sdscatlen s [92; 116] 2
  else if c =? 7 then sdscatlen s [92; 97] 2
  else if c =? 8 then sdscatlen s [92; 98] 2
  else if isprint c then sdscatprintf s [c]
  else sdscatprintf s [92; 120; hex_char (c / 16); hex_char (c mod 16)].

Fixpoint repr_loop (n : nat) (s : sdshdr) (m : bytes) (p : Z) : option sdshdr :=
  match n with
  | O => Some s
  | S n => c <- load8 m p;; s <- repr_char s c;; repr_loop n s m (p + 1)
  end.

Definition sdscatrepr (s : sdshdr) (p : bytes) (l : Z) : option sdshdr :=
  s <- sdscatlen s [34] 1;;
  s <- repr_loop (Z.to_nat l) s p 0;;
  sdscatlen s [34] 1.

(** * sdssplitargs *)

Definition is_hex_digit (c : Z) : bool :=
  ((48 <=? c) && (c <=? 57)) || ((97 <=? c) && (c <=? 102)) || ((65 <=? c) && (c <=? 70)).

Definition hex_digit_to_int (c : Z) : Z :=
  if (48 <=? c) && (c <=? 57) then c - 48
  else if (97 <=? c) && (c <=? 102) then c - 87
  else if (65 <=? c) && (c <=? 70) then c - 55
  else 0.

(** Skipping blanks. *)
Fixpoint skip_blanks (fuel : nat) (line : bytes) (p : Z) : option Z :=
  match fuel with
  | O => None
  | S fuel =>
    c <- load8 line p;;
    if negb (c =? 0) && isspace c then skip_blanks fuel line (p + 1) else Some p
  end.

(** [p] starts a backslash, an [x] and two hexadecimal digits. *)
Definition hex_escape (line : bytes) (p : Z) : option bool :=
  c <- load8 line p;; if negb (c =? 92) then Some false else
  c <- load8 line (p + 1);; if negb (c =? 120) then Some false else
  c <- load8 line (p + 2);; if negb (is_hex_digit c) then Some false else
  c <- load8 line (p + 3);; Some (is_hex_digit c).

(** A closing quote must be followed by a space or nothing. *)
Definition quote_ends (line : bytes) (p : Z) : option bool :=
  c <- load8 line (p + 1);; Some ((c =? 0) || isspace c).

Definition escaped (c : Z) : Z :=
  if c =? 110 then 10 else if c =? 114 then 13 else if c =? 116 then 9
  else if c =? 98 then 8 else if c =? 97 then 7 else c.

(** The body of [while(!done)] up to the final increment of [p]: the position, the token,
    the flags [inq], [insq] and [done]; [Some None] is [goto err]. *)
Definition token_step (line : bytes) (p : Z) (cur : sdshdr) (inq insq : bool)
    : option (option (Z * sdshdr * bool * bool * bool)) :=
  c <- load8 line p;;
  if inq then
    h <- hex_escape line p;;
    if (h : bool) then
      a <- load8 line (p + 2);;
      b <- load8 line (p + 3);;
      cur <- sdscatlen cur [uint 8 (hex_digit_to_int a * 16 + hex_digit_to_int b)] 1;;
      Some (Some (p + 3, cur, inq, insq, false))
    else
    n <- (if c =? 92 then load8 line (p + 1) else Some 0);;
    if (c =? 92) && negb (n =? 0) then
      cur <- sdscatlen cur [escaped n] 1;;
      Some (Some (p + 1, cur, inq, insq, false))
    else if c =? 34 then
      e <- quote_ends line p;;
      if (e : bool) then Some (Some (p, cur, inq, insq, true)) else Some None
    else if c =? 0 then Some None
    else cur <- sdscatlen cur [c] 1;; Some (Some (p, cur, inq, insq, false))
  else if insq then
    n <- (if c =? 92 then load8 line (p + 1) else Some 0);;
    if (c =? 92) && (n =? 39) then
      cur <- sdscatlen cur [39] 1;;
      Some (Some (p + 1, cur, inq, insq, false))
    else if c =? 39 then
      e <- quote_ends line p;;
      if (e : bool) then Some (Some (p, cur, inq, insq, true)) else Some None
    else if c =? 0 then Some None
    else cur <- sdscatlen cur [c] 1;; Some (Some (p, cur, inq, insq, false))
  else if (c =? 32) || (c =? 10) || (c =? 13) || (c =? 9) || (c =? 0) then Some (Some (p, cur, inq, insq, true))
  else if c =? 34 then Some (Some (p, cur, true, insq, false))
  else if c =? 39 then Some (Some (p, cur, inq, true, false))
  else cur <- sdscatlen cur [c] 1;; Some (Some (p, cur, inq, insq, false)).

Fixpoint token_loop (fuel : nat) (line : bytes) (p : Z) (cur : sdshdr) (inq insq : bool)
    : option (option (Z * sdshdr)) :=
  match fuel with
  | O => None
  | S fuel =>
    r <- token_step line p cur inq insq;;
    match r with
    | None => Some None
    | Some (p, cur, inq, insq, done) =>
      c <- load8 line p;;
      let p := if c =? 0 then p else p + 1 in
      if (done : bool) then Some (Some (p, cur)) else token_loop fuel line p cur inq insq
    end
  end.

(** The vector of tokens is grown by one at each token. *)
Fixpoint splitargs_loop (fuel : nat) (line : bytes) (p : Z) (vector : list sdshdr)
    : option (option (list sdshdr)) :=
  match fuel with
  | O => None
  | S fuel =>
    p <- skip_blanks (S (length line)) line p;;
    c <- load8 line p;;
    if c =? 0 then Some (Some vector) else
    cur <- sdsempty;;
    r <- token_loop (S (length line)) line p cur false false;;
    match r with
    | None => Some None
    | Some (p, cur) => splitargs_loop fuel line p (vector ++ [cur])
    end
  end.

(** [Some None] is the [NULL] of unbalanced quotes. *)
Definition sdssplitargs (line : bytes) : option (option (list sdshdr)) :=
  splitargs_loop (S (length line)) line 0 [].

(** * The quoted form of a string *)

Definition repr_of (c : Z) : bytes :=
  if (c =? 92) || (c =? 34) then [92; c]
  else if c =? 10 then [92; 110]
  else if c =? 13 then [92; 114]
  else if c =? 9 then [92; 116]
  else if c =? 7 then [92; 97]
  else if c =? 8 then [92; 98]
  else if isprint c then [c]
  else [92; 120; hex_char (c / 16); hex_char (c mod 16)].

Definition quoted (bs : bytes) : bytes := 34 :: concat (repr_of <$> bs) ++ [34].

Lemma isprint_spec c : reflect (32 <= c <= 126) (isprint c).
Proof. apply iff_reflect. unfold isprint. rewrite andb_true_iff, !Z.leb_le. lia. Qed.

Lemma hex_char_nonzero d : 0 <= d -> hex_char d <> 0.
Proof. unfold hex_char. bcase; lia. Qed.

Lemma repr_of_size c : 1 <= msize (repr_of c) <= 4.
Proof. unfold repr_of. repeat case_match; unfold msize; cbn; lia. Qed.

Lemma repr_char_rep s bs c : sds_rep s bs -> is_byte c -> msize bs + 4 < 2 ^ 30 ->
  exists s', repr_char s c = Some s' /\ sds_rep s' (bs ++ repr_of c).
Proof.
  intros Hr Hc Hb. unfold is_byte in Hc.
  assert (Hlen : forall x y, exists s', sdscatlen s [x; y] 2 = Some s' /\ sds_rep s' (bs ++ [x; y])).
  { intros x y. apply (sdscatlen_rep s bs [x; y] []); [done|msolve]. }
  assert (Hout : forall out, cstring out -> msize out <= 4 ->
    exists s', sdscatprintf s out = Some s' /\ sds_rep s' (bs ++ out)).
  { intros out Ho Hs. apply sdscatprintf_rep; [done|done|lia]. }
  unfold repr_char, repr_of.
  destruct ((c =? 92) || (c =? 34)) eqn:E1.
  { apply Hout; [|done]. apply orb_true_iff in E1. bprop.
    repeat constructor; [lia|]. destruct E1 as [E1|E1]; apply Z.eqb_eq in E1; lia. }
  repeat (case_match; [by apply Hlen|]). destruct (isprint_spec c).
  - apply Hout; [repeat constructor; lia|done].
  - apply Hout; [|done]. pose proof (Z.div_pos c 16). pose proof (Z.mod_pos_bound c 16).
    repeat constructor; try lia; apply hex_char_nonzero; lia.
Qed.

Lemma repr_loop_rep : forall bs A T s acc, sds_rep s acc -> Forall is_byte bs -> msize acc + 4 * msize bs < 2 ^ 30 - 4 ->
  exists s', repr_loop (length bs) s (A ++ bs ++ T) (msize A) = Some s' /\ sds_rep s' (acc ++ concat (repr_of <$> bs)).
Proof.
  induction bs as [|c bs IH]; intros A T s acc Hr Hbs Hb; cbn [length repr_loop].
  - exists s. split; [done|]. cbn. by rewrite app_nil_r.
  - apply list.Forall_cons_1 in Hbs as [Hc Hbs]. rewrite msize_cons in Hb. cbn [app].
    rewrite (load8_at A c (bs ++ T)) by done. cbn [obind]. pose proof (msize_nonneg bs).
    destruct (repr_char_rep s acc c Hr Hc) as (s1 & -> & Hr1); [lia|]. cbn [obind].
    destruct (IH (A ++ [c]) T s1 (acc ++ repr_of c) Hr1 Hbs) as (s2 & E2 & Hr2).
    { pose proof (repr_of_size c). rewrite msize_app. lia. }
    rewrite msize_app, msize_cons, msize_nil, Z.add_0_r, <- app_assoc in E2. cbn [app] in E2.
    exists s2. split; [done|]. rewrite fmap_cons. cbn [concat]. by rewrite app_assoc.
Qed.

Lemma sdscatrepr_rep s acc bs u : sds_rep s acc -> Forall is_byte bs -> msize acc + 4 * msize bs < 2 ^ 30 - 8 ->
  exists s', sdscatrepr s (bs ++ u) (msize bs) = Some s' /\ sds_rep s' (acc ++ quoted bs).
Proof.
  intros Hr Hbs Hb. unfold sdscatrepr. pose proof (msize_nonneg bs).
  destruct (sdscatlen_rep s acc [34] [] Hr) as (s1 & E1 & Hr1); [msolve|].
  change (msize [34]) with 1 in E1. cbn [app] in E1. rewrite E1. cbn [obind].
  destruct (repr_loop_rep bs [] u s1 (acc ++ [34]) Hr1 Hbs) as (s2 & E2 & Hr2); [msolve|].
  rewrite msize_nil in E2. cbn [app] in E2. unfold msize at 1. rewrite Nat2Z.id, E2. cbn [obind].
  assert (Hsz : msize (concat (repr_of <$> bs)) <= 4 * msize bs).
  { clear. induction bs as [|c bs IH]; [done|]. rewrite fmap_cons. cbn [concat]. rewrite msize_app, msize_cons.
    pose proof (repr_of_size c). lia. }
  destruct (sdscatlen_rep s2 _ [34] [] Hr2) as (s3 & E3 & Hr3); [rewrite !msize_app, !msize_cons, msize_nil; lia|].
  change (msize [34]) with 1 in E3. cbn [app] in E3. exists s3. split; [done|].
  unfold quoted. by rewrite <- !app_assoc in Hr3.
Qed.

(** * Parsing a quoted string *)

Lemma hex_roundtrip c : is_byte c ->
  uint 8 (hex_digit_to_int (hex_char (c / 16)) * 16 + hex_digit_to_int (hex_char (c mod 16))) = c /\
  is_hex_digit (hex_char (c / 16)) = true /\ is_hex_digit (hex_char (c mod 16)) = true /\ hex_char (c mod 16) <> 0.
Proof.
  intros Hc. assert (Hall : forallb (fun c =>
    (uint 8 (hex_digit_to_int (hex_char (c / 16)) * 16 + hex_digit_to_int (hex_char (c mod 16))) =? c)
    && is_hex_digit (hex_char (c / 16)) && is_hex_digit (hex_char (c mod 16))
    && negb (hex_char (c mod 16) =? 0)) (seqZ 0 256) = true) by (vm_compute; reflexivity).
  rewrite forallb_forall in Hall. specialize (Hall c). rewrite <- list_elem_of_In, elem_of_seqZ in Hall.
  unfold is_byte in Hc. specialize (Hall ltac:(lia)). bprop. done.
Qed.

(** One character of the quoted form inside quotes. *)
Lemma token_step_repr A T cur acc c : sds_rep cur acc -> is_byte c -> msize acc + 1 < 2 ^ 30 ->
  exists cur' B d, repr_of c = B ++ [d] /\ d <> 0 /\
    token_step (A ++ repr_of c ++ T) (msize A) cur true false
      = Some (Some (msize (A ++ B), cur', true, false, false)) /\ sds_rep cur' (acc ++ [c]).
Proof.
  intros Hr Hc Hb.
  assert (Hcat : forall x, exists s', sdscatlen cur [x] 1 = Some s' /\ sds_rep s' (acc ++ [x])).
  { intros x. apply (sdscatlen_rep cur acc [x] []); [done|msolve]. }
  assert (Hesc : forall d x, d <> 0 -> d <> 120 -> escaped d = x ->
    exists cur', token_step (A ++ [92; d] ++ T) (msize A) cur true false
      = Some (Some (msize (A ++ [92]), cur', true, false, false)) /\ sds_rep cur' (acc ++ [x])).
  { intros d x Hd Hd' <-. destruct (Hcat (escaped d)) as (s' & E & Hr'). exists s'. split; [|done].
    unfold token_step, hex_escape.
    rewrite (load8_at A 92 (d :: T)) by done. cbn [obind].
    rewrite (load8_at (A ++ [92]) d T) by (rewrite <- ?app_assoc, ?msize_app; done). cbn [obind].
    rewrite Z.eqb_refl. cbn [negb]. bdecide. cbn [obind negb andb]. rewrite E. cbn [obind].
    bdecide. by rewrite msize_app. }
  unfold repr_of. destruct ((c =? 92) || (c =? 34)) eqn:E1.
  { destruct (Hesc c c) as (s' & E & Hr').
    - apply orb_true_iff in E1 as [E1|E1]; apply Z.eqb_eq in E1; lia.
    - apply orb_true_iff in E1 as [E1|E1]; apply Z.eqb_eq in E1; lia.
    - apply orb_true_iff in E1 as [E1|E1]; apply Z.eqb_eq in E1 as ->; done.
    - exists s', [92], c. split; [done|]. split; [|done].
      apply orb_true_iff in E1 as [E1|E1]; apply Z.eqb_eq in E1; lia. }
  apply orb_false_iff in E1 as [E1 E1'].
  assert (Hsimple : forall d, escaped d = c -> d <> 0 -> d <> 120 -> exists cur' B d', [92; d] = B ++ [d'] /\ d' <> 0 /\
    token_step (A ++ [92; d] ++ T) (msize A) cur true false
      = Some (Some (msize (A ++ B), cur', true, false, false)) /\ sds_rep cur' (acc ++ [c])).
  { intros d Hd Hd0 Hdx. destruct (Hesc d c Hd0 Hdx Hd) as (s' & E & Hr'). by exists s', [92], d. }
  repeat (case_match; [bprop; subst; by apply Hsimple|]). bprop. destruct (isprint_spec c).
  - destruct (Hcat c) as (s' & E & Hr'). exists s', [], c. split; [done|]. split; [lia|]. split; [|done].
    unfold token_step, hex_escape. rewrite (load8_at A c T) by done. cbn [obind]. bdecide. cbn [obind andb]. bdecide.
    rewrite E. cbn [obind]. by rewrite app_nil_r.
  - destruct (hex_roundtrip c Hc) as (Hv & Hh1 & Hh2 & Hne). destruct (Hcat c) as (s' & E & Hr').
    exists s', [92; 120; hex_char (c / 16)], (hex_char (c mod 16)). split; [done|]. split; [done|]. split; [|done].
    unfold token_step, hex_escape. set (h1 := hex_char (c / 16)) in *. set (h2 := hex_char (c mod 16)) in *. cbn [app].
    rewrite (load8_at A 92 (120 :: h1 :: h2 :: T)) by done. cbn [obind].
    rewrite (load8_at (A ++ [92]) 120 (h1 :: h2 :: T)) by (rewrite <- ?app_assoc, ?msize_app; done).
    rewrite (load8_at (A ++ [92; 120]) h1 (h2 :: T)) by (rewrite <- ?app_assoc, ?msize_app; done).
    rewrite (load8_at (A ++ [92; 120; h1]) h2 T) by (rewrite <- ?app_assoc, ?msize_app; done). cbn [obind].
    rewrite Z.eqb_refl. cbn [negb obind]. rewrite Z.eqb_refl, Hh1, Hh2. cbn [negb obind].
    rewrite Hv, E. cbn [obind]. by rewrite msize_app.
Qed.

(** What may follow a closing quote. *)
Definition ends (T : bytes) : Prop := match T with [] => False | e :: _ => e = 0 \/ isspace e = true end.

Lemma token_loop_quoted : forall bs fuel A T cur acc, sds_rep cur acc -> Forall is_byte bs ->
  msize acc + msize bs < 2 ^ 30 -> ends T -> (length bs < fuel)%nat ->
  exists cur', token_loop fuel (A ++ concat (repr_of <$> bs) ++ 34 :: T) (msize A) cur true false
    = Some (Some (msize A + msize (concat (repr_of <$> bs)) + 1, cur')) /\ sds_rep cur' (acc ++ bs).
Proof.
  induction bs as [|c bs IH]; intros [|fuel] A T cur acc Hr Hbs Hb HT Hf; cbn in Hf; try lia; cbn [token_loop].
  - destruct T as [|e T]; [done|]. cbn [fmap list_fmap concat app].
    assert (Hst : token_step (A ++ 34 :: e :: T) (msize A) cur true false = Some (Some (msize A, cur, true, false, true))).
    { unfold token_step, hex_escape, quote_ends. rewrite (load8_at A 34 (e :: T)) by done. cbn [obind].
      rewrite (load8_at (A ++ [34]) e T) by (rewrite <- ?app_assoc, ?msize_app; done).
      bdecide. cbn [obind andb]. bdecide. cbn [obind]. destruct HT as [->|HT]; [done|]. by rewrite HT, orb_true_r. }
    rewrite Hst. cbn [obind]. rewrite (load8_at A 34 (e :: T)) by done. cbn [obind]. bdecide.
    exists cur. rewrite msize_nil, app_nil_r, Z.add_0_r. done.
  - apply list.Forall_cons_1 in Hbs as [Hc Hbs]. rewrite msize_cons in Hb. pose proof (msize_nonneg bs).
    rewrite fmap_cons. cbn [concat]. rewrite <- app_assoc. set (R := concat (repr_of <$> bs) ++ 34 :: T).
    destruct (token_step_repr A R cur acc c Hr Hc) as (cur1 & B & d & EB & Hd & -> & Hr1); [lia|]. cbn [obind].
    rewrite EB. rewrite (load8_at (A ++ B) d R) by (rewrite <- ?app_assoc; done). cbn [obind]. bdecide.
    destruct (IH fuel (A ++ B ++ [d]) T cur1 (acc ++ [c]) Hr1 Hbs) as (cur2 & E2 & Hr2); [msolve|done|lia|].
    exists cur2. rewrite <- app_assoc in Hr2. split; [|done].
    replace (msize (A ++ B) + 1) with (msize (A ++ B ++ [d])) by (rewrite !msize_app, msize_cons, msize_nil; lia).
    rewrite <- !app_assoc in E2. rewrite <- !app_assoc. unfold R. rewrite E2. do 3 f_equal.
    rewrite !msize_app. lia.
Qed.

(** A token that is one quoted string. *)
Lemma token_loop_token bs fuel A T cur : sds_rep cur [] -> Forall is_byte bs -> msize bs < 2 ^ 30 -> ends T ->
  (length bs + 1 < fuel)%nat ->
  exists cur', token_loop fuel (A ++ quoted bs ++ T) (msize A) cur false false
    = Some (Some (msize (A ++ quoted bs), cur')) /\ sds_rep cur' bs.
Proof.
  intros Hr Hbs Hb HT Hf. destruct fuel as [|fuel]; [lia|]. cbn [token_loop]. unfold quoted. cbn [app].
  set (R := (concat (repr_of <$> bs) ++ [34]) ++ T).
  assert (Hst : token_step (A ++ 34 :: R) (msize A) cur false false = Some (Some (msize A, cur, true, false, false))).
  { unfold token_step. rewrite (load8_at A 34 R) by done. done. }
  rewrite Hst. cbn [obind]. rewrite (load8_at A 34 R) by done. cbn [obind]. bdecide.
  destruct (token_loop_quoted bs fuel (A ++ [34]) T cur [] Hr Hbs) as (cur' & E & Hr'); [msolve|done|lia|].
  exists cur'. split; [|done]. rewrite msize_app, msize_cons, msize_nil, Z.add_0_r, <- app_assoc in E. cbn [app] in E.
  unfold R. rewrite <- app_assoc. cbn [app]. rewrite E. do 3 f_equal. msolve.
Qed.

(** * Lines of quoted strings *)

Abbreviation blanks := (Forall (fun c => isspace c = true)).

Lemma skip_blanks_spec : forall b fuel A c T, blanks b -> c = 0 \/ isspace c = false -> (length b < fuel)%nat ->
  skip_blanks fuel (A ++ b ++ c :: T) (msize A) = Some (msize (A ++ b)).
Proof.
  induction b as [|e b IH]; intros [|fuel] A c T Hb Hc Hf; cbn in Hf; try lia; cbn [skip_blanks app].
  - rewrite (load8_at A c T) by done. cbn [obind]. rewrite app_nil_r.
    destruct Hc as [->|Hc]; [done|]. by rewrite Hc, andb_false_r.
  - apply list.Forall_cons_1 in Hb as [He Hb]. rewrite (load8_at A e (b ++ c :: T)) by done. cbn [obind]. rewrite He.
    assert (e <> 0) by (intros ->; done). bdecide.
    specialize (IH fuel (A ++ [e]) c T Hb Hc). rewrite msize_app, msize_cons, msize_nil, Z.add_0_r, <- !app_assoc in IH.
    cbn [app] in IH. by rewrite IH by lia.
Qed.

(** The line made of the quoted [items], each after its blanks, and blanks at
    the end. *)
Fixpoint line_of (items : list (bytes * bytes)) (tail : bytes) : bytes :=
  match items with
  | [] => tail ++ [0]
  | (b, a) :: items => b ++ quoted a ++ line_of items tail
  end.

Definition items_ok (items : list (bytes * bytes)) (tail : bytes) : Prop :=
  Forall (fun i => blanks i.1 /\ Forall is_byte i.2 /\ msize i.2 < 2 ^ 30) items /\ blanks tail.

Lemma line_ends items tail : items_ok items tail -> Forall (fun i => i.1 <> []) items -> ends (line_of items tail).
Proof.
  intros [Hi Ht] Hne. destruct items as [|[b a] items]; cbn [line_of].
  - destruct Ht; [by left|by right].
  - apply list.Forall_cons_1 in Hi as [[Hb _] _]. apply list.Forall_cons_1 in Hne as [Hne _]. cbn in *.
    destruct Hb; [done|by right].
Qed.

Lemma splitargs_loop_spec : forall items fuel A tail vec, items_ok items tail ->
  Forall (fun i => i.1 <> []) (list.tail items) -> (length items < fuel)%nat ->
  exists toks, splitargs_loop fuel (A ++ line_of items tail) (msize A) vec = Some (Some (vec ++ toks)) /\
    Forall2 sds_rep toks (snd <$> items).
Proof.
  induction items as [|[b a] items IH]; intros [|fuel] A tail vec Hok Hne Hf; cbn in Hf; try lia; cbn [splitargs_loop line_of].
  - destruct Hok as [_ Ht]. rewrite skip_blanks_spec; [|done|by left|rewrite !length_app; lia]. cbn [obind].
    rewrite (load8_at (A ++ tail) 0 []) by (rewrite <- ?app_assoc; done). cbn [obind]. bdecide.
    exists []. rewrite app_nil_r. split; [done|constructor].
  - destruct Hok as [Hi Ht]. apply list.Forall_cons_1 in Hi as [(Hb & Ha & Hs) Hi]. cbn [fst snd] in *.
    assert (Hends : ends (line_of items tail)) by (by apply line_ends).
    set (line := A ++ b ++ quoted a ++ line_of items tail).
    assert (Hskip : skip_blanks (S (length line)) line (msize A) = Some (msize (A ++ b))).
    { unfold line, quoted. cbn [app]. apply skip_blanks_spec; [done|by right|rewrite !length_app; lia]. }
    assert (Hload : load8 line (msize (A ++ b)) = Some 34).
    { eapply load8_at; [|done]. unfold line, quoted. rewrite <- (app_assoc A b). done. }
    rewrite Hskip. cbn [obind]. rewrite Hload. cbn [obind]. bdecide.
    destruct sdsempty_rep as (cur & -> & Hr & _). cbn [obind].
    destruct (token_loop_token a (S (length line)) (A ++ b) (line_of items tail) cur Hr Ha Hs Hends) as (cur' & E & Hr').
    { assert (Hl : (length a <= length (concat (repr_of <$> a)))%nat).
      { clear. induction a as [|c a IH]; [done|]. rewrite fmap_cons. cbn [concat length]. rewrite length_app.
        pose proof (repr_of_size c) as Hc. unfold msize in Hc. lia. }
      unfold line, quoted. rewrite !length_app. cbn [length]. rewrite !length_app. cbn [length]. lia. }
    rewrite <- app_assoc in E. fold line in E. rewrite E. cbn [obind].
    destruct (IH fuel ((A ++ b) ++ quoted a) tail (vec ++ [cur'])) as (toks & E2 & Ht2).
    + done.
    + destruct items; [constructor|]. by apply list.Forall_cons_1 in Hne as [_ Hne].
    + lia.
    + exists (cur' :: toks). rewrite <- (app_assoc vec) in E2. cbn [app] in E2.
      replace (((A ++ b) ++ quoted a) ++ line_of items tail) with line in E2 by (unfold line; by rewrite <- !app_assoc).
      split; [exact E2|]. by constructor.
Qed.

Lemma sdssplitargs_line items tail : items_ok items tail -> Forall (fun i => i.1 <> []) (list.tail items) ->
  exists toks, sdssplitargs (line_of items tail) = Some (Some toks) /\ Forall2 sds_rep toks (snd <$> items).
Proof.
  intros Hok Hne. destruct (splitargs_loop_spec items (S (length (line_of items tail))) [] tail []) as (toks & E & Hr); [done|done| |by exists toks].
  clear. induction items as [|[b a] items IH]; [cbn; rewrite length_app; cbn; lia|].
  cbn [line_of]. rewrite !length_app. unfold quoted. cbn [length]. lia.
Qed.

End Args.
