(* ===== verification/SdsSpec.v ===== *)
(** What dynamic strings promise: histories of operations against byte
    sequences, splitting and joining, and the round trip of quoted arguments. *)

From S2P Require Import Prelude.
From S2P Require Import Util.
From S2P Require Import Robj.
From S2P Require Import Sds.
From S2P Require Import SdsRep.
From S2P Require Import SdsArgs.

(** * Histories *)

Inductive sop :=
  | SCat (t : bytes)
  | SCopy (t : bytes)
  | SPrintf (out : bytes)
  | SRead (room : Z) (data : bytes)
  | STrim (cset : bytes)
  | SRange (start stop : Z)
  | SGrow (n : Z)
  | SLower
  | SUpper
  | SMap (from to : bytes)
  | SUpdateLen
  | SShrink
  | SClear.

Section Histories.
Context `{Host}.

Definition run_sop (s : sdshdr) (op : sop) : option sdshdr :=
  match op with
  | SCat t => sdscatlen s t (msize t)
  | SCopy t => sdscpylen s t (msize t)
  | SPrintf out => sdscatprintf s out
  | SRead room data => sds_read s room data
  | STrim cset => sdstrim s cset
  | SRange start stop => sdsrange s start stop
  | SGrow n => sdsgrowzero s n
  | SLower => sdstolower s
  | SUpper => sdstoupper s
  | SMap from to => sdsmapchars s from to (msize from)
  | SUpdateLen => sdsupdatelen s
  | SShrink => Some (sdsRemoveFreeSpace s)
  | SClear => sdsclear s
  end.

(** The same operation on the bytes; [None] outside of its contract. *)
Definition spec_sop (bs : bytes) (op : sop) : option bytes :=
  match op with
  | SCat t => if (msize bs + msize t <? 2 ^ 30) && forallb (fun c => (0 <=? c) && (c <? 256)) t
              then Some (bs ++ t) else None
  | SCopy t => if (msize t <? 2 ^ 30) && forallb (fun c => (0 <=? c) && (c <? 256)) t then Some t else None
  | SPrintf out => if (msize bs + msize out <? 2 ^ 30) && forallb (fun c => (1 <=? c) && (c <? 256)) out
                   then Some (bs ++ out) else None
  | SRead room data => if (msize data <=? room) && (msize bs + room <? 2 ^ 30)
                          && forallb (fun c => (0 <=? c) && (c <? 256)) data
                       then Some (bs ++ data) else None
  | STrim cset => Some (trim (strchr cset) bs)
  | SRange start stop => if (- 2 ^ 31 <=? start) && (start <? 2 ^ 31) && (- 2 ^ 31 <=? stop) && (stop <? 2 ^ 31 - 1)
                         then Some (range_of bs start stop) else None
  | SGrow n => if (0 <=? n) && (n <? 2 ^ 30) then Some (bs ++ replicate (Z.to_nat (n - msize bs)) 0) else None
  | SLower => Some (tolower <$> bs)
  | SUpper => Some (toupper <$> bs)
  | SMap from to => if (msize from =? msize to) && forallb (fun c => (0 <=? c) && (c <? 256)) to
                    then Some (map_char from to <$> bs) else None
  | SUpdateLen => Some (until0 bs)
  | SShrink => Some bs
  | SClear => Some []
  end.

Fixpoint run_sops (s : sdshdr) (ops : list sop) : option sdshdr :=
  match ops with [] => Some s | op :: ops => s <- run_sop s op;; run_sops s ops end.

Fixpoint spec_sops (bs : bytes) (ops : list sop) : option bytes :=
  match ops with [] => Some bs | op :: ops => bs <- spec_sop bs op;; spec_sops bs ops end.

Abbreviation all_bytes := (Forall is_byte).

Lemma forallb_bytes t : forallb (fun c => (0 <=? c) && (c <? 256)) t = true -> all_bytes t.
Proof.
  rewrite forallb_forall. intros Ht. apply list.Forall_forall. intros c Hc. apply list_elem_of_In in Hc.
  specialize (Ht c Hc). bprop. unfold is_byte. lia.
Qed.

Lemma forallb_cstring t : forallb (fun c => (1 <=? c) && (c <? 256)) t = true -> cstring t /\ all_bytes t.
Proof.
  rewrite forallb_forall. intros Ht. split; apply list.Forall_forall; intros c Hc; apply list_elem_of_In in Hc;
    specialize (Ht c Hc); bprop; unfold is_byte; lia.
Qed.

Lemma dropw_bytes p bs : all_bytes bs -> all_bytes (dropw p bs).
Proof. induction 1 as [|c bs Hc Hbs IH]; cbn [dropw]; [constructor|]. destruct (p c); [done|by constructor]. Qed.

Lemma run_sop_spec s bs op bs' : sds_rep s bs -> all_bytes bs -> spec_sop bs op = Some bs' ->
  exists s', run_sop s op = Some s' /\ sds_rep s' bs' /\ all_bytes bs'.
Proof.
  intros Hr Hb Hsp.
  destruct op as [t|t|out|room data|cset|start stop|n| | |from to| | |]; cbn [spec_sop run_sop] in *;
    try (destruct (_ : bool) eqn:Hc in Hsp; [|done]); injection Hsp as <-; bprop.
  - destruct (sdscatlen_rep s bs t [] Hr) as (s' & E & Hr'); [done|]. rewrite app_nil_r in E. exists s'.
    split; [done|]. split; [done|]. apply Forall_app. split; [done|by apply forallb_bytes].
  - destruct (sdscpylen_rep s bs t [] Hr) as (s' & E & Hr'); [done|]. rewrite app_nil_r in E. exists s'.
    split; [done|]. split; [done|]. by apply forallb_bytes.
  - destruct (forallb_cstring out) as [Hcs Hby]; [done|]. destruct (sdscatprintf_rep s bs out Hr Hcs) as (s' & E & Hr'); [done|].
    exists s'. split; [done|]. split; [done|]. by apply Forall_app.
  - destruct (sds_read_rep s bs room data Hr) as (s' & E & Hr'); [done|done|]. exists s'.
    split; [done|]. split; [done|]. apply Forall_app. split; [done|by apply forallb_bytes].
  - destruct (sdstrim_rep s bs cset Hr) as (s' & E & Hr'). exists s'. split; [done|]. split; [done|].
    unfold trim. apply Forall_reverse, dropw_bytes, Forall_reverse, dropw_bytes, Hb.
  - destruct (sdsrange_rep s bs start stop Hr) as (s' & E & Hr'); [lia|lia|]. exists s'. split; [done|]. split; [done|].
    unfold range_of. apply Forall_drop, Forall_take, Hb.
  - destruct (sdsgrowzero_rep s bs n Hr) as (s' & E & Hr'); [lia|]. exists s'. split; [done|]. split; [done|].
    apply Forall_app. split; [done|]. apply Forall_replicate. unfold is_byte. lia.
  - unfold sdstolower. destruct (map_rep s bs tolower Hr) as (b & -> & Hr').
    { eapply Forall_impl; [|exact Hb]. apply tolower_byte. }
    cbn [obind]. eexists. split; [done|]. split; [done|]. apply Forall_fmap. eapply Forall_impl; [|exact Hb]. apply tolower_byte.
  - unfold sdstoupper. destruct (map_rep s bs toupper Hr) as (b & -> & Hr').
    { eapply Forall_impl; [|exact Hb]. apply toupper_byte. }
    cbn [obind]. eexists. split; [done|]. split; [done|]. apply Forall_fmap. eapply Forall_impl; [|exact Hb]. apply toupper_byte.
  - unfold sdsmapchars. rewrite (load_at [] from []) by (rewrite ?app_nil_r; done). cbn [obind].
    rewrite (load_at [] to []) by (rewrite ?app_nil_r; done). cbn [obind].
    assert (Hm : forall c, is_byte c -> is_byte (map_char from to c)) by (intros c; apply map_char_byte; by apply forallb_bytes).
    destruct (map_rep s bs (map_char from to) Hr) as (b & -> & Hr').
    { eapply Forall_impl; [|exact Hb]. exact Hm. }
    cbn [obind]. eexists. split; [done|]. split; [done|]. apply Forall_fmap. eapply Forall_impl; [|exact Hb]. exact Hm.
  - destruct (sdsupdatelen_rep s bs Hr) as (s' & E & Hr'). exists s'. split; [done|]. split; [done|]. clear -Hb.
    induction Hb as [|c bs Hc _ IH]; cbn [until0]; [constructor|]. destruct (c =? 0); [constructor|by constructor].
  - destruct (sdsRemoveFreeSpace_rep s bs Hr) as [Hr' _]. eauto.
  - destruct (sdsclear_rep s bs Hr) as (s' & E & Hr'). exists s'. split; [done|]. split; [done|constructor].
Qed.

Lemma run_sops_spec ops : forall s bs bs', sds_rep s bs -> all_bytes bs -> spec_sops bs ops = Some bs' ->
  exists s', run_sops s ops = Some s' /\ sds_rep s' bs'.
Proof.
  induction ops as [|op ops IH]; intros s bs bs' Hr Hb Hsp; cbn [spec_sops run_sops] in *.
  - injection Hsp as <-. by exists s.
  - destruct (spec_sop bs op) as [bs1|] eqn:E1; [cbn [obind] in Hsp|done].
    destruct (run_sop_spec s bs op bs1 Hr Hb E1) as (s1 & -> & Hr1 & Hb1). cbn [obind]. by apply (IH s1 bs1).
Qed.

(** * Splitting *)

(** Joining with a separator. *)
Fixpoint join_with (sep : bytes) (ts : list bytes) : bytes :=
  match ts with
  | [] => []
  | [t] => t
  | t :: ts => t ++ sep ++ join_with sep ts
  end.

Definition free_of (sep t : bytes) : Prop := forall a b, t <> a ++ sep ++ b.

Lemma join_with_snoc sep ts t : join_with sep (ts ++ [t]) = concat ((fun x => x ++ sep) <$> ts) ++ t.
Proof.
  induction ts as [|x ts IH]; [done|]. rewrite fmap_cons. cbn [app concat]. rewrite <- !app_assoc, <- IH.
  destruct ts; done.
Qed.

Lemma is_sep_spec A rem sep sx : 1 <= msize sep <= msize rem ->
  exists b, is_sep (A ++ rem) (msize A) (sep ++ sx) (msize sep) = Some b /\
    (b = true <-> exists r, rem = sep ++ r).
Proof.
  intros Hs. unfold is_sep. destruct (split_at rem (msize sep)) as (w & r & -> & Hw); [lia|].
  destruct w as [|c w]; [rewrite msize_nil in Hw; lia|]. destruct sep as [|d sep]; [rewrite msize_nil in Hs; lia|].
  rewrite (load8_at A c (w ++ r)) by done. cbn [obind].
  rewrite (load8_at [] d (sep ++ sx)) by done. cbn [obind].
  rewrite (load_at A (c :: w) r), (load_at [] (d :: sep) sx) by done.
  destruct (memcmp_lex (c :: w) (d :: sep) [] []) as (k & Ek & Hk). rewrite !app_nil_r in Ek.
  assert (Hlen : length (c :: w) = length (d :: sep)) by (unfold msize in Hw; lia).
  rewrite Hlen, Nat.min_id in Ek. replace (Z.to_nat (msize (d :: sep))) with (length (d :: sep)) by (unfold msize; lia). cbn [obind]. rewrite Ek. cbn [obind].
  assert (Heq : k = 0 <-> c :: w = d :: sep).
  { rewrite <- lex_eq, <- Hk, Hw. destruct (Z.eqb_spec k 0) as [->|Hne]; [by rewrite Z.compare_refl|].
    rewrite Z.compare_eq_iff. done. }
  assert (Hpre : (exists r0, (c :: w) ++ r = (d :: sep) ++ r0) <-> c :: w = d :: sep).
  { split; [intros [r0 E]; by apply app_inj_1 in E as [? _]|]. intros ->. by exists r. }
  destruct ((msize (d :: sep) =? 1) && (c =? d)) eqn:E1.
  - exists true. split; [done|]. split; [|done]. intros _. bprop. subst. rewrite !msize_cons in *.
    assert (Hz : msize sep = 0 /\ msize w = 0) by lia. destruct Hz as [->%msize_0_nil ->%msize_0_nil]. by exists r.
  - exists (k =? 0). split; [done|]. rewrite Hpre, <- Heq. apply Z.eqb_eq.
Qed.

Lemma sub_sds_rep A t T : msize t < 2 ^ 31 - 1 ->
  exists s, sub_sds (A ++ t ++ T) (msize A) (msize t) = Some s /\ sds_rep s t.
Proof.
  intros Hb. unfold sub_sds. rewrite (load_at A t T) by done. cbn [obind].
  destruct (sdsnewlen_rep t []) as (s & E & Hr & _); [done|]. rewrite app_nil_r in E. by exists s.
Qed.

(** No separator starts in [cur]. *)
Definition unstarted (sep cur rem : bytes) : Prop := forall a b r, cur = a ++ b -> b <> [] -> b ++ rem <> sep ++ r.

Lemma unstarted_snoc sep cur c rem : unstarted sep cur (c :: rem) -> (forall r, c :: rem <> sep ++ r) ->
  unstarted sep (cur ++ [c]) rem.
Proof.
  intros Hcur Hc a b r Eab Hb0. destruct b as [|c' b _] using rev_ind; [done|]. rewrite app_assoc in Eab.
  apply app_inj_tail in Eab as [Eab <-]. rewrite <- app_assoc. cbn [app]. destruct b as [|y b]; [apply Hc|].
  by apply (Hcur a (y :: b) r Eab).
Qed.

Lemma unstarted_free sep cur rem : 1 <= msize sep -> unstarted sep cur rem -> free_of sep cur.
Proof.
  intros Hsep Hcur a b ->. destruct sep as [|d sep]; [rewrite msize_nil in Hsep; lia|].
  apply (Hcur a ((d :: sep) ++ b) (b ++ rem) eq_refl); [done|]. by rewrite <- app_assoc.
Qed.

Lemma unstarted_last sep cur rem : unstarted sep cur rem -> msize rem < msize sep -> free_of sep (cur ++ rem).
Proof.
  intros Hcur Hrem a b E. destruct (Z.le_gt_cases (msize cur) (msize a)) as [Hle|Hgt].
  - apply (f_equal msize) in E. rewrite !msize_app in E. pose proof (msize_nonneg b). lia.
  - destruct (split_at cur (msize a)) as (a' & b' & -> & Ha'); [msolve|].
    rewrite <- app_assoc in E. apply app_inj_1 in E as [-> E]; [|unfold msize in Ha'; lia].
    apply (Hcur a b' b eq_refl); [|done]. intros ->. rewrite app_nil_r in Hgt. lia.
Qed.

(** The loop: [cur] is the token read so far, no separator starts inside it. *)
Lemma split_loop_spec sep sx s : 1 <= msize sep -> msize s < 2 ^ 31 - 1 ->
  forall fuel D cur rem toks slots, s = D ++ cur ++ rem ->
  unstarted sep cur rem ->
  msize toks + 1 <= slots -> 5 <= slots -> (length rem < fuel)%nat ->
  exists toks' slots' ts last, split_loop fuel s (msize s) (sep ++ sx) (msize sep) toks slots (msize D) (msize D + msize cur)
      = Some (toks ++ toks', slots', msize s - msize last) /\ Forall2 sds_rep toks' ts /\
    concat ((fun x => x ++ sep) <$> ts) ++ last = cur ++ rem /\ Forall (free_of sep) ts /\ free_of sep last /\
    msize (toks ++ toks') < slots'.
Proof.
  intros Hsep Hs. induction fuel as [|fuel IH]; intros D cur rem toks slots Es Hcur Hsl Hsl5 Hf; [lia|].
  cbn [split_loop]. assert (Hsz : msize s = msize D + msize cur + msize rem) by (rewrite Es, !msize_app; lia).
  pose proof (msize_nonneg D). pose proof (msize_nonneg cur). pose proof (msize_nonneg rem). pose proof (msize_nonneg toks).
  destruct (Z.ltb_spec (msize D + msize cur) (msize s - (msize sep - 1))) as [Hlt|Hge].
  - set (slots1 := if slots <? msize toks + 2 then slots * 2 else slots).
    assert (Hs1 : msize toks + 2 <= slots1) by (unfold slots1; bcase; lia).
    assert (Hs5 : 5 <= slots1) by (unfold slots1; bcase; lia).
    destruct (is_sep_spec (D ++ cur) rem sep sx) as (b & Eb & Hb); [lia|].
    rewrite <- app_assoc, <- Es, msize_app in Eb. rewrite Eb. cbn [obind]. destruct b.
    + destruct (proj1 Hb eq_refl) as [rem' ->].
      destruct (sub_sds_rep D cur (sep ++ rem')) as (t & Et & Ht); [lia|].
      rewrite <- Es in Et. replace (msize D + msize cur - msize D) with (msize cur) by lia. rewrite Et. cbn [obind].
      unfold add_token. bdecide. cbn [obind].
      rewrite msize_app in Hsz. pose proof (msize_nonneg rem').
      destruct (IH (D ++ cur ++ sep) [] rem' (toks ++ [t]) slots1) as (toks' & slots' & ts & last & E & Hts & Hj & Hfr & Hl & Hroom).
      * by rewrite Es, <- !app_assoc.
      * intros a b r Eab. destruct a, b; done.
      * rewrite msize_app, msize_cons, msize_nil. lia.
      * done.
      * rewrite length_app in Hf. unfold msize in Hsep. lia.
      * rewrite msize_nil, Z.add_0_r, !msize_app in E.
        replace (msize D + msize cur + msize sep - 1 + 1) with (msize D + (msize cur + msize sep)) by lia.
        replace (msize D + msize cur + msize sep) with (msize D + (msize cur + msize sep)) by lia.
        rewrite E. exists (t :: toks'), slots', (cur :: ts), last.
        split; [by rewrite <- app_assoc|]. split; [by constructor|]. split.
        { rewrite fmap_cons. cbn [concat app]. rewrite <- !app_assoc, Hj. done. }
        split; [constructor; [by eapply unstarted_free|done]|]. split; [done|].
        by rewrite <- app_assoc in Hroom.
    + destruct rem as [|c rem]; [rewrite msize_nil in *; lia|].
      destruct (IH D (cur ++ [c]) rem toks slots1) as (toks' & slots' & ts & last & E & Hts & Hj & Hfr & Hl & Hroom).
      * by rewrite Es, <- !app_assoc.
      * apply unstarted_snoc; [done|]. intros r Er. destruct Hb as [_ Hb]. specialize (Hb (ex_intro _ r Er)). done.
      * lia.
      * done.
      * cbn in Hf. lia.
      * rewrite msize_app, msize_cons, msize_nil, Z.add_0_r in E. rewrite <- Z.add_assoc. rewrite E.
        exists toks', slots', ts, last. split; [done|]. split; [done|]. split; [by rewrite Hj, <- app_assoc|done].
  - exists [], slots, [], (cur ++ rem). rewrite app_nil_r, msize_app. split; [do 2 f_equal; lia|].
    split; [constructor|]. split; [done|]. split; [constructor|]. split; [|lia]. apply unstarted_last; [done|lia].
Qed.

Lemma sdssplitlen_rep s sep sx : 1 <= msize sep -> 0 < msize s < 2 ^ 31 - 1 ->
  exists toks ts, sdssplitlen s (msize s) (sep ++ sx) (msize sep) = Some (Some toks) /\ Forall2 sds_rep toks ts /\
    join_with sep ts = s /\ Forall (free_of sep) ts.
Proof.
  intros Hsep Hs. unfold sdssplitlen. bdecide.
  destruct (split_loop_spec sep sx s Hsep ltac:(lia) (S (Z.to_nat (msize s))) [] [] s [] 5)
    as (toks & slots & ts & last & E & Hts & Hj & Hfr & Hl & Hroom).
  { done. }
  { intros a b r E. by destruct a, b. }
  { rewrite msize_nil. lia. }
  { lia. }
  { unfold msize. lia. }
  rewrite !msize_nil, Z.add_0_r in E. cbn [app] in E, Hroom, Hj. rewrite E. cbn [obind].
  destruct (sub_sds_rep (concat ((fun x => x ++ sep) <$> ts)) last []) as (t & Et & Ht).
  { apply (f_equal msize) in Hj. rewrite msize_app in Hj. pose proof (msize_nonneg (concat ((fun x => x ++ sep) <$> ts))). lia. }
  rewrite app_nil_r, Hj in Et. replace (msize s - (msize s - msize last)) with (msize last) by lia.
  replace (msize s - msize last) with (msize (concat ((fun x => x ++ sep) <$> ts))).
  2: { apply (f_equal msize) in Hj. rewrite msize_app in Hj. lia. }
  rewrite Et. cbn [obind]. unfold add_token. bdecide. cbn [obind].
  exists (toks ++ [t]), (ts ++ [last]). split; [done|]. split; [by apply Forall2_app; [|repeat constructor]|].
  split; [by rewrite join_with_snoc|]. apply Forall_app. split; [done|]. by repeat constructor.
Qed.

(** * Joining *)

Lemma join_loop_rep sep : cstring sep -> forall ts s bs, sds_rep s bs -> Forall cstring ts ->
  msize bs + msize (join_with sep ts) < 2 ^ 30 ->
  exists s', join_loop s ((fun t => t ++ [0]) <$> ts) (sep ++ [0]) = Some s' /\ sds_rep s' (bs ++ join_with sep ts).
Proof.
  intros Hsep. induction ts as [|t ts IH]; intros s bs Hr Hts Hb; rewrite ?fmap_cons; cbn [fmap list_fmap join_loop].
  - exists s. by rewrite app_nil_r.
  - apply list.Forall_cons_1 in Hts as [Ht Hts].
    assert (Hsz : msize t <= msize (join_with sep (t :: ts))).
    { destruct ts; cbn [join_with]; [lia|]. rewrite !msize_app. msolve. }
    destruct (sdscat_rep s bs t [] Hr Ht) as (s1 & -> & Hr1); [lia|]. cbn [obind].
    destruct ts as [|t' ts].
    + exists s1. done.
    + cbn [fmap list_fmap]. change (join_with sep (t :: t' :: ts)) with (t ++ sep ++ join_with sep (t' :: ts)) in Hb, Hsz |- *.
      rewrite !msize_app in Hb, Hsz. pose proof (msize_nonneg (join_with sep (t' :: ts))). pose proof (msize_nonneg sep).
      destruct (sdscat_rep s1 (bs ++ t) sep [] Hr1 Hsep) as (s2 & -> & Hr2); [rewrite msize_app; lia|]. cbn [obind].
      destruct (IH s2 ((bs ++ t) ++ sep) Hr2 Hts) as (s3 & E3 & Hr3); [rewrite !msize_app; lia|].
      exists s3. split; [exact E3|]. by rewrite <- !app_assoc in Hr3.
Qed.

End Histories.

(** * The claims *)

(** Example data. *)
Definition example_sops : list sop :=
  [SCat [32; 32; 72; 105; 33; 0]; STrim [32]; SLower; SPrintf [58; 49; 50]; SRange 1 (-2); SMap [105; 58] [73; 59];
   SGrow 7; SUpdateLen; SRead 100 [122; 122]; SShrink; SUpper; SCopy (replicate 20 97); SRange (-3) 100; SCat [98]].



(** C25. What [sdscatrepr] quotes, [sdssplitargs] reads back: a line of quoted
    byte strings, separated by blanks, is parsed without reading past its
    terminator into exactly these strings. *)
Theorem sds_args_roundtrip `{Host} (items : list (bytes * bytes)) (tail : bytes) :
  Forall (fun i => Forall (fun c => isspace c = true) i.1 /\ Forall is_byte i.2 /\ 4 * msize i.2 < 2 ^ 30 - 8) items ->
  Forall (fun c => isspace c = true) tail -> Forall (fun i => i.1 <> []) (list.tail items) ->
  Forall (fun i => exists e s, sdsempty = Some e /\ sdscatrepr e i.2 (msize i.2) = Some s /\ sds_rep s (quoted i.2)) items /\
  exists toks, sdssplitargs (line_of items tail) = Some (Some toks) /\ Forall2 sds_rep toks (snd <$> items).
Proof.
  intros Hi Ht Hne. split.
  - eapply Forall_impl; [|exact Hi]. intros [b a] (_ & Ha & Hs). cbn [fst snd] in *.
    destruct sdsempty_rep as (e & Ee & Hr & _). destruct (sdscatrepr_rep e [] a [] Hr Ha) as (s & E & Hs'); [rewrite msize_nil; lia|].
    rewrite app_nil_r in E. by exists e, s.
  - apply sdssplitargs_line; [|done]. split; [|done]. eapply Forall_impl; [|exact Hi]. intros [b a] (Hb & Ha & Hs). cbn [fst snd] in *.
    pose proof (msize_nonneg a). split; [done|]. split; [done|lia].
Qed.

Lemma sds_args_roundtrip_witness :
  Forall (fun i => exists e s, @sdsempty le_host = Some e /\ @sdscatrepr le_host e i.2 (msize i.2) = Some s /\
    sds_rep s (quoted i.2)) [([], [34; 255; 97]); ([32; 9], [])] /\
  exists toks, @sdssplitargs le_host (line_of [([], [34; 255; 97]); ([32; 9], [])] [10]) = Some (Some toks) /\
    Forall2 sds_rep toks [[34; 255; 97]; []].
Proof.
  apply (@sds_args_roundtrip le_host [([], [34; 255; 97]); ([32; 9], [])] [10]).
  - repeat constructor; cbn; try reflexivity; discriminate.
  - repeat constructor.
  - repeat constructor. discriminate.
Defined.

(** [sdssplitlen] cuts a string at every occurrence of the separator,
    staying inside the string and the token array: joining the tokens gives the
    string back and no token contains the separator; [sdsjoin] of C strings is
    that join. *)
Theorem sds_split_join `{Host} (s sep : bytes) (ts : list bytes) :
  1 <= msize sep -> 0 < msize s < 2 ^ 31 - 1 -> Forall (fun c => c <> 0) sep ->
  Forall (Forall (fun c => c <> 0)) ts -> msize (join_with sep ts) < 2 ^ 30 ->
  (exists toks us, sdssplitlen s (msize s) sep (msize sep) = Some (Some toks) /\ Forall2 sds_rep toks us /\
     join_with sep us = s /\ Forall (free_of sep) us) /\
  exists j, sdsjoin ((fun t => t ++ [0]) <$> ts) (sep ++ [0]) = Some j /\ sds_rep j (join_with sep ts).
Proof.
  intros Hsep Hs Hc Hts Hb. split.
  - destruct (sdssplitlen_rep s sep [] Hsep Hs) as (toks & us & E & Hr). rewrite app_nil_r in E. by exists toks, us.
  - unfold sdsjoin. destruct sdsempty_rep as (e & -> & Hr & _). cbn [obind].
    by apply (join_loop_rep sep Hc ts e [] Hr Hts).
Qed.

Lemma sds_split_join_witness :
  (exists toks us, @sdssplitlen le_host [97; 45; 45; 45; 98] (msize [97; 45; 45; 45; 98]) [45; 45] (msize [45; 45])
       = Some (Some toks) /\ Forall2 sds_rep toks us /\
     join_with [45; 45] us = [97; 45; 45; 45; 98] /\ Forall (free_of [45; 45]) us) /\
  exists j, @sdsjoin le_host ((fun t => t ++ [0]) <$> [[97]; []; [98; 99]]) ([45; 45] ++ [0]) = Some j /\
    sds_rep j (join_with [45; 45] [[97]; []; [98; 99]]).
Proof.
  apply (@sds_split_join le_host [97; 45; 45; 45; 98] [45; 45] [[97]; []; [98; 99]]).
  - cbn. discriminate.
  - split; reflexivity.
  - repeat constructor; discriminate.
  - repeat constructor; discriminate.
  - reflexivity.
Defined.

(** [sdstrim] also removes zero bytes at the ends of a string, which are
    not characters of the set: [strchr] finds the terminator of the set. *)
Theorem sds_trim_removes_zeros :
  (s <- @sdsnewlen le_host (Some [0; 104; 105; 0]) 4;; s <- @sdstrim s [32];; Some (len s, buf s))
    = Some (2, [104; 105; 0; 0; 0]).
Proof. vm_compute. reflexivity. Qed.
