(* ===== verification/Glob.v ===== *)
(** Glob patterns: [stringmatchlen] of [util.c], against the meaning of a
    parsed pattern. *)

From S2P Require Import Prelude.
From S2P Require Import Util.
From S2P Require Import Sds.
From S2P Require Import SdsRep.

(** * The matcher

    [P] and [T] are the blocks of the pattern and of the string, [p] and [q]
    positions in them, [plen] and [qlen] the remaining lengths ([int]s). *)

(** Comparison of two characters, as [tolower] of both without case. *)
Definition same_char (nocase : bool) (a b : Z) : bool :=
  if nocase then tolower a =? tolower b else a =? b.

(** Whether [c] is in the range of two characters, in either order; the
    characters are converted to [int]s. *)
Definition char_in_range (nocase : bool) (a b c : Z) : bool :=
  let start := sint 8 a in
  let stop := sint 8 b in
  let c := sint 8 c in
  let '(start, stop) := if stop <? start then (stop, start) else (start, stop) in
  let '(start, stop, c) := if nocase then (tolower start, tolower stop, tolower c) else (start, stop, c) in
  (start <=? c) && (c <=? stop).

(** [while(1) { ... }] of a bracket expression: the position, the remaining
    length and [match] after the loop. *)
Fixpoint class_loop (fuel : nat) (P T : bytes) (nocase : bool) (p plen q : Z) (mt : bool)
    : option (Z * Z * bool) :=
  match fuel with
  | O => None
  | S fuel =>
    c <- load8 P p;;
    if c =? 92 then
      let p := p + 1 in
      let plen := plen - 1 in
      c <- load8 P p;;
      d <- load8 T q;;
      class_loop fuel P T nocase (p + 1) (plen - 1) q (mt || (c =? d))
    else if c =? 93 then Some (p, plen, mt)
    else if plen =? 0 then Some (p - 1, plen + 1, mt)
    else
      n <- load8 P (p + 1);;
      if (n =? 45) && (3 <=? plen) then
        e <- load8 P (p + 2);;
        d <- load8 T q;;
        class_loop fuel P T nocase (p + 2 + 1) (plen - 2 - 1) q (mt || char_in_range nocase c e d)
      else
        d <- load8 T q;;
        class_loop fuel P T nocase (p + 1) (plen - 1) q (mt || same_char nocase c d)
  end.

(** [while (pattern[1] == '*') { pattern++; patternLen--; }] *)
Fixpoint skip_stars (fuel : nat) (P : bytes) (p plen : Z) : option (Z * Z) :=
  match fuel with
  | O => None
  | S fuel => c <- load8 P (p + 1);; if c =? 42 then skip_stars fuel P (p + 1) (plen - 1) else Some (p, plen)
  end.

(** [while( *pattern == '*') { pattern++; patternLen--; }] at the end of the
    string. *)
Fixpoint trailing_stars (fuel : nat) (P : bytes) (p plen : Z) : option (Z * Z) :=
  match fuel with
  | O => None
  | S fuel => c <- load8 P p;; if c =? 42 then trailing_stars fuel P (p + 1) (plen - 1) else Some (p, plen)
  end.

(** One iteration of [while(patternLen)] for an element other than [*]: [None]
    inside is [return 0]. *)
Definition match_one (P T : bytes) (nocase : bool) (p plen q qlen : Z) : option (option (Z * Z * Z * Z)) :=
  c <- load8 P p;;
  if c =? 63 then
    if qlen =? 0 then Some None else Some (Some (p, plen, q + 1, qlen - 1))
  else if c =? 91 then
    let p := p + 1 in
    let plen := plen - 1 in
    c <- load8 P p;;
    let neg := c =? 94 in
    let '(p, plen) := if neg then (p + 1, plen - 1) else (p, plen) in
    ' (p, plen, mt) <- class_loop (S (length P)) P T nocase p plen q false;;
    let mt := if neg then negb mt else mt in
    if negb mt then Some None else Some (Some (p, plen, q + 1, qlen - 1))
  else
    let '(p, plen) := if (c =? 92) && (2 <=? plen) then (p + 1, plen - 1) else (p, plen) in
    c <- load8 P p;;
    d <- load8 T q;;
    if negb (same_char nocase c d) then Some None else Some (Some (p, plen, q + 1, qlen - 1)).

Fixpoint match_loop (fuel : nat) (P T : bytes) (nocase : bool) (p plen q qlen : Z) : option bool :=
  match fuel with
  | O => None
  | S fuel =>
    if plen =? 0 then Some ((plen =? 0) && (qlen =? 0)) else
    c <- load8 P p;;
    if c =? 42 then
      ' (p, plen) <- skip_stars (S (length P)) P p plen;;
      if plen =? 1 then Some true else
      (fix star (n : nat) (q qlen : Z) : option bool :=
         match n with
         | O => None
         | S n =>
           if qlen =? 0 then Some false else
           r <- match_loop fuel P T nocase (p + 1) (plen - 1) q qlen;;
           if (r : bool) then Some true else star n (q + 1) (qlen - 1)
         end) (S (length T)) q qlen
    else
      r <- match_one P T nocase p plen q qlen;;
      match r with
      | None => Some false
      | Some (p, plen, q, qlen) =>
        let p := p + 1 in
        let plen := plen - 1 in
        if qlen =? 0 then
          ' (p, plen) <- trailing_stars (S (length P)) P p plen;;
          Some ((plen =? 0) && (qlen =? 0))
        else match_loop fuel P T nocase p plen q qlen
      end
  end.

Definition stringmatchlen (pattern : bytes) (patternLen : Z) (string : bytes) (stringLen : Z) (nocase : bool)
    : option bool :=
  match_loop (S (length pattern)) pattern string nocase 0 patternLen 0 stringLen.

Definition stringmatch (pattern string : bytes) (nocase : bool) : option bool :=
  pl <- strlen pattern;;
  sl <- strlen string;;
  stringmatchlen pattern pl string sl nocase.

(** * The meaning of patterns *)

Inductive class_item :=
  | CChar (c : Z)
  | CEsc (c : Z)
  | CRange (a b : Z).

Inductive item :=
  | Star
  | Any
  | Lit (c : Z)
  | Esc (c : Z)
  | Class (neg : bool) (l : list class_item).

Definition class_item_bytes (i : class_item) : bytes :=
  match i with CChar c => [c] | CEsc c => [92; c] | CRange a b => [a; 45; b] end.

Definition item_bytes (i : item) : bytes :=
  match i with
  | Star => [42]
  | Any => [63]
  | Lit c => [c]
  | Esc c => [92; c]
  | Class neg l => 91 :: (if neg then [94] else []) ++ concat (class_item_bytes <$> l) ++ [93]
  end.

Definition pattern_bytes (ps : list item) : bytes := concat (item_bytes <$> ps).

Definition class_item_match (nocase : bool) (d : Z) (i : class_item) : bool :=
  match i with
  | CChar c => same_char nocase c d
  | CEsc c => c =? d
  | CRange a b => char_in_range nocase a b d
  end.

Definition class_match (nocase neg : bool) (l : list class_item) (d : Z) : bool :=
  xorb neg (existsb (class_item_match nocase d) l).

Fixpoint gmatch (nocase : bool) (ps : list item) (s : bytes) : bool :=
  match ps with
  | [] => match s with [] => true | _ => false end
  | Star :: ps =>
    (fix star (s : bytes) : bool :=
       gmatch nocase ps s || match s with [] => false | _ :: s => star s end) s
  | Any :: ps => match s with [] => false | _ :: s => gmatch nocase ps s end
  | Lit c :: ps | Esc c :: ps =>
    match s with [] => false | d :: s => same_char nocase c d && gmatch nocase ps s end
  | Class neg l :: ps =>
    match s with [] => false | d :: s => class_match nocase neg l d && gmatch nocase ps s end
  end.

(** Notations a parser reads back: a literal is not special, a character of a
    class is not special and not followed by a dash, and the first one of a
    positive class is not a caret. *)
Definition starts_with (c : Z) (bs : bytes) : bool := match bs with [] => false | b :: _ => b =? c end.

Fixpoint class_wf (l : list class_item) : bool :=
  match l with
  | [] => true
  | CChar c :: l => negb (c =? 92) && negb (c =? 93) && negb (starts_with 45 (concat (class_item_bytes <$> l))) && class_wf l
  | CEsc _ :: l => class_wf l
  | CRange a _ :: l => negb (a =? 92) && negb (a =? 93) && class_wf l
  end.

Definition item_wf (i : item) : bool :=
  match i with
  | Lit c => negb (existsb (Z.eqb c) [42; 63; 91; 92])
  | Class neg l => class_wf l && (neg || negb (starts_with 94 (concat (class_item_bytes <$> l))))
  | _ => true
  end.

(** * Bracket expressions *)

Lemma class_loop_spec nocase B d T' : forall l fuel A R plen mt, class_wf l = true ->
  msize (concat (class_item_bytes <$> l)) + 1 <= plen -> (length l < fuel)%nat ->
  class_loop fuel (A ++ concat (class_item_bytes <$> l) ++ 93 :: R) (B ++ d :: T') nocase (msize A) plen (msize B) mt
  = Some (msize A + msize (concat (class_item_bytes <$> l)), plen - msize (concat (class_item_bytes <$> l)),
          mt || existsb (class_item_match nocase d) l).
Proof.
  induction l as [|i l IH]; intros [|fuel] A R plen mt Hwf Hp Hf; cbn in Hf; try lia; cbn [class_loop].
  { cbn [fmap list_fmap concat app existsb]. rewrite (load8_at A 93 R) by done. cbn [obind]. bdecide.
    rewrite msize_nil, Z.add_0_r, Z.sub_0_r, orb_false_r. done. }
  rewrite fmap_cons in Hp |- *. cbn [concat existsb] in *. rewrite msize_app in Hp.
  set (C := concat (class_item_bytes <$> l)) in *. pose proof (msize_nonneg C).
  (* the rest of the class, after the bytes [bs] of the first element *)
  assert (Hnext : forall bs mt', bs = class_item_bytes i -> class_wf l = true ->
    class_loop fuel (A ++ (bs ++ C) ++ 93 :: R) (B ++ d :: T') nocase (msize A + msize bs) (plen - msize bs) (msize B) mt'
    = Some (msize A + msize (bs ++ C), plen - msize (bs ++ C), mt' || existsb (class_item_match nocase d) l)).
  { intros bs mt' Ebs Hl. specialize (IH fuel (A ++ bs) R (plen - msize bs) mt' Hl). fold C in IH.
    rewrite <- Ebs in Hp. rewrite <- !app_assoc in IH |- *. rewrite !msize_app in *. rewrite IH by lia. do 3 f_equal; lia. }
  destruct i as [c|c|a b]; cbn [class_item_bytes class_wf class_item_match] in *; bprop; cbn [app] in *.
  - specialize (Hnext [c] (mt || same_char nocase c d) eq_refl). change (msize [c]) with 1 in *. cbn [app] in Hnext.
    rewrite (load8_at A c (C ++ 93 :: R)) by done. cbn [obind]. bdecide.
    assert (Hn : exists n N, C ++ 93 :: R = n :: N /\ n <> 45).
    { unfold C in *. destruct (concat _) as [|n N]; [by exists 93, R|]. exists n, (N ++ 93 :: R). split; [done|]. cbn in *. bprop. done. }
    destruct Hn as (n & N & EN & Hn). rewrite (load8_at (A ++ [c]) n N).
    2: { by rewrite EN, <- app_assoc. }
    2: { by rewrite msize_app. }
    cbn [obind]. bdecide. rewrite (load8_at B d T') by done. cbn [obind].
    rewrite Hnext by done. by rewrite orb_assoc.
  - specialize (Hnext [92; c] (mt || (c =? d)) eq_refl). change (msize [92; c]) with 2 in *. cbn [app] in Hnext.
    rewrite (load8_at A 92 (c :: C ++ 93 :: R)) by done. cbn [obind]. bdecide.
    rewrite (load8_at (A ++ [92]) c (C ++ 93 :: R)) by (rewrite <- ?app_assoc, ?msize_app; done). cbn [obind].
    rewrite (load8_at B d T') by done. cbn [obind].
    replace (msize A + 1 + 1) with (msize A + 2) by lia. replace (plen - 1 - 1) with (plen - 2) by lia.
    rewrite Hnext by done. by rewrite orb_assoc.
  - specialize (Hnext [a; 45; b] (mt || char_in_range nocase a b d) eq_refl). change (msize [a; 45; b]) with 3 in *.
    cbn [app] in Hnext. rewrite (load8_at A a (45 :: b :: C ++ 93 :: R)) by done. cbn [obind]. bdecide.
    rewrite (load8_at (A ++ [a]) 45 (b :: C ++ 93 :: R)) by (rewrite <- ?app_assoc, ?msize_app; done). cbn [obind].
    bdecide. rewrite (load8_at (A ++ [a; 45]) b (C ++ 93 :: R)) by (rewrite <- ?app_assoc, ?msize_app; done). cbn [obind].
    rewrite (load8_at B d T') by done. cbn [obind].
    replace (msize A + 2 + 1) with (msize A + 3) by lia. replace (plen - 2 - 1) with (plen - 3) by lia.
    rewrite Hnext by done. by rewrite orb_assoc.
Qed.

(** * One element *)

Definition item_match (nocase : bool) (i : item) (d : Z) : bool :=
  match i with
  | Star => false
  | Any => true
  | Lit c | Esc c => same_char nocase c d
  | Class neg l => class_match nocase neg l d
  end.

Lemma gmatch_cons nocase i ps d s : i <> Star ->
  gmatch nocase (i :: ps) (d :: s) = item_match nocase i d && gmatch nocase ps s.
Proof. by destruct i. Qed.

(** A bracket expression at the head of a pattern. *)
Lemma match_class_spec nocase neg l A R B d T' plen qlen : item_wf (Class neg l) = true ->
  msize (item_bytes (Class neg l)) <= plen ->
  match_one (A ++ item_bytes (Class neg l) ++ R) (B ++ d :: T') nocase (msize A) plen (msize B) qlen
  = Some (if class_match nocase neg l d
          then Some (msize A + msize (item_bytes (Class neg l)) - 1, plen - msize (item_bytes (Class neg l)) + 1, msize B + 1, qlen - 1)
          else None).
Proof.
  intros Hwf Hp. unfold match_one. cbn [item_bytes item_wf] in *. cbn [app].
  set (C := concat (class_item_bytes <$> l)) in *. bprop. pose proof (msize_nonneg C).
  assert (Hcl : forall A' plen', msize A' + msize C + 1 <= msize A' + plen' ->
    class_loop (S (length (A' ++ C ++ 93 :: R))) (A' ++ C ++ 93 :: R) (B ++ d :: T') nocase (msize A') plen' (msize B) false
    = Some (msize A' + msize C, plen' - msize C, existsb (class_item_match nocase d) l)).
  { intros A' plen' Hpl. apply (class_loop_spec nocase B d T' l _ A' R plen' false); [done|fold C; lia|].
    assert (Hl : (length l <= length C)%nat).
    { unfold C. clear. induction l as [|i l IH]; [done|]. rewrite fmap_cons. cbn [concat length]. rewrite length_app.
      destruct i; cbn; lia. }
    rewrite !length_app. lia. }
  destruct neg; cbn [app] in *.
  + specialize (Hcl (A ++ [91; 94]) (plen - 2)). rewrite msize_app, <- !app_assoc in Hcl. cbn [app] in Hcl.
    change (msize [91; 94]) with 2 in Hcl.
    rewrite <- !app_assoc. cbn [app]. rewrite !msize_cons, msize_app, msize_cons, msize_nil in *.
    rewrite (load8_at A 91 (94 :: C ++ 93 :: R)) by done. cbn [obind]. bdecide.
    rewrite (load8_at (A ++ [91]) 94 (C ++ 93 :: R)) by (rewrite <- ?app_assoc, ?msize_app; done). cbn [obind]. bdecide.
    replace (msize A + 1 + 1) with (msize A + 2) by lia.
    replace (plen - 1 - 1) with (plen - 2) by lia. rewrite Hcl by lia. cbn [obind]. unfold class_match. cbn [xorb].
    destruct (existsb (class_item_match nocase d) l); cbn [negb xorb]; [done|]. do 6 f_equal; lia.
  + specialize (Hcl (A ++ [91]) (plen - 1)). rewrite msize_app, <- !app_assoc in Hcl. cbn [app] in Hcl.
    change (msize [91]) with 1 in Hcl.
    rewrite <- !app_assoc. cbn [app]. rewrite !msize_cons, msize_app, msize_cons, msize_nil in *.
    rewrite (load8_at A 91 (C ++ 93 :: R)) by done. cbn [obind]. bdecide.
    assert (Hn : exists n N, C ++ 93 :: R = n :: N /\ n <> 94).
    { unfold C in *. destruct (concat _) as [|n N]; [by exists 93, R|]. exists n, (N ++ 93 :: R). split; [done|]. cbn in *. bprop. done. }
    destruct Hn as (n & N & EN & Hn). rewrite (load8_at (A ++ [91]) n N).
    2: { by rewrite EN, <- app_assoc. }
    2: { by rewrite msize_app. }
    cbn [obind]. bdecide. rewrite Hcl by lia. cbn [obind].
    unfold class_match. cbn [xorb]. destruct (existsb (class_item_match nocase d) l); cbn [negb xorb]; [|done]. do 6 f_equal; lia.
Qed.

(** An element other than a star at the head of a pattern, on a string that
    is not empty. *)
Lemma match_one_spec nocase i A R B d T' plen qlen : i <> Star -> item_wf i = true ->
  msize (item_bytes i) <= plen -> qlen <> 0 ->
  match_one (A ++ item_bytes i ++ R) (B ++ d :: T') nocase (msize A) plen (msize B) qlen
  = Some (if item_match nocase i d
          then Some (msize A + msize (item_bytes i) - 1, plen - msize (item_bytes i) + 1, msize B + 1, qlen - 1) else None).
Proof.
  intros Hi Hwf Hp Hq.
  assert (Hlit : forall c, (if negb (same_char nocase c d) then Some None
      else Some (Some (msize A, plen, msize B + 1, qlen - 1))) =
    Some (if same_char nocase c d then Some (msize A + 1 - 1, plen - 1 + 1, msize B + 1, qlen - 1) else None)).
  { intros c. replace (msize A + 1 - 1) with (msize A) by lia. replace (plen - 1 + 1) with plen by lia.
    by destruct (same_char nocase c d). }
  destruct i as [| |c|c|neg l]; [done| | | |]; cbn [item_match]; [..|by apply match_class_spec];
    unfold match_one; cbn [item_bytes item_wf] in *; cbn [app].
  - rewrite (load8_at A 63 R) by done. cbn [obind]. bdecide. change (msize [63]) with 1. do 6 f_equal; lia.
  - rewrite (load8_at A c R) by done. cbn [obind]. cbn [existsb] in Hwf. bprop. bdecide. cbn [obind].
    rewrite (load8_at A c R), (load8_at B d T') by done. cbn [obind]. apply Hlit.
  - rewrite (load8_at A 92 (c :: R)) by done. cbn [obind]. change (msize [92; c]) with 2 in *. bdecide.
    rewrite (load8_at (A ++ [92]) c R) by (rewrite <- ?app_assoc, ?msize_app; done). cbn [obind].
    rewrite (load8_at B d T') by done. cbn [obind].
    replace (msize A + 2 - 1) with (msize A + 1) by lia. replace (plen - 2 + 1) with (plen - 1) by lia.
    by destruct (same_char nocase c d).
Qed.

(** * Stars *)

Definition is_star (i : item) : bool := match i with Star => true | _ => false end.

(** A list of elements is some stars and a list that starts otherwise. *)
Lemma stars_split ps : exists k ps', ps = replicate k Star ++ ps' /\ match ps' with Star :: _ => False | _ => True end.
Proof.
  induction ps as [|i ps (k & ps' & -> & Hps)]; [by exists 0%nat, []|].
  destruct i eqn:Ei; [by exists (S k), ps'|..]; by exists 0%nat, (i :: replicate k Star ++ ps'); subst.
Qed.

Definition suffix_match (nocase : bool) (ps : list item) : bytes -> bool :=
  fix star (s : bytes) : bool := gmatch nocase ps s || match s with [] => false | _ :: s => star s end.

Lemma gmatch_star nocase ps s : gmatch nocase (Star :: ps) s = suffix_match nocase ps s.
Proof. done. Qed.

Lemma suffix_match_star nocase ps s : suffix_match nocase (Star :: ps) s = suffix_match nocase ps s.
Proof.
  induction s as [|c s IH]; cbn [suffix_match]; rewrite gmatch_star; [by rewrite orb_false_r|].
  fold (suffix_match nocase (Star :: ps)). rewrite IH. cbn [suffix_match]. fold (suffix_match nocase ps).
  by rewrite <- orb_assoc, orb_diag.
Qed.

Lemma gmatch_stars nocase k ps s : gmatch nocase (replicate (S k) Star ++ ps) s = suffix_match nocase ps s.
Proof.
  induction k as [|k IH]; [done|]. change (replicate (S (S k)) Star ++ ps) with (Star :: replicate (S k) Star ++ ps).
  rewrite gmatch_star. destruct k as [|k]; [apply suffix_match_star|].
  change (replicate (S (S k)) Star ++ ps) with (Star :: replicate (S k) Star ++ ps). by rewrite suffix_match_star, <- gmatch_star.
Qed.

Lemma suffix_match_nil nocase s : suffix_match nocase [] s = true.
Proof. induction s as [|c s IH]; [done|]. exact IH. Qed.

(** Only stars match the empty string. *)
Lemma gmatch_empty nocase k ps : match ps with Star :: _ => False | _ => True end ->
  gmatch nocase (replicate k Star ++ ps) [] = match ps with [] => true | _ => false end.
Proof.
  intros Hps. assert (H0 : gmatch nocase ps [] = match ps with [] => true | _ => false end) by (by destruct ps as [|[]]).
  destruct k as [|k]; [done|]. rewrite gmatch_stars. cbn [suffix_match]. by rewrite H0, orb_false_r.
Qed.

Lemma pattern_bytes_stars k ps : pattern_bytes (replicate k Star ++ ps) = replicate k 42 ++ pattern_bytes ps.
Proof. unfold pattern_bytes. induction k as [|k IH]; [done|]. cbn. by rewrite IH. Qed.

(** The byte after some stars is not a star. *)
Lemma after_stars ps : match ps with Star :: _ => False | _ => True end -> Forall (fun i => item_wf i = true) ps ->
  exists n N, pattern_bytes ps ++ [0] = n :: N /\ n <> 42.
Proof.
  intros Hps Hwf. destruct ps as [|i ps]; [by exists 0, []|]. apply list.Forall_cons_1 in Hwf as [Hi _].
  unfold pattern_bytes. rewrite fmap_cons. cbn [concat]. destruct i as [| |c|c|neg l]; [done|..]; cbn [item_bytes app];
    eexists _, _; (split; [done|]); try done. cbn in Hi. bprop. done.
Qed.

Lemma skip_stars_spec : forall k fuel A n N plen, n <> 42 -> (k < fuel)%nat ->
  skip_stars fuel (A ++ replicate (S k) 42 ++ n :: N) (msize A) plen = Some (msize A + Z.of_nat k, plen - Z.of_nat k).
Proof.
  induction k as [|k IH]; intros [|fuel] A n N plen Hn Hf; try lia; cbn [skip_stars].
  - cbn [replicate app]. rewrite (load8_at (A ++ [42]) n N) by (rewrite <- ?app_assoc, ?msize_app; done). cbn [obind].
    bdecide. do 2 f_equal; lia.
  - rewrite (load8_at (A ++ [42]) 42 (replicate k 42 ++ n :: N)) by (rewrite <- ?app_assoc, ?msize_app; done). cbn [obind].
    bdecide. specialize (IH fuel (A ++ [42]) n N (plen - 1) Hn). rewrite <- app_assoc, msize_app in IH.
    change (msize [42]) with 1 in IH. cbn [app] in IH. cbn [replicate app] in IH |- *. rewrite IH by lia. do 2 f_equal; lia.
Qed.

Lemma trailing_stars_spec : forall k fuel A n N plen, n <> 42 -> (k < fuel)%nat ->
  trailing_stars fuel (A ++ replicate k 42 ++ n :: N) (msize A) plen = Some (msize A + Z.of_nat k, plen - Z.of_nat k).
Proof.
  induction k as [|k IH]; intros [|fuel] A n N plen Hn Hf; try lia; cbn [trailing_stars].
  - cbn [replicate app]. rewrite (load8_at A n N) by done. cbn [obind]. bdecide. do 2 f_equal; lia.
  - cbn [replicate app]. rewrite (load8_at A 42 (replicate k 42 ++ n :: N)) by done. cbn [obind]. bdecide.
    specialize (IH fuel (A ++ [42]) n N (plen - 1) Hn). rewrite <- app_assoc, msize_app in IH.
    change (msize [42]) with 1 in IH. cbn [app] in IH. rewrite IH by lia. do 2 f_equal; lia.
Qed.

(** The loop over the suffixes of the string, for a rest of the pattern that
    does not match the empty string. *)
Lemma star_spec nocase ps T (F : Z -> Z -> option bool) :
  (forall B s, T = B ++ s ++ [0] -> s <> [] -> F (msize B) (msize s) = Some (gmatch nocase ps s)) ->
  gmatch nocase ps [] = false ->
  forall s n B, T = B ++ s ++ [0] -> (length s < n)%nat ->
  (fix star (n : nat) (q qlen : Z) : option bool :=
     match n with
     | O => None
     | S n =>
       if qlen =? 0 then Some false else
       r <- F q qlen;;
       if (r : bool) then Some true else star n (q + 1) (qlen - 1)
     end) n (msize B) (msize s) = Some (suffix_match nocase ps s).
Proof.
  intros HF Hnil s. induction s as [|c s IH]; intros [|n] B HT Hn; cbn in Hn; try lia.
  - change (msize []) with 0. bdecide. cbn [suffix_match]. by rewrite Hnil.
  - rewrite (HF B (c :: s)) by done. rewrite msize_cons. pose proof (msize_nonneg s). bdecide. cbn [obind suffix_match].
    fold (suffix_match nocase ps). destruct (gmatch nocase ps (c :: s)); [done|].
    specialize (IH n (B ++ [c])). rewrite msize_app in IH. change (msize [c]) with 1 in IH.
    replace (1 + msize s - 1) with (msize s) by lia. apply IH; [|lia]. by rewrite HT, <- app_assoc.
Qed.

(** Patterns whose first element never accepts the terminator of the string. *)
Definition start_ok (ps : list item) : bool :=
  match ps with
  | Class _ _ :: _ => false
  | Lit c :: _ | Esc c :: _ => negb (c =? 0)
  | _ => true
  end.

Lemma same_char_0 nocase c : c <> 0 -> same_char nocase c 0 = false.
Proof. intros Hc. unfold same_char, tolower. destruct nocase; [|by bdecide]. repeat bcase; lia. Qed.

(** A first element other than a star refuses the empty string. *)
Lemma match_one_empty nocase i A R B plen : i <> Star -> item_wf i = true -> start_ok [i] = true ->
  msize (item_bytes i) <= plen ->
  match_one (A ++ item_bytes i ++ R) (B ++ [0]) nocase (msize A) plen (msize B) 0 = Some None.
Proof.
  intros Hi Hwf Hs Hp. unfold match_one. destruct i as [| |c|c|neg l]; [done| | | |done]; cbn [item_bytes start_ok item_wf] in *; cbn [app].
  - rewrite (load8_at A 63 R) by done. cbn [obind]. by bdecide.
  - rewrite (load8_at A c R) by done. cbn [obind]. cbn [existsb] in Hwf. bprop. bdecide. cbn [obind].
    rewrite (load8_at A c R), (load8_at B 0 []) by done. cbn [obind]. by rewrite same_char_0.
  - rewrite (load8_at A 92 (c :: R)) by done. cbn [obind]. change (msize [92; c]) with 2 in *. bdecide.
    rewrite (load8_at (A ++ [92]) c R) by (rewrite <- ?app_assoc, ?msize_app; done). cbn [obind].
    rewrite (load8_at B 0 []) by done. cbn [obind]. bprop. by rewrite same_char_0.
Qed.

Lemma item_bytes_head i : item_wf i = true -> i <> Star -> exists b bs, item_bytes i = b :: bs /\ b <> 42.
Proof.
  intros Hwf Hi. destruct i as [| |c|c|neg l]; [done|..]; cbn [item_bytes]; eexists _, _; (split; [done|]); try done.
  cbn in Hwf. bprop. done.
Qed.

Lemma pattern_bytes_cons i ps : pattern_bytes (i :: ps) = item_bytes i ++ pattern_bytes ps.
Proof. done. Qed.

Lemma gmatch_nil_head nocase i ps : i <> Star -> gmatch nocase (i :: ps) [] = false.
Proof. by destruct i. Qed.

Lemma item_bytes_pos i : 0 < msize (item_bytes i).
Proof. unfold msize. destruct i; cbn; lia. Qed.

(** The end of the string: only stars may be left. *)
Lemma trailing_end nocase A ps : Forall (fun i => item_wf i = true) ps ->
  (' (p, plen) <- trailing_stars (S (length (A ++ pattern_bytes ps ++ [0]))) (A ++ pattern_bytes ps ++ [0]) (msize A) (msize (pattern_bytes ps));;
   Some ((plen =? 0) && (0 =? 0))) = Some (gmatch nocase ps []).
Proof.
  intros Hwf. destruct (stars_split ps) as (k & ps' & -> & Hps). apply Forall_app in Hwf as [_ Hwf].
  destruct (after_stars ps' Hps Hwf) as (n & N & EN & Hn). rewrite pattern_bytes_stars, <- app_assoc, EN.
  rewrite trailing_stars_spec; [|done|rewrite !length_app, length_replicate; lia]. cbn [obind].
  rewrite gmatch_empty by done. rewrite msize_app, msize_replicate.
  replace (Z.of_nat k + msize (pattern_bytes ps') - Z.of_nat k) with (msize (pattern_bytes ps')) by lia.
  destruct ps' as [|i ps']; [done|]. rewrite pattern_bytes_cons, msize_app.
  pose proof (msize_nonneg (pattern_bytes ps')).
  pose proof (item_bytes_pos i).
  by bdecide.
Qed.

(** * The matcher and the meaning of the pattern *)

Section glob.
  Context (nocase : bool).

(** What the loop computes at a suffix of the pattern and of the string. *)
Definition loop_ok (fuel : nat) (ps : list item) (s : bytes) : Prop :=
  forall A B, match_loop fuel (A ++ pattern_bytes ps ++ [0]) (B ++ s ++ [0]) nocase
    (msize A) (msize (pattern_bytes ps)) (msize B) (msize s) = Some (gmatch nocase ps s).

Lemma loop_star fuel k ps s : Forall (fun i => item_wf i = true) ps ->
  match ps with Star :: _ => False | _ => True end ->
  (forall s', s' <> [] -> loop_ok fuel ps s') -> loop_ok (S fuel) (replicate (S k) Star ++ ps) s.
Proof.
  intros Hwf Hps IH A B. destruct (after_stars ps Hps Hwf) as (n & N & EN & Hn).
  rewrite pattern_bytes_stars, <- app_assoc, msize_app. cbn [match_loop].
  rewrite msize_replicate. pose proof (msize_nonneg (pattern_bytes ps)). bdecide.
  rewrite (load8_at A 42 (replicate k 42 ++ pattern_bytes ps ++ [0])) by done. cbn [obind]. bdecide.
  rewrite EN. rewrite skip_stars_spec; [|done|rewrite !length_app, length_replicate; lia]. cbn [obind].
  rewrite gmatch_stars. destruct ps as [|i ps].
  { change (msize (pattern_bytes [])) with 0. bdecide. by rewrite suffix_match_nil. }
  pose proof (item_bytes_pos i). rewrite pattern_bytes_cons, msize_app in *. pose proof (msize_nonneg (pattern_bytes ps)). bdecide.
  rewrite <- EN. set (P := A ++ _). set (p := msize A + _ + 1). set (plen := _ - 1).
  refine (star_spec nocase (i :: ps) (B ++ s ++ [0]) (match_loop fuel P (B ++ s ++ [0]) nocase p plen) _ _
            s (S (length (B ++ s ++ [0]))) B eq_refl _); [|by apply gmatch_nil_head; destruct i|rewrite !length_app; lia].
  intros B' s' HT Hs. specialize (IH s' Hs (A ++ replicate (S k) 42) B'). rewrite HT.
  rewrite msize_app, <- !app_assoc, pattern_bytes_cons, msize_app, msize_replicate, <- app_assoc in IH.
  unfold P, p, plen. rewrite <- IH, <- !app_assoc. f_equal; lia.
Qed.

Lemma loop_item fuel i ps s : i <> Star -> Forall (fun i => item_wf i = true) (i :: ps) ->
  (s <> [] \/ start_ok (i :: ps) = true) ->
  (forall s', s' <> [] -> loop_ok fuel ps s') -> loop_ok (S fuel) (i :: ps) s.
Proof.
  intros Hi [Hw Hwf]%list.Forall_cons_1 Hs IH A B. rewrite pattern_bytes_cons, msize_app. cbn [match_loop].
  pose proof (item_bytes_pos i). pose proof (msize_nonneg (pattern_bytes ps)). bdecide.
  destruct (item_bytes_head i Hw Hi) as (b & bs & Eb & Hb).
  rewrite (load8_at A b (bs ++ pattern_bytes ps ++ [0])) by (by rewrite ?Eb, <- ?app_assoc). cbn [obind]. bdecide.
  rewrite <- (app_assoc (item_bytes i)). destruct s as [|d s].
  { destruct Hs as [Hs|Hs]; [done|]. change (msize []) with 0. cbn [app].
    rewrite match_one_empty; [|done|done|by destruct i|lia]. cbn [obind]. by rewrite gmatch_nil_head. }
  rewrite msize_cons. pose proof (msize_nonneg s). rewrite <- app_comm_cons, match_one_spec by (done || lia).
  cbn [obind]. rewrite gmatch_cons by done. destruct (item_match nocase i d); [|done]. cbn [andb].
  replace (msize A + msize (item_bytes i) - 1 + 1) with (msize (A ++ item_bytes i)) by (rewrite msize_app; lia).
  replace (msize (item_bytes i) + msize (pattern_bytes ps) - msize (item_bytes i) + 1 - 1) with (msize (pattern_bytes ps)) by lia.
  replace (1 + msize s - 1) with (msize s) by lia. rewrite (app_assoc A).
  destruct s as [|e s].
  - change (msize []) with 0. bdecide. by apply trailing_end.
  - assert (msize (e :: s) <> 0) by (unfold msize; cbn; lia). bdecide.
    specialize (IH (e :: s) ltac:(done) (A ++ item_bytes i) (B ++ [d])). rewrite (msize_app B), <- (app_assoc B) in IH. exact IH.
Qed.

Lemma loop_correct : forall fuel ps s, Forall (fun i => item_wf i = true) ps -> (length ps < fuel)%nat ->
  (s <> [] \/ start_ok ps = true) -> loop_ok fuel ps s.
Proof.
  induction fuel as [|fuel IH]; intros ps s Hwf Hf Hs; [lia|].
  destruct ps as [|i ps].
  { intros A B. cbn [match_loop]. change (msize (pattern_bytes [])) with 0. bdecide.
    destruct s as [|c s]; [done|]. cbn [gmatch]. rewrite msize_cons. pose proof (msize_nonneg s). by bdecide. }
  destruct (stars_split (i :: ps)) as (k & ps' & E & Hps). destruct k as [|k].
  - assert (i <> Star) by (intros ->; cbn in E; by rewrite <- E in Hps).
    apply loop_item; [done|done|done|]. intros s' Hs'. apply IH; [by apply list.Forall_cons_1 in Hwf as [_ ?]|cbn in Hf; lia|by left].
  - rewrite E in *. apply Forall_app in Hwf as [_ Hwf]. rewrite length_app, length_replicate in Hf.
    apply loop_star; [done|done|]. intros s' Hs'. apply IH; [done|lia|by left].
Qed.

End glob.

(** * Properties *)

Lemma pattern_bytes_length ps : (length ps <= length (pattern_bytes ps))%nat.
Proof.
  induction ps as [|i ps IH]; [done|]. rewrite pattern_bytes_cons, length_app. pose proof (item_bytes_pos i) as H.
  unfold msize in H. cbn. lia.
Qed.

Lemma stringmatchlen_spec nocase ps s : Forall (fun i => item_wf i = true) ps -> (s <> [] \/ start_ok ps = true) ->
  stringmatchlen (pattern_bytes ps ++ [0]) (msize (pattern_bytes ps)) (s ++ [0]) (msize s) nocase
  = Some (gmatch nocase ps s).
Proof.
  intros Hwf Hs. apply (loop_correct nocase _ ps s Hwf) with (A := []) (B := []); [|done].
  pose proof (pattern_bytes_length ps). rewrite length_app. cbn. lia.
Qed.



