(* ===== verification/Adlist.v ===== *)
(** Doubly linked lists ([adlist.c], [adlist.h]): nodes on a heap, and one
    definition per function. *)

From stdpp Require Import gmap.
From S2P Require Import Prelude.
From S2P Require Import Util.

Abbreviation ptr := positive.

Record listNode := MkNode { prev : option ptr; next : option ptr; value : Z }.

Record listIter := MkIter { iter_next : option ptr; direction : bool }.

(** [struct list]; the methods are optional, [dup] returns [NULL] when it
    fails. *)
Record adlist := MkList {
  head : option ptr;
  tail : option ptr;
  dup : option (Z -> option Z);
  has_free : bool;
  match_ : option (Z -> Z -> bool);
  len : Z
}.

(** The nodes that are allocated, and the values given to the [free] method,
    latest first. *)
Record mem := MkMem { nodes : gmap ptr listNode; freed : list Z }.

Definition AL_START_HEAD : bool := false.
Definition AL_START_TAIL : bool := true.

(** * Assignments *)

Definition set_nodes (m : mem) (ns : gmap ptr listNode) : mem := {| nodes := ns; freed := freed m |}.

(** [x->prev = p], [x->next = p] *)
Definition setPrev (m : mem) (x : ptr) (p : option ptr) : option mem :=
  n <- nodes m !! x;;
  Some (set_nodes m (<[x := {| prev := p; next := next n; value := value n |}]> (nodes m))).

Definition setNext (m : mem) (x : ptr) (p : option ptr) : option mem :=
  n <- nodes m !! x;;
  Some (set_nodes m (<[x := {| prev := prev n; next := p; value := value n |}]> (nodes m))).

(** [list->head = p], [list->tail = p], [list->len = n] *)
Definition setHead (l : adlist) (p : option ptr) : adlist :=
  {| head := p; tail := tail l; dup := dup l; has_free := has_free l; match_ := match_ l; len := len l |}.
Definition setTail (l : adlist) (p : option ptr) : adlist :=
  {| head := head l; tail := p; dup := dup l; has_free := has_free l; match_ := match_ l; len := len l |}.
Definition setLen (l : adlist) (n : Z) : adlist :=
  {| head := head l; tail := tail l; dup := dup l; has_free := has_free l; match_ := match_ l; len := uint 64 n |}.

(** A new node, with all its fields assigned. *)
Definition newNode (m : mem) (n : listNode) : mem * ptr :=
  let x := base.fresh (dom (nodes m) : gset ptr) in (set_nodes m (<[x := n]> (nodes m)), x).

(** [if (list->free) list->free(x->value); zfree(x);] *)
Definition freeNode (m : mem) (l : adlist) (x : ptr) : option mem :=
  n <- nodes m !! x;;
  Some {| nodes := delete x (nodes m); freed := if has_free l then value n :: freed m else freed m |}.

(** * Lists *)

Definition listCreate : adlist :=
  {| head := None; tail := None; dup := None; has_free := false; match_ := None; len := 0 |}.

Definition listLength (l : adlist) : Z := len l.

(** [while(len--) { ... }] *)
Fixpoint listRelease_loop (len : nat) (m : mem) (l : adlist) (current : option ptr) : option mem :=
  match len with
  | O => Some m
  | S len =>
    x <- current;;
    n <- nodes m !! x;;
    m <- freeNode m l x;;
    listRelease_loop len m l (next n)
  end.

Definition listRelease (m : mem) (l : adlist) : option mem := listRelease_loop (Z.to_nat (len l)) m l (head l).

Definition listAddNodeHead (m : mem) (l : adlist) (v : Z) : option (mem * adlist) :=
  if len l =? 0 then
    let '(m, x) := newNode m {| prev := None; next := None; value := v |} in
    let l := setTail (setHead l (Some x)) (Some x) in
    Some (m, setLen l (len l + 1))
  else
    let '(m, x) := newNode m {| prev := None; next := head l; value := v |} in
    h <- head l;;
    m <- setPrev m h (Some x);;
    let l := setHead l (Some x) in
    Some (m, setLen l (len l + 1)).

Definition listAddNodeTail (m : mem) (l : adlist) (v : Z) : option (mem * adlist) :=
  if len l =? 0 then
    let '(m, x) := newNode m {| prev := None; next := None; value := v |} in
    let l := setTail (setHead l (Some x)) (Some x) in
    Some (m, setLen l (len l + 1))
  else
    let '(m, x) := newNode m {| prev := tail l; next := None; value := v |} in
    t <- tail l;;
    m <- setNext m t (Some x);;
    let l := setTail l (Some x) in
    Some (m, setLen l (len l + 1)).

Definition listInsertNode (m : mem) (l : adlist) (old : ptr) (v : Z) (after : bool) : option (mem * adlist) :=
  o <- nodes m !! old;;
  let n := if after then {| prev := Some old; next := next o; value := v |}
           else {| prev := prev o; next := Some old; value := v |} in
  let '(m, x) := newNode m n in
  let l := if after then (if decide (tail l = Some old) then setTail l (Some x) else l)
           else (if decide (head l = Some old) then setHead l (Some x) else l) in
  m <- match prev n with Some p => setNext m p (Some x) | None => Some m end;;
  m <- match next n with Some p => setPrev m p (Some x) | None => Some m end;;
  Some (m, setLen l (len l + 1)).

Definition listDelNode (m : mem) (l : adlist) (x : ptr) : option (mem * adlist) :=
  n <- nodes m !! x;;
  ' (m, l) <- match prev n with
              | Some p => m <- setNext m p (next n);; Some (m, l)
              | None => Some (m, setHead l (next n))
              end;;
  n <- nodes m !! x;;
  ' (m, l) <- match next n with
              | Some p => m <- setPrev m p (prev n);; Some (m, l)
              | None => Some (m, setTail l (prev n))
              end;;
  m <- freeNode m l x;;
  Some (m, setLen l (len l - 1)).

(** * Iterators *)

Definition listGetIterator (l : adlist) (dir : bool) : listIter :=
  {| iter_next := if decide (dir = AL_START_HEAD) then head l else tail l; direction := dir |}.

Definition listRewind (l : adlist) : listIter := {| iter_next := head l; direction := AL_START_HEAD |}.

Definition listRewindTail (l : adlist) : listIter := {| iter_next := tail l; direction := AL_START_TAIL |}.

(** The node returned and the iterator after the call. *)
Definition listNext (m : mem) (it : listIter) : option (option ptr * listIter) :=
  match iter_next it with
  | None => Some (None, it)
  | Some x =>
    n <- nodes m !! x;;
    let nx := if decide (direction it = AL_START_HEAD) then next n else prev n in
    Some (Some x, {| iter_next := nx; direction := direction it |})
  end.

(** [while((node = listNext(iter)) != NULL)] of [listDup]: [None] inside is
    the [NULL] of a failed duplication, after the release of the copy. *)
Fixpoint listDup_loop (fuel : nat) (m : mem) (it : listIter) (copy : adlist) : option (mem * option adlist) :=
  match fuel with
  | O => None
  | S fuel =>
    ' (node, it) <- listNext m it;;
    match node with
    | None => Some (m, Some copy)
    | Some x =>
      n <- nodes m !! x;;
      match (match dup copy with Some d => d (value n) | None => Some (value n) end) with
      | None => m <- listRelease m copy;; Some (m, None)
      | Some v => ' (m, copy) <- listAddNodeTail m copy v;; listDup_loop fuel m it copy
      end
    end
  end.

Definition listDup (m : mem) (orig : adlist) : option (mem * option adlist) :=
  let copy := listCreate in
  let copy := {| head := head copy; tail := tail copy; dup := dup orig; has_free := has_free orig;
                 match_ := match_ orig; len := len copy |} in
  listDup_loop (S (size (nodes m))) m (listGetIterator orig AL_START_HEAD) copy.

Fixpoint listSearchKey_loop (fuel : nat) (m : mem) (l : adlist) (it : listIter) (key : Z) : option (option ptr) :=
  match fuel with
  | O => None
  | S fuel =>
    ' (node, it) <- listNext m it;;
    match node with
    | None => Some None
    | Some x =>
      n <- nodes m !! x;;
      if match match_ l with Some f => f (value n) key | None => key =? value n end then Some (Some x)
      else listSearchKey_loop fuel m l it key
    end
  end.

Definition listSearchKey (m : mem) (l : adlist) (key : Z) : option (option ptr) :=
  listSearchKey_loop (S (size (nodes m))) m l (listGetIterator l AL_START_HEAD) key.

(** [while(index-- && n) n = n->prev;] and the same with [next]. *)
Fixpoint listIndex_loop (fuel : nat) (m : mem) (dir : listNode -> option ptr) (index : Z) (n : option ptr)
    : option (option ptr) :=
  match fuel with
  | O => None
  | S fuel =>
    if index =? 0 then Some n else
    match n with
    | None => Some None
    | Some x => nd <- nodes m !! x;; listIndex_loop fuel m dir (index - 1) (dir nd)
    end
  end.

Definition listIndex (m : mem) (l : adlist) (index : Z) : option (option ptr) :=
  if index <? 0 then
    index <- ll_arith (- index);;
    index <- ll_arith (index - 1);;
    listIndex_loop (S (size (nodes m))) m prev index (tail l)
  else listIndex_loop (S (size (nodes m))) m next index (head l).

Definition listRotate (m : mem) (l : adlist) : option (mem * adlist) :=
  let tl := tail l in
  if listLength l <=? 1 then Some (m, l) else
  t <- tl;;
  n <- nodes m !! t;;
  let l := setTail l (prev n) in
  t' <- tail l;;
  m <- setNext m t' None;;
  h <- head l;;
  m <- setPrev m h tl;;
  m <- setPrev m t None;;
  m <- setNext m t (head l);;
  Some (m, setHead l tl).
