(* ===== verification/AdlistSpec.v ===== *)
(** The linked lists represent sequences of values: the representation, the
    effect of each function on it, and the properties. *)

From stdpp Require Import gmap.
From S2P Require Import Prelude.
From S2P Require Import Util.
From S2P Require Import Adlist.

(** * Chains of nodes *)

Abbreviation heap := (gmap ptr listNode).

Definition first (es : list (ptr * Z)) (nx : option ptr) : option ptr :=
  match es with [] => nx | (x, _) :: _ => Some x end.

Fixpoint final (p : option ptr) (es : list (ptr * Z)) : option ptr :=
  match es with [] => p | (x, _) :: es => final (Some x) es end.

(** The nodes [es], after the node [p] and before the node [nx]. *)
Fixpoint chain (h : heap) (p : option ptr) (es : list (ptr * Z)) (nx : option ptr) : Prop :=
  match es with
  | [] => True
  | (x, v) :: es => h !! x = Some {| prev := p; next := first es nx; value := v |} /\ chain h (Some x) es nx
  end.

Lemma first_app a b nx : first (a ++ b) nx = first a (first b nx).
Proof. by destruct a as [|[x v] a]. Qed.

Lemma final_app p a b : final p (a ++ b) = final (final p a) b.
Proof. revert p. induction a as [|[x v] a IH]; intros p; [done|]. apply IH. Qed.

Lemma dl_chain_app h p a b nx : chain h p (a ++ b) nx <-> chain h p a (first b nx) /\ chain h (final p a) b nx.
Proof.
  revert p. induction a as [|[x v] a IH]; intros p; cbn; [naive_solver|]. rewrite IH, first_app. naive_solver.
Qed.

Lemma chain_frame h h' p es nx : (forall x, x ∈ es.*1 -> h' !! x = h !! x) -> chain h p es nx -> chain h' p es nx.
Proof.
  revert p. induction es as [|[x v] es IH]; intros p Hh; [done|]. cbn. intros [Hx Hes].
  split; [rewrite Hh by (by left); done|]. apply IH; [|done]. intros y Hy. apply Hh. by right.
Qed.

Lemma chain_lookup h p es nx x : chain h p es nx -> x ∈ es.*1 -> is_Some (h !! x).
Proof.
  revert p. induction es as [|[y v] es IH]; intros p Hc Hx; [by apply not_elem_of_nil in Hx|].
  destruct Hc as [Hy Hes]. apply elem_of_cons in Hx as [->|Hx]; [by eexists|by eapply IH].
Qed.

(** * Field assignments *)

Definition with_next (p : option ptr) (n : listNode) : listNode := {| prev := prev n; next := p; value := value n |}.
Definition with_prev (p : option ptr) (n : listNode) : listNode := {| prev := p; next := next n; value := value n |}.

Lemma insert_as_alter (h : heap) x n f : h !! x = Some n -> <[x := f n]> h = alter f x h.
Proof.
  intros Hx. apply map_eq. intros y. destruct (decide (x = y)) as [<-|Hn].
  - by rewrite lookup_insert_eq, lookup_alter_eq, Hx.
  - by rewrite lookup_insert_ne, lookup_alter_ne.
Qed.

Lemma setNext_spec m x p : is_Some (nodes m !! x) -> setNext m x p = Some (set_nodes m (alter (with_next p) x (nodes m))).
Proof. intros [n Hx]. unfold setNext. rewrite Hx. cbn [obind]. by rewrite <- (insert_as_alter _ _ n). Qed.

Lemma setPrev_spec m x p : is_Some (nodes m !! x) -> setPrev m x p = Some (set_nodes m (alter (with_prev p) x (nodes m))).
Proof. intros [n Hx]. unfold setPrev. rewrite Hx. cbn [obind]. by rewrite <- (insert_as_alter _ _ n). Qed.

(** The optional assignments of the code: to the node before and to the node
    after. *)
Definition link_next (o p : option ptr) (h : heap) : heap := match o with Some x => alter (with_next p) x h | None => h end.
Definition link_prev (o p : option ptr) (h : heap) : heap := match o with Some x => alter (with_prev p) x h | None => h end.

Lemma link_next_ne o p h x : o <> Some x -> link_next o p h !! x = h !! x.
Proof. intros Hn. destruct o as [y|]; cbn; [|done]. rewrite lookup_alter_ne; [done|]. by intros ->. Qed.

Lemma link_prev_ne o p h x : o <> Some x -> link_prev o p h !! x = h !! x.
Proof. intros Hn. destruct o as [y|]; cbn; [|done]. rewrite lookup_alter_ne; [done|]. by intros ->. Qed.

Lemma first_elem es x : first es None = Some x -> x ∈ es.*1.
Proof. destruct es as [|[y v] es]; [done|]. intros [= ->]. by left. Qed.

Lemma final_elem p es x : final p es = Some x -> p = Some x \/ x ∈ es.*1.
Proof.
  revert p. induction es as [|[y v] es IH]; intros p Hf; [by left|]. right. destruct (IH _ Hf) as [[= ->]|Hx]; [by left|by right].
Qed.

(** Changing the end of a chain, or its beginning. *)
Lemma chain_link_next h p es nx nx' : NoDup es.*1 -> chain h p es nx ->
  chain (link_next (final None es) nx' h) p es nx'.
Proof.
  intros Hd Hc. destruct es as [|[x v] es _] using rev_ind; [done|].
  rewrite fmap_app in Hd. apply list.NoDup_app in Hd as (_ & Hd & _).
  rewrite final_app in *. cbn [final link_next]. apply dl_chain_app in Hc as [Ha [Hx _]]. apply dl_chain_app. split.
  - eapply chain_frame; [|exact Ha]. intros y Hy. rewrite lookup_alter_ne; [done|]. intros ->. apply (Hd y Hy). by left.
  - split; [|done]. by rewrite lookup_alter_eq, Hx.
Qed.

Lemma chain_link_prev h p p' es nx : NoDup es.*1 -> chain h p es nx -> chain (link_prev (first es None) p' h) p' es nx.
Proof.
  intros Hd Hc. destruct es as [|[x v] es]; [done|]. destruct Hc as [Hx Hes]. cbn [first link_prev chain].
  split; [by rewrite lookup_alter_eq, Hx|]. eapply chain_frame; [|exact Hes].
  intros y Hy. rewrite lookup_alter_ne; [done|]. intros ->. by apply list.NoDup_cons in Hd as [Hd _].
Qed.

(** * The representation

    The list [l] owns the nodes [es]; [F] is the rest of the heap. *)

Record list_rep (F : heap) (m : mem) (l : adlist) (es : list (ptr * Z)) : Prop := {
  rep_nodup : NoDup es.*1;
  rep_chain : chain (nodes m) None es None;
  rep_head : head l = first es None;
  rep_tail : tail l = final None es;
  rep_len : len l = Z.of_nat (length es);
  rep_frame : forall x, x ∉ es.*1 -> nodes m !! x = F !! x;
  rep_own : forall x, x ∈ es.*1 -> F !! x = None
}.

Lemma rep_create F fr dp fl mt :
  list_rep F {| nodes := F; freed := fr |}
    {| head := None; tail := None; dup := dp; has_free := fl; match_ := mt; len := 0 |} [].
Proof. split; try done; [constructor|]. by intros x Hx%not_elem_of_nil. Qed.

Lemma rep_ext F m m' l l' es : nodes m' = nodes m -> head l' = head l -> tail l' = tail l -> len l' = len l ->
  list_rep F m l es -> list_rep F m' l' es.
Proof. intros Em Eh Et El [H1 H2 H3 H4 H5 H6 H7]. split; rewrite ?Em, ?Eh, ?Et, ?El; done. Qed.

(** The methods of the list. *)
Definition same_methods (l l' : adlist) : Prop := dup l' = dup l /\ has_free l' = has_free l /\ match_ l' = match_ l.

(** * Linking a node in and out *)

Lemma nodup_middle (a b : list (ptr * Z)) x v : NoDup (a ++ (x, v) :: b).*1 <->
  NoDup (a ++ b).*1 /\ x ∉ (a ++ b).*1.
Proof.
  rewrite !fmap_app, fmap_cons. cbn [fst]. rewrite <- Permutation_middle, list.NoDup_cons. naive_solver.
Qed.

(** A new node [x] between [a] and [b]. *)
Lemma chain_insert h a b x v : NoDup (a ++ b).*1 -> x ∉ (a ++ b).*1 -> chain h None (a ++ b) None ->
  chain (link_prev (first b None) (Some x) (link_next (final None a) (Some x)
    (<[x := {| prev := final None a; next := first b None; value := v |}]> h))) None (a ++ (x, v) :: b) None.
Proof.
  intros Hd Hx Hc. apply dl_chain_app in Hc as [Ha Hb].
  rewrite fmap_app in Hd, Hx. apply list.NoDup_app in Hd as (Hda & Hab & Hdb). rewrite elem_of_app in Hx.
  assert (Hfa : forall y, y ∈ a.*1 -> first b None <> Some y) by (intros y Hy Ey; by apply (Hab y Hy), first_elem).
  assert (Hfb : forall y, y ∈ b.*1 -> final None a <> Some y).
  { intros y Hy Ey. apply final_elem in Ey as [?|Ey]; [done|by apply (Hab y Ey)]. }
  assert (Hxa : final None a <> Some x) by (intros Ey; apply final_elem in Ey as [?|Ey]; [done|naive_solver]).
  assert (Hxb : first b None <> Some x) by (intros Ey%first_elem; naive_solver).
  set (h0 := <[x := _]> h). apply dl_chain_app. split; [|split].
  - eapply chain_frame; [intros y Hy; apply link_prev_ne; by apply Hfa|].
    eapply chain_link_next; [done|]. eapply chain_frame; [|exact Ha].
    intros y Hy. apply lookup_insert_ne. intros <-. naive_solver.
  - rewrite link_prev_ne, link_next_ne by done. unfold h0. by rewrite lookup_insert_eq.
  - eapply chain_link_prev; [done|]. eapply chain_frame; [|exact Hb].
    intros y Hy. rewrite link_next_ne by (by apply Hfb). apply lookup_insert_ne. intros <-. naive_solver.
Qed.

(** The node [x] between [a] and [b] taken out. *)
Lemma chain_remove h a b x v : NoDup (a ++ (x, v) :: b).*1 -> chain h None (a ++ (x, v) :: b) None ->
  chain (delete x (link_prev (first b None) (final None a) (link_next (final None a) (first b None) h))) None (a ++ b) None.
Proof.
  intros Hd Hc. apply nodup_middle in Hd as [Hd Hx]. apply dl_chain_app in Hc as [Ha [_ Hb]].
  rewrite fmap_app in Hd, Hx. apply list.NoDup_app in Hd as (Hda & Hab & Hdb). rewrite elem_of_app in Hx.
  apply dl_chain_app. split.
  - eapply chain_frame; [|by apply (chain_link_next h None a _ (first b None) Hda Ha)].
    intros y Hy. rewrite lookup_delete_ne by (intros ->; naive_solver).
    apply link_prev_ne. intros Ey. by apply (Hab y Hy), first_elem.
  - eapply chain_frame; [|apply (chain_link_prev (link_next (final None a) (first b None) h) (Some x) (final None a) b None Hdb)].
    + intros y Hy. by rewrite lookup_delete_ne by (intros ->; naive_solver).
    + eapply chain_frame; [|exact Hb]. intros y Hy. apply link_next_ne. intros Ey.
      apply final_elem in Ey as [?|Ey]; [done|by apply (Hab y Ey)].
Qed.

(** The nodes outside of the list are not touched. *)
Lemma links_frame h a b x o p q q' : x ∉ (a ++ b).*1 ->
  o = first b None -> p = final None a -> link_prev o q (link_next p q' h) !! x = h !! x.
Proof.
  intros Hx -> ->. rewrite fmap_app, elem_of_app in Hx. rewrite link_prev_ne, link_next_ne; [done| |].
  - intros Ey. apply final_elem in Ey as [?|Ey]; [done|naive_solver].
  - intros Ey%first_elem. naive_solver.
Qed.

(** * Insertion *)

(** The result of an operation that yields a list with the nodes [es]. *)
Definition yields (F : heap) (m : mem) (l : adlist) (fr : list Z) (es : list (ptr * Z)) (r : option (mem * adlist)) : Prop :=
  exists m' l', r = Some (m', l') /\ list_rep F m' l' es /\ same_methods l l' /\ freed m' = fr.

Lemma fresh_out F m l es : list_rep F m l es -> base.fresh (dom (nodes m) : gset ptr) ∉ es.*1.
Proof.
  intros Hr Hx. destruct (chain_lookup _ _ _ _ _ (rep_chain _ _ _ _ Hr) Hx) as [n Hn].
  apply elem_of_dom_2 in Hn. by apply is_fresh in Hn.
Qed.

Lemma rep_insert F m l a b v m' l' : list_rep F m l (a ++ b) ->
  let x := base.fresh (dom (nodes m) : gset ptr) in
  nodes m' = link_prev (first b None) (Some x) (link_next (final None a) (Some x)
    (<[x := {| prev := final None a; next := first b None; value := v |}]> (nodes m))) ->
  head l' = first (a ++ (x, v) :: b) None -> tail l' = final None (a ++ (x, v) :: b) ->
  len l' = Z.of_nat (length (a ++ b)) + 1 ->
  list_rep F m' l' (a ++ (x, v) :: b).
Proof.
  intros Hr x Em Eh Et El. pose proof (fresh_out _ _ _ _ Hr) as Hx. fold x in Hx.
  assert (HF : F !! x = None).
  { rewrite <- (rep_frame _ _ _ _ Hr x Hx). apply not_elem_of_dom, is_fresh. }
  destruct Hr as [Hd Hc _ _ _ Hf Ho]. split; [by apply nodup_middle|by rewrite Em; apply chain_insert|done|done| | |].
  - rewrite El, !length_app. cbn. lia.
  - intros y Hy. rewrite fmap_app, fmap_cons, elem_of_app, elem_of_cons in Hy. cbn [fst] in Hy.
    assert (Hy' : y ∉ (a ++ b).*1) by (rewrite fmap_app, elem_of_app; naive_solver).
    rewrite Em, (links_frame _ a b y) by done. rewrite lookup_insert_ne by naive_solver. by apply Hf.
  - intros y Hy. rewrite fmap_app, fmap_cons, elem_of_app, elem_of_cons in Hy. cbn [fst] in Hy.
    destruct (decide (y = x)) as [->|Hn]; [done|]. apply Ho. rewrite fmap_app, elem_of_app. naive_solver.
Qed.

Lemma len_zero F m l es : list_rep F m l es -> (len l =? 0) = match es with [] => true | _ => false end.
Proof. intros Hr. rewrite (rep_len _ _ _ _ Hr). destruct es; [done|]. cbn. by bdecide. Qed.

Lemma head_lookup F m l es x : list_rep F m l es -> x ∈ es.*1 -> is_Some (nodes m !! x).
Proof. intros Hr. apply chain_lookup with (1 := rep_chain _ _ _ _ Hr). Qed.

Lemma insert_lookup (h : heap) x n y : is_Some (h !! y) -> is_Some (<[x := n]> h !! y).
Proof. intros Hy. rewrite lookup_insert_is_Some'. by right. Qed.

Lemma final_None es : final None es = None -> es = [].
Proof. destruct es as [|[x v] es _] using rev_ind; [done|]. by rewrite final_app. Qed.

Lemma listAddNodeHead_spec F m l es v : list_rep F m l es -> Z.of_nat (length es) + 1 < 2 ^ 64 ->
  exists x, yields F m l (freed m) ((x, v) :: es) (listAddNodeHead m l v).
Proof.
  intros Hr Hb. exists (base.fresh (dom (nodes m) : gset ptr)). unfold listAddNodeHead. rewrite (len_zero _ _ _ _ Hr).
  destruct es as [|[h w] es].
  - do 2 eexists. split; [done|]. split; [|done]. eapply (rep_insert F m l [] []); [done|done|done|done|].
    cbn. rewrite (rep_len _ _ _ _ Hr). done.
  - cbn [newNode]. rewrite (rep_head _ _ _ _ Hr). cbn [first obind newNode].
    unfold newNode. rewrite setPrev_spec by (apply insert_lookup, (head_lookup _ _ _ _ _ Hr); by left).
    do 2 eexists. split; [done|]. split; [|done].
    eapply (rep_insert F m l [] ((h, w) :: es)); [done|done|done|by cbn; rewrite (rep_tail _ _ _ _ Hr)|].
    cbn. rewrite (rep_len _ _ _ _ Hr). rewrite uint_id; cbn in *; lia.
Qed.

Lemma listAddNodeTail_spec F m l es v : list_rep F m l es -> Z.of_nat (length es) + 1 < 2 ^ 64 ->
  exists x, yields F m l (freed m) (es ++ [(x, v)]) (listAddNodeTail m l v).
Proof.
  intros Hr Hb. exists (base.fresh (dom (nodes m) : gset ptr)). unfold listAddNodeTail. rewrite (len_zero _ _ _ _ Hr).
  pose proof Hr as Hr'. rewrite <- (app_nil_r es) in Hr'.
  destruct es as [|[t w] es _] using rev_ind.
  - do 2 eexists. split; [done|]. split; [|done]. eapply (rep_insert F m l [] []); [done|done|done|done|].
    cbn. rewrite (rep_len _ _ _ _ Hr). done.
  - assert (Ht : final None (es ++ [(t, w)]) = Some t) by (by rewrite final_app).
    replace (match es ++ [(t, w)] with [] => true | _ => false end) with false by (by destruct es).
    unfold newNode. rewrite (rep_tail _ _ _ _ Hr), Ht. cbn [obind].
    rewrite setNext_spec.
    2: { apply insert_lookup, (head_lookup _ _ _ _ _ Hr). rewrite fmap_app, elem_of_app. right. by left. }
    do 2 eexists. split; [done|]. split; [|done].
    eapply (rep_insert F m l (es ++ [(t, w)]) []); [done| | | |].
    + cbn [first link_prev]. rewrite Ht. done.
    + cbn. rewrite (rep_head _ _ _ _ Hr). by destruct es.
    + by rewrite final_app.
    + cbn. rewrite (rep_len _ _ _ _ Hr), app_nil_r. rewrite uint_id; lia.
Qed.

(** What the fields of a node of the list are. *)
Lemma dl_lookup F m l c x w d : list_rep F m l (c ++ (x, w) :: d) ->
  nodes m !! x = Some {| prev := final None c; next := first d None; value := w |}.
Proof. intros Hr. pose proof (rep_chain _ _ _ _ Hr) as Hc. by apply dl_chain_app in Hc as (_ & Hx & _). Qed.

Lemma link_next_spec m o p : (forall x, o = Some x -> is_Some (nodes m !! x)) ->
  match o with Some x => setNext m x p | None => Some m end = Some (set_nodes m (link_next o p (nodes m))).
Proof. intros Ho. destruct o as [x|]; [|by destruct m]. by apply setNext_spec, Ho. Qed.

Lemma link_prev_spec m o p : (forall x, o = Some x -> is_Some (nodes m !! x)) ->
  match o with Some x => setPrev m x p | None => Some m end = Some (set_nodes m (link_prev o p (nodes m))).
Proof. intros Ho. destruct o as [x|]; [|by destruct m]. by apply setPrev_spec, Ho. Qed.

Lemma link_next_is_Some o p (h : heap) x : is_Some (h !! x) -> is_Some (link_next o p h !! x).
Proof. destruct o as [y|]; [|done]. cbn. by rewrite lookup_alter_is_Some. Qed.

(** The head and the tail when [x] is put between [a] and [b]. *)
Lemma first_insert a b (x : ptr) v : first (a ++ (x, v) :: b) None = match a with [] => Some x | _ => first (a ++ b) None end.
Proof. by destruct a as [|[y w] a]. Qed.

Lemma final_insert a b (x : ptr) v : final None (a ++ (x, v) :: b) = match b with [] => Some x | _ => final None (a ++ b) end.
Proof. rewrite !final_app. cbn. by destruct b as [|[y w] b]. Qed.

(** The links of a new node, as [listInsertNode] sets them. *)
Lemma dl_insert_links F m l a b v l' pn nn : list_rep F m l (a ++ b) -> Z.of_nat (length (a ++ b)) + 1 < 2 ^ 64 ->
  pn = final None a -> nn = first b None ->
  let n := {| prev := pn; next := nn; value := v |} in
  let x := base.fresh (dom (nodes m) : gset ptr) in
  head l' = first (a ++ (x, v) :: b) None -> tail l' = final None (a ++ (x, v) :: b) -> len l' = len l ->
  same_methods l l' ->
  yields F m l (freed m) (a ++ (x, v) :: b)
    (m <- match prev n with Some p => setNext (set_nodes m (<[x := n]> (nodes m))) p (Some x)
          | None => Some (set_nodes m (<[x := n]> (nodes m))) end;;
     m <- match next n with Some p => setPrev m p (Some x) | None => Some m end;;
     Some (m, setLen l' (len l' + 1))).
Proof.
  intros Hr Hb -> -> n x Eh Et El Hm.
  assert (Hin : forall y, y ∈ (a ++ b).*1 -> is_Some (<[x := n]> (nodes m) !! y)).
  { intros y Hy. by apply insert_lookup, (head_lookup _ _ _ _ _ Hr). }
  rewrite fmap_app in Hin. setoid_rewrite elem_of_app in Hin.
  rewrite link_next_spec.
  2: { cbn. intros y Ey. apply Hin. apply final_elem in Ey as [?|Ey]; [done|by left]. }
  cbn [obind]. rewrite link_prev_spec.
  2: { cbn. intros y Ey%first_elem. apply link_next_is_Some, Hin. by right. }
  cbn [obind]. do 2 eexists. split; [done|]. split; [|done].
  apply (rep_insert F m l a b v); [done|done|done|done|]. cbn. rewrite El, (rep_len _ _ _ _ Hr). rewrite uint_id; lia.
Qed.

Lemma first_not_elem es (x : ptr) : x ∉ es.*1 -> first es None <> Some x.
Proof. intros Hx Hf. by apply Hx, first_elem. Qed.

Lemma final_not_elem es (x : ptr) : x ∉ es.*1 -> final None es <> Some x.
Proof. intros Hx Hf. apply final_elem in Hf as [?|Hf]; [done|by apply Hx]. Qed.

Lemma listInsertNode_spec F m l c old w d v (after : bool) : list_rep F m l (c ++ (old, w) :: d) ->
  Z.of_nat (length (c ++ (old, w) :: d)) + 1 < 2 ^ 64 ->
  exists x, yields F m l (freed m) (if after then c ++ (old, w) :: (x, v) :: d else c ++ (x, v) :: (old, w) :: d)
    (listInsertNode m l old v after).
Proof.
  intros Hr Hb. exists (base.fresh (dom (nodes m) : gset ptr)). unfold listInsertNode.
  rewrite (dl_lookup _ _ _ _ _ _ _ Hr). cbn [obind prev next].
  pose proof (rep_nodup _ _ _ _ Hr) as Hd. apply nodup_middle in Hd as [_ Hold].
  rewrite fmap_app, elem_of_app in Hold.
  destruct after; cbn [newNode]; set (x := base.fresh _).
  - assert (Ea : forall e, c ++ (old, w) :: e = (c ++ [(old, w)]) ++ e) by (intros e; by rewrite <- app_assoc).
    rewrite Ea in Hr, Hb |- *. assert (Ef : final None (c ++ [(old, w)]) = Some old) by (by rewrite final_app).
    apply (dl_insert_links F m l (c ++ [(old, w)]) d); [done|done|done|done| | | |].
    + rewrite first_insert. case_decide; cbn; rewrite (rep_head _ _ _ _ Hr); by destruct c.
    + fold x. rewrite final_insert, (rep_tail _ _ _ _ Hr), final_app, Ef. destruct d as [|[y u] d].
      * cbn [final]. by rewrite decide_True.
      * rewrite decide_False; [by rewrite (rep_tail _ _ _ _ Hr), final_app, Ef|].
        cbn [final]. intros Ey. apply final_elem in Ey as [[= ->]|Ey]; apply Hold; right; cbn; [by left|by right].
    + by case_decide.
    + by case_decide.
  - apply (dl_insert_links F m l c ((old, w) :: d)); [done|done|done|done| | | |].
    + fold x. rewrite first_insert, (rep_head _ _ _ _ Hr). destruct c as [|[y u] c]; [by rewrite decide_True|].
      rewrite decide_False; [by rewrite (rep_head _ _ _ _ Hr)|]. cbn. intros [= ->]. apply Hold. left. by left.
    + rewrite final_insert. case_decide; cbn; by rewrite (rep_tail _ _ _ _ Hr).
    + by case_decide.
    + by case_decide.
Qed.

(** * Deletion *)

(** The value given to the [free] method, if there is one. *)
Definition release_log (l : adlist) (vs : list Z) (fr : list Z) : list Z := if has_free l then vs ++ fr else fr.

Lemma unlink_before m l o p : (forall x, o = Some x -> is_Some (nodes m !! x)) ->
  match o with Some x => m <- setNext m x p;; Some (m, l) | None => Some (m, setHead l p) end
  = Some (set_nodes m (link_next o p (nodes m)), match o with Some _ => l | None => setHead l p end).
Proof. intros Ho. destruct o as [x|]; [|by destruct m]. by rewrite setNext_spec by (by apply Ho). Qed.

Lemma unlink_after m l o p : (forall x, o = Some x -> is_Some (nodes m !! x)) ->
  match o with Some x => m <- setPrev m x p;; Some (m, l) | None => Some (m, setTail l p) end
  = Some (set_nodes m (link_prev o p (nodes m)), match o with Some _ => l | None => setTail l p end).
Proof. intros Ho. destruct o as [x|]; [|by destruct m]. by rewrite setPrev_spec by (by apply Ho). Qed.

Lemma rep_remove F m l a b x v m' l' : list_rep F m l (a ++ (x, v) :: b) ->
  nodes m' = delete x (link_prev (first b None) (final None a) (link_next (final None a) (first b None) (nodes m))) ->
  head l' = first (a ++ b) None -> tail l' = final None (a ++ b) -> len l' = Z.of_nat (length (a ++ b)) ->
  list_rep F m' l' (a ++ b).
Proof.
  intros Hr Em Eh Et El. destruct Hr as [Hd Hc _ _ _ Hf Ho]. pose proof Hd as [Hd' Hx]%nodup_middle.
  assert (Hin : forall y, y ∈ (a ++ (x, v) :: b).*1 <-> y = x \/ y ∈ (a ++ b).*1).
  { intros y. rewrite !fmap_app, fmap_cons, !elem_of_app, elem_of_cons. cbn. tauto. }
  split; [done|by rewrite Em; eapply chain_remove|done|done|done| |].
  - intros y Hy. rewrite Em. destruct (decide (y = x)) as [->|Hn].
    + rewrite lookup_delete_eq. symmetry. apply Ho, Hin. by left.
    + rewrite lookup_delete_ne, (links_frame _ a b y) by done. apply Hf. rewrite Hin. naive_solver.
  - intros y Hy. apply Ho, Hin. by right.
Qed.

Lemma listDelNode_spec F m l a x v b : list_rep F m l (a ++ (x, v) :: b) -> Z.of_nat (length (a ++ (x, v) :: b)) < 2 ^ 64 ->
  yields F m l (release_log l [v] (freed m)) (a ++ b) (listDelNode m l x).
Proof.
  intros Hr Hb. unfold listDelNode. rewrite (dl_lookup _ _ _ _ _ _ _ Hr). cbn [obind prev next].
  pose proof (rep_nodup _ _ _ _ Hr) as Hd. apply nodup_middle in Hd as [_ Hx].
  assert (Hx' := Hx). rewrite fmap_app, elem_of_app in Hx'.
  assert (Hxa : final None a <> Some x) by (apply final_not_elem; naive_solver).
  assert (Hxb : first b None <> Some x) by (apply first_not_elem; naive_solver).
  assert (Hin : forall y, y ∈ a.*1 \/ y ∈ b.*1 -> is_Some (nodes m !! y)).
  { intros y Hy. apply (head_lookup _ _ _ _ _ Hr). rewrite fmap_app, fmap_cons, elem_of_app, elem_of_cons. naive_solver. }
  rewrite unlink_before by (intros y Ey; apply final_elem in Ey as [?|Ey]; [done|]; apply Hin; by left).
  cbn [obind set_nodes nodes]. rewrite link_next_ne by done. rewrite (dl_lookup _ _ _ _ _ _ _ Hr). cbn [obind prev next].
  rewrite unlink_after by (intros y Ey%first_elem; apply link_next_is_Some, Hin; by right).
  cbn [obind]. unfold freeNode. cbn [set_nodes nodes]. rewrite link_prev_ne, link_next_ne by done.
  rewrite (dl_lookup _ _ _ _ _ _ _ Hr). cbn [obind freed value].
  do 2 eexists. split; [done|]. split; [|split].
  - apply (rep_remove F m l a b x v); [done|done| | |].
    + rewrite first_app. destruct (first b None) eqn:E1, (final None a) eqn:E2; cbn; rewrite ?(rep_head _ _ _ _ Hr), ?first_app;
        try (by apply final_None in E2 as ->; cbn; rewrite ?E1); by destruct a as [|[? ?] ?].
    + rewrite final_app. destruct (first b None) eqn:E1; cbn.
      * destruct b as [|[y u] b]; [done|]. case_match; cbn; by rewrite (rep_tail _ _ _ _ Hr), final_app.
      * by destruct b as [|[y u] b].
    + cbn. rewrite uint_id; repeat case_match; cbn; rewrite ?(rep_len _ _ _ _ Hr), !length_app in *; cbn in *; lia.
  - unfold same_methods. by repeat case_match.
  - unfold release_log. by destruct (first b None), (final None a); cbn; destruct (has_free l).
Qed.

(** * Release *)

Lemma listRelease_loop_spec l : forall es m p, NoDup es.*1 -> chain (nodes m) p es None ->
  exists m', listRelease_loop (length es) m l (first es None) = Some m' /\
    freed m' = release_log l (reverse es.*2) (freed m) /\
    forall x, nodes m' !! x = if decide (x ∈ es.*1) then None else nodes m !! x.
Proof.
  induction es as [|[x v] es IH]; intros m p Hd Hc.
  { exists m. split; [done|]. split; [by unfold release_log; case_match|]. intros x. rewrite decide_False; [done|].
    apply not_elem_of_nil. }
  destruct Hc as [Hx Hc]. apply list.NoDup_cons in Hd as [Hn Hd]. cbn [length first listRelease_loop obind].
  rewrite Hx. cbn [obind]. unfold freeNode. rewrite Hx. cbn [obind next value].
  destruct (IH {| nodes := delete x (nodes m); freed := if has_free l then v :: freed m else freed m |} (Some x)) as (m' & E & Ef & Hm').
  { done. }
  { eapply chain_frame; [|exact Hc]. intros y Hy. apply lookup_delete_ne. by intros ->. }
  exists m'. split; [exact E|]. split.
  - rewrite Ef. unfold release_log. cbn [freed]. rewrite fmap_cons, reverse_cons. cbn [snd].
    case_match; [|done]. by rewrite <- app_assoc.
  - intros y. rewrite Hm'. cbn [nodes]. destruct (decide (y ∈ es.*1)) as [Hy|Hy].
    + by rewrite decide_True by (by right).
    + destruct (decide (y = x)) as [->|Hyx]; [rewrite lookup_delete_eq, decide_True; [done|by left]|].
      rewrite lookup_delete_ne by done. rewrite decide_False; [done|]. rewrite fmap_cons, elem_of_cons. cbn. naive_solver.
Qed.

Lemma listRelease_spec F m l es : list_rep F m l es ->
  listRelease m l = Some {| nodes := F; freed := release_log l (reverse es.*2) (freed m) |}.
Proof.
  intros [Hd Hc Hh _ Hl Hf Ho]. unfold listRelease. rewrite Hl, Nat2Z.id, Hh.
  destruct (listRelease_loop_spec l es m None Hd Hc) as ([ns fr] & -> & Ef & Hm'). cbn in Ef, Hm'. rewrite Ef. do 2 f_equal.
  apply map_eq. intros x. rewrite Hm'. case_decide as Hx; [by rewrite Ho|by apply Hf].
Qed.

(** * Rotation *)

Lemma chain_alter_out h p es nx x f : x ∉ es.*1 -> chain h p es nx -> chain (alter f x h) p es nx.
Proof. intros Hx. apply chain_frame. intros y Hy. apply lookup_alter_ne. by intros ->. Qed.

Lemma listRotate_spec F m l a t v : list_rep F m l (a ++ [(t, v)]) -> Z.of_nat (length a) + 1 < 2 ^ 64 ->
  yields F m l (freed m) ((t, v) :: a) (listRotate m l).
Proof.
  intros Hr Hb. unfold listRotate, listLength. rewrite (rep_len _ _ _ _ Hr), length_app. cbn [length].
  destruct a as [|[hd w] a0]; [by exists m, l|]. set (a := (hd, w) :: a0) in *. assert (1 <= length a)%nat by (cbn; lia). bdecide.
  rewrite (rep_tail _ _ _ _ Hr), final_app. cbn [final obind]. rewrite (dl_lookup _ _ _ _ _ _ _ Hr). cbn [obind prev setTail tail].
  destruct (final None a) as [t'|] eqn:Et; [|by apply final_None in Et]. cbn [obind setTail head].
  pose proof (rep_nodup _ _ _ _ Hr) as [Hd Ht]%nodup_middle. rewrite app_nil_r in Hd, Ht.
  pose proof (rep_chain _ _ _ _ Hr) as [Ha [Hx _]]%dl_chain_app.
  assert (Hin : forall y, y ∈ a.*1 -> is_Some (nodes m !! y)) by (intros y Hy; by eapply chain_lookup).
  assert (Ht' : t' ∈ a.*1) by (by apply final_elem in Et as [?|?]).
  rewrite setNext_spec by (by apply Hin). cbn [obind]. rewrite (rep_head _ _ _ _ Hr), first_app. cbn [first a obind].
  rewrite setPrev_spec by (cbn; apply lookup_alter_is_Some, Hin; by left). cbn [obind].
  rewrite setPrev_spec by (cbn; rewrite !lookup_alter_is_Some; by eexists). cbn [obind].
  rewrite setNext_spec by (cbn; rewrite !lookup_alter_is_Some; by eexists). cbn [obind].
  do 2 eexists. split; [done|]. split; [|done].
  assert (Htx : forall y, y ∈ a.*1 -> y <> t) by (by intros y Hy ->).
  split; cbn [set_nodes nodes setHead setTail head tail len].
  - by apply list.NoDup_cons.
  - split.
    + rewrite !lookup_alter_eq, !lookup_alter_ne; [by rewrite Hx| |]; [by apply Htx|apply Htx; by left].
    + do 2 (apply chain_alter_out; [done|]).
      apply (chain_link_prev _ None (Some t) a None Hd). pose proof (chain_link_next _ _ _ _ None Hd Ha) as Hc.
      by rewrite Et in Hc.
  - done.
  - rewrite <- Et. done.
  - rewrite (rep_len _ _ _ _ Hr), length_app. cbn. lia.
  - intros y Hy. rewrite fmap_cons, elem_of_cons in Hy. rewrite !lookup_alter_ne by (intros <-; apply Hy; first [by left|right; done|right; by left]).
    apply (rep_frame _ _ _ _ Hr). rewrite fmap_app, elem_of_app. cbn [fmap list_fmap fst]. rewrite list_elem_of_singleton. naive_solver.
  - intros y Hy. apply (rep_own _ _ _ _ Hr). rewrite fmap_app, elem_of_app. rewrite fmap_cons, elem_of_cons in Hy.
    destruct Hy as [->|Hy]; [right; by left|by left].
Qed.

(** * Traversal *)

(** There is fuel for every node. *)
Lemma dl_size F m l es : list_rep F m l es -> (length es <= size (nodes m))%nat.
Proof.
  intros Hr. rewrite <- (length_fmap fst), <- size_dom.
  rewrite <- (size_list_to_set (C := gset ptr) (es.*1)) by apply (rep_nodup _ _ _ _ Hr). apply subseteq_size.
  intros x. rewrite elem_of_list_to_set. intros Hx. apply elem_of_dom. by apply (head_lookup _ _ _ _ _ Hr).
Qed.

Lemma listSearchKey_loop_spec m l key (f : Z -> bool) :
  (forall v, match match_ l with Some g => g v key | None => key =? v end = f v) ->
  forall es fuel p, chain (nodes m) p es None -> (length es < fuel)%nat ->
  listSearchKey_loop fuel m l {| iter_next := first es None; direction := AL_START_HEAD |} key
  = Some (fst <$> find (fun e => f (snd e)) es).
Proof.
  intros Hf es. induction es as [|[x v] es IH]; intros [|fuel] p Hc Hl; cbn in Hl; try lia; [done|].
  destruct Hc as [Hx Hc]. cbn [listSearchKey_loop listNext iter_next first direction]. rewrite Hx. cbn [obind next].
  rewrite Hx. cbn [obind value find snd]. rewrite Hf. destruct (f v); [done|]. rewrite decide_True by done.
  apply (IH fuel (Some x)); [done|lia].
Qed.

Lemma listIndex_loop_next m : forall es fuel p i, chain (nodes m) p es None -> 0 <= i -> (length es < fuel)%nat ->
  listIndex_loop fuel m next i (first es None) = Some (fst <$> es !! Z.to_nat i).
Proof.
  induction es as [|[x v] es IH]; intros [|fuel] p i Hc Hi Hl; cbn in Hl; try lia; cbn [listIndex_loop first].
  { by destruct (i =? 0). }
  destruct Hc as [Hx Hc]. destruct (Z.eqb_spec i 0) as [->|Hn]; [done|]. rewrite Hx. cbn [obind next].
  rewrite (IH fuel (Some x)) by (done || lia). by replace (Z.to_nat i) with (S (Z.to_nat (i - 1))) by lia.
Qed.

Lemma listIndex_loop_prev m : forall es fuel nx i, chain (nodes m) None es nx -> 0 <= i -> (length es < fuel)%nat ->
  listIndex_loop fuel m prev i (final None es) = Some (fst <$> reverse es !! Z.to_nat i).
Proof.
  intros es. induction es as [|[x v] es IH] using rev_ind; intros [|fuel] nx i Hc Hi Hl; rewrite ?length_app in Hl; cbn in Hl; try lia;
    cbn [listIndex_loop final].
  { by destruct (i =? 0). }
  rewrite final_app, reverse_app. cbn [final]. apply dl_chain_app in Hc as [Hc [Hx _]].
  destruct (Z.eqb_spec i 0) as [->|Hn]; [done|]. rewrite Hx. cbn [obind prev].
  rewrite (IH fuel _ (i - 1) Hc) by lia. by replace (Z.to_nat i) with (S (Z.to_nat (i - 1))) by lia.
Qed.

Lemma ll_arith_id v : - 2 ^ 63 <= v < 2 ^ 63 -> ll_arith v = Some v.
Proof. intros Hv. unfold ll_arith, LLONG_MIN, LLONG_MAX. by bdecide. Qed.

(** The position an index stands for. *)
Definition index_of (n : nat) (i : Z) : option nat :=
  if i <? 0 then (if - i <=? Z.of_nat n then Some (n - Z.to_nat (- i))%nat else None)
  else if i <? Z.of_nat n then Some (Z.to_nat i) else None.

Lemma listIndex_spec F m l es i : list_rep F m l es -> - 2 ^ 63 < i < 2 ^ 63 ->
  listIndex m l i = Some (k <- index_of (length es) i;; fst <$> es !! k).
Proof.
  intros Hr Hi. pose proof (dl_size _ _ _ _ Hr) as Hs. pose proof (rep_chain _ _ _ _ Hr) as Hc.
  unfold listIndex, index_of. destruct (Z.ltb_spec i 0) as [Hn|Hn].
  - rewrite !ll_arith_id by lia. cbn [obind]. rewrite !ll_arith_id by lia. cbn [obind].
    rewrite (rep_tail _ _ _ _ Hr), (listIndex_loop_prev m es _ None) by (done || lia). f_equal.
    destruct (Z.leb_spec (- i) (Z.of_nat (length es))) as [Hle|Hgt]; cbn [obind].
    + rewrite reverse_lookup by lia. do 2 f_equal. lia.
    + rewrite lookup_ge_None_2; [done|]. rewrite length_reverse. lia.
  - rewrite (rep_head _ _ _ _ Hr), (listIndex_loop_next m es _ None) by (done || lia). f_equal.
    destruct (Z.ltb_spec i (Z.of_nat (length es))) as [Hlt|Hge]; [done|]. cbn [obind]. rewrite lookup_ge_None_2; [done|lia].
Qed.

(** * Duplication *)

(** What the copy of a value is; [None] if the [dup] method fails. *)
Definition dup_value (d : option (Z -> option Z)) (v : Z) : option Z := match d with Some f => f v | None => Some v end.

(** The values of the copy before the first failure, and whether there was none. *)
Fixpoint dup_values (d : option (Z -> option Z)) (vs : list Z) : list Z * bool :=
  match vs with
  | [] => ([], true)
  | v :: vs =>
    match dup_value d v with
    | None => ([], false)
    | Some w => let '(ws, ok) := dup_values d vs in (w :: ws, ok)
    end
  end.

(** The copy [copy] of [cs] grows in the heap [H] that holds the rest [es] of
    the original. *)
Lemma listDup_loop_spec H : forall es fuel m copy cs p, chain H p es None -> list_rep H m copy cs ->
  (length es < fuel)%nat -> Z.of_nat (length cs + length es) < 2 ^ 64 ->
  let '(ws, ok) := dup_values (dup copy) es.*2 in
  exists m' r, listDup_loop fuel m {| iter_next := first es None; direction := AL_START_HEAD |} copy = Some (m', r) /\
  if ok : bool then exists c' cs', r = Some c' /\ list_rep H m' c' cs' /\ same_methods copy c' /\ freed m' = freed m /\ cs'.*2 = cs.*2 ++ ws
  else r = None /\ nodes m' = H /\ freed m' = release_log copy (reverse (cs.*2 ++ ws)) (freed m).
Proof.
  induction es as [|[x v] es IH]; intros [|fuel] m copy cs p Hc Hr Hf Hb; cbn in Hf; try lia.
  { cbn. do 2 eexists. split; [done|]. exists copy, cs. by rewrite app_nil_r. }
  cbn [length] in Hb. destruct Hc as [Hx Hc]. cbn [fmap list_fmap dup_values snd]. fold (fmap (M := list) (snd : ptr * Z -> Z) es).
  assert (Hmx : nodes m !! x = H !! x).
  { apply (rep_frame _ _ _ _ Hr). intros Hin. apply (rep_own _ _ _ _ Hr) in Hin. by rewrite Hx in Hin. }
  cbn [listDup_loop listNext iter_next first direction]. rewrite Hmx, Hx. cbn [obind]. rewrite Hmx, Hx. cbn [obind value next].
  rewrite decide_True by done. fold (dup_value (dup copy) v). destruct (dup_value (dup copy) v) as [w|].
  - destruct (listAddNodeTail_spec H m copy cs w Hr) as (y & m1 & c1 & -> & Hr1 & Hm1 & Hfr); [lia|]. cbn [obind].
    specialize (IH fuel m1 c1 (cs ++ [(y, w)]) (Some x) Hc Hr1). destruct Hm1 as (Ed & Efr & Em). rewrite Ed in IH.
    destruct (dup_values (dup copy) es.*2) as [ws ok]. destruct IH as (m' & r & E & Hok); [lia|rewrite length_app; cbn; lia|].
    exists m', r. split; [exact E|]. unfold release_log, same_methods in *. rewrite fmap_app, Hfr in Hok. rewrite Ed, Efr, Em in Hok.
    cbn [fmap list_fmap snd] in Hok. destruct ok.
    + destruct Hok as (c' & cs' & -> & Hr' & Hm' & Hf' & Ev). exists c', cs'. rewrite Ev, <- app_assoc. done.
    + by rewrite <- app_assoc in Hok.
  - rewrite (listRelease_spec H m copy cs Hr). cbn [obind]. rewrite app_nil_r. by do 2 eexists.
Qed.

Lemma listDup_spec F m l es : list_rep F m l es -> Z.of_nat (length es) < 2 ^ 64 ->
  let '(ws, ok) := dup_values (dup l) es.*2 in
  exists m' r, listDup m l = Some (m', r) /\
  if ok : bool then exists c cs, r = Some c /\ list_rep (nodes m) m' c cs /\ same_methods l c /\ freed m' = freed m /\ cs.*2 = ws
  else r = None /\ nodes m' = nodes m /\ freed m' = release_log l (reverse ws) (freed m).
Proof.
  intros Hr Hb. unfold listDup, listGetIterator. rewrite decide_True by done. rewrite (rep_head _ _ _ _ Hr).
  set (copy := {| head := _ |}). pose proof (dl_size _ _ _ _ Hr) as Hs. destruct m as [ns fr].
  assert (Hrc : list_rep ns (MkMem ns fr) copy []) by apply rep_create.
  pose proof (listDup_loop_spec ns es (S (size ns)) (MkMem ns fr) copy [] None (rep_chain _ _ _ _ Hr) Hrc) as H.
  change (dup copy) with (dup l) in H. destruct (dup_values (dup l) es.*2) as [ws ok]. cbn [nodes freed] in *.
  destruct H as (m' & r & E & Hok); [lia|cbn; lia|]. exists m', r. split; [exact E|]. destruct ok; exact Hok.
Qed.

(** * Iteration

    The usage pattern of [listNext]'s comment, with a body that may delete
    the current node: the values visited, in order. *)

Fixpoint iter_filter (fuel : nat) (m : mem) (l : adlist) (it : listIter) (keep : Z -> bool) (visited : list Z)
    : option (mem * adlist * list Z) :=
  match fuel with
  | O => None
  | S fuel =>
    ' (node, it) <- listNext m it;;
    match node with
    | None => Some (m, l, visited)
    | Some x =>
      n <- nodes m !! x;;
      ' (m, l) <- (if keep (value n) then Some (m, l) else listDelNode m l x);;
      iter_filter fuel m l it keep (visited ++ [value n])
    end
  end.

(** The elements that are kept, and the values that are not. *)
Definition kept (keep : Z -> bool) (es : list (ptr * Z)) : list (ptr * Z) := List.filter (fun e => keep (snd e)) es.
Definition dropped (keep : Z -> bool) (vs : list Z) : list Z := List.filter (fun v => negb (keep v)) vs.

Lemma release_log_app l vs ws fr : release_log l vs (release_log l ws fr) = release_log l (vs ++ ws) fr.
Proof. unfold release_log. case_match; [by rewrite app_assoc|done]. Qed.

Lemma release_log_methods l l' vs fr : same_methods l l' -> release_log l' vs fr = release_log l vs fr.
Proof. unfold release_log. by intros (_ & -> & _). Qed.

Lemma same_methods_trans l l' l'' : same_methods l l' -> same_methods l' l'' -> same_methods l l''.
Proof. unfold same_methods. intuition congruence. Qed.

(** One iteration on the current element [x] between [a] and [b]. *)
Lemma iter_body F m l a x v b (keep : Z -> bool) : list_rep F m l (a ++ (x, v) :: b) -> Z.of_nat (length (a ++ (x, v) :: b)) < 2 ^ 64 ->
  exists m' l', (if keep v then Some (m, l) else listDelNode m l x) = Some (m', l') /\
    list_rep F m' l' (a ++ kept keep [(x, v)] ++ b) /\ same_methods l l' /\
    freed m' = release_log l (dropped keep [v]) (freed m).
Proof.
  intros Hr Hb. unfold kept, dropped. cbn [List.filter snd]. destruct (keep v); cbn [negb app].
  - exists m, l. split; [done|]. split; [done|]. split; [done|]. unfold release_log. by case_match.
  - destruct (listDelNode_spec F m l a x v b Hr Hb) as (m' & l' & E & Hr' & Hm & Hf). by exists m', l'.
Qed.

Lemma iter_filter_head F (keep : Z -> bool) : forall b fuel m l a vis, list_rep F m l (a ++ b) ->
  Z.of_nat (length (a ++ b)) < 2 ^ 64 -> (length b < fuel)%nat ->
  exists m' l', iter_filter fuel m l {| iter_next := first b None; direction := AL_START_HEAD |} keep vis
    = Some (m', l', vis ++ b.*2) /\ list_rep F m' l' (a ++ kept keep b) /\ same_methods l l' /\
    freed m' = release_log l (reverse (dropped keep b.*2)) (freed m).
Proof.
  induction b as [|[x v] b IH]; intros [|fuel] m l a vis Hr Hb Hf; cbn in Hf; try lia.
  { exists m, l. cbn. rewrite app_nil_r. split; [done|]. split; [done|]. split; [done|]. unfold release_log. by case_match. }
  cbn [iter_filter listNext iter_next first direction]. rewrite (dl_lookup _ _ _ _ _ _ _ Hr). cbn [obind].
  rewrite (dl_lookup _ _ _ _ _ _ _ Hr). cbn [obind value next]. rewrite decide_True by done.
  destruct (iter_body F m l a x v b keep Hr Hb) as (m1 & l1 & -> & Hr1 & Hm1 & Hf1). cbn [obind].
  rewrite app_assoc in Hr1. destruct (IH fuel m1 l1 _ (vis ++ [v]) Hr1) as (m' & l' & E & Hr' & Hm' & Hf').
  { rewrite !length_app in *. cbn in *. destruct (keep v); cbn; lia. }
  { lia. }
  exists m', l'. split; [by rewrite E, <- app_assoc|]. split; [|split].
  - rewrite <- app_assoc in Hr'. unfold kept in *. cbn [List.filter snd] in *. by destruct (keep v).
  - by eapply same_methods_trans.
  - rewrite Hf', Hf1, (release_log_methods l l1) by done. rewrite release_log_app. f_equal.
    unfold dropped. rewrite fmap_cons. cbn [List.filter snd]. destruct (keep v); cbn [negb]; [by rewrite app_nil_r|by rewrite reverse_cons].
Qed.

Lemma iter_filter_tail F (keep : Z -> bool) : forall a fuel m l b vis, list_rep F m l (a ++ b) ->
  Z.of_nat (length (a ++ b)) < 2 ^ 64 -> (length a < fuel)%nat ->
  exists m' l', iter_filter fuel m l {| iter_next := final None a; direction := AL_START_TAIL |} keep vis
    = Some (m', l', vis ++ reverse a.*2) /\ list_rep F m' l' (kept keep a ++ b) /\ same_methods l l' /\
    freed m' = release_log l (dropped keep a.*2) (freed m).
Proof.
  intros a. induction a as [|[x v] a IH] using rev_ind; intros [|fuel] m l b vis Hr Hb Hf; rewrite ?length_app in Hf; cbn in Hf; try lia.
  { exists m, l. cbn. rewrite app_nil_r. split; [done|]. split; [done|]. split; [done|]. unfold release_log. by case_match. }
  rewrite <- app_assoc in Hr, Hb. cbn [app] in Hr, Hb. rewrite final_app. cbn [final].
  cbn [iter_filter listNext iter_next direction]. rewrite (dl_lookup _ _ _ _ _ _ _ Hr). cbn [obind].
  rewrite (dl_lookup _ _ _ _ _ _ _ Hr). cbn [obind value prev]. rewrite decide_False by done.
  destruct (iter_body F m l a x v b keep Hr Hb) as (m1 & l1 & -> & Hr1 & Hm1 & Hf1). cbn [obind].
  destruct (IH fuel m1 l1 _ (vis ++ [v]) Hr1) as (m' & l' & E & Hr' & Hm' & Hf').
  { rewrite !length_app in *. cbn in *. destruct (keep v); cbn; lia. }
  { lia. }
  exists m', l'. split; [|split; [|split]].
  - rewrite E, fmap_app, reverse_app, <- app_assoc. done.
  - unfold kept in *. by rewrite List.filter_app, <- app_assoc.
  - by eapply same_methods_trans.
  - rewrite Hf', Hf1, (release_log_methods l l1) by done. rewrite release_log_app. f_equal.
    unfold dropped. by rewrite fmap_app, List.filter_app.
Qed.

(** * Histories *)

Inductive op :=
  | AddHead (v : Z)
  | AddTail (v : Z)
  | InsertAt (i v : Z) (after : bool)
  | DelAt (i : Z)
  | Keep (dir : bool) (keep : Z -> bool)
  | Rotate
  | Search (key : Z)
  | Index (i : Z)
  | Length
  | Copy.

Inductive res :=
  | RUnit
  | RLen (n : Z)
  | RValue (v : option Z)
  | RValues (vs : option (list Z)).

(** The value of a node, if it is not [NULL]. *)
Definition value_at (m : mem) (o : option ptr) : option (option Z) :=
  match o with None => Some None | Some x => n <- nodes m !! x;; Some (Some (value n)) end.

(** The functions called as clients call them: nodes are found by index, a
    copy is read and released. *)
Definition exec (m : mem) (l : adlist) (o : op) : option (mem * adlist * res) :=
  match o with
  | AddHead v => ' (m, l) <- listAddNodeHead m l v;; Some (m, l, RUnit)
  | AddTail v => ' (m, l) <- listAddNodeTail m l v;; Some (m, l, RUnit)
  | InsertAt i v after =>
    n <- listIndex m l i;;
    match n with
    | None => Some (m, l, RUnit)
    | Some x => ' (m, l) <- listInsertNode m l x v after;; Some (m, l, RUnit)
    end
  | DelAt i =>
    n <- listIndex m l i;;
    match n with
    | None => Some (m, l, RUnit)
    | Some x => ' (m, l) <- listDelNode m l x;; Some (m, l, RUnit)
    end
  | Keep dir keep =>
    ' (m, l, vs) <- iter_filter (S (size (nodes m))) m l (listGetIterator l dir) keep [];;
    Some (m, l, RValues (Some vs))
  | Rotate => ' (m, l) <- listRotate m l;; Some (m, l, RUnit)
  | Search key => n <- listSearchKey m l key;; v <- value_at m n;; Some (m, l, RValue v)
  | Index i => n <- listIndex m l i;; v <- value_at m n;; Some (m, l, RValue v)
  | Length => Some (m, l, RLen (listLength l))
  | Copy =>
    ' (m, c) <- listDup m l;;
    match c with
    | None => Some (m, l, RValues None)
    | Some c =>
      ' (m, c, vs) <- iter_filter (S (size (nodes m))) m c (listGetIterator c AL_START_HEAD) (fun _ => true) [];;
      m <- listRelease m c;;
      Some (m, l, RValues (Some vs))
    end
  end.

Fixpoint exec_all (m : mem) (l : adlist) (os : list op) : option (mem * adlist * list res) :=
  match os with
  | [] => Some (m, l, [])
  | o :: os =>
    ' (m, l, r) <- exec m l o;;
    ' (m, l, rs) <- exec_all m l os;;
    Some (m, l, r :: rs)
  end.

Section Reference.
  Context (d : option (Z -> option Z)) (fl : bool) (mt : option (Z -> Z -> bool)).

Definition logged (vs fr : list Z) : list Z := if fl then vs ++ fr else fr.

(** The same operations on a sequence of values and the list of the freed
    values. *)
Definition ref (s fr : list Z) (o : op) : list Z * list Z * res :=
  match o with
  | AddHead v => (v :: s, fr, RUnit)
  | AddTail v => (s ++ [v], fr, RUnit)
  | InsertAt i v after =>
    match index_of (length s) i with
    | None => (s, fr, RUnit)
    | Some k => let k := if after then S k else k in (take k s ++ v :: drop k s, fr, RUnit)
    end
  | DelAt i =>
    match index_of (length s) i with
    | None => (s, fr, RUnit)
    | Some k => (delete k s, logged (from_option (fun v => [v]) [] (s !! k)) fr, RUnit)
    end
  | Keep dir keep =>
    let vs := if dir then reverse s else s in
    (List.filter keep s, logged (reverse (dropped keep vs)) fr, RValues (Some vs))
  | Rotate => (match list.last s with Some v => v :: removelast s | None => s end, fr, RUnit)
  | Search key => (s, fr, RValue (find (fun v => match mt with Some f => f v key | None => key =? v end) s))
  | Index i => (s, fr, RValue (k <- index_of (length s) i;; s !! k))
  | Length => (s, fr, RLen (Z.of_nat (length s)))
  | Copy => let '(ws, ok) := dup_values d s in (s, logged (reverse ws) fr, RValues (if ok then Some ws else None))
  end.

Fixpoint ref_all (s fr : list Z) (os : list op) : list Z * list Z * list res :=
  match os with
  | [] => (s, fr, [])
  | o :: os => let '(s, fr, r) := ref s fr o in let '(s, fr, rs) := ref_all s fr os in (s, fr, r :: rs)
  end.

(** The state of a list with these methods and the values [s]. *)
Definition holds (F : heap) (s fr : list Z) (m : mem) (l : adlist) : Prop :=
  exists es, list_rep F m l es /\ es.*2 = s /\ freed m = fr /\ dup l = d /\ has_free l = fl /\ match_ l = mt.

Definition op_wf (o : op) : Prop :=
  match o with InsertAt i _ _ | DelAt i | Index i => - 2 ^ 63 < i < 2 ^ 63 | _ => True end.

(** One operation: what the model returns and what the reference returns. *)
Definition simulates (F : heap) (r : list Z * list Z * res) (x : option (mem * adlist * res)) : Prop :=
  let '(s, fr, r) := r in exists m l, x = Some (m, l, r) /\ holds F s fr m l.

Lemma simulates_yields F m l es fr r s' : list_rep F m l es -> dup l = d -> has_free l = fl -> match_ l = mt ->
  (exists es', yields F m l fr es' r /\ es'.*2 = s') ->
  simulates F (s', fr, RUnit) (' (m, l) <- r;; Some (m, l, RUnit)).
Proof.
  intros Hr Ed Ef Em (es' & (m' & l' & -> & Hr' & (Ed' & Ef' & Em') & Hf) & Es). exists m', l'. split; [done|].
  exists es'. by rewrite Ed', Ef', Em'.
Qed.

(** The element at an index splits the list. *)
Lemma index_split (es : list (ptr * Z)) i k : index_of (length es) i = Some k ->
  exists a x v b, es = a ++ (x, v) :: b /\ length a = k /\ es !! k = Some (x, v).
Proof.
  intros Hk. assert (Hlt : (k < length es)%nat).
  { unfold index_of in Hk. repeat case_match; bprop; simplify_eq; lia. }
  destruct (lookup_lt_is_Some_2 es k Hlt) as [[x v] Hx]. exists (take k es), x, v, (drop (S k) es).
  split; [by rewrite take_drop_middle|]. split; [rewrite length_take; lia|done].
Qed.

Lemma insert_step F m l es i v after : list_rep F m l es -> dup l = d -> has_free l = fl -> match_ l = mt ->
  Z.of_nat (length es) + 1 < 2 ^ 64 -> - 2 ^ 63 < i < 2 ^ 63 ->
  simulates F (ref es.*2 (freed m) (InsertAt i v after)) (exec m l (InsertAt i v after)).
Proof.
  intros Hr Ed Ef Em Hb Hi. cbn [ref exec]. rewrite (listIndex_spec _ _ _ _ _ Hr Hi), length_fmap. cbn [obind].
  destruct (index_of (length es) i) as [k|] eqn:Ek; cbn [obind]; [|by exists m, l; split; [|exists es]].
  destruct (index_split _ _ _ Ek) as (a & x & w & b & -> & <- & ->). cbn [fmap option_fmap option_map fst].
  destruct (listInsertNode_spec F m l a x w b v after Hr Hb) as (y & Hy).
  assert (Ht : forall k, (k <= 1)%nat -> take (length a + k) (a ++ (x, w) :: b).*2 = a.*2 ++ take k (w :: b.*2) /\
    drop (length a + k) (a ++ (x, w) :: b).*2 = drop k (w :: b.*2)).
  { intros k _. rewrite fmap_app, fmap_cons. cbn [snd]. rewrite <- (length_fmap snd a). by rewrite take_app_add, drop_app_add. }
  eapply simulates_yields; [done|done|done|done|]. eexists. split; [exact Hy|]. destruct after.
  - replace (S (length a)) with (length a + 1)%nat by lia. destruct (Ht 1%nat) as [-> ->]; [lia|].
    rewrite fmap_app, !fmap_cons. cbn. by rewrite <- app_assoc.
  - destruct (Ht 0%nat) as [E1 E2]; [lia|]. rewrite Nat.add_0_r in E1, E2. rewrite E1, E2.
    rewrite fmap_app, !fmap_cons. cbn. by rewrite app_nil_r.
Qed.

Lemma del_step F m l es i : list_rep F m l es -> dup l = d -> has_free l = fl -> match_ l = mt ->
  Z.of_nat (length es) + 1 < 2 ^ 64 -> - 2 ^ 63 < i < 2 ^ 63 ->
  simulates F (ref es.*2 (freed m) (DelAt i)) (exec m l (DelAt i)).
Proof.
  intros Hr Ed Ef Em Hb Hi. cbn [ref exec]. rewrite (listIndex_spec _ _ _ _ _ Hr Hi), length_fmap. cbn [obind].
  destruct (index_of (length es) i) as [k|] eqn:Ek; cbn [obind]; [|by exists m, l; split; [|exists es]].
  destruct (index_split _ _ _ Ek) as (a & x & w & b & -> & <- & Hx). rewrite list_lookup_fmap, Hx.
  cbn [fmap option_fmap option_map fst snd from_option].
  eapply simulates_yields; [done|done|done|done|]. exists (a ++ b). split.
  - unfold logged. rewrite <- Ef. apply listDelNode_spec; [done|lia].
  - rewrite !fmap_app, fmap_cons. rewrite <- (length_fmap snd a). cbn [snd]. by rewrite delete_middle.
Qed.

Lemma keep_step F m l es dir keep : list_rep F m l es -> dup l = d -> has_free l = fl -> match_ l = mt ->
  Z.of_nat (length es) + 1 < 2 ^ 64 ->
  simulates F (ref es.*2 (freed m) (Keep dir keep)) (exec m l (Keep dir keep)).
Proof.
  intros Hr Ed Ef Em Hb. pose proof (dl_size _ _ _ _ Hr) as Hs. cbn [ref exec]. unfold listGetIterator.
  assert (Ek : (kept keep es).*2 = List.filter keep es.*2).
  { clear. unfold kept. induction es as [|[x v] es IH]; [done|]. cbn. destruct (keep v); cbn; by f_equal. }
  assert (Hl : forall vs, release_log l vs (freed m) = logged vs (freed m)) by (intros vs; unfold release_log; by rewrite Ef).
  destruct dir.
  - rewrite decide_False by done. rewrite (rep_tail _ _ _ _ Hr). pose proof Hr as Hr'. rewrite <- (app_nil_r es) in Hr'.
    destruct (iter_filter_tail F keep es (S (size (nodes m))) m l [] [] Hr') as (m' & l' & E & Hr1 & (Ed' & Ef' & Em') & Hf1).
    { rewrite app_nil_r. lia. }
    { lia. }
    unfold AL_START_TAIL, AL_START_HEAD in E. rewrite E. cbn [obind app]. exists m', l'. split; [done|]. exists (kept keep es). rewrite app_nil_r in Hr1.
    rewrite Ed', Ef', Em', Hf1, Hl, Ek. split; [done|]. split; [done|]. split; [|done]. f_equal.
    unfold dropped, reverse. rewrite <- !rev_alt, List.filter_rev. by rewrite rev_involutive.
  - rewrite decide_True by done. rewrite (rep_head _ _ _ _ Hr).
    destruct (iter_filter_head F keep es (S (size (nodes m))) m l [] [] Hr) as (m' & l' & E & Hr1 & (Ed' & Ef' & Em') & Hf1).
    { cbn. lia. }
    { lia. }
    unfold AL_START_TAIL, AL_START_HEAD in E. rewrite E. cbn [obind app]. exists m', l'. split; [done|]. exists (kept keep es). by rewrite Ed', Ef', Em', Hf1, Hl, Ek.
Qed.

Lemma copy_step F m l es : list_rep F m l es -> dup l = d -> has_free l = fl -> match_ l = mt ->
  Z.of_nat (length es) + 1 < 2 ^ 64 -> simulates F (ref es.*2 (freed m) Copy) (exec m l Copy).
Proof.
  intros Hr Ed Ef Em Hb. cbn [ref exec]. pose proof (listDup_spec F m l es Hr) as Hdup. rewrite Ed in Hdup.
  assert (Hlen : forall vs, (length (dup_values d vs).1 <= length vs)%nat).
  { clear. induction vs as [|v vs IH]; [done|]. cbn. destruct (dup_value d v); [|cbn; lia].
    destruct (dup_values d vs) as [ws ok]. cbn in *. lia. }
  specialize (Hlen es.*2). rewrite length_fmap in Hlen. destruct (dup_values d es.*2) as [ws ok]. cbn in Hlen.
  destruct Hdup as (m1 & r & -> & Hok); [lia|]. cbn [obind]. destruct ok.
  - destruct Hok as (c & cs & -> & Hc & Hmc & Hfr & <-). rewrite length_fmap in Hlen. pose proof (dl_size _ _ _ _ Hc) as Hs.
    unfold listGetIterator. rewrite decide_True by done. rewrite (rep_head _ _ _ _ Hc).
    destruct (iter_filter_head (nodes m) (fun _ => true) cs (S (size (nodes m1))) m1 c [] [] Hc) as (m2 & c2 & -> & Hr2 & Hm2 & Hf2).
    { cbn. lia. }
    { lia. }
    cbn [obind app]. rewrite (listRelease_spec _ _ _ _ Hr2). cbn [obind].
    assert (Ek : kept (fun _ => true) cs = cs) by (clear; unfold kept; induction cs; cbn; by f_equal).
    assert (Edr : dropped (fun _ => true) cs.*2 = []) by (clear; by induction cs).
    do 2 eexists. split; [done|]. exists es. split; [by eapply rep_ext; [..|exact Hr]|]. split; [done|]. split; [|done].
    cbn [freed app]. rewrite Ek, Hf2, Edr, Hfr. rewrite (release_log_methods c c2), (release_log_methods l c) by done.
    rewrite (release_log_methods l c) by done. unfold release_log, logged. rewrite Ef. by destruct fl.
  - destruct Hok as (-> & Hn & Hf). do 2 eexists. split; [done|]. exists es.
    split; [by eapply rep_ext; [..|exact Hr]|]. split; [done|]. split; [|done].
    rewrite Hf. unfold release_log, logged. by rewrite Ef.
Qed.

Lemma value_at_spec F m l a x v b : list_rep F m l (a ++ (x, v) :: b) -> value_at m (Some x) = Some (Some v).
Proof. intros Hr. cbn. by rewrite (dl_lookup _ _ _ _ _ _ _ Hr). Qed.

Lemma read_step F m l es o : list_rep F m l es -> dup l = d -> has_free l = fl -> match_ l = mt ->
  op_wf o -> match o with Search _ | Index _ | Length => True | _ => False end ->
  simulates F (ref es.*2 (freed m) o) (exec m l o).
Proof.
  intros Hr Ed Ef Em Hwf Ho. destruct o as [| | | | | |key|i| |]; try done; cbn [ref exec].
  - set (f := fun v : Z => match mt with Some g => g v key | None => key =? v end).
    unfold listSearchKey, listGetIterator. rewrite decide_True by done. rewrite (rep_head _ _ _ _ Hr).
    rewrite (listSearchKey_loop_spec m l key f) with (p := None).
    2: { by rewrite Em. }
    2: { apply (rep_chain _ _ _ _ Hr). }
    2: { pose proof (dl_size _ _ _ _ Hr). lia. }
    cbn [obind].
    assert (Hfind : value_at m (fst <$> find (fun e => f (snd e)) es) = Some (find f es.*2)).
    { assert (Hall : forall x v, (x, v) ∈ es -> value_at m (Some x) = Some (Some v)).
      { intros x v (a & b & ->)%list_elem_of_split. by eapply value_at_spec. }
      clear - Hall. induction es as [|[x v] es IH]; [done|]. cbn [find fmap list_fmap snd].
      destruct (f v); [apply Hall; by left|]. apply IH. intros y w Hy. apply Hall. by right. }
    rewrite Hfind. cbn [obind]. exists m, l. split; [done|]. by exists es.
  - rewrite (listIndex_spec _ _ _ _ _ Hr Hwf), length_fmap. cbn [obind].
    destruct (index_of (length es) i) as [k|] eqn:Ek; cbn [obind]; [|exists m, l; split; [done|]; by exists es].
    destruct (index_split _ _ _ Ek) as (a & x & v & b & -> & <- & Hx). rewrite list_lookup_fmap, Hx.
    cbn [fmap option_fmap option_map fst snd]. rewrite (value_at_spec _ _ _ _ _ _ _ Hr). cbn [obind].
    exists m, l. split; [done|]. by exists (a ++ (x, v) :: b).
  - exists m, l. unfold listLength. rewrite (rep_len _ _ _ _ Hr), length_fmap. split; [done|]. by exists es.
Qed.

Lemma exec_step F m l s fr o : holds F s fr m l -> op_wf o -> Z.of_nat (length s) + 1 < 2 ^ 64 ->
  simulates F (ref s fr o) (exec m l o).
Proof.
  intros (es & Hr & <- & <- & Ed & Ef & Em) Hwf Hb. rewrite length_fmap in Hb.
  destruct o as [v|v|i v after|i|dir keep| |key|i| |].
  - destruct (listAddNodeHead_spec F m l es v Hr) as (x & Hx); [lia|].
    eapply simulates_yields; [done..|]. eexists. split; [exact Hx|done].
  - destruct (listAddNodeTail_spec F m l es v Hr) as (x & Hx); [lia|].
    eapply simulates_yields; [done..|]. eexists. split; [exact Hx|]. by rewrite fmap_app.
  - by apply insert_step.
  - by apply del_step.
  - by apply keep_step.
  - eapply simulates_yields; [done..|]. destruct es as [|[t v] es _] using rev_ind.
    + exists []. split; [|done]. exists m, l. split; [|done]. unfold listRotate, listLength. by rewrite (rep_len _ _ _ _ Hr).
    + eexists. split; [apply listRotate_spec; [done|]; rewrite length_app in Hb; cbn in Hb; lia|].
      rewrite fmap_app. cbn [fmap list_fmap snd]. fold (fmap (M := list) (snd : ptr * Z -> Z) es).
      by rewrite last_snoc, removelast_last.
  - by apply read_step.
  - by apply read_step.
  - by apply read_step.
  - by apply copy_step.
Qed.

Lemma ref_length s fr o : (length (ref s fr o).1.1 <= S (length s))%nat.
Proof.
  destruct o; cbn [ref]; repeat case_match; cbn [fst]; rewrite ?length_app; cbn [length]; try lia.
  1,2: rewrite length_take, length_drop; lia.
  - rewrite delete_take_drop, length_app, length_take, length_drop. lia.
  - pose proof (List.filter_length_le keep s). lia.
  - pose proof (List.filter_length_le keep s). lia.
  - destruct s as [|w s _] using rev_ind; [done|]. rewrite removelast_last, length_app. cbn. lia.
Qed.

Lemma exec_all_refines F : forall os m l s fr, holds F s fr m l -> Forall op_wf os ->
  Z.of_nat (length s + length os) < 2 ^ 64 ->
  let '(s', fr', rs) := ref_all s fr os in exists m' l', exec_all m l os = Some (m', l', rs) /\ holds F s' fr' m' l'.
Proof.
  induction os as [|o os IH]; intros m l s fr Hh Hwf Hb; cbn [ref_all exec_all].
  { by exists m, l. }
  apply list.Forall_cons_1 in Hwf as [Ho Hwf]. cbn [length] in Hb.
  pose proof (exec_step F m l s fr o Hh Ho) as Hstep. pose proof (ref_length s fr o) as Hl.
  destruct (ref s fr o) as [[s1 fr1] r]. cbn in Hl. destruct Hstep as (m1 & l1 & -> & Hh1); [lia|]. cbn [obind].
  specialize (IH m1 l1 s1 fr1 Hh1 Hwf). destruct (ref_all s1 fr1 os) as [[s' fr'] rs].
  destruct IH as (m' & l' & -> & Hh'); [lia|]. by exists m', l'.
Qed.

End Reference.

(** A new list with its methods set. *)
Definition newList (d : option (Z -> option Z)) (fl : bool) (mt : option (Z -> Z -> bool)) : adlist :=
  {| head := head listCreate; tail := tail listCreate; dup := d; has_free := fl; match_ := mt; len := len listCreate |}.

(** * Properties *)

(** C18. Any history of fewer than [2^64] operations on a new list with any
    methods (insertions at either end or next to a node, deletions, iterations
    that delete the current element in either direction, rotations, searches,
    accesses by index, copies that are read and released) dereferences allocated
    nodes only and returns what the same history returns on a sequence of values;
    the [free] method gets the same values in the same order; and the release of the
    list at the end leaves the heap as it was before. *)
Theorem adlist_history_refines_list (F : heap) (d : option (Z -> option Z)) (fl : bool) (mt : option (Z -> Z -> bool))
    (os : list op) (Hwf : Forall op_wf os) (Hlen : Z.of_nat (length os) < 2 ^ 64) :
  let '(s, fr, rs) := ref_all d fl mt [] [] os in
  exists m l, exec_all {| nodes := F; freed := [] |} (newList d fl mt) os = Some (m, l, rs) /\
    listLength l = Z.of_nat (length s) /\ freed m = fr /\
    listRelease m l = Some {| nodes := F; freed := logged fl (reverse s) fr |}.
Proof.
  pose proof (exec_all_refines d fl mt F os {| nodes := F; freed := [] |} (newList d fl mt) [] []) as H.
  destruct (ref_all d fl mt [] [] os) as [[s fr] rs]. destruct H as (m & l & E & es & Hr & Es & Efr & Ed & Ef & Em).
  - exists []. split; [apply rep_create|done].
  - done.
  - done.
  - exists m, l. split; [done|]. unfold listLength. rewrite (rep_len _ _ _ _ Hr), <- Es, length_fmap. split; [done|].
    split; [done|]. rewrite (listRelease_spec _ _ _ _ Hr). unfold release_log, logged. by rewrite Ef, Efr.
Qed.

(** A history with every kind of operation, on an empty heap. *)
Lemma adlist_history_refines_list_witness :
  let os := [AddTail 1; AddTail 2; AddHead 3; InsertAt (-2) 4 true; Rotate; Index (-1); Search 4; DelAt 0;
             Keep true (fun v => negb (v =? 1)); Copy; Length] in
  let rs := [RUnit; RUnit; RUnit; RUnit; RUnit; RValue (Some 4); RValue (Some 4); RUnit;
             RValues (Some [4; 1; 3]); RValues (Some [13; 14]); RLen 2] in
  exists m l, exec_all {| nodes := ∅; freed := [] |} (newList (Some (fun v => Some (v + 10))) true None) os = Some (m, l, rs) /\
    freed m = [14; 13; 1; 2] /\ listRelease m l = Some {| nodes := ∅; freed := [4; 3; 14; 13; 1; 2] |}.
Proof.
  intros os rs.
  destruct (adlist_history_refines_list ∅ (Some (fun v => Some (v + 10))) true None os) as (m & l & H1 & _ & H3 & H4).
  - unfold os. repeat constructor; cbn; lia.
  - cbn. lia.
  - exists m, l. split; [exact H1|]. split; [exact H3|exact H4].
Defined.

(** [listDup] copies the list or nothing: if every value can be copied,
    the result is a list of the copies with the same methods, in new nodes; if the
    [dup] method fails on a value, [NULL] is returned, the nodes of the partial copy
    are gone from the heap and its values have been given to the [free] method. In
    both cases the nodes of the original are what they were. *)
Theorem adlist_dup_contract (F : heap) (m : mem) (l : adlist) (es : list (ptr * Z))
    (Hrep : list_rep F m l es) (Hlen : Z.of_nat (length es) < 2 ^ 64) :
  let '(ws, ok) := dup_values (dup l) es.*2 in
  exists m' r, listDup m l = Some (m', r) /\ chain (nodes m') None es None /\
  if ok : bool then
    exists c cs, r = Some c /\ list_rep (nodes m) m' c cs /\ same_methods l c /\ freed m' = freed m /\ cs.*2 = ws
  else r = None /\ nodes m' = nodes m /\ freed m' = release_log l (reverse ws) (freed m).
Proof.
  pose proof (listDup_spec F m l es Hrep Hlen) as H. pose proof (rep_chain _ _ _ _ Hrep) as Hc.
  destruct (dup_values (dup l) es.*2) as [ws ok]. destruct H as (m' & r & E & Hok). exists m', r. split; [done|].
  split; [|done]. destruct ok.
  - destruct Hok as (c & cs & _ & Hr & _). eapply chain_frame; [|exact Hc]. intros x Hx. apply (rep_frame _ _ _ _ Hr).
    intros Hcs. apply (rep_own _ _ _ _ Hr) in Hcs. destruct (chain_lookup _ _ _ _ _ Hc Hx) as [n Hn]. by rewrite Hn in Hcs.
  - by destruct Hok as (_ & -> & _).
Qed.

(** The second of two values cannot be copied. *)
Lemma adlist_dup_contract_witness :
  let ns := list_to_map [(1%positive, {| prev := None; next := Some 2%positive; value := 5 |});
                         (2%positive, {| prev := Some 1%positive; next := None; value := 6 |})] : heap in
  let l := {| head := Some 1%positive; tail := Some 2%positive; dup := Some (fun v => if v =? 6 then None else Some (v + 1));
              has_free := true; match_ := None; len := 2 |} in
  exists m', listDup {| nodes := ns; freed := [] |} l = Some (m', None) /\ nodes m' = ns /\ freed m' = [6].
Proof.
  intros ns l.
  destruct (adlist_dup_contract ∅ {| nodes := ns; freed := [] |} l [(1%positive, 5); (2%positive, 6)]) as (m' & r & H1 & _ & -> & H2 & H3).
  - split; try done.
    + repeat constructor; set_solver.
    + intros x Hx. cbn in Hx. unfold ns. cbn. rewrite !lookup_insert_ne by set_solver. done.
  - cbn. lia.
  - exists m'. split; [exact H1|]. split; [exact H2|exact H3].
Defined.
