(* ===== verification/Lzf.v ===== *)
(** The compressor ([lzf_c.c], [lzf_d.c], [lzfP.h]): both functions, for the
    configuration of the header ([HLOG] 16, [VERY_FAST], no [INIT_HTAB],
    [CHECK_INPUT]). *)

From S2P Require Import Prelude.

Definition HLOG : Z := 16.
Definition HSIZE : Z := Z.shiftl 1 HLOG.
Definition MAX_LIT : Z := Z.shiftl 1 5.
Definition MAX_OFF : Z := Z.shiftl 1 13.
Definition MAX_REF : Z := Z.shiftl 1 8 + Z.shiftl 1 3.

(** * Compression

    [ip], [ref] and [in_end] are positions in the input block, [op] and
    [out_end] positions in the output block. The hash table is a function from
    slots to positions; its contents before the first assignments are whatever the
    stack holds. *)

Definition IDX (h : Z) : Z := Z.land (uint 32 (Z.shiftr h (3 * 8 - HLOG) - h * 5)) (HSIZE - 1).

Definition set_slot (htab : Z -> Z) (i p : Z) : Z -> Z := fun j => if j =? i then p else htab j.

Section Compress.
Context (inp : bytes) (in_end : Z).

Definition FRST (p : Z) : option Z :=
  a <- load8 inp p;;
  b <- load8 inp (p + 1);;
  Some (Z.lor (Z.shiftl a 8) b).

Definition NEXT (v p : Z) : option Z :=
  c <- load8 inp (p + 2);;
  Some (uint 32 (Z.lor (Z.shiftl v 8) c)).

(** The condition of a match, and the value [off] gets: the pointer difference is
    an [unsigned long]. *)
Definition find_match (ip ref : Z) : option (option Z) :=
  let off := uint 64 (ip - ref - 1) in
  if (off <? MAX_OFF) && (ip + 4 <? in_end) && (0 <? ref) then
    r <- load inp ref 2;;
    i <- load inp ip 2;;
    if decide (r = i) then
      a <- load8 inp (ref + 2);;
      b <- load8 inp (ip + 2);;
      if a =? b then Some (Some off) else Some None
    else Some None
  else Some None.

(** The unrolled comparisons [len++; if (ref [len] != ip [len]) break;]: the
    length and whether the loop was left. *)
Fixpoint probe (n : nat) (ref ip len : Z) : option (Z * bool) :=
  match n with
  | O => Some (len, false)
  | S n =>
    let len := len + 1 in
    a <- load8 inp (ref + len);;
    b <- load8 inp (ip + len);;
    if negb (a =? b) then Some (len, true) else probe n ref ip len
  end.

(** [do len++; while (len < maxlen && ref[len] == ip[len]);] *)
Fixpoint extend (fuel : nat) (ref ip maxlen len : Z) : option Z :=
  match fuel with
  | O => None
  | S fuel =>
    let len := len + 1 in
    if len <? maxlen then
      a <- load8 inp (ref + len);;
      b <- load8 inp (ip + len);;
      if a =? b then extend fuel ref ip maxlen len else Some len
    else Some len
  end.

Definition match_length (ref ip maxlen : Z) : option Z :=
  ' (len, stop) <- (if 16 <? maxlen then probe 16 ref ip 2 else Some (2, false));;
  if (stop : bool) then Some len else extend (S (Z.to_nat maxlen)) ref ip maxlen len.

(** The bytes of a reference. *)
Definition emit_ref (out : bytes) (op off len : Z) : option (bytes * Z) :=
  ' (out, op) <-
    (if len <? 7 then
       out <- store8 out op (uint 8 (Z.shiftr off 8 + Z.shiftl len 5));;
       Some (out, op + 1)
     else
       out <- store8 out op (uint 8 (Z.shiftr off 8 + Z.shiftl 7 5));;
       out <- store8 out (op + 1) (uint 8 (len - 7));;
       Some (out, op + 2));;
  out <- store8 out op (uint 8 off);;
  Some (out, op + 1).

(** [op [- lit - 1] = lit - 1;] *)
Definition stop_run (out : bytes) (op lit : Z) : option bytes := store8 out (op - lit - 1) (uint 8 (lit - 1)).

(** The variables of the loop. *)
Record state := MkState { s_ip : Z; s_op : Z; s_lit : Z; s_hval : Z; s_htab : Z -> Z; s_out : bytes }.

(** What the body of the loop does: [return 0] with what is in the output block, [break], or
    the next iteration. *)
Inductive outcome := Return0 (out : bytes) | Break (s : state) | Next (s : state).

(** [lit++; *op++ = *ip++;] and the end of a full run. *)
Definition literal (s : state) : option state :=
  c <- load8 inp (s_ip s);;
  out <- store8 (s_out s) (s_op s) c;;
  let lit := s_lit s + 1 in
  let op := s_op s + 1 in
  if lit =? MAX_LIT then
    out <- stop_run out op lit;;
    Some {| s_ip := s_ip s + 1; s_op := op + 1; s_lit := 0; s_hval := s_hval s; s_htab := s_htab s; s_out := out |}
  else
    Some {| s_ip := s_ip s + 1; s_op := op; s_lit := lit; s_hval := s_hval s; s_htab := s_htab s; s_out := out |}.

(** A match at [ref] with the offset [off]. *)
Definition take_match (out_end ref off : Z) (s : state) : option outcome :=
  let ip := s_ip s in
  let maxlen := in_end - ip - 2 in
  let maxlen := if maxlen >? MAX_REF then MAX_REF else maxlen in
  out <- stop_run (s_out s) (s_op s) (s_lit s);;
  let op := s_op s - (if s_lit s =? 0 then 1 else 0) in
  if op + 3 + 1 >=? out_end then Some (Return0 out) else
  len <- match_length ref ip maxlen;;
  let len := len - 2 in
  let ip := ip + 1 in
  ' (out, op) <- emit_ref out op off len;;
  let op := op + 1 in
  let ip := ip + (len + 1) in
  if ip >=? in_end - 2 then
    Some (Break {| s_ip := ip; s_op := op; s_lit := 0; s_hval := s_hval s; s_htab := s_htab s; s_out := out |})
  else
    let ip := ip - 2 in
    hval <- FRST ip;;
    hval <- NEXT hval ip;;
    let htab := set_slot (s_htab s) (IDX hval) ip in
    let ip := ip + 1 in
    hval <- NEXT hval ip;;
    let htab := set_slot htab (IDX hval) ip in
    let ip := ip + 1 in
    Some (Next {| s_ip := ip; s_op := op; s_lit := 0; s_hval := hval; s_htab := htab; s_out := out |}).

Definition compress_body (out_end : Z) (s : state) : option outcome :=
  hval <- NEXT (s_hval s) (s_ip s);;
  let ref := s_htab s (IDX hval) in
  let s := {| s_ip := s_ip s; s_op := s_op s; s_lit := s_lit s; s_hval := hval;
              s_htab := set_slot (s_htab s) (IDX hval) (s_ip s); s_out := s_out s |} in
  off <- find_match (s_ip s) ref;;
  match off with
  | Some off => take_match out_end ref off s
  | None =>
    if s_op s >=? out_end then Some (Return0 (s_out s)) else
    s <- literal s;; Some (Next s)
  end.

(** [while (ip < in_end - 2)]; the left result is [return 0]. *)
Fixpoint compress_loop (fuel : nat) (out_end : Z) (s : state) : option (bytes + state) :=
  match fuel with
  | O => None
  | S fuel =>
    if s_ip s <? in_end - 2 then
      r <- compress_body out_end s;;
      match r with
      | Return0 out => Some (inl out)
      | Break s => Some (inr s)
      | Next s => compress_loop fuel out_end s
      end
    else Some (inr s)
  end.

(** [while (ip < in_end)] for the last bytes. *)
Fixpoint last_literals (fuel : nat) (s : state) : option state :=
  match fuel with
  | O => None
  | S fuel => if s_ip s <? in_end then s <- literal s;; last_literals fuel s else Some s
  end.

End Compress.

(** The size of the result, 0 if it does not fit, and the output block. *)
Definition lzf_compress (inp : bytes) (in_len : Z) (out : bytes) (out_len : Z) (htab : Z -> Z) : option (Z * bytes) :=
  if (in_len =? 0) || (out_len =? 0) then Some (0, out) else
  hval <- FRST inp 0;;
  let s := {| s_ip := 0; s_op := 1; s_lit := 0; s_hval := hval; s_htab := htab; s_out := out |} in
  r <- compress_loop inp in_len (S (Z.to_nat in_len)) out_len s;;
  match r with
  | inl out => Some (0, out)
  | inr s =>
    if s_op s + 3 >? out_len then Some (0, s_out s) else
    s <- last_literals inp in_len (S (Z.to_nat in_len)) s;;
    out <- stop_run (s_out s) (s_op s) (s_lit s);;
    Some (s_op s - (if s_lit s =? 0 then 1 else 0), out)
  end.

(** * Decompression *)

(** [do *op++ = *p++; while (--n);] from the block [src]. *)
Fixpoint copy_from (n : nat) (src : bytes) (p : Z) (out : bytes) (op : Z) : option bytes :=
  match n with
  | O => Some out
  | S n => c <- load8 src p;; out <- store8 out op c;; copy_from n src (p + 1) out (op + 1)
  end.

(** The same inside of the output block: the parts may overlap. *)
Fixpoint copy_within (n : nat) (out : bytes) (p op : Z) : option bytes :=
  match n with
  | O => Some out
  | S n => c <- load8 out p;; out <- store8 out op c;; copy_within n out (p + 1) (op + 1)
  end.

(** The values of [errno]. *)
Inductive lzf_errno := E2BIG | EINVAL.

(** The body of the loop: the error, or the next positions; with the output block. *)
Definition decompress_body (inp : bytes) (in_end out_end ip op : Z) (out : bytes)
    : option (lzf_errno * bytes + Z * Z * bytes) :=
  ctrl <- load8 inp ip;;
  let ip := ip + 1 in
  if ctrl <? Z.shiftl 1 5 then
    let ctrl := ctrl + 1 in
    if op + ctrl >? out_end then Some (inl (E2BIG, out))
    else if ip + ctrl >? in_end then Some (inl (EINVAL, out))
    else out <- copy_from (Z.to_nat ctrl) inp ip out op;; Some (inr (ip + ctrl, op + ctrl, out))
  else
    let len := Z.shiftr ctrl 5 in
    let ref := op - Z.shiftl (Z.land ctrl 31) 8 - 1 in
    if ip >=? in_end then Some (inl (EINVAL, out)) else
    r <- (if len =? 7 then
            l <- load8 inp ip;;
            let ip := ip + 1 in
            if ip >=? in_end then Some None else Some (Some (len + l, ip))
          else Some (Some (len, ip)));;
    match r with
    | None => Some (inl (EINVAL, out))
    | Some (len, ip) =>
      b <- load8 inp ip;;
      let ref := ref - b in
      let ip := ip + 1 in
      if op + len + 2 >? out_end then Some (inl (E2BIG, out))
      else if ref <? 0 then Some (inl (EINVAL, out))
      else out <- copy_within (Z.to_nat (len + 2)) out ref op;; Some (inr (ip, op + (len + 2), out))
    end.

Fixpoint decompress_loop (fuel : nat) (inp : bytes) (in_end out_end ip op : Z) (out : bytes)
    : option (lzf_errno * bytes + Z * bytes) :=
  match fuel with
  | O => None
  | S fuel =>
    r <- decompress_body inp in_end out_end ip op out;;
    match r with
    | inl e => Some (inl e)
    | inr (ip, op, out) =>
      if ip <? in_end then decompress_loop fuel inp in_end out_end ip op out else Some (inr (op, out))
    end
  end.

(** The error ([return 0] with [errno]) or the size, and the output block. *)
Definition lzf_decompress (inp : bytes) (in_len : Z) (out : bytes) (out_len : Z) : option (lzf_errno * bytes + Z * bytes) :=
  decompress_loop (S (Z.to_nat in_len)) inp in_len out_len 0 0 out.
