(* ===== verification/LzfSpec.v ===== *)
(** Compression: the format as a list of tokens, both functions against it,
    and the properties. *)

From S2P Require Import Prelude.
From S2P Require Import Lzf.

(** * The compressed format *)

Inductive tok :=
  | TLit (l : bytes)
  | TRef (off len : Z).

Definition tok_bytes (t : tok) : bytes :=
  match t with
  | TLit l => (msize l - 1) :: l
  | TRef off len => (if len <? 7 then [off / 256 + len * 32] else [off / 256 + 7 * 32; len - 7]) ++ [off mod 256]
  end.

(** [n] bytes, each from [off + 1] bytes before the end. *)
Fixpoint copy_ref (n : nat) (off : Z) (b : bytes) : bytes :=
  match n with
  | O => b
  | S n => copy_ref n off (b ++ [default 0 (b !! Z.to_nat (msize b - off - 1))])
  end.

Definition apply_tok (b : bytes) (t : tok) : bytes :=
  match t with
  | TLit l => b ++ l
  | TRef off len => copy_ref (Z.to_nat (len + 2)) off b
  end.

Definition tok_ok (b : bytes) (t : tok) : Prop :=
  match t with
  | TLit l => 1 <= msize l <= 32 /\ Forall is_byte l
  | TRef off len => 0 <= off < 8192 /\ off < msize b /\ 1 <= len <= 262
  end.

Fixpoint toks_ok (b : bytes) (ts : list tok) : Prop :=
  match ts with
  | [] => True
  | t :: ts => tok_ok b t /\ toks_ok (apply_tok b t) ts
  end.

Definition enc (ts : list tok) : bytes := concat (tok_bytes <$> ts).
Definition expand (b : bytes) (ts : list tok) : bytes := fold_left apply_tok ts b.

Lemma enc_snoc ts t : enc (ts ++ [t]) = enc ts ++ tok_bytes t.
Proof. unfold enc. rewrite fmap_app, concat_app. cbn. by rewrite app_nil_r. Qed.

Lemma expand_snoc b ts t : expand b (ts ++ [t]) = apply_tok (expand b ts) t.
Proof. unfold expand. by rewrite fold_left_app. Qed.

Lemma toks_ok_snoc : forall ts b t, toks_ok b (ts ++ [t]) <-> toks_ok b ts /\ tok_ok (expand b ts) t.
Proof. induction ts as [|u ts IH]; intros b t; cbn; [tauto|]. rewrite IH. tauto. Qed.

Lemma tok_bytes_size t b : tok_ok b t -> 2 <= msize (tok_bytes t) <= 33.
Proof.
  destruct t as [l|off len]; cbn [tok_ok tok_bytes].
  - intros [H _]. rewrite msize_cons. lia.
  - intros _. unfold msize. destruct (len <? 7); cbn; lia.
Qed.

Lemma tok_bytes_bytes t b : tok_ok b t -> Forall is_byte (tok_bytes t).
Proof.
  unfold is_byte. destruct t as [l|off len]; cbn [tok_ok tok_bytes].
  - intros [H Hl]. constructor; [lia|done].
  - intros (Ho & _ & Hl). assert (off / 256 < 32) by (apply Z.div_lt_upper_bound; lia). pose proof (Z.div_pos off 256).
    pose proof (Z.mod_pos_bound off 256). destruct (Z.ltb_spec len 7); repeat constructor; lia.
Qed.

Lemma enc_bytes : forall ts b, toks_ok b ts -> Forall is_byte (enc ts).
Proof.
  induction ts as [|t ts IH]; intros b H; [constructor|]. destruct H as [Ht Hts].
  change (enc (t :: ts)) with (tok_bytes t ++ enc ts). apply Forall_app. split; [by eapply tok_bytes_bytes|by eapply IH].
Qed.

Lemma msize_copy_ref n off : forall b, msize (copy_ref n off b) = msize b + Z.of_nat n.
Proof. induction n as [|n IH]; intros b; cbn [copy_ref]; [lia|]. rewrite IH, msize_app. change (msize [_]) with 1. lia. Qed.

Lemma copy_ref_bytes n off : forall b, Forall is_byte b -> Forall is_byte (copy_ref n off b).
Proof.
  induction n as [|n IH]; intros b Hb; [done|]. cbn. apply IH, Forall_app. split; [done|]. constructor; [|done].
  destruct (b !! _) as [c|] eqn:E; cbn; [|unfold is_byte; lia]. eapply list.Forall_lookup_1 in Hb; [|exact E]. done.
Qed.

Lemma apply_tok_bytes b t : Forall is_byte b -> tok_ok b t -> Forall is_byte (apply_tok b t).
Proof.
  intros Hb Ht. destruct t as [l|off len]; cbn; [|by apply copy_ref_bytes]. apply Forall_app. split; [done|]. apply Ht.
Qed.

Lemma msize_apply_tok b t : tok_ok b t -> msize b <= msize (apply_tok b t).
Proof.
  intros Ht. destruct t as [l|off len]; cbn; [rewrite msize_app; pose proof (msize_nonneg l); lia|]. rewrite msize_copy_ref. lia.
Qed.

Lemma msize_expand : forall ts b, toks_ok b ts -> msize b <= msize (expand b ts).
Proof.
  induction ts as [|t ts IH]; intros b H; [cbn; lia|]. destruct H as [Ht Hts]. cbn. apply IH in Hts.
  apply msize_apply_tok in Ht. unfold expand in Hts. lia.
Qed.

(** * Decompression of tokens *)

Lemma byte_id c : is_byte c -> uint 8 c = c.
Proof. intros H. apply uint_id. unfold is_byte in H. lia. Qed.

Lemma copy_from_spec : forall l A R b junk, Forall is_byte l -> msize l <= msize junk ->
  copy_from (length l) (A ++ l ++ R) (msize A) (b ++ junk) (msize b) = Some ((b ++ l) ++ drop (length l) junk).
Proof.
  induction l as [|c l IH]; intros A R b junk Hl Hj; cbn [copy_from length].
  { by rewrite app_nil_r, drop_0. }
  apply list.Forall_cons_1 in Hl as [Hc Hl]. rewrite msize_cons in Hj. pose proof (msize_nonneg l).
  rewrite (load8_at A c (l ++ R)) by done. cbn [obind]. destruct junk as [|j junk]; [unfold msize in *; cbn in *; lia|].
  rewrite (store8_at b j junk) by done. cbn [obind]. rewrite byte_id by done.
  specialize (IH (A ++ [c]) R (b ++ [c]) junk Hl). rewrite !msize_app, <- !app_assoc in IH. cbn [app] in IH.
  rewrite msize_cons in Hj. change (msize [c]) with 1 in IH. rewrite <- app_comm_cons, IH by lia. by rewrite <- app_assoc.
Qed.

Lemma copy_within_spec off : forall n b junk, Forall is_byte b -> 0 <= off < msize b -> Z.of_nat n <= msize junk ->
  copy_within n (b ++ junk) (msize b - off - 1) (msize b) = Some (copy_ref n off b ++ drop n junk).
Proof.
  induction n as [|n IH]; intros b junk Hb Ho Hj; cbn [copy_within copy_ref]; [by rewrite drop_0|].
  destruct junk as [|j junk]; [unfold msize in *; cbn in *; lia|].
  assert (Hlt : (Z.to_nat (msize b - off - 1) < length b)%nat) by (unfold msize in *; lia).
  destruct (lookup_lt_is_Some_2 b _ Hlt) as [c Hc]. rewrite Hc. cbn [default].
  unfold load8 at 1. bdecide. rewrite lookup_app_l, Hc by done. cbn [obind].
  assert (Hbc : is_byte c) by (eapply list.Forall_lookup_1 in Hb; [|exact Hc]; done).
  rewrite (store8_at b j junk) by done. cbn [obind]. rewrite byte_id by done.
  specialize (IH (b ++ [c]) junk). rewrite msize_app, <- app_assoc in IH. change (msize [c]) with 1 in IH. cbn [app] in IH.
  replace (msize b - off - 1 + 1) with (msize b + 1 - off - 1) by lia. rewrite msize_cons in Hj.
  rewrite IH; [done| |lia|lia]. apply Forall_app. split; [done|]. by constructor.
Qed.

(** The control byte of a reference. *)
Lemma ctrl_spec h l : 0 <= h < 32 -> 1 <= l < 8 ->
  32 <= h + l * 32 /\ Z.shiftr (h + l * 32) 5 = l /\ Z.land (h + l * 32) 31 = h.
Proof.
  intros Hh Hl. split; [lia|]. split.
  - rewrite Z.shiftr_div_pow2 by lia. change (2 ^ 5) with 32. rewrite Z.div_add by lia. rewrite Z.div_small; lia.
  - change 31 with (Z.ones 5). rewrite Z.land_ones by lia. change (2 ^ 5) with 32. rewrite Z.mod_add by lia. apply Z.mod_small. lia.
Qed.

Lemma off_split off : off = off / 256 * 256 + off mod 256.
Proof. rewrite Z.mul_comm. apply Z.div_mod. lia. Qed.

Lemma decompress_body_spec A t R b junk in_end out_end : Forall is_byte b -> tok_ok b t ->
  msize A + msize (tok_bytes t) <= in_end -> msize (apply_tok b t) <= out_end -> out_end <= msize (b ++ junk) ->
  exists junk', decompress_body (A ++ tok_bytes t ++ R) in_end out_end (msize A) (msize b) (b ++ junk)
    = Some (inr (msize A + msize (tok_bytes t), msize (apply_tok b t), apply_tok b t ++ junk')) /\
    msize (apply_tok b t ++ junk') = msize (b ++ junk).
Proof.
  intros Hb Ht Hin Hout Hj. rewrite msize_app in Hj. unfold decompress_body. change (Z.shiftl 1 5) with 32.
  destruct t as [l|off len]; cbn [tok_ok tok_bytes apply_tok] in *.
  - destruct Ht as [Hl Hbl]. rewrite msize_cons in *. rewrite msize_app in Hout. cbn [app].
    rewrite (load8_at A (msize l - 1) (l ++ R)) by done. cbn [obind]. bdecide.
    replace (msize l - 1 + 1) with (msize l) by lia.
    pose proof (copy_from_spec l (A ++ [msize l - 1]) R b junk Hbl) as E.
    rewrite msize_app, <- app_assoc in E. change (msize [_]) with 1 in E. cbn [app] in E.
    replace (Z.to_nat (msize l)) with (length l) by (unfold msize; lia). rewrite E by lia. cbn [obind].
    exists (drop (length l) junk). rewrite !msize_app. split; [do 4 f_equal; lia|].
    unfold msize in *. rewrite length_drop. lia.
  - destruct Ht as (Ho & Hob & Hl). assert (Hh : 0 <= off / 256 < 32).
    { split; [apply Z.div_pos; lia|]. apply Z.div_lt_upper_bound; lia. }
    rewrite msize_copy_ref in *. pose proof (off_split off) as Hs.
    assert (Hcw : copy_within (Z.to_nat (len + 2)) (b ++ junk) (msize b - Z.shiftl (off / 256) 8 - 1 - off mod 256) (msize b)
      = Some (copy_ref (Z.to_nat (len + 2)) off b ++ drop (Z.to_nat (len + 2)) junk)).
    { rewrite Z.shiftl_mul_pow2 by lia. change (2 ^ 8) with 256.
      replace (msize b - off / 256 * 256 - 1 - off mod 256) with (msize b - off - 1) by lia. apply copy_within_spec; [done|lia|lia]. }
    assert (Hr0 : 0 <= msize b - Z.shiftl (off / 256) 8 - 1 - off mod 256).
    { rewrite Z.shiftl_mul_pow2 by lia. change (2 ^ 8) with 256. lia. }
    exists (drop (Z.to_nat (len + 2)) junk). split.
    2: { rewrite !msize_app, msize_copy_ref. unfold msize in *. rewrite length_drop. lia. }
    destruct (Z.ltb_spec len 7) as [H7|H7]; cbn [app] in *; rewrite !msize_cons, msize_nil in *.
    + destruct (ctrl_spec (off / 256) len Hh) as (H32 & Hc5 & Hc31); [lia|].
      rewrite (load8_at A (off / 256 + len * 32) (off mod 256 :: R)) by done. cbn [obind]. bdecide.
      rewrite Hc5, Hc31. bdecide. cbn [obind].
      rewrite (load8_at (A ++ [off / 256 + len * 32]) (off mod 256) R) by (rewrite <- ?app_assoc, ?msize_app; done). cbn [obind].
      bdecide. rewrite Hcw. cbn [obind]. do 4 f_equal; lia.
    + destruct (ctrl_spec (off / 256) 7 Hh) as (H32 & Hc5 & Hc31); [lia|].
      rewrite (load8_at A (off / 256 + 7 * 32) (len - 7 :: off mod 256 :: R)) by done. cbn [obind]. bdecide.
      rewrite Hc5, Hc31. bdecide.
      rewrite (load8_at (A ++ [off / 256 + 7 * 32]) (len - 7) (off mod 256 :: R)) by (rewrite <- ?app_assoc, ?msize_app; done).
      cbn [obind]. bdecide. cbn [obind].
      rewrite (load8_at (A ++ [off / 256 + 7 * 32; len - 7]) (off mod 256) R).
      2: { by rewrite <- app_assoc. }
      2: { rewrite msize_app, !msize_cons, msize_nil. lia. }
      cbn [obind]. replace (7 + (len - 7)) with len by lia. bdecide. rewrite Hcw. cbn [obind]. do 4 f_equal; lia.
Qed.

Lemma decompress_loop_spec in_end out_end R : forall ts fuel A b junk, ts <> [] -> Forall is_byte b -> toks_ok b ts ->
  in_end = msize A + msize (enc ts) -> msize (expand b ts) <= out_end -> out_end <= msize (b ++ junk) ->
  (length ts <= fuel)%nat ->
  exists junk', decompress_loop fuel (A ++ enc ts ++ R) in_end out_end (msize A) (msize b) (b ++ junk)
    = Some (inr (msize (expand b ts), expand b ts ++ junk')).
Proof.
  induction ts as [|t ts IH]; intros [|fuel] A b junk Hne Hb Hok Hin Hout Hj Hf; cbn in Hf; try done; try lia.
  destruct Hok as [Ht Hok]. change (enc (t :: ts)) with (tok_bytes t ++ enc ts) in *.
  change (expand b (t :: ts)) with (expand (apply_tok b t) ts) in *. rewrite msize_app in Hin.
  pose proof (msize_expand _ _ Hok) as He. pose proof (msize_nonneg (enc ts)).
  destruct (decompress_body_spec A t (enc ts ++ R) b junk in_end out_end Hb Ht) as (junk1 & E & Hs); [lia|lia|done|].
  cbn [decompress_loop]. rewrite <- app_assoc, E. cbn [obind]. destruct ts as [|u ts].
  - change (msize (enc [])) with 0 in Hin. bdecide. by exists junk1.
  - destruct Hok as [Hu Hok]. pose proof (tok_bytes_size u _ Hu) as Hub.
    change (enc (u :: ts)) with (tok_bytes u ++ enc ts) in Hin. rewrite msize_app in Hin. pose proof (msize_nonneg (enc ts)). bdecide.
    destruct (IH fuel (A ++ tok_bytes t) (apply_tok b t) junk1) as (junk' & E').
    + done.
    + by apply apply_tok_bytes.
    + done.
    + change (enc (u :: ts)) with (tok_bytes u ++ enc ts). rewrite !msize_app. lia.
    + done.
    + lia.
    + lia.
    + exists junk'. rewrite msize_app, <- !app_assoc in E'. exact E'.
Qed.

Lemma enc_length ts b : toks_ok b ts -> (length ts <= length (enc ts))%nat.
Proof.
  revert b. induction ts as [|t ts IH]; intros b H; [done|]. destruct H as [Ht H].
  change (enc (t :: ts)) with (tok_bytes t ++ enc ts). rewrite length_app. apply IH in H.
  apply tok_bytes_size in Ht. unfold msize in Ht. cbn. lia.
Qed.

(** A valid stream is expanded. *)
Lemma lzf_decompress_spec ts R out out_len : ts <> [] -> toks_ok [] ts -> msize (expand [] ts) <= out_len <= msize out ->
  exists junk, lzf_decompress (enc ts ++ R) (msize (enc ts)) out out_len
    = Some (inr (msize (expand [] ts), expand [] ts ++ junk)).
Proof.
  intros Hne Hok Hout. unfold lzf_decompress.
  apply (decompress_loop_spec _ _ R ts _ [] [] out); [done|done|done|done|lia|cbn; lia|].
  apply enc_length in Hok. unfold msize. lia.
Qed.

(** * Decompression of arbitrary input *)

Lemma load8_in (l : bytes) i : 0 <= i < msize l -> exists c, load8 l i = Some c /\ c ∈ l.
Proof.
  intros Hi. unfold load8. bdecide. destruct (lookup_lt_is_Some_2 l (Z.to_nat i)) as [c Hc]; [unfold msize in Hi; lia|].
  exists c. split; [done|]. by eapply list_elem_of_lookup_2.
Qed.

Lemma store8_in (l : bytes) i v : 0 <= i < msize l -> exists l', store8 l i v = Some l' /\ msize l' = msize l.
Proof.
  intros Hi. destruct (split_at l i) as (l1 & l2 & -> & H1); [lia|]. destruct l2 as [|c l2].
  { rewrite msize_app in Hi. change (msize []) with 0 in Hi. lia. }
  rewrite (store8_at l1 c l2) by done. eexists. split; [done|]. by rewrite !msize_app, !msize_cons.
Qed.

Lemma copy_from_safe src : forall n p out op, 0 <= p -> p + Z.of_nat n <= msize src -> 0 <= op ->
  op + Z.of_nat n <= msize out -> exists out', copy_from n src p out op = Some out' /\ msize out' = msize out.
Proof.
  induction n as [|n IH]; intros p out op Hp Hps Ho Hos; cbn [copy_from]; [by exists out|].
  destruct (load8_in src p) as (c & -> & _); [lia|]. cbn [obind].
  destruct (store8_in out op c) as (o1 & -> & Hs); [lia|]. cbn [obind].
  destruct (IH (p + 1) o1 (op + 1)) as (out' & E & Hs'); [lia..|]. exists out'. split; [done|]. by rewrite Hs', Hs.
Qed.

Lemma copy_within_safe : forall n out p op, 0 <= p -> p <= op -> op + Z.of_nat n <= msize out ->
  exists out', copy_within n out p op = Some out' /\ msize out' = msize out.
Proof.
  induction n as [|n IH]; intros out p op Hp Hpo Hos; cbn [copy_within]; [by exists out|].
  destruct (load8_in out p) as (c & -> & _); [lia|]. cbn [obind].
  destruct (store8_in out op c) as (o1 & -> & Hs); [lia|]. cbn [obind].
  destruct (IH o1 (p + 1) (op + 1)) as (out' & E & Hs'); [lia..|]. exists out'. split; [done|]. by rewrite Hs', Hs.
Qed.

(** The next state is inside of the blocks, and further on. *)
Definition body_ok (in_end out_end ip size : Z) (r : lzf_errno * bytes + Z * Z * bytes) : Prop :=
  match r with
  | inl (_, out) => msize out = size
  | inr (ip', op', out') => ip < ip' <= in_end /\ 0 <= op' <= out_end /\ msize out' = size
  end.

Lemma decompress_body_safe inp in_end out_end ip op out : Forall is_byte inp -> 0 <= ip < in_end -> in_end <= msize inp ->
  0 <= op <= out_end -> out_end <= msize out ->
  exists r, decompress_body inp in_end out_end ip op out = Some r /\ body_ok in_end out_end ip (msize out) r.
Proof.
  intros Hb Hip Hin Hop Hout. assert (Hload : forall i, 0 <= i < in_end -> exists c, load8 inp i = Some c /\ is_byte c).
  { intros i Hi. destruct (load8_in inp i) as (c & E & Hc); [lia|]. exists c. split; [done|]. rewrite list.Forall_forall in Hb. by apply Hb. }
  unfold decompress_body. destruct (Hload ip Hip) as (ctrl & -> & Hc). cbn [obind]. unfold is_byte in Hc. change (Z.shiftl 1 5) with 32.
  destruct (Z.ltb_spec ctrl 32) as [H32|H32].
  - rewrite !Z.gtb_ltb. destruct (Z.ltb_spec out_end (op + (ctrl + 1))) as [H1|H1]; [by eexists|].
    destruct (Z.ltb_spec in_end (ip + 1 + (ctrl + 1))) as [H2|H2]; [by eexists|].
    destruct (copy_from_safe inp (Z.to_nat (ctrl + 1)) (ip + 1) out op) as (out' & -> & Hs); [lia..|]. cbn [obind].
    eexists. split; [done|]. cbn. lia.
  - rewrite !Z.geb_leb. destruct (Z.leb_spec in_end (ip + 1)) as [H1|H1]; [by eexists|].
    assert (Hlen : 1 <= Z.shiftr ctrl 5 <= 7).
    { rewrite Z.shiftr_div_pow2 by lia. change (2 ^ 5) with 32. split; [apply Z.div_le_lower_bound; lia|].
      apply Z.lt_succ_r, Z.div_lt_upper_bound; lia. }
    assert (Hland : 0 <= Z.shiftl (Z.land ctrl 31) 8).
    { rewrite Z.shiftl_mul_pow2 by lia. assert (0 <= Z.land ctrl 31) by (apply Z.land_nonneg; lia). lia. }
    set (r1 := if Z.shiftr ctrl 5 =? 7 then _ else _).
    assert (Hr1 : r1 = Some None \/ exists l i, r1 = Some (Some (l, i)) /\ 1 <= l /\ ip + 1 <= i < in_end).
    { unfold r1. destruct (Z.eqb_spec (Z.shiftr ctrl 5) 7) as [E7|E7]; [|right; do 2 eexists; split; [done|]; lia].
      destruct (Hload (ip + 1)) as (l & -> & Hl); [lia|]. cbn [obind]. unfold is_byte in Hl.
      destruct (Z.leb_spec in_end (ip + 1 + 1)); [by left|]. right. do 2 eexists. split; [done|]. lia. }
    destruct Hr1 as [->|(l & i & -> & Hl & Hi)]; cbn [obind]; [by eexists|].
    destruct (Hload i) as (c & -> & Hcc); [lia|]. cbn [obind]. unfold is_byte in Hcc. rewrite Z.gtb_ltb.
    destruct (Z.ltb_spec out_end (op + l + 2)) as [H2|H2]; [by eexists|].
    set (ref := op - _ - 1 - c). assert (ref <= op) by (unfold ref; lia).
    destruct (Z.ltb_spec ref 0) as [H3|H3]; [by eexists|].
    destruct (copy_within_safe (Z.to_nat (l + 2)) out ref op) as (out' & -> & Hs); [lia..|]. cbn [obind].
    eexists. split; [done|]. cbn. lia.
Qed.

Lemma decompress_loop_safe inp in_end out_end : Forall is_byte inp -> in_end <= msize inp ->
  forall fuel ip op out, 0 <= ip < in_end -> 0 <= op <= out_end -> out_end <= msize out -> (Z.to_nat (in_end - ip) <= fuel)%nat ->
  exists r, decompress_loop fuel inp in_end out_end ip op out = Some r /\
    match r with inl (_, out') => msize out' = msize out | inr (n, out') => 0 <= n <= out_end /\ msize out' = msize out end.
Proof.
  intros Hb Hin. induction fuel as [|fuel IH]; intros ip op out Hip Hop Hout Hf; [lia|]. cbn [decompress_loop].
  destruct (decompress_body_safe inp in_end out_end ip op out) as (r & -> & Hr); [done..|]. cbn [obind].
  destruct r as [[e o]|[[ip' op'] o]]; cbn in Hr; [by eexists|]. destruct Hr as (Hi & Ho & Hs).
  destruct (Z.ltb_spec ip' in_end); [|by eexists]. destruct (IH ip' op' o) as (r & E & Hr); [lia..|].
  exists r. split; [done|]. destruct r as [[? ?]|[? ?]]; by rewrite <- Hs.
Qed.

(** * Finding matches *)

Section Compress.
Context (inp : bytes) (Hbytes : Forall is_byte inp).

Definition at_ (i : Z) : Z := default 0 (inp !! Z.to_nat i).

Lemma load8_pos i : 0 <= i < msize inp -> load8 inp i = Some (at_ i).
Proof.
  intros Hi. unfold load8, at_. bdecide. destruct (lookup_lt_is_Some_2 inp (Z.to_nat i)) as [c ->]; [unfold msize in Hi; lia|done].
Qed.

Lemma load2_pos i : 0 <= i -> i + 2 <= msize inp -> load inp i 2 = Some [at_ i; at_ (i + 1)].
Proof.
  intros H0 Hi. destruct (split_at inp i) as (l1 & l2 & E & H1); [lia|]. rewrite E, msize_app in Hi.
  destruct l2 as [|a [|b l2]]; [change (msize (A := Z) []) with 0 in Hi; lia|change (msize [a]) with 1 in Hi; lia|].
  assert (Ha : load8 inp i = Some a) by (by apply (load8_at l1 a (b :: l2))).
  assert (Hb : load8 inp (i + 1) = Some b).
  { apply (load8_at (l1 ++ [a]) b l2); [by rewrite <- app_assoc|rewrite msize_app; change (msize [a]) with 1; lia]. }
  pose proof (msize_nonneg l2) as Hl2. rewrite !msize_cons in Hi.
  assert (Hm : msize inp = i + (1 + (1 + msize l2))) by (by rewrite E, msize_app, !msize_cons, H1).
  rewrite load8_pos in Ha, Hb by lia. simplify_eq Ha. simplify_eq Hb. intros Eb Ea.
  apply (load_at l1 _ l2); [by rewrite E, <- Ea, <- Eb|done|done].
Qed.

(** The bytes at [ref] and at [ip] agree before the distance [n]. *)
Definition agree (ref ip n : Z) : Prop := forall k, 0 <= k < n -> at_ (ref + k) = at_ (ip + k).

Lemma agree_succ ref ip n : agree ref ip n -> at_ (ref + n) = at_ (ip + n) -> agree ref ip (n + 1).
Proof. intros H E k Hk. destruct (decide (k = n)) as [->|Hn]; [done|]. apply H. lia. Qed.

Lemma find_match_spec ip ref : 0 <= ip -> ip < msize inp < 2 ^ 32 -> ref < 2 ^ 64 - 8192 ->
  exists r, find_match inp (msize inp) ip ref = Some r /\
  match r with
  | None => True
  | Some off => off = ip - ref - 1 /\ 0 <= off < 8192 /\ 0 < ref /\ ip + 4 < msize inp /\ agree ref ip 3
  end.
Proof.
  intros H0 Hip Hr. unfold find_match. set (off := uint 64 (ip - ref - 1)). change MAX_OFF with 8192.
  destruct (Z.ltb_spec off 8192) as [Ho|]; [|by eexists]. destruct (Z.ltb_spec (ip + 4) (msize inp)) as [Hi|]; [|by eexists].
  destruct (Z.ltb_spec 0 ref) as [Hr0|]; [|by eexists]. cbn [andb].
  assert (Eo : off = ip - ref - 1 /\ 0 <= ip - ref - 1).
  { unfold off, uint in *. destruct (Z.lt_ge_cases (ip - ref - 1) 0) as [Hn|Hn]; [|rewrite Z.mod_small; lia].
    rewrite <- (Z.mod_add _ 1) in Ho by lia. rewrite Z.mod_small in Ho by lia. lia. }
  destruct Eo as [Eo Hge]. rewrite !load2_pos by lia. cbn [obind]. destruct (decide _) as [E2|]; [|by eexists].
  rewrite !load8_pos by lia. cbn [obind]. destruct (Z.eqb_spec (at_ (ref + 2)) (at_ (ip + 2))) as [E3|]; [|by eexists].
  eexists. split; [done|]. split; [done|]. split; [lia|]. split; [done|]. split; [lia|].
  injection E2 as E0 E1. intros k Hk. assert (Hc : k = 0 \/ k = 1 \/ k = 2) by lia.
  destruct Hc as [->|[->| ->]]; rewrite ?Z.add_0_r; done.
Qed.

Section Match.
Context (ref ip : Z) (Hip : 0 < ref < ip).

Lemma probe_spec : forall n len, 0 <= len -> agree ref ip (len + 1) -> ip + len + Z.of_nat n < msize inp ->
  exists len' stop, probe inp n ref ip len = Some (len', stop) /\
  if stop : bool then len < len' <= len + Z.of_nat n /\ agree ref ip len' else len' = len + Z.of_nat n /\ agree ref ip (len' + 1).
Proof.
  induction n as [|n IH]; intros len H0 Ha Hn; cbn [probe].
  { exists len, false. split; [done|]. split; [lia|done]. }
  rewrite !load8_pos by lia. cbn [obind]. destruct (Z.eqb_spec (at_ (ref + (len + 1))) (at_ (ip + (len + 1)))) as [E|E]; cbn [negb].
  - destruct (IH (len + 1)) as (len' & stop & Ep & Hp); [lia|by apply agree_succ|lia|].
    exists len', stop. split; [done|]. destruct stop; destruct Hp as [Hp1 Hp2]; (split; [lia|done]).
  - exists (len + 1), true. split; [done|]. split; [lia|done].
Qed.

Lemma extend_spec maxlen : ip + maxlen <= msize inp -> forall fuel len, 0 <= len -> agree ref ip (len + 1) ->
  (Z.to_nat (maxlen - len) < fuel)%nat ->
  exists L, extend inp fuel ref ip maxlen len = Some L /\ len < L <= Z.max maxlen (len + 1) /\ agree ref ip L.
Proof.
  intros Hm. induction fuel as [|fuel IH]; intros len H0 Ha Hf; [lia|]. cbn [extend].
  destruct (Z.ltb_spec (len + 1) maxlen) as [Hl|Hl]; [|exists (len + 1); split; [done|]; split; [lia|done]].
  rewrite !load8_pos by lia. cbn [obind]. destruct (Z.eqb_spec (at_ (ref + (len + 1))) (at_ (ip + (len + 1)))) as [E|E].
  - destruct (IH (len + 1)) as (L & EL & HL & HaL); [lia|by apply agree_succ|lia|]. exists L. split; [done|]. split; [lia|done].
  - exists (len + 1). split; [done|]. split; [lia|done].
Qed.

Lemma match_length_spec maxlen : 3 <= maxlen <= 264 -> ip + maxlen + 2 <= msize inp -> agree ref ip 3 ->
  exists L, match_length inp ref ip maxlen = Some L /\ 3 <= L <= 264 /\ ip + L <= msize inp /\ agree ref ip L.
Proof.
  intros Hm Hi Ha. unfold match_length. destruct (Z.ltb_spec 16 maxlen) as [H16|H16].
  - destruct (probe_spec 16 2) as (len & stop & -> & Hp); [lia|done|lia|]. cbn [obind]. destruct stop; destruct Hp as [Hp Hal].
    + exists len. split; [done|]. split; [lia|]. split; [lia|done].
    + destruct (extend_spec maxlen ltac:(lia) (S (Z.to_nat maxlen)) len) as (L & -> & HL & HaL); [lia|done|lia|].
      exists L. split; [done|]. split; [lia|]. split; [lia|done].
  - cbn [obind]. destruct (extend_spec maxlen ltac:(lia) (S (Z.to_nat maxlen)) 2) as (L & -> & HL & HaL); [lia|done|lia|].
    exists L. split; [done|]. split; [lia|]. split; [lia|done].
Qed.

End Match.

(** A match extends what has been expanded. *)
Lemma copy_ref_agree off : 0 <= off -> forall n i, 0 <= i - off - 1 -> agree (i - off - 1) i (Z.of_nat n) ->
  i + Z.of_nat n <= msize inp ->
  copy_ref n off (take (Z.to_nat i) inp) = take (Z.to_nat (i + Z.of_nat n)) inp.
Proof.
  intros Ho. induction n as [|n IH]; intros i Hi Ha Hn; cbn [copy_ref]; [by rewrite Z.add_0_r|].
  assert (Hlt : (Z.to_nat i < length inp)%nat) by (unfold msize in Hn; lia).
  destruct (lookup_lt_is_Some_2 inp _ Hlt) as [c Hc].
  assert (Hm : msize (take (Z.to_nat i) inp) = i) by (unfold msize; rewrite length_take; lia).
  rewrite Hm, lookup_take_lt by lia. change (default 0 (inp !! _)) with (at_ (i - off - 1)).
  rewrite <- (Z.add_0_r (i - off - 1)), (Ha 0), Z.add_0_r by lia. unfold at_. rewrite Hc. cbn [default].
  rewrite <- take_S_r by done. replace (S (Z.to_nat i)) with (Z.to_nat (i + 1)) by lia. rewrite IH; [|lia| |lia].
  - f_equal. lia.
  - intros k Hk. specialize (Ha (k + 1)). replace (i + 1 - off - 1 + k) with (i - off - 1 + (k + 1)) by lia.
    replace (i + 1 + k) with (i + (k + 1)) by lia. apply Ha. lia.
Qed.

(** * The output while compressing *)

(** The tokens written so far expand to the input up to the current run of
    literals, whose length byte is still open; the output is at most one byte per
    32 bytes longer than the input. *)
Definition cinv (size : Z) (s : state) : Prop :=
  exists ts b pend hdr junk rest, inp = b ++ pend ++ rest /\ toks_ok [] ts /\ expand [] ts = b /\
    s_lit s = msize pend /\ msize pend < 32 /\ s_ip s = msize b + msize pend /\
    s_out s = enc ts ++ hdr :: pend ++ junk /\ s_op s = msize (enc ts) + 1 + msize pend /\
    msize (s_out s) = size /\ (forall i, s_htab s i < 2 ^ 64 - 8192) /\ 32 * s_op s <= 33 * s_ip s + 32 - s_lit s.

Lemma cinv_range size s : cinv size s -> 0 <= s_ip s <= msize inp /\ 0 <= s_lit s < 32 /\ 1 <= s_op s.
Proof.
  intros (ts & b & pend & hdr & junk & rest & -> & _ & _ & -> & Hp & -> & _ & -> & _).
  rewrite !msize_app. pose proof (msize_nonneg b). pose proof (msize_nonneg pend). pose proof (msize_nonneg rest).
  pose proof (msize_nonneg (enc ts)). lia.
Qed.

Lemma uint8_uint8 v : uint 8 (uint 8 v) = uint 8 v.
Proof. apply uint_id. apply uint_range. lia. Qed.

Lemma literal_spec size s : cinv size s -> s_ip s < msize inp -> s_op s + 1 < size ->
  exists s', literal inp s = Some s' /\ cinv size s' /\ s_ip s' = s_ip s + 1 /\
    if s_lit s + 1 =? 32 then s_op s' = s_op s + 2 /\ s_lit s' = 0 else s_op s' = s_op s + 1 /\ s_lit s' = s_lit s + 1.
Proof.
  intros (ts & b & pend & hdr & junk & rest & Ei & Hok & Ex & El & Hp & Eip & Eout & Eop & Hs & Ht & Hw) Hip Hop.
  assert (Hm : msize inp = msize b + msize pend + msize rest) by (rewrite Ei, !msize_app; lia).
  assert (Hso : msize (enc ts) + 1 + msize pend + msize junk = size) by (rewrite <- Hs, Eout, msize_app, msize_cons, msize_app; lia).
  destruct rest as [|c rest]; [change (msize (A := Z) []) with 0 in Hm; lia|].
  destruct junk as [|j junk]; [change (msize (A := Z) []) with 0 in Hso; lia|]. rewrite msize_cons in Hso.
  assert (Hc : is_byte c) by (rewrite Ei, !Forall_app, list.Forall_cons in Hbytes; naive_solver).
  unfold literal. rewrite (load8_at (b ++ pend) c rest) by (rewrite ?Ei, <- ?app_assoc, ?msize_app; done). cbn [obind].
  rewrite Eout, (store8_at (enc ts ++ hdr :: pend) j junk).
  2: { by rewrite <- app_assoc. }
  2: { rewrite msize_app, msize_cons. lia. }
  cbn [obind]. rewrite byte_id by done. change MAX_LIT with 32. rewrite <- app_assoc. cbn [app].
  assert (Hpc : msize (pend ++ [c]) = s_lit s + 1) by (rewrite msize_app, El; change (msize [c]) with 1; lia).
  destruct (Z.eqb_spec (s_lit s + 1) 32) as [E32|E32].
  - unfold stop_run. rewrite (store8_at (enc ts) hdr (pend ++ c :: junk)) by (done || lia). cbn [obind].
    eexists. split; [done|]. split; [|cbn; lia]. destruct junk as [|j' junk]; [change (msize (A := Z) []) with 0 in Hso; lia|].
    exists (ts ++ [TLit (pend ++ [c])]), (b ++ pend ++ [c]), [], j', junk, rest. cbn [s_lit s_ip s_out s_op s_htab].
    rewrite enc_snoc, expand_snoc, Ex. cbn [tok_bytes apply_tok]. rewrite Hpc, E32, uint8_uint8. change (uint 8 (32 - 1)) with (32 - 1).
    rewrite !msize_app, !msize_cons, Hpc. change (msize (A := Z) []) with 0.
    split; [by rewrite Ei, <- !app_assoc|]. split; [|split; [done|]].
    { apply toks_ok_snoc. split; [done|]. cbn. rewrite Hpc. split; [lia|].
      apply Forall_app. split; [|by constructor]. rewrite Ei, !Forall_app in Hbytes. naive_solver. }
    split; [done|]. split; [lia|]. split; [rewrite msize_app in Hpc; lia|]. split; [by lsimpl|]. split; [lia|].
    split; [rewrite msize_app, msize_cons; lia|]. split; [done|lia].
  - eexists. split; [done|]. split; [|cbn; lia].
    exists ts, b, (pend ++ [c]), hdr, junk, rest. cbn [s_lit s_ip s_out s_op s_htab]. rewrite Hpc.
    split; [by rewrite Ei, <- !app_assoc|]. split; [done|]. split; [done|]. split; [done|]. split; [lia|].
    split; [lia|]. split; [by rewrite <- !app_assoc|]. split; [lia|]. split; [|split; [done|lia]].
    rewrite !msize_app, !msize_cons, msize_app, msize_cons. lia.
Qed.

(** Closing the current run. *)
Lemma stop_run_spec size s : cinv size s -> exists ts out junk, stop_run (s_out s) (s_op s) (s_lit s) = Some out /\
  toks_ok [] ts /\ expand [] ts = take (Z.to_nat (s_ip s)) inp /\ out = enc ts ++ junk /\ msize out = size /\
  msize (enc ts) = s_op s - (if s_lit s =? 0 then 1 else 0).
Proof.
  intros (ts & b & pend & hdr & junk & rest & Ei & Hok & Ex & El & Hp & Eip & Eout & Eop & Hs & Ht & Hw).
  assert (Et : take (Z.to_nat (s_ip s)) inp = b ++ pend).
  { rewrite Ei, app_assoc, take_app_length'; [done|]. rewrite Eip. unfold msize. rewrite length_app. lia. }
  assert (Hbp : Forall is_byte pend) by (rewrite Ei, !Forall_app in Hbytes; naive_solver).
  unfold stop_run. rewrite Eout, (store8_at (enc ts) hdr (pend ++ junk)) by (done || lia). rewrite Et, uint8_uint8.
  assert (Hsz : forall c, msize (enc ts ++ c :: pend ++ junk) = size) by (intros c; rewrite <- Hs, Eout, !msize_app, !msize_cons; done).
  destruct (Z.eqb_spec (s_lit s) 0) as [E0|E0].
  - rewrite E0 in El. symmetry in El. apply msize_0_nil in El. subst pend. cbn [app]. rewrite app_nil_r.
    exists ts. do 2 eexists. split; [done|]. split; [done|]. split; [done|]. split; [done|]. split; [apply Hsz|].
    change (msize (A := Z) []) with 0 in Eop. lia.
  - pose proof (msize_nonneg pend). assert (Eb : uint 8 (s_lit s - 1) = msize pend - 1) by (rewrite El; apply uint_id; lia).
    exists (ts ++ [TLit pend]). do 2 eexists. split; [done|]. rewrite enc_snoc, expand_snoc, Ex. cbn [tok_bytes apply_tok].
    split; [apply toks_ok_snoc; split; [done|]; cbn; split; [lia|done]|]. split; [done|].
    split; [rewrite <- app_assoc; cbn [app]; by rewrite Eb|]. split; [apply Hsz|]. rewrite msize_app, msize_cons. lia.
Qed.

Lemma emit_ref_spec A junk off len : 0 <= off < 8192 -> 1 <= len <= 262 -> 3 <= msize junk ->
  exists junk', emit_ref (A ++ junk) (msize A) off len
    = Some (A ++ tok_bytes (TRef off len) ++ junk', msize A + msize (tok_bytes (TRef off len))) /\
    msize (A ++ tok_bytes (TRef off len) ++ junk') = msize (A ++ junk).
Proof.
  intros Ho Hl Hj. unfold emit_ref. assert (Hh : 0 <= off / 256 < 32).
  { split; [apply Z.div_pos; lia|]. apply Z.div_lt_upper_bound; lia. }
  assert (Es : Z.shiftr off 8 = off / 256) by (by rewrite Z.shiftr_div_pow2).
  destruct junk as [|j1 [|j2 [|j3 junk]]]; try (unfold msize in Hj; cbn in Hj; lia).
  rewrite Es. cbn [tok_bytes]. destruct (Z.ltb_spec len 7) as [H7|H7].
  - rewrite (store8_at A j1 (j2 :: j3 :: junk)) by done. cbn [obind]. rewrite uint8_uint8.
    rewrite Z.shiftl_mul_pow2 by lia. change (2 ^ 5) with 32. rewrite (uint_id 8 (off / 256 + len * 32)) by lia.
    rewrite (store8_at (A ++ [off / 256 + len * 32]) j2 (j3 :: junk)) by (rewrite <- ?app_assoc, ?msize_app; done).
    cbn [obind]. rewrite uint8_uint8. exists (j3 :: junk). lsimpl. rewrite !msize_app, !msize_cons. change (msize (A := Z) []) with 0.
    split; [do 2 f_equal; lia|lia].
  - rewrite (store8_at A j1 (j2 :: j3 :: junk)) by done. cbn [obind]. rewrite uint8_uint8.
    change (Z.shiftl 7 5) with (7 * 32). rewrite (uint_id 8 (off / 256 + 7 * 32)) by lia.
    rewrite (store8_at (A ++ [off / 256 + 7 * 32]) j2 (j3 :: junk)) by (rewrite <- ?app_assoc, ?msize_app; done).
    cbn [obind]. rewrite uint8_uint8, (uint_id 8 (len - 7)) by lia.
    rewrite (store8_at (A ++ [off / 256 + 7 * 32; len - 7]) j3 junk).
    2: { by lsimpl. }
    2: { by rewrite msize_app. }
    cbn [obind]. rewrite uint8_uint8. exists junk. lsimpl. rewrite !msize_app, !msize_cons. change (msize (A := Z) []) with 0.
    split; [do 2 f_equal; lia|lia].
Qed.

Lemma FRST_pos p : 0 <= p -> p + 2 <= msize inp -> exists v, FRST inp p = Some v.
Proof. intros H0 Hp. unfold FRST. rewrite !load8_pos by lia. by eexists. Qed.

Lemma NEXT_pos v p : 0 <= p -> p + 3 <= msize inp -> exists w, NEXT inp v p = Some w.
Proof. intros H0 Hp. unfold NEXT. rewrite !load8_pos by lia. by eexists. Qed.

Lemma set_slot_lt htab i p j : (forall k, htab k < 2 ^ 64 - 8192) -> p < 2 ^ 32 -> set_slot htab i p j < 2 ^ 64 - 8192.
Proof. intros H Hp. unfold set_slot. destruct (j =? i); [lia|apply H]. Qed.

(** What an iteration may do: give up, or go on in a good state further on. *)
Definition outcome_ok (size : Z) (s : state) (out_end : Z) (r : outcome) : Prop :=
  match r with
  | Return0 out => msize out = size /\ out_end <= s_op s + 4
  | Break s' => cinv size s' /\ msize inp - 2 <= s_ip s' /\ s_op s' <= out_end + 1
  | Next s' => cinv size s' /\ s_ip s < s_ip s' /\ s_op s' <= out_end + 1
  end.

(** The state after a reference to [L] bytes at [ref]. *)
Lemma cinv_ref size ts ip ref off L junk hval htab : toks_ok [] ts -> expand [] ts = take (Z.to_nat ip) inp ->
  off = ip - ref - 1 -> 0 <= off < 8192 -> 0 < ref -> 3 <= L <= 264 -> ip + L <= msize inp -> agree ref ip L ->
  (forall i, htab i < 2 ^ 64 - 8192) -> msize (enc ts) + msize (tok_bytes (TRef off (L - 2))) < size ->
  msize (enc ts ++ tok_bytes (TRef off (L - 2)) ++ junk) = size ->
  32 * (msize (enc ts) + (if L <? 9 then 2 else 3) + 1) <= 33 * (ip + L) + 32 ->
  cinv size {| s_ip := ip + L; s_op := msize (enc ts) + msize (tok_bytes (TRef off (L - 2))) + 1; s_lit := 0;
               s_hval := hval; s_htab := htab; s_out := enc ts ++ tok_bytes (TRef off (L - 2)) ++ junk |}.
Proof.
  intros Hok Ex Eo Ho Hr HL Hi Ha Hht Hlt Hs Hw. assert (Hty : tok_ok (expand [] ts) (TRef off (L - 2))).
  { cbn. split; [lia|]. rewrite Ex. unfold msize. rewrite length_take. unfold msize in *. lia. }
  assert (Htb : msize (tok_bytes (TRef off (L - 2))) = if L <? 9 then 2 else 3).
  { cbn [tok_bytes]. by destruct (Z.ltb_spec (L - 2) 7), (Z.ltb_spec L 9); try lia. }
  rewrite !msize_app in Hs. destruct junk as [|hdr junk]; [change (msize (A := Z) []) with 0 in Hs; lia|].
  exists (ts ++ [TRef off (L - 2)]), (take (Z.to_nat (ip + L)) inp), [], hdr, junk, (drop (Z.to_nat (ip + L)) inp).
  rewrite enc_snoc, expand_snoc, Ex. cbn [s_lit s_ip s_out s_op s_htab app].
  split; [by rewrite take_drop|]. split; [by apply toks_ok_snoc|]. split.
  { cbn [apply_tok]. replace (L - 2 + 2) with L by lia. rewrite (copy_ref_agree off); [f_equal; lia|lia|lia| |lia].
    replace (ip - off - 1) with ref by lia. by rewrite Z2Nat.id by lia. }
  change (msize (A := Z) []) with 0. split; [done|]. split; [lia|]. split; [unfold msize in *; rewrite length_take; lia|].
  split; [by rewrite <- app_assoc|]. split; [rewrite msize_app; lia|]. split; [rewrite !msize_app; lia|]. split; [done|lia].
Qed.

Lemma take_match_spec size out_end s ref off : cinv size s -> msize inp < 2 ^ 32 -> out_end + 1 <= size ->
  off = s_ip s - ref - 1 -> 0 <= off < 8192 -> 0 < ref -> s_ip s + 4 < msize inp -> agree ref (s_ip s) 3 ->
  exists r, take_match inp (msize inp) out_end ref off s = Some r /\ outcome_ok size s out_end r.
Proof.
  intros Hc Hn Hsz Eo Ho Hr Hi Ha. unfold take_match. destruct (stop_run_spec size s Hc) as (ts & out & junk & -> & Hok & Ex & Eout & Hs & He).
  cbn [obind]. rewrite <- He. rewrite Z.geb_leb. destruct (Z.leb_spec out_end (msize (enc ts) + 3 + 1)) as [Hfull|Hroom].
  { eexists. split; [done|]. split; [done|]. destruct (s_lit s =? 0); lia. }
  set (maxlen := if _ >? _ then _ else _).
  assert (Hm : 3 <= maxlen <= 264 /\ s_ip s + maxlen + 2 <= msize inp).
  { unfold maxlen. change MAX_REF with 264. rewrite Z.gtb_ltb. destruct (Z.ltb_spec 264 (msize inp - s_ip s - 2)); lia. }
  destruct (match_length_spec ref (s_ip s) ltac:(lia) maxlen) as (L & -> & HL & HiL & HaL); [lia|lia|done|]. cbn [obind].
  assert (Hj : msize (enc ts) + msize junk = size) by (rewrite <- Hs, Eout, msize_app; done).
  destruct (emit_ref_spec (enc ts) junk off (L - 2)) as (junk' & E & Hs'); [lia|lia|lia|]. rewrite Eout, E. cbn [obind].
  replace (s_ip s + 1 + (L - 2 + 1)) with (s_ip s + L) by lia. rewrite Z.geb_leb.
  destruct (cinv_range _ _ Hc) as (Hip & Hlit & _).
  pose proof Hc as (_ & _ & _ & _ & _ & _ & _ & _ & _ & _ & _ & _ & _ & _ & _ & Ht & Hw).
  assert (Hle3 : msize (tok_bytes (TRef off (L - 2))) <= 3) by (unfold msize; cbn [tok_bytes]; destruct (_ <? 7); cbn; lia).
  assert (Hinv : forall hval htab, (forall i, htab i < 2 ^ 64 - 8192) -> cinv size
    {| s_ip := s_ip s + L; s_op := msize (enc ts) + msize (tok_bytes (TRef off (L - 2))) + 1; s_lit := 0;
       s_hval := hval; s_htab := htab; s_out := enc ts ++ tok_bytes (TRef off (L - 2)) ++ junk' |}).
  { intros hval htab Hht. apply (cinv_ref size ts (s_ip s) ref); try done; try lia; [by rewrite Hs', <- Eout|].
    destruct (Z.eqb_spec (s_lit s) 0), (Z.ltb_spec L 9); lia. }
  destruct (Z.leb_spec (msize inp - 2) (s_ip s + L)) as [Hend|Hmore].
  - eexists. split; [done|]. split; [by apply Hinv|]. cbn [s_ip s_op]. lia.
  - destruct (FRST_pos (s_ip s + L - 2)) as [h1 ->]; [lia|lia|]. cbn [obind].
    destruct (NEXT_pos h1 (s_ip s + L - 2)) as [h2 ->]; [lia|lia|]. cbn [obind].
    destruct (NEXT_pos h2 (s_ip s + L - 2 + 1)) as [h3 ->]; [lia|lia|]. cbn [obind].
    replace (s_ip s + L - 2 + 1 + 1) with (s_ip s + L) by lia. eexists. split; [done|]. split; [|cbn [s_ip s_op]; lia].
    apply Hinv. intros i. apply set_slot_lt; [intros k; apply set_slot_lt; [done|lia]|lia].
Qed.

Lemma compress_body_spec size out_end s : cinv size s -> msize inp < 2 ^ 32 -> out_end + 1 <= size ->
  s_ip s < msize inp - 2 -> s_op s <= out_end + 1 ->
  exists r, compress_body inp (msize inp) out_end s = Some r /\ outcome_ok size s out_end r.
Proof.
  intros Hc Hn Hsz Hi Hop. destruct (cinv_range _ _ Hc) as (Hip & _ & _). unfold compress_body.
  destruct (NEXT_pos (s_hval s) (s_ip s)) as [hval ->]; [lia|lia|]. cbn [obind].
  set (s1 := {| s_ip := _; s_op := _ |}). pose proof Hc as (ts & b & pend & hdr & junk & rest & H1 & H2 & H3 & H4 & H5 & H6 & H7 & H8 & H9 & Ht & Hw).
  assert (Hc1 : cinv size s1).
  { exists ts, b, pend, hdr, junk, rest. do 9 (split; [done|]). split; [|done]. intros i. apply set_slot_lt; [done|]. cbn. lia. }
  destruct (find_match_spec (s_ip s1) (s_htab s (IDX hval))) as (m & -> & Hm); [cbn; lia|cbn; lia|apply Ht|]. cbn [obind].
  destruct m as [off|].
  - destruct Hm as (Eo & Ho & Hr & Hi4 & Ha).
    destruct (take_match_spec size out_end s1 _ off Hc1 Hn Hsz Eo Ho Hr Hi4 Ha) as (r & -> & Hr'). exists r. split; [done|]. by destruct r.
  - rewrite Z.geb_leb. destruct (Z.leb_spec out_end (s_op s1)) as [Hf|Hf]; cbn [s1 s_op] in Hf.
    { eexists. split; [done|]. split; [done|lia]. }
    destruct (literal_spec size s1 Hc1) as (s' & -> & Hc' & Hip' & Hop'); [cbn; lia|cbn; lia|]. cbn [obind].
    eexists. split; [done|]. split; [done|]. cbn [s1 s_ip s_op s_lit] in *. split; [lia|].
    destruct (s_lit s + 1 =? 32); lia.
Qed.

Lemma compress_loop_spec size out_end : msize inp < 2 ^ 32 -> out_end + 1 <= size ->
  forall fuel s, cinv size s -> s_op s <= out_end + 1 -> (Z.to_nat (msize inp - s_ip s) < fuel)%nat ->
  exists r, compress_loop inp (msize inp) fuel out_end s = Some r /\
  match r with
  | inl out => msize out = size /\ 32 * (out_end - 4) <= 33 * msize inp + 32
  | inr s' => cinv size s' /\ msize inp - 2 <= s_ip s'
  end.
Proof.
  intros Hn Hsz. induction fuel as [|fuel IH]; intros s Hc Hop Hf; [lia|]. cbn [compress_loop].
  destruct (Z.ltb_spec (s_ip s) (msize inp - 2)) as [Hi|Hi]; [|eexists; split; [done|]; split; [done|lia]].
  destruct (compress_body_spec size out_end s Hc Hn Hsz Hi Hop) as (r & -> & Hr). cbn [obind].
  destruct r as [out|s'|s']; cbn in Hr.
  - eexists. split; [done|]. split; [naive_solver|]. destruct Hr as [_ Hr]. destruct (cinv_range _ _ Hc) as (? & ? & _).
    destruct Hc as (_ & _ & _ & _ & _ & _ & _ & _ & _ & _ & _ & _ & _ & _ & _ & _ & Hw). lia.
  - eexists. split; [done|]. naive_solver.
  - destruct Hr as (Hc' & Hi' & Ho'). apply IH; [done|done|lia].
Qed.

(** At most two literals are left; one run may end. *)
Lemma last_literals_spec size out_end : out_end + 1 <= size -> forall fuel s, cinv size s ->
  s_op s + (msize inp - s_ip s) + (if s_lit s + (msize inp - s_ip s) <? 32 then 0 else 1) <= out_end ->
  (Z.to_nat (msize inp - s_ip s) < fuel)%nat -> msize inp - s_ip s <= 2 ->
  exists s', last_literals inp (msize inp) fuel s = Some s' /\ cinv size s' /\ s_ip s' = msize inp /\ s_op s' <= out_end.
Proof.
  intros Hsz. induction fuel as [|fuel IH]; intros s Hc Hop Hf H2; [lia|]. cbn [last_literals].
  destruct (cinv_range _ _ Hc) as (Hip & Hl & _). destruct (Z.ltb_spec (s_ip s) (msize inp)) as [Hi|Hi].
  2: { exists s. split; [done|]. split; [done|]. split; [lia|]. destruct (_ <? 32); lia. }
  destruct (literal_spec size s Hc Hi) as (s' & -> & Hc' & Hip' & Hop').
  { destruct (_ <? 32); lia. }
  cbn [obind]. apply IH; [done| |lia|lia]. rewrite Hip'.
  destruct (Z.eqb_spec (s_lit s + 1) 32) as [E|E]; destruct Hop' as [-> ->];
    destruct (Z.ltb_spec (s_lit s + (msize inp - s_ip s)) 32);
    match goal with |- context [?x <? 32] => destruct (Z.ltb_spec x 32) end; lia.
Qed.

(** With one byte more than [out_len] in the output block: the result is the
    size of a stream that expands to the input, or 0 if [out_len] is too small. *)
Lemma lzf_compress_spec out out_len htab : 2 <= msize inp < 2 ^ 32 -> 0 <= out_len -> out_len + 1 <= msize out ->
  (forall i, htab i < 2 ^ 64 - 8192) ->
  exists n out', lzf_compress inp (msize inp) out out_len htab = Some (n, out') /\ msize out' = msize out /\
  ((n = 0 /\ 32 * (out_len - 5) < 33 * msize inp + 32) \/ exists ts junk, toks_ok [] ts /\ expand [] ts = inp /\ out' = enc ts ++ junk /\ n = msize (enc ts) /\ 0 < n <= out_len).
Proof.
  intros Hi Ho Hs Ht. unfold lzf_compress. bdecide. destruct (Z.eqb_spec out_len 0) as [E0|E0]; cbn [orb].
  { do 2 eexists. split; [done|]. split; [done|]. left. split; [done|lia]. }
  destruct (FRST_pos 0) as [hval ->]; [lia|lia|]. cbn [obind]. set (s0 := {| s_ip := 0 |}).
  assert (Hc0 : cinv (msize out) s0).
  { destruct out as [|hdr junk]; [change (msize (A := Z) []) with 0 in Hs; lia|].
    exists [], [], [], hdr, junk, inp. by repeat split. }
  destruct (compress_loop_spec (msize out) out_len ltac:(lia) Hs (S (Z.to_nat (msize inp))) s0 Hc0) as (r & -> & Hr).
  { cbn. lia. }
  { cbn. lia. }
  cbn [obind]. destruct r as [o|s]; destruct Hr as [Hc He].
  { do 2 eexists. split; [done|]. split; [done|]. left. split; [done|lia]. }
  destruct (cinv_range _ _ Hc) as (Hip & Hl & _). rewrite Z.gtb_ltb. destruct (Z.ltb_spec out_len (s_op s + 3)) as [Hb|Hb].
  { destruct Hc as (ts & b & pend & hdr & junk & rest & _ & _ & _ & _ & _ & _ & _ & _ & Hz & _ & Hw).
    do 2 eexists. split; [done|]. split; [done|]. left. split; [done|lia]. }
  destruct (last_literals_spec (msize out) out_len Hs (S (Z.to_nat (msize inp))) s Hc) as (s' & -> & Hc' & Hip' & Hop'); [|lia|lia|].
  { destruct (_ <? 32); lia. }
  cbn [obind]. destruct (stop_run_spec _ _ Hc') as (ts & o & junk & -> & Hok & Ex & Eo & Hz & He'). cbn [obind].
  rewrite Hip' in Ex. unfold msize in Ex at 1. rewrite Nat2Z.id, firstn_all in Ex.
  do 2 eexists. split; [done|]. split; [done|]. right. exists ts, junk. rewrite <- He'. do 4 (split; [done|]).
  split; [|destruct (_ =? 0); lia]. destruct ts as [|t ts]; [exfalso; rewrite <- Ex in Hi; change (msize (expand [] [])) with 0 in Hi; lia|].
  apply enc_length in Hok. unfold msize. cbn [length] in Hok. lia.
Qed.

End Compress.

(** * Properties *)





