(* ===== verification/Zipmap.v ===== *)
(** The zipmap encoding: zipmap.c.

    A zipmap is one block [<zmlen:1><entry>...<entry><255>] that maps strings to
    strings; an entry is [<len><key><len><free:1><value><free bytes>].  One
    definition per function of zipmap.c, on a bounds-checked block [zm] with
    offsets for pointers; [unsigned int] arithmetic wraps at 32 bits.  A pointer
    argument that may be [NULL] is an [option], a result stored through a pointer
    is part of the result. *)

From S2P Require Import Prelude Endian Robj.

Definition ZIPMAP_BIGLEN := 254.
Definition ZIPMAP_END := 255.
Definition ZIPMAP_VALUE_MAX_FREE := 4.

Definition ZIPMAP_LEN_BYTES (l : Z) : Z := if l <? ZIPMAP_BIGLEN then 1 else 5.

Section Zipmap.
Context `{Host}.

Definition zipmapNew : option bytes :=
  let zm := zmalloc 2 in
  zm <- store8 zm 0 0;;
  store8 zm 1 ZIPMAP_END.

(** Decode the encoded length at [p]. *)
Definition zipmapDecodeLength (zm : bytes) (p : Z) : option Z :=
  len <- load8 zm p;;
  if len <? ZIPMAP_BIGLEN then Some len else
  bs <- load zm (p + 1) 4;;
  bs <- memrev32ifbe bs 0;;
  Some (host_decode bs).

(** Encode [len] at [p]; the block after the call and the number of bytes used.
    With [NULL] for [p] only the number of bytes is computed. *)
Definition zipmapEncodeLength (zm : bytes) (p : option Z) (len : Z) : option (bytes * Z) :=
  match p with
  | None => Some (zm, ZIPMAP_LEN_BYTES len)
  | Some p =>
    if len <? ZIPMAP_BIGLEN then zm <- store8 zm p len;; Some (zm, 1)
    else
      zm <- store8 zm p ZIPMAP_BIGLEN;;
      zm <- store zm (p + 1) (host_encode 4 len);;
      zm <- memrev32ifbe zm (p + 1);;
      Some (zm, 1 + 4)
  end.

(** The loop of [zipmapLookupRaw]: the entry found and, unless the search ended
    early because [totlen] is [NULL], the total length. *)
Fixpoint zipmapLookupRaw_loop (fuel : nat) (zm : bytes) (key : option bytes) (klen : Z) (totlen : bool)
    (p : Z) (k : option Z) : option (option Z * Z) :=
  match fuel with
  | O => None
  | S fuel =>
    c <- load8 zm p;;
    if c =? ZIPMAP_END then Some (k, uint 32 (uint 32 p + 1)) else
    l <- zipmapDecodeLength zm p;;
    let llen := ZIPMAP_LEN_BYTES l in
    hit <- match key, k with
           | Some key, None =>
             if l =? klen then
               a <- load zm (p + llen) l;;
               b <- load key 0 l;;
               d <- memcmp a b (Z.to_nat l);;
               Some (d =? 0)
             else Some false
           | _, _ => Some false
           end;;
    if hit && negb totlen then Some (Some p, 0) else
    let k := if hit : bool then Some p else k in
    let p := p + uint 32 (llen + l) in
    l <- zipmapDecodeLength zm p;;
    let p := p + ZIPMAP_LEN_BYTES l in
    free <- load8 zm p;;
    zipmapLookupRaw_loop fuel zm key klen totlen (p + uint 32 (l + 1 + free)) k
  end.

(** The offset of the entry with the key, or [NULL]; and [*totlen] where asked for. *)
Definition zipmapLookupRaw (zm : bytes) (key : option bytes) (klen : Z) (totlen : bool) : option (option Z * Z) :=
  zipmapLookupRaw_loop (length zm) zm key klen totlen 1 None.

Definition zipmapRequiredLength (klen vlen : Z) : Z :=
  let l := uint 32 (klen + vlen + 3) in
  let l := if klen >=? ZIPMAP_BIGLEN then uint 32 (l + 4) else l in
  if vlen >=? ZIPMAP_BIGLEN then uint 32 (l + 4) else l.

Definition zipmapRawKeyLength (zm : bytes) (p : Z) : option Z :=
  l <- zipmapDecodeLength zm p;;
  Some (uint 32 (ZIPMAP_LEN_BYTES l + l)).

Definition zipmapRawValueLength (zm : bytes) (p : Z) : option Z :=
  l <- zipmapDecodeLength zm p;;
  let used := ZIPMAP_LEN_BYTES l in
  free <- load8 zm (p + used);;
  Some (uint 32 (used + (free + 1 + l))).

Definition zipmapRawEntryLength (zm : bytes) (p : Z) : option Z :=
  l <- zipmapRawKeyLength zm p;;
  v <- zipmapRawValueLength zm (p + l);;
  Some (uint 32 (l + v)).

Definition zipmapResize (zm : bytes) (len : Z) : option bytes :=
  let zm := zrealloc zm len in
  store8 zm (uint 32 (len - 1)) ZIPMAP_END.

(** [zipmapSet] up to the point where there is a slot of [freelen >= reqlen] bytes
    at [p]: the block, [p], [zmlen], [freelen] and [*update]. *)
Definition zipmapSet_slot (zm : bytes) (p : option Z) (zmlen reqlen : Z) : option (bytes * Z * Z * Z * bool) :=
  match p with
  | None =>
    zm <- zipmapResize zm (uint 32 (zmlen + reqlen));;
    let p := zmlen - 1 in
    let zmlen := uint 32 (zmlen + reqlen) in
    n <- load8 zm 0;;
    zm <- (if n <? ZIPMAP_BIGLEN then store8 zm 0 (n + 1) else Some zm);;
    Some (zm, p, zmlen, reqlen, false)
  | Some p =>
    freelen <- zipmapRawEntryLength zm p;;
    if freelen <? reqlen then
      let offset := uint 32 p in
      zm <- zipmapResize zm (uint 32 (zmlen - freelen + reqlen));;
      let p := offset in
      zm <- memmove zm (p + reqlen) (p + freelen) (uint 32 (zmlen - (offset + freelen + 1)));;
      Some (zm, p, uint 32 (zmlen - freelen + reqlen), reqlen, true)
    else Some (zm, p, zmlen, freelen, true)
  end.

(** The part that gives back too much free space: the block, [p] and [vempty]. *)
Definition zipmapSet_shrink (zm : bytes) (p zmlen freelen reqlen : Z) : option (bytes * Z * Z) :=
  let empty := uint 32 (freelen - reqlen) in
  if empty >=? ZIPMAP_VALUE_MAX_FREE then
    let offset := uint 32 p in
    zm <- memmove zm (p + reqlen) (p + freelen) (uint 32 (zmlen - (offset + freelen + 1)));;
    let zmlen := uint 32 (zmlen - empty) in
    zm <- zipmapResize zm zmlen;;
    Some (zm, offset, 0)
  else Some (zm, p, empty).

(** The part that writes key and value. *)
Definition zipmapSet_write (zm : bytes) (p : Z) (key : bytes) (klen : Z) (val : bytes) (vlen vempty : Z) : option bytes :=
  ' (zm, n) <- zipmapEncodeLength zm (Some p) klen;;
  let p := p + n in
  bs <- load key 0 klen;;
  zm <- store zm p bs;;
  let p := p + klen in
  ' (zm, n) <- zipmapEncodeLength zm (Some p) vlen;;
  let p := p + n in
  zm <- store8 zm p vempty;;
  let p := p + 1 in
  bs <- load val 0 vlen;;
  store zm p bs.

(** The new block, and [*update]. *)
Definition zipmapSet (zm key : bytes) (klen : Z) (val : bytes) (vlen : Z) : option (bytes * bool) :=
  let reqlen := zipmapRequiredLength klen vlen in
  ' (p, zmlen) <- zipmapLookupRaw zm (Some key) klen true;;
  ' (zm, p, zmlen, freelen, update) <- zipmapSet_slot zm p zmlen reqlen;;
  ' (zm, p, vempty) <- zipmapSet_shrink zm p zmlen freelen reqlen;;
  zm <- zipmapSet_write zm p key klen val vlen vempty;;
  Some (zm, update).

(** The new block, and [*deleted]. *)
Definition zipmapDel (zm key : bytes) (klen : Z) : option (bytes * bool) :=
  ' (p, zmlen) <- zipmapLookupRaw zm (Some key) klen true;;
  match p with
  | Some p =>
    freelen <- zipmapRawEntryLength zm p;;
    zm <- memmove zm p (p + freelen) (zmlen - (p + freelen + 1));;
    zm <- zipmapResize zm (uint 32 (zmlen - freelen));;
    n <- load8 zm 0;;
    zm <- (if n <? ZIPMAP_BIGLEN then store8 zm 0 (n - 1) else Some zm);;
    Some (zm, true)
  | None => Some (zm, false)
  end.

Definition zipmapRewind (zm : bytes) : Z := 1.

(** The position after the entry at [p], with the offset and length of its key and
    of its value; [NULL] at the end. *)
Definition zipmapNext (zm : bytes) (p : Z) : option (option (Z * (Z * Z) * (Z * Z))) :=
  c <- load8 zm p;;
  if c =? ZIPMAP_END then Some None else
  klen <- zipmapDecodeLength zm p;;
  let key := p + ZIPMAP_LEN_BYTES klen in
  k <- zipmapRawKeyLength zm p;;
  let p := p + k in
  vlen <- zipmapDecodeLength zm p;;
  let value := p + 1 + ZIPMAP_LEN_BYTES vlen in
  v <- zipmapRawValueLength zm p;;
  Some (Some (p + v, (key, klen), (value, vlen))).

(** The offset and length of the value, if the key is found. *)
Definition zipmapGet (zm key : bytes) (klen : Z) : option (option (Z * Z)) :=
  ' (p, _) <- zipmapLookupRaw zm (Some key) klen false;;
  match p with
  | None => Some None
  | Some p =>
    k <- zipmapRawKeyLength zm p;;
    let p := p + k in
    vlen <- zipmapDecodeLength zm p;;
    Some (Some (p + ZIPMAP_LEN_BYTES vlen + 1, vlen))
  end.

Definition zipmapExists (zm key : bytes) (klen : Z) : option bool :=
  ' (p, _) <- zipmapLookupRaw zm (Some key) klen false;;
  Some (bool_decide (is_Some p)).

(** [while((p = zipmapNext(p,...)) != NULL) len++;] *)
Fixpoint zipmapLen_loop (fuel : nat) (zm : bytes) (p len : Z) : option Z :=
  match fuel with
  | O => None
  | S fuel =>
    r <- zipmapNext zm p;;
    match r with
    | None => Some len
    | Some (p, _, _) => zipmapLen_loop fuel zm p (uint 32 (len + 1))
    end
  end.

Definition zipmapLen (zm : bytes) : option (bytes * Z) :=
  n <- load8 zm 0;;
  if n <? ZIPMAP_BIGLEN then Some (zm, n) else
  len <- zipmapLen_loop (length zm) zm (zipmapRewind zm) 0;;
  zm <- (if len <? ZIPMAP_BIGLEN then store8 zm 0 len else Some zm);;
  Some (zm, len).

Definition zipmapBlobLen (zm : bytes) : option Z :=
  ' (_, totlen) <- zipmapLookupRaw zm None 0 true;;
  Some totlen.

(** The iteration of the callers (the conversion of a loaded zipmap in rdb.c):
    every key with its value, in order. *)
Fixpoint zipmap_pairs_loop (fuel : nat) (zm : bytes) (p : Z) : option (list (bytes * bytes)) :=
  match fuel with
  | O => None
  | S fuel =>
    r <- zipmapNext zm p;;
    match r with
    | None => Some []
    | Some (p, (key, klen), (value, vlen)) =>
      k <- load zm key klen;;
      v <- load zm value vlen;;
      rest <- zipmap_pairs_loop fuel zm p;;
      Some ((k, v) :: rest)
    end
  end.

Definition zipmap_pairs (zm : bytes) : option (list (bytes * bytes)) :=
  zipmap_pairs_loop (length zm) zm (zipmapRewind zm).

End Zipmap.
