(* ===== verification/ZipmapSpec.v ===== *)
(** Correctness of the zipmap: the block of a zipmap represents a list of
    entries with distinct keys, and every history of operations on a new zipmap
    behaves as the same history on a finite map. *)

From stdpp Require Import gmap.
From S2P Require Import Prelude Endian Robj Zipmap.

(** * Representation *)

(** An encoded length. *)
Definition zmlen_bytes (l : Z) : bytes := if l <? ZIPMAP_BIGLEN then [l] else ZIPMAP_BIGLEN :: le_encode 4 l.

(** Key, value, and the unused bytes behind the value. *)
Record zment := mkZment { zkey : bytes; zval : bytes; zfree : bytes }.

Definition enc_ent (e : zment) : bytes :=
  zmlen_bytes (msize (zkey e)) ++ zkey e ++ zmlen_bytes (msize (zval e)) ++ [msize (zfree e)] ++ zval e ++ zfree e.

Definition enc_ents (es : list zment) : bytes := concat (enc_ent <$> es).

(** The count byte: the number of entries, or 254 once there have been that many. *)
Definition count_ok (n : Z) (es : list zment) : Prop :=
  n = ZIPMAP_BIGLEN \/ n = msize es /\ n < ZIPMAP_BIGLEN.

Record zm_rep (zm : bytes) (es : list zment) := {
  zm_block : exists n, zm = [n] ++ enc_ents es ++ [ZIPMAP_END] /\ count_ok n es;
  zm_size : msize zm < 2 ^ 32;
  zm_keys : NoDup (zkey <$> es);
  zm_free : Forall (fun e => msize (zfree e) < ZIPMAP_VALUE_MAX_FREE) es
}.

(** Offset of the entry with a key among entries that start at [p]. *)
Fixpoint zm_find (key : bytes) (p : Z) (es : list zment) : option Z :=
  match es with
  | [] => None
  | e :: es => if decide (zkey e = key) then Some p else zm_find key (p + msize (enc_ent e)) es
  end.

(** * Lengths and entries *)

Lemma msize_zmlen l : msize (zmlen_bytes l) = ZIPMAP_LEN_BYTES l.
Proof. unfold zmlen_bytes, ZIPMAP_LEN_BYTES. by destruct (l <? ZIPMAP_BIGLEN). Qed.

Lemma zmlen_range l : 1 <= ZIPMAP_LEN_BYTES l <= 5.
Proof. unfold ZIPMAP_LEN_BYTES. destruct (l <? ZIPMAP_BIGLEN); lia. Qed.

#[export] Hint Rewrite msize_zmlen : cmem.

(** Solve sizes of entries. *)
Ltac zmsolve :=
  repeat match goal with
  | |- context [ZIPMAP_LEN_BYTES ?l] =>
      lazymatch goal with _ : 1 <= ZIPMAP_LEN_BYTES l <= _ |- _ => fail | _ => pose proof (zmlen_range l) end
  | _ : context [ZIPMAP_LEN_BYTES ?l] |- _ =>
      lazymatch goal with _ : 1 <= ZIPMAP_LEN_BYTES l <= _ |- _ => fail | _ => pose proof (zmlen_range l) end
  end; msolve.

Lemma msize_enc_ent e :
  msize (enc_ent e) = ZIPMAP_LEN_BYTES (msize (zkey e)) + msize (zkey e) + ZIPMAP_LEN_BYTES (msize (zval e)) + 1
                      + msize (zval e) + msize (zfree e).
Proof. unfold enc_ent. zmsolve. Qed.

Lemma enc_ent_pos e : 3 <= msize (enc_ent e).
Proof. rewrite msize_enc_ent. zmsolve. Qed.

Lemma enc_ents_cons e es : enc_ents (e :: es) = enc_ent e ++ enc_ents es.
Proof. done. Qed.

Lemma enc_ents_app es1 es2 : enc_ents (es1 ++ es2) = enc_ents es1 ++ enc_ents es2.
Proof. unfold enc_ents. by rewrite fmap_app, concat_app. Qed.

Lemma enc_ents_length es : 3 * msize es <= msize (enc_ents es).
Proof.
  induction es as [|e es IH]; [done|]. rewrite enc_ents_cons, msize_app, msize_cons. pose proof (enc_ent_pos e). lia.
Qed.

Section Lengths.
Context `{Host}.

Lemma zipmapDecodeLength_at A l C zm p :
  zm = A ++ zmlen_bytes l ++ C -> p = msize A -> 0 <= l < 2 ^ 32 -> zipmapDecodeLength zm p = Some l.
Proof.
  intros Hz Hp Hl. unfold zipmapDecodeLength, zmlen_bytes in *. destruct (Z.ltb_spec l ZIPMAP_BIGLEN).
  - rewrite (load8_at A l C) by done. cbn [obind]. by bdecide.
  - rewrite (load8_at A ZIPMAP_BIGLEN (le_encode 4 l ++ C)) by (rewrite ?Hz; by lsimpl). cbn [obind].
    rewrite Z.ltb_irrefl. rewrite (load_at (A ++ [ZIPMAP_BIGLEN]) (le_encode 4 l) C);
      [|by rewrite Hz; lsimpl|msolve|done]. cbn [obind].
    destruct (memrev32ifbe_decode (le_encode 4 l)) as (bs & E & D); [apply length_le_encode|].
    rewrite E. cbn [obind]. by rewrite D, le_decode_encode, uint_id.
Qed.

Lemma zipmapEncodeLength_at A O C zm p l :
  zm = A ++ O ++ C -> p = msize A -> msize O = ZIPMAP_LEN_BYTES l -> 0 <= l < 2 ^ 32 ->
  zipmapEncodeLength zm (Some p) l = Some (A ++ zmlen_bytes l ++ C, ZIPMAP_LEN_BYTES l).
Proof.
  intros -> -> HO Hl. unfold zipmapEncodeLength, zmlen_bytes, ZIPMAP_LEN_BYTES in *.
  destruct (Z.ltb_spec l ZIPMAP_BIGLEN) as [Hs|Hs]; (destruct O as [|o O]; [done|]); rewrite msize_cons in HO.
  - assert (O = []) as -> by (apply msize_0_nil; lia).
    rewrite (store8_at A o C) by done. cbn [obind app]. unfold ZIPMAP_BIGLEN in Hs. by rewrite uint_id by (change (2 ^ 8) with 256; lia).
  - rewrite (store8_at A o (O ++ C)) by done. cbn [obind].
    change (uint 8 ZIPMAP_BIGLEN) with ZIPMAP_BIGLEN.
    rewrite (store_at (A ++ [ZIPMAP_BIGLEN]) O C); [|by lsimpl|msolve|msolve]. cbn [obind].
    rewrite (memrev32ifbe_encode (A ++ [ZIPMAP_BIGLEN]) l C) by (done || msolve). cbn [obind]. by lsimpl.
Qed.

(** The first byte of an entry is not the end mark. *)
Lemma entry_not_end A e C zm p :
  zm = A ++ enc_ent e ++ C -> p = msize A -> exists c, load8 zm p = Some c /\ (c =? ZIPMAP_END) = false.
Proof.
  intros -> ->. unfold enc_ent, zmlen_bytes at 1. destruct (Z.ltb_spec (msize (zkey e)) ZIPMAP_BIGLEN) as [Hs|].
  - eexists. split; [by eapply (load8_at A)|]. unfold ZIPMAP_BIGLEN, ZIPMAP_END in *. by bdecide.
  - eexists. split; [by eapply (load8_at A)|done].
Qed.

Section Entry.
Variables (A C zm : bytes) (e : zment) (p : Z).
Hypothesis Hz : zm = A ++ enc_ent e ++ C.
Hypothesis Hp : p = msize A.
Hypothesis Hs : msize (enc_ent e) < 2 ^ 32.

Lemma key_length : zipmapDecodeLength zm p = Some (msize (zkey e)).
Proof.
  apply (zipmapDecodeLength_at A _ (zkey e ++ zmlen_bytes (msize (zval e)) ++ [msize (zfree e)] ++ zval e ++ zfree e ++ C)).
  - rewrite Hz. unfold enc_ent. by lsimpl.
  - done.
  - rewrite msize_enc_ent in Hs. zmsolve.
Qed.

Lemma key_bytes : load zm (p + ZIPMAP_LEN_BYTES (msize (zkey e))) (msize (zkey e)) = Some (zkey e).
Proof.
  apply (load_at (A ++ zmlen_bytes (msize (zkey e))) _ (zmlen_bytes (msize (zval e)) ++ [msize (zfree e)] ++ zval e ++ zfree e ++ C)).
  - rewrite Hz. unfold enc_ent. by lsimpl.
  - msolve.
  - done.
Qed.

Lemma key_raw_length :
  zipmapRawKeyLength zm p = Some (ZIPMAP_LEN_BYTES (msize (zkey e)) + msize (zkey e)).
Proof.
  unfold zipmapRawKeyLength. rewrite key_length. cbn [obind]. rewrite uint_id; [done|].
  rewrite msize_enc_ent in Hs. zmsolve.
Qed.

Let q := p + (ZIPMAP_LEN_BYTES (msize (zkey e)) + msize (zkey e)).

Lemma val_length : zipmapDecodeLength zm q = Some (msize (zval e)).
Proof.
  apply (zipmapDecodeLength_at (A ++ zmlen_bytes (msize (zkey e)) ++ zkey e) _ ([msize (zfree e)] ++ zval e ++ zfree e ++ C)).
  - rewrite Hz. unfold enc_ent. by lsimpl.
  - unfold q. msolve.
  - rewrite msize_enc_ent in Hs. zmsolve.
Qed.

Lemma val_free : load8 zm (q + ZIPMAP_LEN_BYTES (msize (zval e))) = Some (msize (zfree e)).
Proof.
  apply (load8_at (A ++ zmlen_bytes (msize (zkey e)) ++ zkey e ++ zmlen_bytes (msize (zval e))) _ (zval e ++ zfree e ++ C)).
  - rewrite Hz. unfold enc_ent. by lsimpl.
  - unfold q. msolve.
Qed.

Lemma val_bytes : load zm (q + ZIPMAP_LEN_BYTES (msize (zval e)) + 1) (msize (zval e)) = Some (zval e).
Proof.
  apply (load_at (A ++ zmlen_bytes (msize (zkey e)) ++ zkey e ++ zmlen_bytes (msize (zval e)) ++ [msize (zfree e)]) _ (zfree e ++ C)).
  - rewrite Hz. unfold enc_ent. by lsimpl.
  - unfold q. msolve.
  - done.
Qed.

Lemma val_raw_length :
  zipmapRawValueLength zm q = Some (ZIPMAP_LEN_BYTES (msize (zval e)) + (msize (zfree e) + 1 + msize (zval e))).
Proof.
  unfold zipmapRawValueLength. rewrite val_length. cbn [obind]. rewrite val_free. cbn [obind].
  rewrite uint_id; [done|]. rewrite msize_enc_ent in Hs. zmsolve.
Qed.

Lemma entry_raw_length : zipmapRawEntryLength zm p = Some (msize (enc_ent e)).
Proof.
  unfold zipmapRawEntryLength. rewrite key_raw_length. cbn [obind]. fold q. rewrite val_raw_length. cbn [obind].
  rewrite msize_enc_ent in *. rewrite uint_id; [f_equal; lia|zmsolve].
Qed.

Lemma next_entry : zipmapNext zm p =
  Some (Some (p + msize (enc_ent e), (p + ZIPMAP_LEN_BYTES (msize (zkey e)), msize (zkey e)),
              (q + ZIPMAP_LEN_BYTES (msize (zval e)) + 1, msize (zval e)))).
Proof.
  unfold zipmapNext. destruct (entry_not_end A e C zm p Hz Hp) as (c & -> & Hc). cbn [obind]. rewrite Hc.
  rewrite key_length. cbn [obind]. rewrite key_raw_length. cbn [obind]. fold q. rewrite val_length. cbn [obind].
  rewrite val_raw_length. cbn [obind]. rewrite msize_enc_ent. unfold q. do 2 f_equal. f_equal; f_equal; lia.
Qed.

End Entry.
End Lengths.

(** * Searching *)

Lemma memcmp_eq a b : length a = length b ->
  exists d, memcmp a b (length a) = Some d /\ (d =? 0) = bool_decide (a = b).
Proof.
  revert b. induction a as [|x a IH]; intros [|y b]; cbn; try done.
  { intros _. exists 0. done. }
  intros [= Hl]. destruct (Z.eqb_spec x y) as [->|Hxy].
  - destruct (IH b Hl) as (d & -> & Hd). exists d. rewrite Hd. split; [done|]. apply bool_decide_ext. naive_solver.
  - exists (x - y). split; [done|]. rewrite bool_decide_eq_false_2 by congruence. by bdecide.
Qed.

Lemma zm_find_split key p es :
  match zm_find key p es with
  | Some q => exists es1 e es2, es = es1 ++ e :: es2 /\ zkey e = key /\ q = p + msize (enc_ents es1) /\ key ∉ zkey <$> es1
  | None => key ∉ zkey <$> es
  end.
Proof.
  revert p. induction es as [|e es IH]; intros p; cbn [zm_find fmap list_fmap]; [apply not_elem_of_nil|].
  case_decide as Hk.
  - exists [], e, es. split_and!; [done|done|change (msize (enc_ents [])) with 0; lia|apply not_elem_of_nil].
  - specialize (IH (p + msize (enc_ent e))). destruct (zm_find key _ es) as [q|].
    + destruct IH as (es1 & e' & es2 & -> & He & -> & Hn). exists (e :: es1), e', es2. split_and!; [done|done| |].
      * rewrite enc_ents_cons, msize_app. lia.
      * cbn. apply not_elem_of_cons. split; [congruence|done].
    + apply not_elem_of_cons. split; [congruence|done].
Qed.

Section Lookup.
Context `{Host}.

(** The comparison of the loop, on the entry at [p]. *)
Lemma lookup_hit A e C zm p key (k : option Z) :
  zm = A ++ enc_ent e ++ C -> p = msize A ->
  match k with
  | None =>
    if msize (zkey e) =? msize key then
      a <- load zm (p + ZIPMAP_LEN_BYTES (msize (zkey e))) (msize (zkey e));;
      b <- load key 0 (msize (zkey e));;
      d <- memcmp a b (Z.to_nat (msize (zkey e)));;
      Some (d =? 0)
    else Some false
  | Some _ => Some false
  end = Some (match k with None => bool_decide (zkey e = key) | Some _ => false end).
Proof.
  intros Hz Hp. destruct k; [done|]. destruct (Z.eqb_spec (msize (zkey e)) (msize key)) as [El|El].
  - rewrite (key_bytes A C zm e p Hz Hp). cbn [obind].
    rewrite (load_at [] key []) by (rewrite ?app_nil_r; done). cbn [obind].
    assert (length (zkey e) = length key) as El' by (unfold msize in El; lia).
    replace (Z.to_nat (msize (zkey e))) with (length (zkey e)) by (unfold msize; lia).
    destruct (memcmp_eq (zkey e) key El') as (d & -> & Hd). cbn [obind]. by rewrite Hd.
  - by rewrite bool_decide_eq_false_2 by congruence.
Qed.

Definition first_hit (key : option bytes) (k : option Z) (p : Z) (es : list zment) : option Z :=
  match k, key with
  | Some x, _ => Some x
  | None, Some key => zm_find key p es
  | None, None => None
  end.

Lemma lookup_loop_spec key klen tot es : (forall s, key = Some s -> klen = msize s) ->
  forall fuel A k zm p, zm = A ++ enc_ents es ++ [ZIPMAP_END] -> p = msize A -> msize zm < 2 ^ 32 ->
  (length es < fuel)%nat ->
  exists t, zipmapLookupRaw_loop fuel zm key klen tot p k = Some (first_hit key k p es, t) /\
    (tot = true -> t = msize zm).
Proof.
  intros Hkey. induction es as [|e es IH]; intros [|fuel] A k zm p Hz Hp Hs Hf; try (cbn [length] in Hf; lia);
    cbn [zipmapLookupRaw_loop].
  - rewrite (load8_at A ZIPMAP_END []) by (rewrite ?Hz; done). cbn [obind]. rewrite Z.eqb_refl.
    rewrite (uint_id 32 p) by (subst zm; msolve). eexists. split; [by destruct k, key|].
    intros _. subst zm. rewrite uint_id by msolve. msolve.
  - rewrite enc_ents_cons, <- app_assoc in Hz.
    assert (msize (enc_ent e) < 2 ^ 32) as He by (subst zm; msolve).
    destruct (entry_not_end A e _ zm p Hz Hp) as (c & -> & Hc). cbn [obind]. rewrite Hc.
    rewrite (key_length A _ zm e p Hz Hp He). cbn [obind].
    assert (Hstep : forall hit k', first_hit key k p (e :: es) = first_hit key k' (p + msize (enc_ent e)) es ->
      k' = (if hit : bool then Some p else k) ->
      exists t, (let p := p + uint 32 (ZIPMAP_LEN_BYTES (msize (zkey e)) + msize (zkey e)) in
        l <- zipmapDecodeLength zm p;;
        let p := p + ZIPMAP_LEN_BYTES l in
        free <- load8 zm p;;
        zipmapLookupRaw_loop fuel zm key klen tot (p + uint 32 (l + 1 + free)) k') =
        Some (first_hit key k p (e :: es), t) /\ (tot = true -> t = msize zm)).
    { intros hit k' E Ek. cbv zeta. pose proof (msize_enc_ent e) as He'. rewrite (uint_id 32) by zmsolve.
      rewrite (val_length A _ zm e p Hz Hp He). cbn [obind]. rewrite (val_free A _ zm e p Hz Hp). cbn [obind].
      rewrite (uint_id 32) by zmsolve. rewrite E.
      replace (_ + _) with (p + msize (enc_ent e)) by lia.
      apply (IH fuel (A ++ enc_ent e)); [by rewrite Hz; lsimpl|msolve|done|cbn [length] in Hf; lia]. }
    destruct key as [key|].
    + rewrite (Hkey key) by done. rewrite (lookup_hit A e _ zm p key k Hz Hp). cbn [obind].
      rewrite (Hkey key) in Hstep by done. destruct k as [x|]; [by apply (Hstep false)|].
      destruct (decide (zkey e = key)) as [Hk|Hk].
      * rewrite bool_decide_eq_true_2 by done. destruct tot; cbn [negb andb].
        -- apply (Hstep true); [|done]. cbn [first_hit zm_find]. by rewrite decide_True.
        -- cbn [first_hit zm_find]. rewrite decide_True by done. by eexists.
      * rewrite bool_decide_eq_false_2 by done. cbn [andb].
        apply (Hstep false); [|done]. cbn [first_hit zm_find]. by rewrite decide_False.
    + cbn [obind andb]. by apply (Hstep false); [destruct k|].
Qed.

Lemma lookup_spec zm es key klen tot : zm_rep zm es -> (forall s, key = Some s -> klen = msize s) ->
  exists t, zipmapLookupRaw zm key klen tot = Some (first_hit key None 1 es, t) /\ (tot = true -> t = msize zm).
Proof.
  intros [(n & Hz & _) Hs _ _] Hk. apply (lookup_loop_spec key klen tot es Hk (length zm) [n]); try done.
  rewrite Hz, !length_app. pose proof (enc_ents_length es). unfold msize in *. cbn. lia.
Qed.

End Lookup.

(** * Updates *)

(** What an entry without free bytes takes. *)
Definition req_size (key val : bytes) : Z :=
  ZIPMAP_LEN_BYTES (msize key) + msize key + ZIPMAP_LEN_BYTES (msize val) + 1 + msize val.

Lemma req_size_spec key val : req_size key val < 2 ^ 32 -> zipmapRequiredLength (msize key) (msize val) = req_size key val.
Proof.
  unfold req_size, zipmapRequiredLength, ZIPMAP_LEN_BYTES. rewrite !Z.geb_leb, !Z.leb_antisym. intros Hs.
  pose proof (msize_nonneg key); pose proof (msize_nonneg val).
  destruct (msize key <? ZIPMAP_BIGLEN), (msize val <? ZIPMAP_BIGLEN); cbn [negb];
    rewrite (uint_id 32 (msize key + msize val + 3)) by lia;
    rewrite ?(uint_id 32 (msize key + msize val + 3 + 4)) by lia; rewrite ?uint_id by lia; lia.
Qed.

Lemma last_byte {A} (l : list A) : 0 < msize l -> exists k x, l = k ++ [x].
Proof. destruct l as [|x l _] using rev_ind; [done|]. eauto. Qed.

Section Update.
Context `{Host}.

Lemma zipmapResize_grow X c r : 0 <= r -> msize X + 1 + r < 2 ^ 32 ->
  exists slot, msize slot = r /\ zipmapResize (X ++ [c]) (msize X + 1 + r) = Some (X ++ slot ++ [ZIPMAP_END]).
Proof.
  intros Hr Hs. unfold zipmapResize. rewrite zrealloc_grow by msolve.
  set (Y := [c] ++ fresh (msize (X ++ [c])) (msize X + 1 + r - msize (X ++ [c]))).
  assert (msize Y = 1 + r) as HY. { unfold Y. rewrite msize_app, msize_fresh; msolve. }
  destruct (last_byte Y) as (slot & y & EY); [lia|]. exists slot. rewrite <- app_assoc. fold Y. rewrite EY.
  assert (msize slot = r) as Hslot by (rewrite EY in HY; msolve). split; [done|].
  rewrite uint_id by msolve. rewrite (store8_at (X ++ slot) y []); [by lsimpl|by lsimpl|msolve].
Qed.

Lemma zipmapResize_shrink X Y : 0 < msize Y -> msize (X ++ Y) < 2 ^ 32 ->
  zipmapResize (X ++ Y) (msize X + 1) = Some (X ++ [ZIPMAP_END]).
Proof.
  intros HY Hs. destruct Y as [|y Y]; [done|]. unfold zipmapResize.
  change (y :: Y) with ([y] ++ Y) in *. rewrite (app_assoc X), zrealloc_shrink by msolve.
  rewrite uint_id by msolve. by rewrite (store8_at X y []) by (done || msolve).
Qed.

Lemma zipmapSet_write_at A slot C key val vempty :
  msize slot = req_size key val + vempty -> 0 <= vempty < 256 -> msize slot < 2 ^ 32 ->
  exists f, msize f = vempty /\
    zipmapSet_write (A ++ slot ++ C) (msize A) key (msize key) val (msize val) vempty =
      Some (A ++ enc_ent (mkZment key val f) ++ C).
Proof.
  unfold req_size. intros Hsl Hv Hs.
  destruct (split_at slot (ZIPMAP_LEN_BYTES (msize key))) as (O1 & R1 & -> & H1); [zmsolve|]. rewrite msize_app in *.
  destruct (split_at R1 (msize key)) as (K & R2 & -> & H2); [zmsolve|]. rewrite msize_app in *.
  destruct (split_at R2 (ZIPMAP_LEN_BYTES (msize val))) as (O2 & R3 & -> & H3); [zmsolve|]. rewrite msize_app in *.
  destruct R3 as [|x R3]; [change (msize (A := Z) []) with 0 in *; zmsolve|]. rewrite msize_cons in *.
  destruct (split_at R3 (msize val)) as (V & F & -> & H4); [zmsolve|]. rewrite msize_app in *.
  exists F. split; [lia|]. unfold zipmapSet_write.
  rewrite (zipmapEncodeLength_at A O1 (K ++ O2 ++ x :: V ++ F ++ C)); [|by lsimpl|done|done|zmsolve]. cbn [obind].
  rewrite (load_at [] key []) by (rewrite ?app_nil_r; done). cbn [obind].
  rewrite (store_at (A ++ zmlen_bytes (msize key)) K (O2 ++ x :: V ++ F ++ C)); [|by lsimpl|msolve|done]. cbn [obind].
  rewrite (zipmapEncodeLength_at (A ++ zmlen_bytes (msize key) ++ key) O2 (x :: V ++ F ++ C)); [|by lsimpl|msolve|done|zmsolve].
  cbn [obind].
  rewrite (store8_at (A ++ zmlen_bytes (msize key) ++ key ++ zmlen_bytes (msize val)) x (V ++ F ++ C)); [|by lsimpl|msolve].
  cbn [obind]. rewrite (load_at [] val []) by (rewrite ?app_nil_r; done). cbn [obind].
  rewrite (store_at (A ++ zmlen_bytes (msize key) ++ key ++ zmlen_bytes (msize val) ++ [uint 8 vempty]) V (F ++ C));
    [|by lsimpl|msolve|done].
  unfold enc_ent. cbn [zkey zval zfree]. rewrite uint_id by done.
  replace (msize F) with vempty by lia. by lsimpl.
Qed.

Lemma zipmapSet_shrink_at A slot C req :
  0 < req <= msize slot -> msize (A ++ slot ++ C ++ [ZIPMAP_END]) < 2 ^ 32 ->
  exists slot' vempty,
    zipmapSet_shrink (A ++ slot ++ C ++ [ZIPMAP_END]) (msize A) (msize (A ++ slot ++ C ++ [ZIPMAP_END])) (msize slot) req =
      Some (A ++ slot' ++ C ++ [ZIPMAP_END], msize A, vempty) /\
    msize slot' = req + vempty /\ 0 <= vempty < ZIPMAP_VALUE_MAX_FREE /\ msize slot' <= msize slot.
Proof.
  intros Hr Hs. unfold zipmapSet_shrink. rewrite (uint_id 32 (msize slot - req)) by msolve. rewrite Z.geb_leb.
  destruct (Z.leb_spec ZIPMAP_VALUE_MAX_FREE (msize slot - req)) as [Hbig|Hsmall].
  - rewrite (uint_id 32 (msize A)) by msolve. rewrite uint_id by msolve.
    destruct (split_at slot req) as (S1 & S2 & -> & H1); [lia|].
    destruct (memmove_left (A ++ S1) S2 C [ZIPMAP_END] (A ++ (S1 ++ S2) ++ C ++ [ZIPMAP_END]) (msize A + req)
      (msize A + msize (S1 ++ S2)) (msize (A ++ (S1 ++ S2) ++ C ++ [ZIPMAP_END]) - (msize A + msize (S1 ++ S2) + 1)))
      as (F & HF & ->); [by lsimpl|msolve|msolve|msolve|].
    cbn [obind]. rewrite uint_id by msolve. exists S1, 0.
    replace (_ - _) with (msize (A ++ S1 ++ C) + 1) by msolve.
    replace ((A ++ S1) ++ C ++ F ++ [ZIPMAP_END]) with ((A ++ S1 ++ C) ++ (F ++ [ZIPMAP_END])) by (by lsimpl).
    rewrite zipmapResize_shrink by msolve. cbn [obind]. unfold ZIPMAP_VALUE_MAX_FREE. lsimpl.
    split_and!; msolve || done.
  - exists slot, (msize slot - req). split_and!; [done|lia|lia|done|lia].
Qed.

(** What [zipmapSet_slot] leaves: a slot in place of the entry with the key, or
    at the end. *)
Definition slotted (key : bytes) (es es1 es2 : list zment) (n : Z) : Prop :=
  (key ∉ zkey <$> es /\ es1 = es /\ es2 = [] \/ exists e, zkey e = key /\ es = es1 ++ e :: es2) /\
  forall e, count_ok n (es1 ++ e :: es2).

Lemma slot_new zm es key req : zm_rep zm es -> 0 < req -> msize zm + req < 2 ^ 32 -> key ∉ zkey <$> es ->
  exists n slot, zipmapSet_slot zm None (msize zm) req =
      Some (([n] ++ enc_ents es) ++ slot ++ [] ++ [ZIPMAP_END], msize ([n] ++ enc_ents es), msize zm + req, req, false) /\
    msize slot = req /\ slotted key es es [] n.
Proof.
  intros [(n & Hz & Hn) Hs _ _] Hr Hb Hk. unfold zipmapSet_slot. subst zm.
  destruct (zipmapResize_grow ([n] ++ enc_ents es) ZIPMAP_END req) as (slot & Hsl & E); [lia|msolve|].
  rewrite !uint_id by msolve. replace (msize ([n] ++ enc_ents es ++ [ZIPMAP_END]) + req)
    with (msize ([n] ++ enc_ents es) + 1 + req) by msolve. rewrite app_assoc, E. cbn [obind].
  rewrite (load8_at [] n (enc_ents es ++ slot ++ [ZIPMAP_END])) by (by lsimpl). cbn [obind].
  replace (msize (([n] ++ enc_ents es) ++ [ZIPMAP_END]) - 1) with (msize ([n] ++ enc_ents es)) by msolve.
  unfold slotted, count_ok in *. pose proof (msize_nonneg es). unfold ZIPMAP_BIGLEN in *. destruct (Z.ltb_spec n 254) as [Hlt|Hge].
  - rewrite (store8_at [] n (enc_ents es ++ slot ++ [ZIPMAP_END])) by (by lsimpl). cbn [obind].
    exists (n + 1), slot. rewrite uint_id by (change (2 ^ 8) with 256; lia). split_and!; [done|done|by left|].
    intros e. autorewrite with cmem. lia.
  - exists n, slot. cbn [obind]. lsimpl. split_and!; [done|done|by left|]. intros e. lia.
Qed.

Lemma slot_found zm n es1 e es2 req (m := es1 ++ e :: es2) :
  zm = [n] ++ enc_ents m ++ [ZIPMAP_END] -> 0 < req -> msize zm + req < 2 ^ 32 ->
  exists slot, zipmapSet_slot zm (Some (1 + msize (enc_ents es1))) (msize zm) req =
      Some (([n] ++ enc_ents es1) ++ slot ++ enc_ents es2 ++ [ZIPMAP_END], msize ([n] ++ enc_ents es1),
            msize (([n] ++ enc_ents es1) ++ slot ++ enc_ents es2 ++ [ZIPMAP_END]), msize slot, true) /\
    req <= msize slot /\ msize slot = Z.max req (msize (enc_ent e)).
Proof.
  unfold m. rewrite enc_ents_app, enc_ents_cons. intros Hz Hr Hb. unfold zipmapSet_slot.
  pose proof (enc_ent_pos e) as Hpos.
  rewrite (entry_raw_length ([n] ++ enc_ents es1) (enc_ents es2 ++ [ZIPMAP_END]) zm e);
    [|by rewrite Hz; lsimpl|msolve|subst zm; msolve]. cbn [obind].
  replace (1 + msize (enc_ents es1)) with (msize ([n] ++ enc_ents es1)) by msolve.
  destruct (Z.ltb_spec (msize (enc_ent e)) req) as [Hlt|Hge].
  - rewrite (uint_id 32 (msize ([n] ++ enc_ents es1))) by (subst zm; msolve).
    rewrite (uint_id 32 (msize zm - msize (enc_ent e) + req)) by (subst zm; msolve).
    rewrite uint_id by (subst zm; msolve).
    destruct (zipmapResize_grow ([n] ++ enc_ents es1 ++ enc_ent e ++ enc_ents es2) ZIPMAP_END (req - msize (enc_ent e)))
      as (slot & Hsl & E); [lia|subst zm; msolve|].
    replace (msize zm - msize (enc_ent e) + req)
      with (msize ([n] ++ enc_ents es1 ++ enc_ent e ++ enc_ents es2) + 1 + (req - msize (enc_ent e))) by (subst zm; msolve).
    replace (([n] ++ enc_ents es1 ++ enc_ent e ++ enc_ents es2) ++ [ZIPMAP_END]) with zm in E by (rewrite Hz; by lsimpl).
    rewrite E. cbn [obind].
    destruct (memmove_right ([n] ++ enc_ents es1 ++ enc_ent e) (enc_ents es2) slot [ZIPMAP_END]
      (([n] ++ enc_ents es1 ++ enc_ent e ++ enc_ents es2) ++ slot ++ [ZIPMAP_END]) (msize ([n] ++ enc_ents es1) + req)
      (msize ([n] ++ enc_ents es1) + msize (enc_ent e)) (msize zm - (msize ([n] ++ enc_ents es1) + msize (enc_ent e) + 1)))
      as (G & HG & ->); [by lsimpl|msolve|msolve|subst zm; msolve|].
    cbn [obind]. exists (enc_ent e ++ G). rewrite (msize_app (enc_ent e)). split; [|lia].
    apply (f_equal Some), (f_equal2 pair); [|done]. apply (f_equal2 pair); [|lia]. apply (f_equal2 pair); [|msolve].
    apply (f_equal2 pair); [by lsimpl|done].
  - exists (enc_ent e). split; [|lia]. rewrite Hz. by lsimpl.
Qed.

End Update.

(** * The contents *)

Definition pairs (es : list zment) : list (bytes * bytes) := (fun e => (zkey e, zval e)) <$> es.

Lemma pairs_keys es : (pairs es).*1 = zkey <$> es.
Proof. unfold pairs. by rewrite <- list_fmap_compose. Qed.

Lemma pairs_split es1 e es2 : pairs (es1 ++ e :: es2) = pairs es1 ++ (zkey e, zval e) :: pairs es2.
Proof. unfold pairs. by rewrite fmap_app. Qed.

(** The map a zipmap stands for. *)
Definition zm_map (es : list zment) : gmap bytes bytes := list_to_map (pairs es).

Lemma zm_map_split es1 e es2 : NoDup (zkey <$> es1 ++ e :: es2) ->
  zm_map (es1 ++ e :: es2) = <[zkey e := zval e]> (zm_map (es1 ++ es2)).
Proof.
  intros Hn. rewrite <- pairs_keys in Hn. unfold zm_map.
  rewrite (list_to_map_proper _ ((zkey e, zval e) :: pairs (es1 ++ es2))); [done|done|].
  unfold pairs. rewrite fmap_app, fmap_app. symmetry. apply Permutation_middle.
Qed.

Lemma zm_map_fresh es key : key ∉ zkey <$> es -> zm_map es !! key = None.
Proof. intros. apply not_elem_of_list_to_map_1. by rewrite pairs_keys. Qed.

Lemma NoDup_remove_key es1 e es2 : NoDup (zkey <$> es1 ++ e :: es2) ->
  NoDup (zkey <$> es1 ++ es2) /\ zkey e ∉ zkey <$> es1 ++ es2.
Proof.
  rewrite !fmap_app, fmap_cons. intros Hn. apply list.NoDup_app in Hn as (H1 & H2 & H3).
  apply list.NoDup_cons in H3 as [H3 H4]. split.
  - apply list.NoDup_app. split_and!; [done| |done]. intros x Hx Hx2. apply (H2 x Hx). by apply list_elem_of_further.
  - rewrite elem_of_app. intros [Hx|Hx]; [|done]. apply (H2 _ Hx). apply list_elem_of_here.
Qed.

Lemma NoDup_add_key es1 e es2 : NoDup (zkey <$> es1 ++ es2) -> zkey e ∉ zkey <$> es1 ++ es2 ->
  NoDup (zkey <$> es1 ++ e :: es2).
Proof.
  intros Hn Hx. rewrite <- (NoDup_Permutation_proper (zkey e :: (zkey <$> es1 ++ es2))).
  - by apply list.NoDup_cons.
  - rewrite !fmap_app, fmap_cons. apply Permutation_middle.
Qed.

Section Contents.
Context `{Host}.

Lemma zipmapSet_slot_spec zm es key req : zm_rep zm es -> 0 < req -> msize zm + req < 2 ^ 32 ->
  exists n es1 es2 slot (zm' := ([n] ++ enc_ents es1) ++ slot ++ enc_ents es2 ++ [ZIPMAP_END]),
    zipmapSet_slot zm (zm_find key 1 es) (msize zm) req =
      Some (zm', msize ([n] ++ enc_ents es1), msize zm', msize slot, bool_decide (key ∈ zkey <$> es)) /\
    req <= msize slot /\ msize zm' <= msize zm + req /\ slotted key es es1 es2 n.
Proof.
  intros Hrep Hpos Hb. pose proof Hrep as [(n & Hz & Hn) Hs Hnd _]. pose proof (zm_find_split key 1 es) as Hf.
  destruct (zm_find key 1 es) as [q|].
  - destruct Hf as (es1 & e & es2 & -> & He & -> & Hni).
    destruct (slot_found zm n es1 e es2 req Hz Hpos Hb) as (slot & -> & H1 & H2).
    exists n, es1, es2, slot. rewrite bool_decide_eq_true_2 by (rewrite fmap_app, fmap_cons; set_solver).
    split_and!; [done|done| |split; [right; by exists e|]].
    + subst zm. rewrite enc_ents_app, enc_ents_cons. msolve.
    + intros e'. unfold count_ok in *. rewrite !msize_app, !msize_cons in *. done.
  - destruct (slot_new zm es key req Hrep Hpos Hb Hf) as (n' & slot & -> & H1 & H2).
    exists n', es, [], slot. rewrite bool_decide_eq_false_2 by done. change (enc_ents []) with (@nil Z). cbv zeta.
    assert (msize (([n'] ++ enc_ents es) ++ slot ++ [] ++ [ZIPMAP_END]) = msize zm + req) as -> by (subst zm; msolve).
    rewrite H1. split_and!; done || lia.
Qed.

(** Filling the slot gives the updated map. *)
Lemma slotted_fill zm es es1 e es2 n : zm_rep zm es -> slotted (zkey e) es es1 es2 n ->
  msize (zfree e) < ZIPMAP_VALUE_MAX_FREE -> msize (([n] ++ enc_ents es1) ++ enc_ent e ++ enc_ents es2 ++ [ZIPMAP_END]) < 2 ^ 32 ->
  zm_rep (([n] ++ enc_ents es1) ++ enc_ent e ++ enc_ents es2 ++ [ZIPMAP_END]) (es1 ++ e :: es2) /\
  zm_map (es1 ++ e :: es2) = <[zkey e := zval e]> (zm_map es).
Proof.
  intros [_ _ Hnd Hfree] [Hst Hcnt] Hf Hs.
  assert (zkey e ∉ zkey <$> es1 ++ es2 /\ NoDup (zkey <$> es1 ++ es2) /\
    Forall (fun e => msize (zfree e) < ZIPMAP_VALUE_MAX_FREE) (es1 ++ es2) /\
    <[zkey e := zval e]> (zm_map (es1 ++ es2)) = <[zkey e := zval e]> (zm_map es)) as (Hk & Hnd' & Hfr & Hmap).
  { destruct Hst as [(Hk & -> & ->)|(e0 & E0 & ->)].
    - by rewrite app_nil_r.
    - destruct (NoDup_remove_key _ _ _ Hnd) as [H4 H5]. rewrite E0 in H5. split_and!; [done|done| |].
      + apply list.Forall_app in Hfree as [? Hfree]. apply list.Forall_cons in Hfree as [? ?]. by apply list.Forall_app.
      + rewrite zm_map_split by done. by rewrite E0, insert_insert_eq. }
  assert (NoDup (zkey <$> es1 ++ e :: es2)) as Hnd2 by (by apply NoDup_add_key).
  split; [|by rewrite zm_map_split, Hmap]. split; [|done|done|].
  - exists n. split; [|apply Hcnt]. rewrite enc_ents_app, enc_ents_cons. by lsimpl.
  - apply list.Forall_app in Hfr as [? ?]. apply list.Forall_app. split; [done|]. by apply list.Forall_cons.
Qed.

Lemma zipmapSet_spec zm es key val : zm_rep zm es -> msize zm + req_size key val < 2 ^ 32 ->
  exists zm' es', zipmapSet zm key (msize key) val (msize val) = Some (zm', bool_decide (key ∈ zkey <$> es)) /\
    zm_rep zm' es' /\ zm_map es' = <[key := val]> (zm_map es) /\ msize zm' <= msize zm + req_size key val.
Proof.
  intros Hrep Hb. unfold zipmapSet. assert (0 < req_size key val) as Hpos by (unfold req_size; zmsolve).
  rewrite req_size_spec by msolve.
  destruct (lookup_spec zm es (Some key) (msize key) true Hrep) as (t & -> & Ht); [by intros ? [= ->]|].
  rewrite Ht by done. cbn [obind first_hit].
  destruct (zipmapSet_slot_spec zm es key (req_size key val) Hrep Hpos Hb) as (n & es1 & es2 & slot & -> & Hsl & Hsz & Hst).
  cbn [obind].
  destruct (zipmapSet_shrink_at ([n] ++ enc_ents es1) slot (enc_ents es2) (req_size key val)) as (sl & ve & -> & H1 & H2 & H3);
    [lia|lia|]. cbn [obind]. unfold ZIPMAP_VALUE_MAX_FREE in H2.
  destruct (zipmapSet_write_at ([n] ++ enc_ents es1) sl (enc_ents es2 ++ [ZIPMAP_END]) key val ve) as (f & Hf & ->);
    [done|lia|msolve|]. cbn [obind].
  pose proof (msize_enc_ent (mkZment key val f)) as He. cbn [zkey zval zfree] in He. unfold req_size in *.
  destruct (slotted_fill zm es es1 (mkZment key val f) es2 n Hrep Hst) as [Hr Hm]; [cbn [zfree]; unfold ZIPMAP_VALUE_MAX_FREE; lia|msolve|].
  eexists _, _. split; [done|]. split; [done|]. split; [done|]. msolve.
Qed.

Lemma del_count n es1 e es2 (X := ([n] ++ enc_ents es1 ++ enc_ents es2) ++ [ZIPMAP_END]) : count_ok n (es1 ++ e :: es2) ->
  exists n', (if n <? ZIPMAP_BIGLEN then store8 X 0 (n - 1) else Some X) =
    Some ([n'] ++ enc_ents (es1 ++ es2) ++ [ZIPMAP_END]) /\ count_ok n' (es1 ++ es2).
Proof.
  rewrite enc_ents_app. unfold X, count_ok, ZIPMAP_BIGLEN. rewrite !msize_app, !msize_cons. intros Hn.
  pose proof (msize_nonneg es1); pose proof (msize_nonneg es2). destruct (Z.ltb_spec n 254) as [Hlt|Hge].
  - exists (n - 1). rewrite (store8_at [] n ((enc_ents es1 ++ enc_ents es2) ++ [ZIPMAP_END])) by done.
    rewrite uint_id by (change (2 ^ 8) with 256; lia). split; [done|lia].
  - exists n. split; [by lsimpl|lia].
Qed.

Lemma zipmapDel_spec zm es key : zm_rep zm es ->
  exists zm' es', zipmapDel zm key (msize key) = Some (zm', bool_decide (key ∈ zkey <$> es)) /\
    zm_rep zm' es' /\ zm_map es' = delete key (zm_map es) /\ msize zm' <= msize zm.
Proof.
  intros Hrep. unfold zipmapDel.
  destruct (lookup_spec zm es (Some key) (msize key) true Hrep) as (t & -> & Ht); [by intros ? [= ->]|].
  rewrite Ht by done. cbn [obind first_hit]. pose proof (zm_find_split key 1 es) as Hf.
  destruct (zm_find key 1 es) as [q|].
  2: { exists zm, es. rewrite bool_decide_eq_false_2 by done. split_and!; [done|done| |lia].
       by rewrite delete_id by (by apply zm_map_fresh). }
  destruct Hf as (es1 & e & es2 & -> & He & -> & Hni). destruct Hrep as [(n & Hz & Hn) Hs Hnd Hfr].
  rewrite bool_decide_eq_true_2 by (rewrite fmap_app, fmap_cons; set_solver).
  rewrite enc_ents_app, enc_ents_cons in Hz. pose proof (enc_ent_pos e).
  rewrite (entry_raw_length ([n] ++ enc_ents es1) (enc_ents es2 ++ [ZIPMAP_END]) zm e);
    [|by rewrite Hz; lsimpl|msolve|subst zm; msolve]. cbn [obind].
  destruct (memmove_left ([n] ++ enc_ents es1) (enc_ent e) (enc_ents es2) [ZIPMAP_END] zm (1 + msize (enc_ents es1))
    (1 + msize (enc_ents es1) + msize (enc_ent e)) (msize zm - (1 + msize (enc_ents es1) + msize (enc_ent e) + 1)))
    as (F & HF & ->); [by rewrite Hz; lsimpl|msolve|msolve|subst zm; msolve|]. cbn [obind].
  rewrite uint_id by (subst zm; msolve).
  replace (([n] ++ enc_ents es1) ++ enc_ents es2 ++ F ++ [ZIPMAP_END]) with
    (([n] ++ enc_ents es1 ++ enc_ents es2) ++ (F ++ [ZIPMAP_END])) by (by lsimpl).
  replace (msize zm - msize (enc_ent e)) with (msize ([n] ++ enc_ents es1 ++ enc_ents es2) + 1) by (subst zm; msolve).
  rewrite zipmapResize_shrink by (subst zm; msolve). cbn [obind].
  rewrite (load8_at [] n ((enc_ents es1 ++ enc_ents es2) ++ [ZIPMAP_END])) by done. cbn [obind].
  destruct (NoDup_remove_key _ _ _ Hnd) as [H4 H5].
  assert (Hfr' : Forall (fun e => msize (zfree e) < ZIPMAP_VALUE_MAX_FREE) (es1 ++ es2)).
  { apply list.Forall_app in Hfr as [? Hfr]. apply list.Forall_cons in Hfr as [? ?]. by apply list.Forall_app. }
  assert (Hm : zm_map (es1 ++ es2) = delete key (zm_map (es1 ++ e :: es2))).
  { rewrite zm_map_split, He, delete_insert_id by (done || (rewrite <- He; by apply zm_map_fresh)). done. }
  destruct (del_count n es1 e es2 Hn) as (n' & -> & Hn').
  cbn [obind]. exists ([n'] ++ enc_ents (es1 ++ es2) ++ [ZIPMAP_END]), (es1 ++ es2).
  assert (msize ([n'] ++ enc_ents (es1 ++ es2) ++ [ZIPMAP_END]) <= msize zm) by (subst zm; rewrite enc_ents_app; msolve).
  split_and!; [done| |done|done]. split; [by exists n'|lia|done|done].
Qed.

(** ** Reading *)

Lemma zm_map_get es es1 e es2 : NoDup (zkey <$> es) -> es = es1 ++ e :: es2 -> zm_map es !! zkey e = Some (zval e).
Proof. intros Hn ->. rewrite zm_map_split by done. by rewrite lookup_insert_eq. Qed.

Lemma zipmapGet_spec zm es key : zm_rep zm es ->
  exists r, zipmapGet zm key (msize key) = Some r /\
    match r with
    | None => zm_map es !! key = None
    | Some (off, len) => exists v, load zm off len = Some v /\ zm_map es !! key = Some v
    end.
Proof.
  intros Hrep. unfold zipmapGet.
  destruct (lookup_spec zm es (Some key) (msize key) false Hrep) as (t & -> & _); [by intros ? [= ->]|].
  cbn [obind first_hit]. pose proof (zm_find_split key 1 es) as Hf. destruct (zm_find key 1 es) as [q|].
  2: { exists None. split; [done|by apply zm_map_fresh]. }
  destruct Hf as (es1 & e & es2 & Ee & <- & -> & Hni). destruct Hrep as [(n & Hz & Hn) Hs Hnd Hfr].
  pose proof (zm_map_get es es1 e es2 Hnd Ee) as Hg.
  assert (zm = ([n] ++ enc_ents es1) ++ enc_ent e ++ enc_ents es2 ++ [ZIPMAP_END]) as Hz'.
  { rewrite Hz, Ee, enc_ents_app, enc_ents_cons. by lsimpl. }
  assert (1 + msize (enc_ents es1) = msize ([n] ++ enc_ents es1)) as Hp by msolve.
  assert (msize (enc_ent e) < 2 ^ 32) as He by (subst zm; rewrite Hz' in Hs; msolve).
  rewrite (key_raw_length _ _ zm e _ Hz' Hp He). cbn [obind].
  rewrite (val_length _ _ zm e _ Hz' Hp He). cbn [obind]. eexists. split; [done|]. cbn.
  exists (zval e). split; [|done]. apply (val_bytes _ _ zm e _ Hz' Hp).
Qed.

Lemma zipmapExists_spec zm es key : zm_rep zm es ->
  zipmapExists zm key (msize key) = Some (bool_decide (is_Some (zm_map es !! key))).
Proof.
  intros Hrep. unfold zipmapExists.
  destruct (lookup_spec zm es (Some key) (msize key) false Hrep) as (t & -> & _); [by intros ? [= ->]|].
  cbn [obind first_hit]. pose proof (zm_find_split key 1 es) as Hf. destruct (zm_find key 1 es) as [q|].
  - destruct Hf as (es1 & e & es2 & Ee & <- & -> & _).
    rewrite (zm_map_get es es1 e es2) by (done || apply Hrep). by rewrite !bool_decide_eq_true_2.
  - rewrite zm_map_fresh by done. by rewrite !bool_decide_eq_false_2 by (intros [? [=]]).
Qed.

Lemma zipmapNext_end A zm p : zm = A ++ [ZIPMAP_END] -> p = msize A -> zipmapNext zm p = Some None.
Proof. intros -> ->. unfold zipmapNext. by rewrite (load8_at A ZIPMAP_END []). Qed.

Lemma zipmapLen_loop_spec es : forall fuel A zm p len, zm = A ++ enc_ents es ++ [ZIPMAP_END] -> p = msize A ->
  msize zm < 2 ^ 32 -> (length es < fuel)%nat -> 0 <= len -> len + msize es < 2 ^ 32 ->
  zipmapLen_loop fuel zm p len = Some (len + msize es).
Proof.
  induction es as [|e es IH]; intros [|fuel] A zm p len Hz Hp Hs Hf Hl Hb; try (cbn [length] in Hf; lia);
    cbn [zipmapLen_loop].
  - rewrite (zipmapNext_end A) by done. cbn [obind]. by rewrite Z.add_0_r.
  - rewrite enc_ents_cons, <- app_assoc in Hz. rewrite msize_cons in *.
    rewrite (next_entry A _ zm e p Hz Hp) by (subst zm; msolve). cbn [obind].
    rewrite uint_id by msolve.
    rewrite (IH fuel (A ++ enc_ent e)); [f_equal; lia|by rewrite Hz; lsimpl|msolve|done|cbn [length] in Hf; lia|lia|lia].
Qed.

Lemma zipmap_pairs_loop_spec es : forall fuel A zm p, zm = A ++ enc_ents es ++ [ZIPMAP_END] -> p = msize A ->
  msize zm < 2 ^ 32 -> (length es < fuel)%nat -> zipmap_pairs_loop fuel zm p = Some (pairs es).
Proof.
  induction es as [|e es IH]; intros [|fuel] A zm p Hz Hp Hs Hf; try (cbn [length] in Hf; lia); cbn [zipmap_pairs_loop].
  - by rewrite (zipmapNext_end A).
  - rewrite enc_ents_cons, <- app_assoc in Hz.
    rewrite (next_entry A _ zm e p Hz Hp) by (subst zm; msolve). cbn [obind].
    rewrite (key_bytes A _ zm e p Hz Hp). cbn [obind]. rewrite (val_bytes A _ zm e p Hz Hp). cbn [obind].
    rewrite (IH fuel (A ++ enc_ent e)); [done|by rewrite Hz; lsimpl|msolve|done|cbn [length] in Hf; lia].
Qed.

Lemma zm_fuel zm es n : zm = [n] ++ enc_ents es ++ [ZIPMAP_END] -> (length es < length zm)%nat /\ msize es < msize zm.
Proof. intros ->. pose proof (enc_ents_length es). split; [rewrite !length_app; unfold msize in *; cbn; lia|msolve]. Qed.

Lemma zm_map_size es : NoDup (zkey <$> es) -> Z.of_nat (size (zm_map es)) = msize es.
Proof.
  intros Hn. rewrite <- (length_map_to_list (zm_map es)). unfold zm_map.
  rewrite map_to_list_to_map by (by rewrite pairs_keys). unfold pairs, msize. by rewrite length_fmap.
Qed.

Lemma zipmapLen_spec zm es : zm_rep zm es ->
  exists zm', zipmapLen zm = Some (zm', Z.of_nat (size (zm_map es))) /\ zm_rep zm' es /\ msize zm' = msize zm.
Proof.
  intros [(n & Hz & Hn) Hs Hnd Hfr]. rewrite zm_map_size by done. unfold zipmapLen.
  rewrite (load8_at [] n (enc_ents es ++ [ZIPMAP_END])) by done. cbn [obind]. pose proof (msize_nonneg es) as H0.
  destruct (zm_fuel zm es n Hz) as [Hf Hm]. unfold count_ok in *. destruct (Z.ltb_spec n ZIPMAP_BIGLEN) as [Hlt|Hge].
  - exists zm. split; [do 2 f_equal; lia|]. split; [|done]. split; [|done..]. exists n. by split.
  - rewrite (zipmapLen_loop_spec es (length zm) [n]) by (done || lia). cbn [obind]. rewrite Z.add_0_l.
    destruct (Z.ltb_spec (msize es) ZIPMAP_BIGLEN) as [Hlt|Hge'].
    + rewrite (store8_at [] n (enc_ents es ++ [ZIPMAP_END])) by done. cbn [obind].
      rewrite uint_id by (unfold ZIPMAP_BIGLEN in *; change (2 ^ 8) with 256; lia).
      eexists. split; [done|]. split; [|subst zm; msolve]. split; [|subst zm; msolve|done..].
      exists (msize es). split; [done|]. right. by split.
    + exists zm. split; [done|]. split; [|done]. split; [|done..]. exists n. by split.
Qed.

Lemma zipmap_pairs_spec zm es : zm_rep zm es ->
  exists ps, zipmap_pairs zm = Some ps /\ ps ≡ₚ map_to_list (zm_map es).
Proof.
  intros [(n & Hz & Hn) Hs Hnd Hfr]. exists (pairs es). split.
  - apply (zipmap_pairs_loop_spec es (length zm) [n]); try done. by apply (zm_fuel zm es n).
  - unfold zm_map. by rewrite map_to_list_to_map by (by rewrite pairs_keys).
Qed.

Lemma zipmapBlobLen_spec zm es : zm_rep zm es -> zipmapBlobLen zm = Some (msize zm).
Proof.
  intros Hrep. unfold zipmapBlobLen. destruct (lookup_spec zm es None 0 true Hrep) as (t & -> & Ht); [done|].
  cbn [obind]. by rewrite Ht.
Qed.

Lemma zipmapNew_spec : exists zm, zipmapNew = Some zm /\ zm_rep zm [] /\ msize zm = 2.
Proof.
  exists [0; ZIPMAP_END]. split; [done|]. split; [|done]. split; [|done|constructor|constructor].
  exists 0. split; [done|]. right. done.
Qed.

End Contents.

(** * Histories *)

Inductive zmop := ZmSet (key val : bytes) | ZmDel (key : bytes) | ZmGet (key : bytes) | ZmExists (key : bytes)
  | ZmLen | ZmPairs.

Inductive zmres := RFlag (b : bool) | RVal (v : option bytes) | RCount (n : Z) | RPairs (ps : list (bytes * bytes)).

(** A history ends with the block, whose length is what [zipmapBlobLen] says. *)
Section History.
Context `{Host}.

Definition zm_exec (zm : bytes) (o : zmop) : option (bytes * zmres) :=
  match o with
  | ZmSet key val => ' (zm, b) <- zipmapSet zm key (msize key) val (msize val);; Some (zm, RFlag b)
  | ZmDel key => ' (zm, b) <- zipmapDel zm key (msize key);; Some (zm, RFlag b)
  | ZmGet key =>
    r <- zipmapGet zm key (msize key);;
    match r with
    | None => Some (zm, RVal None)
    | Some (off, len) => v <- load zm off len;; Some (zm, RVal (Some v))
    end
  | ZmExists key => b <- zipmapExists zm key (msize key);; Some (zm, RFlag b)
  | ZmLen => ' (zm, n) <- zipmapLen zm;; Some (zm, RCount n)
  | ZmPairs => ps <- zipmap_pairs zm;; Some (zm, RPairs ps)
  end.

Fixpoint zm_exec_all (zm : bytes) (os : list zmop) : option (bytes * list zmres) :=
  match os with
  | [] => Some (zm, [])
  | o :: os => ' (zm, r) <- zm_exec zm o;; ' (zm, rs) <- zm_exec_all zm os;; Some (zm, r :: rs)
  end.

(** The same operation on a finite map. *)
Definition map_exec (m : gmap bytes bytes) (o : zmop) : gmap bytes bytes * zmres :=
  match o with
  | ZmSet key val => (<[key := val]> m, RFlag (bool_decide (is_Some (m !! key))))
  | ZmDel key => (delete key m, RFlag (bool_decide (is_Some (m !! key))))
  | ZmGet key => (m, RVal (m !! key))
  | ZmExists key => (m, RFlag (bool_decide (is_Some (m !! key))))
  | ZmLen => (m, RCount (Z.of_nat (size m)))
  | ZmPairs => (m, RPairs (map_to_list m))
  end.

Fixpoint map_exec_all (m : gmap bytes bytes) (os : list zmop) : gmap bytes bytes * list zmres :=
  match os with
  | [] => (m, [])
  | o :: os => let '(m, r) := map_exec m o in let '(m, rs) := map_exec_all m os in (m, r :: rs)
  end.

(** Equal results; the order of an iteration is not specified. *)
Definition zmres_eq (r r' : zmres) : Prop :=
  match r, r' with
  | RPairs ps, RPairs ps' => ps ≡ₚ ps'
  | _, _ => r = r'
  end.

(** The bytes an operation can add. *)
Definition op_size (o : zmop) : Z := match o with ZmSet key val => req_size key val | _ => 0 end.

Definition ops_size (os : list zmop) : Z := foldr (fun o n => op_size o + n) 0 os.

Lemma op_size_nonneg o : 0 <= op_size o.
Proof. destruct o; cbn; try lia. unfold req_size. zmsolve. Qed.

Lemma ops_size_nonneg os : 0 <= ops_size os.
Proof. induction os as [|o os IH]; cbn; [lia|]. pose proof (op_size_nonneg o). unfold ops_size in IH. lia. Qed.

Lemma zm_key_known es key : NoDup (zkey <$> es) -> bool_decide (key ∈ zkey <$> es) = bool_decide (is_Some (zm_map es !! key)).
Proof.
  intros Hn. apply bool_decide_ext. split.
  - intros (e & -> & He)%list_elem_of_fmap_1. apply list_elem_of_split in He as (es1 & es2 & Ee).
    rewrite (zm_map_get es es1 e es2) by done. eauto.
  - intros [v Hv]. apply dec_stable. intros Hk. by rewrite (zm_map_fresh es key Hk) in Hv.
Qed.

Lemma zm_exec_spec zm es o : zm_rep zm es -> msize zm + op_size o < 2 ^ 32 ->
  exists zm' es' r, zm_exec zm o = Some (zm', r) /\ zm_rep zm' es' /\ zm_map es' = (map_exec (zm_map es) o).1 /\
    zmres_eq r (map_exec (zm_map es) o).2 /\ msize zm' <= msize zm + op_size o.
Proof.
  intros Hrep Hb. pose proof (zm_keys _ _ Hrep) as Hnd. destruct o as [key val|key|key|key| |]; cbn [zm_exec map_exec op_size fst snd] in *.
  - destruct (zipmapSet_spec zm es key val Hrep Hb) as (zm' & es' & -> & H1 & H2 & H3). cbn [obind].
    rewrite zm_key_known by done. by eexists _, _, _.
  - destruct (zipmapDel_spec zm es key Hrep) as (zm' & es' & -> & H1 & H2 & H3). cbn [obind].
    rewrite zm_key_known by done. eexists _, _, _. split_and!; [done..|lia].
  - destruct (zipmapGet_spec zm es key Hrep) as ([[off len]|] & -> & Hr); cbn [obind].
    + destruct Hr as (v & -> & Hv). cbn [obind]. eexists _, _, _. split_and!; [done..|by rewrite Hv|lia].
    + eexists _, _, _. split_and!; [done..|by rewrite Hr|lia].
  - rewrite (zipmapExists_spec zm es key Hrep). cbn [obind]. eexists _, _, _. split_and!; [done..|lia].
  - destruct (zipmapLen_spec zm es Hrep) as (zm' & -> & H1 & H2). cbn [obind]. eexists _, _, _. split_and!; [done..|lia].
  - destruct (zipmap_pairs_spec zm es Hrep) as (ps & -> & Hp). cbn [obind]. eexists _, _, _. split_and!; [done..|lia].
Qed.

Lemma zm_exec_all_spec : forall os zm es, zm_rep zm es -> msize zm + ops_size os < 2 ^ 32 ->
  exists zm' es' rs, zm_exec_all zm os = Some (zm', rs) /\ zm_rep zm' es' /\
    zm_map es' = (map_exec_all (zm_map es) os).1 /\ Forall2 zmres_eq rs (map_exec_all (zm_map es) os).2.
Proof.
  induction os as [|o os IH]; intros zm es Hrep Hb; cbn [zm_exec_all map_exec_all].
  { by exists zm, es, []. }
  cbn in Hb. fold (ops_size os) in Hb. pose proof (ops_size_nonneg os).
  destruct (zm_exec_spec zm es o Hrep) as (zm1 & es1 & r & -> & H1 & H2 & H3 & H4); [lia|]. cbn [obind].
  destruct (IH zm1 es1 H1) as (zm2 & es2 & rs & -> & H5 & H6 & H7); [lia|]. cbn [obind].
  destruct (map_exec (zm_map es) o) as [m1 r1]. cbn in *. subst m1.
  destruct (map_exec_all (zm_map es1) os) as [m2 rs2]. cbn in *. exists zm2, es2, (r :: rs). eauto.
Qed.

End History.


