(* ===== verification/Rio.v ===== *)
(** Streams: rio.c and rio.h.

    A [rio] is a backend (a memory buffer or a file) with a running checksum and
    a maximum chunk size.  The functions of a backend are the class [Backend];
    what the users of a stream rely on are the laws of [Lawful], which the buffer
    satisfies, and the file given the documented behaviour of [fwrite] and
    [fread].  The functions above the backend are proved against the laws. *)

From S2P Require Import Prelude Endian Util Crc Robj Sds SdsRep.

(** The function pointers of [struct _rio].  A read of [n] bytes gives the bytes
    or fails; a write succeeds or fails; [None] is undefined behaviour. *)
Class Backend (S : Type) := {
  b_read : S -> Z -> option (S * option bytes);
  b_write : S -> bytes -> option (S * bool)
}.

(** [update_cksum] is [NULL] or [rioGenericUpdateChecksum]. *)
Record rio (S : Type) := mkRio {
  io : S;
  update_cksum : bool;
  cksum : Z;
  processed_bytes : Z;
  max_processing_chunk : Z
}.
Arguments mkRio {S}.
Arguments io {S}.
Arguments update_cksum {S}.
Arguments cksum {S}.
Arguments processed_bytes {S}.
Arguments max_processing_chunk {S}.

Section Rio.
Context {S : Type} `{Backend S}.

Definition set_io (r : rio S) (s : S) : rio S :=
  mkRio s (update_cksum r) (cksum r) (processed_bytes r) (max_processing_chunk r).

Definition add_processed (r : rio S) (n : Z) : rio S :=
  mkRio (io r) (update_cksum r) (cksum r) (uint 64 (processed_bytes r + n)) (max_processing_chunk r).

Definition rioGenericUpdateChecksum (r : rio S) (buf : bytes) (len : Z) : option (rio S) :=
  c <- crc64 (cksum r) buf len;;
  Some (mkRio (io r) (update_cksum r) c (processed_bytes r) (max_processing_chunk r)).

(** [while (len) { ... }]; the fuel is the number of bytes left. *)
Fixpoint rioWrite_loop (fuel : nat) (r : rio S) (buf : bytes) (p len : Z) : option (rio S * bool) :=
  if len =? 0 then Some (r, true) else
  match fuel with
  | O => None
  | Datatypes.S fuel =>
    let bytes_to_write := if negb (max_processing_chunk r =? 0) && (max_processing_chunk r <? len)
                          then max_processing_chunk r else len in
    bs <- load buf p bytes_to_write;;
    r <- (if update_cksum r then rioGenericUpdateChecksum r bs bytes_to_write else Some r);;
    ' (s, ok) <- b_write (io r) bs;;
    let r := set_io r s in
    if negb ok then Some (r, false) else
    rioWrite_loop fuel (add_processed r bytes_to_write) buf (p + bytes_to_write) (len - bytes_to_write)
  end.

Definition rioWrite (r : rio S) (buf : bytes) (len : Z) : option (rio S * bool) :=
  rioWrite_loop (Z.to_nat len) r buf 0 len.

(** The bytes read are the result; the caller stores them. *)
Fixpoint rioRead_loop (fuel : nat) (r : rio S) (acc : bytes) (len : Z) : option (rio S * option bytes) :=
  if len =? 0 then Some (r, Some acc) else
  match fuel with
  | O => None
  | Datatypes.S fuel =>
    let bytes_to_read := if negb (max_processing_chunk r =? 0) && (max_processing_chunk r <? len)
                         then max_processing_chunk r else len in
    ' (s, bs) <- b_read (io r) bytes_to_read;;
    let r := set_io r s in
    match bs with
    | None => Some (r, None)
    | Some bs =>
      r <- (if update_cksum r then rioGenericUpdateChecksum r bs bytes_to_read else Some r);;
      rioRead_loop fuel (add_processed r bytes_to_read) (acc ++ bs) (len - bytes_to_read)
    end
  end.

Definition rioRead (r : rio S) (len : Z) : option (rio S * option bytes) := rioRead_loop (Z.to_nat len) r [] len.

(** * The protocol of the append only file

    The result is the number of bytes written, 0 on error. *)

Definition rioWriteBulkCount `{Host} (r : rio S) (prefix count : Z) : option (rio S * Z) :=
  ' (digits, n) <- ll2string (zmalloc 127) 127 (sint 32 count);;
  let cbuf := uint 8 prefix :: digits in
  let clen := 1 + n in
  cbuf <- store8 cbuf clen 13;;
  let clen := clen + 1 in
  cbuf <- store8 cbuf clen 10;;
  let clen := clen + 1 in
  ' (r, ok) <- rioWrite r cbuf clen;;
  Some (r, if ok : bool then clen else 0).

Definition rioWriteBulkString `{Host} (r : rio S) (buf : bytes) (len : Z) : option (rio S * Z) :=
  ' (r, nwritten) <- rioWriteBulkCount r 36 len;;
  if nwritten =? 0 then Some (r, 0) else
  ' (r, ok) <- (if 0 <? len then rioWrite r buf len else Some (r, true));;
  if negb ok then Some (r, 0) else
  ' (r, ok) <- rioWrite r [13; 10] 2;;
  if negb ok then Some (r, 0) else
  Some (r, uint 64 (nwritten + len + 2)).

Definition rioWriteBulkLongLong `{Host} (r : rio S) (l : Z) : option (rio S * Z) :=
  ' (lbuf, llen) <- ll2string (zmalloc 32) 32 l;;
  rioWriteBulkString r lbuf llen.

End Rio.

(** * Backends *)

(** The memory buffer: [io.buffer]. *)
Record rioBuffer := mkBuffer { ptr : sdshdr; pos : Z }.

Definition rioBufferWrite `{Host} (b : rioBuffer) (buf : bytes) : option (rioBuffer * bool) :=
  s <- sdscatlen (ptr b) buf (msize buf);;
  Some (mkBuffer s (pos b + msize buf), true).

(** The difference of the [size_t] length and the [off_t] position is unsigned. *)
Definition rioBufferRead (b : rioBuffer) (len : Z) : option (rioBuffer * option bytes) :=
  if uint 64 (sdslen (ptr b) - pos b) <? len then Some (b, None) else
  bs <- load (buf (ptr b)) (pos b) len;;
  Some (mkBuffer (ptr b) (pos b + len), Some bs).

Definition rioBufferTell (b : rioBuffer) : Z := pos b.

#[export] Instance buffer_backend `{Host} : Backend rioBuffer := {
  b_read := rioBufferRead;
  b_write := rioBufferWrite
}.

Definition rioInitWithBuffer (s : sdshdr) : rio rioBuffer := mkRio (mkBuffer s 0) false 0 0 0.

(** The standard library's files are a parameter: [fwrite(buf,len,1,fp)] and
    [fread(buf,len,1,fp)] transfer all the bytes or return 0; [fsync] is
    [fflush] and [aof_fsync]. *)
Class CFile (F : Type) := {
  fwrite : F -> bytes -> F * bool;
  fread : F -> Z -> F * option bytes;
  fsync : F -> F
}.

Record rioFile (F : Type) := mkFile { fp : F; buffered : Z; autosync : Z }.
Arguments mkFile {F}.
Arguments fp {F}.
Arguments buffered {F}.
Arguments autosync {F}.

Section File.
Context {F : Type} `{CFile F}.

Definition rioFileWrite (f : rioFile F) (buf : bytes) : option (rioFile F * bool) :=
  let '(p, retval) := fwrite (fp f) buf in
  let f := mkFile p (buffered f + msize buf) (autosync f) in
  if negb (autosync f =? 0) && (autosync f <=? buffered f)
  then Some (mkFile (fsync (fp f)) 0 (autosync f), retval)
  else Some (f, retval).

Definition rioFileRead (f : rioFile F) (len : Z) : option (rioFile F * option bytes) :=
  let '(p, r) := fread (fp f) len in
  Some (mkFile p (buffered f) (autosync f), r).

#[export] Instance file_backend : Backend (rioFile F) := {
  b_read := rioFileRead;
  b_write := rioFileWrite
}.

Definition rioInitWithFile (p : F) : rio (rioFile F) := mkRio (mkFile p 0 0) false 0 0 0.

Definition rioSetAutoSync (r : rio (rioFile F)) (n : Z) : rio (rioFile F) :=
  set_io r (mkFile (fp (io r)) (buffered (io r)) n).

End File.

(** * The contract of a backend

    [wr s w n]: [w] has been written and there is room for [n] bytes more;
    [rd s l]: the bytes [l] are left to read.  A [strict] backend also fails in a
    defined way where the room ends. *)

Class Lawful (S : Type) `{Backend S} := {
  wr : S -> bytes -> Z -> Prop;
  rd : S -> bytes -> Prop;
  strict : bool;
  wr_room s w n : wr s w n -> 0 <= n;
  write_ok s w n bs : wr s w n -> msize bs <= n ->
    exists s', b_write s bs = Some (s', true) /\ wr s' (w ++ bs) (n - msize bs);
  write_full s w n bs : strict = true -> wr s w n -> n < msize bs ->
    exists s', b_write s bs = Some (s', false);
  read_ok s bs l : rd s (bs ++ l) -> exists s', b_read s (msize bs) = Some (s', Some bs) /\ rd s' l;
  read_short s l n : rd s l -> msize l < n -> exists s', b_read s n = Some (s', None)
}.

#[export] Program Instance buffer_lawful `{Host} : Lawful rioBuffer := {
  wr b w n := sds_rep (ptr b) w /\ 0 <= n /\ msize w + n < 2 ^ 30;
  rd b l := exists pre, sds_rep (ptr b) (pre ++ l) /\ pos b = msize pre;
  strict := false
}.
Next Obligation. cbn. naive_solver. Qed.
Next Obligation.
  cbn. intros ? b w n bs (Hr & _ & Hn) Hs. unfold rioBufferWrite.
  destruct (sdscatlen_rep (ptr b) w bs [] Hr) as (s' & E & Hr'); [lia|]. rewrite app_nil_r in E. rewrite E. cbn [obind].
  eexists. split; [done|]. cbn [ptr]. split; [done|]. split; msolve.
Qed.
Next Obligation. done. Qed.
Next Obligation.
  cbn. intros ? b bs l (pre & (rest & Eb & El & Ef & Hb) & Hp). unfold rioBufferRead, sdslen. rewrite El, Hp.
  rewrite (uint_id 64 (msize _)) by msolve. rewrite uint_id by msolve.
  rewrite (proj2 (Z.ltb_ge _ _)) by msolve.
  rewrite (load_at pre bs (l ++ 0 :: rest)); [|by rewrite Eb; lsimpl|done..]. cbn [obind].
  eexists. split; [done|]. exists (pre ++ bs). cbn [ptr pos]. rewrite <- app_assoc. split; [by exists rest|msolve].
Qed.
Next Obligation.
  cbn. intros ? b l n (pre & (rest & Eb & El & Ef & Hb) & Hp) Hs. unfold rioBufferRead, sdslen. rewrite El, Hp.
  rewrite (uint_id 64 (msize _)) by msolve. rewrite uint_id by msolve.
  rewrite (proj2 (Z.ltb_lt _ _)) by msolve. by eexists.
Qed.

(** What is assumed of files: the documented behaviour of [fwrite] and [fread]
    on a device with room for so many bytes. *)
Class CFileLaws (F : Type) `{CFile F} := {
  f_wr : F -> bytes -> Z -> Prop;
  f_rd : F -> bytes -> Prop;
  f_room f w n : f_wr f w n -> 0 <= n;
  fwrite_ok f w n bs : f_wr f w n -> msize bs <= n -> exists f', fwrite f bs = (f', true) /\ f_wr f' (w ++ bs) (n - msize bs);
  fwrite_full f w n bs : f_wr f w n -> n < msize bs -> exists f', fwrite f bs = (f', false);
  fread_ok f bs l : f_rd f (bs ++ l) -> exists f', fread f (msize bs) = (f', Some bs) /\ f_rd f' l;
  fread_short f l n : f_rd f l -> msize l < n -> exists f', fread f n = (f', None);
  fsync_ok f w n : f_wr f w n -> f_wr (fsync f) w n
}.

#[export] Program Instance file_lawful {F} `{CFileLaws F} : Lawful (rioFile F) := {
  wr f w n := f_wr (fp f) w n;
  rd f l := f_rd (fp f) l;
  strict := true
}.
Next Obligation. cbn. intros F ? ? f w n. apply f_room. Qed.
Next Obligation.
  cbn. intros F ? ? f w n bs Hw Hs. unfold rioFileWrite. destruct (fwrite_ok (fp f) w n bs Hw Hs) as (p & -> & Hw').
  cbn [autosync buffered fp]. destruct (_ && _); eexists; (split; [done|]); cbn [fp]; [by apply fsync_ok|done].
Qed.
Next Obligation.
  cbn. intros F ? ? f w n bs _ Hw Hs. unfold rioFileWrite. destruct (fwrite_full (fp f) w n bs Hw Hs) as (p & ->).
  cbn [autosync buffered fp]. destruct (_ && _); by eexists.
Qed.
Next Obligation.
  cbn. intros F ? ? f bs l Hr. unfold rioFileRead. destruct (fread_ok (fp f) bs l Hr) as (p & -> & Hr'). by eexists.
Qed.
Next Obligation.
  cbn. intros F ? ? f l n Hr Hs. unfold rioFileRead. destruct (fread_short (fp f) l n Hr Hs) as (p & ->). by eexists.
Qed.

(** A file on a device of bounded size, for examples. *)
Record memfile := mkMem { data : bytes; at_ : Z; capacity : Z }.

#[export] Instance memfile_file : CFile memfile := {
  fwrite f bs := if msize (data f) + msize bs <=? capacity f
    then (mkMem (data f ++ bs) (at_ f + msize bs) (capacity f), true) else (f, false);
  fread f n := match load (data f) (at_ f) n with
    | Some bs => (mkMem (data f) (at_ f + n) (capacity f), Some bs)
    | None => (f, None)
    end;
  fsync f := f
}.

#[export] Program Instance memfile_laws : CFileLaws memfile := {
  f_wr f w n := data f = w /\ 0 <= n /\ capacity f = msize w + n;
  f_rd f l := exists pre, data f = pre ++ l /\ at_ f = msize pre
}.
Next Obligation. cbn. naive_solver. Qed.
Next Obligation.
  cbn. intros f w n bs (<- & Hn & Hc) Hs. rewrite (proj2 (Z.leb_le _ _)) by lia. eexists. split; [done|]. split; [done|].
  cbn. split; msolve.
Qed.
Next Obligation. cbn. intros f w n bs (<- & Hn & Hc) Hs. rewrite (proj2 (Z.leb_gt _ _)) by lia. by eexists. Qed.
Next Obligation.
  cbn. intros f bs l (pre & Ed & Ea). rewrite (load_at pre bs l) by done. eexists. split; [done|].
  exists (pre ++ bs). cbn [data at_]. rewrite Ed. by split; [lsimpl|msolve].
Qed.
Next Obligation.
  cbn. intros f l n (pre & Ed & Ea) Hs. unfold load. rewrite Ed, Ea, (proj2 (Z.leb_gt (msize pre + n) _)) by msolve.
  rewrite andb_false_r. by eexists.
Qed.
Next Obligation. done. Qed.
