(* ===== verification/RioSpec.v ===== *)
(** Streams over any lawful backend: what [rioWrite], [rioRead] and the writers
    of the append only file protocol do, chunk size, checksum and byte count
    included. *)

From S2P Require Import Prelude Endian Util Crc Robj Sds SdsRep Rio.

Lemma crc64_spec c bs : Forall is_byte bs -> crc64 c bs (msize bs) = Some (crc64_ref c bs).
Proof.
  intros Hb. unfold crc64, msize. rewrite Nat2Z.id. pose proof (crc64_loop_ref [] bs [] c Hb) as E.
  by rewrite app_nil_r in E.
Qed.

Lemma crc64_ref_app c a b : crc64_ref c (a ++ b) = crc64_ref (crc64_ref c a) b.
Proof. unfold crc64_ref. by rewrite foldl_app. Qed.

Section Streams.
Context {S : Type} `{Lawful S}.

Definition rio_ok (r : rio S) : Prop := 0 <= processed_bytes r < 2 ^ 64 /\ 0 <= max_processing_chunk r.

(** The stream after the bytes [bs] went through it. *)
Definition advance (r : rio S) (s : S) (bs : bytes) : rio S :=
  mkRio s (update_cksum r) (if update_cksum r then crc64_ref (cksum r) bs else cksum r)
    (uint 64 (processed_bytes r + msize bs)) (max_processing_chunk r).

Lemma advance_ok r s bs : rio_ok r -> rio_ok (advance r s bs).
Proof. intros [H1 H2]. split; [apply uint_range; lia|done]. Qed.

Lemma advance_nil r : rio_ok r -> advance r (io r) [] = r.
Proof.
  intros [H1 _]. destruct r as [s u c p m]. unfold advance. cbn [processed_bytes io update_cksum cksum max_processing_chunk] in *.
  rewrite msize_nil, Z.add_0_r, uint_id by done. by destruct u.
Qed.

Lemma advance_app r s s' a b : advance (advance r s a) s' b = advance r s' (a ++ b).
Proof.
  unfold advance. cbn [processed_bytes io update_cksum cksum max_processing_chunk].
  rewrite msize_app, crc64_ref_app. f_equal; [by destruct (update_cksum r)|].
  unfold uint. rewrite Zplus_mod_idemp_l. f_equal. lia.
Qed.

(** One step of a loop, on the chunk [bs]. *)
Lemma advance_chunk r bs : Forall is_byte bs ->
  exists r1, (if update_cksum r then rioGenericUpdateChecksum r bs (msize bs) else Some r) = Some r1 /\
    io r1 = io r /\ forall s, add_processed (set_io r1 s) (msize bs) = advance r s bs.
Proof.
  intros Hb. unfold rioGenericUpdateChecksum, advance. destruct (update_cksum r) eqn:Eu.
  - rewrite crc64_spec by done. cbn [obind]. eexists. split; [done|]. split; [done|]. intros s.
    unfold add_processed, set_io. cbn. by rewrite ?Eu.
  - eexists. split; [done|]. split; [done|]. intros s. unfold add_processed, set_io. cbn. by rewrite ?Eu.
Qed.

Lemma advance_read r s bs : Forall is_byte bs ->
  exists r1, (if update_cksum (set_io r s) then rioGenericUpdateChecksum (set_io r s) bs (msize bs) else Some (set_io r s)) = Some r1 /\
    add_processed r1 (msize bs) = advance r s bs.
Proof.
  intros Hb. unfold rioGenericUpdateChecksum, advance, set_io. cbn [update_cksum cksum]. rewrite crc64_spec by done.
  destruct (update_cksum r) eqn:Eu; by eexists.
Qed.

Lemma chunk_split (bs : bytes) m : 0 < msize bs -> 0 <= m ->
  exists c rest, bs = c ++ rest /\ msize c = (if negb (m =? 0) && (m <? msize bs) then m else msize bs) /\ 0 < msize c.
Proof.
  intros Hs Hm. destruct (split_at bs (if negb (m =? 0) && (m <? msize bs) then m else msize bs)) as (c & rest & E & Hc).
  - bcase; lia.
  - exists c, rest. split; [done|]. split; [done|]. rewrite Hc. bcase; lia.
Qed.

Lemma rioWrite_loop_spec fuel : forall r w n A bs C, rio_ok r -> wr (io r) w n -> Forall is_byte bs -> (length bs <= fuel)%nat ->
  (msize bs <= n -> exists s', rioWrite_loop fuel r (A ++ bs ++ C) (msize A) (msize bs) = Some (advance r s' bs, true) /\
    wr s' (w ++ bs) (n - msize bs)) /\
  (strict = true -> n < msize bs -> exists r', rioWrite_loop fuel r (A ++ bs ++ C) (msize A) (msize bs) = Some (r', false)).
Proof.
  induction fuel as [|fuel IH]; intros r w n A bs C Hr Hw Hb Hf; pose proof (wr_room _ _ _ Hw) as Hn;
    (destruct (decide (bs = [])) as [->|Hne];
     [rewrite msize_nil; split; [intros _; exists (io r); rewrite advance_nil, app_nil_r, Z.sub_0_r by done; done|lia]|]).
  { destruct bs; [done|]. cbn in Hf. lia. }
  assert (0 < msize bs) as Hpos by (destruct bs; [done|msolve]). cbn [rioWrite_loop].
  rewrite (proj2 (Z.eqb_neq _ _)) by lia.
  destruct (chunk_split bs (max_processing_chunk r) Hpos) as (c & rest & E & Hc & Hc0); [apply Hr|]. rewrite <- Hc.
  rewrite E in Hb; apply list.Forall_app in Hb as [Hb1 Hb2].
  rewrite (load_at A c (rest ++ C)) by (rewrite ?E; lsimpl; done). cbn [obind].
  destruct (advance_chunk r c Hb1) as (r1 & -> & Eio & Hadv). cbn [obind]. rewrite Eio.
  assert (msize bs = msize c + msize rest) as Hsz by (rewrite E; msolve).
  destruct (Z.le_gt_cases (msize c) n) as [Hle|Hgt].
  - destruct (write_ok (io r) w n c Hw Hle) as (s & -> & Hw1). cbn [obind negb]. rewrite Hadv, Hsz.
    replace (msize c + msize rest - msize c) with (msize rest) by lia.
    replace (msize A + msize c) with (msize (A ++ c)) by msolve.
    replace (A ++ bs ++ C) with ((A ++ c) ++ rest ++ C) by (rewrite E; by lsimpl).
    destruct (IH (advance r s c) (w ++ c) (n - msize c) (A ++ c) rest C) as [IH1 IH2];
      [by apply advance_ok|done|done|rewrite E, length_app in Hf; unfold msize in Hc0; lia|]. split.
    + intros Hn'. destruct IH1 as (s' & -> & Hw2); [lia|]. exists s'. rewrite advance_app, <- E. split; [done|].
      rewrite <- app_assoc, <- E in Hw2. by replace (n - (msize c + msize rest)) with (n - msize c - msize rest) by lia.
    + intros Hst Hn'. apply IH2; [done|lia].
  - split; [intros; pose proof (msize_nonneg rest); lia|]. intros Hst _.
    destruct (write_full (io r) w n c Hst Hw Hgt) as (s & ->). cbn [obind negb]. by eexists.
Qed.

(** [rioWrite] of the first bytes of a block. *)
Lemma rioWrite_spec r w n bs C : rio_ok r -> wr (io r) w n -> Forall is_byte bs ->
  (msize bs <= n -> exists s', rioWrite r (bs ++ C) (msize bs) = Some (advance r s' bs, true) /\ wr s' (w ++ bs) (n - msize bs)) /\
  (strict = true -> n < msize bs -> exists r', rioWrite r (bs ++ C) (msize bs) = Some (r', false)).
Proof.
  intros Hr Hw Hb. unfold rioWrite. apply (rioWrite_loop_spec (Z.to_nat (msize bs)) r w n [] bs C Hr Hw Hb).
  unfold msize. lia.
Qed.

Lemma rioRead_loop_spec fuel : forall r acc bs l, rio_ok r -> rd (io r) (bs ++ l) -> Forall is_byte bs -> (length bs <= fuel)%nat ->
  exists s', rioRead_loop fuel r acc (msize bs) = Some (advance r s' bs, Some (acc ++ bs)) /\ rd s' l.
Proof.
  induction fuel as [|fuel IH]; intros r acc bs l Hr Hd Hb Hf;
    (destruct (decide (bs = [])) as [->|Hne];
     [exists (io r); rewrite msize_nil, advance_nil, app_nil_r by done; done|]).
  { destruct bs; [done|]. cbn in Hf. lia. }
  assert (0 < msize bs) as Hpos by (destruct bs; [done|msolve]). cbn [rioRead_loop].
  rewrite (proj2 (Z.eqb_neq _ _)) by lia.
  destruct (chunk_split bs (max_processing_chunk r) Hpos) as (c & rest & E & Hc & Hc0); [apply Hr|]. rewrite <- Hc.
  assert (msize bs = msize c + msize rest) as Hsz by (rewrite E; msolve).
  rewrite E in Hb; apply list.Forall_app in Hb as [Hb1 Hb2]. rewrite E, <- app_assoc in Hd.
  destruct (read_ok (io r) c (rest ++ l) Hd) as (s & -> & Hd1). cbn [obind].
  destruct (advance_read r s c Hb1) as (r1 & -> & Hadv). cbn [obind]. rewrite Hadv.
  replace (msize bs - msize c) with (msize rest) by lia.
  destruct (IH (advance r s c) (acc ++ c) rest l) as (s' & -> & Hd2);
    [by apply advance_ok|done|done|rewrite E, length_app in Hf; unfold msize in Hc0; lia|].
  exists s'. rewrite advance_app, <- E. split; [|done]. by rewrite <- app_assoc, <- E.
Qed.

Lemma rioRead_spec r bs l : rio_ok r -> rd (io r) (bs ++ l) -> Forall is_byte bs ->
  exists s', rioRead r (msize bs) = Some (advance r s' bs, Some bs) /\ rd s' l.
Proof. intros. unfold rioRead. apply rioRead_loop_spec; [done..|]. unfold msize. lia. Qed.

(** A read past the end fails, whatever the chunk size. *)
Lemma rioRead_loop_short fuel : forall r acc l n, rio_ok r -> rd (io r) l -> Forall is_byte l -> msize l < n ->
  n <= Z.of_nat fuel -> exists r', rioRead_loop fuel r acc n = Some (r', None).
Proof.
  induction fuel as [|fuel IH]; intros r acc l n Hr Hd Hb Hn Hf; pose proof (msize_nonneg l); [lia|].
  cbn [rioRead_loop]. rewrite (proj2 (Z.eqb_neq _ _)) by lia.
  set (k := if negb (max_processing_chunk r =? 0) && (max_processing_chunk r <? n) then max_processing_chunk r else n).
  assert (0 < k <= n) as Hk. { unfold k. destruct Hr. bcase; lia. }
  destruct (Z.lt_ge_cases (msize l) k) as [Hs|Hs].
  - destruct (read_short (io r) l k Hd Hs) as (s & ->). cbn [obind]. by eexists.
  - destruct (split_at l k) as (c & rest & -> & Hc); [lia|]. apply list.Forall_app in Hb as [Hb1 Hb2].
    rewrite <- Hc. destruct (read_ok (io r) c rest Hd) as (s & -> & Hd1). cbn [obind].
    destruct (advance_read r s c Hb1) as (r1 & -> & Hadv). cbn [obind]. rewrite Hadv.
    apply (IH (advance r s c) (acc ++ c) rest); [by apply advance_ok|done|done|msolve|lia].
Qed.

Lemma rioRead_short r l n : rio_ok r -> rd (io r) l -> Forall is_byte l -> msize l < n ->
  exists r', rioRead r n = Some (r', None).
Proof.
  intros Hr Hd Hb Hn. pose proof (msize_nonneg l). apply (rioRead_loop_short _ r [] l); [done..|lia].
Qed.

(** [f] writes [enc] and returns the number of bytes; where the room ends, it
    returns [err]. *)
Definition emits (err : Z) (f : rio S -> option (rio S * Z)) (enc : bytes) : Prop :=
  forall r w n, rio_ok r -> wr (io r) w n ->
    (msize enc <= n -> exists s', f r = Some (advance r s' enc, msize enc) /\ wr s' (w ++ enc) (n - msize enc)) /\
    (strict = true -> n < msize enc -> exists r', f r = Some (r', err)).

End Streams.

Lemma decimal_bytes ds v : decimal ds v -> Forall is_byte ds.
Proof.
  assert (E : forall l, digits l -> Forall is_byte l) by (intros l Hl; eapply list.Forall_impl; [exact Hl|]; unfold is_byte; cbn; lia).
  intros [[[Hd _] _]|(d & -> & [Hd _] & _)]; [by apply E|]. constructor; [unfold is_byte; lia|by apply E].
Qed.

Section Bulk.
Context {S : Type} {BK : Backend S} {LW : @Lawful S BK} {HOST : Host}.

(** "<prefix><count>\r\n" *)
Definition count_bytes (prefix : Z) (ds : bytes) : bytes := prefix :: ds ++ [13; 10].

Lemma rioWriteBulkCount_spec prefix count : is_byte prefix -> in_sint 32 count ->
  exists ds, decimal ds count /\ msize ds <= 20 /\ emits 0 (fun r => rioWriteBulkCount r prefix count) (count_bytes prefix ds).
Proof.
  intros Hp Hc. unfold in_sint in Hc. unfold rioWriteBulkCount. rewrite sint_id by (unfold in_sint; lia).
  destruct (ll2string_spec (zmalloc 127) 127 count) as (ds & rest & E & Hd & Hl & Hsz);
    [unfold LLONG_MIN, LLONG_MAX; lia|unfold zmalloc; rewrite msize_fresh; lia|].
  exists ds. split; [done|]. split; [lia|]. unfold zmalloc in Hsz. rewrite msize_fresh in Hsz by lia.
  rewrite (uint_id 8) by (unfold is_byte in Hp; lia).
  intros r w n Hr Hw. rewrite E. cbn [obind]. destruct rest as [|x rest]; [rewrite msize_nil in Hsz; lia|].
  rewrite (store8_at (prefix :: ds) 0 (x :: rest)) by (done || msolve). cbn [obind].
  rewrite (store8_at (prefix :: ds ++ [13]) x rest) by (done || (lsimpl; done) || msolve). cbn [obind].
  change (uint 8 13) with 13. change (uint 8 10) with 10.
  assert (Forall is_byte (count_bytes prefix ds)) as Hb.
  { constructor; [done|]. apply list.Forall_app. split; [by eapply decimal_bytes|]. by repeat constructor. }
  replace ((prefix :: ds ++ [13]) ++ 10 :: rest) with (count_bytes prefix ds ++ rest) by (unfold count_bytes; by lsimpl).
  assert (1 + msize ds + 1 + 1 = msize (count_bytes prefix ds)) as -> by (unfold count_bytes; msolve).
  destruct (rioWrite_spec r w n (count_bytes prefix ds) rest Hr Hw Hb) as [H1 H2]. split.
  - intros Hn. destruct (H1 Hn) as (s' & -> & Hw'). cbn [obind]. by exists s'.
  - intros Hst Hn. destruct (H2 Hst Hn) as (r' & ->). cbn [obind]. by exists r'.
Qed.

(** "$<count>\r\n<payload>\r\n" *)
Definition bulk_bytes (ds bs : bytes) : bytes := count_bytes 36 ds ++ bs ++ [13; 10].

Lemma rioWriteBulkString_spec bs C : Forall is_byte bs -> msize bs < 2 ^ 31 ->
  exists ds, decimal ds (msize bs) /\ msize ds <= 20 /\ emits 0 (fun r => rioWriteBulkString r (bs ++ C) (msize bs)) (bulk_bytes ds bs).
Proof.
  intros Hb Hs. pose proof (msize_nonneg bs) as H0.
  destruct (rioWriteBulkCount_spec 36 (msize bs)) as (ds & Hd & Hl & Hem); [done|unfold in_sint; lia|].
  exists ds. split; [done|]. split; [done|]. intros r w n Hr Hw. unfold rioWriteBulkString, bulk_bytes.
  assert (0 < msize (count_bytes 36 ds) < 2 ^ 31) as Hcb by (unfold count_bytes; msolve). rewrite !msize_app.
  change (msize [13; 10]) with 2. destruct (Hem r w n Hr Hw) as [H1 H2].
  destruct (Z.lt_ge_cases n (msize (count_bytes 36 ds))) as [Hn|Hn].
  { split; [lia|]. intros Hst _. destruct (H2 Hst Hn) as (r' & ->). cbn [obind]. by exists r'. }
  destruct (H1 Hn) as (s1 & -> & Hw1). cbn [obind]. rewrite (proj2 (Z.eqb_neq _ _)) by lia.
  pose proof (advance_ok r s1 (count_bytes 36 ds) Hr) as Hr1.
  destruct (rioWrite_spec (advance r s1 (count_bytes 36 ds)) _ _ bs C Hr1 Hw1 Hb) as [H3 H4].
  assert (Hmid : forall r0, (if 0 <? msize bs then rioWrite r0 (bs ++ C) (msize bs) else Some (r0, true)) = rioWrite r0 (bs ++ C) (msize bs)).
  { intros r0. destruct (Z.ltb_spec 0 (msize bs)); [done|]. replace (msize bs) with 0 by lia. done. }
  rewrite Hmid. destruct (Z.lt_ge_cases (n - msize (count_bytes 36 ds)) (msize bs)) as [Hn2|Hn2].
  { split; [lia|]. intros Hst _. destruct (H4 Hst Hn2) as (r' & ->). cbn [obind negb]. by exists r'. }
  destruct (H3 Hn2) as (s2 & -> & Hw2). cbn [obind negb]. rewrite advance_app.
  pose proof (advance_ok r s2 (count_bytes 36 ds ++ bs) Hr) as Hr2.
  destruct (rioWrite_spec (advance r s2 (count_bytes 36 ds ++ bs)) _ _ [13; 10] [] Hr2 Hw2) as [H5 H6]; [by repeat constructor|].
  change (msize [13; 10]) with 2 in H5, H6. rewrite app_nil_r in H5, H6. split.
  - intros Hn3. destruct H5 as (s3 & -> & Hw3); [lia|]. cbn [obind negb]. exists s3. rewrite advance_app.
    rewrite uint_id by lia. rewrite <- !app_assoc in *. rewrite Z.add_assoc. split; [done|].
    by replace (n - (msize (count_bytes 36 ds) + msize bs + 2)) with (n - msize (count_bytes 36 ds) - msize bs - 2) by lia.
  - intros Hst Hn3. destruct H6 as (r' & ->); [done|lia|]. cbn [obind negb]. by exists r'.
Qed.

Lemma rioWriteBulkLongLong_spec v : LLONG_MIN < v <= LLONG_MAX ->
  exists ds bs, decimal bs v /\ decimal ds (msize bs) /\ emits 0 (fun r => rioWriteBulkLongLong r v) (bulk_bytes ds bs).
Proof.
  intros Hv. unfold rioWriteBulkLongLong.
  destruct (ll2string_spec (zmalloc 32) 32 v) as (bs & rest & -> & Hd & Hl & Hsz); [done|unfold zmalloc; rewrite msize_fresh; lia|].
  cbn [obind]. destruct (rioWriteBulkString_spec bs (0 :: rest)) as (ds & Hds & _ & Hem); [by eapply decimal_bytes|lia|].
  by exists ds, bs.
Qed.

End Bulk.
