(* ===== verification/Rdb.v ===== *)
(** The dump format: the scalar values of rdb.c (types, times, lengths,
    integers, strings), on any stream.

    A save function takes the stream or [NULL] ([None]), in which case it only
    computes the length, and returns the number of bytes or -1.  A load function
    returns [None] inside of the result where the code returns [NULL].  A failed
    assertion or a panic ends the process, it is [None] outside, like undefined
    behaviour. *)

From Stdlib Require Import SpecFloat.
From S2P Require Import Prelude Endian Util Crc Robj Sds SdsRep SdsArgs Lzf Rio.

Definition REDIS_RDB_6BITLEN := 0.
Definition REDIS_RDB_14BITLEN := 1.
Definition REDIS_RDB_32BITLEN := 2.
Definition REDIS_RDB_ENCVAL := 3.
Definition REDIS_RDB_LENERR := 2 ^ 32 - 1.   (* UINT_MAX *)
Definition REDIS_RDB_ENC_INT8 := 0.
Definition REDIS_RDB_ENC_INT16 := 1.
Definition REDIS_RDB_ENC_INT32 := 2.
Definition REDIS_RDB_ENC_LZF := 3.
Definition REDIS_SHARED_INTEGERS := 10000.

(** * Standard library *)

Fixpoint skip_spaces (fuel : nat) (s : bytes) (p : Z) : option Z :=
  match fuel with
  | O => None
  | S fuel => c <- load8 s p;; if isspace c then skip_spaces fuel s (p + 1) else Some p
  end.

(** [strtoll(s,&endptr,10)]: the value, clamped, and the offset of [endptr]. *)
Definition strtoll_raw (s : bytes) : option (Z * Z) :=
  p <- skip_spaces (S (length s)) s 0;;
  c <- load8 s p;;
  let q := if (c =? 45) || (c =? 43) then p + 1 else p in
  e <- skip_digits (S (length s)) s q;;
  if e =? q then Some (0, 0) else
  ds <- load s q (e - q);;
  Some (if c =? 45 then - dec_value 0 ds else dec_value 0 ds, e).

Definition strtoll (s : bytes) : option (Z * Z) :=
  ' (v, e) <- strtoll_raw s;; Some (Z.max LLONG_MIN (Z.min LLONG_MAX v), e).

Section Htonl.
Context `{Host}.
Definition htonl (v : Z) : Z := if big_endian then v else intrev32 v.
Definition ntohl (v : Z) : Z := if big_endian then v else intrev32 v.
End Htonl.

(** * Objects *)

(** [createObject(REDIS_STRING,s)] *)
Definition obj_of_sds (s : sdshdr) : option robj :=
  bs <- load (buf s) 0 (sdslen s);; Some (ObjSds bs).

(** A shared integer object has the same contents as a new one. *)
Definition createStringObjectFromLongLong `{Host} (value : Z) : option robj :=
  if (0 <=? value) && (value <? REDIS_SHARED_INTEGERS) then Some (ObjInt value)
  else if (LLONG_MIN <=? value) && (value <=? LLONG_MAX) then Some (ObjInt value)
  else s <- sdsfromlonglong value;; obj_of_sds s.

(** Encodes [value] when it fits 8, 16 or 32 bits: the bytes stored in [enc]; no
    bytes where the result is 0. *)
Definition rdbEncodeInteger (value : Z) : bytes :=
  if (- Z.shiftl 1 7 <=? value) && (value <=? Z.shiftl 1 7 - 1) then
    [Z.lor (Z.shiftl REDIS_RDB_ENCVAL 6) REDIS_RDB_ENC_INT8; Z.land value 255]
  else if (- Z.shiftl 1 15 <=? value) && (value <=? Z.shiftl 1 15 - 1) then
    [Z.lor (Z.shiftl REDIS_RDB_ENCVAL 6) REDIS_RDB_ENC_INT16; Z.land value 255; Z.land (Z.shiftr value 8) 255]
  else if (- Z.shiftl 1 31 <=? value) && (value <=? Z.shiftl 1 31 - 1) then
    [Z.lor (Z.shiftl REDIS_RDB_ENCVAL 6) REDIS_RDB_ENC_INT32; Z.land value 255; Z.land (Z.shiftr value 8) 255;
     Z.land (Z.shiftr value 16) 255; Z.land (Z.shiftr value 24) 255]
  else [].

Definition rdbTryIntegerEncoding `{Host} (s : bytes) (len : Z) : option bytes :=
  ' (value, endptr) <- strtoll s;;
  c <- load8 s endptr;;
  if negb (c =? 0) then Some [] else
  ' (buf, _) <- ll2string (zmalloc 32) 32 value;;
  n <- strlen buf;;
  if negb (n =? len) then Some [] else
  d <- memcmp buf s (Z.to_nat len);;
  if negb (d =? 0) then Some [] else
  Some (rdbEncodeInteger value).

Section Rdb.
Context {S : Type} `{Backend S} `{Host}.

Definition saver := option (rio S) -> option (option (rio S) * Z).

(** [if ((n = f(rdb)) == -1) return -1; nwritten += n; if ((n = g(rdb)) == -1) ...] *)
Definition and_then (f g : saver) : saver := fun rdb =>
  ' (rdb, n) <- f rdb;;
  if n =? -1 then Some (rdb, -1) else
  ' (rdb, m) <- g rdb;;
  if m =? -1 then Some (rdb, -1) else
  k <- int_arith (n + m);;
  Some (rdb, k).

(** * Raw bytes, types and times *)

Definition rdbWriteRaw (p : bytes) (len : Z) : saver := fun rdb =>
  match rdb with
  | Some r =>
    ' (r, ok) <- rioWrite r p len;;
    if negb ok then Some (Some r, -1) else Some (Some r, sint 32 len)
  | None => Some (None, sint 32 len)
  end.

Definition rdbSaveType (type : Z) : saver := rdbWriteRaw [uint 8 type] 1.

Definition rdbLoadType (r : rio S) : option (rio S * Z) :=
  ' (r, bs) <- rioRead r 1;;
  match bs with
  | None => Some (r, -1)
  | Some bs => type <- load8 bs 0;; Some (r, type)
  end.

Definition rdbLoadTime (r : rio S) : option (rio S * Z) :=
  ' (r, bs) <- rioRead r 4;;
  match bs with
  | None => Some (r, -1)
  | Some bs => Some (r, sint 32 (host_decode bs))
  end.

Definition rdbSaveMillisecondTime (t : Z) : saver := rdbWriteRaw (host_encode 8 (uint 64 t)) 8.

Definition rdbLoadMillisecondTime (r : rio S) : option (rio S * Z) :=
  ' (r, bs) <- rioRead r 8;;
  match bs with
  | None => Some (r, -1)
  | Some bs => Some (r, sint 64 (host_decode bs))
  end.

(** * Lengths *)

Definition rdbSaveLen (len : Z) : saver := fun rdb =>
  let len := uint 32 len in
  if len <? Z.shiftl 1 6 then
    let buf := [Z.lor (Z.land len 255) (Z.shiftl REDIS_RDB_6BITLEN 6)] in
    ' (rdb, n) <- rdbWriteRaw buf 1 rdb;;
    if n =? -1 then Some (rdb, -1) else Some (rdb, 1)
  else if len <? Z.shiftl 1 14 then
    let buf := [Z.lor (Z.land (Z.shiftr len 8) 255) (Z.shiftl REDIS_RDB_14BITLEN 6); Z.land len 255] in
    ' (rdb, n) <- rdbWriteRaw buf 2 rdb;;
    if n =? -1 then Some (rdb, -1) else Some (rdb, 2)
  else
    let buf := [Z.shiftl REDIS_RDB_32BITLEN 6] in
    ' (rdb, n) <- rdbWriteRaw buf 1 rdb;;
    if n =? -1 then Some (rdb, -1) else
    let len := htonl len in
    ' (rdb, n) <- rdbWriteRaw (host_encode 4 len) 4 rdb;;
    if n =? -1 then Some (rdb, -1) else Some (rdb, 1 + 4).

(** The length and [*isencoded]. *)
Definition rdbLoadLen (r : rio S) : option (rio S * (Z * bool)) :=
  ' (r, buf) <- rioRead r 1;;
  match buf with
  | None => Some (r, (REDIS_RDB_LENERR, false))
  | Some buf =>
    b0 <- load8 buf 0;;
    let type := Z.shiftr (Z.land b0 192) 6 in
    if type =? REDIS_RDB_ENCVAL then Some (r, (Z.land b0 63, true))
    else if type =? REDIS_RDB_6BITLEN then Some (r, (Z.land b0 63, false))
    else if type =? REDIS_RDB_14BITLEN then
      ' (r, buf1) <- rioRead r 1;;
      match buf1 with
      | None => Some (r, (REDIS_RDB_LENERR, false))
      | Some buf1 => b1 <- load8 buf1 0;; Some (r, (Z.lor (Z.shiftl (Z.land b0 63) 8) b1, false))
      end
    else
      ' (r, len) <- rioRead r 4;;
      match len with
      | None => Some (r, (REDIS_RDB_LENERR, false))
      | Some len => Some (r, (ntohl (host_decode len), false))
      end
  end.

(** * Integers *)

Definition rdbLoadIntegerObject (r : rio S) (enctype : Z) (encode : bool) : option (rio S * option robj) :=
  ' (r, val) <-
    (if enctype =? REDIS_RDB_ENC_INT8 then
       ' (r, enc) <- rioRead r 1;;
       match enc with
       | None => Some (r, None)
       | Some enc => e0 <- load8 enc 0;; Some (r, Some (sint 8 e0))
       end
     else if enctype =? REDIS_RDB_ENC_INT16 then
       ' (r, enc) <- rioRead r 2;;
       match enc with
       | None => Some (r, None)
       | Some enc =>
         e0 <- load8 enc 0;; e1 <- load8 enc 1;;
         let v := uint 16 (Z.lor e0 (Z.shiftl e1 8)) in
         Some (r, Some (sint 16 v))
       end
     else if enctype =? REDIS_RDB_ENC_INT32 then
       ' (r, enc) <- rioRead r 4;;
       match enc with
       | None => Some (r, None)
       | Some enc =>
         e0 <- load8 enc 0;; e1 <- load8 enc 1;; e2 <- load8 enc 2;; e3 <- load8 enc 3;;
         let v := uint 32 (Z.lor (Z.lor (Z.lor e0 (Z.shiftl e1 8)) (Z.shiftl e2 16)) (Z.shiftl e3 24)) in
         Some (r, Some (sint 32 v))
       end
     else None (* redisPanic *));;
  match val with
  | None => Some (r, None)
  | Some val =>
    if encode then o <- createStringObjectFromLongLong val;; Some (r, Some o)
    else s <- sdsfromlonglong val;; o <- obj_of_sds s;; Some (r, Some o)
  end.

Definition rdbSaveLongLongAsStringObject (value : Z) : saver := fun rdb =>
  let buf := rdbEncodeInteger value in
  if 0 <? msize buf then rdbWriteRaw buf (msize buf) rdb
  else
    ' (buf, enclen) <- ll2string (zmalloc 32) 32 value;;
    if negb (enclen <? 32) then None else
    and_then (rdbSaveLen enclen) (rdbWriteRaw buf enclen) rdb.

(** * Strings *)

(** What the stack leaves in the hash table of the compressor, and the
    configuration directive [rdbcompression]. *)
Variable htab : Z -> Z.
Variable rdb_compression : bool.

Definition rdbSaveLzfStringObject (s : bytes) (len : Z) : saver := fun rdb =>
  if len <=? 4 then Some (rdb, 0) else
  let outlen := len - 4 in
  let out := zmalloc (outlen + 1) in
  inp <- load s 0 len;;
  ' (comprlen, out) <- lzf_compress inp (uint 32 len) out (uint 32 outlen) htab;;
  if comprlen =? 0 then Some (rdb, 0) else
  let byte := Z.lor (Z.shiftl REDIS_RDB_ENCVAL 6) REDIS_RDB_ENC_LZF in
  and_then (and_then (and_then (rdbWriteRaw [byte] 1) (rdbSaveLen comprlen)) (rdbSaveLen len))
    (rdbWriteRaw out comprlen) rdb.

Definition rdbLoadLzfStringObject (r : rio S) : option (rio S * option robj) :=
  ' (r, (clen, _)) <- rdbLoadLen r;;
  if clen =? REDIS_RDB_LENERR then Some (r, None) else
  ' (r, (len, _)) <- rdbLoadLen r;;
  if len =? REDIS_RDB_LENERR then Some (r, None) else
  val <- sdsnewlen None len;;
  ' (r, c) <- rioRead r clen;;
  match c with
  | None => Some (r, None)
  | Some c =>
    d <- lzf_decompress c clen (buf val) len;;
    match d with
    | inl _ => Some (r, None)
    | inr (n, out) =>
      if n =? 0 then Some (r, None) else
      o <- obj_of_sds (set_buf val out);; Some (r, Some o)
    end
  end.

Definition rdbSaveRawString (s : bytes) (len : Z) : saver := fun rdb =>
  enc <- (if len <=? 11 then rdbTryIntegerEncoding s len else Some []);;
  let enclen := msize enc in
  if 0 <? enclen then
    ' (rdb, n) <- rdbWriteRaw enc enclen rdb;;
    if n =? -1 then Some (rdb, -1) else Some (rdb, enclen)
  else
  ' (rdb, n) <- (if rdb_compression && (len >? 20) then rdbSaveLzfStringObject s len rdb else Some (rdb, 0));;
  if n =? -1 then Some (rdb, -1) else
  if 0 <? n then Some (rdb, n) else
  ' (rdb, nwritten) <- rdbSaveLen len rdb;;
  if nwritten =? -1 then Some (rdb, -1) else
  if 0 <? len then
    ' (rdb, n) <- rdbWriteRaw s len rdb;;
    if n =? -1 then Some (rdb, -1) else Some (rdb, sint 32 (nwritten + len))
  else Some (rdb, nwritten).

(** An sds string is followed by its terminator. *)
Definition rdbSaveStringObject (o : robj) : saver :=
  match o with
  | ObjInt v => rdbSaveLongLongAsStringObject v
  | ObjSds s => rdbSaveRawString (s ++ [0]) (msize s)
  end.

Definition rdbGenericLoadStringObject (encode : bool) (r : rio S) : option (rio S * option robj) :=
  ' (r, (len, isencoded)) <- rdbLoadLen r;;
  if isencoded : bool then
    if (len =? REDIS_RDB_ENC_INT8) || (len =? REDIS_RDB_ENC_INT16) || (len =? REDIS_RDB_ENC_INT32)
    then rdbLoadIntegerObject r len encode
    else if len =? REDIS_RDB_ENC_LZF then rdbLoadLzfStringObject r
    else None (* redisPanic *)
  else
  if len =? REDIS_RDB_LENERR then Some (r, None) else
  val <- sdsnewlen None len;;
  if len =? 0 then o <- obj_of_sds val;; Some (r, Some o) else
  ' (r, bs) <- rioRead r len;;
  match bs with
  | None => Some (r, None)
  | Some bs => b <- store (buf val) 0 bs;; o <- obj_of_sds (set_buf val b);; Some (r, Some o)
  end.

Definition rdbLoadStringObject : rio S -> option (rio S * option robj) := rdbGenericLoadStringObject false.

Definition rdbLoadEncodedStringObject : rio S -> option (rio S * option robj) := rdbGenericLoadStringObject true.

End Rdb.

(** * Doubles

    Doubles are IEEE 754 binary64 values. The conversions of the standard library are
    parameters: [snprintf("%.17g")], and [sscanf("%lg")] of a C string, which may
    assign nothing. *)

Definition isfinite (x : double) : bool :=
  match x with S754_zero _ | S754_finite _ _ _ => true | _ => false end.

(** [(double)v] *)
Definition double_of_ll (v : Z) : double := binary_normalize 53 1024 v 0 false.

(** [(long long)x] of a number in the range of the type. *)
Definition ll_of_double (x : double) : Z :=
  match x with
  | S754_finite s m e =>
    let v := if 0 <=? e then Zpos m * 2 ^ e else Zpos m / 2 ^ (- e) in
    if s then - v else v
  | _ => 0
  end.

Section Double.
Context {S : Type} `{Backend S} `{Host}.
Variable snprintf_17g : double -> bytes.
Variable sscanf_lg : bytes -> option double.

Definition rdbSaveDoubleValue (val : double) : saver := fun rdb =>
  ' (buf, len) <-
    (if isnan val then Some ([253], 1)
     else if negb (isfinite val) then Some ([if SFltb val (double_of_ll 0) then 255 else 254], 1)
     else
       let min := double_of_ll (-4503599627370495) in
       let max := double_of_ll 4503599627370496 in
       text <- (if SFltb min val && SFltb val max && SFeqb val (double_of_ll (ll_of_double val))
                then ' (b, _) <- ll2string (zmalloc 127) 128 (ll_of_double val);; Some b
                else vsnprintf (zmalloc 127) 127 (snprintf_17g val));;
       n <- strlen text;;
       let b0 := uint 8 n in
       Some (b0 :: text, b0 + 1));;
  rdbWriteRaw buf len rdb.

(** [None] inside of the result where the code returns -1; an unassigned [*val] is
    undefined. *)
Definition rdbLoadDoubleValue (r : rio S) : option (rio S * option double) :=
  let buf := zmalloc 128 in
  ' (r, l) <- rioRead r 1;;
  match l with
  | None => Some (r, None)
  | Some l =>
    len <- load8 l 0;;
    if len =? 255 then Some (r, Some (S754_infinity true))
    else if len =? 254 then Some (r, Some (S754_infinity false))
    else if len =? 253 then Some (r, Some S754_nan)
    else
      ' (r, bs) <- rioRead r len;;
      match bs with
      | None => Some (r, None)
      | Some bs =>
        buf <- store buf 0 bs;;
        buf <- store8 buf len 0;;
        n <- strlen buf;;
        text <- load buf 0 n;;
        val <- sscanf_lg text;;
        Some (r, Some val)
      end
  end.

End Double.
