(* ===== verification/RdbScalar.v ===== *)
(** The dump format: contracts of the save and load functions on any lawful
    stream, and the scalar values (types, times, lengths). *)

From S2P Require Import Prelude Endian Util Crc Robj Sds SdsRep Lzf LzfSpec Rio RioSpec Rdb.

(** * Contracts of save and load functions *)

Section Contracts.
Context {S : Type} {BK : Backend S} {LW : @Lawful S BK}.

(** [f] writes [enc], or computes its size. *)
Definition saves (f : saver) (enc : bytes) : Prop :=
  f None = Some (None, msize enc) /\
  forall r w n, rio_ok r -> wr (io r) w n ->
    (msize enc <= n -> exists s', f (Some r) = Some (Some (advance r s' enc), msize enc) /\ wr s' (w ++ enc) (n - msize enc)) /\
    (strict = true -> n < msize enc -> exists r', f (Some r) = Some (Some r', -1)).

(** [f] reads [enc] and returns [v]; on a proper prefix of [enc] it returns [err]. *)
Definition parses {A} (f : rio S -> option (rio S * A)) (enc : bytes) (v err : A) : Prop :=
  (forall r l, rio_ok r -> rd (io r) (enc ++ l) -> exists s', f r = Some (advance r s' enc, v) /\ rd s' l) /\
  (forall r l l', rio_ok r -> rd (io r) l -> l ++ l' = enc -> l' <> [] -> exists r', f r = Some (r', err)).

Lemma saves_raw bs C : Forall is_byte bs -> msize bs < 2 ^ 31 -> saves (rdbWriteRaw (bs ++ C) (msize bs)) bs.
Proof.
  intros Hb Hs. assert (sint 32 (msize bs) = msize bs) as E by (apply sint32_id; msolve). split.
  - unfold rdbWriteRaw. by rewrite E.
  - intros r w n Hr Hw. destruct (rioWrite_spec r w n bs C Hr Hw Hb) as [H1 H2]. unfold rdbWriteRaw. split.
    + intros Hn. destruct (H1 Hn) as (s' & -> & Hw'). cbn [obind negb]. rewrite E. eauto.
    + intros Hst Hn. destruct (H2 Hst Hn) as (r' & ->). cbn [obind negb]. eauto.
Qed.

Lemma saves_raw' bs k : k = msize bs -> Forall is_byte bs -> msize bs < 2 ^ 31 -> saves (rdbWriteRaw bs k) bs.
Proof. intros -> Hb Hs. rewrite <- (app_nil_r bs) at 1. by apply saves_raw. Qed.

(** Two writes, and a result computed from the two numbers of bytes. *)
Lemma saves_seq (f g : saver) (k : Z -> Z -> option Z) a b : saves f a -> saves g b ->
  k (msize a) (msize b) = Some (msize a + msize b) ->
  saves (fun rdb =>
    ' (rdb, n) <- f rdb;;
    if n =? -1 then Some (rdb, -1) else
    ' (rdb, m) <- g rdb;;
    if m =? -1 then Some (rdb, -1) else
    z <- k n m;;
    Some (rdb, z)) (a ++ b).
Proof.
  intros [F1 F2] [G1 G2] Hk. pose proof (msize_nonneg a); pose proof (msize_nonneg b). split.
  - rewrite F1. cbn [obind]. bdecide. rewrite G1. cbn [obind]. bdecide. rewrite Hk. by rewrite msize_app.
  - intros r w n Hr Hw. destruct (F2 r w n Hr Hw) as [F3 F4]. rewrite msize_app.
    destruct (Z.lt_ge_cases n (msize a)) as [Hn|Hn].
    + split; [lia|]. intros Hst _. destruct (F4 Hst Hn) as (r' & ->). cbn [obind]. eauto.
    + destruct (F3 Hn) as (s1 & -> & Hw1). cbn [obind]. bdecide.
      destruct (G2 _ _ _ (advance_ok r s1 a Hr) Hw1) as [G3 G4]. split.
      * intros Hn'. destruct G3 as (s2 & -> & Hw2); [lia|]. cbn [obind]. bdecide. rewrite Hk. cbn [obind].
        exists s2. rewrite advance_app, app_assoc. split; [done|].
        by replace (n - (msize a + msize b)) with (n - msize a - msize b) by lia.
      * intros Hst Hn'. destruct G4 as (r' & ->); [done|lia|]. cbn [obind]. eauto.
Qed.

Lemma saves_then f g a b : saves f a -> saves g b -> msize a + msize b < 2 ^ 31 -> saves (and_then f g) (a ++ b).
Proof.
  intros Hf Hg Hs. apply (saves_seq f g (fun n m => int_arith (n + m))); [done|done|]. apply int_arith_Some. msolve.
Qed.

Lemma saves_ext (f g : saver) enc : (forall rdb, f rdb = g rdb) -> saves g enc -> saves f enc.
Proof. intros E [G1 G2]. split; [by rewrite E|]. intros r w n. rewrite E. apply G2. Qed.

(** Nothing to write. *)
Lemma saves_nil : saves (fun rdb => Some (rdb, 0)) [].
Proof.
  split; [done|]. intros r w n Hr Hw. pose proof (wr_room _ _ _ Hw). rewrite msize_nil. split; [|lia].
  intros _. exists (io r). rewrite advance_nil, app_nil_r, Z.sub_0_r by done. done.
Qed.

(** A result that is known from the number of bytes. *)
Lemma saves_const f enc k : saves f enc -> k = msize enc ->
  saves (fun rdb => ' (rdb, n) <- f rdb;; if n =? -1 then Some (rdb, -1) else Some (rdb, k)) enc.
Proof.
  intros [F1 F2] ->. pose proof (msize_nonneg enc). split; [rewrite F1; cbn [obind]; by bdecide|].
  intros r w n Hr Hw. destruct (F2 r w n Hr Hw) as [F3 F4]. split.
  - intros Hn. destruct (F3 Hn) as (s' & -> & Hw'). cbn [obind]. bdecide. eauto.
  - intros Hst Hn. destruct (F4 Hst Hn) as (r' & ->). cbn [obind]. eauto.
Qed.

(** A function that is enough if it writes anything. *)
Lemma saves_first (f : saver) (rest : option (rio S) -> Z -> option (option (rio S) * Z)) enc : saves f enc -> enc <> [] ->
  saves (fun rdb => ' (rdb, n) <- f rdb;; if n =? -1 then Some (rdb, -1) else if 0 <? n then Some (rdb, n) else rest rdb n) enc.
Proof.
  intros [F1 F2] Hne. assert (0 < msize enc) by (destruct enc; [done|msolve]). split; [rewrite F1; cbn [obind]; by bdecide|].
  intros r w n Hr Hw. destruct (F2 r w n Hr Hw) as [F3 F4]. split.
  - intros Hn. destruct (F3 Hn) as (s' & -> & Hw'). cbn [obind]. bdecide. eauto.
  - intros Hst Hn. destruct (F4 Hst Hn) as (r' & ->). cbn [obind]. eauto.
Qed.

(** ** Reading *)

(** The bytes of a fixed size field. *)
Lemma parses_raw enc n : n = msize enc -> Forall is_byte enc -> parses (fun r => rioRead r n) enc (Some enc) None.
Proof.
  intros -> Hb. split.
  - intros r l Hr Hd. by apply rioRead_spec.
  - intros r l l' Hr Hd E Hl. apply (rioRead_short r l); [done|done|..].
    + rewrite <- E in Hb. by apply list.Forall_app in Hb as [? _].
    + rewrite <- E, msize_app. destruct l'; [done|]. rewrite msize_cons. pose proof (msize_nonneg l'). lia.
Qed.

(** Sequencing: [f] and then, unless it failed, [g]. *)
Lemma parses_bind {A B} (f : rio S -> option (rio S * A)) (g : A -> rio S -> option (rio S * B)) a b v w errA errB :
  parses f a v errA -> parses (g v) b w errB -> (forall r, g errA r = Some (r, errB)) ->
  parses (fun r => ' (r, x) <- f r;; g x r) (a ++ b) w errB.
Proof.
  intros [F1 F2] [G1 G2] He. split.
  - intros r l Hr Hd. rewrite <- app_assoc in Hd. destruct (F1 r _ Hr Hd) as (s1 & -> & Hd1). cbn [obind].
    destruct (G1 _ _ (advance_ok r s1 a Hr) Hd1) as (s2 & -> & Hd2). rewrite advance_app. eauto.
  - intros r l l' Hr Hd E Hl. destruct (Z.lt_ge_cases (msize l) (msize a)) as [Hlt|Hge].
    + destruct (app_split_lt l l' a b E Hlt) as (c & Ec & Hc). destruct (F2 r l c Hr Hd Ec Hc) as (r' & ->).
      cbn [obind]. eauto.
    + destruct (app_split_ge l l' a b E Hge) as (c & -> & Ec). destruct (F1 r c Hr Hd) as (s1 & -> & Hd1). cbn [obind].
      by apply (G2 _ c l' (advance_ok r s1 a Hr) Hd1).
Qed.

Lemma parses_ret {A} (v err : A) : parses (fun r => Some (r, v)) [] v err.
Proof.
  split.
  - intros r l Hr Hd. exists (io r). by rewrite advance_nil.
  - intros r l l' _ _ E Hl. by destruct l, l'.
Qed.

Lemma parses_ext {A} (f g : rio S -> option (rio S * A)) enc v err : (forall r, f r = g r) -> parses g enc v err -> parses f enc v err.
Proof. intros E [G1 G2]. split; intros r; rewrite E; [apply G1|apply G2]. Qed.

End Contracts.

(** * Types, times and lengths *)

Definition len_bytes (l : Z) : bytes :=
  if l <? 64 then [l] else if l <? 16384 then [64 + l / 256; l mod 256] else 128 :: reverse (le_encode 4 l).

Lemma len_bytes_bytes l : 0 <= l -> Forall is_byte (len_bytes l).
Proof.
  intros Hl. unfold len_bytes, is_byte. bcase.
  - by repeat constructor; lia.
  - assert (l / 256 < 64) by (apply Z.div_lt_upper_bound; lia). pose proof (Z.div_pos l 256).
    pose proof (Z.mod_pos_bound l 256). repeat constructor; lia.
  - constructor; [lia|]. apply Forall_reverse, le_encode_bytes.
Qed.

Lemma len_bytes_size l : 1 <= msize (len_bytes l) <= 5.
Proof. unfold len_bytes. bcase; [done..|]. rewrite msize_cons, msize_reverse, msize_le_encode. lia. Qed.

(** The first byte of a length: the two type bits and the six others. *)
Lemma type_bits k b : 0 <= b < 64 -> 0 <= k < 4 ->
  Z.shiftr (Z.land (64 * k + b) 192) 6 = k /\ Z.land (64 * k + b) 63 = b.
Proof.
  intros Hb Hk.
  assert (E : forall x, 0 <= x < 256 ->
    ((Z.shiftr (Z.land x 192) 6 =? x / 64) && (Z.land x 63 =? x mod 64)) = true) by (apply byte_check; by vm_compute).
  specialize (E (64 * k + b)). apply andb_true_iff in E as [E1 E2]; [|lia]. apply Z.eqb_eq in E1, E2. rewrite E1, E2.
  replace (64 * k + b) with (b + k * 64) by lia.
  rewrite Z_div_plus_full, Z_mod_plus_full, Z.div_small, Z.mod_small by lia. lia.
Qed.

Lemma host_htonl `{Host} v : host_encode 4 (htonl v) = reverse (le_encode 4 v).
Proof.
  unfold htonl. destruct big_endian eqn:E; [by unfold host_encode; rewrite E|].
  rewrite host_encode_intrev32. unfold host_encode. by rewrite E.
Qed.

Lemma ntohl_htonl `{Host} v : 0 <= v < 2 ^ 32 -> ntohl (host_decode (reverse (le_encode 4 v))) = v.
Proof.
  intros Hv. unfold ntohl, host_decode. destruct big_endian eqn:E.
  - by rewrite reverse_involutive, le_decode_encode, uint_id.
  - pose proof (host_encode_intrev32 v) as R. pose proof (intrev32_range v) as Rr.
    unfold host_encode in R. rewrite E in R. rewrite <- R, le_decode_encode, uint_id by done.
    pose proof (host_encode_intrev32 (intrev32 v)) as R2. unfold host_encode in R2. rewrite E, R, reverse_involutive in R2.
    apply (le_encode_inj 4); [apply uint_id, intrev32_range|by apply uint_id|done].
Qed.

Section Scalars.
Context {S : Type} {BK : Backend S} {LW : @Lawful S BK} {HOST : Host}.

Lemma rdbSaveType_spec t : is_byte t -> saves (rdbSaveType t) [t].
Proof.
  intros Ht. unfold rdbSaveType. rewrite uint_id by (unfold is_byte in Ht; lia). apply saves_raw'; [done|by apply Forall_singleton|done].
Qed.

(** A load function that reads one field. *)
Lemma parses_field {A} enc n (k : bytes -> option A) v (err : A) : n = msize enc -> Forall is_byte enc -> k enc = Some v ->
  parses (fun r => ' (r, bs) <- rioRead r n;;
            match bs with None => Some (r, err) | Some bs => x <- k bs;; Some (r, x) end) enc v err.
Proof.
  intros Hn Hb Hk. rewrite <- (app_nil_r enc) at 1.
  apply (parses_bind _ (fun bs r => match bs with None => Some (r, err) | Some bs => x <- k bs;; Some (r, x) end) enc [] (Some enc) v None);
    [by apply parses_raw| |done].
  rewrite Hk. apply parses_ret.
Qed.

(** A field read and decoded by [k], as the load functions write it. *)
Lemma parses_val {A} enc n (f : rio S -> option (rio S * option A)) (k : bytes -> option A) v :
  n = msize enc -> Forall is_byte enc -> k enc = Some v ->
  (forall r, f r = ' (r, bs) <- rioRead r n;; match bs with None => Some (r, None) | Some bs => x <- k bs;; Some (r, Some x) end) ->
  parses f enc (Some v) None.
Proof.
  intros Hn Hb Hk Hf.
  apply (parses_ext _ (fun r => ' (r, bs) <- rioRead r n;; match bs with None => Some (r, None) | Some bs => x <- (y <- k bs;; Some (Some y));; Some (r, x) end)).
  - intros r. rewrite Hf. destruct (rioRead r n) as [[r1 [bs|]]|]; [|done|done]. cbn [obind]. by destruct (k bs).
  - apply (parses_field enc n (fun bs => y <- k bs;; Some (Some y))); [done|done|by rewrite Hk].
Qed.

Lemma rdbLoadType_spec t : is_byte t -> parses rdbLoadType [t] t (-1).
Proof.
  intros Ht. apply (parses_field [t] 1 (fun bs => load8 bs 0)); [done|by apply Forall_singleton|done].
Qed.

Lemma rdbSaveMillisecondTime_spec t : saves (rdbSaveMillisecondTime t) (host_encode 8 (uint 64 t)).
Proof. apply saves_raw'; [by rewrite msize_host_encode|apply host_encode_bytes|by rewrite msize_host_encode]. Qed.

Lemma rdbLoadMillisecondTime_spec t : in_sint 64 t ->
  parses rdbLoadMillisecondTime (host_encode 8 (uint 64 t)) t (-1).
Proof.
  intros Ht. apply (parses_field (host_encode 8 (uint 64 t)) 8 (fun bs => Some (sint 64 (host_decode bs))));
    [by rewrite msize_host_encode|apply host_encode_bytes|].
  rewrite host_decode_encode. cbn [Z.of_nat Z.mul Pos.mul Pos.of_succ_nat]. f_equal.
  rewrite sint_uint, sint_uint, sint_id by lia || done. done.
Qed.

Lemma rdbLoadTime_spec t : in_sint 32 t -> parses rdbLoadTime (host_encode 4 (uint 32 t)) t (-1).
Proof.
  intros Ht. apply (parses_field (host_encode 4 (uint 32 t)) 4 (fun bs => Some (sint 32 (host_decode bs))));
    [by rewrite msize_host_encode|apply host_encode_bytes|].
  rewrite host_decode_encode. f_equal. rewrite sint_uint, sint_uint, sint_id by lia || done. done.
Qed.

Lemma rdbSaveLen_spec l : 0 <= l < 2 ^ 32 -> saves (rdbSaveLen l) (len_bytes l).
Proof.
  intros Hl. pose proof (len_bytes_bytes l ltac:(lia)) as Hb. unfold rdbSaveLen. rewrite uint_id by done.
  change (Z.shiftl 1 6) with 64. change (Z.shiftl 1 14) with 16384. unfold len_bytes in *.
  assert (Hland : forall x, 0 <= x < 256 -> Z.land x 255 = x).
  { intros x Hx. change 255 with (Z.ones 8). rewrite Z.land_ones by lia. by apply Z.mod_small. }
  destruct (Z.ltb_spec l 64) as [H1|H1]; [|destruct (Z.ltb_spec l 16384) as [H2|H2]].
  - change (Z.shiftl REDIS_RDB_6BITLEN 6) with 0. rewrite Z.lor_0_r, Hland by lia.
    apply saves_const; [|done]. by apply saves_raw'.
  - assert (l / 256 < 64) by (apply Z.div_lt_upper_bound; lia). pose proof (Z.div_pos l 256).
    rewrite Z.shiftr_div_pow2 by lia. change (2 ^ 8) with 256. rewrite (Hland (l / 256)) by lia.
    change (Z.shiftl REDIS_RDB_14BITLEN 6) with (Z.shiftl 1 6). rewrite Z.lor_comm, lor_shiftl_add by lia.
    change (1 * 2 ^ 6) with 64. change 255 with (Z.ones 8). rewrite Z.land_ones by lia. change (2 ^ 8) with 256.
    apply saves_const; [|done]. by apply saves_raw'.
  - change (Z.shiftl REDIS_RDB_32BITLEN 6) with 128. rewrite host_htonl. cbn [Z.add Pos.add Pos.succ].
    apply list.Forall_cons in Hb as [_ Hb].
    assert (msize (reverse (le_encode 4 l)) = 4) as E4 by (by rewrite msize_reverse, msize_le_encode).
    pose proof (saves_raw' [128] 1 eq_refl ltac:(by repeat constructor) ltac:(done)) as F.
    pose proof (saves_raw' (reverse (le_encode 4 l)) 4 ltac:(done) Hb ltac:(lia)) as G.
    pose proof (saves_const _ _ 5 (saves_then _ _ [128] (reverse (le_encode 4 l)) F G ltac:(rewrite E4; done))) as FG.
    eapply saves_ext; [|apply FG; rewrite msize_app, E4; done].
    intros rdb. unfold and_then. change (msize [128]) with 1.
    assert (Hn : forall p k x n rdb, 0 <= k < 10 -> rdbWriteRaw p k rdb = Some (x, n) -> n = -1 \/ n = k).
    { clear. intros p k x n rdb Hk. unfold rdbWriteRaw. rewrite sint32_id by lia. destruct rdb as [r|]; [|intros [= <- <-]; auto].
      destruct (rioWrite r p k) as [[r' ok]|]; [|done]. cbn [obind]. destruct ok; intros [= <- <-]; auto. }
    destruct (rdbWriteRaw [128] 1 rdb) as [[x n]|] eqn:E1; [|done]. cbn [obind].
    destruct (Hn [128] 1 x n rdb ltac:(lia) E1) as [->| ->]; [done|]. cbn [Z.eqb].
    destruct (rdbWriteRaw (reverse (le_encode 4 l)) 4 x) as [[y m]|] eqn:E2; [|done]. cbn [obind].
    destruct (Hn _ 4 y m x ltac:(lia) E2) as [->| ->]; done.
Qed.

(** [rdbLoadLen] behind the first byte. *)
Definition load_len_tail (b0 : Z) (r : rio S) : option (rio S * (Z * bool)) :=
  let type := Z.shiftr (Z.land b0 192) 6 in
  if type =? REDIS_RDB_ENCVAL then Some (r, (Z.land b0 63, true))
  else if type =? REDIS_RDB_6BITLEN then Some (r, (Z.land b0 63, false))
  else if type =? REDIS_RDB_14BITLEN then
    ' (r, buf1) <- rioRead r 1;;
    match buf1 with
    | None => Some (r, (REDIS_RDB_LENERR, false))
    | Some buf1 => x <- (b1 <- load8 buf1 0;; Some (Z.lor (Z.shiftl (Z.land b0 63) 8) b1, false));; Some (r, x)
    end
  else
    ' (r, len) <- rioRead r 4;;
    match len with
    | None => Some (r, (REDIS_RDB_LENERR, false))
    | Some len => x <- Some (ntohl (host_decode len), false);; Some (r, x)
    end.

Lemma rdbLoadLen_first b0 enc v : is_byte b0 -> parses (load_len_tail b0) enc v (REDIS_RDB_LENERR, false) ->
  parses rdbLoadLen (b0 :: enc) v (REDIS_RDB_LENERR, false).
Proof.
  intros Hb Ht. change (b0 :: enc) with ([b0] ++ enc).
  set (g := fun (buf : option bytes) (r : rio S) => match buf with
    | None => Some (r, (REDIS_RDB_LENERR, false))
    | Some buf => b0 <- load8 buf 0;; load_len_tail b0 r
    end).
  apply (parses_ext _ (fun r => ' (r, x) <- rioRead r 1;; g x r)).
  - intros r. unfold rdbLoadLen, g, load_len_tail. destruct (rioRead r 1) as [[r1 [buf|]]|]; [|done|done]. cbn [obind].
    destruct (load8 buf 0) as [c|]; [|done]. cbn [obind]. cbv zeta.
    do 3 (match goal with |- context [if ?b then _ else _] => destruct b end; [try done|]); cbn [obind];
      destruct (rioRead r1 _) as [[r2 [bs|]]|]; try done; cbn [obind]; by destruct (load8 bs 0).
  - apply (parses_bind _ g [b0] enc (Some [b0]) v None); [apply parses_raw; [done|by apply Forall_singleton]|exact Ht|done].
Qed.

Lemma rdbLoadLen_enc e : 0 <= e < 64 -> parses rdbLoadLen [192 + e] (e, true) (REDIS_RDB_LENERR, false).
Proof.
  intros He. apply rdbLoadLen_first; [unfold is_byte; lia|]. destruct (type_bits 3 e He ltac:(lia)) as [E1 E2].
  change (64 * 3) with 192 in *. eapply parses_ext; [|apply parses_ret]. intros r. unfold load_len_tail. by rewrite E1, E2.
Qed.

Lemma rdbLoadLen_spec l : 0 <= l < 2 ^ 32 ->
  parses rdbLoadLen (len_bytes l) (l, false) (REDIS_RDB_LENERR, false).
Proof.
  intros Hl. unfold len_bytes. destruct (Z.ltb_spec l 64) as [H1|H1]; [|destruct (Z.ltb_spec l 16384) as [H2|H2]].
  - apply rdbLoadLen_first; [unfold is_byte; lia|]. destruct (type_bits 0 l ltac:(lia) ltac:(lia)) as [E1 E2].
    change (64 * 0 + l) with l in *. eapply parses_ext; [|apply parses_ret]. intros r. unfold load_len_tail. by rewrite E1, E2.
  - assert (l / 256 < 64) by (apply Z.div_lt_upper_bound; lia). pose proof (Z.div_pos l 256).
    pose proof (Z.mod_pos_bound l 256). apply rdbLoadLen_first; [unfold is_byte; lia|].
    destruct (type_bits 1 (l / 256) ltac:(lia) ltac:(lia)) as [E1 E2]. change (64 * 1) with 64 in *.
    eapply parses_ext; [intros r; unfold load_len_tail; rewrite E1, E2; reflexivity|].
    apply (parses_field [l mod 256] 1 (fun b => b1 <- load8 b 0;; Some (Z.lor (Z.shiftl (l / 256) 8) b1, false)));
      [done|apply Forall_singleton; unfold is_byte; lia|]. 
    change (Some (Z.lor (Z.shiftl (l / 256) 8) (l mod 256), false) = Some (l, false)).
    rewrite lor_shiftl_add by lia. change (2 ^ 8) with 256. pose proof (Z.div_mod l 256). do 2 f_equal. lia.
  - apply rdbLoadLen_first; [unfold is_byte; lia|].
    change (load_len_tail 128) with (fun r : rio S => ' (r, len) <- rioRead r 4;;
      match len with
      | None => Some (r, (REDIS_RDB_LENERR, false))
      | Some len => x <- Some (ntohl (host_decode len), false);; Some (r, x)
      end).
    apply (parses_field (reverse (le_encode 4 l)) 4 (fun len => Some (ntohl (host_decode len), false)));
      [by rewrite msize_reverse, msize_le_encode|apply Forall_reverse, le_encode_bytes|]. by rewrite ntohl_htonl.
Qed.

End Scalars.
