(* ===== verification/RdbSpec.v ===== *)
(** The dump format: string objects saved and loaded again. *)

From S2P Require Import Prelude Endian Util Crc Robj Sds SdsRep SdsArgs Lzf LzfSpec Rio RioSpec Rdb RdbScalar.

(** * Integers *)

Lemma rdbEncodeInteger_spec v :
  (rdbEncodeInteger v = [] /\ ~ in_sint 32 v) \/
  exists k n, (k = 0 /\ n = 1%nat \/ k = 1 /\ n = 2%nat \/ k = 2 /\ n = 4%nat) /\ in_sint (8 * Z.of_nat n) v /\
    rdbEncodeInteger v = (192 + k) :: le_encode n v.
Proof.
  assert (Hland : forall x, Z.land x 255 = x mod 256) by (intros x; change 255 with (Z.ones 8); by rewrite Z.land_ones by lia).
  unfold rdbEncodeInteger. change (Z.shiftl 1 7) with (2 ^ 7). change (Z.shiftl 1 15) with (2 ^ 15). change (Z.shiftl 1 31) with (2 ^ 31).
  unfold in_sint. destruct (_ && _) eqn:E1; [|destruct (_ && _) eqn:E2 in |- *; [|destruct (_ && _) eqn:E3 in |- *]].
  - right. exists 0, 1%nat. split; [auto|]. bprop. split; [cbn; lia|]. cbn [le_encode]. by rewrite Hland.
  - right. exists 1, 2%nat. split; [auto|]. bprop. split; [cbn; lia|]. cbn [le_encode].
    rewrite !Hland, !Z.shiftr_div_pow2 by lia. done.
  - right. exists 2, 4%nat. split; [auto|]. bprop. split; [cbn; lia|]. cbn [le_encode].
    rewrite !Hland, !Z.shiftr_div_pow2, !Z.div_div by lia. done.
  - left. split; [done|]. intros Hv. apply andb_false_iff in E3. rewrite !Z.leb_gt in E3. cbn in Hv. lia.
Qed.

Lemma rdbEncodeInteger_bytes v : Forall is_byte (rdbEncodeInteger v) /\ msize (rdbEncodeInteger v) <= 5.
Proof.
  destruct (rdbEncodeInteger_spec v) as [[-> _]|(k & n & Hk & _ & ->)]; [by split; [constructor|]|].
  rewrite msize_cons, msize_le_encode. split; [|lia]. constructor; [unfold is_byte; lia|apply le_encode_bytes].
Qed.

Section Objects.
Context {HOST : Host}.

Lemma obj_of_sds_rep s bs : sds_rep s bs -> obj_of_sds s = Some (ObjSds bs).
Proof.
  intros (rest & Eb & El & Ef & Hb). unfold obj_of_sds, sdslen. rewrite El, uint_id, Eb by msolve.
  by rewrite (load_at [] bs (0 :: rest)).
Qed.

Lemma obj_val_sds s : obj_val (ObjSds s) = s.
Proof. unfold obj_val, obj_string, msize. by rewrite Nat2Z.id, firstn_all. Qed.

Lemma obj_val_int v : LLONG_MIN < v <= LLONG_MAX -> decimal (obj_val (ObjInt v)) v.
Proof.
  intros Hv. unfold obj_val, obj_string.
  destruct (ll2string_spec (zmalloc 128) 128 v Hv) as (ds & rest & -> & Hd & _); [unfold zmalloc; rewrite msize_fresh; lia|].
  unfold msize. by rewrite Nat2Z.id, take_app_length.
Qed.

(** An object that stands for the number [v]. *)
Lemma sds_of_int v : LLONG_MIN < v <= LLONG_MAX ->
  exists s, sdsfromlonglong v = Some s /\ obj_of_sds s = Some (ObjSds (obj_val (ObjInt v))).
Proof.
  intros Hv. destruct (sdsfromlonglong_rep v Hv) as (s & ds & E & Hr & Hd). exists s. split; [done|].
  rewrite (obj_of_sds_rep s ds Hr). do 2 f_equal. eapply decimal_inj; [done|]. by apply obj_val_int.
Qed.

(** What a load function makes of the string or number of an object. *)
Definition loaded (encode : bool) (o : robj) : robj :=
  match o with
  | ObjSds s => ObjSds s
  | ObjInt v => if encode then ObjInt v else ObjSds (obj_val (ObjInt v))
  end.

Lemma loaded_val encode o : obj_val (loaded encode o) = obj_val o.
Proof. destruct o as [s|v]; [done|]. destruct encode; [done|]. apply obj_val_sds. Qed.

(** ** The integer encoding of a string *)

Lemma skip_spaces_total fuel A s R : Forall is_byte s -> (length s < fuel)%nat ->
  exists B C, s = B ++ C /\ skip_spaces fuel (A ++ s ++ 0 :: R) (msize A) = Some (msize (A ++ B)).
Proof.
  intros Hs. revert A fuel. induction Hs as [|c s Hc Hs IH]; intros A [|fuel] Hf; cbn [length] in Hf; try lia;
    cbn [skip_spaces].
  - exists [], []. split; [done|]. rewrite (load8_at A 0 R) by done. cbn. by rewrite app_nil_r.
  - rewrite (load8_at A c (s ++ 0 :: R)) by done. cbn [obind]. destruct (isspace c).
    + destruct (IH (A ++ [c]) fuel) as (B & C & E & Hk); [lia|]. exists (c :: B), C. split; [by rewrite E|].
      replace (A ++ (c :: s) ++ 0 :: R) with ((A ++ [c]) ++ s ++ 0 :: R) by (by lsimpl).
      replace (msize A + 1) with (msize (A ++ [c])) by msolve. rewrite Hk. f_equal. msolve.
    + exists [], (c :: s). split; [done|]. by rewrite app_nil_r.
Qed.

(** [strtoll] of a string of at most 11 characters. *)
Lemma strtoll_total s : Forall is_byte s -> msize s <= 11 ->
  exists v e, strtoll (s ++ [0]) = Some (v, e) /\ 0 <= e <= msize s /\ LLONG_MIN < v <= LLONG_MAX.
Proof.
  intros Hs Hl. unfold strtoll, strtoll_raw.
  destruct (skip_spaces_total (Datatypes.S (length (s ++ [0]))) [] s [] Hs) as (B & C & -> & E);
    [rewrite length_app; cbn; lia|]. cbn [app] in E. change (msize (A := Z) []) with 0 in E. rewrite E. clear E. cbn [obind].
  assert (exists c R, C ++ [0] = c :: R) as (c & R & Ec) by (destruct C; cbn; eauto).
  rewrite <- app_assoc, Ec. rewrite (load8_at B c R) by done. cbn [obind].
  assert (exists S D T d, B ++ c :: R = S ++ D ++ d :: T /\ digits D /\ is_digit d = false /\
    (if (c =? 45) || (c =? 43) then msize B + 1 else msize B) = msize S /\ msize S + msize D <= msize (B ++ C))
    as (S & D & T & d & Eq & HD & Hd & Hq & Hsz).
  { destruct (_ || _) eqn:Es.
    - assert (exists C', C = c :: C' /\ R = C' ++ [0]) as (C' & -> & ->).
      { destruct C as [|x C']; [|by exists C'; simplify_eq/=]. cbn in Ec. injection Ec as <- <-. by cbn in Es. }
      destruct (digits_split C') as (D & T & -> & HD & HT). exists (B ++ [c]), D, (match T with [] => [] | _ :: T => T ++ [0] end),
        (match T with [] => 0 | d :: _ => d end).
      destruct T as [|d T]; (split; [by lsimpl|]); (split; [done|]); (split; [done|]); split; msolve.
    - destruct (digits_split C) as (D & T & EC & HD & HT). exists B, D, (match T with [] => [] | _ :: T => T ++ [0] end),
        (match T with [] => 0 | d :: _ => d end). rewrite <- Ec, EC.
      destruct T as [|d T]; (split; [by lsimpl|]); (split; [done|]); (split; [done|]); split; msolve. }
  rewrite Hq, Eq. rewrite skip_digits_spec; [|done|done|rewrite !length_app; unfold msize; cbn; lia]. cbn [obind].
  unfold LLONG_MIN, LLONG_MAX. destruct (Z.eqb_spec (msize S + msize D) (msize S)).
  { exists 0, 0. pose proof (msize_nonneg (B ++ C)). split; [done|]. lia. }
  rewrite (load_at S D (d :: T)) by (done || lia). cbn [obind]. do 2 eexists. split; [done|]. split; [msolve|].
  pose proof (dec_value_range D HD) as Hv.
  assert (10 ^ msize D <= 10 ^ 11) by (apply Z.pow_le_mono_r; msolve). change (10 ^ 11) with 100000000000 in *.
  destruct (c =? 45); lia.
Qed.

Lemma rdbTryIntegerEncoding_spec s : Forall is_byte s -> msize s <= 11 ->
  exists enc, rdbTryIntegerEncoding (s ++ [0]) (msize s) = Some enc /\
    (enc = [] \/ exists v, enc = rdbEncodeInteger v /\ decimal s v).
Proof.
  intros Hs Hl. unfold rdbTryIntegerEncoding. destruct (strtoll_total s Hs Hl) as (v & e & -> & He & Hv). cbn [obind].
  destruct (load8_in (s ++ [0]) e) as (c & -> & _); [msolve|]. cbn [obind].
  destruct (negb (c =? 0)); [eauto|].
  destruct (ll2string_spec (zmalloc 32) 32 v Hv) as (ds & rest & -> & Hd & Hsz & _); [unfold zmalloc; rewrite msize_fresh; lia|].
  cbn [obind]. rewrite strlen_spec.
  2: { destruct Hd as [[[Hd _] _]|(d & -> & [Hd _] & _)]; unfold cstring.
       - eapply list.Forall_impl; [exact Hd|]. cbn. lia.
       - constructor; [lia|]. eapply list.Forall_impl; [exact Hd|]. cbn. lia. }
  cbn [obind]. destruct (Z.eqb_spec (msize ds) (msize s)) as [El|El]; cbn [negb]; [|eauto].
  assert (length ds = length s) as El' by (unfold msize in El; lia).
  destruct (memcmp_lex ds s (0 :: rest) [0]) as (d & Em & Hlex). rewrite El', Nat.min_id in Em.
  replace (Z.to_nat (msize s)) with (length s) by (unfold msize; lia). rewrite Em. cbn [obind].
  destruct (Z.eqb_spec d 0) as [->|Hd0]; cbn [negb]; [|eauto]. eexists. split; [done|]. right. exists v. split; [done|].
  cbn [Z.eqb] in Hlex. rewrite El, Z.compare_refl in Hlex. by rewrite <- (proj1 (lex_eq ds s)).
Qed.

End Objects.

(** * Loading strings *)

Section Load.
Context {S : Type} {BK : Backend S} {LW : @Lawful S BK} {HOST : Host}.

Lemma lor_byte_add a x k : 0 <= k -> 0 <= a < 2 ^ k -> Z.lor a (Z.shiftl x k) = a + x * 2 ^ k.
Proof. intros. rewrite Z.lor_comm, lor_shiftl_add by done. lia. Qed.

Ltac field_eq :=
  let r := fresh "r" in intros r; cbv [REDIS_RDB_ENC_INT8 REDIS_RDB_ENC_INT16 REDIS_RDB_ENC_INT32 Z.eqb Pos.eqb]; destruct (rioRead r _) as [[? [bs|]]|]; [|done|done]; cbn [obind];
  repeat (match goal with |- context [load8 bs ?i] => destruct (load8 bs i); [cbn [obind]|done] end); done.

(** The value of an integer field. *)
Lemma load_integer_field k n v (Hkn : k = 0 /\ n = 1%nat \/ k = 1 /\ n = 2%nat \/ k = 2 /\ n = 4%nat) : in_sint (8 * Z.of_nat n) v ->
  parses (fun r : rio S =>
    if k =? REDIS_RDB_ENC_INT8 then
       ' (r, enc) <- rioRead r 1;;
       match enc with
       | None => Some (r, None)
       | Some enc => e0 <- load8 enc 0;; Some (r, Some (sint 8 e0))
       end
     else if k =? REDIS_RDB_ENC_INT16 then
       ' (r, enc) <- rioRead r 2;;
       match enc with
       | None => Some (r, None)
       | Some enc =>
         e0 <- load8 enc 0;; e1 <- load8 enc 1;;
         let v := uint 16 (Z.lor e0 (Z.shiftl e1 8)) in
         Some (r, Some (sint 16 v))
       end
     else if k =? REDIS_RDB_ENC_INT32 then
       ' (r, enc) <- rioRead r 4;;
       match enc with
       | None => Some (r, None)
       | Some enc =>
         e0 <- load8 enc 0;; e1 <- load8 enc 1;; e2 <- load8 enc 2;; e3 <- load8 enc 3;;
         let v := uint 32 (Z.lor (Z.lor (Z.lor e0 (Z.shiftl e1 8)) (Z.shiftl e2 16)) (Z.shiftl e3 24)) in
         Some (r, Some (sint 32 v))
       end
     else None) (le_encode n v) (Some v) None.
Proof.
  intros Hv. pose proof (le_decode_encode n v) as Hd. pose proof (le_encode_bytes n v) as Hb.
  assert (Hm : forall x, 0 <= x mod 256 < 2 ^ 8) by (intros x; apply Z.mod_pos_bound; lia).
  assert (Hr : forall w, 0 < w -> w = 8 * Z.of_nat n -> sint w (uint w (le_decode (le_encode n v))) = v).
  { intros w Hw ->. rewrite sint_uint, Hd, sint_uint, sint_id by done. done. }
  destruct Hkn as [[-> ->]|[[-> ->]|[-> ->]]].
  - apply (parses_val _ 1 _ (fun bs => e0 <- load8 bs 0;; Some (sint 8 e0))); [done|done| |field_eq].
    change (Some (sint 8 (v mod 256)) = Some v). rewrite <- (Hr 8) at 2 by done. cbn [le_encode le_decode].
    rewrite sint_uint by lia. do 2 f_equal. lia.
  - apply (parses_val _ 2 _ (fun bs => e0 <- load8 bs 0;; e1 <- load8 bs 1;; Some (sint 16 (uint 16 (Z.lor e0 (Z.shiftl e1 8))))));
      [done|done| |field_eq].
    change (Some (sint 16 (uint 16 (Z.lor (v mod 256) (Z.shiftl (v / 256 mod 256) 8)))) = Some v).
    rewrite <- (Hr 16) at 3 by done. rewrite lor_byte_add by (done || lia). cbn [le_encode le_decode]. do 3 f_equal. lia.
  - apply (parses_val _ 4 _ (fun bs => e0 <- load8 bs 0;; e1 <- load8 bs 1;; e2 <- load8 bs 2;; e3 <- load8 bs 3;;
      Some (sint 32 (uint 32 (Z.lor (Z.lor (Z.lor e0 (Z.shiftl e1 8)) (Z.shiftl e2 16)) (Z.shiftl e3 24)))))); [done|done| |field_eq].
    change (Some (sint 32 (uint 32 (Z.lor (Z.lor (Z.lor (v mod 256) (Z.shiftl (v / 256 mod 256) 8)) (Z.shiftl (v / 256 / 256 mod 256) 16))
      (Z.shiftl (v / 256 / 256 / 256 mod 256) 24)))) = Some v).
    rewrite <- (Hr 32) at 5 by done. pose proof (Hm v); pose proof (Hm (v / 256)); pose proof (Hm (v / 256 / 256)).
    rewrite (lor_byte_add (v mod 256)) by lia.
    rewrite (lor_byte_add (v mod 256 + v / 256 mod 256 * 2 ^ 8)) by lia. rewrite lor_byte_add by lia. cbn [le_encode le_decode]. do 3 f_equal. lia.
Qed.

Lemma rdbLoadIntegerObject_spec k n v encode : (k = 0 /\ n = 1%nat \/ k = 1 /\ n = 2%nat \/ k = 2 /\ n = 4%nat) ->
  in_sint (8 * Z.of_nat n) v ->
  parses (fun r => rdbLoadIntegerObject r k encode) (le_encode n v) (Some (loaded encode (ObjInt v))) None.
Proof.
  intros Hkn Hv. rewrite <- (app_nil_r (le_encode n v)). unfold rdbLoadIntegerObject.
  set (g := fun (val : option Z) (r : rio S) => match val with
    | None => Some (r, None)
    | Some val =>
      if encode then o <- createStringObjectFromLongLong val;; Some (r, Some o)
      else s <- sdsfromlonglong val;; o <- obj_of_sds s;; Some (r, Some o)
    end).
  apply (parses_bind _ g (le_encode n v) [] (Some v) (Some (loaded encode (ObjInt v))) None);
    [by apply load_integer_field| |done].
  assert (LLONG_MIN < v <= LLONG_MAX) as Hll.
  { unfold in_sint in Hv. unfold LLONG_MIN, LLONG_MAX. destruct Hkn as [[_ ->]|[[_ ->]|[_ ->]]]; cbn in Hv; lia. }
  eapply parses_ext; [|apply parses_ret]. intros r. unfold g, loaded. destruct encode.
  - unfold createStringObjectFromLongLong. destruct (_ && _); [done|].
    rewrite (proj2 (Z.leb_le _ _)), (proj2 (Z.leb_le _ _)) by lia. done.
  - destruct (sds_of_int v Hll) as (s & -> & E). cbn [obind]. rewrite E. done.
Qed.

(** [rdbGenericLoadStringObject] behind the length. *)
Definition load_string_tail (encode : bool) (x : Z * bool) (r : rio S) : option (rio S * option robj) :=
  let '(len, isencoded) := x in
  if isencoded : bool then
    if (len =? REDIS_RDB_ENC_INT8) || (len =? REDIS_RDB_ENC_INT16) || (len =? REDIS_RDB_ENC_INT32)
    then rdbLoadIntegerObject r len encode
    else if len =? REDIS_RDB_ENC_LZF then rdbLoadLzfStringObject r
    else None
  else
  if len =? REDIS_RDB_LENERR then Some (r, None) else
  val <- sdsnewlen None len;;
  if len =? 0 then o <- obj_of_sds val;; Some (r, Some o) else
  ' (r, bs) <- rioRead r len;;
  match bs with
  | None => Some (r, None)
  | Some bs => o <- (b <- store (buf val) 0 bs;; obj_of_sds (set_buf val b));; Some (r, Some o)
  end.

Lemma load_string_split encode a b x v : parses rdbLoadLen a x (REDIS_RDB_LENERR, false) ->
  parses (load_string_tail encode x) b v None -> parses (rdbGenericLoadStringObject encode) (a ++ b) v None.
Proof.
  intros H1 H2. apply (parses_ext _ (fun r => ' (r, x) <- rdbLoadLen r;; load_string_tail encode x r)).
  - intros r. unfold rdbGenericLoadStringObject, load_string_tail. destruct (rdbLoadLen r) as [[r1 [len ie]]|]; [|done]. cbn [obind].
    destruct ie; [done|]. destruct (_ =? _); [done|]. destruct (sdsnewlen None len) as [val|]; [|done]. cbn [obind].
    destruct (_ =? _); [done|]. destruct (rioRead r1 len) as [[r2 [bs|]]|]; [|done|done]. cbn [obind].
    by destruct (store (buf val) 0 bs).
  - by apply (parses_bind _ (load_string_tail encode) a b x v (REDIS_RDB_LENERR, false)).
Qed.

Lemma load_int_string v encode : rdbEncodeInteger v <> [] ->
  parses (rdbGenericLoadStringObject encode) (rdbEncodeInteger v) (Some (loaded encode (ObjInt v))) None.
Proof.
  intros Hne. destruct (rdbEncodeInteger_spec v) as [[? _]|(k & n & Hkn & Hv & ->)]; [done|].
  change (192 + k :: le_encode n v) with ([192 + k] ++ le_encode n v).
  apply (load_string_split encode _ _ (k, true)); [apply rdbLoadLen_enc; lia|].
  eapply parses_ext; [|by apply (rdbLoadIntegerObject_spec k n v encode)].
  intros r. unfold load_string_tail. destruct Hkn as [[-> _]|[[-> _]|[-> _]]]; done.
Qed.

(** ** Verbatim strings *)

Lemma sdsnewlen_null l : 0 <= l < 2 ^ 31 ->
  sdsnewlen None l = Some {| len := l; free := 0; buf := replicate (Z.to_nat l) 0 ++ [0] |}.
Proof.
  intros Hl. unfold sdsnewlen. cbn [obind]. replace (Z.to_nat (l + 1)) with (Z.to_nat l + 1)%nat by lia.
  rewrite replicate_add. rewrite (store8_at (replicate (Z.to_nat l) 0) 0 []); [|done|rewrite msize_replicate; lia].
  cbn [obind]. by rewrite sint32_id.
Qed.

Lemma obj_of_filled bs x b : msize bs < 2 ^ 31 -> obj_of_sds (set_buf {| len := msize bs; free := 0; buf := b |} (bs ++ x)) = Some (ObjSds bs).
Proof.
  intros Hs. unfold obj_of_sds, sdslen, set_buf. cbn [len buf]. rewrite uint_id by msolve. by rewrite (load_at [] bs x).
Qed.

Lemma load_verbatim s encode : Forall is_byte s -> msize s < 2 ^ 31 ->
  parses (rdbGenericLoadStringObject encode) (len_bytes (msize s) ++ s) (Some (ObjSds s)) None.
Proof.
  intros Hb Hs. pose proof (msize_nonneg s). apply (load_string_split encode _ _ (msize s, false)); [apply rdbLoadLen_spec; lia|].
  unfold load_string_tail, REDIS_RDB_LENERR. rewrite (proj2 (Z.eqb_neq (msize s) (2 ^ 32 - 1))) by lia.
  rewrite sdsnewlen_null by lia. cbn [obind].
  destruct (Z.eqb_spec (msize s) 0) as [E|E].
  - apply msize_0_nil in E as ->. apply parses_ret.
  - apply (parses_val s (msize s) _ (fun bs => b <- store (replicate (Z.to_nat (msize s)) 0 ++ [0]) 0 bs;;
      obj_of_sds (set_buf {| len := msize s; free := 0; buf := replicate (Z.to_nat (msize s)) 0 ++ [0] |} b))); [done|done| |done].
    rewrite (store_at [] (replicate (Z.to_nat (msize s)) 0) [0]); [|done|done|rewrite msize_replicate; lia].
    cbn [obind app]. by rewrite obj_of_filled.
Qed.

End Load.

(** * Compressed strings *)

Section Strings.
Context {S : Type} {BK : Backend S} {LW : @Lawful S BK} {HOST : Host}.

Definition lzf_string (c s : bytes) : bytes := (([195] ++ len_bytes (msize c)) ++ len_bytes (msize s)) ++ c.

Lemma load_lzf ts s encode : toks_ok [] ts -> expand [] ts = s -> 0 < msize (enc ts) < 2 ^ 31 -> 0 < msize s < 2 ^ 31 ->
  parses (rdbGenericLoadStringObject (S := S) encode) (lzf_string (enc ts) s) (Some (ObjSds s)) None.
Proof.
  intros Hok Hex Hc Hs. unfold lzf_string. rewrite <- !app_assoc.
  apply (load_string_split encode [195] _ (3, true)); [by apply (rdbLoadLen_enc 3)|].
  change (load_string_tail encode (3, true)) with (rdbLoadLzfStringObject (S := S)). unfold rdbLoadLzfStringObject.
  set (g1 := fun (x : Z * bool) (r : rio S) => let '(clen, _) := x in
    if clen =? REDIS_RDB_LENERR then Some (r, None) else
    ' (r, (len, _)) <- rdbLoadLen r;;
    if len =? REDIS_RDB_LENERR then Some (r, None) else
    val <- sdsnewlen None len;;
    ' (r, c) <- rioRead r clen;;
    match c with
    | None => Some (r, None)
    | Some c =>
      d <- lzf_decompress c clen (buf val) len;;
      match d with
      | inl _ => Some (r, None)
      | inr (n, out) => if n =? 0 then Some (r, None) else o <- obj_of_sds (set_buf val out);; Some (r, Some o)
      end
    end).
  apply (parses_ext _ (fun r => ' (r, x) <- rdbLoadLen r;; g1 x r)); [intros r; by destruct (rdbLoadLen r) as [[? [? ?]]|]|].
  apply (parses_bind _ g1 _ _ (msize (enc ts), false) _ (REDIS_RDB_LENERR, false)); [apply rdbLoadLen_spec; lia| |done].
  unfold g1. rewrite (proj2 (Z.eqb_neq _ _)) by (unfold REDIS_RDB_LENERR; lia).
  set (g2 := fun (x : Z * bool) (r : rio S) => let '(len, _) := x in
    if len =? REDIS_RDB_LENERR then Some (r, None) else
    val <- sdsnewlen None len;;
    ' (r, c) <- rioRead r (msize (enc ts));;
    match c with
    | None => Some (r, None)
    | Some c =>
      d <- lzf_decompress c (msize (enc ts)) (buf val) len;;
      match d with
      | inl _ => Some (r, None)
      | inr (n, out) => if n =? 0 then Some (r, None) else o <- obj_of_sds (set_buf val out);; Some (r, Some o)
      end
    end).
  apply (parses_ext _ (fun r => ' (r, x) <- rdbLoadLen r;; g2 x r)); [intros r; by destruct (rdbLoadLen r) as [[? [? ?]]|]|].
  apply (parses_bind _ g2 _ _ (msize s, false) _ (REDIS_RDB_LENERR, false)); [apply rdbLoadLen_spec; lia| |done].
  unfold g2. rewrite (proj2 (Z.eqb_neq _ _)) by (unfold REDIS_RDB_LENERR; lia). rewrite sdsnewlen_null by lia. cbn [obind].
  cbn [buf]. rewrite <- (app_nil_r (enc ts)) at 1.
  set (g3 := fun (x : option bytes) (r : rio S) => match x with
    | None => Some (r, None)
    | Some c =>
      d <- lzf_decompress c (msize (enc ts)) (replicate (Z.to_nat (msize s)) 0 ++ [0]) (msize s);;
      match d with
      | inl _ => Some (r, None)
      | inr (n, out) => if n =? 0 then Some (r, None) else
        o <- obj_of_sds (set_buf {| len := msize s; free := 0; buf := replicate (Z.to_nat (msize s)) 0 ++ [0] |} out);; Some (r, Some o)
      end
    end).
  apply (parses_bind _ g3 (enc ts) [] (Some (enc ts)) (Some (ObjSds s)) None);
    [apply parses_raw; [done|by eapply enc_bytes]| |done].
  destruct (lzf_decompress_spec ts [] (replicate (Z.to_nat (msize s)) 0 ++ [0]) (msize s)) as (junk & Ed).
  - intros ->. change (msize (enc [])) with 0 in Hc. lia.
  - done.
  - rewrite Hex, msize_app. rewrite msize_replicate. change (msize [0]) with 1. lia.
  - rewrite app_nil_r, Hex in Ed. unfold g3. rewrite Ed. cbn [obind]. rewrite (proj2 (Z.eqb_neq _ _)) by lia.
    rewrite obj_of_filled by lia. apply parses_ret.
Qed.

Variable htab : Z -> Z.
Hypothesis Hhtab : forall i, htab i < 2 ^ 64 - 8192.
Variable comp : bool.

Lemma rdbSaveLzf_spec s : Forall is_byte s -> msize s < 2 ^ 30 ->
  (forall rdb, rdbSaveLzfStringObject (S := S) htab (s ++ [0]) (msize s) rdb = Some (rdb, 0)) \/
  exists ts, toks_ok [] ts /\ expand [] ts = s /\ 0 < msize (enc ts) <= msize s - 4 /\
    saves (rdbSaveLzfStringObject (S := S) htab (s ++ [0]) (msize s)) (lzf_string (enc ts) s).
Proof.
  intros Hb Hs. unfold rdbSaveLzfStringObject. destruct (Z.leb_spec (msize s) 4) as [H4|H4]; [by left|].
  rewrite (load_at [] s [0]) by done. cbn [obind]. rewrite !uint_id by lia.
  destruct (lzf_compress_spec s Hb (zmalloc (msize s - 4 + 1)) (msize s - 4) htab) as (n & out & -> & Ho & Hn);
    [lia|lia|unfold zmalloc; rewrite msize_fresh; lia|done|]. cbn [obind].
  destruct Hn as [[-> _]|(ts & junk & Hok & Hex & -> & -> & Hn)]; [by left|].
  right. exists ts. split; [done|]. split; [done|]. split; [done|].
  rewrite (proj2 (Z.eqb_neq _ _)) by lia. unfold lzf_string.
  pose proof (len_bytes_size (msize s)). pose proof (len_bytes_size (msize (enc ts))).
  apply saves_then; [|apply saves_raw; [by eapply enc_bytes|lia]|rewrite !msize_app; change (msize [195]) with 1; lia].
  apply saves_then; [|apply rdbSaveLen_spec; lia|rewrite !msize_app; change (msize [195]) with 1; lia].
  apply saves_then; [|apply rdbSaveLen_spec; lia|change (msize [195]) with 1; lia].
  apply saves_raw'; [done|by repeat constructor|done].
Qed.

(** What is known of an encoding of the string [s]. *)
Record encodes (enc s : bytes) : Prop := {
  enc_is_bytes : Forall is_byte enc;
  enc_size : 1 <= msize enc <= msize s + 7;
  enc_loads : forall encode, exists o, parses (rdbGenericLoadStringObject (S := S) encode) enc (Some o) None /\ obj_val o = s /\
    (encode = false -> o = ObjSds s)
}.

Lemma encodes_int s v : decimal s v -> rdbEncodeInteger v <> [] -> msize (rdbEncodeInteger v) <= msize s + 7 -> encodes (rdbEncodeInteger v) s.
Proof.
  intros Hd Hne Hsz. destruct (rdbEncodeInteger_bytes v) as [Hb _].
  assert (LLONG_MIN < v <= LLONG_MAX) as Hv.
  { destruct (rdbEncodeInteger_spec v) as [[? _]|(k & n & Hk & Hv & _)]; [done|]. unfold in_sint in Hv. unfold LLONG_MIN, LLONG_MAX.
    destruct Hk as [[_ ->]|[[_ ->]|[_ ->]]]; cbn in Hv; lia. }
  assert (obj_val (ObjInt v) = s) as Es by (eapply decimal_inj; [by apply obj_val_int|done]).
  split; [done|split; [destruct (rdbEncodeInteger v); [done|msolve]|done]|].
  intros encode. eexists. split; [by apply load_int_string|]. rewrite loaded_val. split; [done|]. intros ->. cbn. by rewrite Es.
Qed.

Lemma encodes_verbatim s : Forall is_byte s -> msize s < 2 ^ 31 -> encodes (len_bytes (msize s) ++ s) s.
Proof.
  intros Hb Hs. pose proof (len_bytes_size (msize s)). split.
  - apply Forall_app. split; [apply len_bytes_bytes, msize_nonneg|done].
  - msolve.
  - intros encode. exists (ObjSds s). split; [by apply load_verbatim|]. by rewrite obj_val_sds.
Qed.

Lemma encodes_lzf ts s : toks_ok [] ts -> expand [] ts = s -> 0 < msize (enc ts) <= msize s - 4 -> msize s < 2 ^ 31 -> encodes (lzf_string (enc ts) s) s.
Proof.
  intros Hok Hex Hc Hs. pose proof (len_bytes_size (msize s)). pose proof (len_bytes_size (msize (enc ts))).
  pose proof (len_bytes_bytes (msize s) ltac:(lia)). pose proof (len_bytes_bytes (msize (enc ts)) ltac:(lia)). split.
  - unfold lzf_string. rewrite !Forall_app. split_and!; [by repeat constructor|done|done|by eapply enc_bytes].
  - unfold lzf_string. rewrite !msize_app. change (msize [195]) with 1. lia.
  - intros encode. exists (ObjSds s). split; [apply load_lzf; done || lia|]. by rewrite obj_val_sds.
Qed.

Lemma verbatim_saves s : Forall is_byte s -> msize s < 2 ^ 30 ->
  saves (S := S) (fun rdb =>
    ' (rdb, nwritten) <- rdbSaveLen (msize s) rdb;;
    if nwritten =? -1 then Some (rdb, -1) else
    if 0 <? msize s then
      ' (rdb, n) <- rdbWriteRaw (s ++ [0]) (msize s) rdb;;
      if n =? -1 then Some (rdb, -1) else Some (rdb, sint 32 (nwritten + msize s))
    else Some (rdb, nwritten)) (len_bytes (msize s) ++ s).
Proof.
  intros Hb Hs. pose proof (len_bytes_size (msize s)). pose proof (msize_nonneg s).
  pose proof (rdbSaveLen_spec (S := S) (msize s) ltac:(lia)) as Hl. destruct (Z.ltb_spec 0 (msize s)) as [Hz|Hz].
  - apply (saves_seq _ _ (fun n _ => Some (sint 32 (n + msize s)))); [done|apply saves_raw; [done|lia]|].
    rewrite sint32_id by lia. done.
  - assert (s = []) as -> by (apply msize_0_nil; lia). rewrite app_nil_r. eapply saves_ext; [|exact Hl]. intros rdb.
    destruct (rdbSaveLen (msize []) rdb) as [[x n]|]; [|done]. cbn [obind]. destruct (Z.eqb_spec n (-1)) as [->|]; done.
Qed.

Lemma rdbSaveRawString_spec s : Forall is_byte s -> msize s < 2 ^ 30 ->
  exists enc, saves (rdbSaveRawString (S := S) htab comp (s ++ [0]) (msize s)) enc /\ encodes enc s.
Proof.
  intros Hb Hs. pose proof (verbatim_saves s Hb Hs) as Hv. pose proof (encodes_verbatim s Hb ltac:(lia)) as He.
  assert (exists e, (if msize s <=? 11 then rdbTryIntegerEncoding (s ++ [0]) (msize s) else Some []) = Some e /\
    (e = [] \/ exists v, e = rdbEncodeInteger v /\ decimal s v)) as (e & Ee & Hi).
  { destruct (Z.leb_spec (msize s) 11); [by apply rdbTryIntegerEncoding_spec|]. exists []. auto. }
  unfold rdbSaveRawString. rewrite Ee. cbn [obind].
  destruct (decide (e = [])) as [->|Hne].
  - change (0 <? msize []) with false. cbv iota. destruct (comp && (msize s >? 20)).
    + destruct (rdbSaveLzf_spec s Hb Hs) as [H0|(ts & Hok & Hex & Hc & Hsv)].
      * exists (len_bytes (msize s) ++ s). split; [|done]. eapply saves_ext; [|exact Hv]. intros rdb. by rewrite H0.
      * exists (lzf_string (enc ts) s). split; [|apply encodes_lzf; done || lia].
        apply saves_first; [done|]. unfold lzf_string. by destruct (([195] ++ _) ++ _) eqn:E; [|].
    + exists (len_bytes (msize s) ++ s). split; [|done]. exact Hv.
  - destruct Hi as [->|(v & -> & Hd)]; [done|]. destruct (rdbEncodeInteger_bytes v) as [Hb5 H5].
    assert (0 < msize (rdbEncodeInteger v)) by (destruct (rdbEncodeInteger v); [done|msolve]).
    rewrite (proj2 (Z.ltb_lt _ _)) by done. exists (rdbEncodeInteger v). split; [|apply encodes_int; [done|done|msolve]].
    apply saves_const; [|done]. apply saves_raw'; [done|done|lia].
Qed.

(** Objects that can be saved: the bytes of a string fit an sds string, an
    integer is not the least one. *)
Definition obj_ok (o : robj) : Prop :=
  match o with
  | ObjSds s => Forall is_byte s /\ msize s < 2 ^ 30
  | ObjInt v => LLONG_MIN < v <= LLONG_MAX
  end.

Lemma obj_ok_bytes o : obj_ok o -> Forall is_byte (obj_val o) /\ msize (obj_val o) < 2 ^ 30.
Proof.
  destruct o as [s|v]; cbn [obj_ok]; [by rewrite obj_val_sds|]. intros Hv. split; [by eapply decimal_bytes, obj_val_int|].
  unfold obj_val, obj_string.
  destruct (ll2string_spec (zmalloc 128) 128 v Hv) as (ds & rest & -> & _ & Hsz & _); [unfold zmalloc; rewrite msize_fresh; lia|].
  unfold msize at 2. rewrite Nat2Z.id, take_app_length. lia.
Qed.

Lemma rdbSaveStringObject_spec o : obj_ok o ->
  exists enc, saves (rdbSaveStringObject (S := S) htab comp o) enc /\ encodes enc (obj_val o).
Proof.
  destruct o as [s|v]; cbn [obj_ok rdbSaveStringObject].
  - intros [Hb Hs]. rewrite obj_val_sds. by apply rdbSaveRawString_spec.
  - intros Hv. unfold rdbSaveLongLongAsStringObject. destruct (rdbEncodeInteger_bytes v) as [Hb5 H5].
    destruct (decide (rdbEncodeInteger v = [])) as [E|Hne].
    + rewrite E. change (0 <? msize []) with false. cbv iota.
      destruct (ll2string_spec (zmalloc 32) 32 v Hv) as (ds & rest & -> & Hd & Hsz & _); [unfold zmalloc; rewrite msize_fresh; lia|].
      cbn [obind]. rewrite (proj2 (Z.ltb_lt _ _)) by lia. cbn [negb].
      rewrite <- (decimal_inj ds (obj_val (ObjInt v)) v Hd (obj_val_int v Hv)). pose proof (decimal_bytes ds v Hd) as Hbd.
      pose proof (len_bytes_size (msize ds)). exists (len_bytes (msize ds) ++ ds). split; [|apply encodes_verbatim; [done|lia]].
      apply saves_then; [apply rdbSaveLen_spec; lia|apply saves_raw; [done|lia]|lia].
    + assert (0 < msize (rdbEncodeInteger v)) by (destruct (rdbEncodeInteger v); [done|msolve]).
      rewrite (proj2 (Z.ltb_lt _ _)) by done. exists (rdbEncodeInteger v).
      split; [apply saves_raw'; [done|done|lia]|]. apply encodes_int; [by apply obj_val_int|done|msolve].
Qed.

End Strings.

(** * Sequences of strings *)

Section Sequences.
Context {S : Type} {BK : Backend S} {LW : @Lawful S BK} {HOST : Host}.

(** Save objects one after the other, up to the first error; the sizes. *)
Fixpoint save_all (htab : Z -> Z) (comp : bool) (os : list robj) (rdb : option (rio S)) : option (option (rio S) * option (list Z)) :=
  match os with
  | [] => Some (rdb, Some [])
  | o :: os =>
    ' (rdb, n) <- rdbSaveStringObject htab comp o rdb;;
    if n =? -1 then Some (rdb, None) else
    ' (rdb, ns) <- save_all htab comp os rdb;;
    Some (rdb, cons n <$> ns)
  end.

(** Load objects one after the other, up to the first [NULL]. *)
Fixpoint load_all (encode : bool) (k : nat) (r : rio S) : option (rio S * option (list robj)) :=
  match k with
  | O => Some (r, Some [])
  | Datatypes.S k =>
    ' (r, o) <- rdbGenericLoadStringObject encode r;;
    match o with
    | None => Some (r, None)
    | Some o => ' (r, os) <- load_all encode k r;; Some (r, cons o <$> os)
    end
  end.

Definition total (ns : list Z) : Z := foldr Z.add 0 ns.

(** What [save_all] does, given the encoding. *)
Definition saves_all (f : option (rio S) -> option (option (rio S) * option (list Z))) (enc : bytes) : Prop :=
  (exists ns, f None = Some (None, Some ns) /\ total ns = msize enc) /\
  forall r w n, rio_ok r -> wr (io r) w n ->
    (msize enc <= n -> exists s' ns, f (Some r) = Some (Some (advance r s' enc), Some ns) /\ total ns = msize enc /\
       wr s' (w ++ enc) (n - msize enc)) /\
    (strict = true -> n < msize enc -> exists r', f (Some r) = Some (Some r', None)).

Lemma saves_all_cons htab comp o os a b : saves (rdbSaveStringObject (S := S) htab comp o) a -> saves_all (save_all htab comp os) b ->
  saves_all (save_all htab comp (o :: os)) (a ++ b).
Proof.
  intros [F1 F2] [(ns & G1 & Gt) G2]. pose proof (msize_nonneg a). pose proof (msize_nonneg b). cbn [save_all]. split.
  - exists (msize a :: ns). rewrite F1. cbn [obind]. bdecide. rewrite G1. cbn [obind fmap option_fmap option_map]. split; [done|].
    rewrite msize_app, <- Gt. done.
  - intros r w n Hr Hw. destruct (F2 r w n Hr Hw) as [F3 F4]. rewrite msize_app. destruct (Z.lt_ge_cases n (msize a)) as [Hn|Hn].
    + split; [lia|]. intros Hst _. destruct (F4 Hst Hn) as (r' & ->). cbn [obind]. eauto.
    + destruct (F3 Hn) as (s1 & -> & Hw1). cbn [obind]. bdecide.
      destruct (G2 _ _ _ (advance_ok r s1 a Hr) Hw1) as [G3 G4]. split.
      * intros Hn'. destruct G3 as (s2 & ms & -> & Ht & Hw2); [lia|]. cbn [obind fmap option_fmap option_map].
        exists s2, (msize a :: ms). rewrite advance_app, app_assoc. split; [done|]. split; [cbn; unfold total in Ht; lia|].
        by replace (n - (msize a + msize b)) with (n - msize a - msize b) by lia.
      * intros Hst Hn'. destruct G4 as (r' & ->); [done|lia|]. cbn [obind]. eauto.
Qed.

Lemma load_all_cons encode k a b o os : parses (rdbGenericLoadStringObject (S := S) encode) a (Some o) None ->
  parses (load_all encode k) b (Some os) None -> parses (load_all encode (Datatypes.S k)) (a ++ b) (Some (o :: os)) None.
Proof.
  intros Ha Hb. cbn [load_all].
  apply (parses_bind _ (fun x r => match x with
    | None => Some (r, None)
    | Some o => ' (r, os) <- load_all encode k r;; Some (r, cons o <$> os)
    end) a b (Some o) (Some (o :: os)) None); [done| |done].
  rewrite <- (app_nil_r b).
  apply (parses_bind _ (fun x r => Some (r, cons o <$> x)) b [] (Some os) (Some (o :: os)) None); [done|apply parses_ret|done].
Qed.

Lemma strings_codec htab comp os : (forall i, htab i < 2 ^ 64 - 8192) -> Forall obj_ok os ->
  exists enc, Forall is_byte enc /\ saves_all (save_all htab comp os) enc /\
    forall encode, exists os', parses (load_all encode (length os)) enc (Some os') None /\ obj_val <$> os' = obj_val <$> os /\
      (encode = false -> os' = ObjSds ∘ obj_val <$> os).
Proof.
  intros Hh. induction 1 as [|o os Ho Hos IH].
  - exists []. split; [constructor|]. split.
    + split; [by exists []|]. intros r w n Hr Hw. pose proof (wr_room _ _ _ Hw). rewrite msize_nil. split; [|lia]. intros _.
      exists (io r), []. rewrite advance_nil, app_nil_r, Z.sub_0_r by done. done.
    + intros encode. exists []. split; [apply parses_ret|done].
  - destruct IH as (b & Hb & Hsb & Hlb). destruct (rdbSaveStringObject_spec htab Hh comp o Ho) as (a & Ha & [Hba _ Hla]).
    exists (a ++ b). split; [by apply Forall_app|]. split; [by apply saves_all_cons|]. intros encode.
    destruct (Hla encode) as (o' & Hpo & Ev & Ef). destruct (Hlb encode) as (os' & Hpos & Evs & Efs).
    exists (o' :: os'). cbn [length fmap list_fmap]. split; [by apply load_all_cons|]. split; [by rewrite Ev, Evs|].
    intros E. by rewrite (Ef E), (Efs E).
Qed.

End Sequences.

(** * Properties *)

(** C19. String objects saved with [rdbSaveStringObject] to any lawful stream
    (memory buffer, file), with or without compression, whatever the chunk size,
    are one encoding: with [NULL] for the stream the sizes are computed; with room
    for it the encoding is appended and checksum and byte count advance by
    it; where the room of a file ends, -1 is returned.  Loading it gives objects
    with the same values (raw strings if no encoding is asked for), the same
    checksum, and leaves the stream behind it; any proper prefix of it is
    reported as an error. *)
Theorem rdb_strings_roundtrip {S : Type} {BK : Backend S} {LW : @Lawful S BK} {HOST : Host} (htab : Z -> Z) (comp : bool) (os : list robj)
    (Htab : forall i, htab i < 2 ^ 64 - 8192) (Hos : Forall obj_ok os) :
  exists enc,
    (exists ns, save_all htab comp os (S := S) None = Some (None, Some ns) /\ total ns = msize enc) /\
    (forall (r : rio S) w n, rio_ok r -> wr (io r) w n ->
      if msize enc <=? n then
        exists s' ns, save_all htab comp os (Some r) = Some (Some (advance r s' enc), Some ns) /\ total ns = msize enc /\
          wr s' (w ++ enc) (n - msize enc)
      else strict = true -> exists r', save_all htab comp os (Some r) = Some (Some r', None)) /\
    (forall (r : rio S) encode l, rio_ok r -> rd (io r) (enc ++ l) ->
      exists s' os', load_all encode (length os) r = Some (advance r s' enc, Some os') /\ rd s' l /\
        obj_val <$> os' = obj_val <$> os /\ (encode = false -> os' = ObjSds ∘ obj_val <$> os)) /\
    (forall (r : rio S) encode l l', rio_ok r -> rd (io r) l -> l ++ l' = enc -> l' <> [] ->
      exists r', load_all encode (length os) r = Some (r', None)).
Proof.
  destruct (strings_codec (S := S) htab comp os Htab Hos) as (enc & _ & [Hn Hs] & Hl). exists enc. split; [done|]. split; [|split].
  - intros r w n Hr Hw. destruct (Hs r w n Hr Hw) as [H1 H2]. destruct (Z.leb_spec (msize enc) n); [by apply H1|].
    intros Hst. by apply H2.
  - intros r encode l Hr Hd. destruct (Hl encode) as (os' & [Hp _] & Ev & Ef). destruct (Hp r l Hr Hd) as (s' & E & Hd').
    by exists s', os'.
  - intros r encode l l' Hr Hd E Hne. destruct (Hl encode) as (os' & [_ Hp] & _). by apply (Hp r l l').
Qed.

(** A number, a text that is compressed and the empty string, on a file. *)
Lemma rdb_strings_roundtrip_witness :
  let os := [ObjSds [45; 49; 50]; ObjSds (replicate 40 97); ObjSds []; ObjInt 70000] in
  exists enc,
    (exists ns, @save_all (rioFile memfile) _ le_host (fun _ => 0) true os None = Some (None, Some ns) /\ total ns = msize enc) /\
    exists s' os', @load_all (rioFile memfile) _ le_host false 4 (rioInitWithFile (mkMem enc 0 1000)) =
      Some (advance (rioInitWithFile (mkMem enc 0 1000)) s' enc, Some os') /\
      os' = [ObjSds [45; 49; 50]; ObjSds (replicate 40 97); ObjSds []; ObjSds [55; 48; 48; 48; 48]].
Proof.
  intros os. destruct (@rdb_strings_roundtrip (rioFile memfile) _ _ le_host (fun _ => 0) true os) as (enc & H1 & _ & H3 & _).
  - intros i. vm_compute. done.
  - unfold os. repeat constructor; vm_compute; done || congruence.
  - exists enc. split; [exact H1|].
    destruct (H3 (rioInitWithFile (mkMem enc 0 1000)) false []) as (s' & os' & H4 & _ & _ & H5).
    + split; cbn [processed_bytes max_processing_chunk rioInitWithFile]; lia.
    + exists []. by rewrite app_nil_r.
    + exists s', os'. split; [exact H4|]. rewrite H5 by done. by vm_compute.
Defined.
