(* ===== verification/RdbDouble.v ===== *)
(** The dump format: doubles, which are saved as text, and what a length byte
    that was not written by the save function does to the load function. *)

From Stdlib Require Import SpecFloat.
From S2P Require Import Prelude Endian Util Crc Robj Sds SdsRep Rio RioSpec Rdb RdbScalar.

(** * The integral doubles *)

Lemma digits2_pos_bound m : Zpos m < 2 ^ Zpos (digits2_pos m).
Proof. induction m as [m IH|m IH|]; cbn [digits2_pos]; rewrite ?Pos2Z.inj_succ, ?Z.pow_succ_r by lia; lia. Qed.

Lemma mantissa_bound s m e : valid_binary 53 1024 (S754_finite s m e) = true -> Zpos m < 2 ^ 53.
Proof.
  cbn. unfold bounded, canonical_mantissa, fexp, SpecFloat.emin. intros H. apply andb_true_iff in H as [H _].
  apply Zeq_bool_eq in H. pose proof (digits2_pos_bound m) as Hm.
  assert (2 ^ Zpos (digits2_pos m) <= 2 ^ 53) by (apply Z.pow_le_mono_r; lia). lia.
Qed.

(** Between the two limits of the code the conversion to [long long] is defined. *)
Lemma ll_of_double_range val : valid_binary 53 1024 val = true ->
  SFltb (double_of_ll (-4503599627370495)) val = true -> SFltb val (double_of_ll 4503599627370496) = true ->
  - 2 ^ 53 < ll_of_double val < 2 ^ 53.
Proof.
  replace (double_of_ll (-4503599627370495)) with (S754_finite true 9007199254740990 (-1)) by (by vm_compute).
  replace (double_of_ll 4503599627370496) with (S754_finite false 4503599627370496 0) by (by vm_compute).
  destruct val as [s|s| |s m e]; try done. intros Hv%mantissa_bound. unfold SFltb. intros Hlo Hhi.
  assert (Hdiv : e <= 0 -> 0 <= (if 0 <=? e then Zpos m * 2 ^ e else Zpos m / 2 ^ (- e)) < 2 ^ 53).
  { intros He. destruct (Z.leb_spec 0 e) as [|Hneg].
    - assert (e = 0) as -> by lia. rewrite Z.pow_0_r, Z.mul_1_r. lia.
    - assert (0 < 2 ^ (- e)) by (apply Z.pow_pos_nonneg; lia). split; [apply Z.div_pos; lia|].
      apply Z.div_lt_upper_bound; [done|]. apply Z.lt_le_trans with (1 * 2 ^ 53); [lia|]. apply Z.mul_le_mono_nonneg_r; lia. }
  assert (e <= 0) as He.
  { destruct s; cbn [SFcompare] in Hlo, Hhi.
    - destruct (Z.compare_spec (-1) e) as [<-|H|H]; [lia|done|lia].
    - destruct (Z.compare_spec e 0) as [->|H|H]; [lia|lia|done]. }
  cbn [ll_of_double]. specialize (Hdiv He). destruct s; lia.
Qed.

(** * Saving and loading *)

Section Doubles.
Context {S : Type} {BK : Backend S} {LW : @Lawful S BK} {HOST : Host}.
Variable snprintf_17g : double -> bytes.
Variable sscanf_lg : bytes -> option double.

(** A text that can be saved: it fits the buffer and has no zero byte. *)
Definition text_ok (t : bytes) : Prop := Forall (fun c => 1 <= c < 256) t /\ msize t <= 126.

Lemma text_ok_bytes t : text_ok t -> Forall is_byte t /\ cstring t.
Proof. intros [Ht _]. split; (eapply list.Forall_impl; [exact Ht|]); unfold is_byte; cbn; lia. Qed.

Lemma decimal_text ds v : decimal ds v -> msize ds <= 20 -> text_ok ds.
Proof.
  intros Hd Hs. split; [|lia]. destruct Hd as [[[Hd _] _]|(d & -> & [Hd _] & _)].
  - eapply list.Forall_impl; [exact Hd|]. cbn. lia.
  - constructor; [lia|]. eapply list.Forall_impl; [exact Hd|]. cbn. lia.
Qed.

(** [rdbLoadDoubleValue] behind the read of the length byte. *)
Definition load_double_tail (l : option bytes) (r : rio S) : option (rio S * option double) :=
  match l with
  | None => Some (r, None)
  | Some l =>
    len <- load8 l 0;;
    if len =? 255 then Some (r, Some (S754_infinity true))
    else if len =? 254 then Some (r, Some (S754_infinity false))
    else if len =? 253 then Some (r, Some S754_nan)
    else
      ' (r, bs) <- rioRead r len;;
      match bs with
      | None => Some (r, None)
      | Some bs =>
        buf <- store (zmalloc 128) 0 bs;; buf <- store8 buf len 0;; n <- strlen buf;; text <- load buf 0 n;;
        val <- sscanf_lg text;; Some (r, Some val)
      end
  end.

Lemma load_double_split b enc v : is_byte b -> parses (load_double_tail (Some [b])) enc (Some v) None ->
  parses (rdbLoadDoubleValue (S := S) sscanf_lg) (b :: enc) (Some v) None.
Proof.
  intros Hb Ht. apply (parses_bind _ load_double_tail [b] enc (Some [b]) (Some v) None); [|done|done].
  apply parses_raw; [done|by apply Forall_singleton].
Qed.

Lemma zmalloc_128 : msize (zmalloc 128) = 128.
Proof. unfold zmalloc. by rewrite msize_fresh. Qed.

Lemma load_double_text t v : text_ok t -> sscanf_lg t = Some v ->
  parses (rdbLoadDoubleValue (S := S) sscanf_lg) (msize t :: t) (Some v) None.
Proof.
  intros Ht Hv. destruct (text_ok_bytes t Ht) as [Hb Hc]. destruct Ht as [_ Hs]. pose proof (msize_nonneg t).
  apply load_double_split; [unfold is_byte; lia|]. unfold load_double_tail.
  change (load8 [msize t] 0) with (Some (msize t)). cbn [obind]. rewrite !(proj2 (Z.eqb_neq _ _)) by lia.
  apply (parses_val t (msize t) _ (fun bs => buf <- store (zmalloc 128) 0 bs;; buf <- store8 buf (msize t) 0;;
    n <- strlen buf;; text <- load buf 0 n;; sscanf_lg text)); [done|done| |].
  - pose proof zmalloc_128 as Hz. destruct (split_at (zmalloc 128) (msize t)) as (z1 & z2 & Ez & Hz1); [lia|]. rewrite Ez.
    rewrite (store_at [] z1 z2) by done. cbn [obind app].
    destruct z2 as [|x z2]; [rewrite Ez, app_nil_r in Hz; lia|].
    rewrite (store8_at t x z2) by done. cbn [obind]. change (uint 8 0) with 0.
    rewrite strlen_spec by done. cbn [obind]. by rewrite (load_at [] t (0 :: z2)).
  - intros r. destruct (rioRead r (msize t)) as [[r1 [bs|]]|]; [|done|done]. cbn [obind].
    destruct (store (zmalloc 128) 0 bs) as [b1|]; [|done]. cbn [obind]. destruct (store8 b1 (msize t) 0) as [b2|]; [|done]. cbn [obind].
    destruct (strlen b2) as [n|]; [|done]. cbn [obind]. by destruct (load b2 0 n).
Qed.

(** The special values. *)
Lemma load_double_special b v : (b = 255 /\ v = S754_infinity true) \/ (b = 254 /\ v = S754_infinity false) \/ (b = 253 /\ v = S754_nan) ->
  parses (rdbLoadDoubleValue (S := S) sscanf_lg) [b] (Some v) None.
Proof.
  intros Hb. apply load_double_split; [unfold is_byte; lia|]. destruct Hb as [[-> ->]|[[-> ->]|[-> ->]]]; apply parses_ret.
Qed.

Lemma save_double_text t rest : text_ok t ->
  saves (rdbWriteRaw (S := S) (uint 8 (msize t) :: t ++ 0 :: rest) (uint 8 (msize t) + 1)) (msize t :: t).
Proof.
  intros Ht. destruct (text_ok_bytes t Ht) as [Hb _]. destruct Ht as [_ Hs]. pose proof (msize_nonneg t).
  rewrite uint_id by (change (2 ^ 8) with 256; lia). replace (msize t + 1) with (msize (msize t :: t)) by msolve.
  apply (saves_raw (msize t :: t) (0 :: rest)); [constructor; [unfold is_byte; lia|done]|msolve].
Qed.

(** What is relied on of the two conversions, for the double to be saved: its 17
    digits are text without zero bytes and identify it; the decimal notation of its
    integer part is read as that integer. *)
Definition conversions_ok (x : double) : Prop :=
  text_ok (snprintf_17g x) /\ sscanf_lg (snprintf_17g x) = Some x /\
  (forall ds, decimal ds (ll_of_double x) -> sscanf_lg ds = Some (double_of_ll (ll_of_double x))).

(** The text of a finite double. *)
Lemma finite_text val : conversions_ok val -> valid_binary 53 1024 val = true -> isfinite val = true ->
  exists t rest v', text_ok t /\ sscanf_lg t = Some v' /\ (v' = val \/ SFeqb val v' = true) /\
    (if SFltb (double_of_ll (-4503599627370495)) val && SFltb val (double_of_ll 4503599627370496) &&
        SFeqb val (double_of_ll (ll_of_double val))
     then ' (b, _) <- ll2string (zmalloc 127) 128 (ll_of_double val);; Some b
     else vsnprintf (zmalloc 127) 127 (snprintf_17g val)) = Some (t ++ 0 :: rest).
Proof.
  intros (Ht & Hs & Hd) Hv Hf. assert (msize (zmalloc 127) = 127) as Hz by (unfold zmalloc; by rewrite msize_fresh).
  destruct (SFltb _ val && SFltb val _ && _) eqn:E.
  - apply andb_true_iff in E as [E Eq]. apply andb_true_iff in E as [Elo Ehi].
    pose proof (ll_of_double_range val Hv Elo Ehi) as Hr.
    destruct (ll2string_room (zmalloc 127) 128 (ll_of_double val)) as (ds & rest & -> & Hdec & Hsz & _);
      [unfold LLONG_MIN, LLONG_MAX; lia|lia|lia|]. cbn [obind].
    exists ds, rest, (double_of_ll (ll_of_double val)). split; [apply (decimal_text ds _ Hdec); lia|].
    split; [by apply Hd|]. split; [by right|done].
  - set (t := snprintf_17g val) in *. destruct (split_at (zmalloc 127) (msize (t ++ [0]))) as (z1 & z2 & Ez & Hz1);
      [destruct Ht as [_ Ht]; msolve|].
    exists t, z2, val. split; [done|]. split; [done|]. split; [by left|]. unfold vsnprintf. destruct Ht as [_ Ht].
    rewrite take_ge by (unfold msize in Ht; lia). rewrite Ez, (store_at [] z1 z2) by done. by lsimpl.
Qed.

Lemma rdbSaveDoubleValue_spec val : (isfinite val = true -> conversions_ok val) -> valid_binary 53 1024 val = true ->
  exists enc v', saves (rdbSaveDoubleValue (S := S) snprintf_17g val) enc /\ Forall is_byte enc /\
    parses (rdbLoadDoubleValue (S := S) sscanf_lg) enc (Some v') None /\ (v' = val \/ SFeqb val v' = true).
Proof.
  intros Hc Hv. assert (Hone : forall b, is_byte b -> saves (rdbWriteRaw (S := S) [b] 1) [b] /\ Forall is_byte [b]).
  { intros b Hb. split; [|by apply Forall_singleton]. apply saves_raw'; [done|by apply Forall_singleton|done]. }
  destruct (isfinite val) eqn:Hf.
  - destruct (finite_text val (Hc eq_refl) Hv Hf) as (t & rest & v' & Ht & Hs & Heq & E). exists (msize t :: t), v'.
    destruct (text_ok_bytes t Ht) as [Hb Hcs]. split; [|split; [|split; [by apply load_double_text|done]]].
    + unfold rdbSaveDoubleValue. rewrite Hf. assert (isnan val = false) as -> by (by destruct val). cbn [negb].
      rewrite E. cbn [obind]. rewrite strlen_spec by done. cbn [obind]. by apply save_double_text.
    + destruct Ht as [_ Ht]. pose proof (msize_nonneg t). constructor; [unfold is_byte; lia|done].
  - destruct val as [?|s| |?]; try done; unfold rdbSaveDoubleValue; cbn [isnan isfinite negb obind].
    + exists [if SFltb (S754_infinity s) (double_of_ll 0) then 255 else 254], (S754_infinity s).
      assert (SFltb (S754_infinity s) (double_of_ll 0) = s) as -> by (by destruct s).
      destruct (Hone (if s then 255 else 254)) as [H1 H2]; [by destruct s|]. split; [done|]. split; [done|].
      split; [apply load_double_special; destruct s; auto|by left].
    + exists [253], S754_nan. destruct (Hone 253) as [H1 H2]; [done|]. split; [done|]. split; [done|].
      split; [apply load_double_special; auto|by left].
Qed.

End Doubles.

(** * Properties *)

(** Every double survives saving and loading (up to the sign of zero: a
    negative zero is saved as the integer 0), given that the 17 digits printed for
    it identify it, if it is finite, and that the decimal notation of its integer part is
    read as this integer; a truncated encoding is an error. *)
Theorem rdb_double_roundtrip {S : Type} {BK : Backend S} {LW : @Lawful S BK} {HOST : Host}
    (snprintf_17g : double -> bytes) (sscanf_lg : bytes -> option double) (val : double)
    (Hc : isfinite val = true -> conversions_ok snprintf_17g sscanf_lg val) (Hv : valid_binary 53 1024 val = true) :
  exists enc v', saves (rdbSaveDoubleValue (S := S) snprintf_17g val) enc /\
    parses (rdbLoadDoubleValue (S := S) sscanf_lg) enc (Some v') None /\ (v' = val \/ SFeqb val v' = true).
Proof.
  destruct (rdbSaveDoubleValue_spec (S := S) snprintf_17g sscanf_lg val Hc Hv) as (enc & v' & H1 & _ & H2 & H3). by exists enc, v'.
Qed.

(** The double 2.5, printed as "2.5". *)
Lemma rdb_double_roundtrip_witness :
  let x := S754_finite false 5629499534213120 (-51) in
  let print := fun _ : double => [50; 46; 53] in
  let scan := fun t : bytes => if decide (t = [50; 46; 53]) then Some x else Some (double_of_ll 2) in
  exists enc v', saves (S := rioFile memfile) (@rdbSaveDoubleValue _ _ le_host print x) enc /\
    parses (S := rioFile memfile) (@rdbLoadDoubleValue _ _ le_host scan) enc (Some v') None /\ (v' = x \/ SFeqb x v' = true).
Proof.
  intros x print scan. apply (@rdb_double_roundtrip (rioFile memfile) _ _ le_host print scan x).
  - intros _. split; [by split; [repeat constructor|]|]. split; [done|]. intros ds Hd. unfold scan. case_decide as Et; [|done].
    exfalso. subst ds. destruct Hd as [[[Hd _] _]|(d & [=] & _)]. apply list.Forall_cons in Hd as [_ Hd].
    apply list.Forall_cons in Hd as [Hd _]. lia.
  - by vm_compute.
Defined.

(** C36. The load function reads into a buffer of 128 bytes as many bytes as the
    length byte says: from 128 to 252 it writes outside of the buffer, whatever the
    stream holds. *)
Theorem rdb_double_overrun {S : Type} {BK : Backend S} {LW : @Lawful S BK} {HOST : Host} (sscanf_lg : bytes -> option double)
    (r : rio S) (bs l : bytes) (Hr : rio_ok r) (Hb : Forall is_byte bs) (Hn : 128 <= msize bs <= 252)
    (Hd : rd (io r) (msize bs :: bs ++ l)) :
  rdbLoadDoubleValue sscanf_lg r = None.
Proof.
  unfold rdbLoadDoubleValue. destruct (rioRead_spec r [msize bs] (bs ++ l) Hr Hd) as (s1 & E1 & Hd1);
    [apply Forall_singleton; unfold is_byte; lia|]. change (msize [msize bs]) with 1 in E1. rewrite E1. cbn [obind].
  change (load8 [msize bs] 0) with (Some (msize bs)). cbn [obind]. rewrite !(proj2 (Z.eqb_neq _ _)) by lia.
  destruct (rioRead_spec (advance r s1 [msize bs]) bs l (advance_ok r s1 _ Hr) Hd1 Hb) as (s2 & -> & _). cbn [obind].
  destruct (store (zmalloc 128) 0 bs) as [b|] eqn:E; [|done]. cbn [obind]. apply store_size in E. rewrite zmalloc_128 in E.
  unfold store8, store. change (msize [uint 8 0]) with 1. rewrite E, (proj2 (Z.leb_gt (msize bs + 1) 128)), andb_false_r by lia. done.
Qed.

Lemma rdb_double_overrun_witness :
  @rdbLoadDoubleValue (rioFile memfile) _ le_host (fun _ => Some (S754_zero false)) (rioInitWithFile (mkMem (128 :: replicate 128 48) 0 1000)) = None.
Proof.
  apply (@rdb_double_overrun (rioFile memfile) _ _ le_host _ _ (replicate 128 48) []).
  - split; cbn [processed_bytes max_processing_chunk rioInitWithFile]; lia.
  - apply Forall_replicate. unfold is_byte. lia.
  - rewrite msize_replicate. lia.
  - exists []. by rewrite app_nil_r.
Defined.
