(* ===== verification/Networking.v ===== *)
(** Requests of clients: the protocol parser of networking.c.

    The query buffer is an sds string; the other fields of a client are those
    the parser uses.  Replies that report a protocol error are kept in a list.
    What a command does is a parameter. *)

From S2P Require Import Prelude Util Robj Sds SdsRep SdsArgs Rdb.

Definition REDIS_INLINE_MAX_SIZE := 1024 * 64.
Definition REDIS_MBULK_BIG_ARG := 1024 * 32.
Definition REDIS_IOBUF_LEN := 1024 * 16.
Definition REDIS_REQ_INLINE := 1.
Definition REDIS_REQ_MULTIBULK := 2.

Inductive protocol_error :=
  | TooBigInline | UnbalancedQuotes | TooBigMbulkCount | InvalidMultibulkLength
  | TooBigBulkCount | ExpectedDollar (c : Z) | InvalidBulkLength.

(** The flags of a client that matter here, and whether the last command was ASKING. *)
Record client_flags := mkFlags {
  SLAVE : bool; BLOCKED : bool; CLOSE_AFTER_REPLY : bool; MULTI : bool; ASKING : bool; last_asking : bool
}.

Record client := mkClient {
  querybuf : sdshdr;
  reqtype : Z;
  multibulklen : Z;
  bulklen : Z;
  argv : list robj;
  flags : client_flags;
  errors : list protocol_error
}.

Definition set_querybuf (c : client) (q : sdshdr) : client :=
  mkClient q (reqtype c) (multibulklen c) (bulklen c) (argv c) (flags c) (errors c).
Definition set_reqtype (c : client) (t : Z) : client :=
  mkClient (querybuf c) t (multibulklen c) (bulklen c) (argv c) (flags c) (errors c).
Definition set_multibulklen (c : client) (n : Z) : client :=
  mkClient (querybuf c) (reqtype c) n (bulklen c) (argv c) (flags c) (errors c).
Definition set_bulklen (c : client) (n : Z) : client :=
  mkClient (querybuf c) (reqtype c) (multibulklen c) n (argv c) (flags c) (errors c).
Definition set_argv (c : client) (a : list robj) : client :=
  mkClient (querybuf c) (reqtype c) (multibulklen c) (bulklen c) a (flags c) (errors c).
Definition set_flags (c : client) (f : client_flags) : client :=
  mkClient (querybuf c) (reqtype c) (multibulklen c) (bulklen c) (argv c) f (errors c).

(** [addReplyError] *)
Definition addReplyError (c : client) (e : protocol_error) : client :=
  mkClient (querybuf c) (reqtype c) (multibulklen c) (bulklen c) (argv c) (flags c) (errors c ++ [e]).

(** [strchr(s+p,ch)]: the offset of the first [ch] of the C string. *)
Fixpoint strchr_from (fuel : nat) (s : bytes) (p ch : Z) : option (option Z) :=
  match fuel with
  | O => None
  | S fuel =>
    c <- load8 s p;;
    if c =? ch then Some (Some p) else if c =? 0 then Some None else strchr_from fuel s (p + 1) ch
  end.

Definition strchr_at (s : bytes) (p ch : Z) : option (option Z) := strchr_from (length s) s p ch.

Section Networking.
Context `{Host}.

Definition resetClient (c : client) : client :=
  let f := flags c in
  let f := if negb (MULTI f) && negb (last_asking f)
           then mkFlags (SLAVE f) (BLOCKED f) (CLOSE_AFTER_REPLY f) (MULTI f) false (last_asking f) else f in
  mkClient (querybuf c) 0 0 (-1) [] f (errors c).

Definition setProtocolError (c : client) (pos : Z) : option client :=
  let f := flags c in
  let c := set_flags c (mkFlags (SLAVE f) (BLOCKED f) true (MULTI f) (ASKING f) (last_asking f)) in
  q <- sdsrange (querybuf c) pos (-1);;
  Some (set_querybuf c q).

(** * Inline requests *)

(** Objects for the non-empty arguments. *)
Fixpoint inline_args (argv : list sdshdr) : option (list robj) :=
  match argv with
  | [] => Some []
  | a :: argv =>
    rest <- inline_args argv;;
    if negb (sdslen a =? 0) then o <- obj_of_sds a;; Some (o :: rest) else Some rest
  end.

(** The client and whether the result is [REDIS_OK]. *)
Definition processInlineBuffer (c : client) : option (client * bool) :=
  newline <- strchr_at (buf (querybuf c)) 0 10;;
  match newline with
  | None =>
    if sdslen (querybuf c) >? REDIS_INLINE_MAX_SIZE then
      c <- setProtocolError (addReplyError c TooBigInline) 0;; Some (c, false)
    else Some (c, false)
  | Some newline =>
    newline <- (if newline =? 0 then Some newline else
                x <- load8 (buf (querybuf c)) (newline - 1);;
                Some (if x =? 13 then newline - 1 else newline));;
    let querylen := newline in
    aux <- sdsnewlen (Some (buf (querybuf c))) querylen;;
    args <- sdssplitargs (buf aux);;
    match args with
    | None => c <- setProtocolError (addReplyError c UnbalancedQuotes) 0;; Some (c, false)
    | Some args =>
      q <- sdsrange (querybuf c) (sint 32 (querylen + 2)) (-1);;
      args <- inline_args args;;
      Some (set_argv (set_querybuf c q) args, true)
    end
  end.

(** * Multi bulk requests *)

(** The part of [processMultibulkBuffer] for a new request: an early return, or
    the client and [pos]. *)
Definition multibulk_count (c : client) : option (client * bool + client * Z) :=
  if negb (bool_decide (argv c = [])) then None else
  newline <- strchr_at (buf (querybuf c)) 0 13;;
  match newline with
  | None =>
    if sdslen (querybuf c) >? REDIS_INLINE_MAX_SIZE then
      c <- setProtocolError (addReplyError c TooBigMbulkCount) 0;; Some (inl (c, false))
    else Some (inl (c, false))
  | Some newline =>
    if newline >? sint 32 (sdslen (querybuf c)) - 2 then Some (inl (c, false)) else
    c0 <- load8 (buf (querybuf c)) 0;;
    if negb (c0 =? 42) then None else
    line <- load (buf (querybuf c)) 1 (newline - 1);;
    ll <- string2ll line (newline - 1);;
    match ll with
    | Some ll =>
      if ll >? 1024 * 1024 then
        c <- setProtocolError (addReplyError c InvalidMultibulkLength) 0;; Some (inl (c, false))
      else
      let pos := newline + 2 in
      if ll <=? 0 then
        q <- sdsrange (querybuf c) pos (-1);; Some (inl (set_querybuf c q, true))
      else Some (inr (set_multibulklen c ll, pos))
    | None => c <- setProtocolError (addReplyError c InvalidMultibulkLength) 0;; Some (inl (c, false))
    end
  end.

Inductive bulk_step := BulkBreak (c : client) | BulkReturn (c : client) | BulkLen (c : client) (pos : Z).

(** Read the bulk length, if unknown. *)
Definition multibulk_bulklen (c : client) (pos : Z) : option bulk_step :=
  if negb (bulklen c =? -1) then Some (BulkLen c pos) else
  newline <- strchr_at (buf (querybuf c)) pos 13;;
  match newline with
  | None =>
    if sdslen (querybuf c) >? REDIS_INLINE_MAX_SIZE then
      c <- setProtocolError (addReplyError c TooBigBulkCount) 0;; Some (BulkBreak c)
    else Some (BulkBreak c)
  | Some newline =>
    if newline >? sint 32 (sdslen (querybuf c)) - 2 then Some (BulkBreak c) else
    x <- load8 (buf (querybuf c)) pos;;
    if negb (x =? 36) then
      c <- setProtocolError (addReplyError c (ExpectedDollar x)) pos;; Some (BulkReturn c)
    else
    line <- load (buf (querybuf c)) (pos + 1) (newline - (pos + 1));;
    ll <- string2ll line (newline - (pos + 1));;
    match ll with
    | Some ll =>
      if (ll <? 0) || (ll >? 512 * 1024 * 1024) then
        c <- setProtocolError (addReplyError c InvalidBulkLength) pos;; Some (BulkReturn c)
      else
      let pos := pos + (newline - pos + 2) in
      if ll >=? REDIS_MBULK_BIG_ARG then
        q <- sdsrange (querybuf c) pos (-1);;
        let qblen := sdslen q in
        let q := if qblen <? ll + 2 then sdsMakeRoomFor q (ll + 2 - qblen) else q in
        Some (BulkLen (set_bulklen (set_querybuf c q) ll) 0)
      else Some (BulkLen (set_bulklen c ll) pos)
    | None => c <- setProtocolError (addReplyError c InvalidBulkLength) pos;; Some (BulkReturn c)
    end
  end.

(** Read the bulk argument: the client and [pos], [None] without enough data. *)
Definition multibulk_arg (c : client) (pos : Z) : option (option (client * Z)) :=
  if uint 64 (sdslen (querybuf c) - pos) <? uint 32 (bulklen c + 2) then Some None else
  ' (c, pos) <-
    (if (pos =? 0) && (bulklen c >=? REDIS_MBULK_BIG_ARG) && (sint 32 (sdslen (querybuf c)) =? bulklen c + 2) then
       s <- sdsIncrLen (querybuf c) (-2);;
       o <- obj_of_sds s;;
       q <- sdsempty;;
       let q := sdsMakeRoomFor q (bulklen c + 2) in
       Some (set_querybuf (set_argv c (argv c ++ [o])) q, 0)
     else
       bs <- load (buf (querybuf c)) pos (bulklen c);;
       Some (set_argv c (argv c ++ [ObjSds bs]), pos + (bulklen c + 2)));;
  Some (Some (set_multibulklen (set_bulklen c (-1)) (multibulklen c - 1), pos)).

(** [while(c->multibulklen) { ... }]: an early return, or the client and [pos]. *)
Fixpoint multibulk_loop (fuel : nat) (c : client) (pos : Z) : option (client + client * Z) :=
  match fuel with
  | O => None
  | S fuel =>
    if multibulklen c =? 0 then Some (inr (c, pos)) else
    step <- multibulk_bulklen c pos;;
    match step with
    | BulkBreak c => Some (inr (c, pos))
    | BulkReturn c => Some (inl c)
    | BulkLen c pos =>
      r <- multibulk_arg c pos;;
      match r with
      | None => Some (inr (c, pos))
      | Some (c, pos) => multibulk_loop fuel c pos
      end
    end
  end.

Definition processMultibulkBuffer (c : client) : option (client * bool) :=
  start <- (if multibulklen c =? 0 then multibulk_count c else Some (inr (c, 0)));;
  match start with
  | inl r => Some r
  | inr (c, pos) =>
    if negb (0 <? multibulklen c) then None else
    r <- multibulk_loop (S (Z.to_nat (multibulklen c))) c pos;;
    match r with
    | inl c => Some (c, false)
    | inr (c, pos) =>
      q <- (if pos =? 0 then Some (querybuf c) else sdsrange (querybuf c) pos (-1));;
      let c := set_querybuf c q in
      Some (c, multibulklen c =? 0)
    end
  end.

(** * The input buffer *)

(** [processCommand] on the rest of the server, and whether its result is
    [REDIS_OK]; [clientsArePaused]. *)
Context {srv : Type}.
Variable processCommand : srv -> client -> option (srv * client * bool).
Variable clientsArePaused : bool.

(** [while(sdslen(c->querybuf)) { ... }] *)
Fixpoint processInputBuffer_loop (fuel : nat) (s : srv) (c : client) : option (srv * client) :=
  match fuel with
  | O => None
  | S fuel =>
    if sdslen (querybuf c) =? 0 then Some (s, c) else
    if negb (SLAVE (flags c)) && clientsArePaused then Some (s, c) else
    if BLOCKED (flags c) then Some (s, c) else
    if CLOSE_AFTER_REPLY (flags c) then Some (s, c) else
    c <- (if reqtype c =? 0 then
            x <- load8 (buf (querybuf c)) 0;;
            Some (set_reqtype c (if x =? 42 then REDIS_REQ_MULTIBULK else REDIS_REQ_INLINE))
          else Some c);;
    ' (c, ok) <- (if reqtype c =? REDIS_REQ_INLINE then processInlineBuffer c
                  else if reqtype c =? REDIS_REQ_MULTIBULK then processMultibulkBuffer c
                  else None);;
    if negb ok then Some (s, c) else
    if bool_decide (argv c = []) then processInputBuffer_loop fuel s (resetClient c)
    else
      ' (s, c, ok) <- processCommand s c;;
      processInputBuffer_loop fuel s (if ok : bool then resetClient c else c)
  end.

Definition processInputBuffer (s : srv) (c : client) : option (srv * client) :=
  processInputBuffer_loop (S (Z.to_nat (sdslen (querybuf c)))) s c.

(** The number of bytes asked for by the next read. *)
Definition client_readlen (c : client) : Z :=
  let readlen := REDIS_IOBUF_LEN in
  if (reqtype c =? REDIS_REQ_MULTIBULK) && negb (multibulklen c =? 0) && negb (bulklen c =? -1) &&
     (bulklen c >=? REDIS_MBULK_BIG_ARG) then
    let remaining := sint 32 (uint 64 (uint 32 (bulklen c + 2) - sdslen (querybuf c))) in
    if remaining <? readlen then remaining else readlen
  else readlen.

(** What [read] returns. *)
Inductive read_result := ReadData (data : bytes) | ReadAgain | ReadFailed.

(** The server and the client after a read event; no client if it was freed. *)
Definition readQueryFromClient (client_max_querybuf_len : Z) (s : srv) (c : client) (r : read_result) : option (srv * option client) :=
  let readlen := client_readlen c in
  let qblen := sdslen (querybuf c) in
  let q := sdsMakeRoomFor (querybuf c) readlen in
  match r with
  | ReadFailed | ReadData [] => Some (s, None)
  | ReadAgain => Some (s, Some (set_querybuf c q))
  | ReadData data =>
    if readlen <? msize data then None else
    b <- store (buf q) qblen data;;
    q <- sdsIncrLen (set_buf q b) (msize data);;
    let c := set_querybuf c q in
    if sdslen (querybuf c) >? client_max_querybuf_len then Some (s, None) else
    ' (s, c) <- processInputBuffer s c;;
    Some (s, Some c)
  end.

End Networking.
