(* ===== verification/NetworkingSpec.v ===== *)
(** Requests of clients: multi bulk requests that arrive in pieces. *)

From stdpp Require Import relations.
From S2P Require Import Prelude Util Robj Sds SdsRep SdsArgs Rio RioSpec Rdb RdbSpec Networking.

(** * Encoded requests *)

(** "$<len>\r\n<arg>\r\n" *)
Definition arg_enc (a e : bytes) : Prop := exists ds, decimal ds (msize a) /\ e = bulk_bytes ds a.

(** "*<argc>\r\n" and the arguments. *)
Definition cmd_enc (args : list bytes) (e : bytes) : Prop :=
  exists dn es, decimal dn (msize args) /\ Forall2 arg_enc args es /\ e = count_bytes 42 dn ++ concat es.

(** A request the limits of the parser admit. *)
Definition cmd_ok (args : list bytes) : Prop :=
  args <> [] /\ msize args <= 1024 * 1024 /\ Forall (fun a => msize a <= 512 * 1024 * 1024) args.

(** ** Decimal numbers on a line *)

Definition line_byte (c : Z) : Prop := c <> 13 /\ c <> 0.

Lemma decimal_line ds v : decimal ds v -> Forall line_byte ds.
Proof.
  unfold line_byte. intros [[[Hd _] _]|(d & -> & [Hd _] & _)].
  - eapply list.Forall_impl; [exact Hd|]. cbn. lia.
  - constructor; [lia|]. eapply list.Forall_impl; [exact Hd|]. cbn. lia.
Qed.

Lemma decimal_short ds v : decimal ds v -> 0 <= v < 10 ^ 10 -> 1 <= msize ds <= 10.
Proof.
  intros [[[Hd Hc] Hv]|(d & -> & _ & _ & Hn)] Hr; [|lia]. destruct ds as [|c ds]; [done|]. rewrite msize_cons.
  pose proof (msize_nonneg ds). split; [lia|]. destruct ds as [|c' ds]; [rewrite msize_nil; lia|].
  apply list.Forall_cons in Hd as [Hc1 Hd]. set (t := c' :: ds) in *.
  cbn [dec_value] in Hv. rewrite dec_value_acc in Hv. pose proof (dec_value_range t Hd).
  destruct (Z.le_gt_cases 10 (msize t)); [|lia]. assert (10 ^ 10 <= 10 ^ msize t) by (apply Z.pow_le_mono_r; lia).
  change (10 ^ 10) with 10000000000 in *. nia.
Qed.

Section Search.

Lemma strchr_found fuel A L ch R : ch <> 0 -> Forall (fun c => c <> ch /\ c <> 0) L -> (length L < fuel)%nat ->
  strchr_from fuel (A ++ L ++ ch :: R) (msize A) ch = Some (Some (msize A + msize L)).
Proof.
  intros Hch HL. revert fuel A. induction HL as [|c L [H1 H2] HL IH]; intros [|fuel] A Hf; cbn [length] in Hf; try lia;
    cbn [strchr_from].
  - rewrite (load8_at A ch R) by done. cbn [obind]. rewrite Z.eqb_refl, msize_nil. do 2 f_equal. lia.
  - rewrite (load8_at A c (L ++ ch :: R)) by done. cbn [obind]. rewrite (proj2 (Z.eqb_neq c ch)), (proj2 (Z.eqb_neq c 0)) by done.
    specialize (IH fuel (A ++ [c])). rewrite <- app_assoc in IH. cbn [app] in IH.
    replace (msize A + 1) with (msize (A ++ [c])) by msolve. cbn [app]. rewrite IH by lia. do 2 f_equal. msolve.
Qed.

Lemma strchr_missing fuel A L ch R : ch <> 0 -> Forall (fun c => c <> ch /\ c <> 0) L -> (length L < fuel)%nat ->
  strchr_from fuel (A ++ L ++ 0 :: R) (msize A) ch = Some None.
Proof.
  intros Hch HL. revert fuel A. induction HL as [|c L [H1 H2] HL IH]; intros [|fuel] A Hf; cbn [length] in Hf; try lia;
    cbn [strchr_from].
  - rewrite (load8_at A 0 R) by done. cbn [obind]. rewrite (proj2 (Z.eqb_neq 0 ch)) by done. done.
  - rewrite (load8_at A c (L ++ 0 :: R)) by done. cbn [obind]. rewrite (proj2 (Z.eqb_neq c ch)), (proj2 (Z.eqb_neq c 0)) by done.
    specialize (IH fuel (A ++ [c])). rewrite <- app_assoc in IH. cbn [app] in IH.
    replace (msize A + 1) with (msize (A ++ [c])) by msolve. cbn [app]. by rewrite IH by lia.
Qed.

End Search.

(** * The query buffer *)

Section Buffer.
Context {HOST : Host}.

Lemma sds_rep_len s bs : sds_rep s bs -> sdslen s = msize bs /\ msize bs < 2 ^ 31 - 1.
Proof.
  intros (rest & Eb & El & Ef & Hb). pose proof (msize_nonneg rest). split; [|lia]. by destruct (sds_lengths s bs rest Eb El Ef Hb).
Qed.

Lemma sds_rep_buf s bs : sds_rep s bs -> exists rest, buf s = bs ++ 0 :: rest.
Proof. intros (rest & Eb & _). eauto. Qed.

(** Cut off the first bytes. *)
Lemma sdsrange_skip s bs n : sds_rep s bs -> 0 <= n < 2 ^ 31 -> exists s', sdsrange s n (-1) = Some s' /\ sds_rep s' (drop (Z.to_nat n) bs).
Proof.
  intros Hr Hn. destruct (sdsrange_rep s bs n (-1) Hr) as (s' & E & Hr'); [lia|lia|]. exists s'. split; [done|].
  replace (drop (Z.to_nat n) bs) with (range_of bs n (-1)); [done|]. unfold range_of, abs_index.
  rewrite (proj2 (Z.ltb_ge n 0)), (proj2 (Z.ltb_lt (-1) 0)) by lia. by rewrite take_ge by (unfold msize; lia).
Qed.

Lemma sdsrange_drop s P bs : sds_rep s (P ++ bs) -> exists s', sdsrange s (msize P) (-1) = Some s' /\ sds_rep s' bs.
Proof.
  intros Hr. destruct (sds_rep_len s _ Hr) as [_ Hb]. rewrite msize_app in Hb. pose proof (msize_nonneg P). pose proof (msize_nonneg bs).
  destruct (sdsrange_skip s (P ++ bs) (msize P) Hr) as (s' & E & Hr'); [lia|]. exists s'. split; [done|].
  unfold msize in Hr'. by rewrite Nat2Z.id, drop_app_length in Hr'.
Qed.

(** [sdsIncrLen(s,-2)]: cut off the last two bytes. *)
Lemma sdsIncrLen_crlf s a x y : sds_rep s (a ++ [x; y]) -> exists s', sdsIncrLen s (-2) = Some s' /\ sds_rep s' a.
Proof.
  intros (rest & Eb & El & Ef & Hb). rewrite msize_app in *. change (msize [x; y]) with 2 in *.
  pose proof (msize_nonneg a). pose proof (msize_nonneg rest). unfold sdsIncrLen. rewrite El, Ef.
  rewrite (proj2 (Z.leb_le (-2) _)) by lia. cbn [negb]. rewrite !int_arith_Some by lia. cbn [obind].
  rewrite (proj2 (Z.leb_le 0 _)) by lia. cbn [negb]. rewrite (store8_at a x (y :: 0 :: rest)); [|by rewrite Eb; lsimpl|lia].
  cbn [obind]. eexists. split; [done|]. exists (y :: 0 :: rest). cbn [buf len free]. change (uint 8 0) with 0. rewrite !msize_cons.
  split; [done|lia].
Qed.

Lemma sdsempty_room n : 0 <= n < 2 ^ 30 -> exists q, sdsempty = Some q /\ sds_rep (sdsMakeRoomFor q n) [].
Proof.
  intros Hn. destruct sdsempty_rep as (q & E & Hr & _). exists q. split; [done|].
  apply sdsMakeRoomFor_rep; [done|lia|]. rewrite msize_nil. lia.
Qed.

(** A line at offset [P]: found, not complete, or not there. *)
Lemma strchr_line q P L R : sds_rep q (P ++ L ++ 13 :: R) -> Forall line_byte L ->
  strchr_at (buf q) (msize P) 13 = Some (Some (msize P + msize L)).
Proof.
  intros (rest & Eb & _) HL. unfold strchr_at. rewrite Eb, <- !app_assoc. cbn [app].
  apply (strchr_found _ P L 13 (R ++ 0 :: rest)); [done|done|]. rewrite !length_app. cbn [length]. lia.
Qed.

Lemma strchr_no_line q P L : sds_rep q (P ++ L) -> Forall line_byte L -> strchr_at (buf q) (msize P) 13 = Some None.
Proof.
  intros (rest & Eb & _) HL. unfold strchr_at. rewrite Eb, <- !app_assoc.
  apply (strchr_missing _ P L 13 rest); [done|done|]. rewrite !length_app. cbn [length]. lia.
Qed.

End Buffer.

(** * Reading a line *)

(** The bytes [avail] are the start of the line [prefix ds \r\n] and what follows it. *)
Lemma line_cases p ds avail X R : line_byte p -> Forall line_byte ds -> avail ++ X = count_bytes p ds ++ R ->
  (exists avail', avail = count_bytes p ds ++ avail' /\ avail' ++ X = R) \/
  (msize avail < msize (count_bytes p ds) /\
   (Forall line_byte avail \/ exists L, avail = L ++ [13] /\ Forall line_byte L)).
Proof.
  intros Hp Hds E. destruct (Z.lt_ge_cases (msize avail) (msize (count_bytes p ds))) as [Hlt|Hge].
  - right. split; [done|]. destruct (app_split_lt _ _ _ _ E Hlt) as (c & Ec & Hc). unfold count_bytes in Ec.
    assert (HL : Forall line_byte (p :: ds)) by (by constructor). change (p :: ds ++ [13; 10]) with ((p :: ds) ++ [13; 10]) in Ec.
    apply app_eq_app in Ec as (k & [[-> Ek]|[E1 Ek]]).
    + destruct k as [|k0 [|k1 k]].
      * left. by rewrite app_nil_r.
      * right. injection Ek as <- _. by exists (p :: ds).
      * exfalso. apply Hc. injection Ek as _ _ Ek. symmetry in Ek. by apply app_eq_nil in Ek as [_ ->].
    + left. rewrite E1 in HL. by apply list.Forall_app in HL as [? _].
  - left. destruct (app_split_ge _ _ _ _ E Hge) as (c & -> & Ec). by exists c.
Qed.

Section Steps.
Context {HOST : Host}.

Lemma string2ll_line ds v : decimal ds v -> 0 <= v < 2 ^ 63 -> string2ll ds (msize ds) = Some (Some v).
Proof. intros Hd Hv. apply string2ll_complete; [done|]. unfold in_sint. lia. Qed.

(** The number on a line. *)
Lemma load_line q P p ds avail : sds_rep q (P ++ count_bytes p ds ++ avail) ->
  load (buf q) (msize P + 1) (msize ds) = Some ds /\ load8 (buf q) (msize P) = Some p.
Proof.
  intros (rest & Eb & _). unfold count_bytes in Eb. rewrite Eb. split.
  - apply (load_at (P ++ [p]) ds ([13; 10] ++ avail ++ 0 :: rest)); [by lsimpl|msolve|done].
  - apply (load8_at P p (ds ++ [13; 10] ++ avail ++ 0 :: rest)); [by lsimpl|done].
Qed.

Definition same_but_buf (c c' : client) : Prop := c' = set_querybuf c (querybuf c').

Lemma multibulk_bulklen_step c P avail X ds (a R : bytes) : bulklen c = -1 -> sds_rep (querybuf c) (P ++ avail) ->
  msize (P ++ avail) <= REDIS_INLINE_MAX_SIZE -> decimal ds (msize a) -> msize a <= 512 * 1024 * 1024 ->
  avail ++ X = count_bytes 36 ds ++ R ->
  (exists avail' P' q, avail = count_bytes 36 ds ++ avail' /\ avail' ++ X = R /\
     multibulk_bulklen c (msize P) = Some (BulkLen (set_bulklen (set_querybuf c q) (msize a)) (msize P')) /\
     sds_rep q (P' ++ avail') /\ msize (P' ++ avail') <= msize (P ++ avail)) \/
  (msize avail < msize (count_bytes 36 ds) /\ multibulk_bulklen c (msize P) = Some (BulkBreak c)).
Proof.
  intros Hbl Hr Hs Hd Ha E. pose proof (msize_nonneg a). unfold multibulk_bulklen. rewrite Hbl. cbn [Z.eqb Pos.eqb negb].
  destruct (sds_rep_len _ _ Hr) as [El Hlt]. rewrite El.
  assert (Forall line_byte ds) as Hl by (by eapply decimal_line).
  destruct (line_cases 36 ds avail X R ltac:(split; lia) Hl E) as [(avail' & -> & E')|[Hsz Hinc]].
  - left. destruct (load_line (querybuf c) P 36 ds avail' Hr) as [L1 L2].
    rewrite (strchr_line (querybuf c) P (36 :: ds) (10 :: avail')); [|by unfold count_bytes in Hr; revert Hr; lsimpl|constructor; [split; lia|done]].
    cbn [obind]. rewrite sint32_id by msolve.
    assert (msize (P ++ count_bytes 36 ds ++ avail') = msize P + 1 + msize ds + 2 + msize avail') as Hsz by (unfold count_bytes; msolve).
    rewrite Z.gtb_ltb, (proj2 (Z.ltb_ge _ _)) by msolve. rewrite L2. cbn [obind Z.eqb Pos.eqb negb]. rewrite msize_cons.
    replace (msize P + (1 + msize ds) - (msize P + 1)) with (msize ds) by lia. rewrite L1. cbn [obind].
    rewrite (string2ll_line ds (msize a)) by (done || lia). cbn [obind].
    rewrite (proj2 (Z.ltb_ge (msize a) 0)), Z.gtb_ltb, (proj2 (Z.ltb_ge _ (msize a))) by lia. cbn [orb].
    replace (msize P + (msize P + (1 + msize ds) - msize P + 2)) with (msize (P ++ count_bytes 36 ds)) by (unfold count_bytes; msolve).
    destruct (Z.geb_spec (msize a) REDIS_MBULK_BIG_ARG) as [Hbig|Hbig].
    + rewrite app_assoc in Hr. destruct (sdsrange_drop (querybuf c) (P ++ count_bytes 36 ds) avail' Hr) as (q & -> & Hq). cbn [obind].
      destruct (sds_rep_len _ _ Hq) as [Elq _]. rewrite Elq.
      set (q' := if msize avail' <? msize a + 2 then sdsMakeRoomFor q (msize a + 2 - msize avail') else q).
      assert (sds_rep q' avail') as Hq'.
      { unfold q'. destruct (Z.ltb_spec (msize avail') (msize a + 2)); [|done]. apply sdsMakeRoomFor_rep; [done|lia|lia]. }
      exists avail', [], q'. split; [done|]. split; [done|]. split; [done|]. split; [done|]. cbn [app]. msolve.
    + exists avail', (P ++ count_bytes 36 ds), (querybuf c). split; [done|]. split; [done|]. split; [by destruct c|].
      rewrite <- app_assoc. split; [done|lia].
  - right. split; [done|]. destruct Hinc as [Hno|(L & -> & HL)].
    + rewrite (strchr_no_line (querybuf c) P avail) by done. cbn [obind]. rewrite Z.gtb_ltb, (proj2 (Z.ltb_ge _ _)) by done. done.
    + rewrite (strchr_line (querybuf c) P L []) by done. cbn [obind]. rewrite sint32_id by msolve.
      rewrite Z.gtb_ltb, (proj2 (Z.ltb_lt _ _)) by msolve. done.
Qed.

Lemma multibulk_arg_step c P avail X (a R : bytes) : bulklen c = msize a -> msize a <= 512 * 1024 * 1024 -> sds_rep (querybuf c) (P ++ avail) ->
  msize (P ++ avail) <= REDIS_INLINE_MAX_SIZE \/ P = [] /\ REDIS_MBULK_BIG_ARG <= msize a /\ msize avail <= msize a + 2 ->
  avail ++ X = (a ++ [13; 10]) ++ R ->
  (exists avail' P' q, avail = (a ++ [13; 10]) ++ avail' /\ avail' ++ X = R /\
     multibulk_arg c (msize P) = Some (Some (mkClient q (reqtype c) (multibulklen c - 1) (-1) (argv c ++ [ObjSds a]) (flags c) (errors c), msize P')) /\
     sds_rep q (P' ++ avail') /\ msize (P' ++ avail') <= REDIS_INLINE_MAX_SIZE) \/
  (msize avail < msize a + 2 /\ multibulk_arg c (msize P) = Some None).
Proof.
  intros Hbl Ha Hr Hs E. pose proof (msize_nonneg a). destruct (sds_rep_len _ _ Hr) as [El Hlt]. unfold multibulk_arg. rewrite El, Hbl.
  rewrite (uint_id 64) by msolve. rewrite (uint_id 32) by lia. rewrite msize_app in *.
  replace (msize P + msize avail - msize P) with (msize avail) by lia.
  destruct (Z.ltb_spec (msize avail) (msize a + 2)) as [Hsh|Hge]; [by right|]. left.
  destruct (app_split_ge avail X (a ++ [13; 10]) R E) as (avail' & -> & E'); [msolve|]. exists avail'.
  assert (msize ((a ++ [13; 10]) ++ avail') = msize a + 2 + msize avail') as Hsz by msolve. rewrite Hsz in *.
  destruct ((msize P =? 0) && (msize a >=? REDIS_MBULK_BIG_ARG) && (sint 32 (msize P + (msize a + 2 + msize avail')) =? msize a + 2)) eqn:Eb.
  - apply andb_true_iff in Eb as [Eb E3]. apply andb_true_iff in Eb as [E1 E2]. apply Z.eqb_eq in E1, E3.
    rewrite sint32_id in E3 by msolve. apply msize_0_nil in E1 as ->. rewrite msize_nil in *.
    assert (avail' = []) as -> by (apply msize_0_nil; lia). rewrite app_nil_r in *. cbn [app] in *.
    destruct (sdsIncrLen_crlf (querybuf c) a 13 10 Hr) as (s' & -> & Hs'). cbn [obind]. rewrite (obj_of_sds_rep s' a Hs'). cbn [obind].
    destruct (sdsempty_room (msize a + 2)) as (q & -> & Hq); [lia|]. cbn [obind].
    exists [], (sdsMakeRoomFor q (msize a + 2)). split; [done|]. split; [done|]. split; [done|]. split; [done|].
    rewrite msize_nil. unfold REDIS_INLINE_MAX_SIZE. lia.
  - destruct (sds_rep_buf _ _ Hr) as (rest & Ebuf). rewrite Ebuf.
    rewrite (load_at P a ([13; 10] ++ avail' ++ 0 :: rest)) by (by lsimpl). cbn [obind].
    exists (P ++ a ++ [13; 10]), (querybuf c). split; [done|]. split; [done|]. split.
    { do 4 f_equal. msolve. }
    split; [by revert Hr; lsimpl|]. destruct Hs as [Hs|(-> & Hbig & Hs)]; [msolve|]. exfalso.
    assert (avail' = []) as -> by (apply msize_0_nil; pose proof (msize_nonneg avail'); lia).
    change (msize (A := Z) []) with 0 in *. rewrite sint32_id in Eb by lia. rewrite !Z.add_0_r, Z.add_0_l, !Z.eqb_refl in Eb.
    rewrite Z.geb_leb, (proj2 (Z.leb_le _ _)) in Eb by done. discriminate Eb.
Qed.

End Steps.

(** * A request in progress *)

(** The parser fields of a client ([multibulklen], [bulklen], [argv]) in the middle of a request,
    and the bytes of the request that have not been consumed. *)
Inductive pending (args : list bytes) : Z -> Z -> list robj -> bytes -> Prop :=
  | pend_start e : cmd_enc args e -> pending args 0 (-1) [] e
  | pend_args done left es : args = done ++ left -> left <> [] -> Forall2 arg_enc left es ->
      pending args (msize left) (-1) (ObjSds <$> done) (concat es)
  | pend_bulk done a left es : args = done ++ a :: left -> Forall2 arg_enc left es ->
      pending args (1 + msize left) (msize a) (ObjSds <$> done) ((a ++ [13; 10]) ++ concat es).

(** What can be left in the query buffer between two reads: the start of a line, or
    the start of an argument. *)
Definition at_rest (bl : Z) (avail : bytes) : Prop := if bl =? -1 then msize avail <= 12 else msize avail < bl + 2.

(** The client after the loop: all of the request was there, or the parser waits
    for more of it. [R] is what was left of the request before. *)
Record loop_post (args : list bytes) (R avail : bytes) (c c' : client) (P' avail' : bytes) : Prop := {
  lp_buf : sds_rep (querybuf c') (P' ++ avail');
  lp_type : reqtype c' = reqtype c;
  lp_flags : flags c' = flags c;
  lp_errors : errors c' = errors c;
  lp_state :
    (multibulklen c' = 0 /\ bulklen c' = -1 /\ argv c' = ObjSds <$> args /\ avail = R ++ avail') \/
    (exists R' K, pending args (multibulklen c') (bulklen c') (argv c') R' /\ 0 < multibulklen c' /\
       R = K ++ R' /\ avail = K ++ avail' /\ msize avail' < msize R' /\ at_rest (bulklen c') avail')
}.

Section Loop.
Context {HOST : Host}.
Variables (args : list bytes) (X F : bytes).

Lemma arg_split (a e : bytes) : arg_enc a e -> exists ds, decimal ds (msize a) /\ e = count_bytes 36 ds ++ a ++ [13; 10].
Proof. intros (ds & Hd & ->). exists ds. split; [done|]. unfold bulk_bytes. done. Qed.

Lemma count_line_size ds (a : bytes) : decimal ds (msize a) -> msize a <= 512 * 1024 * 1024 -> msize (count_bytes 36 ds) <= 13.
Proof.
  intros Hd Ha. pose proof (msize_nonneg a). pose proof (decimal_short ds (msize a) Hd ltac:(lia)). unfold count_bytes. msolve.
Qed.

(** Induction hypothesis: the loop on the arguments [left]. *)
Definition loop_ok (left : list bytes) : Prop := forall done es c P avail fuel,
  args = done ++ left -> Forall2 arg_enc left es -> multibulklen c = msize left -> bulklen c = -1 -> argv c = ObjSds <$> done ->
  sds_rep (querybuf c) (P ++ avail) -> msize (P ++ avail) <= REDIS_INLINE_MAX_SIZE -> avail ++ X = concat es ++ F ->
  (length left < fuel)%nat ->
  exists c' P' avail', multibulk_loop fuel c (msize P) = Some (inr (c', msize P')) /\ loop_post args (concat es) avail c c' P' avail'.

(** The loop once the length of the argument [a] is known. *)
Lemma loop_arg left a done es c P avail fuel : loop_ok left -> msize a <= 512 * 1024 * 1024 ->
  args = done ++ a :: left -> Forall2 arg_enc left es -> multibulklen c = 1 + msize left -> bulklen c = msize a -> argv c = ObjSds <$> done ->
  sds_rep (querybuf c) (P ++ avail) ->
  msize (P ++ avail) <= REDIS_INLINE_MAX_SIZE \/ P = [] /\ REDIS_MBULK_BIG_ARG <= msize a /\ msize avail <= msize a + 2 ->
  avail ++ X = ((a ++ [13; 10]) ++ concat es) ++ F -> (length left < fuel)%nat ->
  exists c' P' avail',
    (r <- multibulk_arg c (msize P);;
     match r with None => Some (inr (c, msize P)) | Some (c, pos) => multibulk_loop fuel c pos end) = Some (inr (c', msize P')) /\
    loop_post args ((a ++ [13; 10]) ++ concat es) avail c c' P' avail'.
Proof.
  intros IH Ha Eargs Hes Hmb Hbl Hav Hr Hsz E Hf. rewrite <- app_assoc in E. pose proof (msize_nonneg left). pose proof (msize_nonneg a).
  destruct (multibulk_arg_step c P avail X a (concat es ++ F) Hbl Ha Hr Hsz E) as [(av & P1 & q & -> & E1 & -> & Hq & Hsq)|[Hsh ->]]; cbn [obind].
  - destruct (IH (done ++ [a]) es (mkClient q (reqtype c) (multibulklen c - 1) (-1) (argv c ++ [ObjSds a]) (flags c) (errors c)) P1 av fuel)
      as (c' & P' & av' & -> & Hpost); try done.
    + by rewrite Eargs, <- app_assoc.
    + cbn [multibulklen]. lia.
    + cbn [argv]. by rewrite Hav, fmap_app.
    + exists c', P', av'. split; [done|]. destruct Hpost as [H1 H2 H3 H4 H5]. split; [done..|].
      destruct H5 as [(B1 & B2 & B3 & ->)|(R' & K & B1 & B2 & B3 & -> & B5 & B6)].
      * left. split; [done|]. split; [done|]. split; [done|]. by rewrite <- !app_assoc.
      * right. exists R', ((a ++ [13; 10]) ++ K). rewrite B3, <- !app_assoc. done.
  - exists c, P, avail. split; [done|]. split; [done..|]. right. exists ((a ++ [13; 10]) ++ concat es), [].
    rewrite Hmb, Hbl, Hav. split; [by apply pend_bulk|]. split; [lia|]. split; [done|]. split; [done|]. split; [msolve|].
    unfold at_rest. rewrite (proj2 (Z.eqb_neq _ _)) by lia. done.
Qed.

Lemma loop_args left : Forall (fun a => msize a <= 512 * 1024 * 1024) left -> loop_ok left.
Proof.
  induction 1 as [|a left Ha Hleft IH]; intros done es c P avail [|fuel] Eargs Hes Hmb Hbl Hav Hr Hs E Hf; cbn [length] in Hf; try lia;
    cbn [multibulk_loop]; rewrite Hmb.
  - apply Forall2_nil_inv_l in Hes as ->. rewrite app_nil_r in Eargs. subst done. exists c, P, avail.
    split; [done|]. split; [done..|]. left. by rewrite Hmb.
  - apply Forall2_cons_inv_l in Hes as (e & es' & He & Hes & ->). destruct (arg_split a e He) as (ds & Hd & ->).
    pose proof (count_line_size ds a Hd Ha) as Hh. pose proof (msize_nonneg left). rewrite msize_cons in *. rewrite (proj2 (Z.eqb_neq _ _)) by lia.
    cbn [concat] in *. rewrite <- !app_assoc in E.
    destruct (multibulk_bulklen_step c P avail X ds a ((a ++ [13; 10]) ++ concat es' ++ F) Hbl Hr Hs Hd Ha)
      as [(av & P1 & q & -> & E1 & -> & Hq & Hsq)|[Hsh ->]]; [by rewrite <- !app_assoc| |]; cbn [obind].
    + destruct (loop_arg left a done es' (set_bulklen (set_querybuf c q) (msize a)) P1 av fuel IH Ha Eargs Hes)
        as (c' & P' & av' & -> & Hpost); [done|done|done|done|left; lia|by rewrite <- !app_assoc in *|lia|].
      exists c', P', av'. split; [done|]. destruct Hpost as [H1 H2 H3 H4 H5]. split; [done..|].
      destruct H5 as [(B1 & B2 & B3 & ->)|(R' & K & B1 & B2 & B3 & -> & B5 & B6)].
      * left. split; [done|]. split; [done|]. split; [done|]. by rewrite <- !app_assoc.
      * right. exists R', (count_bytes 36 ds ++ K). rewrite <- app_assoc in B3. rewrite <- !app_assoc, B3. done.
    + exists c, P, avail. split; [done|]. split; [done..|]. right. exists (concat ((count_bytes 36 ds ++ a ++ [13; 10]) :: es')), [].
      rewrite Hmb, Hbl, Hav. split; [|split; [lia|split; [done|split; [done|]]]].
      * rewrite <- msize_cons with (x := a). apply pend_args; [done|done|]. constructor; [by exists ds|done].
      * cbn [concat]. split; [msolve|]. unfold at_rest. cbn [Z.eqb Pos.eqb]. lia.
Qed.

End Loop.

(** * One request *)

(** The client after [processMultibulkBuffer]: the request is complete, or the
    parser waits for the rest of it. *)
Definition parsed (args : list bytes) (R avail : bytes) (c c' : client) (avail' : bytes) (ok : bool) : Prop :=
  sds_rep (querybuf c') avail' /\ reqtype c' = reqtype c /\ flags c' = flags c /\ errors c' = errors c /\
  if ok then argv c' = ObjSds <$> args /\ avail = R ++ avail'
  else exists R' K, pending args (multibulklen c') (bulklen c') (argv c') R' /\ R = K ++ R' /\ avail = K ++ avail' /\
         msize avail' < msize R' /\ at_rest (bulklen c') avail'.

Section Request.
Context {HOST : Host}.

Lemma after_loop args R avail c c' P' avail' : loop_post args R avail c c' P' avail' ->
  exists c2 ok, (q <- (if msize P' =? 0 then Some (querybuf c') else sdsrange (querybuf c') (msize P') (-1));;
    let c := set_querybuf c' q in Some (c, multibulklen c =? 0)) = Some (c2, ok) /\ parsed args R avail c c2 avail' ok.
Proof.
  intros [H1 H2 H3 H4 H5].
  assert (exists q, (if msize P' =? 0 then Some (querybuf c') else sdsrange (querybuf c') (msize P') (-1)) = Some q /\ sds_rep q avail')
    as (q & -> & Hq).
  { destruct (Z.eqb_spec (msize P') 0) as [E|E].
    - apply msize_0_nil in E as ->. eauto.
    - apply (sdsrange_drop _ P' avail' H1). }
  cbn [obind]. do 2 eexists. split; [done|]. unfold parsed. cbn [querybuf set_querybuf reqtype flags errors multibulklen argv bulklen].
  split; [done|]. split; [done|]. split; [done|]. split; [done|].
  destruct H5 as [(B1 & B2 & B3 & B4)|(R' & K & B1 & B2 & B3 & B4 & B5 & B6)].
  - rewrite B1. cbn. done.
  - rewrite (proj2 (Z.eqb_neq _ _)) by lia. by exists R', K.
Qed.

(** The loop started on the whole query buffer, and the end of the function. *)
Lemma run_loop args R avail c c' (P P' : bytes) avail' mb : multibulklen c = mb -> 0 < mb ->
  multibulk_loop (S (Z.to_nat mb)) c (msize P) = Some (inr (c', msize P')) -> loop_post args R avail c c' P' avail' ->
  exists c2 ok, (if negb (0 <? multibulklen c) then None else
    r <- multibulk_loop (S (Z.to_nat (multibulklen c))) c (msize P);;
    match r with
    | inl c => Some (c, false)
    | inr (c, pos) =>
      q <- (if pos =? 0 then Some (querybuf c) else sdsrange (querybuf c) pos (-1));;
      let c := set_querybuf c q in Some (c, multibulklen c =? 0)
    end) = Some (c2, ok) /\ parsed args R avail c c2 avail' ok.
Proof.
  intros -> Hmb E Hpost. rewrite (proj2 (Z.ltb_lt 0 _)) by lia. cbn [negb]. rewrite E. cbn [obind]. by eapply after_loop.
Qed.

(** A client that waits for the count line. *)
Lemma parsed_wait args dn es avail c : decimal dn (msize args) -> Forall2 arg_enc args es -> msize args <= 1024 * 1024 ->
  multibulklen c = 0 -> bulklen c = -1 -> argv c = [] -> sds_rep (querybuf c) avail -> msize avail < msize (count_bytes 42 dn) ->
  parsed args (count_bytes 42 dn ++ concat es) avail c c avail false.
Proof.
  intros Hd Hes Hn Emb Ebl Eav Hr Hw. pose proof (msize_nonneg args). pose proof (decimal_short dn _ Hd ltac:(lia)) as Hds.
  split; [done|]. split; [done|]. split; [done|]. split; [done|]. exists (count_bytes 42 dn ++ concat es), [].
  rewrite Emb, Ebl, Eav. split; [apply pend_start; by exists dn, es|]. split; [done|]. split; [done|]. split; [msolve|].
  unfold at_rest. cbn [Z.eqb Pos.eqb]. unfold count_bytes in Hw. msolve.
Qed.

(** Reading the count line: it is not complete, or the arguments are next. *)
Lemma multibulk_count_spec (args : list bytes) dn avail X R c : args <> [] -> msize args <= 1024 * 1024 -> decimal dn (msize args) ->
  argv c = [] -> sds_rep (querybuf c) avail -> msize avail <= REDIS_INLINE_MAX_SIZE -> avail ++ X = count_bytes 42 dn ++ R ->
  (exists avail', avail = count_bytes 42 dn ++ avail' /\ avail' ++ X = R /\
     multibulk_count c = Some (inr (set_multibulklen c (msize args), msize (count_bytes 42 dn)))) \/
  (msize avail < msize (count_bytes 42 dn) /\ multibulk_count c = Some (inl (c, false))).
Proof.
  intros Hne Hn Hd Eav Hr Hs E. pose proof (msize_nonneg args) as Hn0. unfold multibulk_count. rewrite Eav.
  rewrite bool_decide_eq_true_2 by done. cbn [negb]. destruct (sds_rep_len _ _ Hr) as [El Hlt]. rewrite El.
  pose proof (decimal_line dn _ Hd) as Hdl.
  destruct (line_cases 42 dn avail X _ ltac:(split; lia) Hdl E) as [(avail1 & -> & E1)|[Hsz Hinc]].
  - left. exists avail1. split; [done|]. split; [done|].
    destruct (load_line (querybuf c) [] 42 dn avail1 Hr) as [L1 L2]. change (msize (A := Z) []) with 0 in L1, L2. change (0 + 1) with 1 in L1.
    pose proof (strchr_line (querybuf c) [] (42 :: dn) (10 :: avail1)) as Hsl. change (msize (A := Z) []) with 0 in Hsl.
    rewrite Hsl; [|by unfold count_bytes in Hr; revert Hr; lsimpl|constructor; [split; lia|done]]. cbn [obind].
    rewrite sint32_id by msolve. rewrite Z.add_0_l, msize_cons.
    assert (msize (count_bytes 42 dn ++ avail1) = 1 + msize dn + 2 + msize avail1) as Hsz by (unfold count_bytes; msolve).
    rewrite Z.gtb_ltb, (proj2 (Z.ltb_ge _ _)) by msolve. rewrite L2. cbn [obind Z.eqb Pos.eqb negb].
    replace (1 + msize dn - 1) with (msize dn) by lia. rewrite L1. cbn [obind].
    rewrite (string2ll_line dn (msize args)) by (done || lia). cbn [obind].
    rewrite Z.gtb_ltb, (proj2 (Z.ltb_ge _ (msize args))) by lia.
    assert (0 < msize args) as Hpos by (destruct args; [done|rewrite msize_cons; pose proof (msize_nonneg args); lia]).
    rewrite (proj2 (Z.leb_gt (msize args) 0)) by lia. do 3 f_equal. unfold count_bytes. msolve.
  - right. split; [done|]. destruct Hinc as [Hno|(L & -> & HL)].
    + pose proof (strchr_no_line (querybuf c) [] avail Hr Hno) as Hsl. change (msize (A := Z) []) with 0 in Hsl. rewrite Hsl. cbn [obind].
      rewrite Z.gtb_ltb, (proj2 (Z.ltb_ge _ _)) by done. done.
    + pose proof (strchr_line (querybuf c) [] L [] Hr HL) as Hsl. change (msize (A := Z) []) with 0 in Hsl. rewrite Hsl. cbn [obind].
      rewrite sint32_id by msolve. rewrite Z.gtb_ltb, (proj2 (Z.ltb_lt _ _)) by msolve. done.
Qed.

(** Bytes consumed before the part described. *)
Lemma parsed_shift args K R avail c c' avail' ok : parsed args R avail c c' avail' ok -> parsed args (K ++ R) (K ++ avail) c c' avail' ok.
Proof.
  intros (G1 & G2 & G3 & G4 & G5). split; [done|]. split; [done|]. split; [done|]. split; [done|]. destruct ok.
  - destruct G5 as [G5 ->]. split; [done|]. by rewrite app_assoc.
  - destruct G5 as (R' & K' & K1 & -> & -> & K4). exists R', (K ++ K'). by rewrite <- !app_assoc.
Qed.

Lemma processMultibulk_spec args c avail X F R : cmd_ok args -> pending args (multibulklen c) (bulklen c) (argv c) R ->
  sds_rep (querybuf c) avail ->
  msize avail <= REDIS_INLINE_MAX_SIZE \/ REDIS_MBULK_BIG_ARG <= bulklen c /\ msize avail <= bulklen c + 2 ->
  avail ++ X = R ++ F ->
  exists c' avail' ok, processMultibulkBuffer c = Some (c', ok) /\ parsed args R avail c c' avail' ok.
Proof.
  intros (Hne & Hn & Hok) Hp Hr Hs E. unfold processMultibulkBuffer.
  remember (multibulklen c) as mb eqn:Emb. remember (bulklen c) as bl eqn:Ebl. remember (argv c) as av eqn:Eav.
  destruct Hp as [e (dn & es & Hd & Hes & ->)|done left es Ea Hl Hes|done a left es Ea Hes].
  - destruct Hs as [Hs|[Hs _]]; [|unfold REDIS_MBULK_BIG_ARG in Hs; lia]. rewrite <- app_assoc in E. cbn [Z.eqb].
    destruct (multibulk_count_spec args dn avail X _ c Hne Hn Hd (eq_sym Eav) Hr Hs E) as [(av1 & -> & E1 & ->)|[Hsz ->]]; cbn [obind].
    + destruct (loop_args args X F args Hok [] es (set_multibulklen c (msize args)) (count_bytes 42 dn) av1 (Datatypes.S (Z.to_nat (msize args))))
        as (c' & P' & av' & El & Hpost); [done|done|done|done|exact (eq_sym Eav)|done|done|done|unfold msize; lia|].
      destruct (run_loop args (concat es) av1 (set_multibulklen c (msize args)) c' (count_bytes 42 dn) P' av' (msize args) eq_refl) as (c2 & ok & E2 & Hpar);
        [destruct args; [done|rewrite msize_cons; pose proof (msize_nonneg args); lia]|done|done|].
      exists c2, av', ok. split; [exact E2|]. by apply parsed_shift.
    + exists c, avail, false. split; [done|]. by apply parsed_wait.
  - assert (0 < msize left) as Hpos by (destruct left; [done|rewrite msize_cons; pose proof (msize_nonneg left); lia]).
    destruct Hs as [Hs|[Hs _]]; [|unfold REDIS_MBULK_BIG_ARG in Hs; lia].
    rewrite (proj2 (Z.eqb_neq _ _)) by lia. cbn [obind]. rewrite <- Emb.
    assert (Forall (fun a => msize a <= 512 * 1024 * 1024) left) as Hok'.
    { rewrite Ea in Hok. by apply list.Forall_app in Hok as [_ ?]. }
    destruct (loop_args args X F left Hok' done es c [] avail (Datatypes.S (Z.to_nat (msize left)))) as (c' & P' & av' & El & Hpost);
      [done..|unfold msize; lia|].
    destruct (run_loop args (concat es) avail c c' [] P' av' (msize left) (eq_sym Emb) Hpos El Hpost) as (c2 & ok & E2 & Hpar).
    rewrite <- Emb in E2. exists c2, av', ok. split; [exact E2|done].
  - pose proof (msize_nonneg left). rewrite (proj2 (Z.eqb_neq _ _)) by lia. cbn [obind]. rewrite <- Emb.
    rewrite Ea in Hok. apply list.Forall_app in Hok as [_ Hok]. apply list.Forall_cons in Hok as [Ha Hok].
    pose proof (loop_args args X F left Hok) as IH. pose proof (msize_nonneg a).
    destruct (loop_arg args X F left a done es c [] avail (Z.to_nat (1 + msize left)) IH Ha Ea Hes (eq_sym Emb) (eq_sym Ebl) (eq_sym Eav) Hr)
      as (c' & P' & av' & El & Hpost); [destruct Hs as [Hs|[Hs1 Hs2]]; [by left|by right]|done|unfold msize; lia|].
    destruct (run_loop args ((a ++ [13; 10]) ++ concat es) avail c c' [] P' av' (1 + msize left) (eq_sym Emb)) as (c2 & ok & E2 & Hpar);
      [lia| |done|].
    + cbn [multibulk_loop]. rewrite <- Emb, (proj2 (Z.eqb_neq _ _)) by lia. unfold multibulk_bulklen.
      rewrite <- Ebl, (proj2 (Z.eqb_neq _ _)) by lia. cbn [negb obind]. exact El.
    + rewrite <- Emb in E2. exists c2, av', ok. split; [exact E2|done].
Qed.

End Request.

(** * A stream of requests *)

Inductive stream : list (list bytes) -> bytes -> Prop :=
  | stream_nil : stream [] []
  | stream_cons args more e l : cmd_enc args e -> stream more l -> stream (args :: more) (e ++ l).

Lemma stream_snoc done args K e : stream done K -> cmd_enc args e -> stream (done ++ [args]) (K ++ e).
Proof.
  induction 1 as [|a more e' l Ha Hs IH]; intros He; cbn [app].
  - rewrite <- (app_nil_r e). by apply stream_cons; [|constructor].
  - rewrite <- app_assoc. apply stream_cons; [done|by apply IH].
Qed.

(** The parser fields of a client that has not seen any byte of a request. *)
Definition fresh_request (c : client) : Prop := reqtype c = 0 /\ multibulklen c = 0 /\ bulklen c = -1 /\ argv c = [].

(** The client has consumed [K] of the first request of [rest]; [R] is the rest of this request,
    [avail] are the bytes in the query buffer and [net] those not read yet. *)
Definition position (rest : list (list bytes)) (c : client) (K R avail net : bytes) : Prop :=
  match rest with
  | [] => K = [] /\ R = [] /\ avail = [] /\ net = [] /\ fresh_request c
  | args :: more => exists l, cmd_enc args (K ++ R) /\ stream more l /\ avail ++ net = R ++ l /\
      pending args (multibulklen c) (bulklen c) (argv c) R /\ (reqtype c = REDIS_REQ_MULTIBULK \/ fresh_request c)
  end.

(** The first request is not complete in the query buffer. *)
Definition settled (rest : list (list bytes)) (c : client) (R avail : bytes) : Prop :=
  rest = [] \/ msize avail < msize R /\ at_rest (bulklen c) avail.

Definition buffer_bound (c : client) (avail : bytes) : Prop :=
  msize avail <= REDIS_INLINE_MAX_SIZE \/ REDIS_MBULK_BIG_ARG <= bulklen c /\ msize avail <= bulklen c + 2.

Lemma cmd_enc_head args e : cmd_enc args e -> exists e', e = 42 :: e'.
Proof. intros (dn & es & _ & _ & ->). unfold count_bytes. eauto. Qed.

Lemma arg_enc_size a e : arg_enc a e -> 5 <= msize e.
Proof. intros (ds & _ & ->). unfold bulk_bytes, count_bytes. msolve. Qed.

Lemma pending_size args mb bl av R : cmd_ok args -> pending args mb bl av R ->
  0 < msize R /\ 0 <= mb /\ (bl = -1 \/ 0 < mb /\ 0 <= bl <= 512 * 1024 * 1024 /\ bl + 2 <= msize R).
Proof.
  intros (_ & _ & Hok) [e He|done left es Ea Hl Hes|done a left es Ea Hes].
  - destruct (cmd_enc_head args e He) as (e' & ->). split; [msolve|]. lia.
  - destruct Hes as [|a e left es He Hes]; [done|]. apply arg_enc_size in He. cbn [concat].
    split; [msolve|]. split; [apply msize_nonneg|lia].
  - rewrite Ea in Hok. apply list.Forall_app in Hok as [_ Hok]. apply list.Forall_cons in Hok as [Ha _].
    pose proof (msize_nonneg left). pose proof (msize_nonneg a). split; [msolve|]. split; [lia|]. right. split; [lia|]. split; [lia|msolve].
Qed.

Section Input.
Context {HOST : Host} {srv : Type}.
Variable processCommand : srv -> client -> option (srv * client * bool).
Variable exec : srv -> list bytes -> srv.
Variable cmds : list (list bytes).

(** The commands of the stream change the server and leave the client as it is. *)
Definition commands_ok : Prop := forall s c args, args ∈ cmds -> argv c = ObjSds <$> args -> processCommand s c = Some (exec s args, c, true).

Definition flags_ok (f : client_flags) : Prop := BLOCKED f = false /\ CLOSE_AFTER_REPLY f = false.

Lemma resetClient_fresh c : fresh_request (resetClient c) /\ querybuf (resetClient c) = querybuf c /\ errors (resetClient c) = errors c /\
  (flags_ok (flags c) -> flags_ok (flags (resetClient c))).
Proof. unfold resetClient. destruct (_ && _); done. Qed.

(** The type of the request is known from its first byte. *)
Lemma request_type args c K R avail net l : position (args :: l) c K R avail net -> sds_rep (querybuf c) avail -> avail <> [] ->
  exists c1, (if reqtype c =? 0 then
      x <- load8 (buf (querybuf c)) 0;;
      Some (set_reqtype c (if x =? 42 then REDIS_REQ_MULTIBULK else REDIS_REQ_INLINE)) else Some c) = Some c1 /\
    c1 = set_reqtype c REDIS_REQ_MULTIBULK.
Proof.
  intros (l' & He & _ & E & Hp & [Ht|(Ht & Emb & Ebl & Eav)]) Hr Hne; rewrite Ht; cbn [Z.eqb Pos.eqb].
  - exists c. split; [done|]. destruct c. cbn in Ht. by rewrite Ht.
  - destruct (sds_rep_buf _ _ Hr) as (rest & Eb). destruct avail as [|x avail]; [done|]. rewrite Eb.
    rewrite (load8_at [] x (avail ++ 0 :: rest)) by done. cbn [obind]. eexists. split; [done|].
    assert (x = 42) as ->; [|done]. remember (multibulklen c) as mb eqn:Em. destruct Hp as [e He'|done left es Ea Hl Hes|done a left es Ea Hes].
    + destruct (cmd_enc_head _ _ He') as (e' & ->). by injection E.
    + destruct left; [done|]. rewrite msize_cons in Emb. pose proof (msize_nonneg left). lia.
    + pose proof (msize_nonneg left). lia.
Qed.

Lemma next_position more l c avail net : stream more l -> avail ++ net = l -> fresh_request c -> exists R, position more c [] R avail net.
Proof.
  intros Hst E Hfr. destruct Hst as [|args more e l He Hst].
  - apply app_eq_nil in E as [-> ->]. by exists [].
  - exists e, l. split; [done|]. split; [done|]. split; [done|]. destruct Hfr as (H1 & H2 & H3 & H4). rewrite H2, H3, H4.
    split; [by apply pend_start|]. by right.
Qed.

Lemma input_loop : commands_ok -> Forall cmd_ok cmds -> forall rest fuel done s c K R avail net,
  cmds = done ++ rest -> position rest c K R avail net -> sds_rep (querybuf c) avail -> buffer_bound c avail -> flags_ok (flags c) ->
  (length avail < fuel)%nat ->
  exists done' rest' c' K' R' avail', processInputBuffer_loop processCommand false fuel s c = Some (foldl exec s done', c') /\
    rest = done' ++ rest' /\ position rest' c' K' R' avail' net /\ settled rest' c' R' avail' /\ sds_rep (querybuf c') avail' /\
    flags_ok (flags c') /\ errors c' = errors c /\ exists KK, stream done' KK /\ K ++ avail = KK ++ K' ++ avail'.
Proof.
  intros Hcmd Hok. induction rest as [|args more IH]; intros [|fuel] done s c K R avail net Ec Hpos Hr Hb Hf Hfuel; try lia;
    destruct (sds_rep_len _ _ Hr) as [El Hlt]; cbn [processInputBuffer_loop]; rewrite El.
  { destruct Hpos as (-> & -> & -> & -> & Hfr). rewrite msize_nil. cbn [Z.eqb]. exists [], [], c, [], [], [].
    split; [done|]. split; [done|]. split; [done|]. split; [by left|]. split; [done|]. split; [done|]. split; [done|].
    exists []. split; [constructor|done]. }
  assert (cmd_ok args) as Hargs by (rewrite Ec in Hok; apply list.Forall_app in Hok as [_ Hok]; by apply list.Forall_cons in Hok as [? _]).
  pose proof Hpos as (l & He & Hst & E & Hp & Ht). destruct (pending_size _ _ _ _ _ Hargs Hp) as (HR & Hmb & Hbl).
  destruct (Z.eqb_spec (msize avail) 0) as [E0|E0].
  { apply msize_0_nil in E0 as ->. exists [], (args :: more), c, K, R, []. split; [done|]. split; [done|]. split; [done|].
    split; [right; split; [done|]; unfold at_rest; destruct (Z.eqb_spec (bulklen c) (-1)); rewrite msize_nil; lia|].
    split; [done|]. split; [done|]. split; [done|]. exists []. split; [constructor|done]. }
  rewrite andb_false_r. destruct Hf as [Hf1 Hf2]. rewrite Hf1, Hf2.
  destruct (request_type args c K R avail net more Hpos Hr) as (c1 & -> & ->); [by intros ->|]. cbn [obind reqtype set_reqtype Z.eqb Pos.eqb].
  destruct (processMultibulk_spec args (set_reqtype c REDIS_REQ_MULTIBULK) avail net l R Hargs Hp Hr Hb E) as (c2 & avail2 & ok & -> & Hpar).
  change (REDIS_REQ_MULTIBULK =? REDIS_REQ_INLINE) with false. change (REDIS_REQ_MULTIBULK =? REDIS_REQ_MULTIBULK) with true.
  cbn [obind]. destruct Hpar as (G1 & G2 & G3 & G4 & G5). cbn [reqtype flags errors set_reqtype] in *. destruct ok; cbn [negb].
  - destruct G5 as [Gav ->]. rewrite bool_decide_eq_false_2.
    2: { rewrite Gav. destruct args; [by destruct Hargs|done]. }
    rewrite (Hcmd s c2 args) by (done || (rewrite Ec; apply elem_of_app; right; apply list_elem_of_here)). cbn [obind].
    destruct (resetClient_fresh c2) as (Hfr & Eq & Ee & Hfl). rewrite <- app_assoc in E. apply app_inv_head in E.
    destruct (next_position more l (resetClient c2) avail2 net Hst E Hfr) as (R2 & Hpos2).
    destruct (IH fuel (done ++ [args]) (exec s args) (resetClient c2) [] R2 avail2 net) as (done' & rest' & c' & K' & R' & avail' & -> & -> & H1 & H2 & H3 & H4 & H5 & KK & H6 & H7).
    + by rewrite Ec, <- app_assoc.
    + done.
    + by rewrite Eq.
    + left. pose proof (msize_nonneg avail2). unfold buffer_bound, REDIS_INLINE_MAX_SIZE, REDIS_MBULK_BIG_ARG in *. rewrite msize_app in Hb. lia.
    + apply Hfl. by rewrite G3.
    + rewrite length_app in Hfuel. unfold msize in HR. lia.
    + exists (args :: done'), rest', c', K', R', avail'. split; [done|]. split; [done|]. split; [done|]. split; [done|]. split; [done|].
      split; [done|]. split; [by rewrite H5, Ee|]. exists ((K ++ R) ++ KK). split; [by apply stream_cons|].
      rewrite <- !app_assoc. cbn [app] in H7. by rewrite H7.
  - destruct G5 as (R' & KK & B1 & -> & -> & B4 & B5).
    exists [], (args :: more), c2, (K ++ KK), R', avail2. split; [done|]. split; [done|]. split.
    { exists l. rewrite <- app_assoc. split; [done|]. split; [done|]. rewrite <- !app_assoc in E. apply app_inv_head in E.
      split; [done|]. split; [done|]. by left. }
    split; [right; done|]. split; [done|]. split; [by rewrite G3|]. split; [done|]. exists []. split; [constructor|]. by rewrite <- app_assoc.
Qed.

(** ** Reads *)

Variable maxlen : Z.

(** A read event on a connection with the bytes [net] still to come. *)
Inductive net_step : srv * client * bytes -> srv * client * bytes -> Prop :=
  | net_read s c chunk net s' c' : chunk <> [] -> msize chunk <= client_readlen c ->
      readQueryFromClient processCommand false maxlen s c (ReadData chunk) = Some (s', Some c') ->
      net_step (s, c, chunk ++ net) (s', c', net).

Lemma net_step_read s c chunk net s' c' : net_step (s, c, chunk ++ net) (s', c', net) ->
  readQueryFromClient processCommand false maxlen s c (ReadData chunk) = Some (s', Some c').
Proof. inversion 1; subst. match goal with E : _ ++ net = _ ++ net |- _ => apply app_inv_tail in E as <- end. done. Qed.

(** What holds between two read events: [done] has been executed. *)
Definition net_inv (s0 : srv) (L : bytes) (errs : list protocol_error) (st : srv * client * bytes) : Prop :=
  let '(s, c, net) := st in
  exists done rest K0 K R avail, cmds = done ++ rest /\ s = foldl exec s0 done /\ stream done K0 /\
    L = K0 ++ K ++ avail ++ net /\ position rest c K R avail net /\ settled rest c R avail /\ sds_rep (querybuf c) avail /\
    flags_ok (flags c) /\ errors c = errs.

(** The size of the next read, and of the query buffer after it. *)
Lemma readlen_bounds c K R avail net args more : cmd_ok args -> position (args :: more) c K R avail net -> settled (args :: more) c R avail ->
  sds_rep (querybuf c) avail -> 1 <= client_readlen c <= REDIS_IOBUF_LEN /\
  (msize avail + client_readlen c <= REDIS_INLINE_MAX_SIZE \/
   REDIS_MBULK_BIG_ARG <= bulklen c /\ msize avail + client_readlen c <= bulklen c + 2) /\
  msize avail + client_readlen c <= 512 * 1024 * 1024 + REDIS_INLINE_MAX_SIZE.
Proof.
  intros Hok (l & _ & _ & _ & Hp & Ht) [[=]|[Hlt Hrest]] Hr. destruct (sds_rep_len _ _ Hr) as [El Hb].
  destruct (pending_size _ _ _ _ _ Hok Hp) as (HR & Hmb & Hbl). pose proof (msize_nonneg avail).
  unfold client_readlen, at_rest, REDIS_IOBUF_LEN, REDIS_MBULK_BIG_ARG, REDIS_INLINE_MAX_SIZE in *. rewrite El.
  destruct Hbl as [Ebl|(Hmb2 & Hbl & _)].
  - rewrite Ebl in *. cbn [Z.eqb Pos.eqb negb] in *. rewrite andb_false_r. cbn [andb]. lia.
  - rewrite (proj2 (Z.eqb_neq (bulklen c) (-1))) in * by lia. rewrite (proj2 (Z.eqb_neq (multibulklen c) 0)) by lia. cbn [negb].
    assert (reqtype c = REDIS_REQ_MULTIBULK) as -> by (destruct Ht as [?|(_ & ? & _)]; [done|lia]).
    change (REDIS_REQ_MULTIBULK =? REDIS_REQ_MULTIBULK) with true. cbn [andb]. rewrite Z.geb_leb.
    destruct (Z.leb_spec (1024 * 32) (bulklen c)) as [Hbig|Hsmall]; [|lia].
    rewrite (uint_id 32), (uint_id 64), sint32_id by lia. destruct (Z.ltb_spec (bulklen c + 2 - msize avail) (1024 * 16)); lia.
Qed.

Lemma read_event : commands_ok -> Forall cmd_ok cmds -> 512 * 1024 * 1024 + REDIS_INLINE_MAX_SIZE <= maxlen ->
  forall s0 L errs s c chunk net, net_inv s0 L errs (s, c, chunk ++ net) -> chunk <> [] -> msize chunk <= client_readlen c ->
  exists s' c', readQueryFromClient processCommand false maxlen s c (ReadData chunk) = Some (s', Some c') /\ net_inv s0 L errs (s', c', net).
Proof.
  intros Hcmd Hok Hmax s0 L errs s c chunk net (done & rest & K0 & K & R & avail & Ec & -> & Hst & EL & Hpos & Hset & Hr & Hf & He) Hne Hch.
  destruct rest as [|args more]; [destruct Hpos as (_ & _ & _ & Hnil & _); by destruct chunk|].
  assert (cmd_ok args) as Hargs by (rewrite Ec in Hok; apply list.Forall_app in Hok as [_ Hk]; by apply list.Forall_cons in Hk as [? _]).
  destruct (readlen_bounds c K R avail (chunk ++ net) args more Hargs Hpos Hset Hr) as (H1 & H2 & H3).
  unfold REDIS_IOBUF_LEN, REDIS_INLINE_MAX_SIZE in *.
  destruct (sds_read_rep (querybuf c) avail (client_readlen c) chunk Hr Hch) as (q & E & Hq); [lia|]. unfold sds_read in E.
  unfold readQueryFromClient. destruct chunk as [|x chunk]; [done|]. set (ch := x :: chunk) in *.
  rewrite (proj2 (Z.ltb_ge _ _)) by lia.
  destruct (store (buf (sdsMakeRoomFor (querybuf c) (client_readlen c))) (sdslen (querybuf c)) ch) as [b|]; [|done]. cbn [obind] in E |- *.
  rewrite E. cbn [obind querybuf set_querybuf]. destruct (sds_rep_len _ _ Hq) as [Elq _]. rewrite Elq. pose proof (msize_app avail ch) as Happ.
  rewrite Z.gtb_ltb, (proj2 (Z.ltb_ge _ _)) by lia. unfold processInputBuffer. cbn [querybuf set_querybuf]. rewrite Elq.
  destruct (input_loop Hcmd Hok (args :: more) (Datatypes.S (Z.to_nat (msize (avail ++ ch)))) done (foldl exec s0 done) (set_querybuf c q) K R (avail ++ ch) net)
    as (done' & rest' & c' & K' & R' & avail' & -> & E2 & G1 & G2 & G3 & G4 & G5 & KK & G6 & G7).
  - done.
  - destruct Hpos as (l & P1 & P2 & P3 & P4 & P5). exists l. rewrite <- app_assoc. done.
  - done.
  - unfold buffer_bound, REDIS_INLINE_MAX_SIZE. cbn [bulklen set_querybuf]. lia.
  - done.
  - unfold msize. lia.
  - cbn [obind]. do 2 eexists. split; [done|]. exists (done ++ done'), rest', (K0 ++ KK), K', R', avail'.
    split; [by rewrite Ec, E2, <- app_assoc|]. split; [by rewrite foldl_app|]. split.
    + clear -Hst G6. induction Hst as [|a m e l He Hs IH]; [done|]. cbn [app]. rewrite <- app_assoc. by apply stream_cons.
    + rewrite <- He. split; [|done]. rewrite EL. rewrite (app_assoc avail), (app_assoc K), G7. by rewrite <- !app_assoc.
Qed.

Lemma net_inv_reachable : commands_ok -> Forall cmd_ok cmds -> 512 * 1024 * 1024 + REDIS_INLINE_MAX_SIZE <= maxlen ->
  forall s0 L errs st st', rtc net_step st st' -> net_inv s0 L errs st -> net_inv s0 L errs st'.
Proof.
  intros Hcmd Hok Hmax s0 L errs st st'. induction 1 as [st|st1 st2 st3 [s1 c1 chunk net1 s2 c2 Hne Hch E] _ IH]; [done|].
  intros Hst1. apply IH. destruct (read_event Hcmd Hok Hmax s0 L errs s1 c1 chunk net1 Hst1 Hne Hch) as (s' & c' & E' & Hinv).
  rewrite E in E'. by injection E' as -> ->.
Qed.

(** A client that has not read anything. *)
Lemma net_inv_start s0 L c : Forall cmd_ok cmds -> stream cmds L -> fresh_request c -> sds_rep (querybuf c) [] -> flags_ok (flags c) -> net_inv s0 L (errors c) (s0, c, L).
Proof.
  intros Hok HL Hf Hq Hfl. destruct (next_position cmds L c [] L HL eq_refl Hf) as (R & Hpos). exists [], cmds, [], [], R, [].
  split; [done|]. split; [done|]. split; [constructor|]. split; [done|]. split; [done|]. split; [|done].
  destruct HL as [|args more e l He Hst]; [by left|]. right. destruct Hpos as (l' & P1 & _ & _ & P4 & _). apply list.Forall_cons in Hok as [Ho _].
  split; [by destruct (pending_size _ _ _ _ _ Ho P4)|]. destruct Hf as (_ & _ & -> & _). by vm_compute.
Qed.

Lemma net_inv_done s0 L errs s c : net_inv s0 L errs (s, c, []) -> s = foldl exec s0 cmds.
Proof.
  intros (done & rest & K0 & K & R & avail & Ec & Es & _ & _ & Hpos & Hset & _). destruct rest as [|args more]; [by rewrite Ec, app_nil_r|]. exfalso. destruct Hpos as (l & _ & _ & E & _ & _).
  destruct Hset as [[=]|[Hlt _]]. apply (f_equal msize) in E. rewrite app_nil_r in E. msolve.
Qed.

(** While there are bytes to come, the parser waits for a part of a request. *)
Lemma net_inv_readlen s0 L errs s c net : Forall cmd_ok cmds -> net_inv s0 L errs (s, c, net) -> net <> [] -> 1 <= client_readlen c.
Proof.
  intros Hok (done & rest & K0 & K & R & avail & Ec & Es & _ & _ & Hpos & Hset & Hr & _) Hne. destruct rest as [|args more]; [by destruct Hpos as (_ & _ & _ & -> & _)|].
  rewrite Ec in Hok. apply list.Forall_app in Hok as [_ Hk]. apply list.Forall_cons in Hk as [Ha _]. by destruct (readlen_bounds c K R avail net args more Ha Hpos Hset Hr) as ([H1 _] & _).
Qed.

End Input.

Lemma stream_app a b A B : stream a A -> stream b B -> stream (a ++ b) (A ++ B).
Proof. intros Ha Hb. induction Ha as [|args more e l He _ IH]; [done|]. cbn [app]. rewrite <- app_assoc. by apply stream_cons. Qed.

(** More requests come. *)
Lemma net_inv_grow {srv} (exec : srv -> list bytes -> srv) cmds cmds' (s0 : srv) L L' errs s c net : net_inv exec cmds s0 L errs (s, c, net) -> Forall cmd_ok cmds' -> stream cmds' L' ->
  net_inv exec (cmds ++ cmds') s0 (L ++ L') errs (s, c, net ++ L').
Proof.
  intros (done & rest & K0 & K & R & avail & Ec & Es & Hst & EL & Hpos & Hset & Hr & Hf & He) Hok HL. destruct rest as [|args more].
  - destruct Hpos as (-> & -> & -> & -> & Hfr). destruct (next_position cmds' L' c [] L' HL eq_refl Hfr) as (R & Hpos). exists done, cmds', K0, [], R, []. rewrite app_nil_r in Ec.
    split; [by rewrite Ec|]. split; [done|]. split; [done|]. split; [by rewrite EL, !app_nil_r|]. split; [done|]. split; [|done].
    destruct HL as [|args more e l He' Hst']; [by left|]. right. destruct Hpos as (l' & P1 & _ & _ & P4 & _). apply list.Forall_cons in Hok as [Ho _].
    split; [by destruct (pending_size _ _ _ _ _ Ho P4)|]. destruct Hfr as (_ & _ & -> & _). by vm_compute.
  - exists done, (args :: more ++ cmds'), K0, K, R, avail. split; [by rewrite Ec, <- app_assoc|]. split; [done|]. split; [done|]. split; [by rewrite EL, <- !app_assoc|].
    split; [|split; [right; by destruct Hset as [[=]|Hset]|done]]. destruct Hpos as (l & P1 & P2 & P3 & P4). exists (l ++ L'). split; [done|]. split; [by apply stream_app|].
    split; [by rewrite app_assoc, P3, app_assoc|done].
Qed.

(** * Properties *)

(** A new client. *)
Definition newClient (q : sdshdr) : client := mkClient q 0 0 (-1) [] (mkFlags false false false false false false) [].


(** "*1\r\n$4\r\nPING\r\n*2\r\n$3\r\nGET\r\n$1\r\nk\r\n", read in pieces of 7 and 29 bytes. *)
Definition example_cmds : list (list bytes) := [[[80; 73; 78; 71]]; [[71; 69; 84]; [107]]].

Definition example_stream : bytes :=
  [42; 49; 13; 10; 36; 52; 13; 10; 80; 73; 78; 71; 13; 10] ++
  [42; 50; 13; 10; 36; 51; 13; 10; 71; 69; 84; 13; 10; 36; 49; 13; 10; 107; 13; 10] ++ [].

Definition log_command (s : list (list bytes)) (c : client) : option (list (list bytes) * client * bool) :=
  Some (s ++ [(fun o => match o with ObjSds b => b | ObjInt _ => [] end) <$> argv c], c, true).

Lemma decimal_digit d v : 48 <= d <= 57 -> d - 48 = v -> decimal [d] v.
Proof. intros Hd <-. left. split; [split; [by apply Forall_singleton|done]|]. cbn [dec_value]. lia. Qed.

Lemma example_cmds_stream : stream example_cmds example_stream.
Proof.
  apply stream_cons; [|apply stream_cons; [|constructor]].
  - exists [49], [[36; 52; 13; 10; 80; 73; 78; 71; 13; 10]]. split; [by apply decimal_digit|]. split; [|done].
    repeat constructor. exists [52]. split; [by apply decimal_digit|done].
  - exists [50], [[36; 51; 13; 10; 71; 69; 84; 13; 10]; [36; 49; 13; 10; 107; 13; 10]]. split; [by apply decimal_digit|]. split; [|done].
    repeat constructor; [exists [51]|exists [49]]; (split; [by apply decimal_digit|done]).
Qed.

