(* ===== verification/NetworkingInline.v ===== *)
(** Inline requests: a line of quoted arguments, ended by "\r\n" or "\n". *)

From S2P Require Import Prelude Robj Sds SdsRep SdsArgs Rdb RdbSpec Networking NetworkingSpec.

(** * Lines *)

(** The bytes of a line before its end. *)
Definition text_byte (c : Z) : Prop := c <> 10 /\ c <> 0 /\ c <> 13.

(** Quoted arguments with the blanks before them, and the blanks at the end. *)
Fixpoint text_of (items : list (bytes * bytes)) (tail : bytes) : bytes :=
  match items with
  | [] => tail
  | (b, a) :: items => b ++ quoted a ++ text_of items tail
  end.

Definition inline_ok (items : list (bytes * bytes)) (tail : bytes) : Prop :=
  items_ok items tail /\ Forall (fun i => Forall text_byte i.1) items /\ Forall text_byte tail /\
  Forall (fun i => i.1 <> []) (list.tail items).

Lemma line_of_text items tail : line_of items tail = text_of items tail ++ [0].
Proof. induction items as [|[b a] items IH]; [done|]. cbn [line_of text_of]. by rewrite IH, <- !app_assoc. Qed.

Lemma hex_char_text d : 0 <= d < 16 -> text_byte (hex_char d).
Proof. unfold text_byte, hex_char. bcase; lia. Qed.

Lemma repr_of_text c : is_byte c -> Forall text_byte (repr_of c).
Proof.
  unfold is_byte. intros Hc. unfold repr_of. destruct ((c =? 92) || (c =? 34)) eqn:E.
  { apply orb_true_iff in E. repeat constructor; destruct E as [E|E]; apply Z.eqb_eq in E; lia. }
  repeat (case_match; [repeat constructor; lia|]). destruct (isprint_spec c).
  - repeat constructor; lia.
  - pose proof (Z.div_lt_upper_bound c 16 16). pose proof (Z.div_pos c 16). pose proof (Z.mod_pos_bound c 16).
    repeat constructor; try lia; apply hex_char_text; lia.
Qed.

Lemma quoted_text bs : Forall is_byte bs -> Forall text_byte (quoted bs).
Proof.
  intros Hb. unfold quoted. constructor; [unfold text_byte; lia|]. apply list.Forall_app. split.
  - induction Hb as [|c bs Hc Hb IH]; [constructor|]. rewrite fmap_cons. cbn [concat]. apply list.Forall_app.
    split; [by apply repr_of_text|done].
  - repeat constructor; unfold text_byte; lia.
Qed.

Lemma text_of_text items tail : inline_ok items tail -> Forall text_byte (text_of items tail).
Proof.
  intros ((Hi & _) & Hb & Ht & _). induction items as [|[b a] items IH]; [done|]. cbn [text_of].
  apply list.Forall_cons in Hi as [(_ & Ha & _) Hi]. apply list.Forall_cons in Hb as [Hb1 Hb]. cbn [fst snd] in *.
  apply list.Forall_app. split; [done|]. apply list.Forall_app. split; [by apply quoted_text|by apply IH].
Qed.

(** * The request *)

Section Inline.
Context {HOST : Host}.

Lemma strchr_lf q text r : sds_rep q (text ++ 10 :: r) -> Forall (fun c => c <> 10 /\ c <> 0) text ->
  strchr_at (buf q) 0 10 = Some (Some (msize text)).
Proof.
  intros (rest & Eb & _) Ht. unfold strchr_at. rewrite Eb, <- app_assoc. cbn [app].
  apply (strchr_found _ [] text 10 (r ++ 0 :: rest)); [done|done|]. rewrite length_app. cbn [length]. lia.
Qed.

Lemma inline_args_spec toks args : Forall2 sds_rep toks args ->
  inline_args toks = Some (ObjSds <$> filter (fun a => a <> []) args).
Proof.
  induction 1 as [|t a toks args Hr _ IH]; [done|]. cbn [inline_args]. rewrite IH. cbn [obind].
  destruct (sds_rep_len _ _ Hr) as [-> _]. destruct a as [|x a]; [done|].
  rewrite (proj2 (Z.eqb_neq _ 0)) by msolve. cbn [negb]. rewrite (obj_of_sds_rep _ _ Hr). cbn [obind].
  rewrite filter_cons_True; done.
Qed.

(** The copy of the line that is split. *)
Lemma sdsnewlen_exact (bs t : bytes) : msize bs < 2 ^ 31 - 1 -> exists s, sdsnewlen (Some (bs ++ t)) (msize bs) = Some s /\ buf s = bs ++ [0].
Proof.
  intros Hb. destruct (sdsnewlen_rep bs t Hb) as (s & E & (rest & Eb & _ & Ef & _) & Hf). exists s. split; [done|].
  rewrite Ef in Hf. apply msize_0_nil in Hf. by subst.
Qed.

(** [eol] is the part of the line before its "\n". *)
Lemma inline_spec c items tail (eol r : bytes) : inline_ok items tail -> eol = [] \/ eol = [13] ->
  sds_rep (querybuf c) (text_of items tail ++ eol ++ 10 :: r) ->
  exists q, processInlineBuffer c = Some (set_argv (set_querybuf c q) (ObjSds <$> filter (fun a => a <> []) (snd <$> items)), true) /\
    sds_rep q (drop (Z.to_nat (1 - msize eol)) r).
Proof.
  intros Hok Heol Hr. set (text := text_of items tail) in *. pose proof (text_of_text items tail Hok) as Ht. fold text in Ht.
  destruct (sds_rep_len _ _ Hr) as [_ Hlen]. rewrite !msize_app, msize_cons in Hlen. pose proof (msize_nonneg text). pose proof (msize_nonneg r).
  assert (0 <= msize eol <= 1) by (destruct Heol as [-> | ->]; vm_compute; split; congruence).
  unfold processInlineBuffer. rewrite (strchr_lf _ (text ++ eol) r); [|by rewrite <- app_assoc|].
  2: { apply list.Forall_app. split; [by eapply list.Forall_impl; [exact Ht|intros ? (? & ? & ?)]|]. destruct Heol as [-> | ->]; repeat constructor; lia. }
  cbn [obind]. destruct (sds_rep_buf _ _ Hr) as (fr & Eb).
  replace (if msize (text ++ eol) =? 0 then Some (msize (text ++ eol)) else _) with (Some (msize text)).
  2: { destruct Heol as [-> | ->].
    - rewrite app_nil_r. destruct (Z.eqb_spec (msize text) 0) as [|Hne]; [done|].
      destruct (exists_last (l := text)) as (t & x & Et); [by intros ->|]. rewrite Et in Ht |- *. apply list.Forall_app in Ht as [_ Hx].
      apply list.Forall_cons in Hx as [(_ & _ & Hx) _]. rewrite (load8_at t x (10 :: r ++ 0 :: fr)); [|by rewrite Eb, Et, <- !app_assoc|msolve].
      cbn [obind]. by rewrite (proj2 (Z.eqb_neq x 13)).
    - rewrite (proj2 (Z.eqb_neq _ 0)) by msolve. rewrite (load8_at text 13 (10 :: r ++ 0 :: fr)); [|by rewrite Eb, <- !app_assoc|msolve].
      cbn [obind Z.eqb Pos.eqb]. f_equal. msolve. }
  cbn [obind]. rewrite Eb, <- app_assoc. destruct (sdsnewlen_exact text ((eol ++ 10 :: r) ++ 0 :: fr)) as (aux & -> & Ea); [lia|]. cbn [obind]. rewrite Ea.
  unfold text. rewrite <- line_of_text. destruct (sdssplitargs_line items tail) as (toks & -> & Htoks); [apply Hok|apply Hok|]. cbn [obind]. fold text.
  rewrite sint32_id by lia. destruct (sdsrange_skip _ _ (msize text + 2) Hr) as (q & -> & Hq); [lia|]. cbn [obind].
  rewrite (inline_args_spec _ _ Htoks). cbn [obind]. exists q. split; [done|].
  replace (drop (Z.to_nat (1 - msize eol)) r) with (drop (Z.to_nat (msize text + 2)) (text ++ eol ++ 10 :: r)); [done|].
  replace (Z.to_nat (msize text + 2)) with (length (text ++ eol ++ [10%Z]) + Z.to_nat (1 - msize eol))%nat
    by (rewrite !length_app; cbn [length]; unfold msize in *; lia).
  change (10 :: r) with ([10] ++ r). rewrite !app_assoc. rewrite <- drop_drop, <- (app_assoc text), drop_app_length. done.
Qed.

End Inline.

(** * Properties *)

(** An inline request ended by "\r\n" is split into its quoted arguments, the empty ones left
    out, and the rest of the query buffer stays for the next request. After a line ended by "\n"
    only, which the parser accepts as well, the first byte of the next request is lost with it. *)
Theorem inline_request_parsed {HOST : Host} (c : client) (items : list (bytes * bytes)) (tail r : bytes) (Hok : inline_ok items tail) :
  (sds_rep (querybuf c) (text_of items tail ++ 13 :: 10 :: r) ->
    exists q, processInlineBuffer c = Some (set_argv (set_querybuf c q) (ObjSds <$> filter (fun a => a <> []) (snd <$> items)), true) /\
      sds_rep q r) /\
  (sds_rep (querybuf c) (text_of items tail ++ 10 :: r) ->
    exists q, processInlineBuffer c = Some (set_argv (set_querybuf c q) (ObjSds <$> filter (fun a => a <> []) (snd <$> items)), true) /\
      sds_rep q (drop 1 r)).
Proof.
  split; intros Hr; [apply (inline_spec c items tail [13] r)|apply (inline_spec c items tail [] r)]; auto.
Qed.

(** "PING" in quotes, and a second line "PING" that becomes "ING". *)
Lemma inline_request_parsed_witness :
  let c := newClient (MkSds 12 0 ([34; 80; 73; 78; 71; 34; 10; 80; 73; 78; 71; 10] ++ [0])) in
  exists q, @processInlineBuffer le_host c = Some (set_argv (set_querybuf c q) [ObjSds [80; 73; 78; 71]], true) /\ sds_rep q [73; 78; 71; 10].
Proof.
  intros c. apply (@inline_request_parsed le_host c [([], [80; 73; 78; 71])] [] [80; 73; 78; 71; 10]).
  - split; [|repeat constructor]. split; [|constructor]. repeat constructor; vm_compute; congruence.
  - exists []. by vm_compute.
Defined.
