(* ===== verification/Aof.v ===== *)
(** The append only file (aof.c): the commands are printed in the request
    protocol and collected in [aof_buf], which is written to the file before the
    event loop waits again; at start the file is replayed.

    What the operating system decides (the result of a [write] or [ftruncate],
    whether a background [fsync] is pending, the clock) is an argument of the
    operations.  [exit(1)] is a result; logging is left out. *)

From S2P Require Import Prelude Util Robj Sds SdsRep SdsArgs Rdb Networking.

(** * Standard library *)

(** [atoi(s)] and [strtol(s,NULL,10)] with a [long] of 64 bits. *)
Definition strtol (s : bytes) : option Z := ' (v, _) <- strtoll s;; Some v.
Definition atoi (s : bytes) : option Z := v <- strtol s;; Some (sint 32 v).

(** A [FILE] open for reading: what is left of it, and whether it ends with a read error. *)
Record infile := mkIn { left : bytes; broken : bool }.

Fixpoint take_line (n : nat) (l : bytes) : bytes :=
  match n, l with
  | S n, c :: l => c :: (if c =? 10 then [] else take_line n l)
  | _, _ => []
  end.

(** [fgets(buf,size,fp)]: the C string in [buf]. *)
Definition fgets (size : Z) (f : infile) : infile * option bytes :=
  match left f with
  | [] => (f, None)
  | l => let line := take_line (Z.to_nat (size - 1)) l in (mkIn (drop (length line) l) (broken f), Some (line ++ [0]))
  end.

Definition feof (f : infile) : bool := bool_decide (left f = []) && negb (broken f).

(** [fread(p,n,1,fp)]: the bytes if all could be read, else 0 is returned. *)
Definition fread1 (n : Z) (f : infile) : infile * option bytes :=
  if n <=? msize (left f) then (mkIn (drop (Z.to_nat n) (left f)) (broken f), Some (take (Z.to_nat n) (left f)))
  else (mkIn [] (broken f), None).

(** The result of code that may call [exit(1)]. *)
Inductive outcome (A : Type) := Running (a : A) | Exit1.
Arguments Running {A} a.
Arguments Exit1 {A}.

(** * The rewrite buffer *)

Definition AOF_RW_BUF_BLOCK_SIZE := 1024 * 1024 * 10.

Record aofrwblock := mkBlock { used : Z; bfree : Z; bbuf : bytes }.

(** The last element of [aof_rewrite_buf_blocks] and the blocks before it. *)
Definition listLast (l : list aofrwblock) : option (list aofrwblock * aofrwblock) :=
  match rev l with [] => None | b :: r => Some (rev r, b) end.

Definition aofRewriteBufferReset : list aofrwblock := [].

Definition aofRewriteBufferSize (blocks : list aofrwblock) : Z :=
  match listLast blocks with
  | None => 0
  | Some (_, block) => uint 64 (uint 64 ((msize blocks - 1) * AOF_RW_BUF_BLOCK_SIZE) + used block)
  end.

Section Aof.
Context `{Host}.

(** The loop of [aofRewriteBufferAppend] on the bytes left to append. *)
Fixpoint rewrite_append_loop (fuel : nat) (blocks : list aofrwblock) (s : bytes) (len : Z) : option (list aofrwblock) :=
  match fuel with
  | O => None
  | S fuel =>
    if len =? 0 then Some blocks else
    ' (blocks, s, len) <-
      match listLast blocks with
      | Some (before, block) =>
        let thislen := if bfree block <? len then bfree block else len in
        if negb (thislen =? 0) then
          d <- load s 0 thislen;;
          b <- store (bbuf block) (used block) d;;
          Some (before ++ [mkBlock (uint 64 (used block + thislen)) (uint 64 (bfree block - thislen)) b],
                drop (Z.to_nat thislen) s, len - thislen)
        else Some (blocks, s, len)
      | None => Some (blocks, s, len)
      end;;
    let blocks := if negb (len =? 0) then blocks ++ [mkBlock 0 AOF_RW_BUF_BLOCK_SIZE (zmalloc AOF_RW_BUF_BLOCK_SIZE)] else blocks in
    rewrite_append_loop fuel blocks s len
  end.

Definition aofRewriteBufferAppend (blocks : list aofrwblock) (s : bytes) (len : Z) : option (list aofrwblock) :=
  rewrite_append_loop (S (S (Z.to_nat len))) blocks s len.

(** The blocks are written to a file; [results] are what the [write] calls return.
    The bytes written and the count, or -1. *)
Fixpoint rewrite_write_loop (blocks : list aofrwblock) (results : list Z) (out : bytes) (count : Z) : option (bytes * Z) :=
  match blocks with
  | [] => Some (out, count)
  | block :: blocks =>
    if negb (used block =? 0) then
      match results with
      | [] => None
      | nwritten :: results =>
        d <- load (bbuf block) 0 (used block);;
        let out := out ++ take (Z.to_nat nwritten) d in
        if negb (nwritten =? used block) then Some (out, -1)
        else rewrite_write_loop blocks results out (count + nwritten)
      end
    else rewrite_write_loop blocks results out count
  end.

Definition aofRewriteBufferWrite (blocks : list aofrwblock) (results : list Z) : option (bytes * Z) :=
  rewrite_write_loop blocks results [] 0.

(** * Printing of commands *)

Definition getDecodedObject (o : robj) : option robj :=
  match o with
  | ObjSds _ => Some o
  | ObjInt v =>
    ' (buf, _) <- ll2string (zmalloc 32) 32 v;;
    n <- strlen buf;;
    d <- load buf 0 n;;
    Some (ObjSds d)
  end.

(** "<prefix><n>\r\n" in [buf], appended to [dst]. *)
Definition cat_count (dst : sdshdr) (buf : bytes) (prefix n : Z) : option (sdshdr * bytes) :=
  buf <- store8 buf 0 prefix;;
  tail <- load buf 1 31;;
  ' (tail, l) <- ll2string tail 31 n;;
  buf <- store buf 1 tail;;
  let len := 1 + l in
  buf <- store8 buf len 13;;
  let len := len + 1 in
  buf <- store8 buf len 10;;
  let len := len + 1 in
  dst <- sdscatlen dst buf len;;
  Some (dst, buf).

Fixpoint cat_args (dst : sdshdr) (buf : bytes) (argv : list robj) : option sdshdr :=
  match argv with
  | [] => Some dst
  | a :: argv =>
    o <- getDecodedObject a;;
    match o with
    | ObjInt _ => None
    | ObjSds p =>
      ' (dst, buf) <- cat_count dst buf 36 (msize p);;
      dst <- sdscatlen dst p (msize p);;
      dst <- sdscatlen dst [13; 10] 2;;
      cat_args dst buf argv
    end
  end.

Definition catAppendOnlyGenericCommand (dst : sdshdr) (argv : list robj) : option sdshdr :=
  ' (dst, buf) <- cat_count dst (zmalloc 32) 42 (sint 32 (msize argv));;
  cat_args dst buf argv.

(** [cmd->proc], as far as it matters here. *)
Inductive proc := expireCommand | pexpireCommand | expireatCommand | setexCommand | psetexCommand | otherCommand.

#[export] Instance proc_eq_dec : EqDecision proc.
Proof. solve_decision. Defined.

Definition one_of (cmd : proc) (l : list proc) : bool := bool_decide (cmd ∈ l).

Definition s_PEXPIREAT : bytes := [80; 69; 88; 80; 73; 82; 69; 65; 84].
Definition s_SET : bytes := [83; 69; 84].
Definition s_SELECT : bytes := [83; 69; 76; 69; 67; 84].

(** [now] is the result of [mstime()]. *)
Definition catAppendOnlyExpireAtCommand (now : Z) (buf : sdshdr) (cmd : proc) (key seconds : robj) : option sdshdr :=
  seconds <- getDecodedObject seconds;;
  match seconds with
  | ObjInt _ => None
  | ObjSds p =>
    ' (when, _) <- strtoll (p ++ [0]);;
    when <- (if one_of cmd [expireCommand; setexCommand; expireatCommand] then ll_arith (when * 1000) else Some when);;
    when <- (if one_of cmd [expireCommand; pexpireCommand; setexCommand; psetexCommand] then ll_arith (when + now) else Some when);;
    o <- createStringObjectFromLongLong when;;
    catAppendOnlyGenericCommand buf [ObjSds s_PEXPIREAT; key; o]
  end.

(** * The log *)

Inductive fsync_policy := AOF_FSYNC_NO | AOF_FSYNC_ALWAYS | AOF_FSYNC_EVERYSEC.

#[export] Instance fsync_policy_eq_dec : EqDecision fsync_policy.
Proof. solve_decision. Defined.

(** The fields of [server] the log uses, and the file: its contents, how much of it was
    passed to [fsync], and the number of background jobs created for that. *)
Record aof := mkAof {
  aof_on : bool;                  (* aof_state == REDIS_AOF_ON *)
  aof_buf : sdshdr;
  aof_selected_db : Z;
  aof_child : bool;               (* aof_child_pid != -1 *)
  rdb_child : bool;               (* rdb_child_pid != -1 *)
  aof_rewrite_buf_blocks : list aofrwblock;
  aof_fsync_policy : fsync_policy;
  aof_no_fsync_on_rewrite : bool;
  aof_flush_postponed_start : Z;
  aof_delayed_fsync : Z;
  aof_last_fsync : Z;
  aof_current_size : Z;
  aof_last_write_ok : bool;       (* aof_last_write_status == REDIS_OK *)
  aof_last_write_errno : Z;
  last_write_error_log : Z;
  aof_file : bytes;
  aof_synced : Z;
  aof_background_jobs : Z
}.

Definition set_aof_buf (a : aof) (b : sdshdr) : aof :=
  mkAof (aof_on a) b (aof_selected_db a) (aof_child a) (rdb_child a) (aof_rewrite_buf_blocks a) (aof_fsync_policy a)
    (aof_no_fsync_on_rewrite a) (aof_flush_postponed_start a) (aof_delayed_fsync a) (aof_last_fsync a) (aof_current_size a)
    (aof_last_write_ok a) (aof_last_write_errno a) (last_write_error_log a) (aof_file a) (aof_synced a) (aof_background_jobs a).
Definition set_blocks (a : aof) (l : list aofrwblock) : aof :=
  mkAof (aof_on a) (aof_buf a) (aof_selected_db a) (aof_child a) (rdb_child a) l (aof_fsync_policy a)
    (aof_no_fsync_on_rewrite a) (aof_flush_postponed_start a) (aof_delayed_fsync a) (aof_last_fsync a) (aof_current_size a)
    (aof_last_write_ok a) (aof_last_write_errno a) (last_write_error_log a) (aof_file a) (aof_synced a) (aof_background_jobs a).
Definition set_selected_db (a : aof) (db : Z) : aof :=
  mkAof (aof_on a) (aof_buf a) db (aof_child a) (rdb_child a) (aof_rewrite_buf_blocks a) (aof_fsync_policy a)
    (aof_no_fsync_on_rewrite a) (aof_flush_postponed_start a) (aof_delayed_fsync a) (aof_last_fsync a) (aof_current_size a)
    (aof_last_write_ok a) (aof_last_write_errno a) (last_write_error_log a) (aof_file a) (aof_synced a) (aof_background_jobs a).
Definition set_postponed (a : aof) (start delayed : Z) : aof :=
  mkAof (aof_on a) (aof_buf a) (aof_selected_db a) (aof_child a) (rdb_child a) (aof_rewrite_buf_blocks a) (aof_fsync_policy a)
    (aof_no_fsync_on_rewrite a) start delayed (aof_last_fsync a) (aof_current_size a)
    (aof_last_write_ok a) (aof_last_write_errno a) (last_write_error_log a) (aof_file a) (aof_synced a) (aof_background_jobs a).
Definition set_written (a : aof) (size : Z) (ok : bool) (file : bytes) : aof :=
  mkAof (aof_on a) (aof_buf a) (aof_selected_db a) (aof_child a) (rdb_child a) (aof_rewrite_buf_blocks a) (aof_fsync_policy a)
    (aof_no_fsync_on_rewrite a) (aof_flush_postponed_start a) (aof_delayed_fsync a) (aof_last_fsync a) size
    ok (aof_last_write_errno a) (last_write_error_log a) file (aof_synced a) (aof_background_jobs a).
Definition set_errno (a : aof) (errno log : Z) : aof :=
  mkAof (aof_on a) (aof_buf a) (aof_selected_db a) (aof_child a) (rdb_child a) (aof_rewrite_buf_blocks a) (aof_fsync_policy a)
    (aof_no_fsync_on_rewrite a) (aof_flush_postponed_start a) (aof_delayed_fsync a) (aof_last_fsync a) (aof_current_size a)
    (aof_last_write_ok a) errno log (aof_file a) (aof_synced a) (aof_background_jobs a).
Definition set_synced (a : aof) (last synced jobs : Z) : aof :=
  mkAof (aof_on a) (aof_buf a) (aof_selected_db a) (aof_child a) (rdb_child a) (aof_rewrite_buf_blocks a) (aof_fsync_policy a)
    (aof_no_fsync_on_rewrite a) (aof_flush_postponed_start a) (aof_delayed_fsync a) last (aof_current_size a)
    (aof_last_write_ok a) (aof_last_write_errno a) (last_write_error_log a) (aof_file a) synced jobs.

(** "*2\r\n$6\r\nSELECT\r\n$%lu\r\n%s\r\n" *)
Definition select_format (seldb : bytes) (n : Z) : bytes :=
  [42; 50; 13; 10; 36; 54; 13; 10] ++ s_SELECT ++ [13; 10; 36] ++ printf_d n ++ [13; 10] ++ seldb ++ [13; 10].

Definition feedAppendOnlyFile (now : Z) (a : aof) (cmd : proc) (dictid : Z) (argv : list robj) : option aof :=
  b <- sdsempty;;
  ' (a, b) <- (if negb (dictid =? aof_selected_db a) then
      let seldb := printf_d dictid in
      b <- sdscatprintf b (select_format seldb (msize seldb));;
      Some (set_selected_db a dictid, b)
    else Some (a, b));;
  b <- (if one_of cmd [expireCommand; pexpireCommand; expireatCommand] then
      key <- argv !! 1%nat;;
      seconds <- argv !! 2%nat;;
      catAppendOnlyExpireAtCommand now b cmd key seconds
    else if one_of cmd [setexCommand; psetexCommand] then
      key <- argv !! 1%nat;;
      seconds <- argv !! 2%nat;;
      val <- argv !! 3%nat;;
      b <- catAppendOnlyGenericCommand b [ObjSds s_SET; key; val];;
      catAppendOnlyExpireAtCommand now b cmd key seconds
    else catAppendOnlyGenericCommand b argv);;
  a <- (if aof_on a then q <- sdscatlen (aof_buf a) (buf b) (sdslen b);; Some (set_aof_buf a q) else Some a);;
  if aof_child a then blocks <- aofRewriteBufferAppend (aof_rewrite_buf_blocks a) (buf b) (sdslen b);; Some (set_blocks a blocks)
  else Some a.

Definition AOF_WRITE_LOG_ERROR_RATE := 30.
Definition ENOSPC := 28.

(** What the system decides during a flush: the time, whether a background [fsync]
    is pending, what [write] returns, [errno], and whether [ftruncate] succeeds. *)
Record flush_env := mkFlushEnv { unixtime : Z; pending_fsync : bool; nwritten : Z; errno : Z; ftruncate_ok : bool }.

(** The part before the [write], and whether the flush is postponed. *)
Definition flush_postpone (force : bool) (env : flush_env) (sync_in_progress : bool) (a : aof) : aof * bool :=
  if bool_decide (aof_fsync_policy a = AOF_FSYNC_EVERYSEC) && negb force && sync_in_progress then
    if aof_flush_postponed_start a =? 0 then (set_postponed a (unixtime env) (aof_delayed_fsync a), true)
    else if unixtime env - aof_flush_postponed_start a <? 2 then (a, true)
    else (set_postponed a 0 (aof_delayed_fsync a + 1), false)
  else (set_postponed a 0 (aof_delayed_fsync a), false).

(** The bookkeeping of a failed or short [write]. *)
Definition flush_error (env : flush_env) (a : aof) : aof :=
  let can_log := unixtime env - last_write_error_log a >? AOF_WRITE_LOG_ERROR_RATE in
  let log := if can_log then unixtime env else last_write_error_log a in
  if nwritten env =? -1 then set_errno a (if can_log then errno env else aof_last_write_errno a) log
  else set_errno a ENOSPC log.

(** The [write] and its result: the file, the value of [nwritten] after a short write was
    undone, and whether all was written. *)
Definition flush_write (env : flush_env) (a : aof) (data : bytes) : bytes * Z * bool :=
  let n := nwritten env in
  let file := aof_file a ++ take (Z.to_nat n) data in
  if negb (n =? sint 32 (sdslen (aof_buf a))) then
    if n =? -1 then (file, n, false)
    else if ftruncate_ok env then (take (Z.to_nat (aof_current_size a)) file, -1, false)
    else (file, n, false)
  else (file, n, true).

(** The part after a complete [write]. *)
Definition flush_sync (env : flush_env) (sync_in_progress : bool) (a : aof) : aof :=
  if aof_no_fsync_on_rewrite a && (aof_child a || rdb_child a) then a
  else if bool_decide (aof_fsync_policy a = AOF_FSYNC_ALWAYS) then
    set_synced a (unixtime env) (msize (aof_file a)) (aof_background_jobs a)
  else if bool_decide (aof_fsync_policy a = AOF_FSYNC_EVERYSEC) && (aof_last_fsync a <? unixtime env) then
    set_synced a (unixtime env) (aof_synced a) (if negb sync_in_progress then aof_background_jobs a + 1 else aof_background_jobs a)
  else a.

Definition flushAppendOnlyFile (force : bool) (env : flush_env) (a : aof) : option (outcome aof) :=
  if sdslen (aof_buf a) =? 0 then Some (Running a) else
  let sync_in_progress := bool_decide (aof_fsync_policy a = AOF_FSYNC_EVERYSEC) && pending_fsync env in
  let '(a, postponed) := flush_postpone force env sync_in_progress a in
  if postponed : bool then Some (Running a) else
  data <- load (buf (aof_buf a)) 0 (sdslen (aof_buf a));;
  let '(file, n, complete) := flush_write env a data in
  if negb complete then
    if bool_decide (aof_fsync_policy a = AOF_FSYNC_ALWAYS) then Some Exit1 else
    let a := set_written (flush_error env a) (aof_current_size a) false file in
    if 0 <? n then
      q <- sdsrange (aof_buf a) (sint 32 n) (-1);;
      Some (Running (set_aof_buf (set_written a (aof_current_size a + n) false file) q))
    else Some (Running a)
  else
    let a := set_written a (aof_current_size a + n) true file in
    q <- (if uint 64 (sdslen (aof_buf a) + sdsavail (aof_buf a)) <? 4000 then sdsclear (aof_buf a) else sdsempty);;
    Some (Running (flush_sync env sync_in_progress (set_aof_buf a q))).

(** * Loading *)

Section Load.
Context {srv cmd : Type}.
Variable lookupCommand : bytes -> option cmd.
(** [cmd->proc(fakeClient)]: the server and the client after it, and whether it left a reply. *)
Variable call_proc : cmd -> srv -> client -> srv * client * bool.
(** [aeProcessEvents], called from time to time. *)
Variable serve : srv -> srv.

Definition createFakeClient : option client :=
  q <- sdsempty;; Some (mkClient q 0 0 (-1) [] (mkFlags false false false false false false) []).

Fixpoint load_args (n : nat) (f : infile) (argv : list robj) : option (infile * outcome (list robj)) :=
  match n with
  | O => Some (f, Running argv)
  | S n =>
    let '(f, line) := fgets 128 f in
    match line with
    | None => Some (f, Exit1)
    | Some buf =>
      c <- load8 buf 0;;
      if negb (c =? 36) then Some (f, Exit1) else
      len <- strtol (drop 1 buf);;
      let len := uint 64 len in
      argsds <- sdsnewlen None len;;
      let '(f, got) := if negb (len =? 0) then fread1 len f else (f, Some []) in
      match got with
      | None => Some (f, Exit1)
      | Some d =>
        b <- store (Sds.buf argsds) 0 d;;
        o <- obj_of_sds (set_buf argsds b);;
        let '(f, crlf) := fread1 2 f in
        match crlf with
        | None => Some (f, Exit1)
        | Some _ => load_args n f (argv ++ [o])
        end
      end
    end
  end.

Fixpoint load_loop (fuel : nat) (loops : Z) (f : infile) (s : srv) (c : client) : option (srv * outcome client) :=
  match fuel with
  | O => None
  | S fuel =>
    let s := if loops mod 1000 =? 0 then serve s else s in
    let eof := feof f in
    let '(f, line) := fgets 128 f in
    match line with
    | None => if eof then Some (s, if MULTI (flags c) then Exit1 else Running c) else Some (s, Exit1)
    | Some buf =>
      c0 <- load8 buf 0;;
      if negb (c0 =? 42) then Some (s, Exit1) else
      argc <- atoi (drop 1 buf);;
      if argc <? 1 then Some (s, Exit1) else
      ' (f, args) <- load_args (Z.to_nat argc) f [];;
      match args with
      | Exit1 => Some (s, Exit1)
      | Running args =>
        name <- args !! 0%nat;;
        match name with
        | ObjInt _ => None
        | ObjSds name =>
          match lookupCommand name with
          | None => Some (s, Exit1)
          | Some cmd =>
            let '(s, c, replied) := call_proc cmd s (set_argv c args) in
            if replied then None else
            if BLOCKED (flags c) then None else
            load_loop fuel (loops + 1) f s (set_argv c [])
          end
        end
      end
    end
  end.

(** The server afterwards, and whether the file was loaded ([Running true]), was empty
    ([Running false]) or the process exits. *)
Definition loadAppendOnlyFile (fp : option infile) (s : srv) : option (srv * outcome bool) :=
  match fp with
  | None => Some (s, Exit1)
  | Some f =>
    if feof f then Some (s, Running false) else
    c <- createFakeClient;;
    ' (s, res) <- load_loop (S (length (left f))) 0 f s c;;
    Some (s, match res with Exit1 => Exit1 | Running _ => Running true end)
  end.

End Load.
End Aof.
