(* ===== verification/AofBuffer.v ===== *)
(** The buffer of the changes made during a rewrite of the append only file. *)

From S2P Require Import Prelude Sds SdsRep Aof.

(** * Representation *)

(** The block holds [d]. *)
Definition block_rep (b : aofrwblock) (d : bytes) : Prop :=
  exists r, bbuf b = d ++ r /\ used b = msize d /\ bfree b = msize r /\ msize d + msize r = AOF_RW_BUF_BLOCK_SIZE.

Definition full_block (b : aofrwblock) (d : bytes) : Prop := block_rep b d /\ msize d = AOF_RW_BUF_BLOCK_SIZE.

(** All blocks but the last one are full. *)
Inductive blocks_rep : list aofrwblock -> bytes -> Prop :=
  | blocks_nil : blocks_rep [] []
  | blocks_last l ds b d : Forall2 full_block l ds -> block_rep b d -> blocks_rep (l ++ [b]) (concat ds ++ d).

Lemma listLast_snoc l b : listLast (l ++ [b]) = Some (l, b).
Proof. unfold listLast. rewrite rev_app_distr. cbn [rev app]. by rewrite rev_involutive. Qed.

Section Buffer.
Context {HOST : Host}.

Lemma new_block_rep : block_rep (mkBlock 0 AOF_RW_BUF_BLOCK_SIZE (zmalloc AOF_RW_BUF_BLOCK_SIZE)) [].
Proof.
  exists (zmalloc AOF_RW_BUF_BLOCK_SIZE). cbn [bbuf used bfree app]. unfold zmalloc. rewrite msize_fresh by done. rewrite msize_nil. done.
Qed.

(** Put [x], which fits, into the last block. *)
Lemma block_append b d x : block_rep b d -> 0 < msize x <= bfree b ->
  exists bb, store (bbuf b) (used b) x = Some bb /\ block_rep (mkBlock (uint 64 (used b + msize x)) (uint 64 (bfree b - msize x)) bb) (d ++ x).
Proof.
  intros (r & Eb & Eu & Ef & Hsz) Hx. rewrite Ef in Hx. destruct (split_at r (msize x)) as (r1 & r2 & -> & Hr1); [lia|].
  rewrite msize_app in *. pose proof (msize_nonneg d). pose proof (msize_nonneg r2). unfold AOF_RW_BUF_BLOCK_SIZE in *.
  rewrite Eb. rewrite (store_at d r1 r2) by done. eexists. split; [done|]. exists r2. cbn [bbuf used bfree].
  rewrite Eu, Ef, !msize_app, !uint_id by lia. split; [by lsimpl|]. unfold AOF_RW_BUF_BLOCK_SIZE. lia.
Qed.

Definition has_room (l : list aofrwblock) : Prop := exists before b, l = before ++ [b] /\ bfree b <> 0.

(** One more block. *)
Lemma blocks_grow l bs : blocks_rep l bs -> ~ has_room l -> let l' := l ++ [mkBlock 0 AOF_RW_BUF_BLOCK_SIZE (zmalloc AOF_RW_BUF_BLOCK_SIZE)] in
  blocks_rep l' bs /\ has_room l'.
Proof.
  intros Hl Hroom l'. split; [|by exists l; eexists]. destruct Hl as [|l ds b d Hfull Hb].
  - apply (blocks_last [] []); [done|apply new_block_rep].
  - unfold l'. rewrite <- (app_nil_r (concat ds ++ d)). replace (concat ds ++ d) with (concat (ds ++ [d])) by (rewrite concat_app; cbn; by rewrite app_nil_r).
    apply blocks_last; [|apply new_block_rep]. apply Forall2_app; [done|]. repeat constructor; [done|].
    destruct Hb as (r & _ & _ & Ef & Hsz). destruct (Z.eq_dec (bfree b) 0) as [E|E]; [lia|]. destruct Hroom. by exists l, b.
Qed.

Lemma has_room_dec l : has_room l \/ ~ has_room l.
Proof.
  destruct (listLast l) as [[before b]|] eqn:E; unfold listLast in E.
  - destruct (rev l) as [|b' r] eqn:Er; [done|]. injection E as <- <-. apply (f_equal (@rev _)) in Er. rewrite rev_involutive in Er. cbn in Er.
    destruct (Z.eq_dec (bfree b') 0) as [Hz|Hz]; [right|left; by exists (rev r), b'].
    intros (l' & b & E & Hb). rewrite Er in E. by apply app_inj_tail in E as [_ <-].
  - right. intros (l' & b & -> & _). by rewrite rev_app_distr in E.
Qed.

Lemma append_loop_spec fuel : forall l bs s t, blocks_rep l bs ->
  (s = [] /\ (0 < fuel)%nat \/ has_room l /\ (length s < fuel)%nat \/ (length s + 1 < fuel)%nat) ->
  exists l', rewrite_append_loop fuel l (s ++ t) (msize s) = Some l' /\ blocks_rep l' (bs ++ s).
Proof.
  induction fuel as [|fuel IH]; intros l bs s t Hl Hf; [lia|]. cbn [rewrite_append_loop].
  destruct (Z.eqb_spec (msize s) 0) as [Hz|Hz].
  { apply msize_0_nil in Hz as ->. exists l. by rewrite app_nil_r. }
  pose proof (msize_nonneg s). destruct (has_room_dec l) as [Hroom|Hno].
  - destruct Hroom as (before & b & -> & Hb0). inversion Hl as [|l ds b' d Hfull Hb El Ebs]; [by destruct before|].
    apply app_inj_tail in El as [-> ->]. rewrite listLast_snoc. pose proof Hb as (r & _ & _ & Ef & _). pose proof (msize_nonneg r).
    set (k := if bfree b <? msize s then bfree b else msize s).
    assert (0 < k <= bfree b /\ k <= msize s) as [Hk Hks] by (unfold k; destruct (Z.ltb_spec (bfree b) (msize s)); lia).
    rewrite (proj2 (Z.eqb_neq k 0)) by lia. cbn [negb]. destruct (split_at s k) as (x & y & -> & Hx); [lia|].
    rewrite (load_at [] x (y ++ t)) by (done || by lsimpl). cbn [obind]. rewrite <- Hx in *.
    destruct (block_append b d x Hb Hk) as (bb & -> & Hb'). cbn [obind].
    replace (drop (Z.to_nat (msize x)) ((x ++ y) ++ t)) with (y ++ t) by (rewrite <- app_assoc; unfold msize; by rewrite Nat2Z.id, drop_app_length).
    replace (msize (x ++ y) - msize x) with (msize y) by msolve.
    set (b2 := mkBlock _ _ _) in *. assert (blocks_rep (before ++ [b2]) ((concat ds ++ d) ++ x)) as Hl2.
    { rewrite <- app_assoc. by apply blocks_last. }
    assert (length y < length (x ++ y))%nat by (rewrite length_app; unfold msize in Hk; lia).
    rewrite (app_assoc _ x y). destruct (Z.eqb_spec (msize y) 0) as [Hy|Hy]; cbn [negb].
    + apply IH; [done|]. left. apply msize_0_nil in Hy as ->. split; [done|]. cbn [length] in *. destruct Hf as [[E _]|[[_ ?]|?]]; [by rewrite E in Hz|lia..].
    + assert (~ has_room (before ++ [b2])) as Hno.
      { intros (l2 & b3 & E & Hb3). apply app_inj_tail in E as [_ <-]. apply Hb3. cbn [bfree b2]. unfold k in Hx.
        rewrite msize_app in Hx. destruct (Z.ltb_spec (bfree b) (msize x + msize y)); [|lia]. rewrite Hx, Z.sub_diag. done. }
      destruct (blocks_grow _ _ Hl2 Hno) as [Hl3 Hr3]. apply IH; [done|]. right. left. split; [done|]. destruct Hf as [[E _]|[[_ ?]|?]]; [by rewrite E in Hz|lia..].
  - destruct Hf as [[-> _]|[[? _]|Hf]]; [done..|]. destruct (blocks_grow l bs Hl Hno) as [Hl2 Hr2].
    replace (match listLast l with Some _ => _ | None => _ end) with (Some (l, s ++ t, msize s)).
    + cbn [obind]. rewrite (proj2 (Z.eqb_neq (msize s) 0)) by done. cbn [negb]. apply IH; [done|]. right. left. split; [done|lia].
    + destruct Hl as [|l ds b d _ Hb]; [done|]. rewrite listLast_snoc. destruct (Z.eq_dec (bfree b) 0) as [E|E]; [|destruct Hno; by exists l, b].
      rewrite E. destruct (Z.ltb_spec 0 (msize s)); [done|lia].
Qed.

Lemma aofRewriteBufferAppend_spec l bs s t : blocks_rep l bs ->
  exists l', aofRewriteBufferAppend l (s ++ t) (msize s) = Some l' /\ blocks_rep l' (bs ++ s).
Proof. intros Hl. apply append_loop_spec; [done|]. right. right. unfold msize. lia. Qed.

(** ** Size and output *)

Lemma full_blocks_size l ds : Forall2 full_block l ds -> msize (concat ds) = msize l * AOF_RW_BUF_BLOCK_SIZE.
Proof.
  induction 1 as [|b d l ds [_ Hd] _ IH]; [done|]. cbn [concat]. rewrite msize_app, msize_cons, IH, Hd. lia.
Qed.

Lemma aofRewriteBufferSize_spec l bs : blocks_rep l bs -> msize bs < 2 ^ 64 -> aofRewriteBufferSize l = msize bs.
Proof.
  intros [|l' ds b d Hl Hb] Hsz; [done|]. unfold aofRewriteBufferSize. rewrite listLast_snoc. destruct Hb as (r & _ & -> & _).
  rewrite !msize_app, (full_blocks_size _ _ Hl) in *. rewrite msize_cons, msize_nil.
  pose proof (msize_nonneg l'). pose proof (msize_nonneg d). unfold AOF_RW_BUF_BLOCK_SIZE in *.
  replace (msize l' + (1 + 0) - 1) with (msize l') by lia. rewrite (uint_id 64 (msize l' * _)) by lia. apply uint_id. lia.
Qed.

(** Every write is complete. *)
Lemma write_blocks l ds : Forall2 block_rep l ds -> forall out count,
  rewrite_write_loop l (filter (fun n => n <> 0) (used <$> l)) out count = Some (out ++ concat ds, count + msize (concat ds)).
Proof.
  induction 1 as [|b d l ds (r & Eb & Eu & _) _ IH]; intros out count; cbn [rewrite_write_loop concat].
  - rewrite app_nil_r, msize_nil. do 2 f_equal. lia.
  - rewrite fmap_cons, filter_cons, Eu. destruct (Z.eqb_spec (msize d) 0) as [Hz|Hz]; cbn [negb].
    + rewrite decide_False by (by intros []). apply msize_0_nil in Hz as ->. apply IH.
    + rewrite decide_True by done. rewrite Eb, (load_at [] d r) by done. cbn [obind]. rewrite Z.eqb_refl. cbn [negb].
      unfold msize at 1. rewrite Nat2Z.id, firstn_all, IH. rewrite <- app_assoc, msize_app. do 2 f_equal. lia.
Qed.

Lemma blocks_rep_blocks l bs : blocks_rep l bs -> exists ds, Forall2 block_rep l ds /\ bs = concat ds.
Proof.
  intros [|l' ds b d Hl Hb]; [by exists []|]. exists (ds ++ [d]). split.
  - apply Forall2_app; [|by repeat constructor]. eapply Forall2_impl; [|exact Hl]. by intros ? ? [? _].
  - rewrite concat_app. cbn. by rewrite app_nil_r.
Qed.

End Buffer.

(** * Properties *)

(** The appended pieces, one after the other. *)
Fixpoint append_all {HOST : Host} (l : list aofrwblock) (pieces : list bytes) : option (list aofrwblock) :=
  match pieces with
  | [] => Some l
  | s :: pieces => l <- aofRewriteBufferAppend l s (msize s);; append_all l pieces
  end.


