(* ===== verification/AofSpec.v ===== *)
(** The append only file: what is logged, and where it is after flushes that
    fail in any way. *)

From stdpp Require Import relations.
From S2P Require Import Prelude Util Robj Sds SdsRep SdsArgs Rio RioSpec Rdb RdbSpec Networking NetworkingSpec Aof AofBuffer.

(** * Encoded commands *)

(** ** Commands *)

Definition arg_bytes (a : bytes) : bytes := bulk_bytes (printf_d (msize a)) a.

Definition cmd_bytes (args : list bytes) : bytes := count_bytes 42 (printf_d (msize args)) ++ concat (arg_bytes <$> args).

Lemma cmd_bytes_enc args : cmd_ok args -> cmd_enc args (cmd_bytes args).
Proof.
  intros (_ & Hn & Ha). exists (printf_d (msize args)), (arg_bytes <$> args). pose proof (msize_nonneg args).
  split; [apply printf_d_decimal; lia|]. split; [|done].
  induction Ha as [|a args Ha _ IH]; [constructor|]. rewrite msize_cons in *. pose proof (msize_nonneg args). constructor; [|apply IH; lia].
  exists (printf_d (msize a)). split; [|done]. apply printf_d_decimal. pose proof (msize_nonneg a). lia.
Qed.

Section Print.
Context {HOST : Host}.

Lemma obj_val_printf v : LLONG_MIN < v <= LLONG_MAX -> obj_val (ObjInt v) = printf_d v.
Proof. intros Hv. apply printf_d_eq; [unfold LLONG_MIN, LLONG_MAX in Hv; lia|by apply obj_val_int]. Qed.

Lemma getDecodedObject_spec o : robj_ok o -> getDecodedObject o = Some (ObjSds (obj_val o)).
Proof.
  destruct o as [s|v]; intros Ho; [by rewrite obj_val_sds|]. cbn [robj_ok] in Ho. rewrite (obj_val_printf v Ho). unfold getDecodedObject.
  destruct (ll2string_printf (zmalloc 32) 32 v Ho) as (rest & -> & _); [lia|unfold zmalloc; rewrite msize_fresh; lia|]. cbn [obind].
  rewrite strlen_spec.
  - cbn [obind]. by rewrite (load_at [] (printf_d v) (0 :: rest)).
  - unfold LLONG_MIN, LLONG_MAX in Ho. eapply list.Forall_impl; [eapply (decimal_line _ v), printf_d_decimal; lia|]. by intros c [_ ?].
Qed.

Lemma cat_count_spec dst bs buf prefix n : sds_rep dst bs -> msize buf = 32 -> is_byte prefix -> LLONG_MIN < n <= LLONG_MAX ->
  msize bs + msize (count_bytes prefix (printf_d n)) < 2 ^ 30 ->
  exists dst' buf', cat_count dst buf prefix n = Some (dst', buf') /\ sds_rep dst' (bs ++ count_bytes prefix (printf_d n)) /\ msize buf' = 32.
Proof.
  intros Hr Hb Hp Hn Hsz. unfold cat_count. destruct buf as [|x tl]; [done|]. rewrite msize_cons in Hb.
  rewrite (store8_at [] x tl) by done. cbn [obind app]. rewrite (uint_id 8) by (unfold is_byte in Hp; lia).
  rewrite (load_at [prefix] tl []) by (rewrite ?app_nil_r; done || lia). cbn [obind].
  destruct (ll2string_printf tl 31 n Hn) as (rest & -> & Hds & Hrest); [lia|lia|]. cbn [obind].
  rewrite (store_at [prefix] tl []); [|by rewrite app_nil_r|done|msolve]. cbn [obind]. rewrite app_nil_r. set (ds := printf_d n) in *.
  destruct rest as [|y rest]; [rewrite msize_nil in Hrest; lia|]. rewrite msize_cons in Hrest.
  rewrite (store8_at (prefix :: ds) 0 (y :: rest)) by (done || msolve). cbn [obind].
  rewrite (store8_at (prefix :: ds ++ [13]) y rest) by (done || (lsimpl; done) || msolve). cbn [obind].
  change (uint 8 13) with 13. change (uint 8 10) with 10.
  replace ((prefix :: ds ++ [13]) ++ 10 :: rest) with (count_bytes prefix ds ++ rest) by (unfold count_bytes; by lsimpl).
  replace (1 + msize ds + 1 + 1) with (msize (count_bytes prefix ds)) by (unfold count_bytes; msolve).
  destruct (sdscatlen_rep dst bs (count_bytes prefix ds) rest Hr) as (dst' & -> & Hr'); [lia|]. cbn [obind].
  do 2 eexists. split; [done|]. split; [done|]. unfold count_bytes. msolve.
Qed.

Lemma cat_args_spec : forall argv dst bs buf, Forall robj_ok argv -> sds_rep dst bs -> msize buf = 32 ->
  msize bs + msize (concat (arg_bytes <$> (obj_val <$> argv))) < 2 ^ 30 ->
  exists dst', cat_args dst buf argv = Some dst' /\ sds_rep dst' (bs ++ concat (arg_bytes <$> (obj_val <$> argv))).
Proof.
  induction argv as [|o argv IH]; intros dst bs buf Ho Hr Hb Hsz; cbn [cat_args].
  - exists dst. split; [done|]. cbn. by rewrite app_nil_r.
  - apply list.Forall_cons in Ho as [Ho Hos]. rewrite (getDecodedObject_spec o Ho). cbn [obind]. rewrite !fmap_cons in *. cbn [concat] in *.
    set (p := obj_val o) in *. set (more := concat _) in *. unfold arg_bytes, bulk_bytes in Hsz. rewrite !msize_app in Hsz.
    pose proof (msize_nonneg p). pose proof (msize_nonneg more). pose proof (msize_nonneg (count_bytes 36 (printf_d (msize p)))).
    change (msize [13; 10]) with 2 in Hsz.
    destruct (cat_count_spec dst bs buf 36 (msize p) Hr Hb) as (dst1 & buf1 & -> & Hr1 & Hb1);
      [done|unfold LLONG_MIN, LLONG_MAX; pose proof (msize_nonneg bs); lia|lia|]. cbn [obind].
    destruct (sdscatlen_rep dst1 _ p [] Hr1) as (dst2 & E2 & Hr2); [rewrite msize_app; lia|]. rewrite app_nil_r in E2. rewrite E2. cbn [obind].
    destruct (sdscatlen_rep dst2 _ [13; 10] [] Hr2) as (dst3 & E3 & Hr3); [rewrite !msize_app; change (msize [13; 10]) with 2; lia|].
    rewrite app_nil_r in E3. change (msize [13; 10]) with 2 in E3. rewrite E3. cbn [obind].
    destruct (IH dst3 _ buf1 Hos Hr3 Hb1) as (dst' & E & Hr'); [rewrite !msize_app; change (msize [13; 10]) with 2; lia|].
    exists dst'. split; [done|]. unfold arg_bytes, bulk_bytes. rewrite <- !app_assoc in *. exact Hr'.
Qed.

Lemma generic_command_spec argv dst bs : Forall robj_ok argv -> sds_rep dst bs -> msize argv < 2 ^ 31 ->
  msize bs + msize (cmd_bytes (obj_val <$> argv)) < 2 ^ 30 ->
  exists dst', catAppendOnlyGenericCommand dst argv = Some dst' /\ sds_rep dst' (bs ++ cmd_bytes (obj_val <$> argv)).
Proof.
  intros Ho Hr Hn Hsz. unfold catAppendOnlyGenericCommand, cmd_bytes in *. pose proof (msize_nonneg argv). rewrite sint32_id by lia.
  rewrite msize_app in Hsz. replace (msize (obj_val <$> argv)) with (msize argv) in * by (unfold msize; by rewrite length_fmap).
  set (args := concat _) in *. pose proof (msize_nonneg args).
  destruct (cat_count_spec dst bs (zmalloc 32) 42 (msize argv) Hr) as (dst1 & buf1 & -> & Hr1 & Hb1);
    [unfold zmalloc; by rewrite msize_fresh|done|unfold LLONG_MIN, LLONG_MAX; lia|lia|]. cbn [obind].
  destruct (cat_args_spec argv dst1 _ buf1 Ho Hr1 Hb1) as (dst' & E & Hr'); [rewrite msize_app; fold args; lia|].
  exists dst'. split; [done|]. by rewrite <- app_assoc in Hr'.
Qed.

(** ** Expire times *)

(** Digits that follow an optional sign. *)
Lemma strtoll_raw_at (sg ds : bytes) c R v : sg = [] \/ sg = [45] -> digits ds -> ds <> [] -> is_digit c = false ->
  v = (if bool_decide (sg = []) then dec_value 0 ds else - dec_value 0 ds) ->
  strtoll_raw (sg ++ ds ++ c :: R) = Some (v, msize sg + msize ds).
Proof.
  intros Hsg Hd Hne Hc Hv. assert (exists x s', sg ++ ds ++ c :: R = x :: s' /\ isspace x = false /\
    (if (x =? 45) || (x =? 43) then 0 + 1 else 0) = msize sg /\ (x =? 45) = negb (bool_decide (sg = []))) as (x & s' & E & Hx & Hq & Hs).
  { destruct ds as [|d ds]; [done|]. apply list.Forall_cons in Hd as [Hd _].
    destruct Hsg as [-> | ->]; cbn [app]; do 2 eexists; (split; [done|]); [|done].
    unfold isspace. rewrite (proj2 (Z.eqb_neq d 45)), (proj2 (Z.eqb_neq d 43)), (proj2 (Z.eqb_neq d 32)), (proj2 (Z.leb_gt d 13)) by lia.
    by rewrite andb_false_r. }
  unfold strtoll_raw. cbn [skip_spaces]. rewrite E. rewrite (load8_at [] x s') by done. cbn [obind]. rewrite Hx. cbn [obind].
  rewrite (load8_at [] x s') by done. cbn [obind]. rewrite Hq, Hs, <- E.
  rewrite skip_digits_spec; [|done|done|rewrite !length_app; unfold msize; cbn [length]; lia]. cbn [obind].
  rewrite (proj2 (Z.eqb_neq _ _)) by (destruct ds; [done|msolve]).
  rewrite (load_at sg ds (c :: R)) by (done || lia). cbn [obind]. rewrite if_negb, <- Hv. done.
Qed.

Lemma strtoll_digits_at (sg ds : bytes) c R v : sg = [] \/ sg = [45] -> digits ds -> ds <> [] -> is_digit c = false ->
  v = (if bool_decide (sg = []) then dec_value 0 ds else - dec_value 0 ds) -> LLONG_MIN <= v <= LLONG_MAX ->
  strtoll (sg ++ ds ++ c :: R) = Some (v, msize sg + msize ds).
Proof. intros Hsg Hd Hne Hc Hv Hr. unfold strtoll. rewrite (strtoll_raw_at sg ds c R v) by done. cbn [obind]. do 2 f_equal. lia. Qed.

Lemma strtoll_decimal s v c R : decimal s v -> is_digit c = false -> LLONG_MIN <= v <= LLONG_MAX -> strtoll (s ++ c :: R) = Some (v, msize s).
Proof.
  intros [[[Hd Hc] Hv]|(ds & -> & [Hd Hc] & Hv & Hn)] Hdc Hr.
  - apply (strtoll_digits_at [] s c R v); [by left|done|by destruct s|done|done|done].
  - rewrite msize_cons. apply (strtoll_digits_at [45] ds c R v); [by right|done|by destruct ds|done| |done]. cbn. lia.
Qed.

End Print.

(** * What is logged *)

(** The absolute time, in milliseconds, of an expire time [v]. *)
Definition expire_ms (cmd : proc) (v : Z) : Z := if one_of cmd [expireCommand; setexCommand; expireatCommand] then v * 1000 else v.

Definition expire_at (now : Z) (cmd : proc) (v : Z) : Z :=
  if one_of cmd [expireCommand; pexpireCommand; setexCommand; psetexCommand] then expire_ms cmd v + now else expire_ms cmd v.

Definition expire_ok (now : Z) (cmd : proc) (v : Z) : Prop :=
  LLONG_MIN < v <= LLONG_MAX /\ LLONG_MIN < expire_ms cmd v <= LLONG_MAX /\ LLONG_MIN < expire_at now cmd v <= LLONG_MAX.

Definition pexpireat (now : Z) (cmd : proc) (key : bytes) (v : Z) : list bytes := [s_PEXPIREAT; key; printf_d (expire_at now cmd v)].

(** The commands that are logged for a command: times to live become absolute times. *)
Inductive logged (now : Z) : proc -> list bytes -> list (list bytes) -> Prop :=
  | logged_other args : logged now otherCommand args [args]
  | logged_expire cmd name key secs v more : one_of cmd [expireCommand; pexpireCommand; expireatCommand] = true ->
      decimal secs v -> expire_ok now cmd v -> logged now cmd (name :: key :: secs :: more) [pexpireat now cmd key v]
  | logged_setex cmd name key secs val v more : one_of cmd [setexCommand; psetexCommand] = true ->
      decimal secs v -> expire_ok now cmd v ->
      logged now cmd (name :: key :: secs :: val :: more) [[s_SET; key; val]; pexpireat now cmd key v].

(** ... after a SELECT where the database changes. *)
Definition with_select (sel dictid : Z) (cmds : list (list bytes)) : list (list bytes) :=
  if negb (dictid =? sel) then [s_SELECT; printf_d dictid] :: cmds else cmds.

Definition log_bytes (cmds : list (list bytes)) : bytes := concat (cmd_bytes <$> cmds).

Lemma log_bytes_app a b : log_bytes (a ++ b) = log_bytes a ++ log_bytes b.
Proof. unfold log_bytes. by rewrite fmap_app, concat_app. Qed.

Lemma log_bytes_stream cmds : Forall cmd_ok cmds -> stream cmds (log_bytes cmds).
Proof. induction 1 as [|c cmds Hc _ IH]; [constructor|]. unfold log_bytes. rewrite fmap_cons. cbn [concat].
  apply stream_cons; [by apply cmd_bytes_enc|done]. Qed.

Section Feed.
Context {HOST : Host}.

Lemma select_format_bytes db : in_sint 32 db -> select_format (printf_d db) (msize (printf_d db)) = cmd_bytes [s_SELECT; printf_d db].
Proof.
  intros Hdb. unfold select_format, cmd_bytes. cbn [fmap list_fmap concat]. unfold arg_bytes at 1. change (msize [s_SELECT; printf_d db]) with 2.
  change (msize s_SELECT) with 6. unfold arg_bytes, bulk_bytes, count_bytes. change (printf_d 2) with [50]. change (printf_d 6) with [54].
  by lsimpl.
Qed.

Lemma cmd_bytes_line v : in_sint 32 v -> cstring (cmd_bytes [s_SELECT; printf_d v]).
Proof.
  unfold in_sint. intros Hv. rewrite <- select_format_bytes by done. unfold select_format.
  assert (forall w, - 10 ^ 20 < w < 10 ^ 20 -> Forall (fun c => c <> 0) (printf_d w)) as Hp.
  { intros w Hw. eapply list.Forall_impl; [eapply decimal_line, printf_d_decimal, Hw|]. by intros c [_ ?]. }
  destruct (ll2string_printf (zmalloc 32) 32 v) as (? & _ & Hs & _); [unfold LLONG_MIN, LLONG_MAX; lia|lia|unfold zmalloc; rewrite msize_fresh; lia|].
  repeat (apply list.Forall_app; split); try (apply Hp; lia); repeat constructor; done.
Qed.

Lemma expireat_command_spec now dst bs cmd key secs v : robj_ok key -> robj_ok secs -> decimal (obj_val secs) v -> expire_ok now cmd v ->
  sds_rep dst bs -> msize bs + msize (cmd_bytes (pexpireat now cmd (obj_val key) v)) < 2 ^ 30 ->
  exists dst', catAppendOnlyExpireAtCommand now dst cmd key secs = Some dst' /\ sds_rep dst' (bs ++ cmd_bytes (pexpireat now cmd (obj_val key) v)).
Proof.
  intros Hk Hs Hd (Hv & H1 & H2) Hr Hsz. unfold catAppendOnlyExpireAtCommand. rewrite (getDecodedObject_spec secs Hs). cbn [obind].
  rewrite (strtoll_decimal _ v 0 []) by (done || lia). cbn [obind].
  replace (if one_of cmd [expireCommand; setexCommand; expireatCommand] then ll_arith (v * 1000) else Some v) with (Some (expire_ms cmd v)).
  2: { unfold expire_ms in *. destruct (one_of cmd _); [|done]. by rewrite ll_arith_Some by lia. }
  cbn [obind].
  replace (if one_of cmd _ then ll_arith (expire_ms cmd v + now) else _) with (Some (expire_at now cmd v)).
  2: { unfold expire_at in *. destruct (one_of cmd _); [|done]. by rewrite ll_arith_Some by lia. }
  cbn [obind]. unfold createStringObjectFromLongLong.
  replace (if _ && _ then _ else _) with (Some (ObjInt (expire_at now cmd v))).
  2: { destruct (_ && _); [done|]. by rewrite (proj2 (Z.leb_le _ _)), (proj2 (Z.leb_le _ _)) by lia. }
  cbn [obind]. pose proof (generic_command_spec [ObjSds s_PEXPIREAT; key; ObjInt (expire_at now cmd v)] dst bs) as G.
  rewrite !fmap_cons, fmap_nil, obj_val_sds, (obj_val_printf _ H2) in G. apply G; [|done|done|done]. repeat constructor; done || lia.
Qed.

(** The commands printed in the local buffer. *)
Lemma print_commands_spec now dst bs cmd argv cmds : Forall robj_ok argv -> msize argv < 2 ^ 31 -> logged now cmd (obj_val <$> argv) cmds ->
  sds_rep dst bs -> msize bs + msize (log_bytes cmds) < 2 ^ 30 ->
  exists dst', (if one_of cmd [expireCommand; pexpireCommand; expireatCommand] then
      key <- argv !! 1%nat;;
      seconds <- argv !! 2%nat;;
      catAppendOnlyExpireAtCommand now dst cmd key seconds
    else if one_of cmd [setexCommand; psetexCommand] then
      key <- argv !! 1%nat;;
      seconds <- argv !! 2%nat;;
      val <- argv !! 3%nat;;
      b <- catAppendOnlyGenericCommand dst [ObjSds s_SET; key; val];;
      catAppendOnlyExpireAtCommand now b cmd key seconds
    else catAppendOnlyGenericCommand dst argv) = Some dst' /\ sds_rep dst' (bs ++ log_bytes cmds).
Proof.
  intros Ho Hn Hl Hr Hsz. remember (obj_val <$> argv) as args eqn:Ea. unfold log_bytes in *. destruct Hl as [args|cmd name key secs v more Hc Hd Hok|cmd name key secs val v more Hc Hd Hok]; cbn [fmap list_fmap concat] in *.
  - rewrite app_nil_r in *. subst args. by apply generic_command_spec.
  - rewrite Hc, app_nil_r in *. destruct argv as [|o0 [|o1 [|o2 argv]]]; try discriminate Ea. injection Ea as -> -> -> ->.
    apply list.Forall_cons in Ho as [_ Ho]. apply list.Forall_cons in Ho as [H1 Ho]. apply list.Forall_cons in Ho as [H2 _].
    cbn [lookup list_lookup obind]. by apply expireat_command_spec.
  - assert (one_of cmd [expireCommand; pexpireCommand; expireatCommand] = false) as -> by (by destruct cmd). rewrite Hc, app_nil_r in *.
    destruct argv as [|o0 [|o1 [|o2 [|o3 argv]]]]; try discriminate Ea. injection Ea as -> -> -> -> ->.
    apply list.Forall_cons in Ho as [_ Ho]. apply list.Forall_cons in Ho as [H1 Ho]. apply list.Forall_cons in Ho as [H2 Ho].
    apply list.Forall_cons in Ho as [H3 _]. cbn [lookup list_lookup obind]. rewrite msize_app in Hsz.
    pose proof (generic_command_spec [ObjSds s_SET; o1; o3] dst bs) as G. rewrite !fmap_cons, fmap_nil, obj_val_sds in G.
    pose proof (msize_nonneg (cmd_bytes (pexpireat now cmd (obj_val o1) v))).
    destruct G as (dst1 & -> & Hr1); [by repeat constructor|done|done|lia|]. cbn [obind]. rewrite app_assoc.
    apply expireat_command_spec; try done. rewrite msize_app. lia.
Qed.

(** The changes a command is fed to the log with. *)
Record fed (a a' : aof) (pend changes enc : bytes) (dictid : Z) : Prop := {
  fed_eq : a' = set_blocks (set_selected_db (set_aof_buf a (aof_buf a')) dictid) (aof_rewrite_buf_blocks a');
  fed_buf : sds_rep (aof_buf a') (if aof_on a then pend ++ enc else pend);
  fed_blocks : blocks_rep (aof_rewrite_buf_blocks a') (if aof_child a then changes ++ enc else changes)
}.

Lemma feed_spec now a cmd dictid argv cmds pend changes :
  let all := with_select (aof_selected_db a) dictid cmds in
  sds_rep (aof_buf a) pend -> blocks_rep (aof_rewrite_buf_blocks a) changes -> Forall robj_ok argv -> msize argv < 2 ^ 31 -> in_sint 32 dictid ->
  logged now cmd (obj_val <$> argv) cmds -> msize pend + msize (log_bytes all) < 2 ^ 30 ->
  exists a', feedAppendOnlyFile now a cmd dictid argv = Some a' /\ fed a a' pend changes (log_bytes all) dictid.
Proof.
  intros all Hp Hb Ho Hn Hdb Hl Hsz. unfold feedAppendOnlyFile. destruct sdsempty_rep as (b0 & -> & Hr0 & _). cbn [obind].
  pose proof (msize_nonneg pend). pose proof (msize_nonneg (log_bytes cmds)).
  assert (exists b1 sel, (if negb (dictid =? aof_selected_db a) then
      b <- sdscatprintf b0 (select_format (printf_d dictid) (msize (printf_d dictid)));; Some (set_selected_db a dictid, b)
      else Some (a, b0)) = Some (set_selected_db a dictid, b1) /\ sds_rep b1 sel /\ log_bytes all = sel ++ log_bytes cmds) as (b1 & sel & -> & Hr1 & Eall).
  { unfold all, with_select in *. destruct (Z.eqb_spec dictid (aof_selected_db a)) as [->|Hne]; cbn [negb] in *.
    - exists b0, []. split; [by destruct a|done].
    - change (log_bytes (?x :: cmds)) with (cmd_bytes x ++ log_bytes cmds) in *. rewrite select_format_bytes by done. rewrite msize_app in Hsz.
      destruct (sdscatprintf_rep b0 [] _ Hr0 (cmd_bytes_line dictid Hdb)) as (b1 & -> & Hr1); [rewrite msize_nil; lia|].
      cbn [obind]. by exists b1, (cmd_bytes [s_SELECT; printf_d dictid]). }
  cbn [obind]. rewrite Eall, msize_app in Hsz.
  destruct (print_commands_spec now b1 sel cmd argv cmds Ho Hn Hl Hr1) as (b2 & E2 & Hr2); [lia|]. rewrite E2. cbn [obind]. clear E2.
  rewrite <- Eall in Hr2. set (enc := log_bytes all) in *. change (aof_on (set_selected_db a dictid)) with (aof_on a).
  change (aof_buf (set_selected_db a dictid)) with (aof_buf a). destruct (sds_rep_len _ _ Hr2) as [El2 _]. destruct (sds_rep_buf _ _ Hr2) as (fr & Eb2).
  assert (exists q, (if aof_on a then q <- sdscatlen (aof_buf a) (buf b2) (sdslen b2);; Some (set_aof_buf (set_selected_db a dictid) q)
      else Some (set_selected_db a dictid)) = Some (set_aof_buf (set_selected_db a dictid) q) /\ sds_rep q (if aof_on a then pend ++ enc else pend)) as (q & -> & Hq).
  { destruct (aof_on a); [|by exists (aof_buf a); destruct a]. rewrite El2, Eb2.
    destruct (sdscatlen_rep (aof_buf a) pend enc (0 :: fr) Hp) as (q & -> & Hq); [fold enc in Eall; rewrite Eall, msize_app; lia|]. by exists q. }
  cbn [obind]. set (a1 := set_aof_buf _ q). change (aof_child a1) with (aof_child a). change (aof_rewrite_buf_blocks a1) with (aof_rewrite_buf_blocks a).
  destruct (aof_child a) eqn:Ec.
  - rewrite El2, Eb2. destruct (aofRewriteBufferAppend_spec _ changes enc (0 :: fr) Hb) as (l & -> & Hl2). cbn [obind].
    eexists. split; [done|]. split; [by destruct a|done|by rewrite Ec].
  - eexists. split; [done|]. split; [by destruct a|done|by rewrite Ec].
Qed.

End Feed.

(** * Flushes *)

Section Flush.
Context {HOST : Host}.

(** What [write] can return for the bytes [pend]. *)
Definition env_ok (env : flush_env) (pend : bytes) : Prop := nwritten env = -1 \/ 0 <= nwritten env <= msize pend.

(** The flush is not postponed: a flush that waits for [fsync] is postponed for at most two seconds. *)
Definition attempts (force : bool) (env : flush_env) (a : aof) : Prop :=
  aof_fsync_policy a <> AOF_FSYNC_EVERYSEC \/ force = true \/ pending_fsync env = false \/
  (aof_flush_postponed_start a <> 0 /\ 2 <= unixtime env - aof_flush_postponed_start a).

(** Both states have the same log settings, and nothing is lost. *)
Record flushed (a a' : aof) (pend pend' : bytes) : Prop := {
  fl_buf : sds_rep (aof_buf a') pend';
  fl_size : aof_current_size a' = msize (aof_file a');
  fl_file : exists X, aof_file a' = aof_file a ++ X /\ pend = X ++ pend';
  fl_same : aof_on a' = aof_on a /\ aof_selected_db a' = aof_selected_db a /\ aof_child a' = aof_child a /\ rdb_child a' = rdb_child a /\
    aof_rewrite_buf_blocks a' = aof_rewrite_buf_blocks a /\ aof_fsync_policy a' = aof_fsync_policy a /\
    aof_no_fsync_on_rewrite a' = aof_no_fsync_on_rewrite a
}.

Lemma flush_postpone_spec force env sync a a1 postponed :
  sync = bool_decide (aof_fsync_policy a = AOF_FSYNC_EVERYSEC) && pending_fsync env -> flush_postpone force env sync a = (a1, postponed) ->
  (exists start delayed, a1 = set_postponed a start delayed) /\ (attempts force env a -> postponed = false).
Proof.
  intros -> E. unfold flush_postpone in E. unfold attempts.
  assert (exists start delayed, a = set_postponed a start delayed) as Hid by (exists (aof_flush_postponed_start a), (aof_delayed_fsync a); by destruct a).
  destruct (bool_decide_reflect (aof_fsync_policy a = AOF_FSYNC_EVERYSEC)); cbn [andb] in E.
  - destruct force; cbn [negb andb] in E; [injection E as <- <-; split; [by do 2 eexists|done]|].
    destruct (pending_fsync env); [|injection E as <- <-; split; [by do 2 eexists|done]].
    destruct (Z.eqb_spec (aof_flush_postponed_start a) 0).
    { injection E as <- <-. split; [by do 2 eexists|]. by intros [?|[?|[?|[? _]]]]. }
    destruct (Z.ltb_spec (unixtime env - aof_flush_postponed_start a) 2); injection E as <- <-; (split; [done || by do 2 eexists|]); [|done].
    intros [?|[?|[?|[_ ?]]]]; try done. lia.
  - injection E as <- <-. split; [by do 2 eexists|done].
Qed.

Lemma flush_sync_same env sync a : exists last synced jobs, flush_sync env sync a = set_synced a last synced jobs /\
  (aof_fsync_policy a = AOF_FSYNC_ALWAYS -> aof_no_fsync_on_rewrite a && (aof_child a || rdb_child a) = false -> synced = msize (aof_file a)).
Proof.
  assert (a = set_synced a (aof_last_fsync a) (aof_synced a) (aof_background_jobs a)) as Hid by (by destruct a).
  unfold flush_sync. destruct (_ && (_ || _)); [by do 3 eexists|]. destruct (bool_decide_reflect (aof_fsync_policy a = AOF_FSYNC_ALWAYS)); [by do 3 eexists|].
  destruct (_ && (_ <? _)); by do 3 eexists.
Qed.

Lemma flush_error_same env a : exists errno log, flush_error env a = set_errno a errno log.
Proof. unfold flush_error. destruct (_ =? -1); eauto. Qed.

(** A [write] that is not complete. *)
Lemma flush_short env a pend file n : sds_rep (aof_buf a) pend -> aof_current_size a = msize (aof_file a) -> env_ok env pend ->
  flush_write env a pend = (file, n, false) -> aof_fsync_policy a <> AOF_FSYNC_ALWAYS ->
  let a1 := set_written (flush_error env a) (aof_current_size a) false file in
  exists a' pend', (if 0 <? n then q <- sdsrange (aof_buf a1) (sint 32 n) (-1);; Some (Running (set_aof_buf (set_written a1 (aof_current_size a1 + n) false file) q))
    else Some (Running a1)) = Some (Running a') /\ flushed a a' pend pend' /\ nwritten env <> msize pend.
Proof.
  intros Hr Hs Henv E Hpol a1. destruct (sds_rep_len _ _ Hr) as [El Hlt]. pose proof (msize_nonneg pend). unfold flush_write in E. rewrite El, sint32_id in E by lia.
  destruct (flush_error_same env a) as (er & lg & Eer). unfold a1. rewrite Eer.
  destruct (Z.eqb_spec (nwritten env) (msize pend)) as [|Hne]; cbn [negb] in E; [done|].
  assert (forall f m, f = aof_file a -> m <= 0 -> exists a' pend', (if 0 <? m then
     q <- sdsrange (aof_buf (set_written (set_errno a er lg) (aof_current_size a) false f)) (sint 32 m) (-1);;
     Some (Running (set_aof_buf (set_written (set_written (set_errno a er lg) (aof_current_size a) false f)
       (aof_current_size (set_written (set_errno a er lg) (aof_current_size a) false f) + m) false f) q))
     else Some (Running (set_written (set_errno a er lg) (aof_current_size a) false f))) = Some (Running a') /\ flushed a a' pend pend' /\ nwritten env <> msize pend) as Hkeep.
  { intros f m -> Hm. rewrite (proj2 (Z.ltb_ge 0 m)) by lia. do 2 eexists. split; [done|]. split; [|done].
    split; [exact Hr|done|exists []; by rewrite app_nil_r|done]. }
  destruct Henv as [Hn|Hn].
  - rewrite Hn in E. cbn [Z.eqb Pos.eqb] in E. injection E as <- <-. apply Hkeep; [|lia]. by rewrite app_nil_r.
  - rewrite (proj2 (Z.eqb_neq (nwritten env) (-1))) in E by lia. destruct (ftruncate_ok env); injection E as <- <-.
    + apply Hkeep; [|lia]. rewrite Hs. unfold msize. by rewrite Nat2Z.id, take_app_length.
    + destruct (Z.eq_dec (nwritten env) 0) as [Hz|Hz]; [apply Hkeep; [|lia]; rewrite Hz; by rewrite app_nil_r|].
      rewrite (proj2 (Z.ltb_lt 0 _)) by lia. destruct (split_at pend (nwritten env)) as (X & Y & EX & HX); [lia|].
      cbn [aof_buf set_written set_errno]. rewrite sint32_id by lia. rewrite EX in Hr. destruct (sdsrange_drop _ X Y Hr) as (q & Eq & Hq).
      assert (take (Z.to_nat (nwritten env)) pend = X) as Et by (rewrite <- HX, EX; unfold msize; by rewrite Nat2Z.id, take_app_length).
      rewrite HX in Eq. rewrite Eq, Et. cbn [obind]. do 2 eexists. split; [done|]. split; [|done].
      split; [exact Hq| |by exists X|done]. cbn [aof_current_size aof_file set_aof_buf set_written set_errno]. rewrite Hs, <- HX. msolve.
Qed.

Lemma flush_spec force env a pend : sds_rep (aof_buf a) pend -> aof_current_size a = msize (aof_file a) -> env_ok env pend ->
  exists r, flushAppendOnlyFile force env a = Some r /\
    match r with
    | Exit1 => aof_fsync_policy a = AOF_FSYNC_ALWAYS /\ nwritten env <> msize pend
    | Running a' => exists pend', flushed a a' pend pend' /\
        (pend <> [] -> attempts force env a -> nwritten env = msize pend -> pend' = [] /\ aof_last_write_ok a' = true /\
          (aof_fsync_policy a = AOF_FSYNC_ALWAYS -> aof_no_fsync_on_rewrite a && (aof_child a || rdb_child a) = false ->
           aof_synced a' = msize (aof_file a')))
    end.
Proof.
  intros Hr Hs Henv. destruct (sds_rep_len _ _ Hr) as [El Hlt]. unfold flushAppendOnlyFile. rewrite El.
  assert (flushed a a pend pend) as Hrefl by (split; [done|done|exists []; by rewrite app_nil_r|done]).
  destruct (Z.eqb_spec (msize pend) 0) as [Hz|Hz].
  { apply msize_0_nil in Hz as ->. eexists. split; [done|]. exists []. by split. }
  set (sync := _ && _). destruct (flush_postpone force env sync a) as [a1 postponed] eqn:Ep.
  destruct (flush_postpone_spec force env sync a a1 postponed eq_refl Ep) as [(st & dl & ->) Hatt]. clear Ep. set (a1 := set_postponed a st dl) in *.
  destruct postponed.
  { eexists. split; [done|]. exists pend. split; [by destruct Hrefl; split|]. intros _ Ha. by specialize (Hatt Ha). }
  change (aof_buf a1) with (aof_buf a). rewrite El. destruct (sds_rep_buf _ _ Hr) as (fr & Eb).
  rewrite Eb, (load_at [] pend (0 :: fr)) by done. cbn [obind]. destruct (flush_write env a1 pend) as [[file n] complete] eqn:Ew.
  destruct complete; cbn [negb].
  - unfold flush_write in Ew. change (aof_buf a1) with (aof_buf a) in Ew. pose proof (msize_nonneg pend). rewrite El, sint32_id in Ew by lia.
    destruct (Z.eqb_spec (nwritten env) (msize pend)) as [En|]; cbn [negb] in Ew; [|destruct (_ =? -1); [done|]; by destruct (ftruncate_ok env)].
    injection Ew as <- <-. rewrite En. replace (take (Z.to_nat (msize pend)) pend) with pend by (unfold msize; by rewrite Nat2Z.id, firstn_all).
    change (aof_file a1) with (aof_file a). set (a2 := set_written a1 _ true _).
    assert (exists q, (if uint 64 (sdslen (aof_buf a2) + sdsavail (aof_buf a2)) <? 4000 then sdsclear (aof_buf a2) else sdsempty) = Some q /\ sds_rep q [])
      as (q & -> & Hq).
    { change (aof_buf a2) with (aof_buf a). destruct (_ <? 4000); [by apply (sdsclear_rep _ pend)|]. destruct sdsempty_rep as (q & ? & ? & _). by exists q. }
    cbn [obind]. destruct (flush_sync_same env sync (set_aof_buf a2 q)) as (la & sy & jo & -> & Hsy). eexists. split; [done|]. exists []. split.
    + split; [exact Hq| |exists pend; by rewrite app_nil_r|done]. cbn [aof_current_size aof_file set_synced set_aof_buf a2 set_written].
      change (aof_current_size a1) with (aof_current_size a). rewrite Hs. msolve.
    + intros _ _ _. split; [done|]. split; [done|]. exact Hsy.
  - change (aof_fsync_policy a1) with (aof_fsync_policy a). destruct (bool_decide_reflect (aof_fsync_policy a = AOF_FSYNC_ALWAYS)) as [Hp|Hp].
    + eexists. split; [done|]. split; [done|]. intros En. unfold flush_write in Ew. change (aof_buf a1) with (aof_buf a) in Ew.
      pose proof (msize_nonneg pend). rewrite El, sint32_id, En, Z.eqb_refl in Ew by lia. done.
    + destruct (flush_short env a1 pend file n) as (a' & pend' & E & [F1 F2 F3 F4] & Hne); [done|done|done|done|done|].
      replace (if 0 <? n then _ else _) with (Some (Running a')) by (symmetry; exact E).
      eexists. split; [done|]. exists pend'. split; [by split|]. intros _ _ ?. by destruct Hne.
Qed.

(** * Runs *)

(** What may be fed: the buffer stays below 1 GB. *)
Definition feed_ok (now : Z) (a : aof) (cmd : proc) (dictid : Z) (argv : list robj) (cmds : list (list bytes)) : Prop :=
  Forall robj_ok argv /\ msize argv < 2 ^ 31 /\ in_sint 32 dictid /\ logged now cmd (obj_val <$> argv) cmds /\
  sdslen (aof_buf a) + msize (log_bytes (with_select (aof_selected_db a) dictid cmds)) < 2 ^ 30.

(** A command is fed, or a flush returns.  The second component is what was logged so far. *)
Inductive aof_step : aof * list (list bytes) -> aof * list (list bytes) -> Prop :=
  | step_feed now a cmd dictid argv cmds a' log : aof_on a = true -> feed_ok now a cmd dictid argv cmds ->
      feedAppendOnlyFile now a cmd dictid argv = Some a' ->
      aof_step (a, log) (a', log ++ with_select (aof_selected_db a) dictid cmds)
  | step_flush force env a a' log : nwritten env = -1 \/ 0 <= nwritten env <= sdslen (aof_buf a) ->
      flushAppendOnlyFile force env a = Some (Running a') -> aof_step (a, log) (a', log).

Definition aof_inv (st : aof * list (list bytes)) : Prop :=
  let '(a, log) := st in
  aof_on a = true /\ aof_current_size a = msize (aof_file a) /\ (exists changes, blocks_rep (aof_rewrite_buf_blocks a) changes) /\
  exists pend, sds_rep (aof_buf a) pend /\ aof_file a ++ pend = log_bytes log.

Lemma feed_inv now a cmd dictid argv cmds log : aof_inv (a, log) -> feed_ok now a cmd dictid argv cmds ->
  exists a', feedAppendOnlyFile now a cmd dictid argv = Some a' /\ aof_inv (a', log ++ with_select (aof_selected_db a) dictid cmds).
Proof.
  intros (Hon & Hs & (ch & Hb) & pend & Hr & Hfile) (Ho & Hn & Hdb & Hl & Hsz). destruct (sds_rep_len _ _ Hr) as [El _]. rewrite El in Hsz.
  destruct (feed_spec now a cmd dictid argv cmds pend ch Hr Hb Ho Hn Hdb Hl Hsz) as (a' & E & [F1 F2 F3]). exists a'. split; [done|].
  rewrite Hon in F2. assert (aof_on a' = aof_on a /\ aof_current_size a' = aof_current_size a /\ aof_file a' = aof_file a) as (G1 & G2 & G3) by (by rewrite F1).
  split; [by rewrite G1|]. split; [by rewrite G2, G3|]. split; [by eexists|]. eexists. split; [exact F2|].
  by rewrite log_bytes_app, G3, <- Hfile, app_assoc.
Qed.

Lemma sds_rep_inj s x y : sds_rep s x -> sds_rep s y -> x = y.
Proof.
  intros (r1 & E1 & L1 & _) (r2 & E2 & L2 & _). rewrite E1 in E2. apply app_inj_1 in E2 as [? _]; [done|].
  rewrite L1 in L2. unfold msize in L2. lia.
Qed.

Lemma flush_inv a a' pend pend' log : aof_inv (a, log) -> sds_rep (aof_buf a) pend -> flushed a a' pend pend' -> aof_inv (a', log).
Proof.
  intros (Hon & Hs & Hb & pend0 & Hr & Hfile) Hp [F1 F2 (X & F3 & F4) (G1 & _ & _ & _ & G5 & _)]. rewrite <- G1 in Hon. rewrite <- G5 in Hb.
  split; [done|]. split; [done|]. split; [done|]. exists pend'. split; [done|]. rewrite <- Hfile, F3, <- app_assoc, <- F4. f_equal.
  by apply (sds_rep_inj (aof_buf a)).
Qed.

Lemma aof_inv_reachable st st' : rtc aof_step st st' -> aof_inv st -> aof_inv st'.
Proof.
  induction 1 as [st|st1 st2 st3 Hstep _ IH]; [done|]. intros H0. apply IH.
  destruct Hstep as [now a1 cmd dictid argv cmds a' log1 Hon Hok E|force env a1 a' log1 Henv E].
  - destruct (feed_inv now a1 cmd dictid argv cmds log1 H0 Hok) as (a2 & E2 & Hinv). rewrite E in E2. by injection E2 as ->.
  - pose proof H0 as (_ & Hs & _ & pend & Hr & _). destruct (sds_rep_len _ _ Hr) as [El _]. rewrite El in Henv.
    destruct (flush_spec force env a1 pend Hr Hs Henv) as (r & E2 & Hc). rewrite E in E2. injection E2 as <-. destruct Hc as (pend' & Hfl & _).
    by apply (flush_inv a1 a' pend pend').
Qed.

End Flush.

(** * Properties *)


(** SETEX k 10 v at time 5000 in database 0: a write that fails, then one that succeeds. *)
Definition example_aof : aof :=
  mkAof true (MkSds 0 0 [0]) (-1) false false [] AOF_FSYNC_EVERYSEC false 0 0 0 0 true 0 0 [] 0 0.

