(* ===== verification/AofLoad.v ===== *)
(** Replay of the append only file, also of one that was cut off. *)

From stdpp Require Import relations.
From S2P Require Import Prelude Util Robj Sds SdsRep SdsArgs Rio RioSpec Rdb RdbSpec Networking NetworkingSpec Aof AofBuffer AofSpec.

(** * Lines of a file *)

Lemma take_line_whole n l : Forall (fun c => c <> 10) l -> (length l <= n)%nat -> take_line n l = l.
Proof.
  intros Hl. revert n. induction Hl as [|c l Hc _ IH]; intros [|n] Hn; cbn [length] in Hn; try lia; [done..|].
  cbn [take_line]. rewrite (proj2 (Z.eqb_neq c 10)) by done. by rewrite IH by lia.
Qed.

Lemma take_line_eol n l r : Forall (fun c => c <> 10) l -> (length l < n)%nat -> take_line n (l ++ 10 :: r) = l ++ [10].
Proof.
  intros Hl. revert n. induction Hl as [|c l Hc _ IH]; intros [|n] Hn; cbn [length] in Hn; try lia; [done|].
  cbn [take_line app]. rewrite (proj2 (Z.eqb_neq c 10)) by done. by rewrite IH by lia.
Qed.

Lemma decimal_no_lf ds v : decimal ds v -> Forall (fun c => c <> 10) ds.
Proof.
  intros [[[Hd _] _]|(d & -> & [Hd _] & _)].
  - eapply list.Forall_impl; [exact Hd|]. cbn. lia.
  - constructor; [lia|]. eapply list.Forall_impl; [exact Hd|]. cbn. lia.
Qed.

(** A line with a number. *)
Lemma fgets_line p ds v rest br : p <> 10 -> decimal ds v -> 0 <= v < 10 ^ 10 ->
  fgets 128 (mkIn (count_bytes p ds ++ rest) br) = (mkIn rest br, Some (count_bytes p ds ++ [0])) /\
  load8 (count_bytes p ds ++ [0]) 0 = Some p /\ strtol (drop 1 (count_bytes p ds ++ [0])) = Some v.
Proof.
  intros Hp Hd Hv. pose proof (decimal_short ds v Hd Hv) as Hs. pose proof (decimal_no_lf ds v Hd) as Hlf.
  split; [|split; [by apply (load8_at [] p ((ds ++ [13; 10]) ++ [0]))|]].
  - unfold fgets, count_bytes. cbn [left app]. replace (p :: (ds ++ [13; 10]) ++ rest) with ((p :: ds ++ [13]) ++ 10 :: rest) by (by lsimpl).
    rewrite take_line_eol.
    + f_equal; [|by lsimpl]. f_equal. change (10 :: rest) with ([10] ++ rest). by rewrite app_assoc, drop_app_length.
    + constructor; [done|]. apply list.Forall_app. split; [done|]. by repeat constructor.
    + cbn [length]. rewrite length_app. unfold msize in Hs. cbn [length]. lia.
  - unfold count_bytes, strtol. cbn [skipn app]. rewrite drop_0. replace ((ds ++ [13; 10]) ++ [0]) with (ds ++ 13 :: [10; 0]) by (by lsimpl).
    rewrite (strtoll_decimal ds v) by (done || unfold LLONG_MIN, LLONG_MAX; lia). done.
Qed.

Lemma strtol_prefix ds1 ds2 v : decimal (ds1 ++ ds2) v -> 0 <= v < 10 ^ 10 -> exists w, 0 <= w <= v /\ strtol (ds1 ++ [0]) = Some w.
Proof.
  intros [[[Hd _] Hv]|(d & _ & _ & _ & Hn)] Hr; [|lia]. apply list.Forall_app in Hd as [Hd1 Hd2].
  pose proof (dec_value_range ds1 Hd1). exists (dec_value 0 ds1). rewrite dec_value_app in Hv. pose proof (dec_value_ge (dec_value 0 ds1) ds2 Hd2).
  split; [lia|]. destruct (decide (ds1 = [])) as [->|Hne]; [done|]. unfold strtol.
  pose proof (strtoll_digits_at [] ds1 0 [] (dec_value 0 ds1)) as E. cbn [app] in E. rewrite E; [done|by left|done|done|done|done|].
  unfold LLONG_MIN, LLONG_MAX. lia.
Qed.

(** A line that was cut off. *)
Lemma fgets_cut p ds v avail X R br : p <> 10 -> decimal ds v -> 0 <= v < 10 ^ 10 -> avail ++ X = count_bytes p ds ++ R -> avail <> [] ->
  msize avail < msize (count_bytes p ds) ->
  exists w, 0 <= w <= v /\ fgets 128 (mkIn avail br) = (mkIn [] br, Some (avail ++ [0])) /\
    load8 (avail ++ [0]) 0 = Some p /\ strtol (drop 1 (avail ++ [0])) = Some w.
Proof.
  intros Hp Hd Hv E Hne Hlt. pose proof (decimal_short ds v Hd Hv) as Hs. pose proof (decimal_no_lf ds v Hd) as Hlf.
  destruct (app_split_lt _ _ _ _ E Hlt) as (c & Ec & Hc). destruct avail as [|p' l]; [done|]. unfold count_bytes in Ec. injection Ec as -> Ec.
  assert (exists w, 0 <= w <= v /\ Forall (fun c => c <> 10) l /\ strtol (l ++ [0]) = Some w) as (w & Hw & Hl & Est).
  { apply app_eq_app in Ec as (k & [[-> Ek]|[E1 Ek]]).
    - destruct k as [|k0 [|k1 k]].
      + rewrite app_nil_r. destruct (strtol_prefix ds [] v) as (w & Hw & Est); [by rewrite app_nil_r|done|]. by exists w.
      + injection Ek as <- _. exists v. split; [lia|]. split; [apply list.Forall_app; split; [done|by repeat constructor]|].
        rewrite <- app_assoc. cbn [app]. unfold strtol. by rewrite (strtoll_decimal ds v) by (done || unfold LLONG_MIN, LLONG_MAX; lia).
      + exfalso. apply Hc. injection Ek as _ _ Ek. symmetry in Ek. by apply app_eq_nil in Ek as [_ ->].
    - subst ds. apply list.Forall_app in Hlf as [Hl _]. destruct (strtol_prefix l k v Hd Hv) as (w & Hw & Est). by exists w. }
  exists w. split; [done|]. split; [|split; [by apply (load8_at [] p (l ++ [0]))|cbn [skipn app]; by rewrite drop_0]]. unfold fgets. cbn [left].
  rewrite take_line_whole; [by rewrite drop_all| |]; [by constructor|]. unfold count_bytes in Hlt. unfold msize in *. cbn [length] in *.
  rewrite length_app in Hlt. cbn [length] in Hlt. lia.
Qed.

Lemma fread1_all bs rest br : fread1 (msize bs) (mkIn (bs ++ rest) br) = (mkIn rest br, Some bs).
Proof.
  unfold fread1. cbn [left broken]. rewrite (proj2 (Z.leb_le _ _)) by msolve. unfold msize. rewrite Nat2Z.id, drop_app_length, take_app_length. done.
Qed.

Lemma fread1_short n l br : msize l < n -> fread1 n (mkIn l br) = (mkIn [] br, None).
Proof. intros Hn. unfold fread1. cbn [left broken]. by rewrite (proj2 (Z.leb_gt _ _)) by lia. Qed.

Section Load.
Context {HOST : Host}.

(** The string an argument is read into. *)
Lemma load_string a : msize a <= 512 * 1024 * 1024 ->
  exists s b, sdsnewlen None (msize a) = Some s /\ store (Sds.buf s) 0 a = Some b /\ obj_of_sds (set_buf s b) = Some (ObjSds a).
Proof.
  intros Ha. pose proof (msize_nonneg a). rewrite sdsnewlen_null by lia. do 2 eexists. split; [done|]. cbn [Sds.buf].
  rewrite (store_at [] (replicate (Z.to_nat (msize a)) 0) [0]); [|done|done|rewrite msize_replicate; lia]. split; [done|]. cbn [app].
  apply obj_of_sds_rep. exists []. cbn [Sds.buf len free set_buf]. rewrite msize_nil. split; [done|]. lia.
Qed.

(** One argument: read, or cut off. *)
Lemma load_arg n a e avail X R br argv : arg_enc a e -> msize a <= 512 * 1024 * 1024 -> avail ++ X = e ++ R ->
  (exists avail', avail = e ++ avail' /\ avail' ++ X = R /\
     load_args (Datatypes.S n) (mkIn avail br) argv = load_args n (mkIn avail' br) (argv ++ [ObjSds a])) \/
  (msize avail < msize e /\ exists f', load_args (Datatypes.S n) (mkIn avail br) argv = Some (f', Exit1)).
Proof.
  intros (ds & Hd & ->) Ha E. pose proof (msize_nonneg a). cbn [load_args].
  destruct (Z.lt_ge_cases (msize avail) (msize (count_bytes 36 ds))) as [Hlt|Hge].
  - right. unfold bulk_bytes in *. rewrite <- app_assoc in E. split; [rewrite msize_app; pose proof (msize_nonneg (a ++ [13; 10])); lia|].
    destruct (decide (avail = [])) as [->|Hne]; [by eexists|].
    destruct (fgets_cut 36 ds (msize a) avail X ((a ++ [13; 10]) ++ R) br) as (w & Hw & -> & -> & ->); [done|done|lia|done|done|done|].
    cbn [obind Z.eqb Pos.eqb negb]. rewrite uint_id, sdsnewlen_null by lia. cbn [obind].
    destruct (Z.eqb_spec w 0) as [->|Hw0]; cbn [negb]; [|rewrite fread1_short by (rewrite msize_nil; lia); by eexists].
    cbn [Z.to_nat replicate app Sds.buf]. rewrite (store_at [] [] [0]) by done. cbn [obind app].
    rewrite (obj_of_sds_rep _ []) by (exists []; cbn; done). cbn [obind]. rewrite fread1_short by done. by eexists.
  - unfold bulk_bytes in *. rewrite <- app_assoc in E. destruct (app_split_ge _ _ _ _ E Hge) as (l & -> & El).
    destruct (fgets_line 36 ds (msize a) l br) as (-> & -> & ->); [done|done|lia|]. cbn [obind Z.eqb Pos.eqb negb]. rewrite uint_id by lia.
    destruct (load_string a Ha) as (s & b & -> & Eb & Eo). cbn [obind]. rewrite <- app_assoc in El.
    destruct (Z.lt_ge_cases (msize l) (msize a)) as [Hlt|Hge2].
    + right. split; [rewrite !msize_app; change (msize [13; 10]) with 2; lia|]. pose proof (msize_nonneg l).
      rewrite (proj2 (Z.eqb_neq _ 0)) by lia. cbn [negb]. rewrite fread1_short by done. by eexists.
    + destruct (app_split_ge _ _ _ _ El Hge2) as (l2 & -> & El2).
      replace (if negb (msize a =? 0) then _ else _) with (mkIn l2 br, Some a).
      2: { destruct (Z.eqb_spec (msize a) 0) as [Hz|Hz]; cbn [negb]; [by apply msize_0_nil in Hz as ->|by rewrite fread1_all]. }
      rewrite Eb. cbn [obind]. rewrite Eo. cbn [obind]. destruct (Z.lt_ge_cases (msize l2) 2) as [Hlt|Hge3].
      * right. split; [rewrite !msize_app; change (msize [13; 10]) with 2; lia|]. rewrite fread1_short by done. by eexists.
      * left. destruct (app_split_ge _ _ _ _ El2 Hge3) as (l3 & -> & El3). exists l3. split; [by lsimpl|]. split; [done|].
        change 2 with (msize [13; 10]). by rewrite fread1_all.
Qed.

Lemma load_args_spec args es : Forall2 arg_enc args es -> Forall (fun a => msize a <= 512 * 1024 * 1024) args -> forall avail X R br argv,
  avail ++ X = concat es ++ R ->
  (exists avail', avail = concat es ++ avail' /\ avail' ++ X = R /\
     load_args (length args) (mkIn avail br) argv = Some (mkIn avail' br, Running (argv ++ (ObjSds <$> args)))) \/
  (msize avail < msize (concat es) /\ exists f', load_args (length args) (mkIn avail br) argv = Some (f', Exit1)).
Proof.
  induction 1 as [|a e args es He _ IH]; intros Ha avail X R br argv E.
  - left. exists avail. split; [done|]. split; [done|]. cbn. by rewrite app_nil_r.
  - apply list.Forall_cons in Ha as [Ha Hargs]. cbn [concat length] in *. rewrite <- app_assoc in E. rewrite msize_app.
    destruct (load_arg (length args) a e avail X (concat es ++ R) br argv He Ha E) as [(l & -> & El & ->)|[Hlt Hex]].
    + destruct (IH Hargs l X R br (argv ++ [ObjSds a]) El) as [(l' & -> & El' & ->)|[Hlt Hex]].
      * left. exists l'. split; [by rewrite app_assoc|]. split; [done|]. rewrite fmap_cons, <- app_assoc. done.
      * right. split; [rewrite msize_app; lia|done].
    + right. split; [pose proof (msize_nonneg (concat es)); lia|done].
Qed.

End Load.

(** * The replay *)

Section Replay.
Context {HOST : Host} {srv cmd : Type}.
Variable lookupCommand : bytes -> option cmd.
Variable call_proc : cmd -> srv -> client -> srv * client * bool.
Variable serve : srv -> srv.
Variable exec : srv * client_flags -> list bytes -> srv * client_flags.
Variable cmds : list (list bytes).

(** What the commands of the log do to the server and to the flags of the fake client. *)
Definition replay_ok : Prop := forall s c args, args ∈ cmds -> argv c = ObjSds <$> args ->
  exists k, lookupCommand (hd [] args) = Some k /\
    call_proc k s c = ((exec (s, flags c) args).1, set_flags c (exec (s, flags c) args).2, false) /\
    BLOCKED (exec (s, flags c) args).2 = false.

(** The first command is there, or cut off. *)
Lemma load_command args e avail X L br s c loops fuel : replay_ok -> (forall s, serve s = s) -> args ∈ cmds -> cmd_ok args -> cmd_enc args e ->
  avail ++ X = e ++ L -> argv c = [] ->
  (exists avail', avail = e ++ avail' /\ avail' ++ X = L /\
     load_loop lookupCommand call_proc serve (Datatypes.S fuel) loops (mkIn avail br) s c =
     load_loop lookupCommand call_proc serve fuel (loops + 1) (mkIn avail' br) (exec (s, flags c) args).1
       (set_flags c (exec (s, flags c) args).2)) \/
  (msize avail < msize e /\ (avail <> [] -> load_loop lookupCommand call_proc serve (Datatypes.S fuel) loops (mkIn avail br) s c = Some (s, Exit1))).
Proof.
  intros Hrep Hserve Hin (Hne & Hn & Hsz) (dn & es & Hd & Hes & ->) E Hav. cbn [load_loop]. rewrite Hserve.
  replace (if loops mod 1000 =? 0 then s else s) with s by (by destruct (_ =? _)).
  assert (1 <= msize args) by (destruct args; [done|msolve]). rewrite <- app_assoc in E. rewrite msize_app.
  pose proof (msize_nonneg (concat es)). destruct (Z.lt_ge_cases (msize avail) (msize (count_bytes 42 dn))) as [Hlt|Hge].
  - right. split; [lia|]. intros Hav0.
    destruct (fgets_cut 42 dn (msize args) avail X (concat es ++ L) br) as (w & Hw & -> & -> & Est); [done|done|lia|done|done|done|].
    cbn [obind Z.eqb Pos.eqb negb]. unfold atoi. rewrite Est. cbn [obind]. rewrite sint32_id by lia. destruct (Z.ltb_spec w 1); [done|].
    destruct (Z.to_nat w) as [|m] eqn:Em; [lia|]. done.
  - destruct (app_split_ge _ _ _ _ E Hge) as (l & -> & El).
    destruct (fgets_line 42 dn (msize args) l br) as (-> & -> & Est); [done|done|lia|]. cbn [obind Z.eqb Pos.eqb negb]. unfold atoi. rewrite Est.
    cbn [obind]. rewrite sint32_id by lia. destruct (Z.ltb_spec (msize args) 1); [lia|]. replace (Z.to_nat (msize args)) with (length args) by (unfold msize; lia).
    destruct (load_args_spec args es Hes Hsz l X L br [] El) as [(l' & -> & El' & E2)|[Hlt (f' & E2)]]; rewrite E2; cbn [obind].
    + left. exists l'. split; [by rewrite app_assoc|]. split; [done|]. destruct args as [|a args]; [done|]. 
      change ([] ++ (ObjSds <$> a :: args)) with (ObjSds <$> a :: args). change ((ObjSds <$> a :: args) !! 0%nat) with (Some (ObjSds a)). cbn [obind].
      destruct (Hrep s (set_argv c (@fmap list list_fmap _ _ ObjSds (a :: args))) (a :: args) Hin eq_refl) as (k & Hk & Hcall & Hbl). cbn [hd] in Hk. rewrite Hk.
      rewrite Hcall. change (flags (set_argv c _)) with (flags c) in *. cbn [flags set_flags]. rewrite Hbl. do 2 f_equal.
      destruct c. cbn in Hav. by subst.
    + right. split; [rewrite msize_app; lia|done].
Qed.

Lemma load_loop_spec more L : replay_ok -> (forall s, serve s = s) -> stream more L -> (forall a, a ∈ more -> a ∈ cmds) -> Forall cmd_ok more ->
  forall fuel loops avail X br s c, avail ++ X = L -> argv c = [] -> (length avail < fuel)%nat ->
  exists done rest K Y, more = done ++ rest /\ stream done K /\ avail = K ++ Y /\
    match rest with [] => Y = [] | args :: _ => exists e, cmd_enc args e /\ msize Y < msize e end /\
    let '(s', f') := foldl exec (s, flags c) done in
    load_loop lookupCommand call_proc serve fuel loops (mkIn avail br) s c =
      Some (s', if bool_decide (Y = []) && negb br && negb (MULTI f') then Running (set_flags c f') else Exit1).
Proof.
  intros Hrep Hserve Hst. induction Hst as [|args more e L He Hst IH]; intros Hin Hok [|fuel] loops avail X br s c E Hav Hf; try lia.
  - apply app_eq_nil in E as [-> _]. exists [], [], [], []. do 4 (split; [by constructor|]). cbn [load_loop foldl]. rewrite Hserve.
    replace (if loops mod 1000 =? 0 then s else s) with s by (by destruct (_ =? _)). unfold feof. cbn [fgets left broken].
    destruct br; cbn [negb andb]; [done|]. f_equal. f_equal. destruct (MULTI (flags c)) eqn:EM; cbn [negb]; [done|]. f_equal. by destruct c.
  - apply list.Forall_cons in Hok as [Ho Hok].
    destruct (load_command args e avail X L br s c loops fuel Hrep Hserve) as [(l & -> & El & E2)|[Hlt E2]]; try done; [by apply Hin; left|..].
    + rewrite length_app in Hf. destruct (cmd_enc_head args e He) as (e' & Ee). rewrite Ee in Hf. cbn [length] in Hf.
      set (st := exec (s, flags c) args) in *.
      destruct (IH ltac:(intros; apply Hin; by right) Hok fuel (loops + 1) l X br st.1 (set_flags c st.2) El Hav ltac:(lia))
        as (done & rest & K & Y & -> & HK & -> & HY & Hres). exists (args :: done), rest, (e ++ K), Y. split; [done|]. split; [by constructor|].
      split; [by rewrite app_assoc|]. split; [done|]. cbn [foldl]. fold st. rewrite E2. cbn [flags set_flags] in Hres.
      clearbody st. destruct st as [s1 f1]. cbn [fst snd] in *. destruct (foldl exec (s1, f1) done) as [s' f']. by rewrite Hres.
    + exists [], (args :: more), [], avail. split; [done|]. split; [constructor|]. split; [done|]. split; [by exists e|]. cbn [foldl].
      destruct (bool_decide_reflect (avail = [])) as [->|Hne]; cbn [andb]; [|by apply E2].
      cbn [load_loop]. rewrite Hserve. replace (if loops mod 1000 =? 0 then s else s) with s by (by destruct (_ =? _)). unfold feof. cbn [fgets left broken].
      destruct br; cbn [negb andb]; [done|]. f_equal. f_equal. destruct (MULTI (flags c)) eqn:EM; cbn [negb]; [done|]. f_equal. by destruct c.
Qed.

End Replay.

(** * Streams *)

Lemma cmd_enc_fun args e e' : cmd_enc args e -> cmd_enc args e' -> e = e'.
Proof.
  intros (dn & es & Hd & Hes & ->) (dn' & es' & Hd' & Hes' & ->). rewrite (decimal_inj _ _ _ Hd Hd'). f_equal. f_equal.
  clear Hd Hd'. revert es' Hes'. induction Hes as [|a e args es (ds & H1 & ->) _ IH]; intros es' Hes'; inversion Hes' as [|? ? ? ? (ds' & H2 & ->)]; subst; [done|].
  rewrite (decimal_inj _ _ _ H1 H2). f_equal. by apply IH.
Qed.

Lemma stream_fun cmds K K' : stream cmds K -> stream cmds K' -> K = K'.
Proof.
  intros H. revert K'. induction H as [|args more e l He _ IH]; intros K' H'; inversion H' as [|? ? e' l' He' Hl']; subst; [done|].
  rewrite (cmd_enc_fun _ _ _ He He'). f_equal. by apply IH.
Qed.

Lemma stream_split done rest L : stream (done ++ rest) L -> exists K K', L = K ++ K' /\ stream done K /\ stream rest K'.
Proof.
  revert L. induction done as [|args done IH]; intros L H; [exists [], L; split; [done|]; by split; [constructor|]|].
  inversion H as [|? ? e l He Hl]; subst. destruct (IH l Hl) as (K & K' & -> & H1 & H2). exists (e ++ K), K'.
  split; [by rewrite app_assoc|]. split; [by constructor|done].
Qed.

(** * Properties *)

Definition no_flags : client_flags := mkFlags false false false false false false.

(** C7. Recovery: whatever was logged and however the writes failed, if the server stops and any
    part at the end of the file is lost, the replay at the next start executes exactly the commands
    that are complete in what is left, in order; it then accepts the file if nothing of another
    command and no open transaction follows, and exits otherwise (a truncated file is
    never silently accepted). So after a complete flush and no loss, all logged commands are replayed. *)
Theorem aof_recovery {HOST : Host} {srv cmd : Type} (lookupCommand : bytes -> option cmd) (call_proc : cmd -> srv -> client -> srv * client * bool)
    (serve : srv -> srv) (exec : srv * client_flags -> list bytes -> srv * client_flags) (a0 a : aof) (log : list (list bytes)) (s0 : srv)
    (avail lost : bytes) (br : bool)
    (H0 : aof_inv (a0, [])) (Hrun : rtc aof_step (a0, []) (a, log)) (Hok : Forall cmd_ok log)
    (Hrep : replay_ok lookupCommand call_proc exec log) (Hserve : forall s, serve s = s)
    (Hfile : aof_file a = avail ++ lost) (Hne : avail <> []) :
  exists done rest K Y, log = done ++ rest /\ stream done K /\ avail = K ++ Y /\
    match rest with [] => Y = [] | args :: _ => exists e, cmd_enc args e /\ msize Y < msize e end /\
    (lost = [] -> sdslen (aof_buf a) = 0 -> done = log /\ Y = []) /\
    let '(s', f') := foldl exec (s0, no_flags) done in
    loadAppendOnlyFile lookupCommand call_proc serve (Some (mkIn avail br)) s0 =
      Some (s', if bool_decide (Y = []) && negb br && negb (MULTI f') then Running true else Exit1).
Proof.
  assert (aof_inv (a, log)) as (_ & _ & _ & pend & Hr & Ef) by (by apply (aof_inv_reachable (a0, []))).
  pose proof (log_bytes_stream log Hok) as Hst. rewrite <- Ef, Hfile, <- app_assoc in Hst.
  destruct sdsempty_rep as (q & Eq & _). set (c := mkClient q 0 0 (-1) [] no_flags []).
  destruct (load_loop_spec lookupCommand call_proc serve exec log log _ Hrep Hserve Hst (fun _ Ha => Ha) Hok (Datatypes.S (length avail)) 0 avail (lost ++ pend) br s0 c)
    as (fin & rest & K & Y & E1 & HK & E2 & HY & Hres); [done|done|lia|]. exists fin, rest, K, Y. do 4 (split; [done|]). split.
  - intros -> Hlen. destruct (sds_rep_len _ _ Hr) as [El _]. rewrite El in Hlen. apply msize_0_nil in Hlen as ->. rewrite app_nil_r in Hst.
    destruct rest as [|args rest]; [by rewrite E1, app_nil_r|]. exfalso. destruct HY as (e & He & Hlt). rewrite E1, E2 in Hst. cbn [app] in Hst.
    rewrite ?app_nil_r in Hst. destruct (stream_split fin (args :: rest) _ Hst) as (K' & L & EK & HK' & HL). rewrite (stream_fun _ _ _ HK HK') in EK.
    apply app_inv_head in EK as ->. inversion HL as [|? ? e' l' He' HL']; subst. rewrite (cmd_enc_fun _ _ _ He He') in Hlt. rewrite msize_app in Hlt.
    pose proof (msize_nonneg l'). lia.
  - cbn [flags c] in Hres. destruct (foldl exec (s0, no_flags) fin) as [s' f']. unfold loadAppendOnlyFile, feof. cbn [left].
    rewrite bool_decide_eq_false_2 by done. cbn [andb]. unfold createFakeClient. rewrite Eq. cbn [obind]. change (mkClient q 0 0 (-1) [] _ []) with c.
    rewrite Hres. cbn [obind]. by destruct (_ && _).
Qed.

Definition example_log : list (list bytes) := [[s_SELECT; [48]]; [s_SET; [107]; [118]]].

Lemma example_run : exists a, rtc (@aof_step le_host) (example_aof, []) (a, example_log) /\ aof_file a = log_bytes example_log.
Proof.
  set (argv := [ObjSds s_SET; ObjSds [107]; ObjSds [118]]).
  assert (@feed_ok le_host 0 example_aof otherCommand 0 argv [[s_SET; [107]; [118]]]) as Hok.
  { split; [by repeat constructor; vm_compute|]. split; [done|]. split; [by vm_compute|]. split; [|by vm_compute]. apply logged_other. }
  eexists. split.
  - eapply rtc_l; [refine (step_feed 0 example_aof otherCommand 0 argv _ _ [] eq_refl Hok _); vm_compute; reflexivity|].
    eapply rtc_l; [|apply rtc_refl].
    refine (step_flush true (mkFlushEnv 1 false 50 0 true) _ _ example_log _ _); [vm_compute; right; split; congruence|vm_compute; reflexivity].
  - by vm_compute.
Qed.

(** A server that collects the commands. *)
Definition collect (s : list (list bytes) * client_flags) (args : list bytes) : list (list bytes) * client_flags := (s.1 ++ [args], no_flags).

Definition call_collect (_ : unit) (s : list (list bytes)) (c : client) : list (list bytes) * client * bool :=
  (s ++ [(fun o => match o with ObjSds b => b | ObjInt _ => [] end) <$> argv c], set_flags c no_flags, false).

Lemma collect_ok log : replay_ok (fun _ => Some tt) call_collect collect log.
Proof.
  intros s c args _ Ea. exists tt. split; [done|]. split; [|done]. unfold call_collect. rewrite Ea, <- list_fmap_compose, list_fmap_id. done.
Qed.

(** The last byte of the file is lost. *)
Lemma aof_recovery_witness :
  exists K Y, stream [[s_SELECT; [48]]] K /\ take 49 (log_bytes example_log) = K ++ Y /\
    @loadAppendOnlyFile le_host _ unit (fun _ => Some tt) call_collect id (Some (mkIn (take 49 (log_bytes example_log)) false)) [] =
      Some ([[s_SELECT; [48]]], Exit1).
Proof.
  destruct example_run as (a & Hrun & Hfile).
  assert (aof_inv (example_aof, [])) as H0.
  { split; [done|]. split; [done|]. split; [exists []; constructor|]. exists []. split; [exists []; by vm_compute|done]. }
  assert (Forall cmd_ok example_log) as Hok by (repeat constructor; vm_compute; congruence).
  set (avail := take 49 (log_bytes example_log)).
  destruct (@aof_recovery le_host _ unit (fun _ => Some tt) call_collect id collect example_aof a example_log [] avail (drop 49 (log_bytes example_log)) false H0 Hrun Hok
    (collect_ok _) (fun _ => eq_refl)) as (fin & rest & K & Y & E1 & HK & E2 & HY & _ & Hres); [by rewrite Hfile|by vm_compute|].
  destruct fin as [|c1 [|c2 fin]].
  - exfalso. inversion HK; subst. cbn [app] in *. subst. destruct HY as (e & He & Hlt).
    rewrite (cmd_enc_fun _ _ (cmd_bytes [s_SELECT; [48]]) He) in Hlt; [by vm_compute in Hlt|]. apply cmd_bytes_enc. by apply list.Forall_cons in Hok as [? _].
  - injection E1 as <- <-. exists K, Y. split; [done|]. split; [done|]. cbn [foldl collect fst snd app] in Hres. fold avail. rewrite Hres.
    destruct (bool_decide_reflect (Y = [])) as [->|]; [|done]. exfalso. rewrite app_nil_r in E2.
    rewrite (stream_fun _ _ (log_bytes [[s_SELECT; [48]]]) HK) in E2; [by vm_compute in E2|]. apply log_bytes_stream. by repeat constructor; vm_compute.
  - exfalso. destruct fin; [|done]. injection E1 as <- <- <-. subst Y. rewrite app_nil_r in E2. rewrite (stream_fun _ _ (log_bytes example_log) HK) in E2; [by vm_compute in E2|].
    by apply log_bytes_stream.
Defined.
