(* ===== verification/Reply.v ===== *)
(** Replies to clients: the output buffers of networking.c.

    A reply goes to the static buffer of the client as long as it fits, and then to a list of
    string objects, which may be shared with the rest of the server: the objects are on
    a heap with reference counts.  What the system decides (the result of a [write], whether
    a handler can be installed, the clock) is an argument. *)

From stdpp Require Import gmap.
From S2P Require Import Prelude Util Sds SdsRep.

(** * String objects *)

Abbreviation oid := positive.

Inductive encoding := REDIS_ENCODING_RAW | REDIS_ENCODING_EMBSTR | REDIS_ENCODING_INT.

#[export] Instance encoding_eq_dec : EqDecision encoding.
Proof. solve_decision. Defined.

(** [o->ptr] *)
Inductive payload := PNull | PSds (s : sdshdr) | PInt (v : Z).

Record sobj := mkObj { refcount : Z; enc : encoding; optr : payload }.

Abbreviation heap := (gmap oid sobj).

Definition newObject (h : heap) (ob : sobj) : heap * oid :=
  let o := base.fresh (dom h : gset oid) in (<[o := ob]> h, o).

Definition createObject (h : heap) (p : payload) : heap * oid := newObject h (mkObj 1 REDIS_ENCODING_RAW p).

Definition REDIS_ENCODING_EMBSTR_SIZE_LIMIT := 32.

Section Objects.
Context `{Host}.

Definition createRawStringObject (h : heap) (ptr : bytes) (len : Z) : option (heap * oid) :=
  s <- sdsnewlen (Some ptr) len;; Some (createObject h (PSds s)).

Definition createEmbeddedStringObject (h : heap) (ptr : bytes) (len : Z) : option (heap * oid) :=
  d <- load ptr 0 len;;
  Some (newObject h (mkObj 1 REDIS_ENCODING_EMBSTR (PSds (MkSds (sint 32 len) 0 (d ++ [0]))))).

Definition createStringObject (h : heap) (ptr : bytes) (len : Z) : option (heap * oid) :=
  if len <=? REDIS_ENCODING_EMBSTR_SIZE_LIMIT then createEmbeddedStringObject h ptr len else createRawStringObject h ptr len.

Definition dupStringObject (h : heap) (o : oid) : option (heap * oid) :=
  ob <- h !! o;;
  match enc ob, optr ob with
  | REDIS_ENCODING_RAW, PSds s => createRawStringObject h (buf s) (sdslen s)
  | REDIS_ENCODING_EMBSTR, PSds s => createEmbeddedStringObject h (buf s) (sdslen s)
  | REDIS_ENCODING_INT, p => Some (newObject h (mkObj 1 REDIS_ENCODING_INT p))
  | _, _ => None
  end.

Definition incrRefCount (h : heap) (o : oid) : option heap :=
  ob <- h !! o;; Some (<[o := mkObj (refcount ob + 1) (enc ob) (optr ob)]> h).

Definition decrRefCount (h : heap) (o : oid) : option heap :=
  ob <- h !! o;;
  if refcount ob <=? 0 then None
  else if refcount ob =? 1 then Some (delete o h)
  else Some (<[o := mkObj (refcount ob - 1) (enc ob) (optr ob)]> h).

(** The object and the heap after [getDecodedObject], which takes a reference. *)
Definition getDecodedObjectRef (h : heap) (o : oid) : option (heap * oid) :=
  ob <- h !! o;;
  match optr ob with
  | PSds _ => h <- incrRefCount h o;; Some (h, o)
  | PInt v =>
    ' (b, _) <- ll2string (zmalloc 32) 32 v;;
    n <- strlen b;;
    createStringObject h b n
  | PNull => None
  end.

(** [o->ptr = s], for an object that holds an sds string. *)
Definition set_ptr (h : heap) (o : oid) (s : sdshdr) : option heap :=
  ob <- h !! o;; Some (<[o := mkObj (refcount ob) (enc ob) (PSds s)]> h).

End Objects.

(** * Clients *)

Definition REDIS_REPLY_CHUNK_BYTES := 16 * 1024.
Definition REDIS_SHARED_BULKHDR_LEN := 32.
Definition REDIS_MAX_WRITE_PER_EVENT := 1024 * 64.

(** The flags that matter for replies. *)
Record reply_flags := mkRFlags {
  LUA_CLIENT : bool; MASTER : bool; MASTER_FORCE_REPLY : bool; RCLOSE_AFTER_REPLY : bool; CLOSE_ASAP : bool; SLAVE : bool; PRE_PSYNC : bool
}.

(** The state of a slave; a client that is not a slave has [REDIS_REPL_NONE]. *)
Inductive repl_state := REDIS_REPL_NONE | REDIS_REPL_WAIT_BGSAVE_START | REDIS_REPL_WAIT_BGSAVE_END | REDIS_REPL_SEND_BULK | REDIS_REPL_ONLINE.

#[export] Instance repl_state_eq_dec : EqDecision repl_state.
Proof. solve_decision. Defined.

(** The transfer of a dump file to a slave: [repldbfd] is the open file, as its contents, [replpreamble] what is left of the
    preamble, [bulk_handler] whether [sendBulkToSlave] is installed. *)
Record bulk_state := mkBulk { repldbfd : option bytes; repldboff : Z; repldbsize : Z; replpreamble : option sdshdr; bulk_handler : bool }.

(** The fields of a client for replies; [write_handler] is whether [sendReplyToClient] is installed. *)
Record rclient := mkRClient {
  rflags : reply_flags;
  fd : Z;
  replstate : repl_state;
  obuf : bytes;
  bufpos : Z;
  sentlen : Z;
  reply : list oid;
  reply_bytes : Z;
  obuf_soft_limit_reached_time : Z;
  lastinteraction : Z;
  write_handler : bool;
  repl_ack_time : Z;
  bulk : bulk_state
}.

(** [c->replstate == REDIS_REPL_NONE || c->replstate == REDIS_REPL_ONLINE] *)
Definition replnone (c : rclient) : bool := match replstate c with REDIS_REPL_NONE | REDIS_REPL_ONLINE => true | _ => false end.

Definition set_buffer (c : rclient) (b : bytes) (pos sent : Z) : rclient :=
  mkRClient (rflags c) (fd c) (replstate c) b pos sent (reply c) (reply_bytes c) (obuf_soft_limit_reached_time c) (lastinteraction c) (write_handler c) (repl_ack_time c) (bulk c).
Definition set_reply (c : rclient) (l : list oid) (n : Z) : rclient :=
  mkRClient (rflags c) (fd c) (replstate c) (obuf c) (bufpos c) (sentlen c) l (uint 64 n) (obuf_soft_limit_reached_time c) (lastinteraction c) (write_handler c) (repl_ack_time c) (bulk c).
Definition set_handler (c : rclient) (w : bool) : rclient :=
  mkRClient (rflags c) (fd c) (replstate c) (obuf c) (bufpos c) (sentlen c) (reply c) (reply_bytes c) (obuf_soft_limit_reached_time c) (lastinteraction c) w (repl_ack_time c) (bulk c).
Definition set_soft_limit (c : rclient) (t : Z) : rclient :=
  mkRClient (rflags c) (fd c) (replstate c) (obuf c) (bufpos c) (sentlen c) (reply c) (reply_bytes c) t (lastinteraction c) (write_handler c) (repl_ack_time c) (bulk c).
Definition set_interaction (c : rclient) (t : Z) : rclient :=
  mkRClient (rflags c) (fd c) (replstate c) (obuf c) (bufpos c) (sentlen c) (reply c) (reply_bytes c) (obuf_soft_limit_reached_time c) t (write_handler c) (repl_ack_time c) (bulk c).
Definition set_close_asap (c : rclient) : rclient :=
  let f := rflags c in
  mkRClient (mkRFlags (LUA_CLIENT f) (MASTER f) (MASTER_FORCE_REPLY f) (RCLOSE_AFTER_REPLY f) true (SLAVE f) (PRE_PSYNC f)) (fd c) (replstate c) (obuf c) (bufpos c) (sentlen c)
    (reply c) (reply_bytes c) (obuf_soft_limit_reached_time c) (lastinteraction c) (write_handler c) (repl_ack_time c) (bulk c).

(** What the server and the system decide: the limits of the class of the client, the clock, and
    whether [aeCreateFileEvent] succeeds. *)
Record reply_env := mkREnv {
  hard_limit_bytes : Z; soft_limit_bytes : Z; soft_limit_seconds : Z; unixtime : Z; aeCreateFileEvent_ok : bool
}.

(** The allocator: the usable size of a block, by its requested size. *)
Class Allocator := { zmalloc_size : Z -> Z }.

Section Reply.
Context `{Host}.
Context {AL : Allocator}.

Definition zmalloc_size_sds (s : sdshdr) : Z := zmalloc_size (sdsAllocSize s).

Definition getStringObjectSdsUsedMemory (ob : sobj) : option Z :=
  match enc ob, optr ob with
  | REDIS_ENCODING_RAW, PSds s => Some (zmalloc_size_sds s)
  | REDIS_ENCODING_EMBSTR, PSds s => Some (sdslen s)
  | REDIS_ENCODING_INT, _ => Some 0
  | _, _ => None
  end.

(** Whether the result is [REDIS_OK]. *)
Definition prepareClientToWrite (e : reply_env) (c : rclient) : rclient * bool :=
  let f := rflags c in
  if LUA_CLIENT f then (c, true) else
  if MASTER f && negb (MASTER_FORCE_REPLY f) then (c, false) else
  if fd c <=? 0 then (c, false) else
  if (bufpos c =? 0) && bool_decide (reply c = []) && replnone c then
    if aeCreateFileEvent_ok e then (set_handler c true, true) else (c, false)
  else (c, true).

(** The last element of the reply list and those before it. *)
Definition lastNode (l : list oid) : option (list oid * oid) :=
  match rev l with [] => None | o :: r => Some (rev r, o) end.

(** The heap, the reply list and its last object. *)
Definition dupLastObjectIfNeeded (h : heap) (l : list oid) : option (heap * list oid * oid) :=
  ' (before, cur) <- lastNode l;;
  ob <- h !! cur;;
  if refcount ob >? 1 then
    ' (h, new) <- dupStringObject h cur;;
    h <- decrRefCount h cur;;
    Some (h, before ++ [new], new)
  else Some (h, l, cur).

Definition getClientOutputBufferMemoryUsage (c : rclient) : Z :=
  let list_item_size := 24 + 16 in
  uint 64 (reply_bytes c + list_item_size * msize (reply c)).

Definition checkClientOutputBufferLimits (e : reply_env) (c : rclient) : rclient * bool :=
  let used_mem := getClientOutputBufferMemoryUsage c in
  let hard := negb (hard_limit_bytes e =? 0) && (used_mem >=? hard_limit_bytes e) in
  let soft := negb (soft_limit_bytes e =? 0) && (used_mem >=? soft_limit_bytes e) in
  if soft then
    if obuf_soft_limit_reached_time c =? 0 then (set_soft_limit c (unixtime e), hard)
    else
      let elapsed := unixtime e - obuf_soft_limit_reached_time c in
      (c, (if elapsed <=? soft_limit_seconds e then false else true) || hard)
  else (set_soft_limit c 0, hard).

Definition freeClientAsync (c : rclient) : rclient := if CLOSE_ASAP (rflags c) then c else set_close_asap c.

Definition asyncCloseClientOnOutputBufferLimitReached (e : reply_env) (c : rclient) : option rclient :=
  if negb (reply_bytes c <? 2 ^ 64 - 1 - 1024 * 64) then None else
  if (reply_bytes c =? 0) || CLOSE_ASAP (rflags c) then Some c else
  let '(c, reached) := checkClientOutputBufferLimits e c in
  Some (if reached : bool then freeClientAsync c else c).

(** * Low level functions *)

(** The client and whether the result is [REDIS_OK]. *)
Definition _addReplyToBuffer (c : rclient) (s : bytes) (len : Z) : option (rclient * bool) :=
  let available := uint 64 (REDIS_REPLY_CHUNK_BYTES - bufpos c) in
  if RCLOSE_AFTER_REPLY (rflags c) then Some (c, true) else
  if negb (bool_decide (reply c = [])) then Some (c, false) else
  if len >? available then Some (c, false) else
  d <- load s 0 len;;
  b <- store (obuf c) (bufpos c) d;;
  Some (set_buffer c b (sint 32 (bufpos c + len)) (sentlen c), true).

(** The common part of the three functions that follow: append [s] to the last object of the list where
    possible, else add what [node] creates. *)
Definition append_or_node (e : reply_env) (h : heap) (c : rclient) (s : bytes) (len : Z) (node : heap -> option (heap * oid * Z)) :
    option (heap * rclient) :=
  ' (h, c) <-
    (let add := ' (h, o, mem) <- node h;; Some (h, set_reply c (reply c ++ [o]) (reply_bytes c + mem)) in
     match lastNode (reply c) with
     | None => add
     | Some (_, tail) =>
       ob <- h !! tail;;
       match enc ob, optr ob with
       | REDIS_ENCODING_RAW, PSds t =>
         if uint 64 (sdslen t + len) <=? REDIS_REPLY_CHUNK_BYTES then
           let bytes0 := reply_bytes c - zmalloc_size_sds t in
           ' (h, l, tail) <- dupLastObjectIfNeeded h (reply c);;
           ob <- h !! tail;;
           match optr ob with
           | PSds t =>
             t <- sdscatlen t s len;;
             h <- set_ptr h tail t;;
             Some (h, set_reply c l (bytes0 + zmalloc_size_sds t))
           | _ => None
           end
         else add
       | _, _ => add
       end
     end);;
  c <- asyncCloseClientOnOutputBufferLimitReached e c;;
  Some (h, c).

Definition _addReplyObjectToList (e : reply_env) (h : heap) (c : rclient) (o : oid) : option (heap * rclient) :=
  if RCLOSE_AFTER_REPLY (rflags c) then Some (h, c) else
  ob <- h !! o;;
  match optr ob with
  | PSds s => append_or_node e h c (buf s) (sdslen s)
      (fun h => h <- incrRefCount h o;; m <- getStringObjectSdsUsedMemory ob;; Some (h, o, m))
  | _ => None
  end.

Definition _addReplySdsToList (e : reply_env) (h : heap) (c : rclient) (s : sdshdr) : option (heap * rclient) :=
  if RCLOSE_AFTER_REPLY (rflags c) then Some (h, c) else
  append_or_node e h c (buf s) (sdslen s) (fun h => let '(h, o) := createObject h (PSds s) in Some (h, o, zmalloc_size_sds s)).

Definition _addReplyStringToList (e : reply_env) (h : heap) (c : rclient) (s : bytes) (len : Z) : option (heap * rclient) :=
  if RCLOSE_AFTER_REPLY (rflags c) then Some (h, c) else
  append_or_node e h c s len
    (fun h => ' (h, o) <- createStringObject h s len;; ob <- h !! o;; m <- getStringObjectSdsUsedMemory ob;; Some (h, o, m)).

(** * Higher level functions *)

Definition addReply (e : reply_env) (h : heap) (c : rclient) (o : oid) : option (heap * rclient) :=
  let '(c, ok) := prepareClientToWrite e c in
  if negb ok then Some (h, c) else
  ob <- h !! o;;
  match optr ob with
  | PNull => None
  | PSds s =>
    ' (c, ok) <- _addReplyToBuffer c (buf s) (sdslen s);;
    if ok : bool then Some (h, c) else _addReplyObjectToList e h c o
  | PInt v =>
    ' (c, done) <-
      (if bool_decide (reply c = []) && (uint 64 (REDIS_REPLY_CHUNK_BYTES - bufpos c) >=? 32) then
         ' (b, len) <- ll2string (zmalloc 32) 32 v;; _addReplyToBuffer c b len
       else Some (c, false));;
    if done : bool then Some (h, c) else
    ' (h, o) <- getDecodedObjectRef h o;;
    ob <- h !! o;;
    match optr ob with
    | PSds s =>
      ' (c, ok) <- _addReplyToBuffer c (buf s) (sdslen s);;
      ' (h, c) <- (if ok : bool then Some (h, c) else _addReplyObjectToList e h c o);;
      h <- decrRefCount h o;;
      Some (h, c)
    | _ => None
    end
  end.

Definition addReplySds (e : reply_env) (h : heap) (c : rclient) (s : sdshdr) : option (heap * rclient) :=
  let '(c, ok) := prepareClientToWrite e c in
  if negb ok then Some (h, c) else
  ' (c, ok) <- _addReplyToBuffer c (buf s) (sdslen s);;
  if ok : bool then Some (h, c) else _addReplySdsToList e h c s.

Definition addReplyString (e : reply_env) (h : heap) (c : rclient) (s : bytes) (len : Z) : option (heap * rclient) :=
  let '(c, ok) := prepareClientToWrite e c in
  if negb ok then Some (h, c) else
  ' (c, ok) <- _addReplyToBuffer c s len;;
  if ok : bool then Some (h, c) else _addReplyStringToList e h c s len.

Definition addReplyErrorLength (e : reply_env) (h : heap) (c : rclient) (s : bytes) (len : Z) : option (heap * rclient) :=
  ' (h, c) <- addReplyString e h c [45; 69; 82; 82; 32] 5;;
  ' (h, c) <- addReplyString e h c s len;;
  addReplyString e h c [13; 10] 2.

Definition addReplyStatusLength (e : reply_env) (h : heap) (c : rclient) (s : bytes) (len : Z) : option (heap * rclient) :=
  ' (h, c) <- addReplyString e h c [43] 1;;
  ' (h, c) <- addReplyString e h c s len;;
  addReplyString e h c [13; 10] 2.

(** The shared objects. *)
Record sharedObjects := mkShared { mbulkhdr : list oid; bulkhdr : list oid; crlf : oid; czero : oid; cone : oid; nullbulk : oid; select : list oid }.
Variable shared : sharedObjects.

(** [a[i]] *)
Definition index (a : list oid) (i : Z) : option oid := if i <? 0 then None else a !! Z.to_nat i.

Definition addReplyLongLongWithPrefix (e : reply_env) (h : heap) (c : rclient) (ll prefix : Z) : option (heap * rclient) :=
  if (prefix =? 42) && (ll <? REDIS_SHARED_BULKHDR_LEN) then o <- index (mbulkhdr shared) ll;; addReply e h c o
  else if (prefix =? 36) && (ll <? REDIS_SHARED_BULKHDR_LEN) then o <- index (bulkhdr shared) ll;; addReply e h c o
  else
    let b := zmalloc 128 in
    b <- store8 b 0 prefix;;
    tail <- load b 1 127;;
    ' (tail, len) <- ll2string tail 127 ll;;
    b <- store b 1 tail;;
    b <- store8 b (len + 1) 13;;
    b <- store8 b (len + 2) 10;;
    addReplyString e h c b (len + 3).

Definition addReplyLongLong (e : reply_env) (h : heap) (c : rclient) (ll : Z) : option (heap * rclient) :=
  if ll =? 0 then addReply e h c (czero shared)
  else if ll =? 1 then addReply e h c (cone shared)
  else addReplyLongLongWithPrefix e h c ll 58.

Definition addReplyMultiBulkLen (e : reply_env) (h : heap) (c : rclient) (length : Z) : option (heap * rclient) :=
  if length <? REDIS_SHARED_BULKHDR_LEN then o <- index (mbulkhdr shared) length;; addReply e h c o
  else addReplyLongLongWithPrefix e h c length 42.

(** [while((n = n/10) != 0) len++;] *)
Fixpoint count_digits (fuel : nat) (n len : Z) : option Z :=
  match fuel with
  | O => None
  | S fuel => let n := Z.quot n 10 in if negb (n =? 0) then count_digits fuel n (len + 1) else Some len
  end.

Definition addReplyBulkLen (e : reply_env) (h : heap) (c : rclient) (o : oid) : option (heap * rclient) :=
  ob <- h !! o;;
  len <- match optr ob with
         | PSds s => Some (sdslen s)
         | PInt n =>
           ' (n, len) <- (if n <? 0 then n <- ll_arith (- n);; Some (n, 2) else Some (n, 1));;
           count_digits 20 n len
         | PNull => None
         end;;
  if len <? REDIS_SHARED_BULKHDR_LEN then o <- index (bulkhdr shared) len;; addReply e h c o
  else addReplyLongLongWithPrefix e h c len 36.

Definition addReplyBulk (e : reply_env) (h : heap) (c : rclient) (o : oid) : option (heap * rclient) :=
  ' (h, c) <- addReplyBulkLen e h c o;;
  ' (h, c) <- addReply e h c o;;
  addReply e h c (crlf shared).

Definition addReplyBulkCBuffer (e : reply_env) (h : heap) (c : rclient) (p : bytes) (len : Z) : option (heap * rclient) :=
  ' (h, c) <- addReplyLongLongWithPrefix e h c len 36;;
  ' (h, c) <- addReplyString e h c p len;;
  addReply e h c (crlf shared).

Definition addReplyBulkLongLong (e : reply_env) (h : heap) (c : rclient) (ll : Z) : option (heap * rclient) :=
  ' (b, len) <- ll2string (zmalloc 64) 64 ll;;
  addReplyBulkCBuffer e h c b len.

(** * Deferred lengths *)

(** The node is identified by its object, which no other node refers to. *)
Definition addDeferredMultiBulkLength (e : reply_env) (h : heap) (c : rclient) : heap * rclient * option oid :=
  let '(c, ok) := prepareClientToWrite e c in
  if negb ok then (h, c, None) else
  let '(h, o) := createObject h PNull in
  (h, mkRClient (rflags c) (fd c) (replstate c) (obuf c) (bufpos c) (sentlen c) (reply c ++ [o]) (reply_bytes c)
        (obuf_soft_limit_reached_time c) (lastinteraction c) (write_handler c) (repl_ack_time c) (bulk c), Some o).

(** The nodes before and after a node. *)
Fixpoint find_node (l : list oid) (o : oid) : option (list oid * list oid) :=
  match l with
  | [] => None
  | x :: l => if bool_decide (x = o) then Some ([], l) else ' (a, b) <- find_node l o;; Some (x :: a, b)
  end.

Definition setDeferredMultiBulkLength (e : reply_env) (h : heap) (c : rclient) (node : option oid) (length : Z) : option (heap * rclient) :=
  match node with
  | None => Some (h, c)
  | Some ln =>
    ' (before, after) <- find_node (reply c) ln;;
    ob <- h !! ln;;
    s <- sdsempty;;
    s <- sdscatprintf s (42 :: printf_d length ++ [13; 10]);;
    let h := <[ln := mkObj (refcount ob) REDIS_ENCODING_RAW (PSds s)]> h in
    let c := set_reply c (reply c) (reply_bytes c + zmalloc_size_sds s) in
    ' (h, c) <-
      match after with
      | [] => Some (h, c)
      | next :: after =>
        obn <- h !! next;;
        match optr obn with
        | PSds t =>
          m <- getStringObjectSdsUsedMemory obn;;
          s' <- sdscatlen s (buf t) (sdslen t);;
          h <- set_ptr h ln s';;
          h <- decrRefCount h next;;
          Some (h, set_reply c (before ++ ln :: after) (reply_bytes c - zmalloc_size_sds s - m + zmalloc_size_sds s'))
        | _ => Some (h, c)
        end
      end;;
    c <- asyncCloseClientOnOutputBufferLimitReached e c;;
    Some (h, c)
  end.

(** * Sending *)

(** [aeDeleteFileEvent] *)
Definition remove_handler (c : rclient) : rclient := set_handler c false.

(** The room the socket has at each [write] call, which is what the call returns at most; 0 or -1 where it fails
    and -1 after the last one. *)
Record send_env := mkSEnv { writes : list Z; would_block : bool; below_maxmemory : bool; now : Z }.

(** The loop: the heap, the client, what was written in all calls, the total and the last result. *)
Fixpoint send_loop (fuel : nat) (se : send_env) (ws : list Z) (h : heap) (c : rclient) (out : bytes) (nwritten totwritten : Z) :
    option (heap * rclient * bytes * Z * Z) :=
  match fuel with
  | O => None
  | S fuel =>
    if (bufpos c >? 0) || negb (bool_decide (reply c = [])) then
      (* the room for the write, and the calls that remain *)
      let room := match ws with [] => -1 | n :: _ => n end in
      let rest := match ws with [] => [] | _ :: ws => ws end in
      let continue ws h c out nwritten totwritten :=
        if (totwritten >? REDIS_MAX_WRITE_PER_EVENT) && below_maxmemory se then Some (h, c, out, nwritten, totwritten)
        else send_loop fuel se ws h c out nwritten totwritten in
      if bufpos c >? 0 then
        d <- load (obuf c) (sentlen c) (bufpos c - sentlen c);;
        let n := Z.min room (bufpos c - sentlen c) in
        if n <=? 0 then Some (h, c, out, n, totwritten) else
        let sent := sentlen c + n in
        let c := if sent =? bufpos c then set_buffer c (obuf c) 0 0 else set_buffer c (obuf c) (bufpos c) sent in
        tot <- int_arith (totwritten + n);;
        continue rest h c (out ++ take (Z.to_nat n) d) n tot
      else
        match reply c with
        | [] => None
        | o :: l =>
          ob <- h !! o;;
          match optr ob with
          | PSds s =>
            let objlen := sint 32 (sdslen s) in
            objmem <- getStringObjectSdsUsedMemory ob;;
            if objlen =? 0 then
              h <- decrRefCount h o;;
              send_loop fuel se ws h (set_reply c l (reply_bytes c - objmem)) out nwritten totwritten
            else
              d <- load (buf s) (sentlen c) (objlen - sentlen c);;
              let n := Z.min room (objlen - sentlen c) in
              if n <=? 0 then Some (h, c, out, n, totwritten) else
              let sent := sentlen c + n in
              ' (h, c) <- (if sent =? objlen then
                            h <- decrRefCount h o;;
                            Some (h, set_buffer (set_reply c l (reply_bytes c - objmem)) (obuf c) (bufpos c) 0)
                          else Some (h, set_buffer c (obuf c) (bufpos c) sent));;
              tot <- int_arith (totwritten + n);;
              continue rest h c (out ++ take (Z.to_nat n) d) n tot
          | _ => None
          end
        end
    else Some (h, c, out, nwritten, totwritten)
  end.

Fixpoint release_objects (h : heap) (l : list oid) : option heap :=
  match l with
  | [] => Some h
  | o :: l => h <- decrRefCount h o;; release_objects h l
  end.

(** The heap, the client unless it was freed, and what was written. *)
Definition sendReplyToClient (se : send_env) (h : heap) (c : rclient) : option (heap * option rclient * bytes) :=
  ' (h, c, out, nwritten, totwritten) <- send_loop (S (length (writes se) + length (reply c))) se (writes se) h c [] 0 0;;
  if (nwritten =? -1) && negb (would_block se) then h <- release_objects h (reply c);; Some (h, None, out) else
  let c := if (totwritten >? 0) && negb (MASTER (rflags c)) then set_interaction c (now se) else c in
  if (bufpos c =? 0) && bool_decide (reply c = []) then
    let c := remove_handler (set_buffer c (obuf c) (bufpos c) 0) in
    if RCLOSE_AFTER_REPLY (rflags c) then h <- release_objects h (reply c);; Some (h, None, out) else Some (h, Some c, out)
  else Some (h, Some c, out).

End Reply.
