(* ===== verification/ReplySpec.v ===== *)
(** Replies to clients: what is queued, what is sent, and what the objects shared with
    the rest of the server keep. *)

From stdpp Require Import gmap relations.
From S2P Require Import Prelude Util Sds SdsRep Networking NetworkingSpec Reply.

(** * Queues *)

(** A piece of the queue: bytes, or a length that is not known yet. *)
Inductive item := Txt (b : bytes) | Gap (o : oid).

(** The bytes of a queue, for given values of the unknown lengths. *)
Definition flat (sg : oid -> bytes) (q : list item) : bytes := concat ((fun i => match i with Txt b => b | Gap o => sg o end) <$> q).

Lemma flat_app sg a b : flat sg (a ++ b) = flat sg a ++ flat sg b.
Proof. unfold flat. by rewrite fmap_app, concat_app. Qed.

Lemma flat_cons sg i q : flat sg (i :: q) = (match i with Txt b => b | Gap o => sg o end) ++ flat sg q.
Proof. done. Qed.

Lemma flat_txt sg b : flat sg [Txt b] = b.
Proof. unfold flat. cbn. by rewrite app_nil_r. Qed.

(** * Objects *)

(** The object holds the bytes [b]. *)
Definition holds (ob : sobj) (b : bytes) : Prop := exists s, optr ob = PSds s /\ sds_rep s b /\ enc ob <> REDIS_ENCODING_INT.

Definition obj_item (h : heap) (o : oid) (i : item) : Prop :=
  exists ob, h !! o = Some ob /\ match i with Txt b => holds ob b | Gap o' => o' = o /\ optr ob = PNull end.

(** How often an object is in a list. *)
Fixpoint occ (o : oid) (l : list oid) : Z :=
  match l with [] => 0 | x :: l => (if bool_decide (x = o) then 1 else 0) + occ o l end.

Lemma occ_nonneg o l : 0 <= occ o l.
Proof. induction l as [|x l IH]; cbn [occ]; [lia|]. destruct (bool_decide _); lia. Qed.

Lemma occ_app o a b : occ o (a ++ b) = occ o a + occ o b.
Proof. induction a as [|x a IH]; cbn [occ app]; [lia|]. lia. Qed.

Lemma occ_in o l : o ∈ l -> 1 <= occ o l.
Proof.
  induction 1 as [o l|o x l _ IH]; cbn [occ]; [rewrite bool_decide_eq_true_2 by done; pose proof (occ_nonneg o l); lia|].
  destruct (bool_decide _); lia.
Qed.

Lemma occ_not_in o l : occ o l = 0 -> o ∉ l.
Proof. intros E Hin. apply occ_in in Hin. lia. Qed.

Lemma occ_notin_0 o l : o ∉ l -> occ o l = 0.
Proof.
  induction l as [|x l IH]; intros Hn; [done|]. apply not_elem_of_cons in Hn as [Hx Hn]. cbn [occ].
  rewrite bool_decide_eq_false_2 by congruence. rewrite IH by done. lia.
Qed.

Lemma occ_single o x : occ o [x] = if bool_decide (x = o) then 1 else 0.
Proof. cbn [occ]. lia. Qed.

(** Objects referred to by others are unchanged, up to their reference count. *)
Definition keeps (ext : oid -> Z) (h h' : heap) : Prop :=
  forall o ob, 0 < ext o -> h !! o = Some ob -> exists ob', h' !! o = Some ob' /\ optr ob' = optr ob /\ enc ob' = enc ob.

Lemma keeps_refl ext h : keeps ext h h.
Proof. intros o ob _ E. by exists ob. Qed.

Lemma keeps_trans ext a b c : keeps ext a b -> keeps ext b c -> keeps ext a c.
Proof.
  intros H1 H2 o ob He E. destruct (H1 o ob He E) as (ob1 & E1 & Hp & Hc). destruct (H2 o ob1 He E1) as (ob2 & E2 & Hp2 & Hc2).
  exists ob2. split; [done|]. by rewrite Hp2, Hc2.
Qed.

Lemma holds_same ob ob' b : optr ob' = optr ob -> enc ob' = enc ob -> holds ob b -> holds ob' b.
Proof. intros E1 E2 (s & Es & Hs & He). exists s. by rewrite E1, E2. Qed.

Lemma obj_item_same h h' o i ob ob' : h !! o = Some ob -> h' !! o = Some ob' -> optr ob' = optr ob -> enc ob' = enc ob ->
  obj_item h o i -> obj_item h' o i.
Proof.
  intros E E' Hp Hc (ob0 & E0 & Hi). rewrite E in E0. injection E0 as <-. exists ob'. split; [done|].
  destruct i as [b|o']; [by eapply holds_same|]. by rewrite Hp.
Qed.

(** The object of an unknown length. *)
Lemma gap_null h l q o : Forall2 (obj_item h) l q -> Gap o ∈ q -> exists ob, h !! o = Some ob /\ optr ob = PNull.
Proof.
  intros Hi Hin. induction Hi as [|o' i l q (ob & E & Hi) _ IH]; [by apply not_elem_of_nil in Hin|].
  apply elem_of_cons in Hin as [<-|Hin]; [|by apply IH]. destruct Hi as [-> Hp]. by exists ob.
Qed.

Lemma list_snoc_cases {A} (l : list A) : l = [] \/ exists l' x, l = l' ++ [x].
Proof. destruct l as [|x l] using rev_ind; [by left|]. right. by exists l, x. Qed.

(** A bound for the usable size of a block below 2 GB. *)
Class AllocatorLaws (AL : Allocator) := {
  M : Z;
  HM : forall n, 0 <= n < 2 ^ 31 + 9 -> 0 <= zmalloc_size n <= M;
  HM2 : 2 ^ 31 <= M
}.

Section Spec.
Context {HOST : Host} {AL : Allocator} {LAWS : AllocatorLaws AL}.

(** ** Memory *)

Definition used (h : heap) (o : oid) : Z :=
  match h !! o with
  | Some ob => match getStringObjectSdsUsedMemory ob with Some m => m | None => 0 end
  | None => 0
  end.

Fixpoint total (h : heap) (l : list oid) : Z := match l with [] => 0 | o :: l => used h o + total h l end.

Lemma total_app h a b : total h (a ++ b) = total h a + total h b.
Proof. induction a as [|o a IH]; cbn [total app]; lia. Qed.

Lemma total_ext h h' l : (forall o, o ∈ l -> used h' o = used h o) -> total h' l = total h l.
Proof.
  induction l as [|o l IH]; intros Hl; [done|]. cbn [total]. rewrite Hl, IH; [done| |by left]. intros o' Ho. apply Hl. by right.
Qed.

Lemma alloc_bound s b : sds_rep s b -> 0 <= zmalloc_size_sds s <= M.
Proof.
  intros (rest & Eb & El & Ef & Hb). unfold zmalloc_size_sds, sdsAllocSize. apply HM. rewrite El, Ef.
  pose proof (msize_nonneg b). pose proof (msize_nonneg rest). lia.
Qed.

Lemma used_holds h o ob b : h !! o = Some ob -> holds ob b -> 0 <= used h o <= M /\ getStringObjectSdsUsedMemory ob = Some (used h o).
Proof.
  intros E (s & Es & Hs & He). unfold used. rewrite E. unfold getStringObjectSdsUsedMemory. rewrite Es. destruct (enc ob); [| |done].
  - split; [by apply (alloc_bound s b)|done].
  - split; [|done]. destruct (sds_rep_len s b Hs) as [-> ?]. pose proof (msize_nonneg b). pose proof HM2. lia.
Qed.

Lemma used_nonneg h o i : obj_item h o i -> 0 <= used h o.
Proof.
  intros (ob & E & Hi). destruct i as [b|o'].
  - by apply (used_holds h o ob b) in Hi as [[? _] _].
  - destruct Hi as [_ Hp]. unfold used. rewrite E. unfold getStringObjectSdsUsedMemory. rewrite Hp. by destruct (enc ob).
Qed.

Lemma total_nonneg h l q : Forall2 (obj_item h) l q -> 0 <= total h l.
Proof. induction 1 as [|o i l q Hi _ IH]; cbn [total]; [lia|]. apply used_nonneg in Hi. lia. Qed.

Lemma used_same h h' o ob ob' : h !! o = Some ob -> h' !! o = Some ob' -> optr ob' = optr ob -> enc ob' = enc ob -> used h' o = used h o.
Proof. intros E E' Hp Hc. unfold used, getStringObjectSdsUsedMemory. by rewrite E, E', Hp, Hc. Qed.

(** ** References *)

(** The references to an object: [ext o] from elsewhere, and those of the list. *)
Definition refs (ext : oid -> Z) (h : heap) (l : list oid) : Prop :=
  forall o, match h !! o with
            | Some ob => refcount ob = ext o + occ o l /\ 0 <= ext o /\ 1 <= refcount ob
            | None => ext o = 0 /\ occ o l = 0
            end.

Record queue_ok (ext : oid -> Z) (h : heap) (l : list oid) (q : list item) : Prop := {
  qo_refs : refs ext h l;
  qo_items : Forall2 (obj_item h) l q;
  qo_gaps : forall o, Gap o ∈ q -> ext o = 0 /\ occ o l = 1
}.

(** Every object of the list is on the heap. *)
Lemma refs_in ext h l o : refs ext h l -> o ∈ l -> exists ob, h !! o = Some ob /\ refcount ob = ext o + occ o l /\ 0 <= ext o.
Proof.
  intros Hr Ho. specialize (Hr o). apply occ_in in Ho. destruct (h !! o) as [ob|]; [|lia]. exists ob. by destruct Hr as (? & ? & _).
Qed.

Lemma items_change h h' l q : Forall2 (obj_item h) l q ->
  (forall o ob, o ∈ l -> h !! o = Some ob -> exists ob', h' !! o = Some ob' /\ optr ob' = optr ob /\ enc ob' = enc ob) ->
  Forall2 (obj_item h') l q /\ total h' l = total h l.
Proof.
  intros Hi. induction Hi as [|o i l q Hi _ IH]; intros Hc; [done|].
  destruct IH as [IH1 IH2]; [intros o' ob' Ho; apply Hc; by right|]. pose proof Hi as (ob & E & _).
  destruct (Hc o ob ltac:(by left) E) as (ob' & E' & Hp & He). split.
  - constructor; [by apply (obj_item_same h h' o i ob ob')|done].
  - cbn [total]. rewrite IH2, (used_same h h' o ob ob') by done. done.
Qed.

(** *** A node is added *)

Definition node_added (h h1 : heap) (o : oid) (d : bytes) : Prop :=
  exists ob1, h1 !! o = Some ob1 /\ holds ob1 d /\ (forall o', o' <> o -> h1 !! o' = h !! o') /\
    match h !! o with
    | Some ob => refcount ob1 = refcount ob + 1 /\ optr ob1 = optr ob /\ enc ob1 = enc ob
    | None => refcount ob1 = 1
    end.

Lemma node_added_keeps h h1 o d o' ob : node_added h h1 o d -> h !! o' = Some ob -> exists ob', h1 !! o' = Some ob' /\ optr ob' = optr ob /\ enc ob' = enc ob.
Proof.
  intros (ob1 & E1 & _ & Hoth & Ho) E. destruct (decide (o' = o)) as [->|Hne]; [|exists ob; by rewrite Hoth].
  rewrite E in Ho. exists ob1. by destruct Ho as (_ & ? & ?).
Qed.

Lemma queue_add ext h h1 l q o d : queue_ok ext h l q -> node_added h h1 o d ->
  queue_ok ext h1 (l ++ [o]) (q ++ [Txt d]) /\ keeps ext h h1 /\ total h1 (l ++ [o]) = total h l + used h1 o.
Proof.
  intros [Hr Hi Hg] Hn. destruct (items_change h h1 l q Hi) as [Hi1 Ht]; [intros; by eapply node_added_keeps|].
  assert (keeps ext h h1) as Hk by (intros o' ob _ E; by eapply node_added_keeps).
  split; [|split; [done|rewrite total_app, Ht; cbn [total]; lia]]. pose proof Hn as (ob1 & E1 & Hd & Hoth & Ho). split.
  - intros o'. specialize (Hr o'). rewrite occ_app, occ_single. destruct (decide (o = o')) as [<-|Hne].
    + rewrite E1, bool_decide_eq_true_2 by done. destruct (h !! o) as [ob|]; [destruct Ho as (-> & _)|rewrite Ho]; lia.
    + rewrite Hoth, bool_decide_eq_false_2 by congruence. destruct (h !! o') as [ob|]; lia.
  - apply Forall2_app; [done|]. repeat constructor. by exists ob1.
  - intros o' Hin. apply elem_of_app in Hin as [Hin|Hin]; [|by apply list_elem_of_singleton in Hin].
    destruct (Hg o' Hin) as [He Hocc]. split; [done|]. rewrite occ_app, occ_single, bool_decide_eq_false_2; [lia|]. intros ->.
    assert (o' ∈ l) as Hl by (destruct (decide (o' ∈ l)) as [|Hnl]; [done|]; rewrite (occ_notin_0 o' l Hnl) in Hocc; lia).
    destruct (gap_null h l q o' Hi Hin) as (ob & E & Hnull). rewrite E in Ho. destruct Ho as (_ & Hp & _). destruct Hd as (s & Es & _). congruence.
Qed.

(** *** The last node *)

Lemma lastNode_snoc l o : lastNode (l ++ [o]) = Some (l, o).
Proof. unfold lastNode. rewrite rev_app_distr. cbn [rev app]. by rewrite rev_involutive. Qed.

Lemma fresh_object (h : heap) ob : exists o, newObject h ob = (<[o := ob]> h, o) /\ h !! o = None.
Proof.
  unfold newObject. eexists. split; [done|]. apply not_elem_of_dom. apply is_fresh.
Qed.

(** The bytes of an object that no one else refers to are replaced. *)
Lemma queue_replace ext h la lb qa qb o i ob e p d : queue_ok ext h (la ++ o :: lb) (qa ++ i :: qb) -> length la = length qa ->
  h !! o = Some ob -> refcount ob = 1 -> holds (mkObj 1 e p) d ->
  let h' := <[o := mkObj 1 e p]> h in
  queue_ok ext h' (la ++ o :: lb) (qa ++ Txt d :: qb) /\ keeps ext h h' /\ total h' la = total h la /\ total h' lb = total h lb.
Proof.
  intros [Hr Hi Hg] Hlen E E1 Hd h'. pose proof (Hr o) as Hro. rewrite E, occ_app in Hro. cbn [occ] in Hro. rewrite bool_decide_eq_true_2 in Hro by done.
  pose proof (occ_nonneg o la). pose proof (occ_nonneg o lb). assert (ext o = 0 /\ occ o la = 0 /\ occ o lb = 0) as (He & Ha & Hb) by lia.
  apply occ_not_in in Ha, Hb. apply Forall2_app_inv in Hi as [Hia Hib]; [|done]. apply list.Forall2_cons in Hib as [_ Hib].
  assert (forall o' ob0, o' <> o -> h !! o' = Some ob0 -> exists ob', h' !! o' = Some ob' /\ optr ob' = optr ob0 /\ enc ob' = enc ob0) as Hoth.
  { intros o' ob0 Hne E0. exists ob0. unfold h'. by rewrite lookup_insert_ne. }
  destruct (items_change h h' la qa Hia) as [Hia1 Hta]; [intros o' ob0 Hin; apply Hoth; by intros ->|].
  destruct (items_change h h' lb qb Hib) as [Hib1 Htb]; [intros o' ob0 Hin; apply Hoth; by intros ->|].
  split; [|split; [|done]].
  - split.
    + intros o'. unfold h'. destruct (decide (o' = o)) as [->|Hne].
      * rewrite lookup_insert_eq, occ_app. cbn [occ]. rewrite bool_decide_eq_true_2 by done. cbn [refcount]. lia.
      * rewrite lookup_insert_ne by done. apply Hr.
    + apply Forall2_app; [done|]. constructor; [|done]. eexists. split; [by apply lookup_insert_eq|done].
    + intros o' Hin. apply Hg. apply elem_of_app in Hin as [Hin|Hin]; [apply elem_of_app; by left|]. apply elem_of_cons in Hin as [|Hin]; [done|].
      apply elem_of_app. right. by right.
  - intros o' ob0 He' E0. apply Hoth; [|done]. intros ->. lia.
Qed.

Lemma queue_set ext h l q o i ob e p d : queue_ok ext h (l ++ [o]) (q ++ [i]) -> h !! o = Some ob -> refcount ob = 1 -> holds (mkObj 1 e p) d ->
  let h' := <[o := mkObj 1 e p]> h in
  queue_ok ext h' (l ++ [o]) (q ++ [Txt d]) /\ keeps ext h h' /\ total h' (l ++ [o]) = total h l + used h' o.
Proof.
  intros Hq E E1 Hd h'. destruct (queue_replace ext h l [] q [] o i ob e p d Hq) as (Hq' & Hk & Ht & _); try done.
  - pose proof (list.Forall2_length _ _ _ (qo_items _ _ _ _ Hq)) as Hl. rewrite !length_app in Hl. cbn in Hl. lia.
  - split; [done|]. split; [done|]. fold h' in Ht. rewrite total_app, Ht. cbn [total]. lia.
Qed.

(** The last object is replaced by a copy. *)
Lemma queue_dup ext h l q o ob b : queue_ok ext h (l ++ [o]) (q ++ [Txt b]) -> h !! o = Some ob -> 1 < refcount ob -> enc ob = REDIS_ENCODING_RAW ->
  exists h' o' t', (' (h, new) <- dupStringObject h o;; h <- decrRefCount h o;; Some (h, l ++ [new], new)) = Some (h', l ++ [o'], o') /\
    queue_ok ext h' (l ++ [o']) (q ++ [Txt b]) /\ keeps ext h h' /\ total h' l = total h l /\
    h' !! o' = Some (mkObj 1 REDIS_ENCODING_RAW (PSds t')) /\ sds_rep t' b.
Proof.
  intros [Hr Hi Hg] E Hrc He.
  pose proof (list.Forall2_length _ _ _ Hi) as Hlen. rewrite !length_app in Hlen. cbn [length] in Hlen.
  apply Forall2_app_inv in Hi as [Hi Hlast]; [|lia]. apply list.Forall2_cons in Hlast as [(ob0 & E0 & s & Es & Hs & _) _].
  rewrite E in E0. injection E0 as <-. unfold dupStringObject. rewrite E. cbn [obind]. rewrite He, Es.
  destruct (sds_rep_len s b Hs) as [El Hlt]. destruct (sds_rep_buf s b Hs) as (fr & Eb). unfold createRawStringObject. rewrite El, Eb.
  destruct (sdsnewlen_rep b (0 :: fr)) as (t' & -> & Ht' & _); [lia|]. cbn [obind]. unfold createObject.
  destruct (fresh_object h (mkObj 1 REDIS_ENCODING_RAW (PSds t'))) as (o' & -> & Hfr). cbn [obind].
  assert (o <> o') as Hne by (intros ->; by rewrite E in Hfr). unfold decrRefCount. rewrite lookup_insert_ne, E by done. cbn [obind].
  rewrite (proj2 (Z.leb_gt _ _)), (proj2 (Z.eqb_neq _ _)) by lia. set (h1 := <[o':=_]> h). set (h' := <[o:=_]> h1).
  assert (forall x ob0, h !! x = Some ob0 -> exists ob', h' !! x = Some ob' /\ optr ob' = optr ob0 /\ enc ob' = enc ob0) as Hoth.
  { intros x ob0 E0. unfold h', h1. destruct (decide (x = o)) as [->|]; [rewrite lookup_insert_eq|rewrite lookup_insert_ne, lookup_insert_ne by congruence].
    - eexists. split; [done|]. rewrite E in E0. by injection E0 as <-.
    - by exists ob0. }
  destruct (items_change h h' l q Hi) as [Hi1 Ht]; [intros; by apply Hoth|].
  assert (h' !! o' = Some (mkObj 1 REDIS_ENCODING_RAW (PSds t'))) as E' by (unfold h', h1; by rewrite lookup_insert_ne, lookup_insert_eq by done).
  exists h', o', t'. split; [done|]. split; [|split; [intros x ob0 _; apply Hoth|done]]. split.
  - intros x. specialize (Hr x). rewrite occ_app, occ_single in Hr. rewrite occ_app, occ_single. destruct (decide (x = o')) as [->|Hx].
    + rewrite E', bool_decide_eq_true_2 by done. rewrite Hfr in Hr. cbn [refcount]. rewrite bool_decide_eq_false_2 in Hr by done. lia.
    + rewrite (bool_decide_eq_false_2 (o' = x)) by congruence. unfold h', h1. destruct (decide (x = o)) as [->|Hxo].
      * rewrite lookup_insert_eq. rewrite E, bool_decide_eq_true_2 in Hr by done. cbn [refcount]. lia.
      * rewrite lookup_insert_ne, lookup_insert_ne by congruence. rewrite bool_decide_eq_false_2 in Hr by congruence. done.
  - apply Forall2_app; [done|]. repeat constructor. eexists. split; [done|]. by exists t'.
  - intros x Hin. apply elem_of_app in Hin as [Hin|Hin]; [|by apply list_elem_of_singleton in Hin].
    destruct (Hg x) as [Hx1 Hx2]; [apply elem_of_app; by left|]. split; [done|]. rewrite occ_app, occ_single in Hx2. rewrite occ_app, occ_single.
    destruct (gap_null h l q x Hi Hin) as (obx & Ex & Hnull). rewrite bool_decide_eq_false_2 in Hx2 by (intros ->; congruence).
    rewrite bool_decide_eq_false_2 by (intros ->; congruence). done.
Qed.

(** ** Clients *)

(** The part of the head of the queue that was sent already. *)
Definition head_ok (n : Z) (B : bytes) (q : list item) : Prop :=
  n = 0 \/ 0 < n < msize B \/ (B = [] /\ exists b q', q = Txt b :: q' /\ 0 < n < msize b).

(** [B] is in the static buffer, [q] in the list. *)
Record out_inv (ext : oid -> Z) (h : heap) (c : rclient) (B : bytes) (q : list item) : Prop := {
  ci_buf : exists rest, obuf c = B ++ rest /\ msize B + msize rest = REDIS_REPLY_CHUNK_BYTES /\ bufpos c = msize B;
  ci_queue : queue_ok ext h (reply c) q;
  ci_mem : reply_bytes c = total h (reply c);
  ci_limit : reply_bytes c < 2 ^ 64 - 1 - 1024 * 64;
  ci_sent : head_ok (sentlen c) B q;
  ci_handler : replnone c = true -> B <> [] \/ reply c <> [] -> write_handler c = true
}.

(** A client that receives replies. *)
Definition writable (c : rclient) : Prop :=
  LUA_CLIENT (rflags c) = false /\ MASTER (rflags c) && negb (MASTER_FORCE_REPLY (rflags c)) = false /\ 0 < fd c /\ RCLOSE_AFTER_REPLY (rflags c) = false.

Definition armed (c : rclient) : Prop := replnone c = true -> write_handler c = true.

(** What queuing a reply does not change. *)
Record stable (c c' : rclient) : Prop := {
  st_writable : writable c -> writable c';
  st_repl : replstate c' = replstate c;
  st_sent : sentlen c' = sentlen c;
  st_bulk : bulk c' = bulk c;
  st_armed : armed c -> armed c';
  st_idle : replnone c = false -> write_handler c' = write_handler c
}.

Lemma stable_refl c : stable c c.
Proof. done. Qed.

Lemma stable_trans a b c : stable a b -> stable b c -> stable a c.
Proof.
  intros [? R1 ? ? ? I1] [? ? ? ? ? I2]. split; try congruence; auto. intros E. rewrite I2; [by apply I1|]. unfold replnone in *. by rewrite R1.
Qed.

Lemma prepare_spec e ext h c B q : aeCreateFileEvent_ok e = true -> out_inv ext h c B q -> writable c ->
  exists c', prepareClientToWrite e c = (c', true) /\ out_inv ext h c' B q /\ writable c' /\ armed c' /\ (replstate c' = replstate c /\ bulk c' = bulk c /\ (replnone c = false -> write_handler c' = write_handler c)) /\
    sentlen c' = sentlen c /\ reply_bytes c' = reply_bytes c /\ reply c' = reply c.
Proof.
  intros He Hinv (H1 & H2 & H3 & H4). pose proof Hinv as [Hb Hq Hm Hl Hs Hh]. unfold prepareClientToWrite. rewrite H1, H2, (proj2 (Z.leb_gt _ _)), He by lia.
  destruct Hb as (rest & Eb & Hsz & Ep).
  destruct (Z.eqb_spec (bufpos c) 0) as [Hz|Hz]; cbn [andb].
  - destruct (bool_decide_reflect (reply c = [])) as [Er|Er]; cbn [andb].
    + destruct (replnone c) eqn:En.
      * eexists. split; [done|]. split; [|done]. split; [by exists rest|done..].
      * exists c. split; [done|]. split; [done|]. split; [done|]. split; [|done]. intros E. congruence.
    + exists c. split; [done|]. split; [done|]. split; [done|]. split; [|done]. intros E. apply Hh; [done|by right].
  - exists c. split; [done|]. split; [done|]. split; [done|]. split; [|done]. intros E. apply Hh; [done|]. left. intros ->. by rewrite msize_nil in Ep.
Qed.

Lemma async_spec e ext h c B q : out_inv ext h c B q ->
  exists c', asyncCloseClientOnOutputBufferLimitReached e c = Some c' /\ out_inv ext h c' B q /\ stable c c' /\ reply_bytes c' = reply_bytes c.
Proof.
  intros [Hb Hq Hm Hl Hs Hh]. unfold asyncCloseClientOnOutputBufferLimitReached. rewrite (proj2 (Z.ltb_lt _ _)) by done. cbn [negb].
  assert (out_inv ext h c B q) as Hinv by done. destruct (_ || _); [by exists c|]. unfold checkClientOutputBufferLimits.
  assert (forall t, out_inv ext h (set_soft_limit c t) B q /\ stable c (set_soft_limit c t)) as Hsl by done.
  assert (forall c1, out_inv ext h c1 B q /\ stable c c1 /\ reply_bytes c1 = reply_bytes c ->
    exists c', Some (freeClientAsync c1) = Some c' /\ out_inv ext h c' B q /\ stable c c' /\ reply_bytes c' = reply_bytes c) as Hfree.
  { intros c1 (I1 & S1 & R1). eexists. split; [done|]. unfold freeClientAsync. destruct (CLOSE_ASAP _); [done|]. split; [by destruct I1|]. split; [|done]. by destruct S1. }
  destruct (negb (soft_limit_bytes e =? 0) && _).
  - destruct (_ =? 0).
    + destruct (_ && _); [by apply Hfree|]. eexists. split; [done|]. done.
    + destruct (_ || _); [by apply Hfree|]. eexists. split; [done|]. done.
  - destruct (_ && _); [by apply Hfree|]. eexists. split; [done|]. done.
Qed.

(** ** Low level functions *)

Definition limit_ok (c : rclient) (k : Z) : Prop := reply_bytes c + k * M < 2 ^ 64 - 1 - 1024 * 64.

Lemma head_ok_app n B q i : head_ok n B q -> head_ok n B (q ++ [i]).
Proof.
  intros [?|[?|(-> & b & q' & -> & Hn)]]; [by left|by right; left|]. right. right. split; [done|]. exists b, (q' ++ [i]). done.
Qed.

Lemma head_ok_grow n B q b d : head_ok n B (q ++ [Txt b]) -> head_ok n B (q ++ [Txt (b ++ d)]).
Proof.
  intros [?|[?|(-> & b' & q' & E & Hn)]]; [by left|by right; left|]. right. right. split; [done|]. destruct q as [|i q].
  - injection E as -> <-. exists (b' ++ d), []. split; [done|]. rewrite msize_app. pose proof (msize_nonneg d). lia.
  - injection E as -> <-. exists b', (q ++ [Txt (b ++ d)]). done.
Qed.

(** A node is added to the list of the client. *)
Lemma add_node_inv ext h h1 c B q o d : out_inv ext h c B q -> armed c -> limit_ok c 1 -> node_added h h1 o d ->
  let c1 := set_reply c (reply c ++ [o]) (reply_bytes c + used h1 o) in
  out_inv ext h1 c1 B (q ++ [Txt d]) /\ stable c c1 /\ reply_bytes c1 <= reply_bytes c + M /\ keeps ext h h1.
Proof.
  intros [Hb Hq Hm Hl Hs Hh] Harm Hlim Hn c1. destruct (queue_add ext h h1 (reply c) q o d Hq Hn) as (Hq1 & Hk & Ht).
  destruct Hn as (ob1 & E1 & Hd & _). destruct (used_holds h1 o ob1 d E1 Hd) as [Hu _]. unfold limit_ok in Hlim.
  pose proof (total_nonneg h (reply c) q (qo_items _ _ _ _ Hq)). assert (reply_bytes c1 = reply_bytes c + used h1 o) as Er by (cbn; rewrite uint_id; lia).
  split; [|split; [done|split; [lia|done]]]. split; [done|done| | | |].
  - rewrite Er, Hm. symmetry. exact Ht.
  - lia.
  - by apply head_ok_app.
  - intros Hr _. by apply Harm.
Qed.

(** The last object of the list is extended. *)
Lemma extend_last ext h c B q l o ob t b (d u : bytes) : out_inv ext h c B (q ++ [Txt b]) -> armed c -> limit_ok c 1 -> reply c = l ++ [o] ->
  h !! o = Some ob -> enc ob = REDIS_ENCODING_RAW -> optr ob = PSds t -> sds_rep t b -> msize b + msize d <= REDIS_REPLY_CHUNK_BYTES ->
  exists h' c1, (' (h, l, tail) <- dupLastObjectIfNeeded h (reply c);;
      ob <- h !! tail;;
      match optr ob with
      | PSds t0 => t0 <- sdscatlen t0 (d ++ u) (msize d);; h <- set_ptr h tail t0;;
          Some (h, set_reply c l (reply_bytes c - zmalloc_size_sds t + zmalloc_size_sds t0))
      | _ => None
      end) = Some (h', c1) /\ out_inv ext h' c1 B (q ++ [Txt (b ++ d)]) /\ stable c c1 /\ reply_bytes c1 <= reply_bytes c + M /\ keeps ext h h'.
Proof.
  intros [Hb Hq Hm Hl Hs Hh] Harm Hlim El E He Ep Ht Hsz. rewrite El in *.
  assert (exists h1 o1 t1, dupLastObjectIfNeeded h (l ++ [o]) = Some (h1, l ++ [o1], o1) /\ queue_ok ext h1 (l ++ [o1]) (q ++ [Txt b]) /\ keeps ext h h1 /\
    total h1 l = total h l /\ h1 !! o1 = Some (mkObj 1 REDIS_ENCODING_RAW (PSds t1)) /\ sds_rep t1 b) as (h1 & o1 & t1 & Ed & Hq1 & Hk1 & Ht1 & E1 & Hr1).
  { unfold dupLastObjectIfNeeded. rewrite lastNode_snoc. cbn [obind]. rewrite E. cbn [obind]. rewrite Z.gtb_ltb. destruct (Z.ltb_spec 1 (refcount ob)).
    - by apply (queue_dup ext h l q o ob b).
    - exists h, o, t. split; [done|]. split; [done|]. split; [apply keeps_refl|]. split; [done|]. split; [|done]. rewrite E. f_equal.
      pose proof (qo_refs _ _ _ _ Hq o) as Hro. rewrite E in Hro. destruct ob as [rc en pt]. cbn [enc optr refcount] in *. subst. f_equal. lia. }
  rewrite Ed. cbn [obind]. rewrite E1. cbn [obind optr]. unfold REDIS_REPLY_CHUNK_BYTES in Hsz.
  destruct (sdscatlen_rep t1 b d u Hr1) as (t2 & -> & Hr2); [lia|]. cbn [obind]. unfold set_ptr. rewrite E1. cbn [obind refcount enc].
  assert (holds (mkObj 1 REDIS_ENCODING_RAW (PSds t2)) (b ++ d)) as Hd by (by exists t2).
  destruct (queue_set ext h1 l q o1 (Txt b) _ REDIS_ENCODING_RAW (PSds t2) (b ++ d) Hq1 E1 eq_refl Hd) as (Hq2 & Hk2 & Ht2).
  set (h2 := <[o1:=_]> h1) in *. assert (used h2 o1 = zmalloc_size_sds t2) as Eu by (unfold used, h2; by rewrite lookup_insert_eq).
  assert (used h o = zmalloc_size_sds t) as Eo by (unfold used, getStringObjectSdsUsedMemory; by rewrite E, He, Ep).
  pose proof (alloc_bound t2 _ Hr2). pose proof (alloc_bound t _ Ht). unfold limit_ok in Hlim. rewrite total_app in Hm. cbn [total] in Hm. rewrite Eo in Hm.
  assert (0 <= total h l) as Htn.
  { destruct Hq as [_ Hi _]. apply Forall2_app_inv in Hi as [Hi _]; [by eapply total_nonneg|]. apply Forall2_length in Hi. rewrite !length_app in Hi. cbn in Hi. lia. }
  set (n := reply_bytes c - zmalloc_size_sds t + zmalloc_size_sds t2).
  assert (reply_bytes (set_reply c (l ++ [o1]) n) = total h l + zmalloc_size_sds t2) as Er by (cbn; rewrite uint_id; unfold n; lia).
  do 2 eexists. split; [done|]. split; [|split; [done|split; [rewrite Er; lia|by eapply keeps_trans]]]. split; [done|done| | | |].
  - rewrite Er. cbn [reply set_reply]. rewrite Ht2, Ht1, Eu. done.
  - rewrite Er. lia.
  - by apply head_ok_grow.
  - intros Hr _. by apply Harm.
Qed.

Lemma snoc_items h l o q : Forall2 (obj_item h) (l ++ [o]) q -> exists q' i, q = q' ++ [i] /\ obj_item h o i.
Proof.
  intros Hi. apply Forall2_app_inv_l in Hi as (q' & qi & _ & Hi & ->). apply list.Forall2_cons_inv_l in Hi as (i & ? & Hi & Hn & ->).
  apply list.Forall2_nil_inv_l in Hn as ->. by exists q', i.
Qed.

Lemma append_spec e ext h c B q (d u : bytes) node : out_inv ext h c B q -> armed c -> limit_ok c 1 -> msize d < 2 ^ 31 ->
  (exists h1 o, node h = Some (h1, o, used h1 o) /\ node_added h h1 o d) ->
  exists h' c' q', append_or_node e h c (d ++ u) (msize d) node = Some (h', c') /\ out_inv ext h' c' B q' /\
    (forall sg, flat sg q' = flat sg q ++ d) /\ stable c c' /\ reply_bytes c' <= reply_bytes c + M /\ keeps ext h h'.
Proof.
  intros Hinv Harm Hlim Hd (h1 & o1 & En & Hn). unfold append_or_node.
  assert (forall h' c1 q', out_inv ext h' c1 B q' -> (forall sg, flat sg q' = flat sg q ++ d) -> stable c c1 -> reply_bytes c1 <= reply_bytes c + M -> keeps ext h h' ->
    exists h2 c2 q2, (c <- asyncCloseClientOnOutputBufferLimitReached e c1;; Some (h', c)) = Some (h2, c2) /\ out_inv ext h2 c2 B q2 /\
    (forall sg, flat sg q2 = flat sg q ++ d) /\ stable c c2 /\ reply_bytes c2 <= reply_bytes c + M /\ keeps ext h h2) as Hfin.
  { intros h' c1 q' I1 F1 S1 R1 K1. destruct (async_spec e ext h' c1 B q' I1) as (c2 & -> & I2 & S2 & R2). cbn [obind].
    exists h', c2, q'. split; [done|]. split; [done|]. split; [done|]. split; [by eapply stable_trans|]. split; [lia|done]. }
  assert (exists h2 c2 q2, (' (h, c) <- (' (h, o, mem) <- node h;; Some (h, set_reply c (reply c ++ [o]) (reply_bytes c + mem)));;
     c <- asyncCloseClientOnOutputBufferLimitReached e c;; Some (h, c)) = Some (h2, c2) /\ out_inv ext h2 c2 B q2 /\
    (forall sg, flat sg q2 = flat sg q ++ d) /\ stable c c2 /\ reply_bytes c2 <= reply_bytes c + M /\ keeps ext h h2) as Hadd.
  { rewrite En. cbn [obind]. destruct (add_node_inv ext h h1 c B q o1 d Hinv Harm Hlim Hn) as (I1 & S1 & R1 & K1).
    eapply (Hfin _ _ (q ++ [Txt d])); try done. intros sg. by rewrite flat_app, flat_txt. }
  destruct (list_snoc_cases (reply c)) as [El|(l & o & El)].
  { assert (lastNode (reply c) = None) as -> by (by rewrite El). exact Hadd. }
  assert (lastNode (reply c) = Some (l, o)) as -> by (rewrite El; apply lastNode_snoc). pose proof (qo_items _ _ _ _ (ci_queue _ _ _ _ _ Hinv)) as Hi. rewrite El in Hi.
  destruct (snoc_items h l o q Hi) as (q0 & i & -> & ob & E & Hob). rewrite E. cbn [obind].
  destruct (enc ob) eqn:Ee; [|exact Hadd|exact Hadd]. destruct (optr ob) as [|t|v] eqn:Ep; [exact Hadd| |exact Hadd].
  destruct (uint 64 (sdslen t + msize d) <=? REDIS_REPLY_CHUNK_BYTES) eqn:Ec; [|exact Hadd].
  destruct i as [b|o']; [|by destruct Hob as [_ Hob]]. destruct Hob as (s & Es & Hs & _). rewrite Ep in Es. injection Es as <-.
  destruct (sds_rep_len t b Hs) as [Elen Hb]. pose proof (msize_nonneg b). pose proof (msize_nonneg d).
  rewrite Elen, uint_id in Ec by lia. apply Z.leb_le in Ec.
  destruct (extend_last ext h c B q0 l o ob t b d u Hinv Harm Hlim El E Ee Ep Hs Ec) as (h' & c1 & E1 & I1 & S1 & R1 & K1). rewrite E1. cbn [obind].
  eapply (Hfin _ _ (q0 ++ [Txt (b ++ d)])); try done. intros sg. by rewrite !flat_app, !flat_txt, app_assoc.
Qed.

(** [d] is added to what the client will receive. *)
Definition queued (ext : oid -> Z) (h : heap) (c : rclient) (B : bytes) (q : list item) (k : Z) (d : bytes) (h' : heap) (c' : rclient) : Prop :=
  exists B' q', out_inv ext h' c' B' q' /\ (forall sg, B' ++ flat sg q' = (B ++ flat sg q) ++ d) /\ stable c c' /\
    reply_bytes c' <= reply_bytes c + k * M /\ keeps ext h h'.

Lemma to_buffer_spec ext h c B q (d u : bytes) : out_inv ext h c B q -> armed c -> writable c ->
  (exists c', _addReplyToBuffer c (d ++ u) (msize d) = Some (c', true) /\ queued ext h c B q 0 d h c') \/
  (_addReplyToBuffer c (d ++ u) (msize d) = Some (c, false) /\
   (reply c = [] -> REDIS_REPLY_CHUNK_BYTES - bufpos c < msize d)).
Proof.
  intros [(rest & Eb & Hsz & Ep) Hq Hm Hl Hs Hh] Harm (_ & _ & _ & Hcl). unfold _addReplyToBuffer. rewrite Hcl.
  destruct (bool_decide_reflect (reply c = [])) as [Er|Er]; cbn [negb]; [|by right].
  pose proof (msize_nonneg B). pose proof (msize_nonneg rest). unfold REDIS_REPLY_CHUNK_BYTES in *. rewrite uint_id, Z.gtb_ltb by lia.
  destruct (Z.ltb_spec (16 * 1024 - bufpos c) (msize d)) as [Hlt|Hge]; [right; split; [done|]; intros _; lia|left].
  pose proof (msize_nonneg d). destruct (split_at rest (msize d)) as (r1 & r2 & -> & Hr1); [lia|]. rewrite msize_app in *.
  rewrite (load_at [] d u) by done. cbn [obind]. rewrite Eb, (store_at B r1 r2) by done. cbn [obind]. eexists. split; [done|].
  assert (q = []) as -> by (destruct Hq as [_ Hi _]; rewrite Er in Hi; by apply list.Forall2_nil_inv_l in Hi).
  exists (B ++ d), []. split; [|split; [intros sg; by rewrite !app_nil_r|split; [done|split; [cbn; lia|apply keeps_refl]]]].
  split; [|done|done|done| |].
  - exists r2. cbn [obuf bufpos set_buffer]. rewrite sint32_id by lia. split; [by lsimpl|]. rewrite msize_app. unfold REDIS_REPLY_CHUNK_BYTES. lia.
  - cbn [sentlen set_buffer]. destruct Hs as [?|[?|(_ & b & q' & [=] & _)]]; [by left|]. right. left. rewrite msize_app. lia.
  - intros Hr _. by apply Harm.
Qed.

(** The nodes the three functions add. *)
Lemma node_new h e s d : sds_rep s d -> e <> REDIS_ENCODING_INT ->
  exists o, newObject h (mkObj 1 e (PSds s)) = (<[o := mkObj 1 e (PSds s)]> h, o) /\ h !! o = None /\
    node_added h (<[o := mkObj 1 e (PSds s)]> h) o d.
Proof.
  intros Hs He. destruct (fresh_object h (mkObj 1 e (PSds s))) as (o & E & Hfr). exists o. split; [done|]. split; [done|].
  eexists. split; [by apply lookup_insert_eq|]. split; [by exists s|]. split; [intros o' Hne; by rewrite lookup_insert_ne|]. by rewrite Hfr.
Qed.

Lemma node_shared h o ob d : h !! o = Some ob -> holds ob d -> exists h1, incrRefCount h o = Some h1 /\ node_added h h1 o d /\
  getStringObjectSdsUsedMemory ob = Some (used h1 o).
Proof.
  intros E Hd. unfold incrRefCount. rewrite E. cbn [obind]. eexists. split; [done|]. split.
  - eexists. split; [by apply lookup_insert_eq|]. split; [by apply (holds_same ob)|]. split; [intros o' Hne; by rewrite lookup_insert_ne|]. by rewrite E.
  - destruct (used_holds h o ob d E Hd) as [_ ->]. f_equal. symmetry. eapply used_same; [done|by apply lookup_insert_eq|done|done].
Qed.

(** A copy of [d], embedded in the object if it is short. *)
Lemma create_string h (d u : bytes) : msize d < 2 ^ 31 - 1 ->
  exists e s o, createStringObject h (d ++ u) (msize d) = Some (<[o := mkObj 1 e (PSds s)]> h, o) /\ sds_rep s d /\ e <> REDIS_ENCODING_INT /\ h !! o = None /\
    node_added h (<[o := mkObj 1 e (PSds s)]> h) o d.
Proof.
  intros Hd. pose proof (msize_nonneg d). unfold createStringObject. destruct (_ <=? _).
  - unfold createEmbeddedStringObject. rewrite (load_at [] d u) by done. cbn [obind].
    assert (sds_rep (MkSds (sint 32 (msize d)) 0 (d ++ [0])) d) as Hs.
    { exists []. cbn [buf len free]. rewrite sint32_id, msize_nil by lia. split; [done|lia]. }
    destruct (node_new h REDIS_ENCODING_EMBSTR _ d Hs) as (o & -> & Hfr & Hn); [done|]. by exists REDIS_ENCODING_EMBSTR, (MkSds (sint 32 (msize d)) 0 (d ++ [0])), o.
  - unfold createRawStringObject. destruct (sdsnewlen_rep d u Hd) as (s & -> & Hs & _). cbn [obind]. unfold createObject.
    destruct (node_new h REDIS_ENCODING_RAW s d Hs) as (o & -> & Hfr & Hn); [done|]. by exists REDIS_ENCODING_RAW, s, o.
Qed.

Lemma queued_list ext h c B q d h' c' q' : out_inv ext h' c' B q' -> (forall sg, flat sg q' = flat sg q ++ d) -> stable c c' ->
  reply_bytes c' <= reply_bytes c + M -> keeps ext h h' -> queued ext h c B q 1 d h' c'.
Proof. intros H1 H2 H3 H4 H5. exists B, q'. split; [done|]. split; [intros sg; by rewrite H2, app_assoc|]. split; [done|]. split; [lia|done]. Qed.

Lemma object_to_list ext h c B q e o ob d : out_inv ext h c B q -> armed c -> writable c -> limit_ok c 1 -> h !! o = Some ob -> holds ob d ->
  exists h' c', _addReplyObjectToList e h c o = Some (h', c') /\ queued ext h c B q 1 d h' c'.
Proof.
  intros Hinv Harm (_ & _ & _ & Hcl) Hlim E Hd. unfold _addReplyObjectToList. rewrite Hcl, E. cbn [obind]. pose proof Hd as (s & Es & Hs & _). rewrite Es.
  destruct (sds_rep_len s d Hs) as [-> Hlt]. destruct (sds_rep_buf s d Hs) as (fr & ->).
  destruct (append_spec e ext h c B q d (0 :: fr) (fun h => h <- incrRefCount h o;; m <- getStringObjectSdsUsedMemory ob;; Some (h, o, m)))
    as (h' & c' & q' & E1 & I1 & F1 & S1 & R1 & K1); try done; [lia| |].
  - destruct (node_shared h o ob d E Hd) as (h1 & -> & Hn & Hm). cbn [obind]. rewrite Hm. cbn [obind]. by exists h1, o.
  - exists h', c'. split; [done|]. by eapply queued_list.
Qed.

Lemma sds_to_list ext h c B q e s d : out_inv ext h c B q -> armed c -> writable c -> limit_ok c 1 -> sds_rep s d ->
  exists h' c', _addReplySdsToList e h c s = Some (h', c') /\ queued ext h c B q 1 d h' c'.
Proof.
  intros Hinv Harm (_ & _ & _ & Hcl) Hlim Hs. unfold _addReplySdsToList. rewrite Hcl. destruct (sds_rep_len s d Hs) as [-> Hlt]. destruct (sds_rep_buf s d Hs) as (fr & ->).
  destruct (append_spec e ext h c B q d (0 :: fr) (fun h => let '(h, o) := createObject h (PSds s) in Some (h, o, zmalloc_size_sds s)))
    as (h' & c' & q' & E1 & I1 & F1 & S1 & R1 & K1); try done; [lia| |].
  - unfold createObject. destruct (node_new h REDIS_ENCODING_RAW s d Hs) as (o & -> & _ & Hn); [done|]. do 2 eexists. split; [|exact Hn].
    f_equal. f_equal. unfold used. by rewrite lookup_insert_eq.
  - exists h', c'. split; [done|]. by eapply queued_list.
Qed.

Lemma string_to_list ext h c B q e (d u : bytes) : out_inv ext h c B q -> armed c -> writable c -> limit_ok c 1 -> msize d < 2 ^ 31 - 1 ->
  exists h' c', _addReplyStringToList e h c (d ++ u) (msize d) = Some (h', c') /\ queued ext h c B q 1 d h' c'.
Proof.
  intros Hinv Harm (_ & _ & _ & Hcl) Hlim Hd. unfold _addReplyStringToList. rewrite Hcl.
  destruct (append_spec e ext h c B q d u (fun h => ' (h, o) <- createStringObject h (d ++ u) (msize d);; ob <- h !! o;; m <- getStringObjectSdsUsedMemory ob;; Some (h, o, m)))
    as (h' & c' & q' & E1 & I1 & F1 & S1 & R1 & K1); try done; [lia| |].
  - destruct (create_string h d u Hd) as (en & s & o & -> & Hs & He & Hfr & Hn). cbn [obind]. rewrite lookup_insert_eq. cbn [obind].
    destruct (used_holds (<[o:=mkObj 1 en (PSds s)]> h) o (mkObj 1 en (PSds s)) d) as [_ ->]; [by apply lookup_insert_eq|by exists s|]. cbn [obind]. by do 2 eexists.
  - exists h', c'. split; [done|]. by eapply queued_list.
Qed.

(** ** Replies *)

Lemma queued_prepared ext h c c1 B q k d h' c' : replstate c1 = replstate c /\ bulk c1 = bulk c /\ (replnone c = false -> write_handler c1 = write_handler c) -> sentlen c1 = sentlen c -> reply_bytes c1 = reply_bytes c -> writable c1 -> armed c1 ->
  queued ext h c1 B q k d h' c' -> queued ext h c B q k d h' c'.
Proof.
  intros H1 H2 H3 H4 H5 (B' & q' & I & F & S & R & K). exists B', q'. split; [done|]. split; [done|]. split; [|split; [lia|done]].
  destruct H1 as (H1 & H1' & H1''). eapply stable_trans; [|done]. by split.
Qed.

Lemma queued_mono ext h c B q k k' d h' c' : k <= k' -> queued ext h c B q k d h' c' -> queued ext h c B q k' d h' c'.
Proof. intros Hk (B' & q' & I & F & S & R & K). exists B', q'. do 3 (split; [done|]). pose proof HM2. split; [nia|done]. Qed.

Lemma addReplyString_spec e ext h c B q (d u : bytes) : aeCreateFileEvent_ok e = true -> out_inv ext h c B q -> writable c -> limit_ok c 1 -> msize d < 2 ^ 31 - 1 ->
  exists h' c', addReplyString e h c (d ++ u) (msize d) = Some (h', c') /\ queued ext h c B q 1 d h' c'.
Proof.
  intros He Hinv Hw Hlim Hd. unfold addReplyString. destruct (prepare_spec e ext h c B q He Hinv Hw) as (c1 & -> & I1 & W1 & A1 & G1 & G2 & G3 & _). cbn [negb].
  unfold limit_ok in Hlim. rewrite <- G3 in Hlim. destruct (to_buffer_spec ext h c1 B q d u I1 A1 W1) as [(c2 & -> & Q)|[-> _]]; cbn [obind].
  - exists h, c2. split; [done|]. eapply queued_prepared; try done. by eapply queued_mono; [|done].
  - destruct (string_to_list ext h c1 B q e d u I1 A1 W1 Hlim Hd) as (h' & c' & E & Q). exists h', c'. split; [done|]. by eapply queued_prepared.
Qed.

Lemma addReplySds_spec e ext h c B q s d : aeCreateFileEvent_ok e = true -> out_inv ext h c B q -> writable c -> limit_ok c 1 -> sds_rep s d ->
  exists h' c', addReplySds e h c s = Some (h', c') /\ queued ext h c B q 1 d h' c'.
Proof.
  intros He Hinv Hw Hlim Hs. unfold addReplySds. destruct (prepare_spec e ext h c B q He Hinv Hw) as (c1 & -> & I1 & W1 & A1 & G1 & G2 & G3 & _). cbn [negb].
  unfold limit_ok in Hlim. rewrite <- G3 in Hlim. destruct (sds_rep_len s d Hs) as [El _]. destruct (sds_rep_buf s d Hs) as (fr & Eb). rewrite El, Eb.
  destruct (to_buffer_spec ext h c1 B q d (0 :: fr) I1 A1 W1) as [(c2 & -> & Q)|[-> _]]; cbn [obind].
  - exists h, c2. split; [done|]. eapply queued_prepared; try done. by eapply queued_mono; [|done].
  - destruct (sds_to_list ext h c1 B q e s d I1 A1 W1 Hlim Hs) as (h' & c' & E & Q). exists h', c'. split; [done|]. by eapply queued_prepared.
Qed.

(** *** A reference is dropped *)

Lemma drop_ref ext ext' h l l' o : refs ext h l ->
  (forall x, ext x + occ x l = ext' x + occ x l' + (if bool_decide (x = o) then 1 else 0) /\ 0 <= ext' x) ->
  exists h', decrRefCount h o = Some h' /\ refs ext' h' l' /\
    (forall x obx, x ∈ l' \/ 0 < ext' x -> h !! x = Some obx -> exists ob', h' !! x = Some ob' /\ optr ob' = optr obx /\ enc ob' = enc obx).
Proof.
  intros Hr Hsum. pose proof (Hr o) as Hro. pose proof (Hsum o) as [Hso Hse]. rewrite bool_decide_eq_true_2 in Hso by done.
  pose proof (occ_nonneg o l'). destruct (h !! o) as [ob|] eqn:E; [|lia]. unfold decrRefCount. rewrite E. cbn [obind].
  rewrite (proj2 (Z.leb_gt _ _)) by lia.
  assert (forall h', (forall x, x <> o -> h' !! x = h !! x) ->
    match h' !! o with Some ob' => optr ob' = optr ob /\ enc ob' = enc ob /\ refcount ob' = refcount ob - 1 /\ 1 <= refcount ob' | None => refcount ob = 1 end ->
    refs ext' h' l' /\ (forall x obx, x ∈ l' \/ 0 < ext' x -> h !! x = Some obx -> exists ob', h' !! x = Some ob' /\ optr ob' = optr obx /\ enc ob' = enc obx)) as Hmain.
  { intros h' Hoth Ho'. split.
    - intros x. specialize (Hr x). specialize (Hsum x) as [Hsx Hex]. destruct (decide (x = o)) as [->|Hne].
      + rewrite E in Hr. destruct (h' !! o) as [ob'|]; lia.
      + rewrite Hoth by done. rewrite bool_decide_eq_false_2 in Hsx by done. pose proof (occ_nonneg x l'). destruct (h !! x); lia.
    - intros x obx Hx Ex. destruct (decide (x = o)) as [->|Hne]; [|exists obx; by rewrite Hoth]. rewrite E in Ex. injection Ex as <-.
      destruct (h' !! o) as [ob'|]; [exists ob'; by destruct Ho' as (? & ? & _)|]. destruct Hx as [Hx|Hx]; [apply occ_in in Hx; lia|lia]. }
  destruct (Z.eqb_spec (refcount ob) 1) as [H1|H1].
  - eexists. split; [done|]. apply Hmain; [intros x Hx; by rewrite lookup_delete_ne|]. by rewrite lookup_delete_eq.
  - eexists. split; [done|]. apply Hmain; [intros x Hx; by rewrite lookup_insert_ne|]. rewrite lookup_insert_eq. cbn [refcount optr enc]. split; [done|]. split; [done|]. lia.
Qed.

(** A node is removed. *)
Lemma queue_remove ext h la lb qa qb o b : queue_ok ext h (la ++ o :: lb) (qa ++ Txt b :: qb) -> length la = length qa ->
  exists h', decrRefCount h o = Some h' /\ queue_ok ext h' (la ++ lb) (qa ++ qb) /\ keeps ext h h' /\ total h' (la ++ lb) = total h la + total h lb.
Proof.
  intros [Hr Hi Hg] Hlen. pose proof Hi as Hi0. apply Forall2_app_inv in Hi as [Hia Hib]; [|done]. apply list.Forall2_cons in Hib as [(ob & E & Hob) Hib].
  destruct (drop_ref ext ext h (la ++ o :: lb) (la ++ lb) o Hr) as (h' & E' & Hr' & Hkeep).
  { intros x. pose proof (Hr x) as Hx. rewrite !occ_app. cbn [occ]. rewrite (bool_decide_ext (o = x) (x = o)) by done. split; [lia|]. destruct (h !! x); lia. }
  exists h'. split; [done|]. assert (Forall2 (obj_item h) (la ++ lb) (qa ++ qb)) as Hin by (by apply Forall2_app).
  destruct (items_change h h' (la ++ lb) (qa ++ qb) Hin) as [Hi1 Ht]; [intros x obx Hx; apply Hkeep; by left|].
  split; [|split; [intros x obx Hx; apply Hkeep; by right|rewrite Ht, total_app; done]]. split; [done|done|]. intros x Hx.
  destruct (Hg x) as [H1 H2]; [apply elem_of_app in Hx as [?|?]; apply elem_of_app; [by left|right; by right]|]. split; [done|].
  rewrite occ_app in H2 |- *. cbn [occ] in H2. destruct (bool_decide_reflect (o = x)) as [<-|]; [|lia].
  destruct (gap_null h _ _ o Hin Hx) as (obx & Ex & Hnull). rewrite E in Ex. injection Ex as <-. destruct Hob as (s & Es & _). congruence.
Qed.

(** *** A temporary object *)

Definition hold_one (ext : oid -> Z) (o : oid) : oid -> Z := fun x => if bool_decide (x = o) then 1 else ext x.

Lemma acquire ext h c B q o ob : out_inv ext h c B q -> h !! o = None -> refcount ob = 1 -> out_inv (hold_one ext o) (<[o := ob]> h) c B q.
Proof.
  intros [Hb [Hr Hi Hg] Hm Hl Hs Hh] Hfr Hrc.
  destruct (items_change h (<[o := ob]> h) (reply c) q Hi) as [Hi1 Ht].
  { intros o' ob' _ E. exists ob'. rewrite lookup_insert_ne; [done|]. intros ->. congruence. }
  split; [done| |by rewrite Ht|done..]. pose proof (Hr o) as Ho. rewrite Hfr in Ho. split; [|done|].
  - intros x. specialize (Hr x). unfold hold_one. destruct (bool_decide_reflect (x = o)) as [->|Hne].
    + rewrite lookup_insert_eq, Hrc. lia.
    + by rewrite lookup_insert_ne by done.
  - intros x Hx. destruct (Hg x Hx) as [H1 H2]. unfold hold_one. rewrite bool_decide_eq_false_2; [done|]. intros ->. lia.
Qed.

Lemma release ext h c B q o : out_inv (hold_one ext o) h c B q -> ext o = 0 -> exists h', decrRefCount h o = Some h' /\ out_inv ext h' c B q /\ keeps ext h h'.
Proof.
  intros [Hb [Hr Hi Hg] Hm Hl Hs Hh] Ho.
  destruct (drop_ref (hold_one ext o) ext h (reply c) (reply c) o Hr) as (h' & E & Hr' & Hkeep).
  { intros x. pose proof (Hr x) as Hx. unfold hold_one in Hx |- *. destruct (bool_decide_reflect (x = o)) as [E|E]; [rewrite E; lia|]. destruct (h !! x); lia. }
  exists h'. split; [done|]. destruct (items_change h h' (reply c) q Hi) as [Hi1 Ht]; [intros x obx Hx; apply Hkeep; by left|].
  split; [|intros x obx Hx; apply Hkeep; by right]. split; [done| |by rewrite Ht|done..]. split; [done|done|].
  intros x Hx. destruct (Hg x Hx) as [H1 H2]. unfold hold_one in H1. by destruct (bool_decide_reflect (x = o)).
Qed.

Lemma keeps_hold ext o h h' : ext o = 0 -> keeps (hold_one ext o) h h' -> keeps ext h h'.
Proof.
  intros Ho Hk x ob Hx E. apply Hk; [|done]. unfold hold_one. destruct (bool_decide _); lia.
Qed.

(** *** Objects of the server *)

(** The object, which others refer to, stands for [d]. *)
Definition stands_for (ob : sobj) (d : bytes) : Prop :=
  holds ob d \/ exists v, optr ob = PInt v /\ LLONG_MIN < v <= LLONG_MAX /\ d = printf_d v.

Definition has (ext : oid -> Z) (h : heap) (o : oid) (d : bytes) : Prop := 0 < ext o /\ exists ob, h !! o = Some ob /\ stands_for ob d.

Lemma has_keeps ext h h' o d : keeps ext h h' -> has ext h o d -> has ext h' o d.
Proof.
  intros Hk (Ho & ob & E & Hs). destruct (Hk o ob Ho E) as (ob' & E' & Hp & He). split; [done|]. exists ob'. split; [done|].
  destruct Hs as [Hs|(v & Hv)]; [left; by apply (holds_same ob)|]. right. exists v. by rewrite Hp.
Qed.

(** A number that does not fit the static buffer is printed in an object of its own. *)
Lemma add_decoded e ext h c B q o ob v : out_inv ext h c B q -> armed c -> writable c -> limit_ok c 1 -> LLONG_MIN < v <= LLONG_MAX ->
  h !! o = Some ob -> optr ob = PInt v ->
  exists h' c', (' (h, o) <- getDecodedObjectRef h o;;
    ob <- h !! o;;
    match optr ob with
    | PSds s =>
      ' (c, ok) <- _addReplyToBuffer c (buf s) (sdslen s);;
      ' (h, c) <- (if ok : bool then Some (h, c) else _addReplyObjectToList e h c o);;
      h <- decrRefCount h o;;
      Some (h, c)
    | _ => None
    end) = Some (h', c') /\ queued ext h c B q 1 (printf_d v) h' c'.
Proof.
  intros Hinv Harm Hw Hlim Hv E Ep. unfold getDecodedObjectRef. rewrite E. cbn [obind]. rewrite Ep.
  destruct (ll2string_printf (zmalloc 32) 32 v Hv) as (rest & -> & Hsz & _); [lia|unfold zmalloc; rewrite msize_fresh; lia|]. cbn [obind]. set (d := printf_d v) in *.
  rewrite strlen_spec by (unfold LLONG_MIN, LLONG_MAX in Hv; eapply list.Forall_impl; [eapply (decimal_line _ v), printf_d_decimal; lia|]; by intros c0 [_ ?]). cbn [obind].
  destruct (create_string h d (0 :: rest)) as (en & s & o1 & -> & Hs & He & Hfr & _); [lia|]. cbn [obind]. rewrite lookup_insert_eq. cbn [obind optr].
  set (h1 := <[o1:=_]> h). pose proof (qo_refs _ _ _ _ (ci_queue _ _ _ _ _ Hinv) o1) as Ho1. rewrite Hfr in Ho1. destruct Ho1 as [Ho1 _].
  assert (out_inv (hold_one ext o1) h1 c B q) as I1 by (by apply acquire).
  assert (keeps ext h h1) as K1 by (intros x obx _ Ex; exists obx; unfold h1; rewrite lookup_insert_ne; [done|congruence]).
  destruct (sds_rep_len s d Hs) as [El _]. destruct (sds_rep_buf s d Hs) as (fr & Eb). rewrite El, Eb.
  assert (forall h2 c2, queued (hold_one ext o1) h1 c B q 1 d h2 c2 ->
    exists h' c', (h <- decrRefCount h2 o1;; Some (h, c2)) = Some (h', c') /\ queued ext h c B q 1 d h' c') as Hfin.
  { intros h2 c2 (B' & q' & I2 & F2 & S2 & R2 & K2). destruct (release ext h2 c2 B' q' o1 I2 Ho1) as (h3 & -> & I3 & K3). cbn [obind].
    exists h3, c2. split; [done|]. exists B', q'. split; [done|]. split; [done|]. split; [done|]. split; [done|].
    eapply keeps_trans; [exact K1|]. eapply keeps_trans; [by eapply keeps_hold|done]. }
  destruct (to_buffer_spec (hold_one ext o1) h1 c B q d (0 :: fr) I1 Harm Hw) as [(c2 & -> & Q)|[-> _]]; cbn [obind].
  - apply Hfin. by eapply queued_mono; [|done].
  - assert (h1 !! o1 = Some (mkObj 1 en (PSds s))) as E1 by (unfold h1; by rewrite lookup_insert_eq).
    destruct (object_to_list (hold_one ext o1) h1 c B q e o1 _ d I1 Harm Hw Hlim E1) as (h2 & c2 & -> & Q); [by exists s|]. cbn [obind]. by apply Hfin.
Qed.

Lemma addReply_spec e ext h c B q o d : aeCreateFileEvent_ok e = true -> out_inv ext h c B q -> writable c -> limit_ok c 1 -> has ext h o d ->
  exists h' c', addReply e h c o = Some (h', c') /\ queued ext h c B q 1 d h' c'.
Proof.
  intros He Hinv Hw Hlim (_ & ob & E & Hob). unfold addReply. destruct (prepare_spec e ext h c B q He Hinv Hw) as (c1 & -> & I1 & W1 & A1 & G1 & G2 & G3 & _). cbn [negb].
  unfold limit_ok in Hlim. rewrite <- G3 in Hlim. rewrite E. cbn [obind].
  destruct Hob as [Hd|(v & Ep & Hv & ->)].
  - pose proof Hd as (s & Es & Hs & _). rewrite Es. destruct (sds_rep_len s d Hs) as [El _]. destruct (sds_rep_buf s d Hs) as (fr & Eb). rewrite El, Eb.
    destruct (to_buffer_spec ext h c1 B q d (0 :: fr) I1 A1 W1) as [(c2 & -> & Q)|[-> _]]; cbn [obind].
    + exists h, c2. split; [done|]. eapply queued_prepared; try done. by eapply queued_mono; [|done].
    + destruct (object_to_list ext h c1 B q e o ob d I1 A1 W1 Hlim E Hd) as (h' & c' & E2 & Q). exists h', c'. split; [done|]. by eapply queued_prepared.
  - rewrite Ep. destruct (bool_decide_reflect (reply c1 = [])) as [Er|Er]; cbn [andb].
    + destruct (uint 64 (REDIS_REPLY_CHUNK_BYTES - bufpos c1) >=? 32) eqn:Eu; cbn [obind].
      * destruct (ll2string_printf (zmalloc 32) 32 v Hv) as (rest & -> & Hsz & _); [lia|unfold zmalloc; rewrite msize_fresh; lia|]. cbn [obind].
        destruct (to_buffer_spec ext h c1 B q (printf_d v) (0 :: rest) I1 A1 W1) as [(c2 & -> & Q)|[-> _]]; cbn [obind].
        -- exists h, c2. split; [done|]. eapply queued_prepared; try done. by eapply queued_mono; [|done].
        -- destruct (add_decoded e ext h c1 B q o ob v I1 A1 W1 Hlim Hv E Ep) as (h' & c' & E2 & Q). exists h', c'. split; [done|]. by eapply queued_prepared.
      * destruct (add_decoded e ext h c1 B q o ob v I1 A1 W1 Hlim Hv E Ep) as (h' & c' & E2 & Q). exists h', c'. split; [done|]. by eapply queued_prepared.
    + cbn [obind]. destruct (add_decoded e ext h c1 B q o ob v I1 A1 W1 Hlim Hv E Ep) as (h' & c' & E2 & Q). exists h', c'. split; [done|]. by eapply queued_prepared.
Qed.

End Spec.
