(* ===== verification/ReplyOps.v ===== *)
(** Replies to clients: the functions commands call, as what they add to the output. *)

From stdpp Require Import gmap.
From S2P Require Import Prelude Util Sds SdsRep RioSpec Networking NetworkingSpec Reply ReplySpec.

Section Ops.
Context {HOST : Host} {AL : Allocator} {LAWS : AllocatorLaws AL}.
Variable e : reply_env.
Hypothesis He : aeCreateFileEvent_ok e = true.

(** [f] adds [d] to the output of any client that receives replies, with at most [k] more blocks, where
    the objects of the server are as [P] says. *)
Definition adds (P : (oid -> Z) -> heap -> Prop) (k : Z) (f : heap -> rclient -> option (heap * rclient)) (d : bytes) : Prop :=
  forall ext h c B q, out_inv ext h c B q -> writable c -> limit_ok c k -> P ext h ->
    exists h' c', f h c = Some (h', c') /\ queued ext h c B q k d h' c'.

(** What others do not change. *)
Definition kept (P : (oid -> Z) -> heap -> Prop) : Prop := forall ext h h', keeps ext h h' -> P ext h -> P ext h'.

Lemma kept_has o d : kept (fun ext h => has ext h o d).
Proof. intros ext h h'. apply has_keeps. Qed.

Lemma kept_and P Q : kept P -> kept Q -> kept (fun ext h => P ext h /\ Q ext h).
Proof. intros HP HQ ext h h' Hk [H1 H2]. split; [by apply (HP ext h)|by apply (HQ ext h)]. Qed.

Lemma kept_true (P : Prop) : kept (fun _ _ => P).
Proof. by intros ext h h' _ HP. Qed.

Lemma adds_seq P k1 k2 f g d1 d2 : kept P -> 0 <= k1 -> 0 <= k2 -> adds P k1 f d1 -> adds P k2 g d2 ->
  adds P (k1 + k2) (fun h c => ' (h, c) <- f h c;; g h c) (d1 ++ d2).
Proof.
  intros HP Hk1 Hk2 Hf Hg ext h c B q I W L HPh. pose proof HM2 as HMp. unfold limit_ok in L.
  destruct (Hf ext h c B q I W) as (h1 & c1 & -> & B1 & q1 & I1 & F1 & S1 & R1 & K1); [unfold limit_ok; nia|done|]. cbn [obind].
  destruct (Hg ext h1 c1 B1 q1 I1) as (h2 & c2 & -> & B2 & q2 & I2 & F2 & S2 & R2 & K2); [by apply S1|unfold limit_ok; nia|by apply (HP ext h)|].
  exists h2, c2. split; [done|]. exists B2, q2. split; [done|]. split; [intros sg; by rewrite F2, F1, app_assoc|].
  split; [by eapply stable_trans|]. split; [nia|by eapply keeps_trans].
Qed.

Lemma adds_weaken (P Q : (oid -> Z) -> heap -> Prop) k k' f d : (forall ext h, Q ext h -> P ext h) -> k <= k' -> adds P k f d -> adds Q k' f d.
Proof.
  intros HQ Hk Hf ext h c B q I W L HQh. pose proof HM2. destruct (Hf ext h c B q I W) as (h' & c' & E & Hq); [unfold limit_ok in *; nia|by apply HQ|].
  exists h', c'. split; [done|]. by eapply queued_mono.
Qed.

Lemma adds_nothing : adds (fun _ _ => True) 0 (fun h c => Some (h, c)) [].
Proof.
  intros ext h c B q I W _ _. exists h, c. split; [done|]. exists B, q. split; [done|]. split; [intros sg; by rewrite app_nil_r|]. split; [apply stable_refl|].
  split; [lia|apply keeps_refl].
Qed.

Lemma adds_reply o d : adds (fun ext h => has ext h o d) 1 (fun h c => addReply e h c o) d.
Proof. intros ext h c B q I W L Ho. by apply addReply_spec. Qed.

Lemma adds_string (d u : bytes) : msize d < 2 ^ 31 - 1 -> adds (fun _ _ => True) 1 (fun h c => addReplyString e h c (d ++ u) (msize d)) d.
Proof. intros Hd ext h c B q I W L _. by apply addReplyString_spec. Qed.

(** ** Errors and status *)

Lemma adds_error (s u : bytes) : msize s < 2 ^ 31 - 1 ->
  adds (fun _ _ => True) 3 (fun h c => addReplyErrorLength e h c (s ++ u) (msize s)) ([45; 69; 82; 82; 32] ++ s ++ [13; 10]).
Proof.
  intros Hs. apply (adds_seq _ 1 2); [apply kept_true|lia|lia|apply (adds_string [45; 69; 82; 82; 32] []); done|].
  apply (adds_seq _ 1 1); [apply kept_true|lia|lia|by apply adds_string|]. by apply (adds_string [13; 10] []).
Qed.

Lemma adds_status (s u : bytes) : msize s < 2 ^ 31 - 1 ->
  adds (fun _ _ => True) 3 (fun h c => addReplyStatusLength e h c (s ++ u) (msize s)) ([43] ++ s ++ [13; 10]).
Proof.
  intros Hs. apply (adds_seq _ 1 2); [apply kept_true|lia|lia|apply (adds_string [43] []); done|].
  apply (adds_seq _ 1 1); [apply kept_true|lia|lia|by apply adds_string|]. by apply (adds_string [13; 10] []).
Qed.

(** ** Numbers *)

Variable shared : sharedObjects.

(** The shared objects hold the strings they are named after. *)
Definition shared_ok (ext : oid -> Z) (h : heap) : Prop :=
  (forall n, 0 <= n < REDIS_SHARED_BULKHDR_LEN -> exists o, mbulkhdr shared !! Z.to_nat n = Some o /\ has ext h o (count_bytes 42 (printf_d n))) /\
  (forall n, 0 <= n < REDIS_SHARED_BULKHDR_LEN -> exists o, bulkhdr shared !! Z.to_nat n = Some o /\ has ext h o (count_bytes 36 (printf_d n))) /\
  has ext h (crlf shared) [13; 10] /\ has ext h (czero shared) [58; 48; 13; 10] /\ has ext h (cone shared) [58; 49; 13; 10].

Lemma kept_shared : kept shared_ok.
Proof.
  intros ext h h' Hk (H1 & H2 & H3 & H4 & H5). split; [|split; [|split; [|split]]]; try (by apply (has_keeps ext h)).
  - intros n Hn. destruct (H1 n Hn) as (o & Eo & Ho). exists o. split; [done|]. by apply (has_keeps ext h).
  - intros n Hn. destruct (H2 n Hn) as (o & Eo & Ho). exists o. split; [done|]. by apply (has_keeps ext h).
Qed.

Lemma adds_index (a : list oid) n p :
  adds (fun ext h => exists o, a !! Z.to_nat n = Some o /\ has ext h o (count_bytes p (printf_d n))) 1
    (fun h c => o <- index a n;; addReply e h c o) (count_bytes p (printf_d n)) \/ n < 0.
Proof.
  destruct (Z.lt_ge_cases n 0) as [?|Hn]; [by right|left]. intros ext h c B q I W L (o & Eo & Ho). unfold index.
  rewrite (proj2 (Z.ltb_ge n 0)), Eo by lia. cbn [obind]. by apply addReply_spec.
Qed.

Lemma adds_prefix ll prefix : is_byte prefix -> LLONG_MIN < ll <= LLONG_MAX -> (prefix = 42 \/ prefix = 36 -> 0 <= ll) ->
  adds shared_ok 1 (fun h c => addReplyLongLongWithPrefix shared e h c ll prefix) (count_bytes prefix (printf_d ll)).
Proof.
  intros Hp Hl Hpos ext h c B q I W L Hsh. unfold addReplyLongLongWithPrefix. destruct ((prefix =? 42) && (ll <? REDIS_SHARED_BULKHDR_LEN)) eqn:E1.
  { apply andb_true_iff in E1 as [->%Z.eqb_eq Hlt%Z.ltb_lt]. assert (0 <= ll) by auto. destruct (adds_index (mbulkhdr shared) ll 42) as [Ha|]; [|lia].
    apply (Ha ext h c B q I W L). by apply Hsh. }
  destruct ((prefix =? 36) && (ll <? REDIS_SHARED_BULKHDR_LEN)) eqn:E2.
  { apply andb_true_iff in E2 as [->%Z.eqb_eq Hlt%Z.ltb_lt]. assert (0 <= ll) by auto. destruct (adds_index (bulkhdr shared) ll 36) as [Ha|]; [|lia].
    apply (Ha ext h c B q I W L). by apply Hsh. }
  assert (exists x tl, zmalloc 128 = x :: tl /\ msize tl = 127) as (x & tl & -> & Htl).
  { assert (msize (zmalloc 128) = 128) as Hz by (unfold zmalloc; by rewrite msize_fresh). destruct (zmalloc 128) as [|x tl]; [done|]. exists x, tl. split; [done|]. rewrite msize_cons in Hz. lia. }
  rewrite (store8_at [] x tl) by done. cbn [obind app]. rewrite (uint_id 8) by (unfold is_byte in Hp; lia).
  rewrite (load_at [prefix] tl []) by (rewrite ?app_nil_r; done || lia). cbn [obind].
  destruct (ll2string_printf tl 127 ll Hl) as (rest & -> & Hds & Hrest); [lia|lia|]. cbn [obind]. set (ds := printf_d ll) in *.
  rewrite (store_at [prefix] tl []); [|by rewrite app_nil_r|done|msolve]. cbn [obind]. rewrite app_nil_r.
  destruct rest as [|y rest]; [rewrite msize_nil in Hrest; lia|]. rewrite msize_cons in Hrest.
  rewrite (store8_at (prefix :: ds) 0 (y :: rest)) by (done || msolve). cbn [obind].
  rewrite (store8_at (prefix :: ds ++ [13]) y rest) by (done || (lsimpl; done) || msolve). cbn [obind].
  change (uint 8 13) with 13. change (uint 8 10) with 10.
  replace ((prefix :: ds ++ [13]) ++ 10 :: rest) with (count_bytes prefix ds ++ rest) by (unfold count_bytes; by lsimpl).
  replace (msize ds + 3) with (msize (count_bytes prefix ds)) by (unfold count_bytes; msolve).
  apply addReplyString_spec; try done. unfold count_bytes. msolve.
Qed.

Lemma adds_longlong ll : LLONG_MIN < ll <= LLONG_MAX -> adds shared_ok 1 (fun h c => addReplyLongLong shared e h c ll) (count_bytes 58 (printf_d ll)).
Proof.
  intros Hl. unfold addReplyLongLong. destruct (Z.eqb_spec ll 0) as [->|H0].
  { eapply (adds_weaken (fun ext h => has ext h (czero shared) [58; 48; 13; 10])); [|done|apply adds_reply]. intros ext h Hs. apply Hs. }
  destruct (Z.eqb_spec ll 1) as [->|H1].
  { eapply (adds_weaken (fun ext h => has ext h (cone shared) [58; 49; 13; 10])); [|done|apply adds_reply]. intros ext h Hs. apply Hs. }
  apply adds_prefix; [done|done|lia].
Qed.

Lemma adds_multibulk n : 0 <= n <= LLONG_MAX -> adds shared_ok 1 (fun h c => addReplyMultiBulkLen shared e h c n) (count_bytes 42 (printf_d n)).
Proof.
  intros Hn. unfold addReplyMultiBulkLen. destruct (Z.ltb_spec n REDIS_SHARED_BULKHDR_LEN).
  - destruct (adds_index (mbulkhdr shared) n 42) as [Ha|]; [|lia]. eapply adds_weaken; [|done|exact Ha]. intros ext h Hs. apply (proj1 Hs). lia.
  - apply adds_prefix; [done|unfold LLONG_MIN; lia|lia].
Qed.

(** ** Bulk replies *)

Lemma count_digits_S fuel n len : count_digits (Datatypes.S fuel) n len =
  if negb (Z.quot n 10 =? 0) then count_digits fuel (Z.quot n 10) (len + 1) else Some len.
Proof. done. Qed.

Lemma print_digits_S fuel v acc : print_digits (Datatypes.S fuel) v acc =
  if v / 10 =? 0 then (48 + v mod 10) :: acc else print_digits fuel (v / 10) ((48 + v mod 10) :: acc).
Proof. done. Qed.

Lemma count_digits_spec fuel : forall v len acc, 0 <= v < 10 ^ Z.of_nat (Datatypes.S fuel) ->
  count_digits (Datatypes.S fuel) v len = Some (len - 1 + msize (print_digits (Datatypes.S fuel) v acc) - msize acc).
Proof.
  induction fuel as [|fuel IH]; intros v len acc Hv; rewrite count_digits_S, print_digits_S, Z.quot_div_nonneg by lia.
  - change (10 ^ Z.of_nat 1) with 10 in Hv. rewrite (Z.div_small v 10) by lia. cbn [Z.eqb negb]. f_equal. msolve.
  - destruct (Z.eqb_spec (v / 10) 0) as [Hz|Hz]; cbn [negb]; [f_equal; msolve|].
    rewrite (IH (v / 10) (len + 1) ((48 + v mod 10) :: acc)); [f_equal; msolve|].
    split; [apply Z.div_pos; lia|]. apply Z.div_lt_upper_bound; [lia|].
    replace (Z.of_nat (Datatypes.S (Datatypes.S fuel))) with (1 + Z.of_nat (Datatypes.S fuel)) in Hv by lia. rewrite Z.pow_add_r in Hv by lia. lia.
Qed.

Lemma bulk_len_spec ob d : stands_for ob d ->
  match optr ob with
  | PSds s => Some (sdslen s)
  | PInt n => ' (n, len) <- (if n <? 0 then n <- ll_arith (- n);; Some (n, 2) else Some (n, 1));; count_digits 20 n len
  | PNull => None
  end = Some (msize d) /\ msize d < 2 ^ 31 - 1.
Proof.
  intros [(s & -> & Hs & _)|(v & -> & Hv & ->)]; [destruct (sds_rep_len s d Hs) as [-> ?]; done|].
  pose proof (ll2string_printf (zmalloc 32) 32 v Hv ltac:(lia) ltac:(unfold zmalloc; rewrite msize_fresh; lia)) as (_ & _ & Hsz & _).
  split; [|lia]. unfold LLONG_MIN, LLONG_MAX in Hv. unfold printf_d. destruct (Z.ltb_spec v 0).
  - rewrite ll_arith_Some by (unfold LLONG_MIN, LLONG_MAX; lia). cbn [obind].
    rewrite (count_digits_spec 19 (- v) 2 []) by (change (10 ^ Z.of_nat 20) with (10 ^ 20); lia). f_equal. rewrite msize_cons, msize_nil. lia.
  - cbn [obind]. rewrite (count_digits_spec 19 v 1 []) by (change (10 ^ Z.of_nat 20) with (10 ^ 20); lia). f_equal. rewrite msize_nil. lia.
Qed.

Definition bulk_ok (o : oid) (d : bytes) (ext : oid -> Z) (h : heap) : Prop := shared_ok ext h /\ has ext h o d.

Lemma kept_bulk o d : kept (bulk_ok o d).
Proof. apply kept_and; [apply kept_shared|apply kept_has]. Qed.

Lemma adds_bulk_len o d : adds (bulk_ok o d) 1 (fun h c => addReplyBulkLen shared e h c o) (count_bytes 36 (printf_d (msize d))).
Proof.
  intros ext h c B q I W L [Hsh (Ho & ob & E & Hst)]. unfold addReplyBulkLen. rewrite E. cbn [obind].
  destruct (bulk_len_spec ob d Hst) as [-> Hlt]. cbn [obind]. pose proof (msize_nonneg d). destruct (Z.ltb_spec (msize d) REDIS_SHARED_BULKHDR_LEN).
  - destruct (adds_index (bulkhdr shared) (msize d) 36) as [Ha|]; [|lia]. apply (Ha ext h c B q I W L). by apply Hsh.
  - apply (adds_prefix (msize d) 36) with (ext := ext) (B := B) (q := q); try done. unfold LLONG_MIN, LLONG_MAX. lia.
Qed.

Lemma adds_bulk o d : adds (bulk_ok o d) 3 (fun h c => addReplyBulk shared e h c o) (bulk_bytes (printf_d (msize d)) d).
Proof.
  unfold bulk_bytes. apply (adds_seq _ 1 2); [apply kept_bulk|lia|lia|apply adds_bulk_len|].
  apply (adds_seq _ 1 1); [apply kept_bulk|lia|lia| |].
  - eapply adds_weaken; [|done|apply adds_reply]. by intros ext h [_ ?].
  - eapply adds_weaken; [|done|apply (adds_reply (crlf shared) [13; 10])]. intros ext h [Hs _]. apply Hs.
Qed.

Lemma adds_bulk_cbuffer (d u : bytes) : msize d < 2 ^ 31 - 1 ->
  adds shared_ok 3 (fun h c => addReplyBulkCBuffer shared e h c (d ++ u) (msize d)) (bulk_bytes (printf_d (msize d)) d).
Proof.
  intros Hd. pose proof (msize_nonneg d). unfold bulk_bytes. apply (adds_seq _ 1 2); [apply kept_shared|lia|lia|apply adds_prefix; [done|unfold LLONG_MIN, LLONG_MAX; lia|lia]|].
  apply (adds_seq _ 1 1); [apply kept_shared|lia|lia| |].
  - eapply adds_weaken; [|done|by apply adds_string]. done.
  - eapply adds_weaken; [|done|apply (adds_reply (crlf shared) [13; 10])]. intros ext h Hs. apply Hs.
Qed.

Lemma adds_bulk_longlong v : LLONG_MIN < v <= LLONG_MAX ->
  adds shared_ok 3 (fun h c => addReplyBulkLongLong shared e h c v) (bulk_bytes (printf_d (msize (printf_d v))) (printf_d v)).
Proof.
  intros Hv. unfold addReplyBulkLongLong.
  destruct (ll2string_printf (zmalloc 64) 64 v Hv) as (rest & -> & Hsz & _); [lia|unfold zmalloc; rewrite msize_fresh; lia|]. cbn [obind]. apply adds_bulk_cbuffer. lia.
Qed.

End Ops.
