(* ===== verification/ReplySend.v ===== *)
(** Replies to clients: sending the output with writes of any sizes, and lengths
    that are filled in later. *)

From stdpp Require Import gmap relations.
From S2P Require Import Prelude Util Sds SdsRep RioSpec Networking NetworkingSpec Reply ReplySpec ReplyOps.

Section Send.
Context {HOST : Host} {AL : Allocator} {LAWS : AllocatorLaws AL}.

(** * Sending *)

(** What the client will receive. *)
Definition pending (sg : oid -> bytes) (c : rclient) (B : bytes) (q : list item) : bytes := drop (Z.to_nat (sentlen c)) (B ++ flat sg q).

Definition texts (ts : list bytes) : list item := Txt <$> ts.

Lemma flat_texts sg ts : flat sg (texts ts) = concat ts.
Proof. unfold flat, texts. by rewrite <- list_fmap_compose, list_fmap_id. Qed.

(** Fields that sending does not change. *)
Definition same_client (c c' : rclient) : Prop :=
  rflags c' = rflags c /\ fd c' = fd c /\ replstate c' = replstate c /\ bulk c' = bulk c /\ write_handler c' = write_handler c.

(** The first object of the list was sent. *)
Lemma pop_node ext h c t q o l : out_inv ext h c [] (Txt t :: q) -> reply c = o :: l ->
  exists ob h', h !! o = Some ob /\ holds ob t /\ decrRefCount h o = Some h' /\ getStringObjectSdsUsedMemory ob = Some (used h o) /\
    out_inv ext h' (set_buffer (set_reply c l (reply_bytes c - used h o)) (obuf c) (bufpos c) 0) [] q /\ keeps ext h h' /\
    uint 64 (reply_bytes c - used h o) <= reply_bytes c.
Proof.
  intros [Hb Hq Hm Hl Hs Hh] Er. rewrite Er in *. pose proof (qo_items _ _ _ _ Hq) as Hi. apply list.Forall2_cons in Hi as [(ob & E & Hob) Hi].
  destruct (used_holds h o ob t E Hob) as [Hu Hmem]. cbn [total] in Hm. pose proof (total_nonneg h l q Hi).
  destruct (queue_remove ext h [] l [] q o t Hq eq_refl) as (h' & E' & Hq' & Hk & Ht). cbn [app total] in Hq', Ht.
  exists ob, h'. split; [done|]. split; [done|]. split; [done|]. split; [done|].
  assert (uint 64 (reply_bytes c - used h o) = total h l) as Eu by (rewrite uint_id; lia). split; [|split; [done|lia]].
  split; cbn [obuf bufpos sentlen reply reply_bytes replnone write_handler set_buffer set_reply]; [done|done|lia|lia|by left|].
  intros Hrn _. apply Hh; [done|by right].
Qed.

(** What is left of the head [x] of the queue is read, and [n] more bytes of it are sent. *)
Lemma head_read (x rest : bytes) sent : 0 <= sent <= msize x ->
  exists d, load (x ++ rest) sent (msize x - sent) = Some d /\ forall n, 0 < n -> sent + n <= msize x -> take (Z.to_nat n) d <> [] /\
    forall y, drop (Z.to_nat sent) (x ++ y) = take (Z.to_nat n) d ++ drop (Z.to_nat (sent + n)) (x ++ y).
Proof.
  intros Hs. destruct (split_at x sent) as (a & b & -> & Ha); [lia|]. rewrite msize_app in *. exists b.
  split; [apply (load_at a b rest); [by rewrite <- app_assoc|done|lia]|]. intros n Hn Hle.
  destruct (split_at b n) as (b1 & b2 & -> & Hb); [lia|].
  replace (Z.to_nat sent) with (length a) by (unfold msize in Ha; lia). replace (Z.to_nat n) with (length b1) by (unfold msize in Hb; lia).
  replace (Z.to_nat (sent + n)) with (length (a ++ b1)) by (rewrite length_app; unfold msize in *; lia). rewrite take_app_length.
  split; [intros ->; rewrite msize_nil in Hb; lia|]. intros y. rewrite <- !app_assoc, drop_app_length. rewrite (app_assoc a b1), drop_app_length. done.
Qed.

Lemma drop_whole (x y : bytes) n : n = msize x -> drop (Z.to_nat n) (x ++ y) = y.
Proof. intros ->. unfold msize. by rewrite Nat2Z.id, drop_app_length. Qed.

(** The state after the loop. *)
Definition sent_some (ext : oid -> Z) (h : heap) (c : rclient) (B : bytes) (ts : list bytes) (out : bytes) (h' : heap) (c' : rclient) : Prop :=
  exists B' ts', out_inv ext h' c' B' (texts ts') /\ keeps ext h h' /\ same_client c c' /\ reply_bytes c' <= reply_bytes c /\
    forall sg, pending sg c B (texts ts) = out ++ pending sg c' B' (texts ts').

Lemma sent_trans ext h c B ts out h1 c1 B1 ts1 out2 h2 c2 : keeps ext h h1 -> same_client c c1 -> reply_bytes c1 <= reply_bytes c ->
  (forall sg, pending sg c B (texts ts) = out ++ pending sg c1 B1 (texts ts1)) -> sent_some ext h1 c1 B1 ts1 out2 h2 c2 ->
  sent_some ext h c B ts (out ++ out2) h2 c2.
Proof.
  intros K1 (S1 & S2 & S3 & S4 & S5) R1 P1 (B2 & ts2 & I2 & K2 & (T1 & T2 & T3 & T4 & T5) & R2 & P2). exists B2, ts2. split; [done|].
  split; [by eapply keeps_trans|]. split; [unfold same_client; split; [|split; [|split; [|split]]]; congruence|]. split; [lia|]. intros sg. by rewrite P1, P2, app_assoc.
Qed.

(** The rooms of an event, whose sum an [int] holds. *)
Definition room_sum (ws : list Z) : Z := foldr (fun n s => Z.max 0 n + s) 0 ws.

Lemma room_sum_nonneg ws : 0 <= room_sum ws.
Proof. induction ws as [|n ws IH]; cbn [room_sum foldr]; [lia|]. unfold room_sum in IH. lia. Qed.

Definition drained (c : rclient) : Prop := bufpos c = 0 /\ reply c = [].

Lemma sent_nonneg ext h c B q : out_inv ext h c B q -> 0 <= sentlen c.
Proof. intros [_ _ _ _ [?|[?|(_ & ? & ? & _ & ?)]] _]; lia. Qed.

(** The static buffer: [n] more bytes are sent. *)
Lemma send_buffer ext h c B ts : out_inv ext h c B (texts ts) -> 0 < bufpos c ->
  sentlen c < bufpos c /\ exists d, load (obuf c) (sentlen c) (bufpos c - sentlen c) = Some d /\ forall n, 0 < n <= bufpos c - sentlen c ->
    let c1 := if sentlen c + n =? bufpos c then set_buffer c (obuf c) 0 0 else set_buffer c (obuf c) (bufpos c) (sentlen c + n) in
    take (Z.to_nat n) d <> [] /\ exists B1, out_inv ext h c1 B1 (texts ts) /\ same_client c c1 /\ reply_bytes c1 <= reply_bytes c /\
      forall sg, pending sg c B (texts ts) = take (Z.to_nat n) d ++ pending sg c1 B1 (texts ts).
Proof.
  intros I Hb. pose proof (sent_nonneg _ _ _ _ _ I) as H0. pose proof I as [(rest & Eb & Hsz & Ep) Hq Hm Hl Hs Hh].
  assert (B <> []) as HB by (intros ->; rewrite msize_nil in Ep; lia). assert (sentlen c < bufpos c) as Hlt by (destruct Hs as [?|[?|(-> & _)]]; [lia|lia|done]).
  split; [done|]. destruct (head_read B rest (sentlen c)) as (d & Ed & Hd); [lia|]. rewrite Ep, Eb. exists d. split; [done|].
  intros n Hn c1. destruct (Hd n) as [Hne Hd']; [lia..|]. split; [done|]. unfold c1. destruct (Z.eqb_spec (sentlen c + n) (msize B)) as [E|E].
  - exists []. split; [|split; [done|split; [done|]]].
    + split; [|done|done|done|by left|intros Hr _; apply Hh; [done|by left]]. exists (B ++ rest). cbn. rewrite msize_app, msize_nil. done.
    + intros sg. unfold pending. rewrite Hd', E, drop_whole by done. cbn [sentlen set_buffer]. done.
  - exists B. split; [|split; [done|split; [done|intros sg; apply Hd']]].
    split; [|done|done|done|right; left; cbn; lia|intros Hr _; apply Hh; [done|by left]]. exists rest. cbn. done.
Qed.

Lemma pending_head sg c t ts : pending sg c [] (texts (t :: ts)) = drop (Z.to_nat (sentlen c)) (t ++ concat ts).
Proof. unfold pending. change (texts (t :: ts)) with (Txt t :: texts ts). by rewrite flat_cons, flat_texts. Qed.

(** The first object of the list: it is removed, or [n] more bytes are sent. *)
Lemma send_object ext h c ts o l : out_inv ext h c [] (texts ts) -> reply c = o :: l ->
  exists ob s t ts', h !! o = Some ob /\ optr ob = PSds s /\ sint 32 (sdslen s) = msize t /\ ts = t :: ts' /\
    getStringObjectSdsUsedMemory ob = Some (used h o) /\
    (exists h1, decrRefCount h o = Some h1 /\
      let c1 := set_buffer (set_reply c l (reply_bytes c - used h o)) (obuf c) (bufpos c) 0 in
      out_inv ext h1 c1 [] (texts ts') /\ keeps ext h h1 /\ reply_bytes c1 <= reply_bytes c) /\
    (msize t = 0 -> sentlen c = 0) /\ (msize t <> 0 -> sentlen c < msize t) /\
    exists d, load (buf s) (sentlen c) (msize t - sentlen c) = Some d /\ forall n, 0 < n -> sentlen c + n <= msize t -> take (Z.to_nat n) d <> [] /\
      forall y, drop (Z.to_nat (sentlen c)) (t ++ y) = take (Z.to_nat n) d ++ drop (Z.to_nat (sentlen c + n)) (t ++ y).
Proof.
  intros I Er. pose proof (sent_nonneg _ _ _ _ _ I) as H0. pose proof I as [_ [_ Hi _] _ _ Hs _]. rewrite Er in Hi. destruct ts as [|t ts']; [by apply Forall2_length in Hi|].
  destruct (pop_node ext h c t (texts ts') o l I Er) as (ob & h1 & E & (s & Es & Hsr & _) & Ed & Em & I1 & K1 & R1).
  destruct (sds_rep_len s t Hsr) as [El Hlt]. destruct (sds_rep_buf s t Hsr) as (fr & Eb). pose proof (msize_nonneg t).
  assert (sentlen c = 0 \/ sentlen c < msize t) as Hsent.
  { destruct Hs as [?|[Hs|(_ & t0 & q0 & [= <- _] & Hs)]]; [by left|rewrite msize_nil in Hs; lia|right; lia]. }
  exists ob, s, t, ts'. split; [done|]. split; [done|]. split; [rewrite El, sint32_id by lia; done|]. do 2 (split; [done|]).
  split; [by exists h1|]. split; [lia|]. split; [lia|]. rewrite Eb. apply head_read; lia.
Qed.

(** The loop, with what it wrote. *)
Definition loop_ok (ext : oid -> Z) (h : heap) (c : rclient) (B : bytes) (ts : list bytes) (out : bytes) (r : option (heap * rclient * bytes * Z * Z)) (progress : Prop) : Prop :=
  exists h' c' d nw tot, r = Some (h', c', out ++ d, nw, tot) /\ sent_some ext h c B ts d h' c' /\ (progress -> d <> [] \/ drained c').

Lemma loop_stop ext h c B ts out nw tot P : out_inv ext h c B (texts ts) -> (P -> drained c) -> loop_ok ext h c B ts out (Some (h, c, out, nw, tot)) P.
Proof.
  intros I HP. exists h, c, [], nw, tot. rewrite app_nil_r. split; [done|]. split; [|intros H; right; by apply HP].
  exists B, ts. split; [done|]. split; [apply keeps_refl|]. done.
Qed.

Lemma loop_more ext h c B ts out h1 c1 B1 ts1 d r P Q : keeps ext h h1 -> same_client c c1 -> reply_bytes c1 <= reply_bytes c ->
  (forall sg, pending sg c B (texts ts) = d ++ pending sg c1 B1 (texts ts1)) -> (P -> d <> [] \/ Q) ->
  loop_ok ext h1 c1 B1 ts1 (out ++ d) r Q -> loop_ok ext h c B ts out r P.
Proof.
  intros K S R E HP (h' & c' & d' & nw & tot & -> & Hs & Hp). exists h', c', (d ++ d'), nw, tot. rewrite app_assoc. split; [done|].
  split; [by eapply sent_trans|]. intros H. destruct (HP H) as [Hd|HQ]; [left; by intros [? _]%app_nil|].
  destruct (Hp HQ) as [Hd|?]; [left; by intros [_ ?]%app_nil|by right].
Qed.

Lemma send_loop_spec ext se fuel : forall ws h c B ts out nw tot, out_inv ext h c B (texts ts) -> (length ws + length ts < fuel)%nat ->
  0 <= tot -> tot + room_sum ws < 2 ^ 31 -> loop_ok ext h c B ts out (send_loop fuel se ws h c out nw tot) (0 < hd (-1) ws).
Proof.
  induction fuel as [|fuel IH]; intros ws h c B ts out nw tot I Hf Ht Hr; [lia|]. cbn [send_loop]. pose proof (room_sum_nonneg ws) as Hws.
  pose proof I as [(rest & Eb & Hsz & Ep) Hq Hm Hl Hs Hh]. pose proof (msize_nonneg B).
  set (room := match ws with [] => -1 | n :: _ => n end). set (ws' := match ws with [] => [] | _ :: ws => ws end).
  assert (room = hd (-1) ws) as Eroom by (by destruct ws).
  assert (room > 0 -> (length ws' + length ts < fuel)%nat /\ room_sum ws = room + room_sum ws') as Hroom.
  { unfold room, ws'. destruct ws as [|w ws]; [lia|]. intros Hw. cbn [length] in Hf. split; [lia|]. cbn [room_sum foldr]. unfold room_sum. lia. }
  (* what follows a write *)
  assert (forall h1 c1 B1 ts1 d n, out_inv ext h1 c1 B1 (texts ts1) -> keeps ext h h1 -> same_client c c1 -> reply_bytes c1 <= reply_bytes c ->
    (forall sg, pending sg c B (texts ts) = d ++ pending sg c1 B1 (texts ts1)) -> d <> [] -> 0 < n <= room -> (length ts1 <= length ts)%nat ->
    loop_ok ext h c B ts out (tot <- int_arith (tot + n);; if (tot >? REDIS_MAX_WRITE_PER_EVENT) && below_maxmemory se
       then Some (h1, c1, out ++ d, n, tot) else send_loop fuel se ws' h1 c1 (out ++ d) n tot) (0 < hd (-1) ws)) as Hnext.
  { intros h1 c1 B1 ts1 d n I1 K1 S1 R1 P1 Hd Hn Hlen. destruct Hroom as [Hf' Hr']; [lia|]. pose proof (room_sum_nonneg ws').
    rewrite int_arith_Some by lia. cbn [obind]. destruct (_ && _).
    - eapply (loop_more _ _ _ _ _ _ h1 c1 B1 ts1 d _ _ False); try done; [by left|]. by apply loop_stop.
    - eapply (loop_more _ _ _ _ _ _ h1 c1 B1 ts1 d); try done; [by left|]. apply IH; [done|lia..]. }
  destruct (Z.gtb_spec (bufpos c) 0) as [Hb|Hb]; cbn [orb].
  - destruct (send_buffer ext h c B ts I) as (Hlt & d & -> & Hd); [lia|]. cbn [obind].
    destruct (Z.leb_spec (Z.min room (bufpos c - sentlen c)) 0) as [Hn|Hn]; [apply loop_stop; [done|lia]|].
    destruct (Hd (Z.min room (bufpos c - sentlen c))) as (Hne & B1 & I1 & S1 & R1 & P1); [lia|].
    eapply Hnext; try done; [apply keeps_refl|lia].
  - assert (B = []) as -> by (destruct B; [done|]; rewrite msize_cons in Ep; pose proof (msize_nonneg B); lia).
    destruct (bool_decide_reflect (reply c = [])) as [Er|Er]; cbn [negb]; [apply loop_stop; [done|]; intros _; rewrite msize_nil in Ep; done|].
    destruct (reply c) as [|o l] eqn:El; [done|]. clear Er.
    destruct (send_object ext h c ts o l I El) as (ob & s & t & ts' & E & Es & Elen & -> & Em & (h1 & Eh1 & I1 & K1 & R1) & Hempty & Hlt & d & Ed & Hd).
    rewrite E. cbn [obind]. rewrite Es, Elen, Em. cbn [obind]. destruct (Z.eqb_spec (msize t) 0) as [Hz|Hz].
    + rewrite Eh1. cbn [obind]. specialize (Hempty Hz). assert (t = []) as -> by (by apply msize_0_nil).
      set (c1 := set_buffer _ _ _ 0) in I1, R1. replace (set_reply c l (reply_bytes c - used h o)) with c1
        by (unfold c1, set_buffer, set_reply; cbn; by rewrite Hempty).
      apply (loop_more _ _ _ _ _ _ h1 c1 [] ts' [] _ _ (0 < hd (-1) ws)); [done|done|done| |by right|].
      * intros sg. rewrite pending_head, Hempty. unfold pending. by rewrite flat_texts.
      * rewrite app_nil_r. apply IH; [done| |done|done]. cbn [length] in Hf. lia.
    + rewrite Ed. cbn [obind]. specialize (Hlt Hz). destruct (Z.leb_spec (Z.min room (msize t - sentlen c)) 0) as [Hn|Hn]; [apply loop_stop; [done|lia]|].
      destruct (Hd (Z.min room (msize t - sentlen c))) as (Hne & Hsplit); [lia..|]. destruct (Z.eqb_spec (sentlen c + Z.min room (msize t - sentlen c)) (msize t)) as [Hall|Hall].
      * rewrite Eh1. cbn [obind]. eapply (Hnext h1 _ [] ts'); try done; [|lia|cbn [length]; lia].
        intros sg. rewrite pending_head, Hsplit, Hall, drop_whole by done. unfold pending. by rewrite flat_texts.
      * cbn [obind]. eapply (Hnext h _ [] (t :: ts')); try done; [|apply keeps_refl| |lia].
        -- split; cbn [obuf bufpos sentlen reply reply_bytes replnone write_handler set_buffer]; rewrite ?El; [by exists rest|done|done|done| |done]. right. right. split; [done|]. exists t, (texts ts'). split; [done|]. cbn. pose proof (sent_nonneg _ _ _ _ _ I). lia.
        -- intros sg. rewrite !pending_head. apply Hsplit.
Qed.

(** ** Events *)

(** The client is freed: nothing refers to its objects on its behalf any more. *)
Lemma release_spec ext l : forall h, refs ext h l -> exists h', release_objects h l = Some h' /\ refs ext h' [] /\ keeps ext h h'.
Proof.
  induction l as [|o l IH]; intros h Hr; [exists h; split; [done|]; split; [done|apply keeps_refl]|]. cbn [release_objects].
  destruct (drop_ref ext ext h (o :: l) l o Hr) as (h1 & -> & Hr1 & K1).
  { intros x. pose proof (Hr x) as Hx. cbn [occ]. rewrite (bool_decide_ext (o = x) (x = o)) by done. split; [lia|]. destruct (h !! x); lia. }
  cbn [obind]. destruct (IH h1 Hr1) as (h' & E & Hr' & K'). exists h'. split; [done|]. split; [done|].
  eapply keeps_trans; [|exact K']. intros x ob Hx. apply K1. by right.
Qed.

Definition same_peer (c c' : rclient) : Prop := rflags c' = rflags c /\ fd c' = fd c /\ replstate c' = replstate c /\ bulk c' = bulk c.

(** The client after a write event, or none where it was freed. *)
Definition event_ok (ext : oid -> Z) (h : heap) (c : rclient) (B : bytes) (ts : list bytes) (se : send_env) (h' : heap) (r : option rclient) (out : bytes) : Prop :=
  match r with
  | Some c' => exists B' ts', out_inv ext h' c' B' (texts ts') /\ same_peer c c' /\ reply_bytes c' <= reply_bytes c /\
      (forall sg, pending sg c B (texts ts) = out ++ pending sg c' B' (texts ts')) /\
      (drained c' -> write_handler c' = false) /\ (0 < hd (-1) (writes se) -> out <> [] \/ drained c')
  | None => refs ext h' [] /\ (would_block se = false \/ RCLOSE_AFTER_REPLY (rflags c) = true) /\ forall sg, exists rest, pending sg c B (texts ts) = out ++ rest
  end.

Lemma sendReplyToClient_spec ext se h c B ts : out_inv ext h c B (texts ts) -> room_sum (writes se) < 2 ^ 31 ->
  exists h' r out, sendReplyToClient se h c = Some (h', r, out) /\ keeps ext h h' /\ event_ok ext h c B ts se h' r out.
Proof.
  intros I Hr. unfold sendReplyToClient. pose proof (list.Forall2_length _ _ _ (qo_items _ _ _ _ (ci_queue _ _ _ _ _ I))) as Hlen.
  unfold texts in Hlen. rewrite length_fmap in Hlen.
  destruct (send_loop_spec ext se (Datatypes.S (length (writes se) + length (reply c))) (writes se) h c B ts [] 0 0 I)
    as (h1 & c1 & out & nw & tot & -> & (B1 & ts1 & I1 & K1 & (Q1 & Q2 & Q3 & Q4 & Q5) & R1 & P1) & Hp); [lia..|]. cbn [obind app].
  destruct (release_spec ext (reply c1) h1 (qo_refs _ _ _ _ (ci_queue _ _ _ _ _ I1))) as (h2 & Eh2 & Hr2 & K2).
  assert (forall (b : Prop), b -> (b -> would_block se = false \/ RCLOSE_AFTER_REPLY (rflags c) = true) -> event_ok ext h c B ts se h2 None out) as Hfreed.
  { intros b Hb Hc. split; [done|]. split; [by apply Hc|]. intros sg. exists (pending sg c1 B1 (texts ts1)). apply P1. }
  destruct ((nw =? -1) && negb (would_block se)) eqn:Eerr.
  { rewrite Eh2. cbn [obind]. exists h2, None, out. split; [done|]. split; [by eapply keeps_trans|]. apply (Hfreed True); [done|]. intros _. left.
    apply andb_true_iff in Eerr as [_ ?%negb_true_iff]. done. }
  set (c2 := if (tot >? 0) && _ then _ else c1).
  assert (out_inv ext h1 c2 B1 (texts ts1) /\ rflags c2 = rflags c1 /\ fd c2 = fd c1 /\ replstate c2 = replstate c1 /\ bulk c2 = bulk c1 /\ reply_bytes c2 = reply_bytes c1 /\
    sentlen c2 = sentlen c1 /\ bufpos c2 = bufpos c1 /\ reply c2 = reply c1 /\ obuf c2 = obuf c1) as (I2 & F2 & D2 & N2 & V2 & B2 & S2 & O2 & L2 & U2).
  { unfold c2. destruct ((tot >? 0) && _); (split; [by destruct I1|done]). }
  assert (same_peer c c2) as Hpeer by (unfold same_peer; split; [|split; [|split]]; congruence).
  assert (forall sg, pending sg c B (texts ts) = out ++ pending sg c2 B1 (texts ts1)) as P2 by (intros sg; rewrite P1; unfold pending; by rewrite S2).
  destruct ((bufpos c2 =? 0) && bool_decide (reply c2 = [])) eqn:Ed.
  - apply andb_true_iff in Ed as [Hb%Z.eqb_eq Hl%bool_decide_eq_true]. pose proof I2 as [(rest & Eb & Hsz & Ep) Hq Hm Hl2 Hs Hh].
    assert (B1 = []) as -> by (apply msize_0_nil; lia). rewrite Hl in Hq. pose proof (qo_items _ _ _ _ Hq) as Hi. apply list.Forall2_nil_inv_l in Hi.
    destruct ts1 as [|t1 ts1]; [|done]. cbn [rflags remove_handler set_handler set_buffer]. rewrite F2, Q1. destruct (RCLOSE_AFTER_REPLY (rflags c)) eqn:Ec.
    + cbn [reply remove_handler set_handler set_buffer]. rewrite L2, Eh2. cbn [obind]. exists h2, None, out. split; [done|]. split; [by eapply keeps_trans|].
      apply (Hfreed True); [done|]. intros _. by right.
    + do 3 eexists. split; [done|]. split; [done|]. exists [], []. split; [|split; [done|split; [cbn; lia|split; [|split; [done|by right]]]]].
      * split; cbn; rewrite ?Hl in *; [by exists rest|done|done|done|by left|]. by intros _ [|].
      * intros sg. rewrite P2. unfold pending. rewrite flat_texts. cbn [concat app]. by rewrite !drop_nil.
  - do 3 eexists. split; [done|]. split; [done|]. exists B1, ts1. split; [done|]. split; [done|]. split; [lia|]. split; [done|].
    apply andb_false_iff in Ed. assert (~ drained c2) as Hnd by (intros [H1 H2]; rewrite H1, H2 in Ed; by destruct Ed as [|?%bool_decide_eq_false]).
    split; [done|]. intros Hw. destruct (Hp Hw) as [?|[H1 H2]]; [by left|]. right. split; congruence.
Qed.

End Send.
