(* ===== verification/ReplyDefer.v ===== *)
(** Replies to clients: lengths that are not known when their place in the output is taken. *)

From stdpp Require Import gmap.
From S2P Require Import Prelude Util Sds SdsRep RioSpec Networking NetworkingSpec Reply ReplySpec ReplyOps.

Section Defer.
Context {HOST : Host} {AL : Allocator} {LAWS : AllocatorLaws AL}.

Lemma find_node_at la lb o : o ∉ la -> find_node (la ++ o :: lb) o = Some (la, lb).
Proof.
  induction la as [|x la IH]; intros Hn; cbn [find_node app]; [by rewrite bool_decide_eq_true_2|].
  apply not_elem_of_cons in Hn as [Hx Hn]. rewrite bool_decide_eq_false_2, IH by congruence. done.
Qed.

(** The node of an unknown length. *)
Lemma gap_node ext h l qa qb o : queue_ok ext h l (qa ++ Gap o :: qb) ->
  exists la lb ob, l = la ++ o :: lb /\ length la = length qa /\ o ∉ la /\ h !! o = Some ob /\ refcount ob = 1 /\ used h o = 0 /\ h !! o = Some ob.
Proof.
  intros [Hr Hi Hg]. pose proof Hi as Hi0. apply Forall2_app_inv_r in Hi as (la & lb & Ha & Hb & ->).
  apply list.Forall2_cons_inv_r in Hb as (o' & lb' & (ob & E & -> & Hp) & Hb & ->).
  exists la, lb', ob. split; [done|]. split; [by apply Forall2_length in Ha|]. destruct (Hg o') as [He Ho]; [apply elem_of_app; right; by left|].
  pose proof (Hr o') as Hro. rewrite E in Hro. rewrite occ_app in Ho. cbn [occ] in Ho. rewrite bool_decide_eq_true_2 in Ho by done.
  pose proof (occ_nonneg o' la). pose proof (occ_nonneg o' lb'). split; [apply occ_not_in; lia|]. split; [done|].
  split; [rewrite occ_app in Hro; cbn [occ] in Hro; rewrite bool_decide_eq_true_2 in Hro by done; lia|].
  split; [|done]. unfold used, getStringObjectSdsUsedMemory. rewrite E, Hp. by destruct (enc ob).
Qed.

(** ** The place is taken *)

Lemma defer_spec e ext h c B q : aeCreateFileEvent_ok e = true -> out_inv ext h c B q -> writable c ->
  exists h' c' o, addDeferredMultiBulkLength e h c = (h', c', Some o) /\ out_inv ext h' c' B (q ++ [Gap o]) /\ stable c c' /\
    reply_bytes c' = reply_bytes c /\ keeps ext h h' /\ h !! o = None /\ reply c' = reply c ++ [o].
Proof.
  intros He Hinv Hw. unfold addDeferredMultiBulkLength.
  destruct (prepare_spec e ext h c B q He Hinv Hw) as (c1 & -> & I1 & W1 & A1 & G1 & G2 & G3 & G4). cbn [negb]. unfold createObject.
  destruct (fresh_object h (mkObj 1 REDIS_ENCODING_RAW PNull)) as (o & -> & Hfr). set (h' := <[o:=_]> h).
  assert (forall x ob, h !! x = Some ob -> exists ob', h' !! x = Some ob' /\ optr ob' = optr ob /\ enc ob' = enc ob) as Hoth.
  { intros x ob E. exists ob. unfold h'. rewrite lookup_insert_ne by congruence. done. }
  destruct I1 as [Hb [Hr Hi Hg] Hm Hl Hs Hh]. destruct (items_change h h' (reply c1) q Hi) as [Hi1 Ht]; [intros; by apply Hoth|].
  pose proof (Hr o) as Ho. rewrite Hfr in Ho. assert (h' !! o = Some (mkObj 1 REDIS_ENCODING_RAW PNull)) as E by (unfold h'; apply lookup_insert_eq).
  do 3 eexists. split; [done|]. split; [|split; [by destruct G1 as (? & ? & ?); split|split; [done|split; [intros x ob _; apply Hoth|split; [done|cbn [reply]; by rewrite G4]]]]].
  split; cbn [obuf bufpos sentlen reply reply_bytes replnone write_handler]; [done| | |done|by apply head_ok_app|intros Hrn _; by apply A1].
  - split.
    + intros x. specialize (Hr x). rewrite occ_app, occ_single. unfold h'. destruct (bool_decide_reflect (o = x)) as [<-|Hne].
      * rewrite lookup_insert_eq. cbn [refcount]. lia.
      * rewrite lookup_insert_ne by done. destruct (h !! x); lia.
    + apply Forall2_app; [done|]. repeat constructor. by eexists.
    + intros x Hx. rewrite occ_app, occ_single. apply elem_of_app in Hx as [Hx|Hx].
      * destruct (Hg x Hx) as [H1 H2]. rewrite bool_decide_eq_false_2; [split; [done|lia]|]. intros <-. lia.
      * apply list_elem_of_singleton in Hx as [= ->]. rewrite bool_decide_eq_true_2 by done. lia.
  - rewrite total_app, Ht. cbn [total]. unfold used. rewrite E. cbn. lia.
Qed.

(** ** The length is filled in *)

(** What the length prints. *)
Definition length_bytes (n : Z) : bytes := count_bytes 42 (printf_d n).

(** The string the length is glued to is below 1 GB. *)
Definition glue_fits (q : list item) : Prop := match q with Txt t :: _ => msize t + 64 < 2 ^ 30 | _ => True end.

Lemma head_ok_fill n B qa qb o d : head_ok n B (qa ++ Gap o :: qb) -> head_ok n B (qa ++ Txt d :: qb).
Proof.
  intros [?|[?|(-> & b & q' & E & Hn)]]; [by left|by right; left|]. right. right. split; [done|]. destruct qa as [|i qa]; [done|].
  injection E as -> <-. by exists b, (qa ++ Txt d :: qb).
Qed.

Lemma head_ok_glue n B qa qb d t : head_ok n B (qa ++ Txt d :: Txt t :: qb) -> head_ok n B (qa ++ Txt (d ++ t) :: qb).
Proof.
  intros [?|[?|(-> & b & q' & E & Hn)]]; [by left|by right; left|]. right. right. split; [done|]. destruct qa as [|i qa].
  - injection E as -> <-. exists (b ++ t), qb. split; [done|]. rewrite msize_app. pose proof (msize_nonneg t). lia.
  - injection E as -> <-. by exists b, (qa ++ Txt (d ++ t) :: qb).
Qed.

Lemma length_sds n : LLONG_MIN < n <= LLONG_MAX -> exists s0 s, sdsempty = Some s0 /\ sdscatprintf s0 (42 :: printf_d n ++ [13; 10]) = Some s /\
  sds_rep s (length_bytes n) /\ msize (length_bytes n) <= 64.
Proof.
  intros Hn. destruct sdsempty_rep as (s0 & E0 & H0 & _).
  assert (msize (length_bytes n) <= 64 /\ cstring (length_bytes n)) as [Hsz Hc].
  { assert (0 < msize (printf_d n) <= 20) as Hp by (destruct (ll2string_printf (zmalloc 32) 32 n Hn) as (? & _ & ? & _); [lia|unfold zmalloc; rewrite msize_fresh; lia|done]).
    unfold length_bytes, count_bytes. split; [msolve|]. constructor; [lia|]. apply Forall_app. split; [|by repeat constructor].
    unfold LLONG_MIN, LLONG_MAX in Hn. eapply list.Forall_impl; [eapply (decimal_line _ n), printf_d_decimal; lia|]. by intros c0 [_ ?]. }
  destruct (sdscatprintf_rep s0 [] (length_bytes n) H0 Hc) as (s & Es & Hs); [rewrite msize_nil; lia|]. by exists s0, s.
Qed.

(** The length is glued to the next string. *)
Lemma glue_spec ext h la lb qa qb o x s d t : queue_ok ext h (la ++ o :: x :: lb) (qa ++ Txt d :: Txt t :: qb) -> length la = length qa ->
  h !! o = Some (mkObj 1 REDIS_ENCODING_RAW (PSds s)) -> sds_rep s d -> msize d + msize t < 2 ^ 30 ->
  exists obx tx s' h1 h2, h !! x = Some obx /\ optr obx = PSds tx /\ getStringObjectSdsUsedMemory obx = Some (used h x) /\
    sdscatlen s (buf tx) (sdslen tx) = Some s' /\ set_ptr h o s' = Some h1 /\ decrRefCount h1 x = Some h2 /\ 0 <= zmalloc_size_sds s' <= M /\
    queue_ok ext h2 (la ++ o :: lb) (qa ++ Txt (d ++ t) :: qb) /\ keeps ext h h2 /\
    total h2 (la ++ o :: lb) = total h la + zmalloc_size_sds s' + total h lb.
Proof.
  intros Hq Hlen Eo Hs Hsz. pose proof (qo_items _ _ _ _ Hq) as Hi. apply Forall2_app_inv in Hi as [Hia Hi]; [|done].
  apply list.Forall2_cons in Hi as [_ Hi]. apply list.Forall2_cons in Hi as [(obx & Ex & Hx) Hib].
  destruct (used_holds h x obx t Ex Hx) as [_ Hm]. destruct Hx as (tx & Et & Hst & _). destruct (sds_rep_len tx t Hst) as [El _].
  destruct (sds_rep_buf tx t Hst) as (fr & Eb). destruct (sdscatlen_rep s d t (0 :: fr) Hs Hsz) as (s' & Es' & Hs').
  assert (holds (mkObj 1 REDIS_ENCODING_RAW (PSds s')) (d ++ t)) as Hd by (by exists s').
  destruct (queue_replace ext h la (x :: lb) qa (Txt t :: qb) o (Txt d) _ _ _ (d ++ t) Hq Hlen Eo eq_refl Hd) as (Hq1 & Hk1 & Hta & Htb).
  set (h1 := <[o:=_]> h) in *. change (o :: x :: lb) with ([o] ++ x :: lb) in Hq1. rewrite app_assoc in Hq1.
  change (qa ++ Txt (d ++ t) :: Txt t :: qb) with (qa ++ [Txt (d ++ t)] ++ Txt t :: qb) in Hq1. rewrite app_assoc in Hq1.
  destruct (queue_remove ext h1 _ lb _ qb x t Hq1) as (h2 & Eh2 & Hq2 & Hk2 & Ht2); [rewrite !length_app; cbn [length]; lia|].
  rewrite <- !app_assoc in Hq2. exists obx, tx, s', h1, h2. rewrite El, Eb. split; [done|]. split; [done|]. split; [done|]. split; [done|].
  split; [unfold set_ptr; by rewrite Eo|]. split; [done|]. split; [by eapply alloc_bound|]. split; [done|]. split; [by eapply keeps_trans|].
  rewrite <- app_assoc in Ht2. cbn [app] in Ht2. rewrite Ht2, total_app. cbn [total].
  assert (used h1 o = zmalloc_size_sds s') as Eu by (unfold used, h1; by rewrite lookup_insert_eq).
  assert (o <> x) as Hox.
  { intros ->. pose proof (qo_refs _ _ _ _ Hq x) as Hr. rewrite Eo, occ_app in Hr. cbn [occ refcount] in Hr. rewrite bool_decide_eq_true_2 in Hr by done.
    pose proof (occ_nonneg x la). pose proof (occ_nonneg x lb). lia. }
  assert (used h1 x = used h x) as Eux by (unfold used, h1; by rewrite lookup_insert_ne). cbn [total] in Htb. lia.
Qed.

(** The result: the length is between what was before and after it. *)
Definition filled (ext : oid -> Z) (h : heap) (c : rclient) (B : bytes) (qa qb : list item) (n : Z) (r : option (heap * rclient)) : Prop :=
  exists h' c' q', r = Some (h', c') /\ out_inv ext h' c' B q' /\ stable c c' /\ reply_bytes c' <= reply_bytes c + M /\ keeps ext h h' /\
    (forall sg, flat sg q' = flat sg qa ++ length_bytes n ++ flat sg qb) /\ (forall x, Gap x ∈ q' <-> Gap x ∈ qa ++ qb).

(** The end of the function. *)
Lemma fill_end e ext h c B q qa qb n h2 l2 q2 m : out_inv ext h c B q -> reply c <> [] -> limit_ok c 1 -> queue_ok ext h2 l2 q2 -> keeps ext h h2 ->
  m = total h2 l2 -> 0 <= m <= reply_bytes c + M -> head_ok (sentlen c) B q2 ->
  (forall sg, flat sg q2 = flat sg qa ++ length_bytes n ++ flat sg qb) -> (forall x, Gap x ∈ q2 <-> Gap x ∈ qa ++ qb) ->
  filled ext h c B qa qb n (c <- asyncCloseClientOnOutputBufferLimitReached e (set_reply c l2 m);; Some (h2, c)).
Proof.
  intros [Hb Hq Hm Hl Hs Hh] Hne Hlim Hq2 K2 Em Ht Hs2 F2 G2. unfold limit_ok in Hlim.
  assert (reply_bytes (set_reply c l2 m) = m) as Er by (cbn; rewrite uint_id; lia).
  assert (out_inv ext h2 (set_reply c l2 m) B q2) as I2.
  { split; [done|done|by rewrite Er|lia|done|]. intros Hr _. apply Hh; [done|by right]. }
  destruct (async_spec e ext h2 _ B q2 I2) as (c3 & -> & I3 & S3 & R3). cbn [obind]. exists h2, c3, q2. split; [done|]. split; [done|].
  split; [exact (stable_trans c (set_reply c l2 m) c3 ltac:(done) S3)|]. split; [lia|done].
Qed.

Lemma fill_spec e ext h c B qa qb o n : out_inv ext h c B (qa ++ Gap o :: qb) -> limit_ok c 1 -> LLONG_MIN < n <= LLONG_MAX -> glue_fits qb ->
  filled ext h c B qa qb n (setDeferredMultiBulkLength e h c (Some o) n).
Proof.
  intros I Hlim Hn Hglue. unfold setDeferredMultiBulkLength. pose proof I as [_ Hq Hm Hl Hs _].
  destruct (gap_node ext h (reply c) qa qb o Hq) as (la & lb & ob & El & Hlen & Hnin & Eo & Hrc & Hu & _).
  assert (reply c <> []) as Hne by (rewrite El; by destruct la). rewrite El in Hq, Hm |- *. rewrite find_node_at by done. cbn [obind]. rewrite Eo. cbn [obind].
  destruct (length_sds n Hn) as (s0 & s & -> & E & Hsr & Hsz). cbn [obind]. rewrite E. cbn [obind].
  rewrite Hrc. assert (holds (mkObj 1 REDIS_ENCODING_RAW (PSds s)) (length_bytes n)) as Hd by (by exists s).
  destruct (queue_replace ext h la lb qa qb o (Gap o) ob _ _ (length_bytes n) Hq Hlen Eo Hrc Hd) as (Hq1 & Hk1 & Hta & Htb). set (h1 := <[o:=_]> h) in *.
  assert (h1 !! o = Some (mkObj 1 REDIS_ENCODING_RAW (PSds s))) as Eo1 by (unfold h1; apply lookup_insert_eq).
  pose proof (qo_items _ _ _ _ Hq1) as Hi. apply Forall2_app_inv in Hi as [Hia Hi]; [|done]. apply list.Forall2_cons in Hi as [_ Hib].
  pose proof (total_nonneg _ _ _ Hia). pose proof (total_nonneg _ _ _ Hib). pose proof (alloc_bound s _ Hsr). rewrite total_app in Hm. cbn [total] in Hm.
  assert (used h1 o = zmalloc_size_sds s) as Eu by (unfold used; by rewrite Eo1). pose proof Hlim as Hlim'. unfold limit_ok in Hlim'.
  set (c1 := set_reply c (la ++ o :: lb) (reply_bytes c + zmalloc_size_sds s)).
  assert (filled ext h c B qa qb n (c <- asyncCloseClientOnOutputBufferLimitReached e c1;; Some (h1, c))) as Hplain.
  { assert (total h1 (la ++ o :: lb) = reply_bytes c + zmalloc_size_sds s) as Et by (rewrite total_app; cbn [total]; lia).
    apply (fill_end e ext h c B (qa ++ Gap o :: qb) _ _ _ h1 _ (qa ++ Txt (length_bytes n) :: qb)); [done..|lia|lia|by eapply head_ok_fill|intros sg; by rewrite flat_app, flat_cons|].
    intros x. rewrite !elem_of_app, elem_of_cons. naive_solver. }
  destruct lb as [|x lb]; [exact Hplain|]. apply list.Forall2_cons_inv_l in Hib as (i & qb' & Hx & Hib & ->).
  destruct i as [t|x']; [|destruct Hx as (obx & -> & _ & Hp); cbn [obind]; rewrite Hp; exact Hplain].
  cbn [glue_fits] in Hglue. destruct (glue_spec ext h1 la lb qa qb' o x s (length_bytes n) t Hq1 Hlen Eo1 Hsr) as
    (obx & tx & s' & h2 & h3 & -> & Etx & Em & Es' & Eh2 & Eh3 & Hz & Hq3 & Hk3 & Ht3); [lia|].
  cbn [obind]. rewrite Etx, Em. cbn [obind]. rewrite Es'. cbn [obind]. rewrite Eh2. cbn [obind]. rewrite Eh3. cbn [obind]. cbn [total] in Htb, Hm.
  pose proof (used_nonneg _ _ _ Hx). pose proof (total_nonneg _ _ _ Hib).
  assert (reply_bytes c1 = reply_bytes c + zmalloc_size_sds s) as Er1 by (unfold c1; cbn; rewrite uint_id; lia). rewrite Er1.
  change (set_reply c1 ?l ?m) with (set_reply c l m).
  apply (fill_end e ext h c B (qa ++ Gap o :: Txt t :: qb') _ _ _ h3 _ (qa ++ Txt (length_bytes n ++ t) :: qb')); [done..|by eapply keeps_trans|lia|lia| | |].
  - eapply head_ok_glue, head_ok_fill, Hs.
  - intros sg. by rewrite flat_app, !flat_cons, <- app_assoc.
  - intros y. rewrite !elem_of_app, !elem_of_cons. naive_solver.
Qed.

End Defer.
