(* ===== verification/ReplyHistory.v ===== *)
(** Replies to clients: histories of replies, deferred lengths and write events, and what the client receives. *)

From stdpp Require Import gmap relations.
From S2P Require Import Prelude Util Sds SdsRep RioSpec Networking NetworkingSpec Reply ReplySpec ReplyOps ReplySend ReplyDefer.

(** * Pieces *)

#[export] Instance item_eq_dec : EqDecision item.
Proof. solve_decision. Defined.

(** A length becomes known. *)
Definition known (o : oid) (d : bytes) (i : item) : item := match i with Gap x => if bool_decide (x = o) then Txt d else i | _ => i end.

Definition assign (sg : oid -> bytes) (o : oid) (d : bytes) : oid -> bytes := fun x => if bool_decide (x = o) then d else sg x.

Lemma flat_known sg o d q : flat sg (known o d <$> q) = flat (assign sg o d) q.
Proof.
  induction q as [|[b|x] q IH]; [done|rewrite fmap_cons, !flat_cons, IH; done|]. rewrite fmap_cons, !flat_cons, IH. cbn [known]. unfold assign.
  by destruct (bool_decide (x = o)).
Qed.

Lemma flat_assign sg o d q : Gap o ∉ q -> flat (assign sg o d) q = flat sg q.
Proof.
  induction q as [|[b|x] q IH]; intros Hn; [done| |]; apply not_elem_of_cons in Hn as [Hx Hn]; rewrite !flat_cons, IH by done; [done|].
  unfold assign. rewrite bool_decide_eq_false_2; [done|]. congruence.
Qed.

(** The unknown lengths of a queue, by what its size depends on. *)
Lemma gap_size o q : Gap o ∈ q <-> length (flat (fun _ => []) q) <> length (flat (assign (fun _ => []) o [0%Z]) q).
Proof.
  assert (forall q, (length (flat (fun _ => []) q) <= length (flat (assign (fun _ => []) o [0%Z]) q))%nat) as Hle.
  { intros q0. induction q0 as [|[b|x] q0 IH]; [done| |]; rewrite !flat_cons, !length_app; [lia|]. cbn [length]. lia. }
  split.
  - intros Hin. induction q as [|i q IH]; [by apply not_elem_of_nil in Hin|]. rewrite !flat_cons, !length_app. specialize (Hle q).
    apply elem_of_cons in Hin as [<-|Hin]; [unfold assign at 1; rewrite bool_decide_eq_true_2 by done; cbn [length]; lia|].
    specialize (IH Hin). destruct i as [b|x]; cbn [length]; lia.
  - intros Hne. destruct (decide (Gap o ∈ q)) as [|Hn]; [done|]. by rewrite flat_assign in Hne.
Qed.

Lemma no_gaps q : (forall x, Gap x ∉ q) -> exists ts, q = texts ts.
Proof.
  induction q as [|[b|x] q IH]; intros Hn; [by exists []| |exfalso; apply (Hn x); by left].
  destruct IH as [ts ->]; [intros x Hx; apply (Hn x); by right|]. by exists (b :: ts).
Qed.

Section History.
Context {HOST : Host} {AL : Allocator} {LAWS : AllocatorLaws AL}.

(** * What the client has not received *)

(** The bytes of an object of the list; [sg] gives the lengths that are not known. *)
Definition content (h : heap) (sg : oid -> bytes) (o : oid) : bytes :=
  match h !! o with
  | Some ob => match optr ob with PSds s => take (Z.to_nat (sdslen s)) (buf s) | _ => sg o end
  | None => []
  end.

Definition unsent (h : heap) (sg : oid -> bytes) (c : rclient) : bytes :=
  drop (Z.to_nat (sentlen c)) (take (Z.to_nat (bufpos c)) (obuf c) ++ concat (content h sg <$> reply c)).

Lemma content_item h sg o i : obj_item h o i -> content h sg o = match i with Txt b => b | Gap x => sg x end.
Proof.
  intros (ob & E & Hi). unfold content. rewrite E. destruct i as [b|x].
  - destruct Hi as (s & -> & Hs & _). destruct (sds_rep_len s b Hs) as [-> _]. destruct (sds_rep_buf s b Hs) as (fr & ->). unfold msize. by rewrite Nat2Z.id, take_app_length.
  - destruct Hi as [-> ->]. done.
Qed.

Lemma unsent_pending ext h sg c B q : out_inv ext h c B q -> unsent h sg c = pending sg c B q.
Proof.
  intros [(rest & Eb & _ & Ep) [_ Hi _] _ _ _ _]. unfold unsent, pending. f_equal. rewrite Eb, Ep. unfold msize. rewrite Nat2Z.id, take_app_length. f_equal. unfold flat.
  f_equal. induction Hi as [|o i l q Ho _ IH]; [done|]. by rewrite !fmap_cons, IH, (content_item h sg o i).
Qed.

(** Bytes are added at the end. *)
Lemma sent_bound ext h c B q sg : out_inv ext h c B q -> (Z.to_nat (sentlen c) <= length (B ++ flat sg q))%nat.
Proof.
  intros I. pose proof (ci_sent _ _ _ _ _ I) as Hs. rewrite length_app. destruct Hs as [->|[Hs|(-> & b & q' & -> & Hs)]]; [lia|unfold msize in Hs; lia|].
  rewrite flat_cons, length_app. unfold msize in Hs. lia.
Qed.

Lemma pending_add ext h c B q B' q' c' d sg : out_inv ext h c B q -> sentlen c' = sentlen c -> B' ++ flat sg q' = (B ++ flat sg q) ++ d ->
  pending sg c' B' q' = pending sg c B q ++ d.
Proof.
  intros I Es E. unfold pending. rewrite E, Es. pose proof (sent_bound ext h c B q sg I). rewrite drop_app_le by lia. done.
Qed.

(** * Replies *)

Inductive rop :=
  | RObj (o : oid) | RSds (s : sdshdr) | RStr (b : bytes) | RErr (b : bytes) | RStatus (b : bytes)
  | RLong (n : Z) | RMulti (n : Z) | RBulk (o : oid) | RBulkBuf (b : bytes) | RBulkLong (n : Z).

Definition run_reply (shared : sharedObjects) (e : reply_env) (op : rop) (h : heap) (c : rclient) : option (heap * rclient) :=
  match op with
  | RObj o => addReply e h c o
  | RSds s => addReplySds e h c s
  | RStr b => addReplyString e h c b (msize b)
  | RErr b => addReplyErrorLength e h c b (msize b)
  | RStatus b => addReplyStatusLength e h c b (msize b)
  | RLong n => addReplyLongLong shared e h c n
  | RMulti n => addReplyMultiBulkLen shared e h c n
  | RBulk o => addReplyBulk shared e h c o
  | RBulkBuf b => addReplyBulkCBuffer shared e h c b (msize b)
  | RBulkLong n => addReplyBulkLongLong shared e h c n
  end.

(** What the client is to receive, in the protocol. *)
Definition says (ext : oid -> Z) (h : heap) (op : rop) (d : bytes) : Prop :=
  match op with
  | RObj o => has ext h o d
  | RSds s => sds_rep s d
  | RStr b => msize b < 2 ^ 31 - 1 /\ d = b
  | RErr b => msize b < 2 ^ 31 - 1 /\ d = [45; 69; 82; 82; 32] ++ b ++ [13; 10]
  | RStatus b => msize b < 2 ^ 31 - 1 /\ d = [43] ++ b ++ [13; 10]
  | RLong n => LLONG_MIN < n <= LLONG_MAX /\ d = count_bytes 58 (printf_d n)
  | RMulti n => 0 <= n <= LLONG_MAX /\ d = count_bytes 42 (printf_d n)
  | RBulk o => exists b, has ext h o b /\ d = bulk_bytes (printf_d (msize b)) b
  | RBulkBuf b => msize b < 2 ^ 31 - 1 /\ d = bulk_bytes (printf_d (msize b)) b
  | RBulkLong n => LLONG_MIN < n <= LLONG_MAX /\ d = bulk_bytes (printf_d (msize (printf_d n))) (printf_d n)
  end.

Lemma run_reply_spec shared e op ext h c B q d : aeCreateFileEvent_ok e = true -> shared_ok shared ext h -> out_inv ext h c B q -> writable c -> limit_ok c 3 ->
  says ext h op d -> exists h' c', run_reply shared e op h c = Some (h', c') /\ queued ext h c B q 3 d h' c'.
Proof.
  intros He Hsh I W L Hd. assert (forall P k f, k <= 3 -> adds P k f d -> P ext h -> exists h' c', f h c = Some (h', c') /\ queued ext h c B q 3 d h' c') as Huse.
  { intros P k f Hk Hf HP. by apply (adds_weaken P P k 3 f d (fun _ _ H => H) Hk Hf ext h c B q). }
  destruct op as [o|s|b|b|b|n|n|o|b|n]; cbn [run_reply says] in *.
  - by apply (Huse _ 1 _ ltac:(lia) (adds_reply e He o d)).
  - apply (Huse (fun _ _ => True) 1 (fun h c => addReplySds e h c s)); [lia| |done]. intros ext1 h1 c1 B1 q1 I1 W1 L1 _. by apply addReplySds_spec.
  - destruct Hd as [Hb ->]. pose proof (adds_string e He b [] Hb) as Ha. rewrite app_nil_r in Ha. by apply (Huse _ 1 _ ltac:(lia) Ha).
  - destruct Hd as [Hb ->]. pose proof (adds_error e He b [] Hb) as Ha. rewrite app_nil_r in Ha. by apply (Huse _ 3 _ ltac:(lia) Ha).
  - destruct Hd as [Hb ->]. pose proof (adds_status e He b [] Hb) as Ha. rewrite app_nil_r in Ha. by apply (Huse _ 3 _ ltac:(lia) Ha).
  - destruct Hd as [Hn ->]. by apply (Huse _ 1 _ ltac:(lia) (adds_longlong e He shared n Hn)).
  - destruct Hd as [Hn ->]. by apply (Huse _ 1 _ ltac:(lia) (adds_multibulk e He shared n Hn)).
  - destruct Hd as (b & Hb & ->). by apply (Huse _ 3 _ ltac:(lia) (adds_bulk e He shared o b)).
  - destruct Hd as [Hb ->]. pose proof (adds_bulk_cbuffer e He shared b [] Hb) as Ha. rewrite app_nil_r in Ha. by apply (Huse _ 3 _ ltac:(lia) Ha).
  - destruct Hd as [Hn ->]. by apply (Huse _ 3 _ ltac:(lia) (adds_bulk_longlong e He shared n Hn)).
Qed.

(** * Sessions *)

(** A connection: the heap, the client, what the commands replied so far and what was written to the socket. *)
Record session := mkSession { s_heap : heap; s_client : rclient; s_log : list item; s_sent : bytes }.

(** The string that the length would be glued to is below 1 GB. *)
Definition glue_room (h : heap) (c : rclient) (o : oid) : bool :=
  match find_node (reply c) o with
  | Some (_, x :: _) => match h !! x with Some ob => match optr ob with PSds t => sdslen t + 64 <? 2 ^ 30 | _ => true end | None => true end
  | _ => true
  end.

Section Steps.
Variable shared : sharedObjects.
(** The references to objects from elsewhere. *)
Variable ext : oid -> Z.

(** Replies, lengths and write events, in any order; the event loop only writes when no length is missing. *)
Inductive sstep : session -> session -> Prop :=
  | step_reply e op d h c log sent h' c' : aeCreateFileEvent_ok e = true -> limit_ok c 3 -> says ext h op d ->
      run_reply shared e op h c = Some (h', c') -> sstep (mkSession h c log sent) (mkSession h' c' (log ++ [Txt d]) sent)
  | step_defer e h c log sent h' c' o : aeCreateFileEvent_ok e = true -> addDeferredMultiBulkLength e h c = (h', c', Some o) ->
      sstep (mkSession h c log sent) (mkSession h' c' (log ++ [Gap o]) sent)
  | step_fill e n o h c log sent h' c' : limit_ok c 1 -> LLONG_MIN < n <= LLONG_MAX -> Gap o ∈ log -> glue_room h c o = true ->
      setDeferredMultiBulkLength e h c (Some o) n = Some (h', c') -> sstep (mkSession h c log sent) (mkSession h' c' (known o (length_bytes n) <$> log) sent)
  | step_send se h c log sent h' c' out : (forall x, Gap x ∉ log) -> room_sum (writes se) < 2 ^ 31 -> sendReplyToClient se h c = Some (h', Some c', out) ->
      sstep (mkSession h c log sent) (mkSession h' c' log (sent ++ out)).

(** A client that was just accepted. *)
Definition new_session (s : session) : Prop :=
  shared_ok shared ext (s_heap s) /\ refs ext (s_heap s) [] /\ writable (s_client s) /\ msize (obuf (s_client s)) = REDIS_REPLY_CHUNK_BYTES /\
  bufpos (s_client s) = 0 /\ sentlen (s_client s) = 0 /\ reply (s_client s) = [] /\ reply_bytes (s_client s) = 0 /\ s_log s = [] /\ s_sent s = [].

Definition sinv (h0 : heap) (s : session) : Prop :=
  exists B q, out_inv ext (s_heap s) (s_client s) B q /\ writable (s_client s) /\ shared_ok shared ext (s_heap s) /\ keeps ext h0 (s_heap s) /\
    forall sg, flat sg (s_log s) = s_sent s ++ pending sg (s_client s) B q.

Lemma sinv_new s : new_session s -> sinv (s_heap s) s.
Proof.
  intros (Hsh & Hr & Hw & Hb & Hp & Hse & Hre & Hby & Hl & Hs). exists [], []. split; [|split; [done|split; [done|split; [apply keeps_refl|]]]].
  - split; [by exists (obuf (s_client s))| |by rewrite Hby, Hre|by rewrite Hby|by left|by rewrite Hre; intros _ [|]].
    rewrite Hre. split; [done|constructor|]. intros o Ho. by apply not_elem_of_nil in Ho.
  - intros sg. rewrite Hl, Hs. unfold pending. by rewrite Hse.
Qed.

(** The missing lengths are those of the queue. *)
Lemma log_gaps h c B q log sent x : out_inv ext h c B q -> (forall sg, flat sg log = sent ++ pending sg c B q) -> Gap x ∈ log <-> Gap x ∈ q.
Proof.
  intros I E. rewrite !gap_size, !E. set (s1 := fun _ => []). set (s2 := assign s1 x [0]).
  pose proof (sent_bound ext h c B q s1 I) as H1. pose proof (sent_bound ext h c B q s2 I) as H2.
  unfold pending. rewrite !length_app, !length_drop, !length_app in *. lia.
Qed.

Lemma gap_occ h l q o : Forall2 (obj_item h) l q -> Gap o ∈ q -> 1 <= occ o l.
Proof.
  intros Hi Hin. induction Hi as [|x i l q (ob & E & Hx) _ IH]; [by apply not_elem_of_nil in Hin|]. cbn [occ]. pose proof (occ_nonneg o l).
  apply elem_of_cons in Hin as [<-|Hin]; [destruct Hx as [-> _]; rewrite bool_decide_eq_true_2 by done; lia|]. specialize (IH Hin). destruct (bool_decide _); lia.
Qed.

Lemma gap_unique h l qa qb o : queue_ok ext h l (qa ++ Gap o :: qb) -> Gap o ∉ qa /\ Gap o ∉ qb.
Proof.
  intros [_ Hi Hg]. destruct (Hg o) as [_ Ho]; [apply elem_of_app; right; by left|]. apply Forall2_app_inv_r in Hi as (la & lb & Ha & Hb & ->).
  apply list.Forall2_cons_inv_r in Hb as (x & lb' & (ob & E & -> & _) & Hb & ->). rewrite occ_app in Ho. cbn [occ] in Ho. rewrite bool_decide_eq_true_2 in Ho by done.
  pose proof (occ_nonneg x la). pose proof (occ_nonneg x lb'). split; intros Hin; [apply (gap_occ h la qa x Ha) in Hin|apply (gap_occ h lb' qb x Hb) in Hin]; lia.
Qed.

Lemma glue_room_fits h c B qa qb o : out_inv ext h c B (qa ++ Gap o :: qb) -> glue_room h c o = true -> glue_fits qb.
Proof.
  intros [_ Hq _ _ _ _] Hg. destruct (gap_node ext h (reply c) qa qb o Hq) as (la & lb & ob & El & Hlen & Hnin & _). unfold glue_room in Hg. rewrite El, find_node_at in Hg by done.
  pose proof (qo_items _ _ _ _ Hq) as Hi. rewrite El in Hi. apply Forall2_app_inv in Hi as [_ Hi]; [|done]. apply list.Forall2_cons in Hi as [_ Hi].
  destruct qb as [|[t|y] qb]; [done| |done]. apply list.Forall2_cons_inv_r in Hi as (x & lb' & (obx & Ex & s & Es & Hs & _) & _ & ->).
  rewrite Ex, Es in Hg. destruct (sds_rep_len s t Hs) as [El' _]. rewrite El' in Hg. by apply Z.ltb_lt in Hg.
Qed.

(** A reply or a length keeps what was sent. *)
Lemma sinv_queued h0 h c log sent h' c' B q B' q' d : out_inv ext h c B q -> shared_ok shared ext h -> keeps ext h0 h ->
  (forall sg, flat sg log = sent ++ pending sg c B q) -> out_inv ext h' c' B' q' -> writable c' -> keeps ext h h' -> sentlen c' = sentlen c ->
  (forall sg, B' ++ flat sg q' = (B ++ flat sg q) ++ flat sg d) -> sinv h0 (mkSession h' c' (log ++ d) sent).
Proof.
  intros I Hsh K0 E I' W' K Es F. exists B', q'. split; [done|]. split; [done|]. split; [by apply (kept_shared shared ext h)|].
  split; [by eapply keeps_trans|]. intros sg. cbn [s_log s_sent s_client]. rewrite flat_app, E, (pending_add ext h c B q B' q' c' (flat sg d) sg I Es) by done. by rewrite app_assoc.
Qed.

Lemma sinv_fill h0 h c log sent e n o : limit_ok c 1 -> LLONG_MIN < n <= LLONG_MAX -> Gap o ∈ log -> glue_room h c o = true -> sinv h0 (mkSession h c log sent) ->
  exists h' c', setDeferredMultiBulkLength e h c (Some o) n = Some (h', c') /\ sinv h0 (mkSession h' c' (known o (length_bytes n) <$> log) sent).
Proof.
  intros L Hn Hin Hg (B & q & I & W & Hsh & K & E). cbn [s_heap s_client s_log s_sent] in *. apply (log_gaps h c B q log sent o I E) in Hin.
  apply list_elem_of_split in Hin as (qa & qb & ->). destruct (fill_spec e ext h c B qa qb o n I L Hn (glue_room_fits h c B qa qb o I Hg)) as (h' & c' & q' & Ef & I' & S' & _ & K' & F' & _).
  exists h', c'. split; [done|]. exists B, q'. cbn [s_heap s_client s_log s_sent]. split; [done|]. split; [by apply S'|]. split; [by apply (kept_shared shared ext h)|].
  split; [by eapply keeps_trans|]. intros sg. destruct (gap_unique h _ qa qb o (ci_queue _ _ _ _ _ I)) as [Ha Hb]. rewrite flat_known, E. unfold pending.
  rewrite (st_sent _ _ S'), F', flat_app, flat_cons, !flat_assign by done. unfold assign. by rewrite bool_decide_eq_true_2.
Qed.

Lemma sinv_send h0 h c log sent se : (forall x, Gap x ∉ log) -> room_sum (writes se) < 2 ^ 31 -> sinv h0 (mkSession h c log sent) ->
  exists h' r out, sendReplyToClient se h c = Some (h', r, out) /\ (0 < hd (-1) (writes se) -> match r with Some c' => out <> [] \/ drained c' | None => True end) /\
    match r with
    | Some c' => sinv h0 (mkSession h' c' log (sent ++ out)) /\ (drained c' -> write_handler c' = false) /\ replstate c' = replstate c
    | None => refs ext h' [] /\ keeps ext h0 h' /\ would_block se = false /\ forall sg, exists rest, flat sg log = (sent ++ out) ++ rest
    end.
Proof.
  intros Hng Hr (B & q & I & W & Hsh & K & E). cbn [s_heap s_client s_log s_sent] in *.
  destruct (no_gaps q) as [ts ->]; [intros x Hx; apply (Hng x); by apply (log_gaps h c B q log sent x I E)|].
  destruct (sendReplyToClient_spec ext se h c B ts I Hr) as (h' & r & out & Es & K' & Hev). exists h', r, out. split; [done|]. destruct r as [c'|].
  - destruct Hev as (B' & ts' & I' & (P1 & P2 & P3 & _) & _ & F & Hd & Hpr). split; [done|]. split; [|by split]. exists B', (texts ts').
    cbn [s_heap s_client s_log s_sent]. split; [done|]. split; [unfold writable; by rewrite P1, P2|]. split; [by apply (kept_shared shared ext h)|].
    split; [by eapply keeps_trans|]. intros sg. by rewrite E, F, app_assoc.
  - split; [done|]. destruct Hev as (Hr' & Hwb & F). split; [done|]. split; [by eapply keeps_trans|].
    split; [destruct Hwb as [?|Hc]; [done|]; destruct W as (_ & _ & _ & W); congruence|]. intros sg. destruct (F sg) as (rest & F'). exists rest. by rewrite E, F', app_assoc.
Qed.

Lemma sinv_step h0 s s' : sinv h0 s -> sstep s s' -> sinv h0 s'.
Proof.
  intros Hinv Hst. destruct Hst as [e op d h c log sent h' c' He L Hd Er|e h c log sent h' c' o He Er|e n o h c log sent h' c' L Hn Hin Hg Er|se h c log sent h' c' out Hng Hr Er].
  - destruct Hinv as (B & q & I & W & Hsh & K & E). destruct (run_reply_spec shared e op ext h c B q d He Hsh I W L Hd) as (h1 & c1 & E1 & B' & q' & I' & F' & S' & _ & K').
    rewrite Er in E1. injection E1 as <- <-. apply (sinv_queued h0 h c log sent h' c' B q B' q' [Txt d]); try done; [by apply S'|by apply S'|]. intros sg. by rewrite F', flat_txt.
  - destruct Hinv as (B & q & I & W & Hsh & K & E). destruct (defer_spec e ext h c B q He I W) as (h1 & c1 & o1 & E1 & I' & S' & _ & K' & _).
    cbn [s_heap s_client] in E1. rewrite Er in E1. injection E1 as <- <- <-. apply (sinv_queued h0 h c log sent h' c' B q B (q ++ [Gap o]) [Gap o]); try done; [by apply S'|by apply S'|]. intros sg. by rewrite flat_app, app_assoc.
  - destruct (sinv_fill h0 h c log sent e n o L Hn Hin Hg Hinv) as (h1 & c1 & E1 & I'). rewrite Er in E1. by injection E1 as <- <-.
  - destruct (sinv_send h0 h c log sent se Hng Hr Hinv) as (h1 & r & out1 & E1 & _ & I'). rewrite Er in E1. injection E1 as <- <- <-. apply I'.
Qed.

Lemma sinv_reachable s0 s : new_session s0 -> rtc sstep s0 s -> sinv (s_heap s0) s.
Proof. intros Hn Hst. eapply (rtc_ind_r (sinv (s_heap s0))); [by apply sinv_new| |done]. intros y z _ Hs Hi. by eapply sinv_step. Qed.

Lemma sinv_unsent h0 s sg : sinv h0 s -> flat sg (s_log s) = s_sent s ++ unsent (s_heap s) sg (s_client s).
Proof. intros (B & q & I & _ & _ & _ & E). by rewrite E, (unsent_pending ext _ sg _ B q). Qed.

(** * Delivery *)

(** Write events, while the handler is installed. *)
Fixpoint send_events (ses : list send_env) (h : heap) (c : rclient) : option (heap * option rclient * bytes) :=
  match ses with
  | [] => Some (h, Some c, [])
  | se :: ses =>
    if negb (write_handler c) then Some (h, Some c, []) else
    ' (h, r, out) <- sendReplyToClient se h c;;
    match r with
    | None => Some (h, None, out)
    | Some c => ' (h, r, out') <- send_events ses h c;; Some (h, r, out ++ out')
    end
  end.

(** The socket takes at least one byte, and has no error. *)
Definition accepting (se : send_env) : Prop := 0 < hd (-1) (writes se) /\ would_block se = true /\ room_sum (writes se) < 2 ^ 31.

Lemma send_events_idle ses h c : write_handler c = false -> send_events ses h c = Some (h, Some c, []).
Proof. intros E. destruct ses; cbn [send_events]; [done|]. by rewrite E. Qed.

(** Nothing is left. *)
Lemma idle_spec h0 h c log sent sg : sinv h0 (mkSession h c log sent) -> drained c -> refs ext h [] /\ flat sg log = sent ++ [].
Proof.
  intros Hinv Hd. pose proof (sinv_unsent h0 _ sg Hinv) as E. destruct Hinv as (B & q & I & _). cbn [s_heap s_client s_log s_sent] in *. destruct Hd as [Hb Hl].
  split; [pose proof (qo_refs _ _ _ _ (ci_queue _ _ _ _ _ I)) as Hr; by rewrite Hl in Hr|]. rewrite E. unfold unsent. rewrite Hb, Hl. change (take (Z.to_nat 0) (obuf c)) with (@nil Z). cbn [fmap list_fmap concat app]. by rewrite drop_nil.
Qed.

Lemma send_events_spec h0 log sg : (forall x, Gap x ∉ log) -> forall ses h c sent, sinv h0 (mkSession h c log sent) -> replnone c = true -> Forall accepting ses ->
  (length (unsent h sg c) < length ses)%nat ->
  exists h' c' out, send_events ses h c = Some (h', Some c', out) /\ flat sg log = sent ++ out /\ drained c' /\ write_handler c' = false /\ refs ext h' [] /\ keeps ext h0 h'.
Proof.
  intros Hng ses. induction ses as [|se ses IH]; intros h c sent Hinv Hrn Hacc Hlen; [cbn in Hlen; lia|].
  apply list.Forall_cons in Hacc as [(Hroom & Hwb & Hsum) Hacc]. cbn [send_events]. destruct (write_handler c) eqn:Eh; cbn [negb].
  - destruct (sinv_send h0 h c log sent se Hng Hsum Hinv) as (h1 & [c1|] & out & -> & Hpr & Hs); [|destruct Hs as (_ & _ & Hs & _); congruence]. cbn [obind].
    destruct Hs as (I1 & Hd1 & Hrn1). specialize (Hpr Hroom). destruct (decide (drained c1)) as [Hd|Hnd].
    + rewrite (send_events_idle ses h1 c1 (Hd1 Hd)). cbn [obind]. destruct (idle_spec h0 h1 c1 log _ sg I1 Hd) as [Hr E]. exists h1, c1, (out ++ []). split; [done|].
      split; [by rewrite app_assoc|]. split; [done|]. split; [by apply Hd1|]. split; [done|]. by destruct I1 as (? & ? & _ & _ & _ & ? & _).
    + destruct Hpr as [Hout|]; [|done]. destruct (IH h1 c1 (sent ++ out) I1) as (h2 & c2 & out2 & -> & E2 & Hrest); [unfold replnone in *; by rewrite Hrn1|done| |].
      * pose proof (sinv_unsent h0 _ sg Hinv) as Ea. pose proof (sinv_unsent h0 _ sg I1) as Eb. cbn [s_heap s_client s_log s_sent] in Ea, Eb. rewrite Ea in Eb.
        apply (f_equal length) in Eb. rewrite !length_app in Eb. cbn [length] in Hlen. destruct out; [done|]. cbn [length] in Eb. lia.
      * cbn [obind]. exists h2, c2, (out ++ out2). split; [done|]. by rewrite app_assoc.
  - assert (drained c) as Hd.
    { destruct Hinv as (B & q & I & _). destruct I as [(rest & Eb & Hsz & Ep) _ _ _ _ Hh]. cbn [s_client] in *. split.
      - destruct B as [|x B]; [done|]. rewrite Hh in Eh; [done|done|by left].
      - destruct (reply c) as [|o l]; [done|]. rewrite Hh in Eh; [done|done|by right]. }
    destruct (idle_spec h0 h c log sent sg Hinv Hd) as [Hr E]. exists h, c, []. do 4 (split; [done|]). split; [done|]. by destruct Hinv as (? & ? & _ & _ & _ & ? & _).
Qed.

(** * Properties *)

(** C6. For a client that receives replies, and for any interleaving of replies (of objects of the server, strings, errors, status lines,
    numbers and bulks), of lengths whose place is taken before they are known, and of write events with sockets that take any number of bytes: what was written
    to the socket, followed by what the output buffer and the reply list hold, is the concatenation of the replies, in order, in the protocol.
    The objects of the server that are queued without a copy keep their contents and the references to them are exact, the memory that is
    accounted to the client is that of its list (so the assertion on it never fails), the write handler is installed
    while there is output, and every further operation is defined: no access is out of bounds. *)
Theorem replies_in_order s0 s : new_session s0 -> rtc sstep s0 s ->
  (forall sg, flat sg (s_log s) = s_sent s ++ unsent (s_heap s) sg (s_client s)) /\
  keeps ext (s_heap s0) (s_heap s) /\ refs ext (s_heap s) (reply (s_client s)) /\ reply_bytes (s_client s) = total (s_heap s) (reply (s_client s)) /\
  (replnone (s_client s) = true -> bufpos (s_client s) <> 0 \/ reply (s_client s) <> [] -> write_handler (s_client s) = true) /\
  (forall e op d, aeCreateFileEvent_ok e = true -> limit_ok (s_client s) 3 -> says ext (s_heap s) op d -> is_Some (run_reply shared e op (s_heap s) (s_client s))) /\
  (forall e n o, limit_ok (s_client s) 1 -> LLONG_MIN < n <= LLONG_MAX -> Gap o ∈ s_log s -> glue_room (s_heap s) (s_client s) o = true ->
    is_Some (setDeferredMultiBulkLength e (s_heap s) (s_client s) (Some o) n)) /\
  (forall se, (forall x, Gap x ∉ s_log s) -> room_sum (writes se) < 2 ^ 31 -> is_Some (sendReplyToClient se (s_heap s) (s_client s))).
Proof.
  intros Hn Hst. pose proof (sinv_reachable s0 s Hn Hst) as Hinv. split; [intros sg; by apply (sinv_unsent (s_heap s0))|].
  pose proof Hinv as (B & q & I & W & Hsh & K & _). pose proof I as [(rest & _ & _ & Ep) Hq Hm _ _ Hh]. split; [done|]. split; [apply Hq|]. split; [done|].
  split; [|split; [|split]].
  - intros Hr [Hb|Hl]; apply Hh; try done; [left|by right]. intros ->. by rewrite msize_nil in Ep.
  - intros e op d He L Hd. destruct (run_reply_spec shared e op ext _ _ B q d He Hsh I W L Hd) as (h' & c' & -> & _). done.
  - intros e n o L Hr Hin Hg. destruct s as [h c log sent]. cbn [s_heap s_client]. destruct (sinv_fill _ h c log sent e n o L Hr Hin Hg Hinv) as (h' & c' & -> & _). done.
  - intros se Hng Hr. destruct s as [h c log sent]. cbn [s_heap s_client]. destruct (sinv_send _ h c log sent se Hng Hr Hinv) as (h' & r & out & -> & _). done.
Qed.

(** C10. When no length is missing, a client whose socket takes at least one byte at each write event receives all replies after as many events as there
    are bytes left, plus one: then the buffer and the list are empty, the handler is removed, and no object of the server has a reference of the client left. *)
Theorem replies_delivered s0 s ses sg : new_session s0 -> rtc sstep s0 s -> (forall x, Gap x ∉ s_log s) -> replnone (s_client s) = true ->
  Forall accepting ses -> (length (unsent (s_heap s) sg (s_client s)) < length ses)%nat ->
  exists h' c' out, send_events ses (s_heap s) (s_client s) = Some (h', Some c', out) /\ flat sg (s_log s) = s_sent s ++ out /\
    drained c' /\ write_handler c' = false /\ refs ext h' [] /\ keeps ext (s_heap s0) h'.
Proof.
  intros Hn Hst Hng Hrn Hacc Hlen. destruct s as [h c log sent]. by apply (send_events_spec (s_heap s0) log sg Hng ses h c sent (sinv_reachable s0 _ Hn Hst)).
Qed.

End Steps.

End History.

(** * An example *)

Section Example.
Local Existing Instance le_host.

Local Instance exact_allocator : Allocator := {| zmalloc_size n := n |}.

Local Instance exact_laws : AllocatorLaws exact_allocator.
Proof. refine {| M := 2 ^ 31 + 9 |}; [intros n Hn; cbn; lia|lia]. Defined.

Definition text_object (b : bytes) : sobj := mkObj 1 REDIS_ENCODING_RAW (PSds (MkSds (msize b) 0 (b ++ [0]))).

Definition demo_objects : list (oid * sobj) :=
  ((fun n => (Pos.of_nat (n + 1), text_object (count_bytes 42 (printf_d (Z.of_nat n))))) <$> seq 0 32) ++
  ((fun n => (Pos.of_nat (n + 33), text_object (count_bytes 36 (printf_d (Z.of_nat n))))) <$> seq 0 32) ++
  [(65%positive, text_object [13; 10]); (66%positive, text_object [58; 48; 13; 10]); (67%positive, text_object [58; 49; 13; 10])].

Definition demo_heap : heap := list_to_map demo_objects.

Definition demo_shared : sharedObjects :=
  mkShared ((fun n => Pos.of_nat (n + 1)) <$> seq 0 32) ((fun n => Pos.of_nat (n + 33)) <$> seq 0 32) 65 66 67 68 [].

Definition demo_ext (o : oid) : Z := match demo_heap !! o with Some _ => 1 | None => 0 end.

Definition demo_client : rclient :=
  mkRClient (mkRFlags false false false false false false false) 7 REDIS_REPL_NONE (zmalloc REDIS_REPLY_CHUNK_BYTES) 0 0 [] 0 0 0 false 0 (mkBulk None 0 0 None false).

Definition demo_session : session := mkSession demo_heap demo_client [] [].

Lemma text_object_has o b : demo_heap !! o = Some (text_object b) -> msize b < 2 ^ 31 - 1 -> has demo_ext demo_heap o b.
Proof.
  intros E Hb. unfold has, demo_ext. rewrite E. split; [lia|]. exists (text_object b). split; [done|]. left. eexists. split; [done|]. split; [|done].
  exists []. cbn. rewrite msize_nil. split; [done|lia].
Qed.

Lemma demo_new : new_session demo_shared demo_ext demo_session.
Proof.
  split; [|split; [|split; [done|split; [unfold demo_session, demo_client; cbn [s_client obuf]; unfold zmalloc; by rewrite msize_fresh|done]]]].
  - split; [|split; [|split; [|split]]].
    + intros n Hn. unfold REDIS_SHARED_BULKHDR_LEN in Hn. assert (exists k, n = Z.of_nat k /\ (k < 32)%nat) as (k & -> & Hk) by (exists (Z.to_nat n); lia).
      do 32 (destruct k as [|k]; [eexists; split; [reflexivity|]; apply text_object_has; vm_compute; done|]). lia.
    + intros n Hn. unfold REDIS_SHARED_BULKHDR_LEN in Hn. assert (exists k, n = Z.of_nat k /\ (k < 32)%nat) as (k & -> & Hk) by (exists (Z.to_nat n); lia).
      do 32 (destruct k as [|k]; [eexists; split; [reflexivity|]; apply text_object_has; vm_compute; done|]). lia.
    + apply text_object_has; vm_compute; done.
    + apply text_object_has; vm_compute; done.
    + apply text_object_has; vm_compute; done.
  - intros o. cbn [s_heap demo_session]. unfold demo_ext. destruct (demo_heap !! o) as [ob|] eqn:E; [|done]. cbn [occ].
    assert (map_Forall (fun _ ob => refcount ob = 1) demo_heap) as Hall by (refine (bool_decide_unpack _ _); vm_compute; exact I).
    specialize (Hall o ob E). cbn in Hall. lia.
Qed.

Definition demo_env : reply_env := mkREnv 0 0 0 0 true.

Lemma demo_limit c k : reply_bytes c <= 3 * M -> k <= 3 -> limit_ok c k.
Proof. intros Hr Hk. unfold limit_ok. change M with (2 ^ 31 + 9) in *. lia. Qed.

Lemma replies_in_order_witness : exists s, rtc (sstep demo_shared demo_ext) demo_session s /\ s_log s = [Txt [42; 48; 13; 10]; Txt [58; 53; 13; 10]] /\
  [42; 48; 13; 10; 58; 53; 13; 10] = s_sent s ++ unsent (s_heap s) (fun _ => []) (s_client s).
Proof.
  pose proof (sinv_new demo_shared demo_ext demo_session demo_new) as J0. pose proof J0 as (B & q & I & W & _).
  destruct (defer_spec demo_env demo_ext demo_heap demo_client B q eq_refl I W) as (h1 & c1 & o & E1 & I1 & S1 & R1 & K1 & _ & L1).
  assert (sstep demo_shared demo_ext demo_session (mkSession h1 c1 [Gap o] [])) as Hs1 by exact (step_defer _ _ demo_env demo_heap demo_client [] [] h1 c1 o eq_refl E1).
  change (reply c1 = [o]) in L1. assert (glue_room h1 c1 o = true) as Hg by (unfold glue_room; rewrite L1; cbn [find_node]; by rewrite bool_decide_eq_true_2).
  assert (limit_ok c1 1) as Hl1 by (apply demo_limit; [rewrite R1; change (0 <= 3 * (2 ^ 31 + 9)); lia|lia]).
  assert (LLONG_MIN < 0 <= LLONG_MAX) as Hn by (unfold LLONG_MIN, LLONG_MAX; lia).
  destruct (fill_spec demo_env demo_ext h1 c1 B q [] o 0 I1 Hl1 Hn) as (h2 & c2 & q2 & E2 & _ & _ & R2 & _); [exact Logic.I|].
  assert (sstep demo_shared demo_ext (mkSession h1 c1 [Gap o] []) (mkSession h2 c2 (known o (length_bytes 0) <$> [Gap o]) [])) as Hs2
    by exact (step_fill _ _ demo_env 0 o h1 c1 [Gap o] [] h2 c2 Hl1 Hn ltac:(by left) Hg E2).
  assert (known o (length_bytes 0) <$> [Gap o] = [Txt [42; 48; 13; 10]]) as Ek by (cbn [fmap list_fmap known]; by rewrite bool_decide_eq_true_2). rewrite Ek in Hs2.
  pose proof (sinv_step _ _ _ _ _ (sinv_step _ _ _ _ _ J0 Hs1) Hs2) as (B2 & q2' & I2 & W2 & Sh2 & _).
  assert (limit_ok c2 3) as Hl2 by (apply demo_limit; [change M with (2 ^ 31 + 9) in *; change (reply_bytes demo_client) with 0 in *; lia|lia]).
  assert (says demo_ext h2 (RLong 5) [58; 53; 13; 10]) as Hd by (split; [unfold LLONG_MIN, LLONG_MAX; lia|done]).
  destruct (run_reply_spec demo_shared demo_env (RLong 5) demo_ext h2 c2 B2 q2' _ eq_refl Sh2 I2 W2 Hl2 Hd) as (h3 & c3 & E3 & _).
  set (s3 := mkSession h3 c3 [Txt [42; 48; 13; 10]; Txt [58; 53; 13; 10]] []).
  assert (rtc (sstep demo_shared demo_ext) demo_session s3) as Hst.
  { eapply rtc_l; [exact Hs1|]. eapply rtc_l; [exact Hs2|]. apply rtc_once. exact (step_reply _ _ demo_env (RLong 5) [58; 53; 13; 10] h2 c2 [Txt [42; 48; 13; 10]] [] h3 c3 eq_refl Hl2 Hd E3). }
  exists s3. split; [exact Hst|]. split; [reflexivity|]. destruct (replies_in_order demo_shared demo_ext demo_session s3 demo_new Hst) as (H & _). exact (H (fun _ => [])).
Defined.

Lemma replies_delivered_witness : exists s h' c', rtc (sstep demo_shared demo_ext) demo_session s /\
  send_events (replicate 5 (mkSEnv [1] true true 0)) (s_heap s) (s_client s) = Some (h', Some c', [58; 53; 13; 10]) /\ write_handler c' = false.
Proof.
  pose proof (sinv_new demo_shared demo_ext demo_session demo_new) as J0. pose proof J0 as (B & q & I & W & Sh & _).
  assert (limit_ok demo_client 3) as Hl by (apply demo_limit; [change (0 <= 3 * (2 ^ 31 + 9)); lia|lia]).
  assert (says demo_ext demo_heap (RLong 5) [58; 53; 13; 10]) as Hd by (split; [unfold LLONG_MIN, LLONG_MAX; lia|done]).
  destruct (run_reply_spec demo_shared demo_env (RLong 5) demo_ext demo_heap demo_client B q _ eq_refl Sh I W Hl Hd) as (h1 & c1 & E1 & _ & _ & _ & _ & S1 & _).
  set (s1 := mkSession h1 c1 [Txt [58; 53; 13; 10]] []).
  assert (sstep demo_shared demo_ext demo_session s1) as Hs by exact (step_reply _ _ demo_env (RLong 5) [58; 53; 13; 10] demo_heap demo_client [] [] h1 c1 eq_refl Hl Hd E1).
  assert ([58; 53; 13; 10] = unsent h1 (fun _ => []) c1) as Eu by exact (sinv_unsent _ _ _ s1 (fun _ => []) (sinv_step _ _ _ _ _ J0 Hs)).
  destruct (replies_delivered demo_shared demo_ext demo_session s1 (replicate 5 (mkSEnv [1] true true 0)) (fun _ => [])) as (h' & c' & out & E & Eo & _ & Hw & _).
  - exact demo_new.
  - apply rtc_once. exact Hs.
  - intros x Hx. apply list_elem_of_singleton in Hx. discriminate Hx.
  - change (replnone c1 = true). unfold replnone. rewrite (st_repl _ _ S1). reflexivity.
  - repeat constructor.
  - change (s_heap s1) with h1. change (s_client s1) with c1. rewrite <- Eu. cbn. lia.
  - cbn in Eo. subst out. exists s1, h', c'. split; [apply rtc_once; exact Hs|]. split; [exact E|exact Hw].
Defined.

End Example.
