(* ===== verification/ReplyClients.v ===== *)
(** Replies to clients: several clients, whose reply lists share the objects of one heap. *)

From stdpp Require Import gmap.
From S2P Require Import Prelude Util Sds SdsRep Networking NetworkingSpec Reply ReplySpec ReplyOps ReplySend ReplyDefer ReplyHistory.

Section Clients.
Context {HOST : Host} {AL : Allocator} {LAWS : AllocatorLaws AL}.

(** All objects that the clients have queued. *)
Definition lists (cs : list rclient) : list oid := concat (reply <$> cs).

Lemma lists_app a b : lists (a ++ b) = lists a ++ lists b.
Proof. unfold lists. by rewrite fmap_app, concat_app. Qed.

Lemma lists_cons c cs : lists (c :: cs) = reply c ++ lists cs.
Proof. done. Qed.

(** References from elsewhere and from other clients. *)
Definition plus (ext : oid -> Z) (cs : list rclient) : oid -> Z := fun o => ext o + occ o (lists cs).

(** The output of one client; [B] is in the buffer and [ts] in the list. *)
Record local_ok (h : heap) (c : rclient) (o : bytes * list bytes) : Prop := {
  lo_buf : exists rest, obuf c = o.1 ++ rest /\ msize o.1 + msize rest = REDIS_REPLY_CHUNK_BYTES /\ bufpos c = msize o.1;
  lo_items : Forall2 (obj_item h) (reply c) (texts o.2);
  lo_mem : reply_bytes c = total h (reply c);
  lo_limit : reply_bytes c < 2 ^ 64 - 1 - 1024 * 64;
  lo_sent : head_ok (sentlen c) o.1 (texts o.2);
  lo_handler : replnone c = true -> o.1 <> [] \/ reply c <> [] -> write_handler c = true
}.

(** Clients with their output. *)
Abbreviation group := (list (rclient * (bytes * list bytes))).

Definition group_ok (ext : oid -> Z) (h : heap) (g : group) : Prop := refs ext h (lists g.*1) /\ Forall (fun p => local_ok h p.1 p.2) g.

Lemma texts_no_gap o ts : Gap o ∉ texts ts.
Proof. unfold texts. intros (b & [=] & _)%list_elem_of_fmap. Qed.

Lemma local_out ext h c o : local_ok h c o -> refs ext h (reply c) -> out_inv ext h c o.1 (texts o.2).
Proof. intros [H1 H2 H3 H4 H5 H6] Hr. split; try done. split; [done|done|]. intros x Hx. by apply texts_no_gap in Hx. Qed.

Lemma out_local ext h c B ts : out_inv ext h c B (texts ts) -> local_ok h c (B, ts).
Proof. intros [H1 [_ H2 _] H3 H4 H5 H6]. by split. Qed.

(** Objects of other clients are as they were. *)
Lemma local_keeps ext h h' c o : local_ok h c o -> (forall x, x ∈ reply c -> 0 < ext x) -> keeps ext h h' -> local_ok h' c o.
Proof.
  intros [H1 H2 H3 H4 H5 H6] Hx Hk. destruct (items_change h h' (reply c) (texts o.2) H2) as [Hi Ht]; [intros x ob Hin; apply Hk; by apply Hx|].
  split; try done. by rewrite H3, Ht.
Qed.

(** One of the clients. *)
Lemma focus ext h g1 c o g2 : group_ok ext h (g1 ++ (c, o) :: g2) -> out_inv (plus ext (g1 ++ g2).*1) h c o.1 (texts o.2).
Proof.
  intros [Hr Hl]. apply Forall_app in Hl as [_ Hl]. apply list.Forall_cons in Hl as [Hc _]. apply (local_out _ h c o); [done|].
  intros x. specialize (Hr x). unfold plus. rewrite !fmap_app, fmap_cons, !lists_app, lists_cons, !occ_app in *. cbn [fst] in *.
  pose proof (occ_nonneg x (reply c)). pose proof (occ_nonneg x (lists g1.*1)). pose proof (occ_nonneg x (lists g2.*1)). destruct (h !! x); lia.
Qed.

Lemma in_lists c cs x : c ∈ cs -> x ∈ reply c -> 1 <= occ x (lists cs).
Proof.
  intros Hc Hx. apply occ_in. unfold lists. apply list_elem_of_In, in_concat. exists (reply c). split; apply list_elem_of_In; [|done].
  apply list_elem_of_fmap. by exists c.
Qed.

Lemma others_keep ext h h' (g g' : group) : (forall x, 0 <= ext x) -> Forall (fun p => local_ok h p.1 p.2) g -> (forall x, occ x (lists g.*1) <= occ x (lists g'.*1)) ->
  keeps (plus ext g'.*1) h h' -> Forall (fun p => local_ok h' p.1 p.2) g.
Proof.
  intros Hpos Hl Hle Hk. apply list.Forall_forall. intros p Hp. rewrite list.Forall_forall in Hl. eapply (local_keeps _ h); [by apply Hl| |exact Hk].
  intros x Hx. specialize (Hpos x). specialize (Hle x). pose proof (in_lists p.1 g.*1 x ltac:(apply list_elem_of_fmap; by exists p) Hx). unfold plus. lia.
Qed.

Lemma unfocus ext h h' g1 c c' o g2 B ts : group_ok ext h (g1 ++ (c, o) :: g2) ->
  out_inv (plus ext (g1 ++ g2).*1) h' c' B (texts ts) -> keeps (plus ext (g1 ++ g2).*1) h h' ->
  group_ok ext h' (g1 ++ (c', (B, ts)) :: g2) /\ keeps ext h h'.
Proof.
  intros [Hr Hl] I Hk. apply Forall_app in Hl as [Hl1 Hl]. apply list.Forall_cons in Hl as [Hc Hl2].
  assert (forall x, 0 <= ext x) as Hpos by (intros x; specialize (Hr x); destruct (h !! x); lia).
  assert (keeps ext h h') as Hke.
  { intros x ob Hx E. apply Hk; [|done]. unfold plus. pose proof (occ_nonneg x (lists (g1 ++ g2).*1)). lia. }
  split; [|done]. split.
  - intros x. pose proof (qo_refs _ _ _ _ (ci_queue _ _ _ _ _ I) x) as Hx. unfold plus in Hx. rewrite !fmap_app, fmap_cons, !lists_app, lists_cons, !occ_app in *. cbn [fst] in *.
    specialize (Hpos x). pose proof (occ_nonneg x (lists g1.*1)). pose proof (occ_nonneg x (lists g2.*1)). pose proof (occ_nonneg x (reply c')). destruct (h' !! x); lia.
  - apply Forall_app. split; [|constructor; [by eapply out_local|]].
    + eapply others_keep; [exact Hpos|exact Hl1| |exact Hk]. intros x. rewrite fmap_app, lists_app, occ_app. pose proof (occ_nonneg x (lists g2.*1)). lia.
    + eapply others_keep; [exact Hpos|exact Hl2| |exact Hk]. intros x. rewrite fmap_app, lists_app, occ_app. pose proof (occ_nonneg x (lists g1.*1)). lia.
Qed.

(** Replies do not leave lengths open. *)
Lemma queued_texts ext h c B ts k d h' c' : queued ext h c B (texts ts) k d h' c' ->
  exists B' ts', out_inv ext h' c' B' (texts ts') /\ B' ++ concat ts' = (B ++ concat ts) ++ d /\ stable c c' /\ reply_bytes c' <= reply_bytes c + k * M /\ keeps ext h h'.
Proof.
  intros (B' & q' & I & F & S & R & K). assert (exists ts', q' = texts ts') as [ts' ->].
  { apply no_gaps. intros x Hx. apply gap_size in Hx. pose proof (F (fun _ => [])) as F1. pose proof (F (assign (fun _ => []) x [0])) as F2. rewrite !flat_texts in *.
    apply (f_equal length) in F1, F2. rewrite !length_app in *. lia. }
  exists B', ts'. split; [done|]. specialize (F (fun _ => [])). rewrite !flat_texts in F. done.
Qed.

(** What a client has not received. *)
Definition left (p : rclient * (bytes * list bytes)) : bytes := drop (Z.to_nat (sentlen p.1)) (p.2.1 ++ concat p.2.2).

Lemma left_pending c B ts sg : left (c, (B, ts)) = pending sg c B (texts ts).
Proof. unfold left, pending. by rewrite flat_texts. Qed.

(** [d] is added to the output. *)
Definition grown (k : Z) (d : bytes) (p p' : rclient * (bytes * list bytes)) : Prop :=
  stable p.1 p'.1 /\ reply_bytes p'.1 <= reply_bytes p.1 + k * M /\ left p' = left p ++ d.

Lemma grown_nil k p : 0 <= k -> grown k [] p p.
Proof. intros Hk. pose proof HM2. split; [apply stable_refl|]. split; [nia|by rewrite app_nil_r]. Qed.

Lemma grown_trans k1 k2 d1 d2 p p1 p2 : grown k1 d1 p p1 -> grown k2 d2 p1 p2 -> grown (k1 + k2) (d1 ++ d2) p p2.
Proof. intros (S1 & R1 & L1) (S2 & R2 & L2). split; [by eapply stable_trans|]. split; [lia|]. by rewrite L2, L1, app_assoc. Qed.

(** What others refer to holds for more references. *)
Definition monotone (P : (oid -> Z) -> heap -> Prop) : Prop := forall ext cs h, P ext h -> P (plus ext cs) h.

Lemma grow_one ext h g1 c o g2 P k (f : heap -> rclient -> option (heap * rclient)) d : group_ok ext h (g1 ++ (c, o) :: g2) -> monotone P -> P ext h ->
  (forall ext h B q, out_inv ext h c B q -> P ext h -> exists h' c', f h c = Some (h', c') /\ queued ext h c B q k d h' c') ->
  exists h' c' o', f h c = Some (h', c') /\ group_ok ext h' (g1 ++ (c', o') :: g2) /\ keeps ext h h' /\ grown k d (c, o) (c', o').
Proof.
  intros Hok Hm HP Hf. destruct o as [B ts]. pose proof (focus ext h g1 c (B, ts) g2 Hok) as I.
  destruct (Hf _ h B (texts ts) I (Hm _ _ _ HP)) as (h' & c' & E & Q). apply queued_texts in Q as (B' & ts' & I' & F & S & R & K).
  destruct (unfocus ext h h' g1 c c' (B, ts) g2 B' ts' Hok I' K) as [Hok' Hk]. exists h', c', (B', ts'). split; [done|]. split; [done|]. split; [done|].
  split; [done|]. split; [done|]. rewrite !(left_pending _ _ _ (fun _ => [])). eapply pending_add; [exact I|apply S|]. by rewrite !flat_texts.
Qed.

(** ** A temporary object *)

Lemma group_acquire ext h g o ob : group_ok ext h g -> h !! o = None -> refcount ob = 1 -> group_ok (hold_one ext o) (<[o := ob]> h) g /\ keeps ext h (<[o := ob]> h).
Proof.
  intros [Hr Hl] Hfr Hrc. pose proof (Hr o) as Ho. rewrite Hfr in Ho.
  assert (forall x obx, h !! x = Some obx -> exists ob', <[o := ob]> h !! x = Some ob' /\ optr ob' = optr obx /\ enc ob' = enc obx) as Hoth.
  { intros x obx E. exists obx. rewrite lookup_insert_ne by congruence. done. }
  split; [|intros x obx _; apply Hoth]. split.
  - intros x. specialize (Hr x). unfold hold_one. destruct (bool_decide_reflect (x = o)) as [->|Hne].
    + rewrite lookup_insert_eq, Hrc. lia.
    + by rewrite lookup_insert_ne by done.
  - eapply list.Forall_impl; [exact Hl|]. intros p Hp. eapply (local_keeps (fun _ => 1) h); [done|done|]. intros x obx _. apply Hoth.
Qed.

Lemma group_release ext h g o : group_ok (hold_one ext o) h g -> ext o = 0 -> exists h', decrRefCount h o = Some h' /\ group_ok ext h' g /\ keeps ext h h'.
Proof.
  intros [Hr Hl] Ho. destruct (drop_ref (hold_one ext o) ext h (lists g.*1) (lists g.*1) o Hr) as (h' & E & Hr' & Hkeep).
  { intros x. pose proof (Hr x) as Hx. unfold hold_one in Hx |- *. destruct (bool_decide_reflect (x = o)) as [E|E]; [rewrite E; lia|]. destruct (h !! x); lia. }
  exists h'. split; [done|]. split; [|intros x obx Hx; apply Hkeep; by right]. split; [done|]. apply list.Forall_forall. intros p Hp. rewrite list.Forall_forall in Hl.
  eapply (local_keeps (fun x => occ x (lists g.*1)) h); [by apply Hl| |].
  - intros x Hx. pose proof (in_lists p.1 g.*1 x ltac:(apply list_elem_of_fmap; by exists p) Hx). lia.
  - intros x obx Hx. apply Hkeep. left. destruct (decide (x ∈ lists g.*1)) as [|Hn]; [done|]. rewrite (occ_notin_0 _ _ Hn) in Hx. lia.
Qed.

(** ** A client leaves *)

(** Its references are gone. *)
Lemma group_removed ext h h' g1 c o g2 : group_ok ext h (g1 ++ (c, o) :: g2) -> refs (plus ext (g1 ++ g2).*1) h' [] -> keeps (plus ext (g1 ++ g2).*1) h h' ->
  group_ok ext h' (g1 ++ g2) /\ keeps ext h h'.
Proof.
  intros [Hr Hl] Hr' K. apply Forall_app in Hl as [Hl1 Hl]. apply list.Forall_cons in Hl as [_ Hl2].
  assert (forall x, 0 <= ext x) as Hpos by (intros x; specialize (Hr x); destruct (h !! x); lia). split; [split|].
  - intros x. specialize (Hr' x). specialize (Hpos x). unfold plus in Hr'. cbn [occ] in Hr'. pose proof (occ_nonneg x (lists (g1 ++ g2).*1)). destruct (h' !! x); lia.
  - apply Forall_app. split; (eapply others_keep; [exact Hpos|done| |exact K]); intros x; rewrite fmap_app, lists_app, occ_app;
      pose proof (occ_nonneg x (lists g1.*1)); pose proof (occ_nonneg x (lists g2.*1)); lia.
  - intros x ob Hx Eo. apply K; [|done]. unfold plus. pose proof (occ_nonneg x (lists (g1 ++ g2).*1)). lia.
Qed.

Lemma group_leave ext h g1 c o g2 : group_ok ext h (g1 ++ (c, o) :: g2) ->
  exists h', release_objects h (reply c) = Some h' /\ group_ok ext h' (g1 ++ g2) /\ keeps ext h h'.
Proof.
  intros Hok. pose proof (focus ext h g1 c o g2 Hok) as I. destruct (release_spec _ (reply c) h (qo_refs _ _ _ _ (ci_queue _ _ _ _ _ I))) as (h' & E & Hr' & K).
  exists h'. split; [done|]. by eapply group_removed.
Qed.

End Clients.
