(* ===== verification/Replication.v ===== *)
(** The master side of replication (replication.c): the backlog, a circular buffer with the end of the replication
    stream, the commands sent to the slaves, and partial and full resynchronisation. *)

From stdpp Require Import gmap.
From S2P Require Import Prelude Util Sds SdsArgs SdsRep Rdb Networking Aof Reply.

(** * The backlog *)

(** The fields of [server] for the backlog. *)
Record replserver := mkRepl {
  repl_backlog : option bytes;
  repl_backlog_size : Z;
  repl_backlog_histlen : Z;
  repl_backlog_idx : Z;
  repl_backlog_off : Z;
  master_repl_offset : Z;
  slaveseldb : Z
}.

Definition REDIS_REPL_BACKLOG_MIN_SIZE := 1024 * 16.
Definition REDIS_LONGSTR_SIZE := 21.
Definition REDIS_SHARED_SELECT_CMDS := 10.

Section Backlog.
Context {HOST : Host}.

Definition createReplicationBacklog (r : replserver) : option replserver :=
  match repl_backlog r with
  | Some _ => None
  | None =>
    offset <- ll_arith (master_repl_offset r + 1);;
    off <- ll_arith (offset + 1);;
    Some (mkRepl (Some (zmalloc (repl_backlog_size r))) (repl_backlog_size r) 0 0 off offset (slaveseldb r))
  end.

Definition resizeReplicationBacklog (r : replserver) (newsize : Z) : option replserver :=
  let newsize := if newsize <? REDIS_REPL_BACKLOG_MIN_SIZE then REDIS_REPL_BACKLOG_MIN_SIZE else newsize in
  if repl_backlog_size r =? newsize then Some r else
  match repl_backlog r with
  | None => Some (mkRepl None newsize (repl_backlog_histlen r) (repl_backlog_idx r) (repl_backlog_off r) (master_repl_offset r) (slaveseldb r))
  | Some _ =>
    off <- ll_arith (master_repl_offset r + 1);;
    Some (mkRepl (Some (zmalloc newsize)) newsize 0 0 off (master_repl_offset r) (slaveseldb r))
  end.

(** [nslaves] is [listLength(server.slaves)]. *)
Definition freeReplicationBacklog (r : replserver) (nslaves : Z) : option replserver :=
  if negb (nslaves =? 0) then None else
  Some (mkRepl None (repl_backlog_size r) (repl_backlog_histlen r) (repl_backlog_idx r) (repl_backlog_off r) (master_repl_offset r) (slaveseldb r)).

(** The buffer, the index and the length of the history; [p] points at [off] in [ptr]. *)
Fixpoint feed_loop (fuel : nat) (b : bytes) (size idx histlen : Z) (ptr : bytes) (off len : Z) : option (bytes * Z * Z) :=
  if len =? 0 then Some (b, idx, histlen) else
  match fuel with
  | O => None
  | S fuel =>
    let thislen := uint 64 (size - idx) in
    let thislen := if thislen >? len then len else thislen in
    d <- load ptr off thislen;;
    b <- store b idx d;;
    let idx := idx + thislen in
    let idx := if idx =? size then 0 else idx in
    histlen <- ll_arith (histlen + thislen);;
    feed_loop fuel b size idx histlen ptr (off + thislen) (len - thislen)
  end.

Definition feedReplicationBacklog (r : replserver) (ptr : bytes) (len : Z) : option replserver :=
  offset <- ll_arith (master_repl_offset r + len);;
  b <- repl_backlog r;;
  ' (b, idx, histlen) <- feed_loop (Z.to_nat len) b (repl_backlog_size r) (repl_backlog_idx r) (repl_backlog_histlen r) ptr 0 len;;
  let histlen := if histlen >? repl_backlog_size r then repl_backlog_size r else histlen in
  off <- ll_arith (offset - histlen + 1);;
  Some (mkRepl (Some b) (repl_backlog_size r) histlen idx off offset (slaveseldb r)).

Definition feedReplicationBacklogWithObject (r : replserver) (h : heap) (o : oid) : option replserver :=
  ob <- h !! o;;
  match optr ob with
  | PInt v => ' (llstr, len) <- ll2string (zmalloc REDIS_LONGSTR_SIZE) REDIS_LONGSTR_SIZE v;; feedReplicationBacklog r llstr len
  | PSds s => feedReplicationBacklog r (buf s) (sdslen s)
  | PNull => None
  end.

End Backlog.

(** * Commands to slaves *)

(** The server: the backlog, the objects, the slaves and [server.repl_good_slaves_count]. *)
Record master := mkMaster { srv : replserver; mheap : heap; slaves : list rclient; repl_good_slaves_count : Z }.

Section Master.
Context {HOST : Host} {AL : Allocator}.
Variable shared : sharedObjects.

Definition set_seldb (r : replserver) (dictid : Z) : replserver :=
  mkRepl (repl_backlog r) (repl_backlog_size r) (repl_backlog_histlen r) (repl_backlog_idx r) (repl_backlog_off r) (master_repl_offset r) dictid.

(** [while((ln = listNext(&li)))] over the slaves. *)
Fixpoint for_slaves (f : heap -> rclient -> option (heap * rclient)) (h : heap) (l : list rclient) : option (heap * list rclient) :=
  match l with
  | [] => Some (h, [])
  | c :: l => ' (h, c) <- f h c;; ' (h, l) <- for_slaves f h l;; Some (h, c :: l)
  end.

(** The heap, the object and whether it was created. *)
Definition selectcmd (h : heap) (dictid : Z) : option (heap * oid * bool) :=
  if (0 <=? dictid) && (dictid <? REDIS_SHARED_SELECT_CMDS) then o <- index (select shared) dictid;; Some (h, o, false)
  else
    ' (llstr, dictid_len) <- ll2string (zmalloc REDIS_LONGSTR_SIZE) REDIS_LONGSTR_SIZE dictid;;
    digits <- load llstr 0 dictid_len;;
    s <- sdsempty;;
    s <- sdscatprintf s (select_format digits dictid_len);;
    let '(h, o) := createObject h (PSds s) in Some (h, o, true).

(** A prefix, a number and CRLF in [aux], and the number of digits. *)
Definition aux_header (aux : bytes) (prefix n : Z) : option (bytes * Z) :=
  aux <- store8 aux 0 prefix;;
  tail <- load aux 1 (msize aux - 1);;
  ' (tail, len) <- ll2string tail (msize aux - 1) n;;
  aux <- store aux 1 tail;;
  aux <- store8 aux (len + 1) 13;;
  aux <- store8 aux (len + 2) 10;;
  Some (aux, len).

Definition stringObjectLen (h : heap) (o : oid) : option Z :=
  ob <- h !! o;;
  match optr ob with
  | PSds s => Some (sdslen s)
  | PInt v => ' (_, len) <- ll2string (zmalloc 32) 32 v;; Some len
  | PNull => None
  end.

(** The arguments, to the backlog. *)
Fixpoint feed_args (r : replserver) (h : heap) (aux : bytes) (argv : list oid) : option replserver :=
  match argv with
  | [] => Some r
  | o :: argv =>
    objlen <- stringObjectLen h o;;
    ' (aux, len) <- aux_header aux 36 objlen;;
    r <- feedReplicationBacklog r aux (len + 3);;
    r <- feedReplicationBacklogWithObject r h o;;
    crlf <- load aux (len + 1) (msize aux - (len + 1));;
    r <- feedReplicationBacklog r crlf 2;;
    feed_args r h aux argv
  end.

(** The arguments, to a slave. *)
Fixpoint bulk_args (e : reply_env) (h : heap) (c : rclient) (argv : list oid) : option (heap * rclient) :=
  match argv with
  | [] => Some (h, c)
  | o :: argv => ' (h, c) <- addReplyBulk shared e h c o;; bulk_args e h c argv
  end.

Definition feed_slave (e : reply_env) (argv : list oid) (h : heap) (c : rclient) : option (heap * rclient) :=
  if bool_decide (replstate c = REDIS_REPL_WAIT_BGSAVE_START) then Some (h, c) else
  ' (h, c) <- addReplyMultiBulkLen shared e h c (msize argv);;
  bulk_args e h c argv.

(** The part that sends SELECT. *)
Definition feed_select (e : reply_env) (m : master) (dictid : Z) : option master :=
  if negb (slaveseldb (srv m) =? dictid) then
    ' (h, cmd, created) <- selectcmd (mheap m) dictid;;
    r <- (if repl_backlog (srv m) then feedReplicationBacklogWithObject (srv m) h cmd else Some (srv m));;
    ' (h, l) <- for_slaves (fun h c => addReply e h c cmd) h (slaves m);;
    h <- (if created : bool then decrRefCount h cmd else Some h);;
    Some (mkMaster r h l (repl_good_slaves_count m))
  else Some m.

Definition replicationFeedSlaves (e : reply_env) (m : master) (dictid : Z) (argv : list oid) : option master :=
  match repl_backlog (srv m), slaves m with
  | None, [] => Some m
  | None, _ :: _ => None
  | Some _, _ =>
    m <- feed_select e m dictid;;
    let r := set_seldb (srv m) dictid in
    r <- (if repl_backlog r then
            ' (aux, len) <- aux_header (zmalloc (REDIS_LONGSTR_SIZE + 3)) 42 (msize argv);;
            r <- feedReplicationBacklog r aux (len + 3);;
            feed_args r (mheap m) aux argv
          else Some r);;
    ' (h, l) <- for_slaves (feed_slave e argv) (mheap m) (slaves m);;
    Some (mkMaster r h l (repl_good_slaves_count m))
  end.

(** * Partial resynchronisation *)

(** [while(len)]: the pieces of the backlog from [j] on. *)
Fixpoint backlog_loop (fuel : nat) (e : reply_env) (h : heap) (c : rclient) (b : bytes) (size j len : Z) : option (heap * rclient) :=
  if len =? 0 then Some (h, c) else
  match fuel with
  | O => None
  | S fuel =>
    let thislen := if size - j <? len then size - j else len in
    p <- load b j (size - j);;
    s <- sdsnewlen (Some p) thislen;;
    ' (h, c) <- addReplySds e h c s;;
    backlog_loop fuel e h c b size 0 (len - thislen)
  end.

(** The heap, the client and the number of bytes. *)
Definition addReplyReplicationBacklog (e : reply_env) (r : replserver) (h : heap) (c : rclient) (offset : Z) : option (heap * rclient * Z) :=
  if repl_backlog_histlen r =? 0 then Some (h, c, 0) else
  b <- repl_backlog r;;
  skip <- ll_arith (offset - repl_backlog_off r);;
  let j := Z.rem (repl_backlog_idx r + (repl_backlog_size r - repl_backlog_histlen r)) (repl_backlog_size r) in
  let j := Z.rem (j + skip) (repl_backlog_size r) in
  let len := repl_backlog_histlen r - skip in
  ' (h, c) <- backlog_loop 2 e h c b (repl_backlog_size r) j len;;
  Some (h, c, len).

(** Whether the result is [REDIS_OK], and the value. *)
Definition getLongLongFromObject (h : heap) (o : oid) : option (option Z) :=
  ob <- h !! o;;
  match optr ob with
  | PSds s =>
    ' (value, eptr) <- strtoll_raw (buf s);;
    c <- load8 (buf s) 0;;
    e <- load8 (buf s) eptr;;
    if isspace c || negb (e =? 0) || (value <? LLONG_MIN) || (value >? LLONG_MAX) then Some None else Some (Some value)
  | PInt v => Some (Some v)
  | PNull => None
  end.

(** [msg] is NULL or the message. *)
Definition getLongLongFromObjectOrReply (e : reply_env) (h : heap) (c : rclient) (o : oid) (msg : option bytes) : option (heap * rclient * option Z) :=
  v <- getLongLongFromObject h o;;
  match v with
  | Some v => Some (h, c, Some v)
  | None =>
    let msg := match msg with
               | Some msg => msg
               | None => [118; 97; 108; 117; 101; 32; 105; 115; 32; 110; 111; 116; 32; 97; 110; 32; 105; 110; 116; 101; 103; 101; 114; 32; 111; 114; 32;
                          111; 117; 116; 32; 111; 102; 32; 114; 97; 110; 103; 101]
               end in
    ' (h, c) <- addReplyErrorLength e h c msg (msize msg);;
    Some (h, c, None)
  end.

(** [server.runid] and the configuration. *)
Record repl_conf := mkConf { runid : bytes; repl_min_slaves_to_write : Z; repl_min_slaves_max_lag : Z }.

Definition refreshGoodSlavesCount (conf : repl_conf) (unixtime : Z) (m : master) : master :=
  if (repl_min_slaves_to_write conf =? 0) || (repl_min_slaves_max_lag conf =? 0) then m else
  let good := filter (fun c => replstate c = REDIS_REPL_ONLINE /\ unixtime - repl_ack_time c <= repl_min_slaves_max_lag conf) (slaves m) in
  mkMaster (srv m) (mheap m) (slaves m) (msize good).

Definition set_online_slave (c : rclient) (t : Z) : rclient :=
  let f := rflags c in
  mkRClient (mkRFlags (LUA_CLIENT f) (MASTER f) (MASTER_FORCE_REPLY f) (RCLOSE_AFTER_REPLY f) (CLOSE_ASAP f) true (PRE_PSYNC f)) (fd c) REDIS_REPL_ONLINE (obuf c) (bufpos c) (sentlen c)
    (reply c) (reply_bytes c) (obuf_soft_limit_reached_time c) (lastinteraction c) (write_handler c) t (bulk c).

Definition CONTINUE : bytes := [43; 67; 79; 78; 84; 73; 78; 85; 69; 13; 10].
Definition FULLRESYNC : bytes := [43; 70; 85; 76; 76; 82; 69; 83; 89; 78; 67; 32].

(** [argv1] and [argv2] are the arguments of PSYNC, [written] is whether the [write] of the answer is complete. The result: the server, the client unless it is a slave now,
    whether the result is [REDIS_OK], and what was written. *)
Definition masterTryPartialResynchronization (e : reply_env) (conf : repl_conf) (m : master) (c : rclient) (argv1 argv2 : oid) (written : bool) :
    option (master * option rclient * bool * bytes) :=
  let r := srv m in
  let need_full_resync m c :=
    psync_offset <- (if repl_backlog r then Some (master_repl_offset r) else ll_arith (master_repl_offset r + 1));;
    let buf := FULLRESYNC ++ runid conf ++ [32] ++ printf_d psync_offset ++ [13; 10] in
    if negb written then Some (m, Some (freeClientAsync c), true, [])
    else Some (m, Some c, false, buf) in
  ob <- mheap m !! argv1;;
  match optr ob with
  | PSds master_runid =>
    same <- strcaseeq (buf master_runid) 0 (runid conf);;
    if negb same then need_full_resync m c else
    ' (h, c, v) <- getLongLongFromObjectOrReply e (mheap m) c argv2 None;;
    let m := mkMaster r h (slaves m) (repl_good_slaves_count m) in
    match v with
    | None => need_full_resync m c
    | Some psync_offset =>
      if negb (if repl_backlog r then true else false) || (psync_offset <? repl_backlog_off r) || (psync_offset >? repl_backlog_off r + repl_backlog_histlen r) then need_full_resync m c else
      let c := set_online_slave c (unixtime e) in
      if negb written then Some (mkMaster r h (slaves m ++ [freeClientAsync c]) (repl_good_slaves_count m), None, true, []) else
      ' (h, c, _) <- addReplyReplicationBacklog e r h c psync_offset;;
      Some (refreshGoodSlavesCount conf (unixtime e) (mkMaster r h (slaves m ++ [c]) (repl_good_slaves_count m)), None, true, CONTINUE)
    end
  | _ => None
  end.

End Master.
