(* ===== verification/Backlog.v ===== *)
(** The replication backlog holds the end of the replication stream, and gives it back from any offset it covers. *)

From stdpp Require Import gmap.
From S2P Require Import Prelude Util Sds SdsRep Networking NetworkingSpec Reply ReplySpec ReplyOps Replication.

(** * Circular buffers *)

(** The contents of the buffer in the order they were written: from the index to the end, then from the start. *)
Definition ring (b : bytes) (idx : Z) (R : bytes) : Prop := exists A B, b = A ++ B /\ msize A = idx /\ B <> [] /\ R = B ++ A.

Lemma ring_size b idx R : ring b idx R -> msize R = msize b /\ 0 <= idx < msize b.
Proof.
  intros (A & B & -> & <- & HB & ->). rewrite !msize_app. pose proof (msize_nonneg A). split; [lia|]. destruct B; [done|]. rewrite msize_cons. pose proof (msize_nonneg B). lia.
Qed.

(** A write up to the end of the buffer. *)
Lemma ring_write b idx R d : ring b idx R -> 0 < msize d <= msize b - idx ->
  exists b' R1 R2, store b idx d = Some b' /\ msize b' = msize b /\ R = R1 ++ R2 /\ msize R1 = msize d /\
    ring b' (if idx + msize d =? msize b then 0 else idx + msize d) (R2 ++ d).
Proof.
  intros (A & B & -> & <- & HB & ->) Hd. rewrite msize_app in Hd |- *. destruct (split_at B (msize d)) as (B1 & B2 & -> & HB1); [lia|].
  rewrite (store_at A B1 B2) by done. exists (A ++ d ++ B2), B1, (B2 ++ A). rewrite !msize_app. split; [done|]. split; [lia|]. split; [by lsimpl|]. split; [done|].
  destruct (Z.eqb_spec (msize A + msize d) (msize A + (msize B1 + msize B2))) as [E|E].
  - assert (B2 = []) as -> by (apply msize_0_nil; lia). exists [], (A ++ d ++ []). split; [done|]. split; [done|]. split; [|cbn [app]; by rewrite !app_nil_r].
    intros [_ [-> _]%app_nil]%app_nil. rewrite msize_nil in Hd. lia.
  - exists (A ++ d), B2. split; [by lsimpl|]. split; [by rewrite msize_app|]. split; [|by lsimpl]. intros ->. rewrite msize_nil in E. lia.
Qed.

(** The bytes of [l] end in [s]. *)
Definition ends (l s : bytes) : Prop := exists p, l = p ++ s.

Lemma ends_trans a b c : ends a b -> ends b c -> ends a c.
Proof. intros (p & ->) (q & ->). exists (p ++ q). by lsimpl. Qed.

Lemma ends_app a b d : ends a b -> ends (a ++ d) (b ++ d).
Proof. intros (p & ->). exists p. by lsimpl. Qed.

(** Two ends of the same bytes. *)
Lemma ends_shorter l a b : ends l a -> ends l b -> msize b <= msize a -> ends a b.
Proof.
  intros (p & ->) (q & E) Hsz. assert (length p <= length q)%nat as Hle.
  { apply (f_equal length) in E. rewrite !length_app in E. unfold msize in Hsz. lia. }
  exists (drop (length p) q). apply (f_equal (drop (length p))) in E. rewrite drop_app_length, drop_app_le in E by done. done.
Qed.

Section Backlog.
Context {HOST : Host}.

Lemma feed_loop_spec fuel : forall b size idx histlen R ptr pre d post off, ring b idx R -> size = msize b -> size < 2 ^ 63 -> ptr = pre ++ d ++ post -> off = msize pre ->
  msize d <= Z.of_nat fuel -> 0 <= histlen -> histlen + msize d <= LLONG_MAX ->
  exists b' idx' R', feed_loop fuel b size idx histlen ptr off (msize d) = Some (b', idx', histlen + msize d) /\ ring b' idx' R' /\ msize b' = size /\ ends (R ++ d) R'.
Proof.
  induction fuel as [|fuel IH]; intros b size idx histlen R ptr pre d post off Hr -> Hs -> -> Hf Hh Hle; pose proof (msize_nonneg d);
    cbn [feed_loop]; (destruct (Z.eqb_spec (msize d) 0) as [Hz|Hz];
      [apply msize_0_nil in Hz as ->; exists b, idx, R; rewrite msize_nil, Z.add_0_r; split; [done|]; split; [done|]; split; [done|]; exists []; by rewrite app_nil_r|]); [lia|].
  destruct (ring_size b idx R Hr) as [HR Hidx]. rewrite uint_id by lia. rewrite Z.gtb_ltb.
  set (n := if msize d <? msize b - idx then msize d else msize b - idx). assert (0 < n <= msize d /\ n <= msize b - idx) as Hn by (unfold n; destruct (Z.ltb_spec (msize d) (msize b - idx)); lia).
  destruct (split_at d n) as (d1 & d2 & -> & Hd1); [lia|]. rewrite msize_app in *. rewrite (load_at pre d1 (d2 ++ post)) by (done || (by lsimpl) || lia). cbn [obind].
  destruct (ring_write b idx R d1 Hr) as (b' & R1 & R2 & -> & Hb' & -> & HR1 & Hr'); [lia|]. cbn [obind]. rewrite Hd1 in Hr'.
  rewrite ll_arith_Some by (unfold LLONG_MIN, LLONG_MAX in *; lia). cbn [obind]. replace (msize d1 + msize d2 - n) with (msize d2) by lia.
  destruct (IH b' (msize b) _ (histlen + n) (R2 ++ d1) (pre ++ (d1 ++ d2) ++ post) (pre ++ d1) d2 post (msize pre + n) Hr') as (b2 & idx2 & R' & E & Hr2 & Hb2 & He);
    [done|done|by lsimpl|rewrite msize_app; lia|lia|lia|lia|].
  rewrite E. exists b2, idx2, R'. split; [do 2 f_equal; lia|]. split; [done|]. split; [done|].
  eapply ends_trans; [|exact He]. exists R1. by lsimpl.
Qed.

(** * The backlog *)

(** The backlog covers the end of the bytes [D] that were added since it is empty: all of them, or as many as fit. *)
Definition backlog_ok (r : replserver) (D : bytes) : Prop :=
  exists b R T, repl_backlog r = Some b /\ msize b = repl_backlog_size r /\ repl_backlog_size r < 2 ^ 31 - 1 /\ ring b (repl_backlog_idx r) R /\
    ends R T /\ ends D T /\ msize T = repl_backlog_histlen r /\ repl_backlog_histlen r = Z.min (repl_backlog_size r) (msize D) /\
    repl_backlog_off r = master_repl_offset r - repl_backlog_histlen r + 1 /\ 0 <= master_repl_offset r.

(** The offsets stay below this bound. *)
Definition offset_ok (r : replserver) (n : Z) : Prop := master_repl_offset r + n < LLONG_MAX - 2 ^ 32.

Lemma backlog_feed_spec r D (d u : bytes) : backlog_ok r D -> offset_ok r (msize d) ->
  exists r', feedReplicationBacklog r (d ++ u) (msize d) = Some r' /\ backlog_ok r' (D ++ d) /\ master_repl_offset r' = master_repl_offset r + msize d /\
    slaveseldb r' = slaveseldb r /\ repl_backlog_size r' = repl_backlog_size r.
Proof.
  intros (b & R & T & Eb & Hb & Hsz & Hr & HT & HD & Hh & Hmin & Hoff & Hm) Ho. unfold offset_ok, LLONG_MAX in Ho. pose proof (msize_nonneg d).
  unfold feedReplicationBacklog. rewrite ll_arith_Some by (unfold LLONG_MIN, LLONG_MAX; lia). cbn [obind]. rewrite Eb. cbn [obind]. pose proof (msize_nonneg T).
  destruct (feed_loop_spec (Z.to_nat (msize d)) b (repl_backlog_size r) (repl_backlog_idx r) (repl_backlog_histlen r) R (d ++ u) [] d u 0 Hr) as (b' & idx' & R' & E & Hr' & Hb' & He);
    [done|lia|done|done|lia|lia|unfold LLONG_MAX; lia|].
  rewrite E. cbn [obind]. destruct (ring_size _ _ _ Hr) as [HRs Hix]. destruct (ring_size _ _ _ Hr') as [HRs' _]. rewrite Z.gtb_ltb.
  set (hl := if repl_backlog_size r <? repl_backlog_histlen r + msize d then repl_backlog_size r else repl_backlog_histlen r + msize d).
  assert (hl = Z.min (repl_backlog_size r) (repl_backlog_histlen r + msize d)) as Ehl by (unfold hl; destruct (Z.ltb_spec (repl_backlog_size r) (repl_backlog_histlen r + msize d)); lia).
  rewrite ll_arith_Some by (unfold LLONG_MIN, LLONG_MAX; lia). cbn [obind]. eexists. split; [done|]. split; [|done].
  (* the bytes covered *)
  assert (exists T', msize T' = hl /\ ends R' T' /\ ends (T ++ d) T') as (T' & HT' & HR' & HTd).
  { destruct (Z.le_ge_cases (msize T + msize d) (msize R')) as [Hle|Hge].
    - exists (T ++ d). rewrite msize_app. split; [lia|]. split; [|by exists []]. eapply (ends_shorter (R ++ d)); [exact He|by apply ends_app|rewrite msize_app; lia].
    - exists R'. split; [lia|]. split; [by exists []|]. eapply (ends_shorter (R ++ d)); [by apply ends_app|exact He|rewrite msize_app; lia]. }
  exists b', R', T'. cbn [repl_backlog repl_backlog_size repl_backlog_idx repl_backlog_histlen repl_backlog_off master_repl_offset]. rewrite msize_app.
  split; [done|]. split; [done|]. split; [done|]. split; [done|]. split; [done|]. split; [eapply ends_trans; [by apply ends_app|done]|]. split; [done|]. split; [lia|]. lia.
Qed.

Lemma empty_ring n : 0 < n -> ring (zmalloc n) 0 (zmalloc n).
Proof.
  intros Hn. exists [], (zmalloc n). split; [done|]. split; [done|]. split; [|by rewrite app_nil_r]. intros E. apply (f_equal msize) in E.
  unfold zmalloc in E. rewrite msize_fresh, msize_nil in E; lia.
Qed.

Lemma empty_backlog size off seldb : 0 < size < 2 ^ 31 - 1 -> 0 <= off -> backlog_ok (mkRepl (Some (zmalloc size)) size 0 0 (off + 1) off seldb) [].
Proof.
  intros Hs Ho. exists (zmalloc size), (zmalloc size), []. cbn. split; [done|]. split; [unfold zmalloc; rewrite msize_fresh; lia|]. split; [lia|].
  split; [apply empty_ring; lia|]. split; [exists (zmalloc size); by rewrite app_nil_r|]. split; [by exists []|]. rewrite msize_nil. lia.
Qed.

Lemma backlog_create_spec r : repl_backlog r = None -> 0 < repl_backlog_size r < 2 ^ 31 - 1 -> 0 <= master_repl_offset r -> offset_ok r 0 ->
  exists r', createReplicationBacklog r = Some r' /\ backlog_ok r' [] /\ master_repl_offset r' = master_repl_offset r + 1.
Proof.
  intros E Hs Hm Ho. unfold createReplicationBacklog, offset_ok, LLONG_MAX in *. rewrite E, !ll_arith_Some by (unfold LLONG_MIN, LLONG_MAX; lia). cbn [obind].
  rewrite ll_arith_Some by (unfold LLONG_MIN, LLONG_MAX; lia). cbn [obind]. eexists. split; [done|]. split; [|done]. apply empty_backlog; lia.
Qed.

(** After a change of the size the backlog is empty. *)
Lemma backlog_resize_spec r D n : backlog_ok r D -> offset_ok r 0 -> n < 2 ^ 31 - 1 ->
  exists r' D', resizeReplicationBacklog r n = Some r' /\ backlog_ok r' D' /\ ends D D' /\ master_repl_offset r' = master_repl_offset r /\ slaveseldb r' = slaveseldb r.
Proof.
  intros Hok Ho Hn. pose proof Hok as (b & R & T & Eb & _ & _ & _ & _ & _ & _ & _ & _ & Hm). unfold resizeReplicationBacklog, offset_ok, LLONG_MAX in *.
  set (size := if n <? REDIS_REPL_BACKLOG_MIN_SIZE then _ else n).
  assert (0 < size < 2 ^ 31 - 1) as Hs by (unfold size, REDIS_REPL_BACKLOG_MIN_SIZE; destruct (Z.ltb_spec n (1024 * 16)); lia).
  destruct (Z.eqb_spec (repl_backlog_size r) size); [exists r, D; split; [done|]; split; [done|]; split; [by exists []|done]|].
  rewrite Eb, ll_arith_Some by (unfold LLONG_MIN, LLONG_MAX; lia). cbn [obind]. eexists _, []. split; [done|]. split; [by apply empty_backlog; lia|].
  split; [exists D; by rewrite app_nil_r|done].
Qed.

End Backlog.

(** * Reading *)

Section Read.
Context {HOST : Host} {AL : Allocator} {LAWS : AllocatorLaws AL}.
Variable e : reply_env.
Hypothesis He : aeCreateFileEvent_ok e = true.

Lemma adds_sds s d : sds_rep s d -> adds (fun _ _ => True) 1 (fun h c => addReplySds e h c s) d.
Proof. intros Hs ext h c B q I W L _. by apply addReplySds_spec. Qed.

(** One piece of the buffer. *)
Lemma adds_piece fuel (P X Y : bytes) size j len : size = msize P + msize X + msize Y -> size < 2 ^ 31 - 1 -> j = msize P -> 0 < msize X <= len -> (Y = [] \/ msize X = len) ->
  forall k Z, 0 <= k -> adds (fun _ _ => True) k (fun h c => backlog_loop fuel e h c (P ++ X ++ Y) size 0 (len - msize X)) Z ->
  adds (fun _ _ => True) (1 + k) (fun h c => backlog_loop (S fuel) e h c (P ++ X ++ Y) size j len) (X ++ Z).
Proof.
  intros Hs Hlt -> Hx Hxy k Z Hk Hrest. pose proof (msize_nonneg P). pose proof (msize_nonneg Y). cbn [backlog_loop]. rewrite (proj2 (Z.eqb_neq len 0)) by lia.
  set (n := if _ <? len then _ else len). assert (n = msize X) as -> by (unfold n; destruct (Z.ltb_spec (size - msize P) len); destruct Hxy as [->|]; rewrite ?msize_nil in *; lia).
  rewrite (load_at P (X ++ Y) []) by (rewrite ?app_nil_r; done || (rewrite msize_app; lia)). cbn [obind].
  destruct (sdsnewlen_rep X Y) as (s & -> & Hsr & _); [lia|]. cbn [obind]. apply adds_seq; [apply kept_true|lia|lia|by apply adds_sds|done].
Qed.

Lemma adds_done fuel b size j : adds (fun _ _ => True) 0 (fun h c => backlog_loop fuel e h c b size j 0) [].
Proof. destruct fuel; apply adds_nothing. Qed.

Lemma adds_last fuel (P X Y : bytes) size : size = msize P + msize X + msize Y -> size < 2 ^ 31 - 1 -> 0 < msize X ->
  adds (fun _ _ => True) 1 (fun h c => backlog_loop (S fuel) e h c (P ++ X ++ Y) size (msize P) (msize X)) X.
Proof.
  intros Hs Hlt Hx. assert (adds (fun _ _ => True) 0 (fun h c => backlog_loop fuel e h c (P ++ X ++ Y) size 0 (msize X - msize X)) []) as Hd by (rewrite Z.sub_diag; apply adds_done).
  pose proof (adds_piece fuel P X Y size (msize P) (msize X) Hs Hlt eq_refl ltac:(lia) (or_intror eq_refl) 0 [] ltac:(lia) Hd) as Hp. by rewrite app_nil_r in Hp.
Qed.

(** The contents from position [msize K] on. *)
Lemma adds_ring b idx R K X : ring b idx R -> R = K ++ X -> msize b < 2 ^ 31 - 1 ->
  adds (fun _ _ => True) 2 (fun h c => backlog_loop 2 e h c b (msize b) ((idx + msize K) mod msize b) (msize X)) X.
Proof.
  intros (A & B & -> & <- & HB & ->) E Hlt. assert (msize (A ++ B) = msize K + msize X) as Esz by (rewrite <- msize_app, <- E, !msize_app; lia).
  rewrite msize_app in *. pose proof (msize_nonneg A). pose proof (msize_nonneg K). pose proof (msize_nonneg X). symmetry in E.
  destruct (Z.eq_dec (msize X) 0) as [Hz|Hz].
  { apply msize_0_nil in Hz as ->. rewrite msize_nil. apply (adds_weaken (fun _ _ => True) _ 0); [done|lia|apply adds_done]. }
  destruct (Z.lt_ge_cases (msize K) (msize B)) as [Hk|Hk].
  - (* the first piece is at the end of the buffer *)
    destruct (app_split_lt K X B A E Hk) as (B2 & <- & HB2). rewrite <- app_assoc in E. apply app_inv_head in E as ->. rewrite !msize_app in *.
    assert (0 < msize B2) by (destruct B2; [done|]; rewrite msize_cons; pose proof (msize_nonneg B2); lia). rewrite Z.mod_small by lia.
    replace (A ++ K ++ B2) with ((A ++ K) ++ B2 ++ []) by (rewrite app_nil_r; by lsimpl).
    apply (adds_piece 1 (A ++ K) B2 []) with (k := 1); [rewrite msize_app, msize_nil; lia|lia|by rewrite msize_app|lia|by left|lia|].
    replace (msize B2 + msize A - msize B2) with (msize A) by lia. destruct (Z.eq_dec (msize A) 0) as [Ha|Ha].
    { apply msize_0_nil in Ha as ->. rewrite msize_nil. apply (adds_weaken (fun _ _ => True) _ 0); [done|lia|apply adds_done]. }
    replace ((A ++ K) ++ B2 ++ []) with ([] ++ A ++ (K ++ B2)) by (rewrite app_nil_r; by lsimpl).
    apply (adds_last 0 [] A (K ++ B2)); [rewrite msize_app, msize_nil; lia|lia|lia].
  - (* what is left is at the start of the buffer *)
    destruct (app_split_ge K X B A E Hk) as (A1 & -> & <-). rewrite !msize_app in *. pose proof (msize_nonneg A1). pose proof (msize_nonneg B).
    replace ((msize A1 + msize X + (msize B + msize A1)) mod (msize A1 + msize X + msize B)) with (msize A1).
    2:{ replace (msize A1 + msize X + (msize B + msize A1)) with (msize A1 + 1 * (msize A1 + msize X + msize B)) by lia. rewrite Z.mod_add, Z.mod_small by lia. done. }
    rewrite <- app_assoc. apply (adds_weaken (fun _ _ => True) _ 1); [done|lia|]. apply (adds_last 1 A1 X B); lia.
Qed.

(** The bytes from an offset on. *)
Lemma backlog_reply r D ext h c B q offset : backlog_ok r D -> out_inv ext h c B q -> writable c -> limit_ok c 2 ->
  repl_backlog_off r <= offset <= repl_backlog_off r + repl_backlog_histlen r -> offset_ok r 0 ->
  exists P X h' c', D = P ++ X /\ msize X = master_repl_offset r + 1 - offset /\
    addReplyReplicationBacklog e r h c offset = Some (h', c', msize X) /\ queued ext h c B q 2 X h' c'.
Proof.
  intros (b & R & T & Eb & Hb & Hsz & Hr & (J & HJ) & (P & HP) & Hh & Hmin & Hoff & Hm) I W L Ho Hok. unfold addReplyReplicationBacklog, offset_ok, LLONG_MAX in *.
  destruct (ring_size _ _ _ Hr) as [HR Hidx]. pose proof (msize_nonneg T). destruct (split_at T (offset - repl_backlog_off r)) as (T1 & X & -> & HT1); [lia|]. rewrite msize_app in *.
  destruct (Z.eqb_spec (repl_backlog_histlen r) 0) as [Hz|Hz].
  { pose proof (msize_nonneg T1). pose proof (msize_nonneg X). assert (X = []) as -> by (apply msize_0_nil; lia). assert (T1 = []) as -> by (apply msize_0_nil; lia).
    destruct (adds_weaken _ (fun _ _ => True) 0 2 _ _ ltac:(done) ltac:(lia) adds_nothing ext h c B q I W L Logic.I) as (h' & c' & [= <- <-] & Q).
    exists P, [], h, c. cbn [app] in HP. split; [done|]. rewrite msize_nil in *. split; [lia|]. split; [done|done]. }
  rewrite Eb. cbn [obind]. rewrite ll_arith_Some by (unfold LLONG_MIN, LLONG_MAX; lia). cbn [obind].
  assert (repl_backlog_size r = msize b) as Esz by done. rewrite HJ, !msize_app in HR. pose proof (msize_nonneg J). pose proof (msize_nonneg X).
  rewrite !Z.rem_mod_nonneg by (try apply Z.add_nonneg_nonneg; try apply Z.rem_nonneg; lia). rewrite Z.add_mod_idemp_l by lia.
  replace (repl_backlog_histlen r - (offset - repl_backlog_off r)) with (msize X) by lia.
  replace (repl_backlog_idx r + (repl_backlog_size r - repl_backlog_histlen r) + (offset - repl_backlog_off r)) with (repl_backlog_idx r + msize (J ++ T1)) by (rewrite msize_app; lia).
  rewrite app_assoc in HJ. rewrite Esz. destruct (adds_ring b _ R (J ++ T1) X Hr HJ ltac:(lia) ext h c B q I W L Logic.I) as (h' & c' & -> & Q). cbn [obind].
  exists (P ++ T1), X, h', c'. split; [by rewrite <- app_assoc|]. split; [lia|]. done.
Qed.

End Read.
