(* ===== verification/ReplicationSpec.v ===== *)
(** Replication: what the backlog and the slaves are fed with. *)

From stdpp Require Import gmap relations.
From S2P Require Import Prelude Util Sds SdsRep RioSpec Networking NetworkingSpec Aof AofSpec Reply ReplySpec ReplyOps ReplySend ReplyDefer ReplyHistory ReplyClients Replication Backlog.

Section Feed.
Context {HOST : Host} {AL : Allocator} {LAWS : AllocatorLaws AL}.
Variable shared : sharedObjects.

(** * The backlog *)

Lemma aux_header_spec aux prefix n : msize aux = 24 -> is_byte prefix -> LLONG_MIN < n <= LLONG_MAX ->
  exists rest, aux_header aux prefix n = Some (count_bytes prefix (printf_d n) ++ rest, msize (printf_d n)) /\
    msize (count_bytes prefix (printf_d n) ++ rest) = 24 /\ msize (printf_d n) <= 20.
Proof.
  intros Ha Hp Hn. unfold aux_header. destruct aux as [|x tl]; [done|]. rewrite msize_cons in Ha. rewrite (store8_at [] x tl) by done. cbn [obind app].
  rewrite (uint_id 8) by (unfold is_byte in Hp; lia). rewrite (load_at [prefix] tl []) by (rewrite ?app_nil_r, ?msize_cons; done || lia). cbn [obind].
  replace (msize (prefix :: tl) - 1) with (msize tl) by (rewrite msize_cons; lia).
  destruct (ll2string_printf tl (msize tl) n Hn) as (rest & -> & Hds & Hrest); [lia|lia|]. cbn [obind]. set (ds := printf_d n) in *.
  rewrite (store_at [prefix] tl []); [|by rewrite app_nil_r|done|msolve]. cbn [obind]. rewrite app_nil_r.
  destruct rest as [|y rest]; [rewrite msize_nil in Hrest; lia|]. rewrite msize_cons in Hrest.
  rewrite (store8_at (prefix :: ds) 0 (y :: rest)) by (done || msolve). cbn [obind].
  rewrite (store8_at (prefix :: ds ++ [13]) y rest) by (done || (lsimpl; done) || msolve). cbn [obind]. exists rest.
  split; [do 2 f_equal; unfold count_bytes; by lsimpl|]. split; [unfold count_bytes; msolve|lia].
Qed.

(** The bytes are added to the stream. *)
Definition fed (r : replserver) (D : bytes) (d : bytes) (r' : replserver) : Prop :=
  backlog_ok r' (D ++ d) /\ master_repl_offset r' = master_repl_offset r + msize d /\ slaveseldb r' = slaveseldb r /\ repl_backlog_size r' = repl_backlog_size r.

Lemma fed_trans r D d r1 d1 r2 : fed r D d r1 -> fed r1 (D ++ d) d1 r2 -> fed r D (d ++ d1) r2.
Proof.
  intros (H1 & H2 & H3 & H4) (G1 & G2 & G3 & G4). unfold fed. rewrite msize_app. split; [by rewrite app_assoc|]. split; [lia|]. split; congruence.
Qed.

Lemma object_len ext h o a : has ext h o a -> stringObjectLen h o = Some (msize a).
Proof.
  intros (_ & ob & E & [(s & Es & Hs & _)|(v & Ev & Hv & ->)]); unfold stringObjectLen; rewrite E; cbn [obind].
  - rewrite Es. by destruct (sds_rep_len s a Hs) as [-> _].
  - rewrite Ev. destruct (ll2string_printf (zmalloc 32) 32 v Hv) as (rest & -> & _); [lia|unfold zmalloc; rewrite msize_fresh; lia|]. done.
Qed.

Lemma has_size ext h o a : has ext h o a -> msize a < 2 ^ 31.
Proof.
  intros (_ & ob & E & [(s & Es & Hs & _)|(v & Ev & Hv & ->)]); [destruct (sds_rep_len s a Hs) as [_ ?]; lia|].
  destruct (ll2string_printf (zmalloc 32) 32 v Hv) as (rest & _ & ? & _); [lia|unfold zmalloc; rewrite msize_fresh; lia|lia].
Qed.

Lemma feed_object ext h o a r D : has ext h o a -> backlog_ok r D -> offset_ok r (msize a) ->
  exists r', feedReplicationBacklogWithObject r h o = Some r' /\ fed r D a r'.
Proof.
  intros (_ & ob & E & [(s & Es & Hs & _)|(v & Ev & Hv & ->)]) Hok Ho; unfold feedReplicationBacklogWithObject; rewrite E; cbn [obind].
  - rewrite Es. destruct (sds_rep_len s a Hs) as [-> _]. destruct (sds_rep_buf s a Hs) as (fr & ->). by apply backlog_feed_spec.
  - rewrite Ev. destruct (ll2string_printf (zmalloc REDIS_LONGSTR_SIZE) REDIS_LONGSTR_SIZE v Hv) as (rest & -> & _);
      [unfold REDIS_LONGSTR_SIZE; lia|unfold zmalloc, REDIS_LONGSTR_SIZE; rewrite msize_fresh; lia|]. cbn [obind]. by apply backlog_feed_spec.
Qed.

Lemma feed_args_spec ext h argv args : Forall2 (has ext h) argv args -> forall r D aux, backlog_ok r D -> msize aux = 24 -> offset_ok r (msize (concat (arg_bytes <$> args))) ->
  exists r', feed_args r h aux argv = Some r' /\ fed r D (concat (arg_bytes <$> args)) r'.
Proof.
  induction 1 as [|o a argv args Ho _ IH]; intros r D aux Hok Ha Hoff.
  { exists r. split; [done|]. cbn. unfold fed. rewrite app_nil_r, msize_nil, Z.add_0_r. done. }
  rewrite fmap_cons in Hoff |- *. cbn [concat feed_args] in *. rewrite (object_len ext h o a Ho). cbn [obind]. pose proof (has_size ext h o a Ho). pose proof (msize_nonneg a).
  destruct (aux_header_spec aux 36 (msize a) Ha) as (rest & -> & Ha' & Hds); [done|unfold LLONG_MIN, LLONG_MAX; lia|]. cbn [obind]. set (ds := printf_d (msize a)) in *.
  rewrite msize_app in Hoff. unfold offset_ok, arg_bytes, bulk_bytes in *. fold ds in Hoff. rewrite !msize_app in Hoff. pose proof (msize_nonneg (concat ((fun a => (count_bytes 36 (printf_d (msize a)) ++ a ++ [13; 10])) <$> args))).
  replace (msize ds + 3) with (msize (count_bytes 36 ds)) by (unfold count_bytes; msolve). change (msize [13; 10]) with 2 in Hoff.
  destruct (backlog_feed_spec r D (count_bytes 36 ds) rest Hok) as (r1 & -> & F1); [unfold offset_ok; lia|]. cbn [obind]. pose proof F1 as (K1 & E1 & _).
  destruct (feed_object ext h o a r1 _ Ho K1) as (r2 & -> & F2); [unfold offset_ok; lia|]. cbn [obind]. pose proof F2 as (K2 & E2 & _).
  rewrite (load_at (36 :: ds) ([13; 10] ++ rest) []) by (rewrite ?app_nil_r; unfold count_bytes in *; (by lsimpl) || msolve). cbn [obind].
  destruct (backlog_feed_spec r2 _ [13; 10] rest K2) as (r3 & E3' & F3); [unfold offset_ok; change (msize [13; 10]) with 2; lia|]. change (msize [13; 10]) with 2 in E3'. rewrite E3'. cbn [obind].
  pose proof F3 as (K3 & E3 & _). change (msize [13; 10]) with 2 in E3. destruct (IH r3 _ (count_bytes 36 ds ++ rest) K3 Ha') as (r4 & -> & F4); [lia|].
  exists r4. split; [done|]. rewrite <- (app_assoc _ _ (concat _)), <- (app_assoc a). eapply fed_trans; [exact F1|]. eapply fed_trans; [exact F2|]. eapply fed_trans; [exact F3|exact F4].
Qed.

(** * The slaves *)

Lemma for_slaves_spec ext P k f d : kept P -> monotone P ->
  (forall ext h c B q, out_inv ext h c B q -> writable c -> limit_ok c k -> P ext h -> exists h' c', f h c = Some (h', c') /\ queued ext h c B q k (d c) h' c') ->
  forall g pre h, group_ok ext h (pre ++ g) -> P ext h -> Forall (fun p => writable p.1 /\ limit_ok p.1 k) g ->
  exists h' g', for_slaves f h g.*1 = Some (h', g'.*1) /\ group_ok ext h' (pre ++ g') /\ keeps ext h h' /\ Forall2 (fun p p' => grown k (d p.1) p p') g g'.
Proof.
  intros HP Hm Hf g. induction g as [|[c o] g IH]; intros pre h Hok HPh Hw.
  { exists h, []. split; [done|]. split; [done|]. split; [apply keeps_refl|constructor]. }
  apply list.Forall_cons in Hw as [[Hw Hl] Hws]. rewrite fmap_cons. cbn [for_slaves fst] in *.
  destruct (grow_one ext h pre c o g P k f (d c) Hok Hm HPh) as (h1 & c1 & o1 & -> & Hok1 & K1 & G1); [intros ext1 h1 B q I1 HP1; by apply Hf|].
  cbn [obind]. change ((c1, o1) :: g) with ([(c1, o1)] ++ g) in Hok1. rewrite app_assoc in Hok1.
  destruct (IH _ h1 Hok1 (HP ext h h1 K1 HPh) Hws) as (h2 & g2 & -> & Hok2 & K2 & G2). cbn [obind]. rewrite <- app_assoc in Hok2.
  exists h2, ((c1, o1) :: g2). split; [done|]. split; [done|]. split; [by eapply keeps_trans|]. by constructor.
Qed.

Definition args_ok (argv : list oid) (args : list bytes) (ext : oid -> Z) (h : heap) : Prop := shared_ok shared ext h /\ Forall2 (has ext h) argv args.

Lemma kept_args argv args : kept (args_ok argv args).
Proof.
  intros ext h h' Hk [H1 H2]. split; [by apply (kept_shared shared ext h)|]. eapply Forall2_impl; [|exact H2]. intros o a Ho. by apply (has_keeps ext h).
Qed.

Lemma mono_has o a : monotone (fun ext h => has ext h o a).
Proof. intros ext cs h [H1 H2]. split; [|done]. unfold plus. pose proof (occ_nonneg o (lists cs)). lia. Qed.

Lemma mono_shared : monotone (shared_ok shared).
Proof.
  intros ext cs h (H1 & H2 & H3 & H4 & H5). split; [|split; [|split; [|split]]]; try by apply mono_has.
  - intros n Hn. destruct (H1 n Hn) as (o & Eo & Ho). exists o. split; [done|]. by apply (mono_has o).
  - intros n Hn. destruct (H2 n Hn) as (o & Eo & Ho). exists o. split; [done|]. by apply (mono_has o).
Qed.

Lemma mono_args argv args : monotone (args_ok argv args).
Proof. intros ext cs h [H1 H2]. split; [by apply mono_shared|]. eapply Forall2_impl; [|exact H2]. intros o a. apply (mono_has o a ext cs h). Qed.

Section Env.
Variable e : reply_env.
Hypothesis He : aeCreateFileEvent_ok e = true.

Lemma adds_bulk_args argv : forall args, adds (args_ok argv args) (3 * msize argv) (fun h c => bulk_args shared e h c argv) (concat (arg_bytes <$> args)).
Proof.
  induction argv as [|o argv IH]; intros args ext h c B q I W L Hargs; pose proof Hargs as [_ Ha].
  { apply list.Forall2_nil_inv_l in Ha as ->. by apply (adds_weaken _ (fun _ _ => True) 0 (3 * msize [])%Z _ _ ltac:(done) ltac:(done) adds_nothing ext h c B q). }
  apply list.Forall2_cons_inv_l in Ha as (a & args' & Ho & Ha & ->). rewrite fmap_cons. cbn [concat]. rewrite msize_cons in *. pose proof (msize_nonneg argv).
  replace (3 * (1 + msize argv)) with (3 + 3 * msize argv) in * by lia.
  apply (adds_seq (args_ok (o :: argv) (a :: args')) 3 (3 * msize argv) (fun h c => addReplyBulk shared e h c o) (fun h c => bulk_args shared e h c argv)) with (B := B) (q := q); try done; try lia.
  - apply kept_args.
  - eapply (adds_weaken (bulk_ok shared o a)); [|done|by apply adds_bulk]. intros ext1 h1 [H1 H2]. apply list.Forall2_cons in H2 as [H2 _]. done.
  - eapply (adds_weaken (args_ok argv args')); [|done|apply IH]. intros ext1 h1 [H1 H2]. apply list.Forall2_cons in H2 as [_ H2]. done.
Qed.

(** What a slave is sent for a command. *)
Definition command_for (args : list bytes) (c : rclient) : bytes := if bool_decide (replstate c = REDIS_REPL_WAIT_BGSAVE_START) then [] else cmd_bytes args.

Lemma feed_slave_spec argv args ext h c B q : out_inv ext h c B q -> writable c -> limit_ok c (1 + 3 * msize argv) -> args_ok argv args ext h -> msize argv < 2 ^ 31 ->
  exists h' c', feed_slave shared e argv h c = Some (h', c') /\ queued ext h c B q (1 + 3 * msize argv) (command_for args c) h' c'.
Proof.
  intros I W L Ha Hlt. pose proof (msize_nonneg argv). unfold feed_slave, command_for. destruct (bool_decide_reflect (replstate c = REDIS_REPL_WAIT_BGSAVE_START)).
  { by apply (adds_weaken _ (fun _ _ => True) 0 (1 + 3 * msize argv) _ _ ltac:(done) ltac:(lia) adds_nothing ext h c B q). }
  assert (msize argv = msize args) as Elen by (destruct Ha as [_ Ha]; apply Forall2_length in Ha; unfold msize; lia). unfold cmd_bytes. rewrite <- Elen.
  apply (adds_seq (args_ok argv args) 1 (3 * msize argv) (fun h c => addReplyMultiBulkLen shared e h c (msize argv)) (fun h c => bulk_args shared e h c argv)) with (B := B) (q := q);
    try done; try lia; [apply kept_args| |apply adds_bulk_args].
  eapply (adds_weaken (shared_ok shared)); [|done|apply adds_multibulk; [done|unfold LLONG_MAX; lia]]. by intros ext1 h1 [H1 _].
Qed.

(** ** SELECT *)

Definition select_bytes (sel dictid : Z) : bytes := if sel =? dictid then [] else cmd_bytes [s_SELECT; printf_d dictid].

Definition select_ok (ext : oid -> Z) (h : heap) : Prop :=
  forall n, 0 <= n < REDIS_SHARED_SELECT_CMDS -> exists o, select shared !! Z.to_nat n = Some o /\ has ext h o (cmd_bytes [s_SELECT; printf_d n]).

Lemma selectcmd_spec ext h dictid : in_sint 32 dictid -> select_ok ext h ->
  (exists o, selectcmd shared h dictid = Some (h, o, false) /\ has ext h o (cmd_bytes [s_SELECT; printf_d dictid])) \/
  (exists o ob, selectcmd shared h dictid = Some (<[o := ob]> h, o, true) /\ h !! o = None /\ refcount ob = 1 /\
     has (hold_one ext o) (<[o := ob]> h) o (cmd_bytes [s_SELECT; printf_d dictid])).
Proof.
  intros Hd Hs. unfold selectcmd. unfold in_sint in Hd. destruct ((0 <=? dictid) && (dictid <? REDIS_SHARED_SELECT_CMDS)) eqn:E.
  - left. apply andb_true_iff in E as [H1%Z.leb_le H2%Z.ltb_lt]. destruct (Hs dictid) as (o & Eo & Ho); [lia|]. exists o. unfold index.
    rewrite (proj2 (Z.ltb_ge dictid 0)), Eo by lia. done.
  - right. destruct (ll2string_printf (zmalloc REDIS_LONGSTR_SIZE) REDIS_LONGSTR_SIZE dictid) as (rest & -> & Hsz & _);
      [unfold LLONG_MIN, LLONG_MAX; lia|unfold REDIS_LONGSTR_SIZE; lia|unfold zmalloc, REDIS_LONGSTR_SIZE; rewrite msize_fresh; lia|]. cbn [obind].
    rewrite (load_at [] (printf_d dictid) (0 :: rest)) by done. cbn [obind]. rewrite select_format_bytes by done.
    destruct sdsempty_rep as (s0 & -> & Hs0 & _). cbn [obind].
    destruct (sdscatprintf_rep s0 [] _ Hs0 (cmd_bytes_line dictid Hd)) as (s & -> & Hsr).
    { rewrite msize_nil, <- select_format_bytes by done. unfold select_format. rewrite !msize_app. change (msize s_SELECT) with 6.
      destruct (ll2string_printf (zmalloc 32) 32 (msize (printf_d dictid))) as (_ & _ & ? & _); [unfold LLONG_MIN, LLONG_MAX; lia|lia|unfold zmalloc; rewrite msize_fresh; lia|].
      rewrite !msize_cons, !msize_nil. lia. }
    cbn [obind]. unfold createObject. destruct (fresh_object h (mkObj 1 REDIS_ENCODING_RAW (PSds s))) as (o & -> & Hfr). eexists o, _. split; [done|]. split; [done|]. split; [done|].
    split; [unfold hold_one; by rewrite bool_decide_eq_true_2|]. eexists. split; [by apply lookup_insert_eq|]. left. by exists s.
Qed.

Lemma feed_select_spec ext m g D dictid : slaves m = g.*1 -> group_ok ext (mheap m) g -> select_ok ext (mheap m) -> backlog_ok (srv m) D -> in_sint 32 dictid ->
  Forall (fun p => writable p.1 /\ limit_ok p.1 1) g -> offset_ok (srv m) (msize (select_bytes (slaveseldb (srv m)) dictid)) ->
  exists r' h' g', feed_select shared e m dictid = Some (mkMaster r' h' g'.*1 (repl_good_slaves_count m)) /\ fed (srv m) D (select_bytes (slaveseldb (srv m)) dictid) r' /\
    group_ok ext h' g' /\ keeps ext (mheap m) h' /\ Forall2 (grown 1 (select_bytes (slaveseldb (srv m)) dictid)) g g'.
Proof.
  intros Eg Hg Hsel Hok Hd Hw Hoff. unfold feed_select, select_bytes in *. destruct (Z.eqb_spec (slaveseldb (srv m)) dictid) as [E|E]; cbn [negb].
  { exists (srv m), (mheap m), g. split; [destruct m; cbn in *; by rewrite <- Eg|]. split; [unfold fed; rewrite app_nil_r, msize_nil; by rewrite Z.add_0_r|]. split; [done|].
    split; [apply keeps_refl|]. clear. induction g; constructor; [by apply grown_nil|done]. }
  assert (exists b, repl_backlog (srv m) = Some b) as [b Eb] by (destruct Hok as (b & ? & ? & ? & _); by exists b).
  set (cmd := cmd_bytes [s_SELECT; printf_d dictid]) in *.
  assert (forall o ext1 h1, has ext1 h1 o cmd -> group_ok ext1 h1 g -> exists r' h' g', feedReplicationBacklogWithObject (srv m) h1 o = Some r' /\ fed (srv m) D cmd r' /\
    for_slaves (fun h c => addReply e h c o) h1 (slaves m) = Some (h', g'.*1) /\ group_ok ext1 h' g' /\ keeps ext1 h1 h' /\ Forall2 (grown 1 cmd) g g') as Hrun.
  { intros o ext1 h1 Ho Hg1. destruct (feed_object ext1 h1 o cmd (srv m) D Ho Hok Hoff) as (r' & Er & F). exists r'.
    destruct (for_slaves_spec ext1 (fun ext h => has ext h o cmd) 1 (fun h c => addReply e h c o) (fun _ => cmd) (kept_has o cmd) (mono_has o cmd)
      (fun ext2 h2 c2 B2 q2 I2 W2 L2 P2 => addReply_spec e ext2 h2 c2 B2 q2 o cmd He I2 W2 L2 P2) g [] h1 Hg1 Ho Hw) as (h' & g' & Ef & Hg' & K' & G'). rewrite Eg. by exists h', g'. }
  rewrite Eb. destruct (selectcmd_spec ext (mheap m) dictid Hd Hsel) as [(o & -> & Ho)|(o & ob & -> & Hfr & Hrc & Ho)]; cbn [obind].
  - destruct (Hrun o ext (mheap m) Ho Hg) as (r' & h' & g' & -> & F & Ef & Hg' & K' & G'). cbn [obind]. rewrite Ef. cbn [obind]. by exists r', h', g'.
  - destruct (group_acquire ext (mheap m) g o ob Hg Hfr Hrc) as [Hg1 K1].
    destruct (Hrun o _ _ Ho Hg1) as (r' & h' & g' & -> & F & Ef & Hg' & K' & G'). cbn [obind]. rewrite Ef. cbn [obind].
    assert (ext o = 0) as Hz by (destruct Hg as [Hr _]; specialize (Hr o); rewrite Hfr in Hr; lia).
    destruct (group_release ext h' g' o Hg' Hz) as (h2 & -> & Hg2 & K2). cbn [obind]. exists r', h2, g'. split; [done|]. split; [done|]. split; [done|].
    split; [|done]. eapply keeps_trans; [exact K1|]. eapply keeps_trans; [by eapply keeps_hold|done].
Qed.

Lemma kept_select : kept select_ok.
Proof. intros ext h h' Hk Hs n Hn. destruct (Hs n Hn) as (o & Eo & Ho). exists o. split; [done|]. by apply (has_keeps ext h). Qed.

(** ** Commands *)

(** What a command adds to the replication stream, and to the output of a slave. *)
Definition command_bytes (sel dictid : Z) (args : list bytes) : bytes := log_bytes (with_select sel dictid [args]).

Definition sent_to (sel dictid : Z) (args : list bytes) (c : rclient) : bytes := select_bytes sel dictid ++ command_for args c.

Lemma command_bytes_eq sel dictid args : command_bytes sel dictid args = select_bytes sel dictid ++ cmd_bytes args.
Proof.
  unfold command_bytes, with_select, select_bytes. rewrite Z.eqb_sym. destruct (sel =? dictid); unfold log_bytes; cbn [negb fmap list_fmap concat]; by rewrite ?app_nil_r.
Qed.

Lemma backlog_seldb r D n : backlog_ok r D -> backlog_ok (set_seldb r n) D.
Proof. done. Qed.

Lemma feed_command_spec ext m g D dictid argv args : slaves m = g.*1 -> group_ok ext (mheap m) g -> select_ok ext (mheap m) -> args_ok argv args ext (mheap m) ->
  backlog_ok (srv m) D -> in_sint 32 dictid -> msize argv < 2 ^ 31 -> Forall (fun p => writable p.1 /\ limit_ok p.1 (2 + 3 * msize argv)) g ->
  offset_ok (srv m) (msize (command_bytes (slaveseldb (srv m)) dictid args)) ->
  exists m' g', replicationFeedSlaves shared e m dictid argv = Some m' /\ slaves m' = g'.*1 /\ group_ok ext (mheap m') g' /\ keeps ext (mheap m) (mheap m') /\
    backlog_ok (srv m') (D ++ command_bytes (slaveseldb (srv m)) dictid args) /\ slaveseldb (srv m') = dictid /\ repl_good_slaves_count m' = repl_good_slaves_count m /\
    master_repl_offset (srv m') = master_repl_offset (srv m) + msize (command_bytes (slaveseldb (srv m)) dictid args) /\
    Forall2 (fun p p' => grown (2 + 3 * msize argv) (sent_to (slaveseldb (srv m)) dictid args p.1) p p') g g'.
Proof.
  intros Eg Hg Hsel Hargs Hok Hd Hlt Hw Hoff. pose proof HM2 as HM'. pose proof (msize_nonneg argv). rewrite command_bytes_eq, msize_app in *. unfold cmd_bytes in Hoff at 1. rewrite msize_app in Hoff.
  unfold offset_ok in Hoff. set (sel := select_bytes (slaveseldb (srv m)) dictid) in *. set (hdr := count_bytes 42 (printf_d (msize args))) in *. set (more := concat (arg_bytes <$> args)) in *.
  pose proof (msize_nonneg hdr). pose proof (msize_nonneg more). pose proof (msize_nonneg sel).
  assert (msize argv = msize args) as Elen by (destruct Hargs as [_ Ha]; apply Forall2_length in Ha; unfold msize; lia).
  destruct (feed_select_spec ext m g D dictid Eg Hg Hsel Hok Hd) as (r1 & h1 & g1 & Es & F1 & Hg1 & K1 & G1).
  { eapply list.Forall_impl; [exact Hw|]. intros p [? ?]. split; [done|]. unfold limit_ok in *. nia. }
  { change (offset_ok (srv m) (msize sel)). unfold offset_ok. lia. }
  fold sel in F1, G1. assert (exists b, repl_backlog (srv m) = Some b) as [b Eb] by (destruct Hok as (b & ? & ? & ? & _); by exists b).
  unfold replicationFeedSlaves. rewrite Eb, Es. cbn [obind srv mheap slaves repl_good_slaves_count]. pose proof F1 as (B1 & O1 & S1 & Z1).
  assert (exists b1, repl_backlog (set_seldb r1 dictid) = Some b1) as [b1 ->] by (destruct B1 as (b1 & ? & ? & ? & _); by exists b1).
  destruct (aux_header_spec (zmalloc (REDIS_LONGSTR_SIZE + 3)) 42 (msize argv)) as (rest & -> & Hx & Hds); [unfold zmalloc, REDIS_LONGSTR_SIZE; rewrite msize_fresh; lia|done|unfold LLONG_MIN, LLONG_MAX; lia|].
  cbn [obind]. rewrite Elen in *. fold hdr in Hx |- *. replace (msize (printf_d (msize args)) + 3) with (msize hdr) by (unfold hdr, count_bytes; msolve).
  destruct (backlog_feed_spec (set_seldb r1 dictid) (D ++ sel) hdr rest (backlog_seldb r1 _ dictid B1)) as (r2 & -> & F2); [unfold offset_ok; cbn; lia|]. cbn [obind]. pose proof F2 as (B2 & O2 & S2 & Z2).
  pose proof (kept_args argv args ext _ _ K1 Hargs) as Ha1.
  destruct (feed_args_spec ext h1 argv args (proj2 Ha1) r2 _ (hdr ++ rest) B2 Hx) as (r3 & -> & F3); [unfold offset_ok; fold more; cbn in O2; lia|]. cbn [obind]. fold more in F3.
  destruct (for_slaves_spec ext (args_ok argv args) (1 + 3 * msize argv) (feed_slave shared e argv) (command_for args) (kept_args argv args) (mono_args argv args)
    (fun ext2 h2 c2 B2 q2 I2 W2 L2 P2 => feed_slave_spec argv args ext2 h2 c2 B2 q2 I2 W2 L2 P2 ltac:(lia)) g1 [] h1 Hg1 Ha1) as (h2 & g2 & -> & Hg2 & K2 & G2).
  { clear -Hw G1 Elen HM'. revert Hw. induction G1 as [|p p1 g g1 (S & R & _) _ IH]; intros Hw; [done|]. apply list.Forall_cons in Hw as [[W L] Hw]. constructor; [|by apply IH].
    split; [by apply S|]. unfold limit_ok in *. rewrite Elen. lia. }
  cbn [obind]. exists (mkMaster r3 h2 g2.*1 (repl_good_slaves_count m)), g2. destruct F3 as (B3 & O3 & S3 & Z3). cbn [srv slaves mheap repl_good_slaves_count].
  split; [done|]. split; [done|]. split; [done|]. split; [by eapply keeps_trans|]. split; [unfold cmd_bytes; fold hdr more; by rewrite <- !app_assoc in B3|].
  split; [rewrite S3, S2; done|]. split; [done|]. split; [unfold cmd_bytes; fold hdr more; rewrite msize_app; cbn in O2; lia|].
  replace (2 + 3 * msize args) with (1 + (1 + 3 * msize argv)) by lia. clear -G1 G2. revert g2 G2. induction G1 as [|p p1 g g1 Hp _ IH]; intros g2 G2; [by apply list.Forall2_nil_inv_l in G2 as ->; constructor|].
  apply list.Forall2_cons_inv_l in G2 as (p2 & g2' & Hp2 & G2 & ->). constructor; [|by apply IH]. unfold sent_to. pose proof Hp as (S & _).
  replace (command_for args p.1) with (command_for args p1.1) by (unfold command_for; by rewrite (st_repl _ _ S)). by eapply grown_trans.
Qed.

End Env.

End Feed.
