(* ===== verification/FullSync.v ===== *)
(** Full resynchronisation (replication.c): slaves that wait for a dump, receive the file and go online, with the part of
    rdb.c that starts and ends a background save.

    The results of system calls ([fork], [open], [write], [aeCreateFileEvent]) and the clock are arguments; a file that is open is its contents. *)

From stdpp Require Import gmap.
From S2P Require Import Prelude Util Sds SdsArgs SdsRep Rdb Networking Aof Reply Replication.

(** * The server *)

(** The fields of [server] for background saves. *)
Record rdb_status := mkRdbStatus {
  dirty : Z; dirty_before_bgsave : Z; lastsave : Z; lastbgsave_try : Z; lastbgsave_ok : bool; rdb_save_time_start : Z; rdb_save_time_last : Z
}.

(** [rdb_child] is [rdb_child_pid != -1], [rdb_file] the contents of the file [rdb_filename]. *)
Record sync_server := mkSync {
  fm : master;
  rdb_child : bool;
  rdb_file : option bytes;
  rdb_stat : rdb_status;
  repl_scriptcache_fifo : list bytes;
  stat_sync_full : Z;
  stat_sync_partial_ok : Z;
  stat_sync_partial_err : Z;
  repl_no_slaves_since : Z
}.

Definition set_master (s : sync_server) (m : master) : sync_server :=
  mkSync m (rdb_child s) (rdb_file s) (rdb_stat s) (repl_scriptcache_fifo s) (stat_sync_full s) (stat_sync_partial_ok s) (stat_sync_partial_err s) (repl_no_slaves_since s).

Definition set_rdb (s : sync_server) (child : bool) (st : rdb_status) : sync_server :=
  mkSync (fm s) child (rdb_file s) st (repl_scriptcache_fifo s) (stat_sync_full s) (stat_sync_partial_ok s) (stat_sync_partial_err s) (repl_no_slaves_since s).

Definition set_stats (s : sync_server) (full ok err : Z) : sync_server :=
  mkSync (fm s) (rdb_child s) (rdb_file s) (rdb_stat s) (repl_scriptcache_fifo s) full ok err (repl_no_slaves_since s).

Definition replicationScriptCacheFlush (s : sync_server) : sync_server :=
  mkSync (fm s) (rdb_child s) (rdb_file s) (rdb_stat s) [] (stat_sync_full s) (stat_sync_partial_ok s) (stat_sync_partial_err s) (repl_no_slaves_since s).

(** Whether [fork] succeeds, and [time(NULL)]. *)
Record fork_env := mkFork { forked : bool; time : Z }.

(** The result is whether it is [REDIS_OK]. *)
Definition rdbSaveBackground (fe : fork_env) (s : sync_server) : sync_server * bool :=
  if rdb_child s then (s, false) else
  let st := rdb_stat s in
  if forked fe then (set_rdb s true (mkRdbStatus (dirty st) (dirty st) (lastsave st) (time fe) (lastbgsave_ok st) (time fe) (rdb_save_time_last st)), true)
  else (set_rdb s false (mkRdbStatus (dirty st) (dirty st) (lastsave st) (time fe) false (rdb_save_time_start st) (rdb_save_time_last st)), false).

(** * Clients *)

Definition set_slave (c : rclient) (f : reply_flags) (st : repl_state) (w : bool) (t : Z) (b : bulk_state) : rclient :=
  mkRClient f (fd c) st (obuf c) (bufpos c) (sentlen c) (reply c) (reply_bytes c) (obuf_soft_limit_reached_time c) (lastinteraction c) w t b.

Definition set_replstate (c : rclient) (st : repl_state) : rclient := set_slave c (rflags c) st (write_handler c) (repl_ack_time c) (bulk c).

Definition set_flags (c : rclient) (f : reply_flags) : rclient := set_slave c f (replstate c) (write_handler c) (repl_ack_time c) (bulk c).

Definition flag_slave (f : reply_flags) : reply_flags :=
  mkRFlags (LUA_CLIENT f) (MASTER f) (MASTER_FORCE_REPLY f) (RCLOSE_AFTER_REPLY f) (CLOSE_ASAP f) true (PRE_PSYNC f).

Definition flag_pre_psync (f : reply_flags) : reply_flags :=
  mkRFlags (LUA_CLIENT f) (MASTER f) (MASTER_FORCE_REPLY f) (RCLOSE_AFTER_REPLY f) (CLOSE_ASAP f) (SLAVE f) true.

Section FullSync.
Context {HOST : Host} {AL : Allocator}.
Variable shared : sharedObjects.

(** [listDup] with [dupClientReplyValue] *)
Fixpoint dup_objects (h : heap) (l : list oid) : option heap :=
  match l with
  | [] => Some h
  | o :: l => h <- incrRefCount h o;; dup_objects h l
  end.

Definition copyClientOutputBuffer (h : heap) (dst src : rclient) : option (heap * rclient) :=
  h <- release_objects h (reply dst);;
  h <- dup_objects h (reply src);;
  d <- load (obuf src) 0 (bufpos src);;
  b <- store (obuf dst) 0 d;;
  Some (h, set_buffer (set_reply dst (reply src) (reply_bytes src)) b (bufpos src) (sentlen dst)).

(** [freeClient(slave)]: the objects of the slave are released, [slaves_freed] is the rest. *)
Definition freeSlave (h : heap) (c : rclient) : option heap := release_objects h (reply c).

(** The slaves [l] are left. *)
Definition slaves_freed (conf : repl_conf) (now : Z) (s : sync_server) (h : heap) (l : list rclient) : sync_server :=
  let m := refreshGoodSlavesCount conf now (mkMaster (srv (fm s)) h l (repl_good_slaves_count (fm s))) in
  mkSync m (rdb_child s) (rdb_file s) (rdb_stat s) (repl_scriptcache_fifo s) (stat_sync_full s) (stat_sync_partial_ok s) (stat_sync_partial_err s)
    (if bool_decide (l = []) then now else repl_no_slaves_since s).

(** The slaves after a loop that may have freed some. *)
Definition slaves_left (conf : repl_conf) (now : Z) (s : sync_server) (h : heap) (l : list rclient) (freed : bool) : sync_server :=
  if freed then slaves_freed conf now s h l else set_master s (mkMaster (srv (fm s)) h l (repl_good_slaves_count (fm s))).

(** A loop that frees the slaves with [p]; the result has the slaves that are left, and whether there were others. *)
Fixpoint free_slaves (p : rclient -> bool) (h : heap) (l : list rclient) : option (heap * list rclient * bool) :=
  match l with
  | [] => Some (h, [], false)
  | c :: l =>
    if p c then h <- freeSlave h c;; ' (h, l, _) <- free_slaves p h l;; Some (h, l, true)
    else ' (h, l, freed) <- free_slaves p h l;; Some (h, c :: l, freed)
  end.

(** * SYNC and PSYNC *)

Definition addReplyError (e : reply_env) (h : heap) (c : rclient) (err : bytes) : option (heap * rclient) := addReplyErrorLength e h c err (msize err).

(** The first slave in state [REDIS_REPL_WAIT_BGSAVE_END]. *)
Definition waiting_slave (l : list rclient) : option rclient := snd <$> list_find (fun c => replstate c = REDIS_REPL_WAIT_BGSAVE_END) l.

(** The slave is added; the first one makes the server create a backlog. *)
Definition attach_slave (m : master) (c : rclient) : option master :=
  let c := set_slave c (flag_slave (rflags c)) (replstate c) (write_handler c) (repl_ack_time c)
             (mkBulk None (repldboff (bulk c)) (repldbsize (bulk c)) (replpreamble (bulk c)) (bulk_handler (bulk c))) in
  let r := set_seldb (srv m) (-1) in
  let l := slaves m ++ [c] in
  r <- (match repl_backlog r with
        | None => if msize l =? 1 then createReplicationBacklog r else Some r
        | Some _ => Some r
        end);;
  Some (mkMaster r (mheap m) l (repl_good_slaves_count m)).

(** The full resynchronisation at the end of [syncCommand]. *)
Definition full_resync (e : reply_env) (fe : fork_env) (s : sync_server) (c : rclient) : option (sync_server * option rclient) :=
  let s := set_stats s (stat_sync_full s + 1) (stat_sync_partial_ok s) (stat_sync_partial_err s) in
  let m := fm s in
  if rdb_child s then
    ' (h, c) <- match waiting_slave (slaves m) with
                | Some slave => ' (h, c) <- copyClientOutputBuffer (mheap m) c slave;; Some (h, set_replstate c REDIS_REPL_WAIT_BGSAVE_END)
                | None => Some (mheap m, set_replstate c REDIS_REPL_WAIT_BGSAVE_START)
                end;;
    m <- attach_slave (mkMaster (srv m) h (slaves m) (repl_good_slaves_count m)) c;;
    Some (set_master s m, None)
  else
    let '(s, ok) := rdbSaveBackground fe s in
    if negb ok then
      ' (h, c) <- addReplyError e (mheap m) c [85; 110; 97; 98; 108; 101; 32; 116; 111; 32; 112; 101; 114; 102; 111; 114; 109; 32; 98; 97; 99; 107; 103; 114; 111; 117; 110; 100; 32; 115; 97; 118; 101];;
      Some (set_master s (mkMaster (srv m) h (slaves m) (repl_good_slaves_count m)), Some c)
    else
      m <- attach_slave m (set_replstate c REDIS_REPL_WAIT_BGSAVE_END);;
      Some (replicationScriptCacheFlush (set_master s m), None).

(** [link_down] is [server.masterhost && server.repl_state != REDIS_REPL_CONNECTED]. The result: the server, the client unless it is a slave now, and what was
    written to its socket. *)
Definition syncCommand (e : reply_env) (fe : fork_env) (conf : repl_conf) (s : sync_server) (c : rclient) (argv : list oid) (link_down written : bool) :
    option (sync_server * option rclient * bytes) :=
  let m := fm s in
  if SLAVE (rflags c) then Some (s, Some c, []) else
  if link_down then
    ' (h, c) <- addReplyError e (mheap m) c [67; 97; 110; 39; 116; 32; 83; 89; 78; 67; 32; 119; 104; 105; 108; 101; 32; 110; 111; 116; 32; 99; 111; 110; 110; 101; 99; 116; 101; 100; 32; 119; 105; 116; 104; 32; 109; 121; 32; 109; 97; 115; 116; 101; 114];;
    Some (set_master s (mkMaster (srv m) h (slaves m) (repl_good_slaves_count m)), Some c, [])
  else if negb (bool_decide (reply c = [])) || negb (bufpos c =? 0) then
    ' (h, c) <- addReplyError e (mheap m) c [83; 89; 78; 67; 32; 97; 110; 100; 32; 80; 83; 89; 78; 67; 32; 97; 114; 101; 32; 105; 110; 118; 97; 108; 105; 100; 32; 119; 105; 116; 104; 32; 112; 101; 110; 100; 105; 110; 103; 32; 111; 117; 116; 112; 117; 116];;
    Some (set_master s (mkMaster (srv m) h (slaves m) (repl_good_slaves_count m)), Some c, [])
  else
    argv0 <- argv !! 0%nat;;
    ob <- mheap m !! argv0;;
    match optr ob with
    | PSds name =>
      psync <- strcaseeq (buf name) 0 [112; 115; 121; 110; 99];;
      if psync : bool then
        argv1 <- argv !! 1%nat;;
        argv2 <- argv !! 2%nat;;
        ' (m', r, ok, out) <- masterTryPartialResynchronization e conf m c argv1 argv2 written;;
        let s := set_master s m' in
        if ok : bool then Some (set_stats s (stat_sync_full s) (stat_sync_partial_ok s + 1) (stat_sync_partial_err s), r, out)
        else
          ob1 <- mheap m !! argv1;;
          q <- match optr ob1 with PSds r => load8 (buf r) 0 | _ => None end;;
          let s := if negb (q =? 63) then set_stats s (stat_sync_full s) (stat_sync_partial_ok s) (stat_sync_partial_err s + 1) else s in
          c <- r;;
          ' (s, r) <- full_resync e fe s c;;
          Some (s, r, out)
      else
        ' (s, r) <- full_resync e fe s (set_flags c (flag_pre_psync (rflags c)));;
        Some (s, r, [])
    | _ => None
    end.

(** * The end of a background save *)

(** What the system answers for a slave, by its socket: whether the file is opened, and whether the handler is installed. *)
Record slave_env := mkSlEnv { open_ok : Z -> bool; handler_ok : Z -> bool }.

(** A slave whose transfer starts. *)
Definition start_bulk (c : rclient) (file : bytes) : option rclient :=
  s <- sdsempty;;
  s <- sdscatprintf s (36 :: printf_d (msize file) ++ [13; 10]);;
  Some (set_slave c (rflags c) REDIS_REPL_SEND_BULK false (repl_ack_time c) (mkBulk (Some file) 0 (msize file) (Some s) true)).

(** The loop over the slaves: the heap, the slaves that are left, whether one of them waits for a background save to start, and whether one was freed. *)
Fixpoint update_slaves (se : slave_env) (bgsave_ok : bool) (file : option bytes) (h : heap) (l : list rclient) : option (heap * list rclient * bool * bool) :=
  match l with
  | [] => Some (h, [], false, false)
  | c :: l =>
    let free := h <- freeSlave h c;; Some (h, @nil rclient, false, true) in
    ' (h, cs, start, freed) <-
      match replstate c with
      | REDIS_REPL_WAIT_BGSAVE_START => Some (h, [set_replstate c REDIS_REPL_WAIT_BGSAVE_END], true, false)
      | REDIS_REPL_WAIT_BGSAVE_END =>
        if negb bgsave_ok then free else
        match file with
        | Some file =>
          if negb (open_ok se (fd c)) then free else
          c' <- start_bulk c file;;
          if negb (handler_ok se (fd c)) then free else Some (h, [c'], false, false)
        | None => free
        end
      | _ => Some (h, [c], false, false)
      end;;
    ' (h, l, start', freed') <- update_slaves se bgsave_ok file h l;;
    Some (h, cs ++ l, start || start', freed || freed')
  end.

Definition updateSlavesWaitingBgsave (se : slave_env) (fe : fork_env) (conf : repl_conf) (now : Z) (s : sync_server) (bgsave_ok : bool) : option sync_server :=
  ' (h, l, start, freed) <- update_slaves se bgsave_ok (rdb_file s) (mheap (fm s)) (slaves (fm s));;
  let s := slaves_left conf now s h l freed in
  if start : bool then
    let '(s, ok) := rdbSaveBackground fe (replicationScriptCacheFlush s) in
    if ok then Some s else
    ' (h, l, freed) <- free_slaves (fun c => bool_decide (replstate c = REDIS_REPL_WAIT_BGSAVE_START)) (mheap (fm s)) (slaves (fm s));;
    Some (slaves_left conf now s h l freed)
  else Some s.

(** [bysignal] is 0 where the child was not ended by a signal; [time fe] is the time of all calls of [time(NULL)]. *)
Definition backgroundSaveDoneHandler (se : slave_env) (fe : fork_env) (conf : repl_conf) (now : Z) (s : sync_server) (exitcode bysignal : Z) : option sync_server :=
  let st := rdb_stat s in
  let st :=
    if (bysignal =? 0) && (exitcode =? 0) then
      mkRdbStatus (dirty st - dirty_before_bgsave st) (dirty_before_bgsave st) (time fe) (lastbgsave_try st) true (rdb_save_time_start st) (rdb_save_time_last st)
    else if (bysignal =? 0) && negb (exitcode =? 0) then
      mkRdbStatus (dirty st) (dirty_before_bgsave st) (lastsave st) (lastbgsave_try st) false (rdb_save_time_start st) (rdb_save_time_last st)
    else
      (* SIGUSR1 *)
      mkRdbStatus (dirty st) (dirty_before_bgsave st) (lastsave st) (lastbgsave_try st) (if negb (bysignal =? 10) then false else lastbgsave_ok st)
        (rdb_save_time_start st) (rdb_save_time_last st) in
  let st := mkRdbStatus (dirty st) (dirty_before_bgsave st) (lastsave st) (lastbgsave_try st) (lastbgsave_ok st) (-1) (time fe - rdb_save_time_start st) in
  updateSlavesWaitingBgsave se fe conf now (set_rdb s false st) (exitcode =? 0).

(** * The transfer *)

(** The results of the two [write] calls, which return at most the room of the socket and -1 on errors, of [read], and of [aeCreateFileEvent]. *)
Record bulk_env := mkBEnv { room1 : Z; read_ok : bool; room2 : Z; again : bool; ae_ok : bool }.

(** What becomes of the slave, and what was written. *)
Inductive bulk_result := Kept (c : rclient) (out : bytes) | Online (c : rclient) (out : bytes) | Lost (out : bytes).

Definition set_bulk (c : rclient) (b : bulk_state) : rclient := set_slave c (rflags c) (replstate c) (write_handler c) (repl_ack_time c) b.

(** The preamble: the slave, what was written, and whether the data follow. *)
Definition send_preamble (be : bulk_env) (c : rclient) : option (option rclient * bytes * bool) :=
  let b := bulk c in
  match replpreamble b with
  | None => Some (Some c, [], true)
  | Some p =>
    let nwritten := Z.min (room1 be) (sdslen p) in
    if nwritten <? 0 then Some (None, [], false) else
    out <- load (buf p) 0 nwritten;;
    p <- sdsrange p nwritten (-1);;
    if sdslen p =? 0 then Some (Some (set_bulk c (mkBulk (repldbfd b) (repldboff b) (repldbsize b) None (bulk_handler b))), out, true)
    else Some (Some (set_bulk c (mkBulk (repldbfd b) (repldboff b) (repldbsize b) (Some p) (bulk_handler b))), out, false)
  end.

Definition sendBulkToSlave (be : bulk_env) (now : Z) (c : rclient) : option bulk_result :=
  ' (r, out, more) <- send_preamble be c;;
  match r with
  | None => Some (Lost out)
  | Some c =>
    if negb more then Some (Kept c out) else
    let b := bulk c in
    file <- repldbfd b;;
    let buflen := if read_ok be then Z.max 0 (Z.min REDIS_IOBUF_LEN (msize file - repldboff b)) else -1 in
    if buflen <=? 0 then Some (Lost out) else
    d <- load file (repldboff b) buflen;;
    let nwritten := Z.min (room2 be) buflen in
    if nwritten <? 0 then Some (if again be then Kept c out else Lost out) else
    let out := out ++ take (Z.to_nat nwritten) d in
    off <- ll_arith (repldboff b + nwritten);;
    if off =? repldbsize b then
      let c := set_slave c (rflags c) REDIS_REPL_ONLINE true now (mkBulk None off (repldbsize b) (replpreamble b) false) in
      if ae_ok be then Some (Online c out) else Some (Lost out)
    else Some (Kept (set_bulk c (mkBulk (repldbfd b) off (repldbsize b) (replpreamble b) (bulk_handler b))) out)
  end.

(** The event for the slave at [i], with what was written. *)
Definition bulk_event (be : bulk_env) (conf : repl_conf) (now : Z) (s : sync_server) (i : nat) : option (sync_server * bytes) :=
  let m := fm s in
  c <- slaves m !! i;;
  r <- sendBulkToSlave be now c;;
  match r with
  | Kept c out => Some (set_master s (mkMaster (srv m) (mheap m) (<[i := c]> (slaves m)) (repl_good_slaves_count m)), out)
  | Online c out => Some (set_master s (refreshGoodSlavesCount conf now (mkMaster (srv m) (mheap m) (<[i := c]> (slaves m)) (repl_good_slaves_count m))), out)
  | Lost out => h <- freeSlave (mheap m) c;; Some (slaves_freed conf now s h (delete i (slaves m)), out)
  end.

(** [sendReplyToClient] for the slave at [i]. *)
Definition reply_event (sd : send_env) (conf : repl_conf) (now : Z) (s : sync_server) (i : nat) : option (sync_server * bytes) :=
  let m := fm s in
  c <- slaves m !! i;;
  ' (h, r, out) <- sendReplyToClient sd (mheap m) c;;
  match r with
  | Some c => Some (set_master s (mkMaster (srv m) h (<[i := c]> (slaves m)) (repl_good_slaves_count m)), out)
  | None => Some (slaves_freed conf now s h (delete i (slaves m)), out)
  end.

(** The slave at [i] is freed. *)
Definition free_slave_at (conf : repl_conf) (now : Z) (s : sync_server) (i : nat) : option sync_server :=
  c <- slaves (fm s) !! i;;
  h <- freeSlave (mheap (fm s)) c;;
  Some (slaves_freed conf now s h (delete i (slaves (fm s)))).

(** * The timer *)

Record cron_conf := mkCron { repl_ping_slave_period : Z; hz : Z; repl_timeout : Z; repl_backlog_time_limit : Z; aof_off : bool }.

(** The newlines: what each slave is sent, where the [write] succeeds. *)
Definition cron_newlines (write_ok : Z -> bool) (l : list rclient) : list bytes :=
  (fun c => match replstate c with
            | REDIS_REPL_WAIT_BGSAVE_START | REDIS_REPL_WAIT_BGSAVE_END => if write_ok (fd c) then [10] else []
            | _ => []
            end) <$> l.

(** PING and the newlines. *)
Definition cron_ping (e : reply_env) (cc : cron_conf) (write_ok : Z -> bool) (cronloops : Z) (m : master) : option (master * list bytes) :=
  period <- int_arith (repl_ping_slave_period cc * hz cc);;
  if period =? 0 then None else
  if Z.rem cronloops period =? 0 then
    ' (h, o) <- createStringObject (mheap m) [80; 73; 78; 71; 0] 4;;
    m <- replicationFeedSlaves shared e (mkMaster (srv m) h (slaves m) (repl_good_slaves_count m)) (slaveseldb (srv m)) [o];;
    h <- decrRefCount (mheap m) o;;
    Some (mkMaster (srv m) h (slaves m) (repl_good_slaves_count m), cron_newlines write_ok (slaves m))
  else Some (m, (fun _ => []) <$> slaves m).

Definition timed_out (cc : cron_conf) (now : Z) (c : rclient) : bool :=
  bool_decide (replstate c = REDIS_REPL_ONLINE) && negb (PRE_PSYNC (rflags c)) && (now - repl_ack_time c >? repl_timeout cc).

Definition cron_timeouts (cc : cron_conf) (conf : repl_conf) (now : Z) (s : sync_server) : option sync_server :=
  ' (h, l, freed) <- free_slaves (timed_out cc now) (mheap (fm s)) (slaves (fm s));;
  Some (slaves_left conf now s h l freed).

Definition cron_backlog (cc : cron_conf) (now : Z) (s : sync_server) : option sync_server :=
  let m := fm s in
  if bool_decide (slaves m = []) && negb (repl_backlog_time_limit cc =? 0) && (if repl_backlog (srv m) then true else false) &&
     (now - repl_no_slaves_since s >? repl_backlog_time_limit cc) then
    r <- freeReplicationBacklog (srv m) (msize (slaves m));;
    Some (set_master s (mkMaster r (mheap m) (slaves m) (repl_good_slaves_count m)))
  else Some s.

(** The part of [replicationCron] for slaves. *)
Definition replicationCron (e : reply_env) (cc : cron_conf) (conf : repl_conf) (write_ok : Z -> bool) (cronloops : Z) (s : sync_server) : option (sync_server * list bytes) :=
  ' (m, outs) <- cron_ping e cc write_ok cronloops (fm s);;
  s <- cron_timeouts cc conf (unixtime e) (set_master s m);;
  s <- cron_backlog cc (unixtime e) s;;
  let s := if bool_decide (slaves (fm s) = []) && aof_off cc && negb (bool_decide (repl_scriptcache_fifo s = [])) then replicationScriptCacheFlush s else s in
  Some (set_master s (refreshGoodSlavesCount conf (unixtime e) (fm s)), outs).

End FullSync.
