(* ===== verification/FullSyncSpec.v ===== *)
(** Resynchronisation: what each operation does to the output of the slaves. *)

From stdpp Require Import gmap relations.
From S2P Require Import Prelude Util Sds SdsArgs SdsRep Rdb RioSpec Networking NetworkingSpec Aof AofSpec Reply ReplySpec ReplyOps ReplySend ReplyDefer ReplyHistory ReplyClients Replication Backlog ReplicationSpec FullSync.

Section Sync.
Context {HOST : Host} {AL : Allocator} {LAWS : AllocatorLaws AL}.
Variable shared : sharedObjects.

(** * Clients *)

(** Other fields of a client may change. *)
Definition same_output (c c' : rclient) : Prop :=
  obuf c' = obuf c /\ bufpos c' = bufpos c /\ sentlen c' = sentlen c /\ reply c' = reply c /\ reply_bytes c' = reply_bytes c.

Lemma local_fields h c c' o : local_ok h c o -> same_output c c' -> (replnone c' = true -> o.1 <> [] \/ reply c <> [] -> write_handler c' = true) -> local_ok h c' o.
Proof. intros [H1 H2 H3 H4 H5 H6] (E1 & E2 & E3 & E4 & E5) Hh. split; rewrite ?E1, ?E2, ?E3, ?E4, ?E5; done. Qed.

Lemma lists_fields g1 c c' (o : bytes * list bytes) g2 : reply c' = reply c -> lists (g1 ++ (c', o) :: g2).*1 = lists (g1 ++ (c, o) :: g2).*1.
Proof. intros E. rewrite !fmap_app, !fmap_cons, !lists_app, !lists_cons. cbn [fst]. by rewrite E. Qed.

Lemma group_fields ext h g1 c c' o g2 : group_ok ext h (g1 ++ (c, o) :: g2) -> same_output c c' ->
  (replnone c' = true -> o.1 <> [] \/ reply c <> [] -> write_handler c' = true) -> group_ok ext h (g1 ++ (c', o) :: g2).
Proof.
  intros [Hr Hl] Hs Hh. split; [rewrite (lists_fields g1 c); [done|apply Hs]|]. apply Forall_app in Hl as [Hl1 Hl]. apply list.Forall_cons in Hl as [Hc Hl2].
  apply Forall_app. split; [done|]. constructor; [|done]. by eapply local_fields.
Qed.

(** A client without output. *)
Definition fresh_client (c : rclient) : Prop :=
  msize (obuf c) = REDIS_REPLY_CHUNK_BYTES /\ bufpos c = 0 /\ sentlen c = 0 /\ reply c = [] /\ reply_bytes c = 0.

Lemma fresh_local h c : fresh_client c -> local_ok h c ([], []).
Proof.
  intros (H1 & H2 & H3 & H4 & H5). split; cbn [fst snd]; rewrite ?H4, ?H5; [by exists (obuf c)|constructor|done|lia|by left|]. by intros _ [|].
Qed.

Lemma group_join ext h g c : group_ok ext h g -> fresh_client c -> group_ok ext h (g ++ [(c, ([], []))]).
Proof.
  intros [Hr Hl] Hf. split.
  - rewrite fmap_app, lists_app. cbn. unfold lists. cbn. destruct Hf as (_ & _ & _ & -> & _). by rewrite !app_nil_r.
  - apply Forall_app. split; [done|]. constructor; [by apply fresh_local|done].
Qed.

Lemma left_fresh c : fresh_client c -> left (c, ([], [])) = [].
Proof. intros _. unfold left. cbn. by rewrite drop_nil. Qed.

(** * The copy of an output buffer *)

Lemma dup_objects_spec ext l : forall h l0, refs ext h l0 -> (forall o, o ∈ l -> is_Some (h !! o)) ->
  exists h', dup_objects h l = Some h' /\ refs ext h' (l ++ l0) /\
    (forall x ob, h !! x = Some ob -> exists ob', h' !! x = Some ob' /\ optr ob' = optr ob /\ enc ob' = enc ob).
Proof.
  induction l as [|o l IH]; intros h l0 Hr Hin; [exists h; split; [done|]; split; [done|]; intros x ob E; by exists ob|].
  destruct (Hin o) as [ob E]; [by left|]. cbn [dup_objects]. unfold incrRefCount at 1. rewrite E. cbn [obind]. set (h1 := <[o:=_]> h).
  assert (forall x obx, h !! x = Some obx -> exists ob', h1 !! x = Some ob' /\ optr ob' = optr obx /\ enc ob' = enc obx) as Hoth.
  { intros x obx Ex. unfold h1. destruct (decide (x = o)) as [->|]; [rewrite lookup_insert_eq|rewrite lookup_insert_ne by done; by exists obx].
    rewrite E in Ex. injection Ex as <-. by eexists. }
  destruct (IH h1 (o :: l0)) as (h' & E' & Hr' & Hk).
  - intros x. specialize (Hr x). cbn [occ]. unfold h1. destruct (decide (x = o)) as [->|Hne].
    + rewrite lookup_insert_eq, bool_decide_eq_true_2 by done. rewrite E in Hr. cbn [refcount]. lia.
    + rewrite lookup_insert_ne, bool_decide_eq_false_2 by done. destruct (h !! x); lia.
  - intros x Hx. destruct (Hin x) as [obx Ex]; [by right|]. destruct (Hoth x obx Ex) as (ob' & -> & _). done.
  - exists h'. split; [done|]. split.
    + intros x. specialize (Hr' x). rewrite occ_app in *. cbn [app occ] in *. destruct (h' !! x); lia.
    + intros x obx Ex. destruct (Hoth x obx Ex) as (ob1 & E1 & P1 & N1). destruct (Hk x ob1 E1) as (ob2 & E2 & P2 & N2). exists ob2. split; [done|]. split; congruence.
Qed.

Lemma copy_spec ext h g1 src o g2 dst : group_ok ext h (g1 ++ (src, o) :: g2) -> fresh_client dst ->
  exists h' dst', copyClientOutputBuffer h dst src = Some (h', dst') /\ group_ok ext h' ((g1 ++ (src, o) :: g2) ++ [(set_replstate dst' REDIS_REPL_WAIT_BGSAVE_END, o)]) /\ keeps ext h h' /\
    rflags dst' = rflags dst /\ fd dst' = fd dst /\ bulk dst' = bulk dst /\ write_handler dst' = write_handler dst /\ sentlen dst' = 0.
Proof.
  intros Hok (F1 & F2 & F3 & F4 & F5). pose proof Hok as [Hr Hl]. unfold copyClientOutputBuffer. rewrite F4. cbn [release_objects obind].
  set (g := g1 ++ (src, o) :: g2) in *. assert (local_ok h src o) as [(rest & Eb & Hsz & Ep) Hi Hm Hlim Hs Hh] by (apply Forall_app in Hl as [_ Hl]; by apply list.Forall_cons in Hl as [? _]).
  destruct (dup_objects_spec ext (reply src) h (lists g.*1) Hr) as (h' & -> & Hr' & Hk).
  { intros x Hx. pose proof (in_lists src g.*1 x) as Ho. specialize (Hr x). destruct (h !! x); [done|]. assert (1 <= occ x (lists g.*1)); [|lia]. apply Ho; [|done].
    unfold g. apply list_elem_of_fmap. exists (src, o). split; [done|]. apply elem_of_app. right. by left. }
  cbn [obind]. rewrite Eb, (load_at [] o.1 rest) by done. cbn [obind]. pose proof (msize_nonneg o.1). pose proof (msize_nonneg rest).
  destruct (split_at (obuf dst) (msize o.1)) as (d1 & d2 & Ed & Hd1); [lia|]. rewrite Ed, (store_at [] d1 d2) by done. cbn [obind].
  eexists h', _. split; [done|]. split; [|split; [intros x ob _; apply Hk|done]].
  assert (forall p, local_ok h p.1 p.2 -> local_ok h' p.1 p.2) as Hloc.
  { intros p Hp. eapply (local_keeps (fun _ => 1) h); [done|done|]. intros x ob _. apply Hk. }
  assert (uint 64 (reply_bytes src) = reply_bytes src) as Eu by (rewrite uint_id; [done|]; pose proof (total_nonneg _ _ _ Hi); lia).
  split.
  - intros x. specialize (Hr' x). rewrite fmap_app, lists_app, occ_app in *. cbn [fmap list_fmap fst]. rewrite lists_cons. cbn [reply set_buffer set_reply set_replstate set_slave]. rewrite occ_app. change (lists []) with (@nil oid).
    destruct (h' !! x); cbn [occ]; lia.
  - apply Forall_app. split; [eapply list.Forall_impl; [exact Hl|]; intros p Hp; by apply Hloc|]. constructor; [|done]. cbn [fst snd].
    destruct (items_change h h' (reply src) _ Hi) as [Hi' Ht]; [intros x ob _; apply Hk|].
    split; cbn [obuf bufpos sentlen reply reply_bytes set_buffer set_reply set_replstate set_slave]; rewrite ?Eu.
    + exists d2. rewrite Ed, msize_app in F1. cbn [app]. split; [done|]. split; [lia|done].
    + done.
    + by rewrite Ht.
    + done.
    + left. done.
    + done.
Qed.

(** * PSYNC *)

(** A string up to its first null byte is equal to a literal, without case. *)
Definition same_text (a lit : bytes) : bool := bool_decide (tolower <$> until0 a = tolower <$> lit).

Lemma tolower_nonzero l : l <> 0 -> tolower l <> 0.
Proof. intros Hl. unfold tolower. destruct ((65 <=? l) && (l <=? 90)) eqn:E; [|done]. apply andb_true_iff in E as [?%Z.leb_le ?%Z.leb_le]. lia. Qed.

Lemma strcaseeq_spec lit : Forall (fun c => c <> 0) lit -> forall (pre a fr : bytes), strcaseeq (pre ++ a ++ 0 :: fr) (msize pre) lit = Some (same_text a lit).
Proof.
  intros Hl. induction Hl as [|l lit Hl _ IH]; intros pre a fr; cbn [strcaseeq]; unfold same_text; destruct a as [|x a]; cbn [app until0].
  - by rewrite (load8_at pre 0 fr).
  - rewrite (load8_at pre x (a ++ 0 :: fr)) by done. cbn [obind]. destruct (Z.eqb_spec x 0); [by rewrite bool_decide_eq_true_2|by rewrite bool_decide_eq_false_2].
  - rewrite (load8_at pre 0 fr) by done. cbn [obind]. change (tolower 0) with 0. apply tolower_nonzero in Hl. rewrite (proj2 (Z.eqb_neq _ _)) by done. by rewrite bool_decide_eq_false_2.
  - rewrite (load8_at pre x (a ++ 0 :: fr)) by done. cbn [obind]. apply tolower_nonzero in Hl. destruct (Z.eqb_spec x 0) as [->|Hx].
    { change (tolower 0) with 0. rewrite (proj2 (Z.eqb_neq _ _)) by done. by rewrite bool_decide_eq_false_2. }
    rewrite !fmap_cons. destruct (Z.eqb_spec (tolower x) (tolower l)) as [E|E]; [|rewrite bool_decide_eq_false_2; [done|congruence]].
    specialize (IH (pre ++ [x]) a fr). rewrite msize_app, msize_cons, msize_nil, Z.add_0_r, <- app_assoc in IH. cbn [app] in IH. rewrite IH. f_equal. unfold same_text.
    apply bool_decide_ext. rewrite E. split; [congruence|by intros [=]].
Qed.

(** An argument that is a string. *)
Definition string_arg (h : heap) (o : oid) (a : bytes) : Prop := exists ob, h !! o = Some ob /\ holds ob a.

Lemma string_arg_buf h o a : string_arg h o a -> exists ob s fr, h !! o = Some ob /\ optr ob = PSds s /\ buf s = a ++ 0 :: fr /\ sdslen s = msize a.
Proof.
  intros (ob & E & s & Es & Hs & _). destruct (sds_rep_len s a Hs) as [El _]. destruct (sds_rep_buf s a Hs) as (fr & Eb). by exists ob, s, fr.
Qed.

Lemma number_arg h o a v : string_arg h o a -> decimal a v -> LLONG_MIN <= v <= LLONG_MAX -> getLongLongFromObject h o = Some (Some v).
Proof.
  intros Ha Hd Hv. destruct (string_arg_buf h o a Ha) as (ob & s & fr & E & Es & Eb & _). unfold getLongLongFromObject. rewrite E. cbn [obind]. rewrite Es, Eb.
  assert (strtoll_raw (a ++ 0 :: fr) = Some (v, msize a) /\ exists x t, a = x :: t /\ isspace x = false) as (-> & x & t & -> & Hx).
  { destruct Hd as [[[Hd Hc] Hval]|(ds & -> & [Hd Hc] & Hval & Hn)].
    - split; [apply (strtoll_raw_at [] a 0 fr v); [by left|done|by destruct a|done|done]|]. destruct a as [|x t]; [done|]. exists x, t. split; [done|].
      apply list.Forall_cons in Hd as [Hx _]. unfold isspace. rewrite (proj2 (Z.eqb_neq x 32)), (proj2 (Z.leb_gt x 13)) by lia. by rewrite andb_false_r.
    - split; [rewrite msize_cons; apply (strtoll_raw_at [45] ds 0 fr v); [by right|done|by destruct ds|done|cbn; lia]|]. by exists 45, ds. }
  cbn [obind app]. rewrite (load8_at [] x (t ++ 0 :: fr)) by done. cbn [obind]. change (x :: t ++ 0 :: fr) with ((x :: t) ++ 0 :: fr). rewrite (load8_at (x :: t) 0 fr) by done. cbn [obind].
  rewrite Hx, (proj2 (Z.ltb_ge v LLONG_MIN)), Z.gtb_ltb, (proj2 (Z.ltb_ge LLONG_MAX v)) by lia. done.
Qed.

(** The answer that announces a full resynchronisation. *)
Definition fullresync_line (conf : repl_conf) (r : replserver) : bytes :=
  FULLRESYNC ++ runid conf ++ [32] ++ printf_d (if repl_backlog r then master_repl_offset r else master_repl_offset r + 1) ++ [13; 10].

(** A slave is fed from the backlog. *)
Lemma accept_spec e ext h g c r D v : aeCreateFileEvent_ok e = true -> group_ok ext h g -> fresh_client c -> writable c -> limit_ok c 2 -> backlog_ok r D -> offset_ok r 0 ->
  repl_backlog_off r <= v <= repl_backlog_off r + repl_backlog_histlen r ->
  exists h' c' o' P X, addReplyReplicationBacklog e r h c v = Some (h', c', msize X) /\ group_ok ext h' (g ++ [(c', o')]) /\ keeps ext h h' /\
    D = P ++ X /\ msize X = master_repl_offset r + 1 - v /\ left (c', o') = X /\ stable c c'.
Proof.
  intros He Hg Hf Hw L Hok Ho Hv. pose proof (group_join ext h g c Hg Hf) as Hg1. pose proof (focus ext h g c ([], []) [] Hg1) as I. cbn [fst snd] in I.
  destruct (backlog_reply e He r D _ h c [] (texts []) v Hok I Hw L Hv Ho) as (P & X & h' & c' & ED & EX & E & Q).
  apply queued_texts in Q as (B' & ts' & I' & F & S & _ & K). destruct (unfocus ext h h' g c c' ([], []) [] B' ts' Hg1 I' K) as [Hg' Hk].
  exists h', c', (B', ts'), P, X. split; [done|]. split; [done|]. split; [done|]. split; [done|]. split; [done|]. split; [|done].
  unfold left. cbn [fst snd]. rewrite F, (st_sent _ _ S). destruct Hf as (_ & _ & -> & _). done.
Qed.

(** A request is accepted for the right run id and an offset that the backlog covers, or the one that follows. *)
Definition psync_accepts (conf : repl_conf) (r : replserver) (a : bytes) (v : Z) : bool :=
  same_text a (runid conf) && (if repl_backlog r then true else false) && (repl_backlog_off r <=? v) && (v <=? repl_backlog_off r + repl_backlog_histlen r).

Lemma psync_refused e conf m c argv1 argv2 a v : string_arg (mheap m) argv1 a -> Forall (fun x => x <> 0) (runid conf) -> getLongLongFromObject (mheap m) argv2 = Some (Some v) ->
  0 <= master_repl_offset (srv m) -> offset_ok (srv m) 2 -> psync_accepts conf (srv m) a v = false ->
  masterTryPartialResynchronization e conf m c argv1 argv2 true = Some (m, Some c, false, fullresync_line conf (srv m)).
Proof.
  intros Ha Hrun Hv Hm Ho Hno. unfold masterTryPartialResynchronization. destruct (string_arg_buf _ _ _ Ha) as (ob & s & fr & -> & Es & Eb & _). cbn [obind]. rewrite Es, Eb.
  pose proof (strcaseeq_spec (runid conf) Hrun [] a fr) as E. cbn [app] in E. change (msize (@nil Z)) with 0 in E. rewrite E. cbn [obind].
  unfold offset_ok, LLONG_MAX in Ho. rewrite ll_arith_Some by (unfold LLONG_MIN, LLONG_MAX; lia). unfold psync_accepts in Hno, E |- *. unfold fullresync_line.
  destruct (same_text a (runid conf)) eqn:Es1; cbn [negb andb] in *; [|by destruct (repl_backlog (srv m))].
  unfold getLongLongFromObjectOrReply. rewrite Hv. cbn [obind]. assert (mkMaster (srv m) (mheap m) (slaves m) (repl_good_slaves_count m) = m) as Em by by destruct m. rewrite Em.
  destruct (repl_backlog (srv m)) as [b|]; cbn [negb orb andb obind] in *; [|done]. rewrite Z.gtb_ltb.
  destruct (Z.leb_spec (repl_backlog_off (srv m)) v); cbn [andb] in Hno; [rewrite (proj2 (Z.ltb_ge _ _)) by lia|by rewrite (proj2 (Z.ltb_lt _ _))].
  apply Z.leb_gt in Hno. by rewrite (proj2 (Z.ltb_lt _ _)).
Qed.

Lemma psync_accepted e conf m g ext c argv1 argv2 a v D : aeCreateFileEvent_ok e = true -> slaves m = g.*1 -> group_ok ext (mheap m) g -> fresh_client c -> writable c -> limit_ok c 2 ->
  string_arg (mheap m) argv1 a -> Forall (fun x => x <> 0) (runid conf) -> getLongLongFromObject (mheap m) argv2 = Some (Some v) -> backlog_ok (srv m) D -> offset_ok (srv m) 2 ->
  psync_accepts conf (srv m) a v = true ->
  exists h' c' o' P X, masterTryPartialResynchronization e conf m c argv1 argv2 true =
      Some (refreshGoodSlavesCount conf (unixtime e) (mkMaster (srv m) h' (g ++ [(c', o')]).*1 (repl_good_slaves_count m)), None, true, CONTINUE) /\
    group_ok ext h' (g ++ [(c', o')]) /\ keeps ext (mheap m) h' /\ D = P ++ X /\ msize X = master_repl_offset (srv m) + 1 - v /\ left (c', o') = X /\
    stable (set_online_slave c (unixtime e)) c'.
Proof.
  intros He Eg Hg Hf Hw L Ha Hrun Hv Hb Ho Hacc. unfold masterTryPartialResynchronization. destruct (string_arg_buf _ _ _ Ha) as (ob & s & fr & -> & Es & Eb & _). cbn [obind]. rewrite Es, Eb.
  pose proof (strcaseeq_spec (runid conf) Hrun [] a fr) as E. cbn [app] in E. change (msize (@nil Z)) with 0 in E. rewrite E. cbn [obind].
  unfold psync_accepts in Hacc. apply andb_true_iff in Hacc as [[[H1 H2]%andb_true_iff H3%Z.leb_le]%andb_true_iff H4%Z.leb_le]. rewrite H1. cbn [negb].
  unfold getLongLongFromObjectOrReply. rewrite Hv. cbn [obind]. destruct (repl_backlog (srv m)); [|done]. cbn [negb orb].
  rewrite Z.gtb_ltb, !(proj2 (Z.ltb_ge _ _)) by lia. cbn [orb mheap slaves srv repl_good_slaves_count].
  destruct (accept_spec e ext (mheap m) g (set_online_slave c (unixtime e)) (srv m) D v He Hg Hf Hw L Hb) as (h' & c' & o' & P & X & Er & Hg' & Hk & ED & EX & Hleft & S); [unfold offset_ok in *; lia|lia|].
  rewrite Er. cbn [obind]. exists h', c', o', P, X. split; [rewrite Eg, fmap_app; done|]. done.
Qed.

(** * SYNC *)

(** The backlog when a slave was added. *)
Definition attached (r r' : replserver) : Prop :=
  match repl_backlog r with
  | Some _ => r' = set_seldb r (-1)
  | None => createReplicationBacklog (set_seldb r (-1)) = Some r'
  end.

(** A client as a slave that waits. *)
Definition joined (c : rclient) (st : repl_state) (c' : rclient) : Prop :=
  replstate c' = st /\ sentlen c' = 0 /\ write_handler c' = write_handler c /\ bulk_handler (bulk c') = bulk_handler (bulk c) /\ (writable c -> writable c').

Lemma attach_spec m g ext c o st : slaves m = g.*1 -> group_ok ext (mheap m) (g ++ [(set_replstate c st, o)]) -> sentlen c = 0 -> st <> REDIS_REPL_NONE -> st <> REDIS_REPL_ONLINE ->
  (repl_backlog (srv m) = None -> slaves m = []) -> 0 <= master_repl_offset (srv m) -> offset_ok (srv m) 2 ->
  exists r' c', attach_slave m (set_replstate c st) = Some (mkMaster r' (mheap m) (g ++ [(c', o)]).*1 (repl_good_slaves_count m)) /\ attached (srv m) r' /\
    group_ok ext (mheap m) (g ++ [(c', o)]) /\ joined c st c'.
Proof.
  intros Eg Hg Hs Hn1 Hn2 Hbl Hm Ho. unfold attach_slave, attached, createReplicationBacklog, offset_ok, LLONG_MAX in *.
  set (c' := set_slave (set_replstate c st) _ _ _ _ _). rewrite Eg in *.
  assert (group_ok ext (mheap m) (g ++ [(c', o)])) as Hg'.
  { apply (group_fields ext (mheap m) g (set_replstate c st) c' o []); [done|done|]. unfold replnone, c'. cbn. by destruct st. }
  assert (joined c st c') as Hj by done. change (repl_backlog (set_seldb (srv m) (-1))) with (repl_backlog (srv m)).
  destruct (repl_backlog (srv m)) as [b|] eqn:Eb; cbn [obind]; [exists (set_seldb (srv m) (-1)), c'; by rewrite fmap_app|].
  specialize (Hbl eq_refl). rewrite Hbl. change (msize ([] ++ [c'])) with 1. cbn [Z.eqb Pos.eqb master_repl_offset set_seldb].
  rewrite !ll_arith_Some by (unfold LLONG_MIN, LLONG_MAX; lia). cbn [obind]. rewrite !ll_arith_Some by (unfold LLONG_MIN, LLONG_MAX; lia). cbn [obind]. eexists _, c'. by rewrite fmap_app, Hbl.
Qed.

Lemma waiting_spec (g : list (rclient * (bytes * list bytes))) :
  (exists g1 c o g2, g = g1 ++ (c, o) :: g2 /\ replstate c = REDIS_REPL_WAIT_BGSAVE_END /\ waiting_slave g.*1 = Some c) \/
  waiting_slave g.*1 = None /\ Forall (fun p => replstate p.1 <> REDIS_REPL_WAIT_BGSAVE_END) g.
Proof.
  unfold waiting_slave. destruct (list_find _ g.*1) as [[i c]|] eqn:E.
  - left. apply list_find_Some in E as (Ei & Hc & _). rewrite list_lookup_fmap in Ei. destruct (g !! i) as [[c1 o]|] eqn:Eg; [|done]. injection Ei as ->.
    apply list_elem_of_split_length in Eg as (g1 & g2 & -> & _). by exists g1, c, o, g2.
  - right. split; [done|]. apply list_find_None in E. apply (Forall_fmap fst) in E. exact E.
Qed.

(** A background save runs: the output of a slave that waits for its end is copied, or the slave waits for the next one. *)
Lemma full_resync_child e fe s g ext c : slaves (fm s) = g.*1 -> group_ok ext (mheap (fm s)) g -> fresh_client c -> rdb_child s = true ->
  (repl_backlog (srv (fm s)) = None -> slaves (fm s) = []) -> 0 <= master_repl_offset (srv (fm s)) -> offset_ok (srv (fm s)) 2 ->
  exists r' h' c' o st, full_resync e fe s c = Some (set_master (set_stats s (stat_sync_full s + 1) (stat_sync_partial_ok s) (stat_sync_partial_err s))
      (mkMaster r' h' (g ++ [(c', o)]).*1 (repl_good_slaves_count (fm s))), None) /\
    attached (srv (fm s)) r' /\ group_ok ext h' (g ++ [(c', o)]) /\ keeps ext (mheap (fm s)) h' /\ joined c st c' /\
    (st = REDIS_REPL_WAIT_BGSAVE_END /\ (exists src, (src, o) ∈ g /\ replstate src = st) \/ st = REDIS_REPL_WAIT_BGSAVE_START /\ o = ([], [])).
Proof.
  intros Eg Hg Hf Hc Hbl Hm Ho. unfold full_resync. cbn [rdb_child set_stats fm]. rewrite Hc, Eg. destruct (waiting_spec g) as [(g1 & src & o & g2 & -> & Hsrc & ->)|[-> _]].
  - destruct (copy_spec ext (mheap (fm s)) g1 src o g2 c Hg Hf) as (h' & c1 & -> & Hg' & Hk & F1 & F2 & F3 & F4 & F5). cbn [obind].
    destruct (attach_spec (mkMaster (srv (fm s)) h' (g1 ++ (src, o) :: g2).*1 (repl_good_slaves_count (fm s))) (g1 ++ (src, o) :: g2) ext c1 o REDIS_REPL_WAIT_BGSAVE_END)
      as (r' & c' & -> & Hat & Hg2 & J1 & J2 & J3 & J4 & J5); [done|done|done|done|done|cbn; rewrite <- Eg; done|done|done|].
    exists r', h', c', o, REDIS_REPL_WAIT_BGSAVE_END. split; [done|]. split; [done|]. split; [done|]. split; [done|]. split.
    + split; [done|]. split; [done|]. split; [congruence|]. split; [congruence|]. intros W. apply J5. unfold writable in *. by rewrite F1, F2.
    + left. split; [done|]. exists src. split; [|done]. apply elem_of_app. right. by left.
  - cbn [obind]. destruct (attach_spec (mkMaster (srv (fm s)) (mheap (fm s)) g.*1 (repl_good_slaves_count (fm s))) g ext c ([], []) REDIS_REPL_WAIT_BGSAVE_START)
      as (r' & c' & -> & Hat & Hg2 & J); [done|by apply group_join|apply Hf|done|done|cbn; rewrite <- Eg; done|done|done|].
    exists r', (mheap (fm s)), c', ([], []), REDIS_REPL_WAIT_BGSAVE_START. split; [done|]. split; [done|]. split; [done|]. split; [apply keeps_refl|]. split; [done|]. by right.
Qed.

(** No background save runs: one is started. *)
Lemma full_resync_fork e fe s g ext c : slaves (fm s) = g.*1 -> group_ok ext (mheap (fm s)) g -> fresh_client c -> rdb_child s = false -> forked fe = true ->
  (repl_backlog (srv (fm s)) = None -> slaves (fm s) = []) -> 0 <= master_repl_offset (srv (fm s)) -> offset_ok (srv (fm s)) 2 ->
  exists s' r' c', full_resync e fe s c = Some (s', None) /\ fm s' = mkMaster r' (mheap (fm s)) (g ++ [(c', ([], []))]).*1 (repl_good_slaves_count (fm s)) /\
    rdb_child s' = true /\ rdb_file s' = rdb_file s /\
    attached (srv (fm s)) r' /\ group_ok ext (mheap (fm s)) (g ++ [(c', ([], []))]) /\ joined c REDIS_REPL_WAIT_BGSAVE_END c'.
Proof.
  intros Eg Hg Hf Hc Hfk Hbl Hm Ho. unfold full_resync, rdbSaveBackground. cbn [rdb_child set_stats fm]. rewrite Hc, Hfk. cbn [negb].
  destruct (attach_spec (fm s) g ext c ([], []) REDIS_REPL_WAIT_BGSAVE_END) as (r' & c' & -> & Hat & Hg2 & J); [done|by apply group_join|apply Hf|done|done|done|done|done|].
  cbn [obind]. eexists _, r', c'. split; [done|]. cbn. done.
Qed.

(** * Slaves are freed *)

Lemma free_slaves_spec p ext : forall g pre h, group_ok ext h (pre ++ g) ->
  exists h' freed, free_slaves p h g.*1 = Some (h', (filter (fun q => p q.1 = false) g).*1, freed) /\ group_ok ext h' (pre ++ filter (fun q => p q.1 = false) g) /\ keeps ext h h'.
Proof.
  induction g as [|[c o] g IH]; intros pre h Hg; [exists h, false; split; [done|]; split; [done|apply keeps_refl]|].
  rewrite fmap_cons. cbn [free_slaves fst]. rewrite filter_cons. cbn [fst]. destruct (p c).
  - destruct (group_leave ext h pre c o g Hg) as (h1 & E1 & Hg1 & K1). unfold freeSlave. rewrite E1. cbn [obind].
    destruct (IH pre h1 Hg1) as (h' & freed & -> & Hg' & K'). cbn [obind]. exists h', true. split; [done|]. split; [done|]. by eapply keeps_trans.
  - destruct (IH (pre ++ [(c, o)]) h) as (h' & freed & -> & Hg' & K'); [by rewrite <- app_assoc|]. cbn [obind]. exists h', freed. rewrite <- app_assoc in Hg'. done.
Qed.

(** * The end of a background save *)

Definition bulk_header (f : bytes) : bytes := count_bytes 36 (printf_d (msize f)).

Lemma start_bulk_spec c f : msize f < 2 ^ 63 ->
  exists s, start_bulk c f = Some (set_slave c (rflags c) REDIS_REPL_SEND_BULK false (repl_ack_time c) (mkBulk (Some f) 0 (msize f) (Some s) true)) /\ sds_rep s (bulk_header f).
Proof.
  intros Hf. pose proof (msize_nonneg f). unfold start_bulk. destruct sdsempty_rep as (s0 & -> & Hs0 & _). cbn [obind].
  destruct (ll2string_printf (zmalloc 32) 32 (msize f)) as (_ & _ & Hl & _); [unfold LLONG_MIN, LLONG_MAX; lia|lia|unfold zmalloc; rewrite msize_fresh; lia|].
  destruct (sdscatprintf_rep s0 [] (36 :: printf_d (msize f) ++ [13; 10]) Hs0) as (s & -> & Hs).
  - constructor; [done|]. apply Forall_app. split; [|by repeat constructor]. eapply list.Forall_impl; [eapply (decimal_line _ (msize f)), printf_d_decimal; lia|]. by intros x [_ ?].
  - rewrite msize_nil, msize_cons, msize_app, !msize_cons, msize_nil. lia.
  - cbn [obind]. by exists s.
Qed.

(** Whether the transfer to a slave starts, or the slave is freed. *)
Definition saved (se : slave_env) (ok : bool) (file : option bytes) (c : rclient) : bool := ok && (if file then true else false) && open_ok se (fd c) && handler_ok se (fd c).

Definition lost (se : slave_env) (ok : bool) (file : option bytes) (c : rclient) : bool :=
  bool_decide (replstate c = REDIS_REPL_WAIT_BGSAVE_END) && negb (saved se ok file c).

(** A slave that is left. *)
Definition updated (file : option bytes) (p p' : rclient * (bytes * list bytes)) : Prop :=
  p'.2 = p.2 /\
  match replstate p.1 with
  | REDIS_REPL_WAIT_BGSAVE_START => p'.1 = set_replstate p.1 REDIS_REPL_WAIT_BGSAVE_END
  | REDIS_REPL_WAIT_BGSAVE_END => exists f s, file = Some f /\ sds_rep s (bulk_header f) /\
      p'.1 = set_slave p.1 (rflags p.1) REDIS_REPL_SEND_BULK false (repl_ack_time p.1) (mkBulk (Some f) 0 (msize f) (Some s) true)
  | _ => p'.1 = p.1
  end.

Lemma update_one se ok file c : (forall f, file = Some f -> msize f < 2 ^ 63) -> replstate c = REDIS_REPL_WAIT_BGSAVE_END -> forall h,
  let free := h <- freeSlave h c;; Some (h, @nil rclient, false, true) in
  let r := if negb ok then free else
    match file with
    | Some file => if negb (open_ok se (fd c)) then free else c' <- start_bulk c file;; if negb (handler_ok se (fd c)) then free else Some (h, [c'], false, false)
    | None => free
    end in
  (lost se ok file c = true /\ r = free) \/ (lost se ok file c = false /\ exists c', r = Some (h, [c'], false, false) /\ forall o, updated file (c, o) (c', o)).
Proof.
  intros Hf Hc h free r. unfold lost, saved, updated, r. cbn [fst snd]. rewrite Hc, bool_decide_eq_true_2 by done. cbn [andb]. destruct ok; cbn [negb andb]; [|by left].
  destruct file as [f|]; cbn [negb andb]; [|by left]. destruct (open_ok se (fd c)); cbn [negb andb]; [|by left]. destruct (start_bulk_spec c f (Hf f eq_refl)) as (s & -> & Hs). cbn [obind].
  destruct (handler_ok se (fd c)); cbn [negb]; [|by left]. right. split; [done|]. eexists. split; [done|]. intros o. split; [done|]. by exists f, s.
Qed.

Definition starts (c : rclient) : bool := bool_decide (replstate c = REDIS_REPL_WAIT_BGSAVE_START).

Lemma update_slaves_spec se ok file ext : (forall f, file = Some f -> msize f < 2 ^ 63) -> forall g pre h, group_ok ext h (pre ++ g) ->
  exists h' g' freed, update_slaves se ok file h g.*1 = Some (h', g'.*1, existsb starts g.*1, freed) /\ group_ok ext h' (pre ++ g') /\ keeps ext h h' /\
    Forall2 (updated file) (filter (fun q => lost se ok file q.1 = false) g) g'.
Proof.
  intros Hf. induction g as [|[c o] g IH]; intros pre h Hg; [exists h, [], false; split; [done|]; split; [done|]; split; [apply keeps_refl|constructor]|].
  rewrite fmap_cons. cbn [update_slaves fst existsb]. rewrite filter_cons. cbn [fst].
  assert (forall c', replnone c' = false -> same_output c c' -> group_ok ext h ((pre ++ [(c', o)]) ++ g)) as Hset.
  { intros c' Hn Hs. rewrite <- app_assoc. apply (group_fields ext h pre c c' o g Hg Hs). by rewrite Hn. }
  assert (forall c', starts c = false -> lost se ok file c = false -> group_ok ext h ((pre ++ [(c', o)]) ++ g) -> updated file (c, o) (c', o) -> exists h' g' freed,
    (' (h, l, start', freed') <- update_slaves se ok file h g.*1;; Some (h, [c'] ++ l, false || start', false || freed')) = Some (h', g'.*1, starts c || existsb starts g.*1, freed) /\
    group_ok ext h' (pre ++ g') /\ keeps ext h h' /\ Forall2 (updated file) ((c, o) :: filter (fun q => lost se ok file q.1 = false) g) g') as Hkeep.
  { intros c' Hst _ Hg1 Hu. destruct (IH _ h Hg1) as (h' & g' & freed & -> & Hg' & K & F). cbn [obind]. rewrite Hst. exists h', ((c', o) :: g'), freed. split; [done|].
    split; [by rewrite <- app_assoc in Hg'|]. split; [done|]. by constructor. }
  destruct (replstate c) eqn:Ec; cbn [obind].
  - assert (lost se ok file c = false) as El by (unfold lost; by rewrite Ec). rewrite decide_True by done. apply Hkeep; [unfold starts; by rewrite Ec|done|by rewrite <- app_assoc|]. unfold updated. cbn. by rewrite Ec.
  - assert (lost se ok file c = false) as El by (unfold lost; by rewrite Ec). rewrite decide_True by done. assert (starts c = true) as -> by (unfold starts; by rewrite Ec).
    destruct (IH (pre ++ [(set_replstate c REDIS_REPL_WAIT_BGSAVE_END, o)]) h) as (h' & g' & freed & -> & Hg' & K & F); [by apply Hset|]. cbn [obind].
    exists h', ((set_replstate c REDIS_REPL_WAIT_BGSAVE_END, o) :: g'), freed. split; [done|]. split; [by rewrite <- app_assoc in Hg'|]. split; [done|]. constructor; [|done]. unfold updated. cbn. by rewrite Ec.
  - assert (starts c = false) as Hst by (unfold starts; by rewrite Ec). destruct (update_one se ok file c Hf Ec h) as [[El ->]|(El & c' & -> & Hu)]; rewrite El.
    + rewrite decide_False by done. destruct (group_leave ext h pre c o g Hg) as (h1 & E1 & Hg1 & K1). unfold freeSlave. rewrite E1. cbn [obind].
      destruct (IH pre h1 Hg1) as (h' & g' & freed & -> & Hg' & K' & F). cbn [obind]. rewrite Hst. exists h', g', true. split; [done|]. split; [done|]. split; [by eapply keeps_trans|done].
    + rewrite decide_True by done. cbn [obind]. apply Hkeep; [done|done| |by apply Hu]. pose proof (Hu ([], [])) as [_ Hc']. cbn [fst] in Hc'. rewrite Ec in Hc'. destruct Hc' as (f & s & _ & _ & ->). by apply Hset.
  - assert (lost se ok file c = false) as El by (unfold lost; by rewrite Ec). rewrite decide_True by done. apply Hkeep; [unfold starts; by rewrite Ec|done|by rewrite <- app_assoc|]. unfold updated. cbn. by rewrite Ec.
  - assert (lost se ok file c = false) as El by (unfold lost; by rewrite Ec). rewrite decide_True by done. apply Hkeep; [unfold starts; by rewrite Ec|done|by rewrite <- app_assoc|]. unfold updated. cbn. by rewrite Ec.
Qed.

(** * The transfer *)

(** The slave was sent [tx] of the header and the file. *)
Definition transfer (b : bulk_state) (f tx : bytes) : Prop :=
  repldbfd b = Some f /\ repldbsize b = msize f /\ bulk_handler b = true /\ (0 <= repldboff b <= msize f /\ (f <> [] -> repldboff b < msize f)) /\
  match replpreamble b with
  | Some s => exists p, sds_rep s p /\ p <> [] /\ repldboff b = 0 /\ tx ++ p = bulk_header f
  | None => tx = bulk_header f ++ take (Z.to_nat (repldboff b)) f
  end.

Lemma range_from (p : bytes) n : 0 <= n <= msize p -> p <> [] -> range_of p n (-1) = drop (Z.to_nat n) p.
Proof.
  intros Hn Hp. assert (0 < msize p) by (destruct p; [done|]; rewrite msize_cons; pose proof (msize_nonneg p); lia). unfold range_of.
  assert (abs_index (msize p) n = n) as -> by (unfold abs_index; bdecide; lia). assert (abs_index (msize p) (-1) = msize p - 1) as -> by (unfold abs_index; bdecide; lia).
  f_equal. apply take_ge. unfold msize in *. lia.
Qed.

Lemma send_preamble_spec be c f tx : transfer (bulk c) f tx -> msize f < 2 ^ 63 ->
  (exists b' out, send_preamble be c = Some (Some (set_bulk c b'), out, true) /\ transfer b' f (tx ++ out) /\ replpreamble b' = None) \/
  (exists b' out, send_preamble be c = Some (Some (set_bulk c b'), out, false) /\ transfer b' f (tx ++ out) /\ (0 < room1 be -> out <> [])) \/
  send_preamble be c = Some (None, [], false) /\ room1 be < 0.
Proof.
  intros (H1 & H2 & H3 & H4 & H5) Hf. unfold send_preamble. destruct (replpreamble (bulk c)) as [s|] eqn:Ep.
  - destruct H5 as (p & Hs & Hne & Hoff & Htx). destruct (sds_rep_len s p Hs) as [-> Hl]. destruct (sds_rep_buf s p Hs) as (fr & ->).
    destruct (Z.ltb_spec (Z.min (room1 be) (msize p)) 0) as [|Hr]; [pose proof (msize_nonneg p); right; right; split; [done|lia]|]. set (n := Z.min (room1 be) (msize p)) in *.
    destruct (split_at p n) as (p1 & p2 & -> & Hp1); [lia|]. rewrite <- app_assoc, (load_at [] p1 (p2 ++ 0 :: fr)) by done. cbn [obind].
    destruct (sdsrange_rep s (p1 ++ p2) n (-1) Hs) as (s' & -> & Hs'); [lia|lia|]. cbn [obind]. rewrite range_from in Hs' by (lia || done).
    assert (drop (Z.to_nat n) (p1 ++ p2) = p2) as Ed by (rewrite <- Hp1; unfold msize; by rewrite Nat2Z.id, drop_app_length). rewrite Ed in Hs'. destruct (sds_rep_len s' p2 Hs') as [-> _].
    destruct (Z.eqb_spec (msize p2) 0) as [E|E].
    + apply msize_0_nil in E as ->. left. eexists _, p1. split; [done|]. split; [|done]. split; [done|]. split; [done|]. split; [done|]. split; [done|]. cbn [replpreamble repldboff].
      rewrite Hoff, app_nil_r. rewrite app_nil_r in Htx. done.
    + right. left. eexists _, p1. split; [done|]. split; [|intros Hpos ->; unfold n in Hp1; rewrite msize_app, !msize_nil in Hp1; pose proof (msize_nonneg p2); lia]. split; [done|]. split; [done|]. split; [done|]. split; [done|]. cbn [replpreamble repldboff]. exists p2. split; [done|]. split; [by intros ->|].
      split; [done|]. by rewrite <- app_assoc.
  - left. exists (bulk c), []. rewrite app_nil_r. split; [by destruct c|]. split; [|done]. split; [done|]. split; [done|]. split; [done|]. split; [done|]. by rewrite Ep.
Qed.

(** All system calls for the transfer succeed. *)
Definition cooperative (be : bulk_env) : Prop := 0 < room1 be /\ read_ok be = true /\ 0 < room2 be /\ ae_ok be = true.

Definition bulk_sent (be : bulk_env) (now : Z) (c : rclient) (f tx : bytes) (r : bulk_result) : Prop :=
  match r with
  | Kept c' out => exists b', c' = set_bulk c b' /\ transfer b' f (tx ++ out) /\ (cooperative be -> out <> [])
  | Online c' out => exists b', c' = set_slave c (rflags c) REDIS_REPL_ONLINE true now b' /\ bulk_handler b' = false /\ tx ++ out = bulk_header f ++ f
  | Lost _ => f <> [] -> ~ cooperative be
  end.

Lemma sendBulkToSlave_spec be now c f tx : transfer (bulk c) f tx -> msize f < 2 ^ 63 -> exists r, sendBulkToSlave be now c = Some r /\ bulk_sent be now c f tx r.
Proof.
  intros Ht Hf. unfold sendBulkToSlave. destruct (send_preamble_spec be c f tx Ht Hf) as [(b & out & -> & Hb & Ep)|[(b & out & -> & Hb & Ho)|[-> Hr]]]; cbn [obind negb].
  2: { eexists. split; [done|]. exists b. split; [done|]. split; [done|]. intros (? & _). by apply Ho. }
  2: { eexists. split; [done|]. intros _ (? & _). lia. }
  change (bulk (set_bulk c b)) with b. destruct Hb as (H1 & H2 & H3 & [H4 H4'] & H5). rewrite H1, H2, Ep in *. cbn [obind].
  set (buflen := if read_ok be then _ else -1). destruct (Z.leb_spec buflen 0) as [Hle0|Hpos].
  { eexists. split; [done|]. intros Hne (_ & Hro & _). specialize (H4' Hne). unfold buflen, REDIS_IOBUF_LEN in Hle0. rewrite Hro in Hle0. lia. }
  assert (buflen <= msize f - repldboff b) as Hle by (unfold buflen in *; destruct (read_ok be); lia).
  destruct (split_at f (repldboff b)) as (f1 & f2 & Ef & Hf1); [lia|]. assert (msize f = msize f1 + msize f2) as Hm by (rewrite Ef; apply msize_app).
  destruct (split_at f2 buflen) as (d & f3 & -> & Hd); [lia|]. rewrite msize_app in Hm. assert (load f (repldboff b) buflen = Some d) as -> by (rewrite Ef; by apply (load_at f1 d f3)). cbn [obind].
  destruct (Z.ltb_spec (Z.min (room2 be) buflen) 0) as [|Hr].
  { eexists. split; [done|]. destruct (again be); [|intros _ (_ & _ & ? & _); lia]. exists b. split; [done|]. split; [|intros (_ & _ & ? & _); lia].
    split; [done|]. split; [done|]. split; [done|]. split; [done|]. by rewrite Ep. }
  set (n := Z.min (room2 be) buflen) in *. pose proof (msize_nonneg f3). destruct (split_at d n) as (d1 & d2 & -> & Hd1); [lia|]. rewrite msize_app in Hd.
  assert (take (Z.to_nat n) (d1 ++ d2) = d1) as -> by (rewrite <- Hd1; unfold msize; by rewrite Nat2Z.id, take_app_length).
  rewrite ll_arith_Some by (unfold LLONG_MIN, LLONG_MAX; lia). cbn [obind].
  assert (take (Z.to_nat (repldboff b)) f = f1) as Et by (rewrite Ef, <- Hf1; unfold msize; by rewrite Nat2Z.id, take_app_length). rewrite Et in H5.
  destruct (Z.eqb_spec (repldboff b + n) (msize f)) as [E|E].
  - assert (d2 = []) as -> by (apply msize_0_nil; pose proof (msize_nonneg d2); rewrite msize_app in Hm; lia).
    assert (f3 = []) as -> by (apply msize_0_nil; rewrite msize_app, msize_nil in Hm; lia). rewrite !app_nil_r in Ef.
    destruct (ae_ok be) eqn:Eae; (eexists; split; [done|]); [|intros _ (_ & _ & _ & ?); congruence]. eexists. split; [done|]. split; [done|]. rewrite app_assoc, H5, Ef. by lsimpl.
  - eexists. split; [done|]. eexists. split; [done|].
    split; [|intros (_ & _ & ? & _) [_ ->]%app_nil; rewrite msize_nil in Hd1; lia]. split; [done|]. split; [done|]. split; [done|]. cbn [repldboff replpreamble]. split; [split; [lia|intros _; pose proof (msize_nonneg d2); rewrite msize_app in Hm; lia]|]. rewrite app_assoc, H5, <- app_assoc. f_equal.
    replace (f1 ++ d1) with (take (Z.to_nat (repldboff b + n)) ((f1 ++ d1) ++ d2 ++ f3)); [f_equal; rewrite Ef; by lsimpl|].
    replace (Z.to_nat (repldboff b + n)) with (length (f1 ++ d1)); [by rewrite take_app_length|]. rewrite length_app. unfold msize in *. lia.
Qed.

(** Events for a slave until its transfer is over. *)
Fixpoint bulk_run (bes : list bulk_env) (now : Z) (c : rclient) : option (rclient * bytes) :=
  match bes with
  | [] => Some (c, [])
  | be :: bes =>
    r <- sendBulkToSlave be now c;;
    match r with
    | Kept c out => ' (c, more) <- bulk_run bes now c;; Some (c, out ++ more)
    | Online c out => Some (c, out)
    | Lost _ => None
    end
  end.

Lemma bulk_run_spec f : f <> [] -> msize f < 2 ^ 63 -> forall bes now c tx, transfer (bulk c) f tx -> Forall cooperative bes ->
  msize (bulk_header f ++ f) <= msize tx + Z.of_nat (length bes) ->
  exists b' out, bulk_run bes now c = Some (set_slave c (rflags c) REDIS_REPL_ONLINE true now b', out) /\ bulk_handler b' = false /\ tx ++ out = bulk_header f ++ f.
Proof.
  intros Hne Hf. induction bes as [|be bes IH]; intros now c tx Ht Hb Hlen; cbn [bulk_run].
  - exfalso. destruct Ht as (_ & _ & _ & [H4 H4'] & H5). specialize (H4' Hne). cbn [length] in Hlen. rewrite msize_app in Hlen. destruct (replpreamble (bulk c)).
    + destruct H5 as (p & _ & Hp & _ & E). apply (f_equal msize) in E. rewrite msize_app in E. destruct p; [done|]. rewrite msize_cons in E. pose proof (msize_nonneg p). pose proof (msize_nonneg f). lia.
    + rewrite H5, msize_app in Hlen. assert (msize (take (Z.to_nat (repldboff (bulk c))) f) = repldboff (bulk c)) by (unfold msize in *; rewrite length_take; lia). lia.
  - apply list.Forall_cons in Hb as [Hbe Hb]. destruct (sendBulkToSlave_spec be now c f tx Ht Hf) as (r & -> & Hr). cbn [obind]. destruct r as [c' out|c' out|out]; [..|by destruct (Hr Hne)].
    + destruct Hr as (b' & -> & Ht' & Ho). specialize (Ho Hbe). destruct (IH now (set_bulk c b') (tx ++ out) Ht' Hb) as (b2 & out2 & -> & Hh & E).
      { rewrite (msize_app tx). destruct out; [done|]. rewrite msize_cons. pose proof (msize_nonneg out). cbn [length] in Hlen. lia. }
      cbn [obind]. exists b2, (out ++ out2). split; [done|]. split; [done|]. by rewrite app_assoc.
    + destruct Hr as (b' & -> & Hh & E). by exists b', out.
Qed.

End Sync.
