(* ===== verification/ReplicaSystem.v ===== *)
(** A master and its slaves: commands, resynchronisation, background saves, events and the timer in any order.

    Each slave that is online was sent a dump of the dataset after a number of commands and the commands that follow it, or the bytes of the replication
    stream from the offset it asked for. *)

From stdpp Require Import gmap relations.
From S2P Require Import Prelude Util Sds SdsArgs SdsRep Rdb RioSpec Networking NetworkingSpec Aof AofSpec Reply ReplySpec ReplyOps ReplySend ReplyDefer ReplyHistory ReplyClients Replication Backlog ReplicationSpec FullSync FullSyncSpec.

(** * What a slave executes *)

(** A command with its database, as the argument of SELECT. *)
Abbreviation command := (option bytes * list bytes)%type.

Definition s_PING : bytes := [80; 73; 78; 71].

Definition is_select (args : list bytes) : option bytes :=
  match args with
  | [s; d] => if bool_decide (s = s_SELECT) then Some d else None
  | _ => None
  end.

(** The commands that change the dataset, in what a slave receives. *)
Fixpoint interp (db : option bytes) (R : list (list bytes)) : list command :=
  match R with
  | [] => []
  | args :: R =>
    match is_select args with
    | Some d => interp (Some d) R
    | None => if bool_decide (args = [s_PING]) then interp db R else (db, args) :: interp db R
    end
  end.

Fixpoint db_after (db : option bytes) (R : list (list bytes)) : option bytes :=
  match R with
  | [] => db
  | args :: R => db_after (match is_select args with Some d => Some d | None => db end) R
  end.

Lemma interp_app R1 R2 : forall db, interp db (R1 ++ R2) = interp db R1 ++ interp (db_after db R1) R2.
Proof.
  induction R1 as [|args R1 IH]; intros db; [done|]. cbn [app interp db_after]. destruct (is_select args); [apply IH|]. rewrite IH. by destruct (bool_decide _).
Qed.

Lemma db_after_app R1 R2 : forall db, db_after db (R1 ++ R2) = db_after (db_after db R1) R2.
Proof. induction R1 as [|args R1 IH]; intros db; [done|]. cbn [app db_after]. by rewrite IH. Qed.

(** A command that the server propagates; the parser of a slave accepts it. *)
Definition proper (args : list bytes) : Prop := is_select args = None /\ args <> [s_PING] /\ cmd_ok args.

(** The parser accepts the commands, and the database of the slave is the one the server assumes. *)
Definition selected (R : list (list bytes)) (sel : Z) : Prop := Forall cmd_ok R /\ (sel = -1 \/ db_after None R = Some (printf_d sel)).

Definition select_only (sel dictid : Z) : list (list bytes) := if dictid =? sel then [] else [[s_SELECT; printf_d dictid]].

Lemma select_only_bytes sel dictid : log_bytes (select_only sel dictid) = select_bytes sel dictid.
Proof. unfold select_only, select_bytes. rewrite Z.eqb_sym. destruct (_ =? _); [done|]. unfold log_bytes. cbn. by rewrite app_nil_r. Qed.

Lemma with_select_only sel dictid args : with_select sel dictid [args] = select_only sel dictid ++ [args].
Proof. unfold with_select, select_only. by destruct (_ =? _). Qed.

Lemma select_cmd_ok `{Host} dictid : 0 <= dictid < 2 ^ 31 -> cmd_ok [s_SELECT; printf_d dictid].
Proof.
  intros Hd. destruct (ll2string_printf (zmalloc 32) 32 dictid) as (_ & _ & Hl & _); [unfold LLONG_MIN, LLONG_MAX; lia|lia|unfold zmalloc; rewrite msize_fresh; lia|].
  split; [done|]. split; [by vm_compute|]. constructor; [by vm_compute|]. constructor; [lia|done].
Qed.

Lemma select_only_interp `{Host} R sel dictid : selected R sel -> 0 <= dictid < 2 ^ 31 ->
  interp None (R ++ select_only sel dictid) = interp None R /\ Forall cmd_ok (R ++ select_only sel dictid) /\ db_after None (R ++ select_only sel dictid) = Some (printf_d dictid).
Proof.
  intros [Hc Hs] Hd. unfold select_only. destruct (Z.eqb_spec dictid sel) as [->|Hne].
  - rewrite app_nil_r. split; [done|]. split; [done|]. destruct Hs as [->|Hs]; [lia|done].
  - rewrite interp_app, db_after_app. cbn. rewrite app_nil_r. split; [done|]. split; [|done]. apply Forall_app. split; [done|]. constructor; [by apply select_cmd_ok|done].
Qed.

Lemma command_interp `{Host} R sel dictid args : selected R sel -> 0 <= dictid < 2 ^ 31 -> proper args ->
  interp None (R ++ with_select sel dictid [args]) = interp None R ++ [(Some (printf_d dictid), args)] /\ selected (R ++ with_select sel dictid [args]) dictid.
Proof.
  intros Hs Hd (H1 & H2 & H3). destruct (select_only_interp R sel dictid Hs Hd) as (E1 & E2 & E3). unfold selected. rewrite with_select_only, app_assoc, interp_app, (db_after_app (R ++ _)), E1, E3. cbn.
  rewrite H1, bool_decide_eq_false_2 by done. split; [done|]. split; [|by right]. apply Forall_app. split; [done|by constructor].
Qed.

Lemma ping_interp R sel : selected R sel -> interp None (R ++ [[s_PING]]) = interp None R /\ selected (R ++ [[s_PING]]) sel.
Proof.
  intros [Hc Hs]. unfold selected. rewrite interp_app, db_after_app. cbn. rewrite app_nil_r. split; [done|]. split; [|done]. apply Forall_app. split; [done|]. constructor; [|done].
  split; [done|]. split; [by vm_compute|]. constructor; [by vm_compute|done].
Qed.

(** * The system *)

(** Why a slave is online: a partial resynchronisation from an offset, or a full one after an answer. For a slave that the server started a background save for,
    the first byte after the dump has a known offset. *)
Inductive origin := Partial (v : Z) | Full (answer : bytes) (v : option Z).

(** What was written to the socket of a slave. *)
Record replica := mkReplica { came : origin; wrote : bytes }.

(** The server, the references to objects from elsewhere, the commands that were executed, how many of them the child of the last [fork] has seen, the bytes of
    the replication stream since the backlog was created with the offset of the first, and the slaves. *)
Record system := mkSystem {
  y_server : sync_server; y_held : oid -> Z; y_log : list command; y_snap : nat; y_stream : bytes; y_first : Z; y_replicas : list replica
}.

Definition more (r : replica) (out : bytes) : replica := mkReplica (came r) (wrote r ++ out).

(** The replicas of the slaves without [p]. *)
Definition keep (p : rclient -> bool) (l : list rclient) (rs : list replica) : list replica := (filter (fun x => p x.1 = false) (zip l rs)).*2.

(** An event for the slave at [i], which may have been freed. *)
Definition after_event (s s' : sync_server) (i : nat) (out : bytes) (rs : list replica) : list replica :=
  if bool_decide (length (slaves (fm s')) = length (slaves (fm s))) then alter (fun r => more r out) i rs else delete i rs.

Definition has_backlog (s : sync_server) : bool := if repl_backlog (srv (fm s)) then true else false.

Definition set_file (s : sync_server) (f : option bytes) : sync_server :=
  mkSync (fm s) (rdb_child s) f (rdb_stat s) (repl_scriptcache_fifo s) (stat_sync_full s) (stat_sync_partial_ok s) (stat_sync_partial_err s) (repl_no_slaves_since s).

Definition file_ok (f : option bytes) : Prop := forall b, f = Some b -> msize b < 2 ^ 63.

Definition ping_due (cc : cron_conf) (cronloops : Z) : bool := Z.rem cronloops (repl_ping_slave_period cc * hz cc) =? 0.

Section System.
Context {HOST : Host} {AL : Allocator} {LAWS : AllocatorLaws AL}.
Variable shared : sharedObjects.
Variable conf : repl_conf.
(** The files that [rdbSave] writes when these commands were executed. *)
Variable dump_of : list command -> bytes -> Prop.

(** A client that asks for synchronisation. *)
Definition requester (c : rclient) : Prop :=
  fresh_client c /\ writable c /\ limit_ok c 2 /\ SLAVE (rflags c) = false /\ write_handler c = false /\ bulk_handler (bulk c) = false.

(** The request: SYNC, or PSYNC with the offset [v]. *)
Definition request (h : heap) (argv : list oid) (psync : bool) (v : Z) : Prop :=
  exists o0 a0 rest, argv = o0 :: rest /\ string_arg h o0 a0 /\ psync = same_text a0 [112; 115; 121; 110; 99] /\
    (psync = true -> exists o1 a1 o2 rest', rest = o1 :: o2 :: rest' /\ string_arg h o1 a1 /\ getLongLongFromObject h o2 = Some (Some v)).

Definition joins (s s' : sync_server) (v : Z) (out : bytes) : replica :=
  mkReplica (if bool_decide (out = CONTINUE) then Partial v else Full out (if rdb_child s then None else Some (master_repl_offset (srv (fm s')) + 1))) out.

(** The answer to PSYNC has the run id and an offset, which is the one of the byte before the first that follows the dump where this is known; there is no answer to SYNC. *)
Definition announced (r : replica) : Prop :=
  match came r with
  | Full answer v => answer = [] \/ exists o, 0 <= o < LLONG_MAX - 2 ^ 32 /\ answer = FULLRESYNC ++ runid conf ++ [32] ++ printf_d o ++ [13; 10] /\ forall p, v = Some p -> o = p - 1
  | _ => True
  end.

(** What other parts of the server may change: objects that the slaves do not use, statistics, the file, and the times of REPLCONF ACK. *)
Definition elsewhere (ext ext' : oid -> Z) (s s' : sync_server) : Prop :=
  srv (fm s') = srv (fm s) /\ rdb_child s' = rdb_child s /\ file_ok (rdb_file s') /\
  Forall2 (fun c c' => exists t, c' = set_slave c (rflags c) (replstate c) (write_handler c) t (bulk c)) (slaves (fm s)) (slaves (fm s')) /\
  refs ext' (mheap (fm s')) (lists (slaves (fm s))) /\ keeps (fun o => occ o (lists (slaves (fm s)))) (mheap (fm s)) (mheap (fm s')) /\
  shared_ok shared ext' (mheap (fm s')) /\ select_ok shared ext' (mheap (fm s')).

(** The system calls that the assumptions are about succeed; system calls on the sockets of slaves may fail. *)
Inductive rstep : system -> system -> Prop :=
  | step_elsewhere s s' ext ext' lg sn st fi rs : elsewhere ext ext' s s' -> rstep (mkSystem s ext lg sn st fi rs) (mkSystem s' ext' lg sn st fi rs)
  | step_command e s m' ext lg sn st fi rs dictid argv args : aeCreateFileEvent_ok e = true -> args_ok shared argv args ext (mheap (fm s)) -> proper args ->
      0 <= dictid < 2 ^ 31 -> msize argv < 2 ^ 31 -> Forall (fun c => limit_ok c (2 + 3 * msize argv)) (slaves (fm s)) ->
      offset_ok (srv (fm s)) (msize (command_bytes (slaveseldb (srv (fm s))) dictid args)) ->
      replicationFeedSlaves shared e (fm s) dictid argv = Some m' ->
      rstep (mkSystem s ext lg sn st fi rs)
            (mkSystem (set_master s m') ext (lg ++ [(Some (printf_d dictid), args)]) sn
               (if has_backlog s then st ++ command_bytes (slaveseldb (srv (fm s))) dictid args else st) fi rs)
  | step_sync e fe s s' ext lg sn st fi rs c argv psync v out : aeCreateFileEvent_ok e = true -> requester c -> request (mheap (fm s)) argv psync v ->
      offset_ok (srv (fm s)) 2 -> syncCommand e fe conf s c argv false true = Some (s', None, out) ->
      rstep (mkSystem s ext lg sn st fi rs)
            (mkSystem s' ext lg (if rdb_child s then sn else if rdb_child s' then length lg else sn) (if has_backlog s then st else [])
               (if has_backlog s then fi else master_repl_offset (srv (fm s')) + 1) (rs ++ [joins s s' v out]))
  | step_bgsave fe s s' ext lg sn st fi rs : rdbSaveBackground fe s = (s', true) -> rstep (mkSystem s ext lg sn st fi rs) (mkSystem s' ext lg (length lg) st fi rs)
  | step_saved se fe now s f s' ext lg sn st fi rs exitcode : rdb_child s = true -> forked fe = true -> file_ok f ->
      (exitcode = 0 -> exists b, f = Some b /\ dump_of (take sn lg) b) ->
      backgroundSaveDoneHandler se fe conf now (set_file s f) exitcode 0 = Some s' ->
      rstep (mkSystem s ext lg sn st fi rs)
            (mkSystem s' ext lg (if rdb_child s' then length lg else sn) st fi (keep (lost se (exitcode =? 0) f) (slaves (fm s)) rs))
  | step_bulk be now s s' ext lg sn st fi rs i c out : slaves (fm s) !! i = Some c -> bulk_handler (bulk c) = true -> bulk_event be conf now s i = Some (s', out) ->
      rstep (mkSystem s ext lg sn st fi rs) (mkSystem s' ext lg sn st fi (after_event s s' i out rs))
  | step_write sd now s s' ext lg sn st fi rs i c out : slaves (fm s) !! i = Some c -> write_handler c = true -> room_sum (writes sd) < 2 ^ 31 ->
      reply_event sd conf now s i = Some (s', out) -> rstep (mkSystem s ext lg sn st fi rs) (mkSystem s' ext lg sn st fi (after_event s s' i out rs))
  | step_close now s s' ext lg sn st fi rs i : free_slave_at conf now s i = Some s' -> rstep (mkSystem s ext lg sn st fi rs) (mkSystem s' ext lg sn st fi (delete i rs))
  | step_resize s r' ext lg sn st fi rs n : n < 2 ^ 31 - 1 -> offset_ok (srv (fm s)) 0 -> resizeReplicationBacklog (srv (fm s)) n = Some r' ->
      rstep (mkSystem s ext lg sn st fi rs)
            (mkSystem (set_master s (mkMaster r' (mheap (fm s)) (slaves (fm s)) (repl_good_slaves_count (fm s)))) ext lg sn st fi rs)
  | step_cron e cc write_ok cronloops s m1 s' ext lg sn st fi rs outs : aeCreateFileEvent_ok e = true -> Forall (fun c => limit_ok c 5) (slaves (fm s)) ->
      offset_ok (srv (fm s)) 100 -> cron_ping shared e cc write_ok cronloops (fm s) = Some (m1, outs) -> replicationCron shared e cc conf write_ok cronloops s = Some (s', outs) ->
      rstep (mkSystem s ext lg sn st fi rs)
            (mkSystem s' ext lg sn (if ping_due cc cronloops && has_backlog s then st ++ cmd_bytes [s_PING] else st) fi
               (keep (timed_out cc (unixtime e)) (slaves m1) (zip_with more rs outs))).

(** * The invariant *)

(** The slave that executes [R] after [k] commands has executed all of them. *)
Definition replays (y : system) (v : option Z) (k : nat) (R : list (list bytes)) : Prop :=
  (k <= length (y_log y))%nat /\ interp None R = drop k (y_log y) /\ selected R (slaveseldb (srv (fm (y_server y)))) /\
  forall p, v = Some p -> y_first y <= p <= y_first y + msize (y_stream y) /\ log_bytes R = drop (Z.to_nat (p - y_first y)) (y_stream y).

Definition newlines (n : nat) : bytes := replicate n 10.

Definition slave_online (y : system) (p : rclient * (bytes * list bytes)) (r : replica) : Prop :=
  match came r with
  | Partial v => y_first y <= v <= y_first y + msize (y_stream y) /\ wrote r ++ left p = CONTINUE ++ drop (Z.to_nat (v - y_first y)) (y_stream y)
  | Full answer v => exists n k f R, wrote r ++ left p = answer ++ newlines n ++ bulk_header f ++ f ++ log_bytes R /\ dump_of (take k (y_log y)) f /\ replays y v k R
  end.

Definition slave_waiting (y : system) (p : rclient * (bytes * list bytes)) (r : replica) : Prop :=
  exists answer v n R, came r = Full answer v /\ left p = log_bytes R /\ sentlen p.1 = 0 /\ write_handler p.1 = false /\
  match replstate p.1 with
  | REDIS_REPL_WAIT_BGSAVE_START => wrote r = answer ++ newlines n /\ bulk_handler (bulk p.1) = false /\ v = None /\ interp None R = [] /\
      selected R (slaveseldb (srv (fm (y_server y))))
  | REDIS_REPL_WAIT_BGSAVE_END => wrote r = answer ++ newlines n /\ bulk_handler (bulk p.1) = false /\ rdb_child (y_server y) = true /\ replays y v (y_snap y) R
  | _ => exists f tx k, wrote r = answer ++ newlines n ++ tx /\ transfer (bulk p.1) f tx /\ msize f < 2 ^ 63 /\ dump_of (take k (y_log y)) f /\ replays y v k R
  end.

Definition slave_ok (y : system) (p : rclient * (bytes * list bytes)) (r : replica) : Prop :=
  writable p.1 /\
  match replstate p.1 with
  | REDIS_REPL_NONE => False
  | REDIS_REPL_ONLINE => bulk_handler (bulk p.1) = false /\ slave_online y p r
  | _ => slave_waiting y p r
  end.

Definition backlog_wf (y : system) : Prop :=
  let r := srv (fm (y_server y)) in
  0 <= master_repl_offset r /\ 0 < repl_backlog_size r < 2 ^ 31 - 1 /\ in_sint 32 (slaveseldb r) /\
  match repl_backlog r with
  | None => slaves (fm (y_server y)) = []
  | Some _ => exists D, ends (y_stream y) D /\ backlog_ok r D /\ master_repl_offset r + 1 = y_first y + msize (y_stream y)
  end.

Definition wf (y : system) : Prop :=
  let s := y_server y in
  (exists g, slaves (fm s) = g.*1 /\ group_ok (y_held y) (mheap (fm s)) g /\ Forall2 (slave_ok y) g (y_replicas y)) /\
  shared_ok shared (y_held y) (mheap (fm s)) /\ select_ok shared (y_held y) (mheap (fm s)) /\ backlog_wf y /\ file_ok (rdb_file s) /\ (y_snap y <= length (y_log y))%nat.

(** * Changes that slaves do not notice *)

Abbreviation seldb y := (slaveseldb (srv (fm (y_server y)))).

Definition same_history (y y' : system) : Prop :=
  y_log y' = y_log y /\ y_stream y' = y_stream y /\ y_first y' = y_first y /\ (seldb y' = seldb y \/ seldb y' = -1).

Lemma selected_change R y y' : same_history y y' -> selected R (seldb y) -> selected R (seldb y').
Proof. intros (_ & _ & _ & [->| ->]) H; [done|]. split; [apply H|by left]. Qed.

Lemma replays_change y y' v k R : same_history y y' -> replays y v k R -> replays y' v k R.
Proof. intros Hh (H1 & H2 & H3 & H4). pose proof Hh as (E1 & E2 & E3 & _). unfold replays. rewrite E1, E2, E3. split; [done|]. split; [done|]. split; [by eapply selected_change|done]. Qed.

Definition same_child (y y' : system) : Prop := rdb_child (y_server y') = rdb_child (y_server y) /\ y_snap y' = y_snap y.

Lemma online_change y y' p r : same_history y y' -> slave_online y p r -> slave_online y' p r.
Proof.
  intros Hh. pose proof Hh as (E1 & E2 & E3 & _). unfold slave_online. rewrite E1, E2, E3. destruct (came r); [done|]. intros (n & k & f & R & H1 & H2 & H3). exists n, k, f, R.
  split; [done|]. split; [done|]. by eapply replays_change.
Qed.

Lemma waiting_change y y' p r : same_history y y' -> (replstate p.1 = REDIS_REPL_WAIT_BGSAVE_END -> rdb_child (y_server y) = true -> same_child y y') ->
  slave_waiting y p r -> slave_waiting y' p r.
Proof.
  intros Hh Hc (answer & v & n & R & H1 & H2 & H3 & H4 & H5). exists answer, v, n, R. split; [done|]. split; [done|]. split; [done|]. split; [done|]. pose proof Hh as (E1 & _).
  destruct (replstate p.1) eqn:Es; rewrite ?E1.
  1, 4, 5: destruct H5 as (f & tx & k & ? & ? & ? & ? & ?); exists f, tx, k; repeat (split; [done|]); by eapply replays_change.
  - destruct H5 as (? & ? & ? & ? & ?). repeat (split; [done|]). by eapply selected_change.
  - destruct H5 as (? & ? & C & ?). destruct (Hc eq_refl C) as [-> ->]. repeat (split; [done|]). by eapply replays_change.
Qed.

Lemma slave_change y y' p r : same_history y y' -> (replstate p.1 = REDIS_REPL_WAIT_BGSAVE_END -> rdb_child (y_server y) = true -> same_child y y') -> slave_ok y p r -> slave_ok y' p r.
Proof.
  intros Hh Hc [Hw Hs]. split; [done|]. destruct (replstate p.1) eqn:Es; [done|..]; try (eapply waiting_change; [done|by rewrite Es|done]).
  destruct Hs as [? Hs]. split; [done|]. by eapply online_change.
Qed.

Lemma slaves_change y y' g rs : same_history y y' -> (rdb_child (y_server y) = true -> same_child y y') -> Forall2 (slave_ok y) g rs -> Forall2 (slave_ok y') g rs.
Proof. intros Hh Hc. apply Forall2_impl. intros p r. apply slave_change; [done|]. intros _. apply Hc. Qed.

(** Fields of a client that do not matter here. *)
Lemma slave_fields y c c' o r : slave_ok y (c, o) r -> (writable c -> writable c') -> replstate c' = replstate c -> sentlen c' = sentlen c -> write_handler c' = write_handler c -> bulk c' = bulk c ->
  slave_ok y (c', o) r.
Proof.
  intros [Hw Hs] H0 H1 H2 H3 H4. assert (left (c', o) = left (c, o)) as El by (unfold left; cbn [fst snd]; by rewrite H2). unfold slave_ok, slave_waiting, slave_online in *. cbn [fst snd] in *.
  rewrite H1, H2, H3, H4, El. split; [by apply H0|done].
Qed.

(** * The stream grows *)

(** The server propagates [X], which has the commands [L]; slaves that wait for a background save to start receive [XS]. *)
Record advance (y y' : system) (X XS : list (list bytes)) (L : list command) : Prop := {
  ad_log : y_log y' = y_log y ++ L;
  ad_stream : y_stream y' = y_stream y ++ log_bytes X;
  ad_first : y_first y' = y_first y;
  ad_child : same_child y y';
  ad_snap : (y_snap y <= length (y_log y))%nat;
  ad_cmd : forall R, selected R (seldb y) -> interp None (R ++ X) = interp None R ++ L /\ selected (R ++ X) (seldb y');
  ad_start : forall R, selected R (seldb y) -> interp None (R ++ XS) = interp None R /\ selected (R ++ XS) (seldb y')
}.

Lemma drop_grow {A} (n : nat) (l d : list A) : (n <= length l)%nat -> drop n (l ++ d) = drop n l ++ d.
Proof. intros Hn. by apply drop_app_le. Qed.

Lemma replays_grow y y' X L v k R : y_log y' = y_log y ++ L -> y_stream y' = y_stream y ++ log_bytes X -> y_first y' = y_first y ->
  (forall R, selected R (seldb y) -> interp None (R ++ X) = interp None R ++ L /\ selected (R ++ X) (seldb y')) -> replays y v k R -> replays y' v k (R ++ X).
Proof.
  intros E1 E2 E3 Hc (H1 & H2 & H3 & H4). destruct (Hc R H3) as [C1 C2]. unfold replays. rewrite E1, E2, E3, length_app, msize_app. split; [lia|].
  split; [by rewrite C1, H2, drop_grow|]. split; [done|]. intros p Hp. destruct (H4 p Hp) as [? E]. pose proof (msize_nonneg (log_bytes X)). split; [lia|].
  rewrite log_bytes_app, E, drop_grow; [done|]. unfold msize in *. lia.
Qed.

Lemma replays_advance y y' X XS L v k R : advance y y' X XS L -> replays y v k R -> replays y' v k (R ++ X).
Proof. intros [E1 E2 E3 _ _ Hc _]. by eapply replays_grow. Qed.

Lemma take_log y y' X XS L k : advance y y' X XS L -> (k <= length (y_log y))%nat -> take k (y_log y') = take k (y_log y).
Proof. intros A Hk. rewrite (ad_log _ _ _ _ _ A). by apply take_app_le. Qed.

Lemma slave_advance y y' X XS L kk p p' r : advance y y' X XS L ->
  grown kk (if bool_decide (replstate p.1 = REDIS_REPL_WAIT_BGSAVE_START) then log_bytes XS else log_bytes X) p p' -> slave_ok y p r -> slave_ok y' p' r.
Proof.
  intros A (S & _ & G) [Hw Hs]. split; [by apply S|]. rewrite (st_repl _ _ S). pose proof (st_idle _ _ S) as Hidle. unfold replnone in Hidle.
  destruct (replstate p.1) eqn:Es; [done|..].
  4: { destruct Hs as [Hb Hs]. split; [by rewrite (st_bulk _ _ S)|]. rewrite bool_decide_eq_false_2 in G by done. unfold slave_online in *. destruct (came r) as [v|answer v].
    - destruct Hs as [Hv E]. rewrite (ad_first _ _ _ _ _ A), (ad_stream _ _ _ _ _ A), msize_app. pose proof (msize_nonneg (log_bytes X)). split; [lia|].
      rewrite G, app_assoc, E, drop_grow by (unfold msize in *; lia). by rewrite <- app_assoc.
    - destruct Hs as (n & k & f & R & E & Hd & Hr). exists n, k, f, (R ++ X). rewrite G, app_assoc, E, log_bytes_app. split; [by rewrite <- !app_assoc|].
      split; [by rewrite (take_log _ _ _ _ _ _ A) by apply Hr|by eapply replays_advance]. }
  all: destruct Hs as (answer & v & n & R & H1 & H2 & H3 & H4 & H5); rewrite Es in H5; unfold slave_waiting; rewrite (st_repl _ _ S), Es, (st_bulk _ _ S), (st_sent _ _ S), Hidle by done.
  - rewrite bool_decide_eq_true_2 in G by done. exists answer, v, n, (R ++ XS). rewrite G, log_bytes_app, H2. destruct H5 as (? & ? & ? & E & Hsel).
    destruct (ad_start _ _ _ _ _ A R Hsel) as [C1 C2]. rewrite C1, E. done.
  - rewrite bool_decide_eq_false_2 in G by done. exists answer, v, n, (R ++ X). rewrite G, log_bytes_app, H2. destruct H5 as (? & ? & ? & Hr). destruct (ad_child _ _ _ _ _ A) as [-> ->].
    repeat (split; [done|]). by eapply replays_advance.
  - rewrite bool_decide_eq_false_2 in G by done. exists answer, v, n, (R ++ X). rewrite G, log_bytes_app, H2. repeat (split; [done|]). destruct H5 as (f & tx & k & ? & ? & ? & Hd & Hr).
    exists f, tx, k. repeat (split; [done|]). split; [by rewrite (take_log _ _ _ _ _ _ A) by apply Hr|by eapply replays_advance].
Qed.

Lemma slaves_writable y g rs (P : rclient -> Prop) : Forall2 (slave_ok y) g rs -> Forall P g.*1 -> Forall (fun p => writable p.1 /\ P p.1) g.
Proof.
  intros F H. apply (Forall_fmap fst) in H. induction F as [|p r g rs [Hw _] _ IH]; [done|]. apply list.Forall_cons in H as [H1 H2]. constructor; [done|by apply IH].
Qed.

Lemma slaves_advance y y' X XS L kk (d : rclient -> bytes) g g' rs : advance y y' X XS L ->
  (forall c, d c = if bool_decide (replstate c = REDIS_REPL_WAIT_BGSAVE_START) then log_bytes XS else log_bytes X) ->
  Forall2 (fun p p' => grown kk (d p.1) p p') g g' -> Forall2 (slave_ok y) g rs -> Forall2 (slave_ok y') g' rs.
Proof.
  intros A Hd G. revert rs. induction G as [|p p' g g' Hp _ IH]; intros rs F; [by apply list.Forall2_nil_inv_l in F as ->; constructor|].
  apply list.Forall2_cons_inv_l in F as (r & rs' & Hr & F & ->). constructor; [|by apply IH]. eapply slave_advance; [exact A|rewrite <- Hd; exact Hp|exact Hr].
Qed.

(** ** Commands *)

Lemma sent_to_bytes sel dictid args c :
  sent_to sel dictid args c = if bool_decide (replstate c = REDIS_REPL_WAIT_BGSAVE_START) then log_bytes (select_only sel dictid) else log_bytes (with_select sel dictid [args]).
Proof.
  unfold sent_to, command_for. rewrite with_select_only, log_bytes_app, select_only_bytes. destruct (bool_decide _); [by rewrite app_nil_r|]. unfold log_bytes. cbn. by rewrite app_nil_r.
Qed.

Lemma wf_command e y dictid argv args : let s := y_server y in wf y -> aeCreateFileEvent_ok e = true -> args_ok shared argv args (y_held y) (mheap (fm s)) -> proper args ->
  0 <= dictid < 2 ^ 31 -> msize argv < 2 ^ 31 -> Forall (fun c => limit_ok c (2 + 3 * msize argv)) (slaves (fm s)) ->
  offset_ok (srv (fm s)) (msize (command_bytes (slaveseldb (srv (fm s))) dictid args)) ->
  exists m', replicationFeedSlaves shared e (fm s) dictid argv = Some m' /\
    wf (mkSystem (set_master s m') (y_held y) (y_log y ++ [(Some (printf_d dictid), args)]) (y_snap y)
          (if has_backlog s then y_stream y ++ command_bytes (slaveseldb (srv (fm s))) dictid args else y_stream y) (y_first y) (y_replicas y)).
Proof.
  intros s ((g & Eg & Hg & F) & Hsh & Hsel & (Hm & Hsz & Hdb & Hbl) & Hf & Hsn) He Ha Hp Hd Hlen Hlim Hoff. fold s in Eg, Hg, Hsh, Hsel, Hm, Hsz, Hdb, Hbl, Hf.
  unfold has_backlog. destruct (repl_backlog (srv (fm s))) as [b|] eqn:Eb.
  - destruct Hbl as (D & HD & Hok & Hoffs). destruct (feed_command_spec shared e He (y_held y) (fm s) g D dictid argv args Eg Hg Hsel Ha Hok) as (m' & g' & E & Eg' & Hg' & K & Hok' & Es & _ & Eo & G);
      [unfold in_sint; lia|done| |done|]. { rewrite Eg in Hlim. exact (slaves_writable y g _ _ F Hlim). }
    exists m'. split; [done|]. unfold wf, backlog_wf. cbn [y_server y_held y_log y_snap y_stream y_first y_replicas fm set_master rdb_file].
    assert (exists b', repl_backlog (srv m') = Some b' /\ repl_backlog_size (srv m') < 2 ^ 31 - 1 /\ 0 < repl_backlog_size (srv m')) as (b' & -> & Hs1 & Hs2).
    { destruct Hok' as (b' & R & T & Eb' & Hb' & Hs & Hr & _). exists b'. destruct (ring_size _ _ _ Hr). split; [done|]. split; [done|]. lia. }
    pose proof (msize_nonneg (command_bytes (slaveseldb (srv (fm s))) dictid args)). split; [|split; [by eapply (kept_shared shared)|split; [by eapply (kept_select shared)|]]].
    + exists g'. split; [done|]. split; [done|]. eapply (slaves_advance y _ _ _ _ _ _ g g'); [|intros c; apply sent_to_bytes|exact G|exact F].
      split; [done|done|done|done|done| |]; cbn [y_server fm set_master]; rewrite Es; intros R HR; fold s in HR; [apply command_interp; [done|lia|done]|].
      destruct (select_only_interp R _ dictid HR) as (E1 & E2 & E3); [lia|]. split; [done|]. split; [done|by right].
    + split; [|split; [done|rewrite length_app; lia]]. split; [lia|]. split; [lia|]. split; [rewrite Es; unfold in_sint; lia|].
      exists (D ++ command_bytes (slaveseldb (srv (fm s))) dictid args). split; [by apply ends_app|]. split; [done|]. rewrite msize_app. lia.
  - exists (fm s). unfold replicationFeedSlaves. rewrite Eb, Hbl. split; [done|]. rewrite Hbl in Eg. symmetry in Eg. apply fmap_nil_inv in Eg as ->. apply list.Forall2_nil_inv_l in F.
    unfold wf, backlog_wf. cbn [y_server y_held y_log y_snap y_stream y_first y_replicas fm set_master rdb_file]. rewrite F, Eb. split; [exists []; by rewrite Hbl|].
    repeat (split; [done|]). rewrite length_app. lia.
Qed.

(** ** Other parts of the server *)

Definition acked (p p' : rclient * (bytes * list bytes)) : Prop :=
  p'.2 = p.2 /\ exists t, p'.1 = set_slave p.1 (rflags p.1) (replstate p.1) (write_handler p.1) t (bulk p.1).

Lemma acked_group l : forall g, Forall2 (fun c c' => exists t, c' = set_slave c (rflags c) (replstate c) (write_handler c) t (bulk c)) g.*1 l ->
  exists g', l = g'.*1 /\ Forall2 acked g g' /\ lists g'.*1 = lists g.*1.
Proof.
  induction l as [|c' l IH]; intros [|[c o] g] F; [by exists []|by apply list.Forall2_nil_inv_r in F|by apply list.Forall2_nil_inv_l in F|].
  rewrite fmap_cons in F. apply list.Forall2_cons in F as [Hc F]. destruct (IH g F) as (g' & -> & F' & El). exists ((c', o) :: g'). split; [done|]. split; [by constructor|].
  rewrite !fmap_cons, !lists_cons, El. cbn [fst] in *. by destruct Hc as (t & ->).
Qed.

Lemma wf_elsewhere y s' ext' : wf y -> elsewhere (y_held y) ext' (y_server y) s' -> wf (mkSystem s' ext' (y_log y) (y_snap y) (y_stream y) (y_first y) (y_replicas y)).
Proof.
  intros ((g & Eg & Hg & F) & _ & _ & (Hm & Hsz & Hdb & Hbl) & _ & Hsn) (Es & Ec & Hf & Fs & Hr & Hk & Hsh & Hsel). rewrite Eg in Fs, Hr, Hk. destruct (acked_group _ g Fs) as (g' & Eg' & Fg & El).
  unfold wf, backlog_wf. cbn [y_server y_held y_log y_snap y_stream y_first y_replicas]. rewrite Es. split; [|split; [done|split; [done|split; [|done]]]].
  - exists g'. split; [done|]. split.
    + split; [by rewrite El|]. destruct Hg as [_ Hl]. assert (Forall (fun p => local_ok (mheap (fm s')) p.1 p.2) g) as Hl'.
      { apply list.Forall_forall. intros p Hp. rewrite list.Forall_forall in Hl. eapply (local_keeps (fun o => occ o (lists g.*1))); [by apply Hl| |done].
        intros x Hx. pose proof (in_lists p.1 g.*1 x ltac:(apply list_elem_of_fmap; by exists p) Hx). lia. }
      clear -Fg Hl'. induction Fg as [|p p' g g' [E1 (t & E2)] _ IH]; [done|]. apply list.Forall_cons in Hl' as [Hp Hl']. constructor; [|by apply IH]. rewrite E1, E2.
      apply (local_fields _ p.1); [done|done|]. apply Hp.
    + assert (Forall2 (slave_ok (mkSystem s' ext' (y_log y) (y_snap y) (y_stream y) (y_first y) (y_replicas y))) g (y_replicas y)) as F'.
      { eapply slaves_change; [| |exact F]; [repeat split; cbn; by rewrite ?Es; try left|]. intros _. split; [done|done]. }
      clear -Fg F'. revert F'. generalize (mkSystem s' ext' (y_log y) (y_snap y) (y_stream y) (y_first y) (y_replicas y)). generalize (y_replicas y). intros rs y1. revert rs.
      induction Fg as [|[c o] [c' o'] g g' [E1 (t & E2)] _ IH]; intros rs F; [by apply list.Forall2_nil_inv_l in F as ->; constructor|].
      apply list.Forall2_cons_inv_l in F as (r & rs' & Hr & F & ->). cbn [fst snd] in *. constructor; [|by apply IH]. rewrite E1, E2. by eapply slave_fields; [exact Hr|..].
  - split; [done|]. split; [done|]. split; [done|]. destruct (repl_backlog (srv (fm (y_server y)))) eqn:Eb; [done|]. rewrite Eg'. rewrite Hbl in Eg.
    symmetry in Eg. apply fmap_nil_inv in Eg as ->. by apply list.Forall2_nil_inv_l in Fg as ->.
Qed.

(** ** Background saves start *)

Lemma wf_bgsave fe y s' : wf y -> rdbSaveBackground fe (y_server y) = (s', true) -> wf (mkSystem s' (y_held y) (y_log y) (length (y_log y)) (y_stream y) (y_first y) (y_replicas y)).
Proof.
  intros ((g & Eg & Hg & F) & Hsh & Hsel & Hbl & Hf & Hsn) E. unfold rdbSaveBackground in E. destruct (rdb_child (y_server y)) eqn:Ec; [done|]. destruct (forked fe); [|done]. injection E as <-.
  split; [|split; [done|split; [done|split; [done|split; [done|done]]]]]. exists g. split; [done|]. split; [done|]. eapply slaves_change; [| |exact F]; [repeat split; by left|]. by rewrite Ec.
Qed.

(** ** The size of the backlog *)

Lemma wf_resize y n : let s := y_server y in wf y -> n < 2 ^ 31 - 1 -> offset_ok (srv (fm s)) 0 ->
  exists r', resizeReplicationBacklog (srv (fm s)) n = Some r' /\
    wf (mkSystem (set_master s (mkMaster r' (mheap (fm s)) (slaves (fm s)) (repl_good_slaves_count (fm s)))) (y_held y) (y_log y) (y_snap y) (y_stream y) (y_first y) (y_replicas y)).
Proof.
  intros s ((g & Eg & Hg & F) & Hsh & Hsel & (Hm & Hsz & Hdb & Hbl) & Hf & Hsn) Hn Ho. fold s in Eg, Hg, Hsh, Hsel, Hm, Hsz, Hdb, Hbl, Hf.
  assert (exists r', resizeReplicationBacklog (srv (fm s)) n = Some r' /\ master_repl_offset r' = master_repl_offset (srv (fm s)) /\ slaveseldb r' = slaveseldb (srv (fm s)) /\
    0 < repl_backlog_size r' < 2 ^ 31 - 1 /\ match repl_backlog r' with None => slaves (fm s) = [] | Some _ => exists D, ends (y_stream y) D /\ backlog_ok r' D /\ master_repl_offset r' + 1 = y_first y + msize (y_stream y) end)
    as (r' & E & E1 & E2 & E3 & E4).
  { destruct (repl_backlog (srv (fm s))) as [b|] eqn:Eb.
    - destruct Hbl as (D & HD & Hok & Hoffs). destruct (backlog_resize_spec (srv (fm s)) D n Hok Ho Hn) as (r' & D' & E & Hok' & HD' & E1 & E2). exists r'.
      pose proof Hok' as (b' & R & T & Eb' & Hb' & Hs & Hr & _). destruct (ring_size _ _ _ Hr). repeat (split; [done|]). split; [lia|]. rewrite Eb'. exists D'. split; [by eapply ends_trans|]. split; [done|lia].
    - unfold resizeReplicationBacklog. rewrite Eb. set (size := if n <? REDIS_REPL_BACKLOG_MIN_SIZE then _ else n).
      assert (0 < size < 2 ^ 31 - 1) as Hs by (unfold size, REDIS_REPL_BACKLOG_MIN_SIZE; destruct (Z.ltb_spec n (1024 * 16)); lia).
      destruct (_ =? size); (eexists; split; [done|]); [by rewrite Eb|]. cbn. done. }
  exists r'. split; [done|]. unfold wf, backlog_wf. cbn [y_server y_held y_log y_snap y_stream y_first y_replicas fm set_master srv slaves mheap rdb_file].
  split; [|split; [done|split; [done|split; [|done]]]]; [|split; [lia|split; [lia|split; [by rewrite E2|done]]]]. exists g. split; [done|]. split; [done|]. eapply slaves_change; [| |exact F]; [|done]. repeat split. by left.
Qed.

(** ** Events *)

Lemma refresh_fields now m : let m' := refreshGoodSlavesCount conf now m in srv m' = srv m /\ mheap m' = mheap m /\ slaves m' = slaves m.
Proof. unfold refreshGoodSlavesCount. by destruct (_ || _). Qed.

(** The slaves change, and nothing else. *)
Lemma wf_group y s' g' rs' : let s := y_server y in wf y -> srv (fm s') = srv (fm s) -> rdb_child s' = rdb_child s -> rdb_file s' = rdb_file s -> slaves (fm s') = g'.*1 ->
  group_ok (y_held y) (mheap (fm s')) g' -> keeps (y_held y) (mheap (fm s)) (mheap (fm s')) -> (repl_backlog (srv (fm s)) = None -> slaves (fm s) = [] -> g' = []) -> Forall2 (slave_ok y) g' rs' ->
  wf (mkSystem s' (y_held y) (y_log y) (y_snap y) (y_stream y) (y_first y) rs').
Proof.
  intros s ((g & Eg & Hg & F) & Hsh & Hsel & Hbl & Hf & Hsn) E1 E2 E3 E4 Hg' K H0 F'. unfold s in *. unfold wf, backlog_wf in *. cbn [y_server y_held y_log y_snap y_stream y_first y_replicas].
  rewrite E1, E3, E4. split; [|split; [by eapply (kept_shared shared)|split; [by eapply (kept_select shared)|split; [|done]]]].
  - exists g'. split; [done|]. split; [done|]. eapply slaves_change; [| |exact F']; [repeat split; left; cbn; by rewrite E1|]. intros _. split; [done|done].
  - destruct Hbl as (H1 & H2 & H3 & H4). repeat (split; [done|]). destruct (repl_backlog _) eqn:Eb; [done|]. by rewrite (H0 eq_refl H4).
Qed.

Lemma at_slave y g rs i c : Forall2 (slave_ok y) g rs -> g.*1 !! i = Some c ->
  exists g1 o g2 rs1 r rs2, g = g1 ++ (c, o) :: g2 /\ rs = rs1 ++ r :: rs2 /\ length g1 = i /\ length rs1 = i /\ Forall2 (slave_ok y) g1 rs1 /\ slave_ok y (c, o) r /\ Forall2 (slave_ok y) g2 rs2.
Proof.
  intros F E. rewrite list_lookup_fmap in E. destruct (g !! i) as [[c1 o]|] eqn:Ei; [|done]. injection E as ->. apply list_elem_of_split_length in Ei as (g1 & g2 & -> & Hi).
  apply Forall2_app_inv_l in F as (rs1 & rs' & F1 & F2 & ->). apply list.Forall2_cons_inv_l in F2 as (r & rs2 & Hr & F2 & ->). exists g1, o, g2, rs1, r, rs2.
  apply list.Forall2_length in F1 as Hlen. repeat (split; [done || lia|]). done.
Qed.

Lemma replace_at {A} (l1 l2 : list A) x x' i : length l1 = i -> <[i := x']> (l1 ++ x :: l2) = l1 ++ x' :: l2.
Proof. intros <-. induction l1 as [|y l1 IH]; [done|]. cbn. f_equal. apply IH. Qed.

Lemma remove_at {A} (l1 l2 : list A) x i : length l1 = i -> delete i (l1 ++ x :: l2) = l1 ++ l2.
Proof. intros <-. induction l1 as [|y l1 IH]; [done|]. cbn. f_equal. apply IH. Qed.

Lemma alter_at {A} (f : A -> A) (l1 l2 : list A) x i : length l1 = i -> alter f i (l1 ++ x :: l2) = l1 ++ f x :: l2.
Proof. intros <-. induction l1 as [|y l1 IH]; [done|]. cbn. f_equal. apply IH. Qed.

(** The slave at [i] has gone, or it was sent [out]. *)
Lemma wf_gone y now i c h' g1 o g2 rs1 r rs2 : let s := y_server y in wf y -> slaves (fm s) = (g1 ++ (c, o) :: g2).*1 -> length g1 = i ->
  group_ok (y_held y) h' (g1 ++ g2) -> keeps (y_held y) (mheap (fm s)) h' -> Forall2 (slave_ok y) g1 rs1 -> Forall2 (slave_ok y) g2 rs2 -> y_replicas y = rs1 ++ r :: rs2 -> length rs1 = i ->
  let s' := slaves_freed conf now s h' (delete i (slaves (fm s))) in
  wf (mkSystem s' (y_held y) (y_log y) (y_snap y) (y_stream y) (y_first y) (delete i (y_replicas y))) /\ length (slaves (fm s')) <> length (slaves (fm s)).
Proof.
  intros s Hwf Eg Hi Hg K F1 F2 Er Hi2 s'. destruct (refresh_fields now (mkMaster (srv (fm s)) h' (delete i (slaves (fm s))) (repl_good_slaves_count (fm s)))) as (R1 & R2 & R3).
  assert (delete i (slaves (fm s)) = (g1 ++ g2).*1) as Ed by (rewrite Eg, !fmap_app, fmap_cons; apply remove_at; by rewrite length_fmap). rewrite Er, remove_at by done. split.
  - apply (wf_group y s' (g1 ++ g2)); try done; [by rewrite <- Ed|unfold s', slaves_freed; cbn [fm]; by rewrite R2|unfold s', slaves_freed; cbn [fm]; by rewrite R2| |by apply Forall2_app].
    intros _ E. fold s in E. rewrite Eg, fmap_app, fmap_cons in E. by destruct (g1.*1).
  - unfold s', slaves_freed. cbn [fm]. rewrite R3. cbn [slaves]. rewrite Ed, Eg, !length_fmap, !length_app. cbn [length]. lia.
Qed.

Lemma wf_close y now i : wf y -> (i < length (slaves (fm (y_server y))))%nat -> exists s', free_slave_at conf now (y_server y) i = Some s' /\
  wf (mkSystem s' (y_held y) (y_log y) (y_snap y) (y_stream y) (y_first y) (delete i (y_replicas y))).
Proof.
  intros Hwf Hi. pose proof Hwf as ((g & Eg & Hg & F) & _). apply lookup_lt_is_Some in Hi as [c E]. unfold free_slave_at. rewrite E. rewrite Eg in E. cbn [obind].
  destruct (at_slave y g _ i c F E) as (g1 & o & g2 & rs1 & r & rs2 & -> & Er & H1 & H2 & F1 & Hs & F2). destruct (group_leave _ _ _ _ _ _ Hg) as (h' & El & Hg' & K). unfold freeSlave. rewrite El. cbn [obind].
  eexists. split; [done|]. by destruct (wf_gone y now i c h' g1 o g2 rs1 r rs2 Hwf Eg H1 Hg' K F1 F2 Er H2) as [W _].
Qed.

(** The slave at [i] is left, and was sent [out]. *)
Lemma wf_served y s' i c c' out g1 o o' g2 rs1 r rs2 : let s := y_server y in wf y -> slaves (fm s) = (g1 ++ (c, o) :: g2).*1 -> length g1 = i ->
  srv (fm s') = srv (fm s) -> rdb_child s' = rdb_child s -> rdb_file s' = rdb_file s -> slaves (fm s') = <[i := c']> (slaves (fm s)) ->
  group_ok (y_held y) (mheap (fm s')) (g1 ++ (c', o') :: g2) -> keeps (y_held y) (mheap (fm s)) (mheap (fm s')) ->
  Forall2 (slave_ok y) g1 rs1 -> Forall2 (slave_ok y) g2 rs2 -> slave_ok y (c', o') (more r out) -> y_replicas y = rs1 ++ r :: rs2 -> length rs1 = i ->
  wf (mkSystem s' (y_held y) (y_log y) (y_snap y) (y_stream y) (y_first y) (after_event s s' i out (y_replicas y))).
Proof.
  intros s Hwf Eg Hi E1 E2 E3 E4 Hg K F1 F2 Hs Er Hi2. unfold after_event. rewrite E4, length_insert, bool_decide_eq_true_2 by done. rewrite Er, alter_at by done.
  apply (wf_group y s' (g1 ++ (c', o') :: g2)); try done.
  - rewrite E4, Eg, !fmap_app, !fmap_cons. apply replace_at. by rewrite length_fmap.
  - intros _ E. fold s in E. rewrite Eg, fmap_app, fmap_cons in E. by destruct (g1.*1).
  - apply Forall2_app; [done|]. by constructor.
Qed.

Lemma writes_online y c o r : slave_ok y (c, o) r -> write_handler c = true -> replstate c = REDIS_REPL_ONLINE.
Proof. intros [_ Hs] Hw. cbn [fst] in Hs. destruct (replstate c) eqn:E; try done; destruct Hs as (? & ? & ? & ? & _ & _ & _ & Hw' & _); cbn [fst] in Hw'; congruence. Qed.

Lemma online_sent y c o c' o' r out : slave_ok y (c, o) r -> replstate c = REDIS_REPL_ONLINE -> (writable c -> writable c') -> replstate c' = replstate c -> bulk c' = bulk c ->
  left (c, o) = out ++ left (c', o') -> slave_ok y (c', o') (more r out).
Proof.
  intros [Hw Hs] E H1 H2 H3 El. split; [by apply H1|]. cbn [fst] in *. rewrite H2, H3, E in *. destruct Hs as [Hb Hs]. split; [done|]. unfold slave_online, more in *. cbn [came wrote].
  rewrite El in Hs. by rewrite <- app_assoc.
Qed.

Lemma wf_write sd now y i c : wf y -> slaves (fm (y_server y)) !! i = Some c -> write_handler c = true -> room_sum (writes sd) < 2 ^ 31 ->
  exists s' out, reply_event sd conf now (y_server y) i = Some (s', out) /\
    wf (mkSystem s' (y_held y) (y_log y) (y_snap y) (y_stream y) (y_first y) (after_event (y_server y) s' i out (y_replicas y))).
Proof.
  intros Hwf E Hw Hroom. pose proof Hwf as ((g & Eg & Hg & F) & _). unfold reply_event. rewrite E. rewrite Eg in E. cbn [obind].
  destruct (at_slave y g _ i c F E) as (g1 & o & g2 & rs1 & r & rs2 & -> & Er & H1 & H2 & F1 & Hs & F2). pose proof (focus _ _ g1 c o g2 Hg) as I.
  destruct (sendReplyToClient_spec _ sd _ c o.1 o.2 I Hroom) as (h' & res & out & -> & K & Hev). cbn [obind]. destruct res as [c'|].
  - destruct Hev as (B' & ts' & I' & (P1 & P2 & P3 & P4) & _ & Hp & _). destruct (unfocus _ _ h' g1 c c' o g2 B' ts' Hg I' K) as [Hg' K']. eexists _, out. split; [done|].
    eapply (wf_served y _ i c c' out g1 o (B', ts') g2 rs1 r rs2); try done. eapply online_sent; [exact Hs|by eapply writes_online|unfold writable; by rewrite P1, P2|done|done|].
    rewrite (left_pending c' _ _ (fun _ => [])), <- Hp. destruct o. by rewrite (left_pending _ _ _ (fun _ => [])).
  - destruct Hev as (Hr & _). destruct (group_removed _ _ h' g1 c o g2 Hg Hr K) as [Hg' K']. eexists _, out. split; [done|].
    destruct (wf_gone y now i c h' g1 o g2 rs1 r rs2 Hwf Eg H1 Hg' K' F1 F2 Er H2) as [W Hne]. unfold after_event. rewrite bool_decide_eq_false_2 by exact Hne. exact W.
Qed.

(** A slave whose transfer is not over. *)
Lemma bulk_slave y c o r : slave_ok y (c, o) r -> bulk_handler (bulk c) = true -> replstate c = REDIS_REPL_SEND_BULK.
Proof.
  intros [_ Hs] Hb. cbn [fst] in Hs. destruct (replstate c) eqn:E; try done; [..|by destruct Hs; cbn [fst] in *; congruence];
    destruct Hs as (? & ? & ? & ? & _ & _ & _ & _ & Hs); cbn [fst] in Hs; rewrite E in Hs; destruct Hs as (_ & ? & _); congruence.
Qed.

Lemma bulk_step y be now c o r res : slave_ok y (c, o) r -> replstate c = REDIS_REPL_SEND_BULK -> sendBulkToSlave be now c = Some res ->
  match res with
  | Kept c' out | Online c' out => same_output c c' /\ (replnone c' = true -> write_handler c' = true) /\ slave_ok y (c', o) (more r out)
  | Lost _ => True
  end.
Proof.
  intros [Hw Hs] E Er. cbn [fst] in *. rewrite E in Hs. destruct Hs as (answer & v & n & R & H1 & H2 & H3 & H4 & H5). cbn [fst] in *. rewrite E in H5.
  destruct H5 as (f & tx & k & E1 & Ht & Hf & Hd & Hr). destruct (sendBulkToSlave_spec be now c f tx Ht Hf) as (res' & Er' & Hres). rewrite Er in Er'. injection Er' as <-.
  destruct res as [c' out|c' out|out]; [..|done]; destruct Hres as (b' & -> & Hres).
  - destruct Hres as [Hres _]. split; [done|]. split; [unfold replnone; cbn; by rewrite E|]. split; [done|]. cbn. rewrite E. exists answer, v, n, R. cbn. rewrite E. repeat (split; [done|]). exists f, (tx ++ out), k.
    split; [by rewrite E1, !app_assoc|done].
  - destruct Hres as [Hb Htx]. split; [done|]. split; [done|]. split; [done|]. cbn. split; [done|]. unfold slave_online, more. cbn [came wrote]. rewrite H1. exists n, k, f, R. split; [|done].
    unfold left in H2 |- *. cbn [fst snd sentlen set_slave] in *. rewrite H2, E1, <- !app_assoc. do 2 f_equal. by rewrite (app_assoc tx), Htx, <- !app_assoc.
Qed.

Lemma wf_bulk be now y i c : wf y -> slaves (fm (y_server y)) !! i = Some c -> bulk_handler (bulk c) = true ->
  exists s' out, bulk_event be conf now (y_server y) i = Some (s', out) /\
    wf (mkSystem s' (y_held y) (y_log y) (y_snap y) (y_stream y) (y_first y) (after_event (y_server y) s' i out (y_replicas y))).
Proof.
  intros Hwf E Hb. pose proof Hwf as ((g & Eg & Hg & F) & _). unfold bulk_event. rewrite E. rewrite Eg in E. cbn [obind].
  destruct (at_slave y g _ i c F E) as (g1 & o & g2 & rs1 & r & rs2 & -> & Er & H1 & H2 & F1 & Hs & F2). pose proof (bulk_slave y c o r Hs Hb) as Est.
  assert (exists res, sendBulkToSlave be now c = Some res) as [res Eres].
  { destruct Hs as [_ Hs]. cbn [fst] in Hs. rewrite Est in Hs. destruct Hs as (? & ? & ? & ? & _ & _ & _ & _ & Hs). cbn [fst] in Hs. rewrite Est in Hs. destruct Hs as (f & tx & k & _ & Ht & Hf & _).
    destruct (sendBulkToSlave_spec be now c f tx Ht Hf) as (res & -> & _). by exists res. }
  rewrite Eres. cbn [obind]. pose proof (bulk_step y be now c o r res Hs Est Eres) as Hst. destruct res as [c' out|c' out|out].
  - destruct Hst as (S1 & S2 & S3). eexists _, out. split; [done|]. eapply (wf_served y _ i c c' out g1 o o g2 rs1 r rs2); try done; [|apply keeps_refl]. apply (group_fields _ _ _ c); [done|done|]. intros Hn _. by apply S2.
  - destruct Hst as (S1 & S2 & S3). eexists _, out. split; [done|].
    destruct (refresh_fields now (mkMaster (srv (fm (y_server y))) (mheap (fm (y_server y))) (<[i:=c']> (slaves (fm (y_server y)))) (repl_good_slaves_count (fm (y_server y))))) as (R1 & R2 & R3).
    eapply (wf_served y _ i c c' out g1 o o g2 rs1 r rs2); try done; cbn [fm set_master]; rewrite R2; [|apply keeps_refl]. apply (group_fields _ _ _ c); [done|done|]. intros Hn _. by apply S2.
  - destruct (group_leave _ _ _ _ _ _ Hg) as (h' & El & Hg' & K). unfold freeSlave. rewrite El. cbn [obind]. eexists _, out. split; [done|].
    destruct (wf_gone y now i c h' g1 o g2 rs1 r rs2 Hwf Eg H1 Hg' K F1 F2 Er H2) as [W Hne]. unfold after_event. rewrite bool_decide_eq_false_2 by exact Hne. exact W.
Qed.

(** ** Background saves end *)

Lemma left_fields now s h l freed : let s' := slaves_left conf now s h l freed in
  srv (fm s') = srv (fm s) /\ mheap (fm s') = h /\ slaves (fm s') = l /\ rdb_child s' = rdb_child s /\ rdb_file s' = rdb_file s.
Proof.
  unfold slaves_left, slaves_freed. destruct freed; cbn [fm set_master srv mheap slaves rdb_child rdb_file]; [|done].
  destruct (refresh_fields now (mkMaster (srv (fm s)) h l (repl_good_slaves_count (fm s)))) as (-> & -> & ->). done.
Qed.

Lemma keep_ok (P : rclient * (bytes * list bytes) -> replica -> Prop) p : forall g rs, Forall2 P g rs -> Forall2 P (filter (fun q => p q.1 = false) g) (keep p g.*1 rs).
Proof.
  intros g rs F. unfold keep. induction F as [|[c o] r g rs Hr _ IH]; [constructor|]. rewrite fmap_cons. cbn [zip_with fst]. rewrite !filter_cons. cbn [fst].
  destruct (decide (p c = false)); [|done]. rewrite fmap_cons. by constructor.
Qed.

Lemma done_spec se fe now s f exitcode bysignal g ext : slaves (fm s) = g.*1 -> group_ok ext (mheap (fm s)) g -> file_ok f -> (existsb starts g.*1 = true -> forked fe = true) ->
  exists s' g', backgroundSaveDoneHandler se fe conf now (set_file s f) exitcode bysignal = Some s' /\ srv (fm s') = srv (fm s) /\ slaves (fm s') = g'.*1 /\ group_ok ext (mheap (fm s')) g' /\
    keeps ext (mheap (fm s)) (mheap (fm s')) /\ rdb_file s' = f /\ rdb_child s' = existsb starts g.*1 /\
    Forall2 (updated f) (filter (fun q => lost se (exitcode =? 0) f q.1 = false) g) g'.
Proof.
  intros Eg Hg Hf Hfk. unfold backgroundSaveDoneHandler. set (st := mkRdbStatus _ _ _ _ _ (-1) _). unfold updateSlavesWaitingBgsave. cbn [rdb_file set_rdb set_file fm]. rewrite Eg.
  destruct (update_slaves_spec se (exitcode =? 0) f ext Hf g [] (mheap (fm s)) Hg) as (h' & g' & freed & -> & Hg' & K & F). cbn [obind].
  destruct (left_fields now (set_rdb (set_file s f) false st) h' g'.*1 freed) as (E1 & E2 & E3 & E4 & E5). set (s1 := slaves_left _ _ _ _ _ _) in *.
  destruct (existsb starts g.*1).
  - unfold rdbSaveBackground. cbn [rdb_child replicationScriptCacheFlush]. rewrite E4. cbn [rdb_child set_rdb]. rewrite Hfk by done. eexists _, g'. split; [done|].
    cbn [fm set_rdb replicationScriptCacheFlush rdb_file rdb_child]. rewrite E1, E2, E3, E5. done.
  - exists s1, g'. split; [done|]. rewrite E1, E2, E3, E4, E5. done.
Qed.

Lemma slave_updated se exitcode f y y' p p' r : slave_ok y p r -> updated f p p' -> lost se (exitcode =? 0) f p.1 = false -> file_ok f ->
  (exitcode = 0 -> exists b, f = Some b /\ dump_of (take (y_snap y) (y_log y)) b) -> same_history y y' ->
  (starts p.1 = true -> rdb_child (y_server y') = true /\ y_snap y' = length (y_log y')) -> slave_ok y' p' r.
Proof.
  intros [Hw Hs] [E2 Hu] Hl Hfile Hd Hh Hst. destruct p as [c o], p' as [c' o']. cbn [fst snd] in *. subst o'. destruct (replstate c) eqn:E; [done|..].
  - subst c'. destruct Hs as (answer & v & n & R & H1 & H2 & H3 & H4 & H5). cbn [fst] in H3, H4, H5. rewrite E in H5. destruct H5 as (W & B & -> & I & S).
    destruct Hst as [C N]; [unfold starts; by rewrite E|]. split; [done|]. cbn [fst replstate set_replstate set_slave]. exists answer, None, n, R. repeat (split; [done|]).
    cbn [fst replstate set_replstate set_slave]. repeat (split; [done|]). split; [by rewrite N|]. rewrite N, drop_all. split; [done|]. split; [by eapply selected_change|done].
  - destruct Hu as (b & sd & -> & Hsd & ->). destruct Hs as (answer & v & n & R & H1 & H2 & H3 & H4 & H5). cbn [fst] in H3, H4, H5. rewrite E in H5. destruct H5 as (W & B & _ & Hr).
    assert (exitcode = 0) as Hz by (unfold lost, saved in Hl; rewrite E in Hl; cbn in Hl; destruct (Z.eqb_spec exitcode 0); [done|discriminate Hl]).
    destruct (Hd Hz) as (b' & [= <-] & Hdump). split; [done|]. cbn [fst replstate set_slave]. exists answer, v, n, R. repeat (split; [done|]). cbn [fst replstate set_slave bulk].
    exists b, [], (y_snap y). rewrite app_nil_r. split; [done|]. split.
    + split; [done|]. split; [done|]. split; [done|]. cbn. pose proof (msize_nonneg b). split; [split; [lia|intros Hb; destruct b; [done|]; rewrite msize_cons; pose proof (msize_nonneg b); lia]|]. exists (bulk_header b). split; [done|]. split; [done|]. done.
    + split; [by apply Hfile|]. destruct Hh as (Elog & Hh). rewrite Elog. split; [done|]. eapply replays_change; [|exact Hr]. done.
  - subst c'. split; [done|]. cbn [fst]. rewrite E. eapply waiting_change; [done| |done]. cbn. by rewrite E.
  - subst c'. split; [done|]. cbn [fst]. rewrite E. destruct Hs as [? Hs]. split; [done|]. by eapply online_change.
Qed.

Lemma wf_saved se fe now y f exitcode : let s := y_server y in wf y -> forked fe = true -> file_ok f ->
  (exitcode = 0 -> exists b, f = Some b /\ dump_of (take (y_snap y) (y_log y)) b) ->
  exists s', backgroundSaveDoneHandler se fe conf now (set_file s f) exitcode 0 = Some s' /\
    wf (mkSystem s' (y_held y) (y_log y) (if rdb_child s' then length (y_log y) else y_snap y) (y_stream y) (y_first y) (keep (lost se (exitcode =? 0) f) (slaves (fm s)) (y_replicas y))).
Proof.
  intros s Hwf Hfk Hf Hd. pose proof Hwf as ((g & Eg & Hg & F) & Hsh & Hsel & Hbl & _ & Hsn). fold s in Eg, Hg, Hsh, Hsel.
  destruct (done_spec se fe now s f exitcode 0 g (y_held y) Eg Hg Hf (fun _ => Hfk)) as (s' & g' & E & E1 & E2 & Hg' & K & E3 & E4 & Fu). exists s'. split; [done|].
  set (y' := mkSystem _ _ _ _ _ _ _). assert (same_history y y') as Hh by (repeat split; left; cbn; by rewrite E1).
  split; [|split; [by eapply (kept_shared shared)|split; [by eapply (kept_select shared)|split; [|split; [cbn; by rewrite E3|cbn; destruct (rdb_child s'); lia]]]]].
  - exists g'. split; [done|]. split; [done|]. cbn [y_replicas y']. rewrite Eg.
    pose proof (keep_ok _ (lost se (exitcode =? 0) f) g _ F) as F'. assert (forall q, q ∈ filter (fun q => lost se (exitcode =? 0) f q.1 = false) g -> lost se (exitcode =? 0) f q.1 = false /\ q ∈ g) as Hin
      by (intros q Hq; by apply list_elem_of_filter in Hq). revert F' Fu Hin. generalize (filter (fun q => lost se (exitcode =? 0) f q.1 = false) g) (keep (lost se (exitcode =? 0) f) g.*1 (y_replicas y)).
    intros g1 rs1 F'. clear Hg'. revert g' E2. intros g' _. revert g'. induction F' as [|p r g1 rs1 Hp F' IH]; intros g' Fu Hin; [by apply list.Forall2_nil_inv_l in Fu as ->; constructor|].
    apply list.Forall2_cons_inv_l in Fu as (p' & g2 & Hu & Fu & ->). destruct (Hin p) as [Hlo Hpg]; [by left|]. constructor; [|apply IH; [done|]; intros q Hq; apply Hin; by right].
    eapply (slave_updated se exitcode f y y'); try done. intros Hst. assert (rdb_child s' = true) as Hc.
    { rewrite E4. apply existsb_exists. exists p.1. split; [|done]. apply list_elem_of_In, list_elem_of_fmap. by exists p. }
    cbn. by rewrite Hc.
  - unfold backlog_wf in *. cbn [y_server y' y_stream y_first]. rewrite E1. destruct Hbl as (H1 & H2 & H3 & H4). fold s in H1, H2, H3, H4 |- *. repeat (split; [done|]).
    destruct (repl_backlog (srv (fm s))); [done|]. rewrite E2. rewrite H4 in Eg. symmetry in Eg. apply fmap_nil_inv in Eg as ->. by apply list.Forall2_nil_inv_l in Fu as ->.
Qed.

(** ** Slaves join *)

Lemma attached_wf y s' : let s := y_server y in let st := if has_backlog s then y_stream y else [] in
  let fi := if has_backlog s then y_first y else master_repl_offset (srv (fm s')) + 1 in
  backlog_wf y -> offset_ok (srv (fm s)) 2 -> attached (srv (fm s)) (srv (fm s')) ->
  seldb (mkSystem s' (y_held y) (y_log y) 0 st fi []) = -1 /\ fi <= master_repl_offset (srv (fm s')) + 1 /\ master_repl_offset (srv (fm s')) + 1 = fi + msize st /\
  forall ext lg sn rs, backlog_wf (mkSystem s' ext lg sn st fi rs).
Proof.
  intros s st fi (H1 & H2 & H3 & H4) Ho Ha. unfold attached, backlog_wf, st, fi, has_backlog in *. fold s in H1, H2, H3, H4. cbn [y_server y_stream y_first].
  destruct (repl_backlog (srv (fm s))) as [b|] eqn:Eb.
  - rewrite Ha. cbn. destruct H4 as (D & HD & Hok & E). pose proof (msize_nonneg (y_stream y)). split; [done|]. split; [lia|]. split; [done|]. intros _ _ _ _. rewrite Eb.
    split; [done|]. split; [done|]. split; [by unfold in_sint|]. exists D. split; [done|]. split; [by apply backlog_seldb|done].
  - destruct (backlog_create_spec (set_seldb (srv (fm s)) (-1))) as (r' & E & Hok & Eo); [done|done|done|unfold offset_ok in *; cbn in *; lia|]. rewrite Ha in E. injection E as <-.
    assert (slaveseldb (srv (fm s')) = -1 /\ repl_backlog_size (srv (fm s')) = repl_backlog_size (srv (fm s))) as [E1 E2].
    { unfold createReplicationBacklog in Ha. cbn [repl_backlog set_seldb] in Ha. rewrite Eb in Ha. unfold offset_ok, LLONG_MAX in Ho. cbn [master_repl_offset set_seldb] in Ha.
      rewrite ll_arith_Some in Ha by (unfold LLONG_MIN, LLONG_MAX; lia). cbn [obind] in Ha. rewrite ll_arith_Some in Ha by (unfold LLONG_MIN, LLONG_MAX; lia). cbn [obind] in Ha. injection Ha as <-. done. }
    rewrite E1, E2, msize_nil. cbn in Eo. split; [done|]. split; [lia|]. split; [lia|]. intros _ _ _ _. split; [lia|]. split; [done|]. split; [by unfold in_sint|].
    pose proof Hok as (b' & R & T & -> & _). exists []. split; [by exists []|]. split; [done|lia].
Qed.

Lemma attached_offset r r' : attached r r' -> offset_ok r 2 -> 0 <= master_repl_offset r -> master_repl_offset r' = if repl_backlog r then master_repl_offset r else master_repl_offset r + 1.
Proof.
  unfold attached, createReplicationBacklog, offset_ok, LLONG_MAX. cbn [repl_backlog set_seldb master_repl_offset]. destruct (repl_backlog r); [by intros ->|]. intros E Ho Hm.
  rewrite ll_arith_Some in E by (unfold LLONG_MIN, LLONG_MAX; lia). cbn [obind] in E. rewrite ll_arith_Some in E by (unfold LLONG_MIN, LLONG_MAX; lia). cbn [obind] in E. by injection E as <-.
Qed.

(** A slave is added to those that are there. *)
Lemma wf_join y s' sn c' o g r : let s := y_server y in let st := if has_backlog s then y_stream y else [] in
  let fi := if has_backlog s then y_first y else master_repl_offset (srv (fm s')) + 1 in let y' := mkSystem s' (y_held y) (y_log y) sn st fi (y_replicas y ++ [r]) in
  wf y -> offset_ok (srv (fm s)) 2 -> attached (srv (fm s)) (srv (fm s')) -> slaves (fm s) = g.*1 -> Forall2 (slave_ok y) g (y_replicas y) -> slaves (fm s') = (g ++ [(c', o)]).*1 ->
  group_ok (y_held y) (mheap (fm s')) (g ++ [(c', o)]) -> keeps (y_held y) (mheap (fm s)) (mheap (fm s')) -> rdb_file s' = rdb_file s -> (sn <= length (y_log y))%nat ->
  (rdb_child s = true -> rdb_child s' = true /\ sn = y_snap y) -> slave_ok y' (c', o) r -> wf y'.
Proof.
  intros s st fi y' (_ & Hsh & Hsel & Hbl & Hf & Hsn) Ho Ha Eg F Es Hg K Ef Hsn' Hc Hs. destruct (attached_wf y s' Hbl Ho Ha) as (E1 & _ & _ & Hbl').
  split; [|split; [by eapply (kept_shared shared)|split; [by eapply (kept_select shared)|split; [apply Hbl'|split; [cbn; by rewrite Ef|done]]]]].
  exists (g ++ [(c', o)]). split; [done|]. split; [done|]. cbn [y_replicas y']. apply Forall2_app; [|by constructor]. destruct (has_backlog s) eqn:Eb.
  - eapply slaves_change; [| |exact F].
    + split; [done|]. split; [done|]. split; [done|]. right. exact E1.
    + intros C. fold s in C. destruct (Hc C) as [C1 C2]. split; cbn; [fold s; by rewrite C|done].
  - unfold has_backlog in Eb. destruct Hbl as (_ & _ & _ & H4). fold s in H4. destruct (repl_backlog (srv (fm s))); [done|]. rewrite H4 in Eg. symmetry in Eg. apply fmap_nil_inv in Eg as ->.
    apply list.Forall2_nil_inv_l in F as ->. constructor.
Qed.

Lemma left_sentlen c c' o : sentlen c' = sentlen c -> left (c', o) = left (c, o).
Proof. intros E. unfold left. cbn [fst snd]. by rewrite E. Qed.

(** What a slave has to have to wait for a background save. *)
Lemma waits y' c c' o st answer v R : replstate c' = st -> joined c st c' -> writable c -> write_handler c = false -> bulk_handler (bulk c) = false -> left (c', o) = log_bytes R ->
  st = REDIS_REPL_WAIT_BGSAVE_START /\ v = None /\ R = [] /\ seldb y' = -1 \/ st = REDIS_REPL_WAIT_BGSAVE_END /\ rdb_child (y_server y') = true /\ replays y' v (y_snap y') R ->
  slave_ok y' (c', o) (mkReplica (Full answer v) answer).
Proof.
  intros Es (_ & J2 & J3 & J4 & J5) Hw Hh Hb El Hst. rewrite Hh in J3. rewrite Hb in J4. split; [by apply J5|]. cbn [fst]. rewrite Es.
  assert (slave_waiting y' (c', o) (mkReplica (Full answer v) answer)) as H; [|by destruct Hst as [(-> & _)|(-> & _)]].
  exists answer, v, 0%nat, R. cbn [fst came wrote newlines replicate]. rewrite app_nil_r. repeat (split; [done|]). rewrite Es. destruct Hst as [(-> & -> & -> & Hsel)|(-> & Hc & Hr)]; [|done].
  repeat (split; [done|]). by left.
Qed.

Lemma wf_full e fe y s1 c v out : let s := y_server y in wf y -> fm s1 = fm s -> rdb_child s1 = rdb_child s -> rdb_file s1 = rdb_file s -> offset_ok (srv (fm s)) 2 ->
  fresh_client c -> writable c -> write_handler c = false -> bulk_handler (bulk c) = false -> forked fe = true -> out = [] \/ out = fullresync_line conf (srv (fm s)) ->
  exists s', full_resync e fe s1 c = Some (s', None) /\ attached (srv (fm s)) (srv (fm s')) /\ announced (joins s s' v out) /\
    wf (mkSystem s' (y_held y) (y_log y) (if rdb_child s then y_snap y else if rdb_child s' then length (y_log y) else y_snap y) (if has_backlog s then y_stream y else [])
          (if has_backlog s then y_first y else master_repl_offset (srv (fm s')) + 1) (y_replicas y ++ [joins s s' v out])).
Proof.
  intros s Hwf E1 E2 E3 Ho Hf Hw Hh Hb Hfk Hout. assert (out <> CONTINUE) as Hnc by by destruct Hout as [->| ->]. pose proof Hwf as ((g & Eg & Hg & F) & Hsh & Hsel & Hbl & _ & Hsn). fold s in Eg, Hg, Hsh, Hsel.
  assert (repl_backlog (srv (fm s)) = None -> slaves (fm s) = []) as Hnb by (intros E; destruct Hbl as (_ & _ & _ & H4); fold s in H4; by rewrite E in H4).
  assert (0 <= master_repl_offset (srv (fm s))) as Hm by apply Hbl. unfold joins. rewrite bool_decide_eq_false_2 by done.
  assert (0 <= (if repl_backlog (srv (fm s)) then master_repl_offset (srv (fm s)) else master_repl_offset (srv (fm s)) + 1) < LLONG_MAX - 2 ^ 32) as Hoff by (unfold offset_ok in Ho; destruct (repl_backlog (srv (fm s))); lia).
  destruct (rdb_child s) eqn:Ec.
  - destruct (full_resync_child e fe s1 g (y_held y) c) as (r' & h' & c' & o & st & -> & Ha & Hg' & K & J & Hst); rewrite ?E1, ?E2; try done.
    rewrite E1 in Ha, K. eexists. split; [done|]. split; [exact Ha|]. split; [unfold announced; cbn [came]; destruct Hout as [->| ->]; [by left|right; by eexists; split; [exact Hoff|]]|]. eapply (wf_join y _ (y_snap y) c' o g); try done.
    destruct (attached_wf y (set_master (set_stats s1 (stat_sync_full s1 + 1) (stat_sync_partial_ok s1) (stat_sync_partial_err s1)) (mkMaster r' h' (g ++ [(c', o)]).*1 (repl_good_slaves_count (fm s1)))) Hbl Ho Ha) as (Esel & _).
    destruct Hst as [(-> & src & Hin & Esrc)|(-> & ->)]; [|apply (waits _ c _ _ REDIS_REPL_WAIT_BGSAVE_START _ _ []); try done; [by apply J|unfold left; cbn; by rewrite drop_nil|by left]].
    apply list_elem_of_lookup in Hin as (i & Ei). destruct (at_slave y g _ i src F) as (g1 & o1 & g2 & rs1 & r & rs2 & Eg1 & _ & Hi & _ & _ & Hs & _); [by rewrite list_lookup_fmap, Ei|].
    assert (o1 = o) as -> by (rewrite Eg1, <- Hi, list_lookup_middle in Ei by done; by injection Ei). destruct Hs as [_ Hs]. cbn [fst] in Hs. rewrite Esrc in Hs. destruct Hs as (an & v1 & n & R & _ & H2 & H3 & _ & H5).
    cbn [fst] in H3, H5. rewrite Esrc in H5. destruct H5 as (_ & _ & _ & (R1 & R2 & R3 & _)). apply (waits _ c _ _ REDIS_REPL_WAIT_BGSAVE_END _ _ R); try done; [by apply J| |right; split; [done|split; [cbn; by rewrite E2|]]].
    + rewrite (left_sentlen src); [done|]. rewrite H3. apply J.
    + split; [done|]. split; [done|]. split; [split; [apply R3|by left]|done].
  - destruct (full_resync_fork e fe s1 g (y_held y) c) as (s' & r' & c' & -> & Em & C & Ef & Ha & Hg' & J); rewrite ?E1, ?E2; try done.
    exists s'. split; [done|]. rewrite E1 in Ha, Em, Hg'. rewrite C. assert (attached (srv (fm s)) (srv (fm s'))) as Ha' by by rewrite Em.
    destruct (attached_wf y s' Hbl Ho Ha') as (Esel & Hle & Efi & _). split; [exact Ha'|]. split.
    { unfold announced. cbn [came]. destruct Hout as [->| ->]; [by left|right]. rewrite (attached_offset _ _ Ha' Ho Hm). eexists. split; [exact Hoff|]. split; [done|]. intros p [= <-]. lia. }
    eapply (wf_join y s' (length (y_log y)) c' ([], []) g); try done; [by rewrite Em|by rewrite Em|rewrite Em; apply keeps_refl|rewrite Ef; exact E3|intros C1; fold s in C1; congruence|].
    apply (waits _ c _ _ REDIS_REPL_WAIT_BGSAVE_END _ _ []); try done; [by apply J|unfold left; cbn; by rewrite drop_nil|]. right. split; [done|]. split; [done|]. cbn [y_snap].
    split; [done|]. split; [cbn; by rewrite drop_all|]. split; [split; [constructor|by left]|]. intros p [= <-]. cbn [y_first y_stream]. split; [lia|]. rewrite drop_ge; [done|]. unfold msize in *. lia.
Qed.

Lemma wf_accepted y e c argv1 argv2 a v : let s := y_server y in wf y -> aeCreateFileEvent_ok e = true -> requester c -> offset_ok (srv (fm s)) 2 -> Forall (fun x => x <> 0) (runid conf) ->
  string_arg (mheap (fm s)) argv1 a -> getLongLongFromObject (mheap (fm s)) argv2 = Some (Some v) -> psync_accepts conf (srv (fm s)) a v = true ->
  exists m', masterTryPartialResynchronization e conf (fm s) c argv1 argv2 true = Some (m', None, true, CONTINUE) /\ has_backlog s = true /\ srv m' = srv (fm s) /\
    forall full ok err, wf (mkSystem (set_stats (set_master s m') full ok err) (y_held y) (y_log y) (y_snap y) (y_stream y) (y_first y) (y_replicas y ++ [mkReplica (Partial v) CONTINUE])).
Proof.
  intros s Hwf He (Hf & Hw & Hl & _ & _ & Hb) Ho Hrun Ha Hv Hacc. pose proof Hwf as ((g & Eg & Hg & F) & _ & _ & (Hm & _ & _ & Hbl) & _). fold s in Eg, Hg, Hm, Hbl. unfold has_backlog.
  assert (exists b, repl_backlog (srv (fm s)) = Some b) as [b Eb] by (unfold psync_accepts in Hacc; destruct (repl_backlog (srv (fm s))) as [b|]; [by exists b|by rewrite andb_false_r in Hacc]).
  rewrite Eb in Hbl |- *. destruct Hbl as (D & (Q & HD) & Hok & Hoffs).
  destruct (psync_accepted e conf (fm s) g (y_held y) c argv1 argv2 a v D He Eg Hg Hf Hw Hl Ha Hrun Hv Hok Ho Hacc) as (h' & c' & o' & P & X & E & Hg' & K & ED & EX & El & S).
  eexists. split; [exact E|]. split; [done|]. split; [by destruct (refresh_fields (unixtime e) (mkMaster (srv (fm s)) h' (g ++ [(c', o')]).*1 (repl_good_slaves_count (fm s)))) as (-> & _)|]. intros full ok err. set (m0 := mkMaster (srv (fm s)) h' (g ++ [(c', o')]).*1 (repl_good_slaves_count (fm s))).
  destruct (refresh_fields (unixtime e) m0) as (R1 & R2 & R3). apply (wf_group y _ (g ++ [(c', o')])); try done; cbn [fm set_stats set_master]; [by rewrite R2|by rewrite R2| |].
  - intros E0. fold s in E0. congruence.
  - apply Forall2_app; [done|]. constructor; [|done]. split; [by apply S|]. cbn [fst]. rewrite (st_repl _ _ S), (st_bulk _ _ S). cbn [replstate set_online_slave bulk]. split; [done|].
    unfold slave_online. cbn [came wrote]. rewrite El, HD, ED, !msize_app in *. pose proof (msize_nonneg Q). pose proof (msize_nonneg P). pose proof (msize_nonneg X). split; [lia|].
    f_equal. rewrite app_assoc. replace (Z.to_nat (v - y_first y)) with (length (Q ++ P)); [by rewrite drop_app_length|]. rewrite length_app. unfold msize in *. lia.
Qed.

Lemma wf_sync e fe y c argv psync v : let s := y_server y in wf y -> aeCreateFileEvent_ok e = true -> Forall (fun x => x <> 0) (runid conf) -> requester c ->
  request (mheap (fm s)) argv psync v -> offset_ok (srv (fm s)) 2 -> forked fe = true ->
  exists s' out, syncCommand e fe conf s c argv false true = Some (s', None, out) /\ (has_backlog s = true /\ srv (fm s') = srv (fm s) \/ attached (srv (fm s)) (srv (fm s'))) /\
    announced (joins s s' v out) /\
    wf (mkSystem s' (y_held y) (y_log y) (if rdb_child s then y_snap y else if rdb_child s' then length (y_log y) else y_snap y) (if has_backlog s then y_stream y else [])
          (if has_backlog s then y_first y else master_repl_offset (srv (fm s')) + 1) (y_replicas y ++ [joins s s' v out])).
Proof.
  intros s Hwf He Hrun Hc (o0 & a0 & rest & -> & Ha0 & -> & Hps) Ho Hfk. pose proof Hc as (Hf & Hw & Hl & Hns & Hh & Hb). unfold syncCommand. rewrite Hns.
  assert (bool_decide (reply c = []) = true) as -> by (apply bool_decide_eq_true_2, Hf). assert ((bufpos c =? 0) = true) as -> by (apply Z.eqb_eq, Hf). cbn [negb orb].
  change ((o0 :: rest) !! 0%nat) with (Some o0). cbn [obind]. destruct (string_arg_buf _ _ _ Ha0) as (ob & sd & fr & -> & Es & Eb & _). cbn [obind]. rewrite Es, Eb.
  pose proof (strcaseeq_spec [112; 115; 121; 110; 99] ltac:(by repeat constructor) [] a0 fr) as E. cbn [app] in E. change (msize (@nil Z)) with 0 in E. rewrite E. cbn [obind]. clear E Eb Es.
  destruct (same_text a0 _) eqn:Eps.
  - destruct (Hps eq_refl) as (o1 & a1 & o2 & rest' & -> & Ha1 & Hv). change ((o0 :: o1 :: o2 :: rest') !! 1%nat) with (Some o1). change ((o0 :: o1 :: o2 :: rest') !! 2%nat) with (Some o2). cbn [obind].
    destruct (psync_accepts conf (srv (fm s)) a1 v) eqn:Eacc.
    + destruct (wf_accepted y e c o1 o2 a1 v Hwf He Hc Ho Hrun Ha1 Hv Eacc) as (m' & Em & Ebl & Esrv & W). fold s in Em, Ebl, Esrv, W. rewrite Em. cbn [obind]. eexists _, CONTINUE. split; [done|]. split; [left; done|]. rewrite Ebl. unfold joins.
      rewrite bool_decide_eq_true_2 by done. split; [done|]. cbn [rdb_child set_stats set_master]. specialize (W (stat_sync_full s) (stat_sync_partial_ok s + 1) (stat_sync_partial_err s)). by destruct (rdb_child s).
    + assert (0 <= master_repl_offset (srv (fm s))) as Hm by (destruct Hwf as (_ & _ & _ & (Hm & _) & _); exact Hm). rewrite (psync_refused e conf (fm s) c o1 o2 a1 v Ha1 Hrun Hv Hm Ho Eacc). cbn [obind].
      destruct (string_arg_buf _ _ _ Ha1) as (ob1 & sd1 & fr1 & -> & Es1 & Eb1 & _). cbn [obind]. rewrite Es1, Eb1. assert (exists q t, a1 ++ 0 :: fr1 = q :: t) as (q & t & ->) by (destruct a1; by do 2 eexists).
      rewrite (load8_at [] q t) by done. cbn [obind]. set (s1 := if negb _ then _ else _).
      assert (fm s1 = fm s /\ rdb_child s1 = rdb_child s /\ rdb_file s1 = rdb_file s) as (E1 & E2 & E3) by (unfold s1; by destruct (negb _)).
      destruct (wf_full e fe y s1 c v (fullresync_line conf (srv (fm s))) Hwf E1 E2 E3 Ho Hf Hw Hh Hb Hfk (or_intror eq_refl)) as (s' & -> & Ha & W). cbn [obind]. exists s', (fullresync_line conf (srv (fm s))). split; [done|]. split; [by right|done].
  - destruct (wf_full e fe y s (set_flags c (flag_pre_psync (rflags c))) v [] Hwf eq_refl eq_refl eq_refl Ho Hf Hw Hh Hb Hfk (or_introl eq_refl)) as (s' & -> & Ha & W). cbn [obind]. exists s', []. split; [done|]. split; [by right|done].
Qed.

(** A slave joins only where no [fork] is needed or it succeeds. *)
Lemma full_resync_forked e fe s c s' : full_resync e fe s c = Some (s', None) -> full_resync e (mkFork true (time fe)) s c = Some (s', None).
Proof.
  unfold full_resync. cbn [rdb_child set_stats]. destruct (rdb_child s) eqn:Ec; [done|]. unfold rdbSaveBackground. cbn [rdb_child set_stats forked time]. rewrite Ec. destruct (forked fe); [done|].
  cbn [negb]. destruct (addReplyError _ _ _ _) as [[h c1]|]; done.
Qed.

Lemma sync_forked e fe s c argv s' out : syncCommand e fe conf s c argv false true = Some (s', None, out) -> syncCommand e (mkFork true (time fe)) conf s c argv false true = Some (s', None, out).
Proof.
  unfold syncCommand. destruct (SLAVE _); [done|]. destruct (_ || _); [done|]. destruct (argv !! 0%nat) as [o0|]; [|done]. cbn [obind]. destruct (mheap (fm s) !! o0) as [ob|]; [|done]. cbn [obind].
  assert (forall s1 c1 out1, (' (s2, r) <- full_resync e fe s1 c1;; Some (s2, r, out1)) = Some (s', None, out) ->
    (' (s2, r) <- full_resync e (mkFork true (time fe)) s1 c1;; Some (s2, r, out1)) = Some (s', None, out)) as Hfull.
  { intros s1 c1 out1. destruct (full_resync e fe s1 c1) as [[s2 [c2|]]|] eqn:E; [done| |done]. by rewrite (full_resync_forked _ _ _ _ _ E). }
  destruct (optr ob) as [|name|]; [done| |done]. destruct (strcaseeq _ _ _) as [[|]|]; [| |done]; cbn [obind]; [|apply Hfull].
  destruct (argv !! 1%nat) as [o1|]; [|done]. destruct (argv !! 2%nat) as [o2|]; [|done]. cbn [obind]. destruct (masterTryPartialResynchronization _ _ _ _ _ _ _) as [[[[m' r] ok] out1]|]; [|done]. cbn [obind].
  destruct ok; [done|]. destruct (mheap (fm s) !! o1) as [ob1|]; [|done]. cbn [obind]. destruct (match optr ob1 with PSds _ => _ | _ => _ end); [|done]. cbn [obind]. destruct r; [|done]. cbn [obind]. apply Hfull.
Qed.

(** ** The timer *)

Lemma has_hold ext h o ob x d : h !! o = None -> has ext h x d -> has (hold_one ext o) (<[o := ob]> h) x d.
Proof.
  intros Ho (Hx & obx & E & Hs). assert (x <> o) by congruence. split; [unfold hold_one; by rewrite bool_decide_eq_false_2|]. exists obx. by rewrite lookup_insert_ne.
Qed.

Lemma shared_hold ext h o ob : h !! o = None -> shared_ok shared ext h -> select_ok shared ext h ->
  shared_ok shared (hold_one ext o) (<[o := ob]> h) /\ select_ok shared (hold_one ext o) (<[o := ob]> h).
Proof.
  intros Ho (H1 & H2 & H3 & H4 & H5) Hs. split; [split; [|split; [|split; [|split]]]|]; try (by apply has_hold).
  - intros n Hn. destruct (H1 n Hn) as (x & Ex & Hx). exists x. split; [done|by apply has_hold].
  - intros n Hn. destruct (H2 n Hn) as (x & Ex & Hx). exists x. split; [done|by apply has_hold].
  - intros n Hn. destruct (Hs n Hn) as (x & Ex & Hx). exists x. split; [done|by apply has_hold].
Qed.

(** The server feeds PING to its slaves; [ext] holds a reference of its own. *)
Lemma ping_feed e y g o ob : let s := y_server y in let m := fm s in aeCreateFileEvent_ok e = true -> wf y -> slaves m = g.*1 -> group_ok (y_held y) (mheap m) g -> Forall2 (slave_ok y) g (y_replicas y) ->
  mheap m !! o = None -> refcount ob = 1 -> stands_for ob s_PING -> Forall (fun c => limit_ok c 5) (slaves m) -> offset_ok (srv m) 100 ->
  exists m' g', replicationFeedSlaves shared e (mkMaster (srv m) (<[o := ob]> (mheap m)) (slaves m) (repl_good_slaves_count m)) (slaveseldb (srv m)) [o] = Some m' /\
    slaves m' = g'.*1 /\ group_ok (hold_one (y_held y) o) (mheap m') g' /\ keeps (hold_one (y_held y) o) (<[o := ob]> (mheap m)) (mheap m') /\
    let y' := mkSystem (set_master s m') (y_held y) (y_log y) (y_snap y) (if has_backlog s then y_stream y ++ cmd_bytes [s_PING] else y_stream y) (y_first y) (y_replicas y) in
    backlog_wf y' /\ Forall2 (slave_ok y') g' (y_replicas y).
Proof.
  intros s m He (_ & Hsh & Hsel & (Hm & Hsz & Hdb & Hbl) & _ & Hsn) Eg Hg F Ho Hrc Hp Hlim Hoff. fold s m in Hsh, Hsel, Hm, Hsz, Hdb, Hbl. destruct (group_acquire _ _ g o ob Hg Ho Hrc) as [Hg1 K1].
  destruct (shared_hold _ _ o ob Ho Hsh Hsel) as [Hsh1 Hsel1]. unfold has_backlog. fold m. destruct (repl_backlog (srv m)) as [b|] eqn:Eb.
  - destruct Hbl as (D & HD & Hok & Hoffs). assert (command_bytes (slaveseldb (srv m)) (slaveseldb (srv m)) [s_PING] = cmd_bytes [s_PING]) as Ecb.
    { rewrite command_bytes_eq. unfold select_bytes. by rewrite Z.eqb_refl. }
    destruct (feed_command_spec shared e He (hold_one (y_held y) o) (mkMaster (srv m) (<[o := ob]> (mheap m)) (slaves m) (repl_good_slaves_count m)) g D (slaveseldb (srv m)) [o] [s_PING])
      as (m' & g' & E & Eg' & Hg' & K & Hok' & Es & _ & Eo & G); cbn [srv slaves mheap]; try done.
    { split; [done|]. constructor; [|constructor]. split; [unfold hold_one; by rewrite bool_decide_eq_true_2|]. exists ob. split; [apply lookup_insert_eq|done]. }
    { rewrite Eg in Hlim. exact (slaves_writable y g _ _ F Hlim). }
    { rewrite Ecb. change (msize (cmd_bytes [s_PING])) with 14. unfold offset_ok in *. lia. }
    cbn [srv slaves mheap] in *. rewrite Ecb in *. exists m', g'. split; [done|]. split; [done|]. split; [done|]. split; [done|].
    assert (exists b', repl_backlog (srv m') = Some b' /\ repl_backlog_size (srv m') < 2 ^ 31 - 1 /\ 0 < repl_backlog_size (srv m')) as (b' & Eb' & Hs1 & Hs2).
    { destruct Hok' as (b' & R & T & Eb' & Hb' & Hs & Hr & _). exists b'. destruct (ring_size _ _ _ Hr). split; [done|]. split; [done|]. lia. }
    split.
    + unfold backlog_wf. cbn [y_server fm set_master y_stream y_first]. rewrite Eb', Es. change (msize (cmd_bytes [s_PING])) with 14 in *. split; [lia|]. split; [done|]. split; [done|].
      exists (D ++ cmd_bytes [s_PING]). split; [by apply ends_app|]. split; [done|]. rewrite msize_app. change (msize (cmd_bytes [s_PING])) with 14. lia.
    + eapply (slaves_advance y _ [[s_PING]] [] [] _ (sent_to (slaveseldb (srv m)) (slaveseldb (srv m)) [s_PING]) g g'); [| |exact G|exact F].
      * split; cbn [y_log y_stream y_first y_server fm set_master]; [by rewrite app_nil_r|unfold log_bytes; cbn [fmap list_fmap concat]; by rewrite app_nil_r|done|done|done| |]; fold s; fold m; rewrite Es; intros R HR.
        -- rewrite app_nil_r. by apply ping_interp.
        -- by rewrite app_nil_r.
      * intros c. rewrite sent_to_bytes, with_select_only. unfold select_only. by rewrite Z.eqb_refl.
  - exists (mkMaster (srv m) (<[o := ob]> (mheap m)) (slaves m) (repl_good_slaves_count m)), g. unfold replicationFeedSlaves. cbn [srv slaves mheap]. rewrite Eb, Hbl. rewrite Hbl in Eg. split; [done|]. split; [done|].
    split; [done|]. split; [apply keeps_refl|]. split.
    + unfold backlog_wf. cbn [y_server fm set_master y_stream y_first srv slaves]. by rewrite Eb.
    + symmetry in Eg. apply fmap_nil_inv in Eg as ->. apply list.Forall2_nil_inv_l in F as ->. constructor.
Qed.

Lemma slave_newline y p r ok : slave_ok y p r ->
  slave_ok y p (more r (match replstate p.1 with REDIS_REPL_WAIT_BGSAVE_START | REDIS_REPL_WAIT_BGSAVE_END => if ok : bool then [10] else [] | _ => [] end)).
Proof.
  assert (more r [] = r) as E0 by (destruct r; unfold more; cbn; by rewrite app_nil_r). intros [Hw Hs]. split; [done|]. destruct (replstate p.1) eqn:E; rewrite ?E0; try done;
    (destruct ok; rewrite ?E0; [|done]); destruct Hs as (answer & v & n & R & H1 & H2 & H3 & H4 & H5); exists answer, v, (Datatypes.S n), R; rewrite E in H5 |- *; destruct H5 as (W & H5);
    cbn [came wrote more]; repeat (split; [done|]); (split; [|done]); rewrite W, <- app_assoc; f_equal; unfold newlines; change [10] with (replicate 1 10); by rewrite <- replicate_add, Nat.add_1_r.
Qed.

Lemma slaves_newlines y g rs write_ok : Forall2 (slave_ok y) g rs -> Forall2 (slave_ok y) g (zip_with more rs (cron_newlines write_ok g.*1)).
Proof. intros F. unfold cron_newlines. induction F as [|p r g rs Hp _ IH]; [constructor|]. rewrite !fmap_cons. cbn [zip_with]. constructor; [by apply slave_newline|done]. Qed.

Lemma nothing_more (l : list rclient) : forall rs, length l = length rs -> zip_with more rs ((fun _ => []) <$> l) = rs.
Proof.
  induction l as [|c l IH]; intros [|r rs] E; try done. rewrite fmap_cons. cbn [zip_with]. rewrite IH by (cbn in E; lia). f_equal. destruct r. unfold more. cbn. by rewrite app_nil_r.
Qed.

(** The period of PING is an [int] that is not 0. *)
Definition cron_ok (cc : cron_conf) : Prop := - 2 ^ 31 <= repl_ping_slave_period cc * hz cc < 2 ^ 31 /\ repl_ping_slave_period cc * hz cc <> 0.

Lemma cron_ping_ok e cc write_ok loops m r : cron_ping shared e cc write_ok loops m = Some r -> cron_ok cc.
Proof.
  unfold cron_ping, int_arith. destruct (_ && _) eqn:Eb; [|done]. cbn [obind]. intros E1. apply andb_true_iff in Eb as [B1%Z.leb_le B2%Z.ltb_lt]. split; [done|]. intros Hz. by rewrite Hz in E1.
Qed.

Lemma wf_ping e cc write_ok loops y : let s := y_server y in wf y -> aeCreateFileEvent_ok e = true -> cron_ok cc -> Forall (fun c => limit_ok c 5) (slaves (fm s)) -> offset_ok (srv (fm s)) 100 ->
  exists m1 outs, cron_ping shared e cc write_ok loops (fm s) = Some (m1, outs) /\
    wf (mkSystem (set_master s m1) (y_held y) (y_log y) (y_snap y) (if ping_due cc loops && has_backlog s then y_stream y ++ cmd_bytes [s_PING] else y_stream y) (y_first y) (zip_with more (y_replicas y) outs)).
Proof.
  intros s Hwf He [Hcc1 Hcc2] Hlim Hoff. pose proof Hwf as ((g & Eg & Hg & F) & Hsh & Hsel & Hbl & Hf & Hsn). fold s in Eg, Hg, Hsh, Hsel, Hf. unfold cron_ping, ping_due. rewrite int_arith_Some by done. cbn [obind].
  rewrite (proj2 (Z.eqb_neq _ _)) by done. destruct (Z.rem loops (repl_ping_slave_period cc * hz cc) =? 0); cbn [andb].
  - destruct (create_string (mheap (fm s)) s_PING [0]) as (en & sd & o & E & Hsd & Hen & Ho & _); [done|]. change (createStringObject (mheap (fm s)) [80; 73; 78; 71; 0] 4 = Some (<[o:=mkObj 1 en (PSds sd)]> (mheap (fm s)), o)) in E.
    rewrite E. cbn [obind]. destruct (ping_feed e y g o (mkObj 1 en (PSds sd)) He Hwf Eg Hg F Ho eq_refl ltac:(left; by exists sd) Hlim Hoff) as (m' & g' & E' & Eg' & Hg' & K' & Hbl' & F'). fold s in E', Hbl', F'.
    rewrite E'. cbn [obind]. assert (y_held y o = 0) as Hz by (destruct Hg as [Hr _]; specialize (Hr o); rewrite Ho in Hr; lia).
    destruct (group_release _ _ g' o Hg' Hz) as (h2 & E2 & Hg2 & K2). rewrite E2. cbn [obind]. eexists _, _. split; [done|].
    assert (keeps (y_held y) (mheap (fm s)) h2) as K.
    { destruct (group_acquire _ _ g o (mkObj 1 en (PSds sd)) Hg Ho eq_refl) as [_ K1]. eapply keeps_trans; [exact K1|]. eapply keeps_trans; [by eapply keeps_hold|exact K2]. }
    split; [|split; [by eapply (kept_shared shared)|split; [by eapply (kept_select shared)|split; [exact Hbl'|split; [done|done]]]]].
    exists g'. split; [done|]. split; [done|]. rewrite Eg'. cbn [y_replicas]. eapply slaves_change; [| |apply slaves_newlines, F']; [repeat split; by left|done].
  - eexists _, _. split; [done|]. rewrite nothing_more; [|apply list.Forall2_length in F; by rewrite Eg, length_fmap]. by destruct y as [[? ? ? ? ? ? ? ? ?] ? ? ? ? ? ?].
Qed.

Lemma wf_timeouts cc now y : wf y -> exists s', cron_timeouts cc conf now (y_server y) = Some s' /\
  wf (mkSystem s' (y_held y) (y_log y) (y_snap y) (y_stream y) (y_first y) (keep (timed_out cc now) (slaves (fm (y_server y))) (y_replicas y))).
Proof.
  intros Hwf. pose proof Hwf as ((g & Eg & Hg & F) & _). unfold cron_timeouts. rewrite Eg. destruct (free_slaves_spec (timed_out cc now) (y_held y) g [] _ Hg) as (h' & freed & -> & Hg' & K). cbn [obind].
  eexists. split; [done|]. destruct (left_fields now (y_server y) h' (filter (fun q => timed_out cc now q.1 = false) g).*1 freed) as (E1 & E2 & E3 & E4 & E5).
  apply (wf_group y _ (filter (fun q => timed_out cc now q.1 = false) g)); try done; [by rewrite E2|by rewrite E2| |by apply keep_ok].
  intros _ E. rewrite E in Eg. symmetry in Eg. by apply fmap_nil_inv in Eg as ->.
Qed.

Lemma wf_same y s' : let s := y_server y in wf y -> srv (fm s') = srv (fm s) -> mheap (fm s') = mheap (fm s) -> slaves (fm s') = slaves (fm s) -> rdb_child s' = rdb_child s -> rdb_file s' = rdb_file s ->
  wf (mkSystem s' (y_held y) (y_log y) (y_snap y) (y_stream y) (y_first y) (y_replicas y)).
Proof.
  intros s Hwf E1 E2 E3 E4 E5. pose proof Hwf as ((g & Eg & Hg & F) & _). apply (wf_group y s' g); try done; rewrite ?E2, ?E3; try done; [apply keeps_refl|].
  intros _ E. rewrite E in Eg. symmetry in Eg. by apply fmap_nil_inv in Eg.
Qed.

Lemma wf_idle cc now y : wf y -> exists s', cron_backlog cc now (y_server y) = Some s' /\ slaves (fm s') = slaves (fm (y_server y)) /\
  wf (mkSystem s' (y_held y) (y_log y) (y_snap y) (y_stream y) (y_first y) (y_replicas y)).
Proof.
  intros Hwf. unfold cron_backlog. destruct (_ && _) eqn:E; [|exists (y_server y); split; [done|split; [done|by destruct y]]].
  apply andb_true_iff in E as [[[E1%bool_decide_eq_true _]%andb_true_iff _]%andb_true_iff _]. rewrite E1. cbn [obind freeReplicationBacklog]. change (msize (@nil rclient) =? 0) with true. cbn [negb obind].
  eexists. split; [done|]. split; [done|]. destruct Hwf as ((g & Eg & Hg & F) & Hsh & Hsel & (Hm & Hsz & Hdb & _) & Hf & Hsn). split; [|split; [done|split; [done|split; [|done]]]]; [|done].
  rewrite E1 in Eg. symmetry in Eg. apply fmap_nil_inv in Eg as ->. apply list.Forall2_nil_inv_l in F as F0. exists []. cbn [y_replicas]. rewrite F0. done.
Qed.

Lemma wf_cron e cc write_ok loops y : let s := y_server y in wf y -> aeCreateFileEvent_ok e = true -> cron_ok cc -> Forall (fun c => limit_ok c 5) (slaves (fm s)) -> offset_ok (srv (fm s)) 100 ->
  exists m1 outs s', cron_ping shared e cc write_ok loops (fm s) = Some (m1, outs) /\ replicationCron shared e cc conf write_ok loops s = Some (s', outs) /\
    wf (mkSystem s' (y_held y) (y_log y) (y_snap y) (if ping_due cc loops && has_backlog s then y_stream y ++ cmd_bytes [s_PING] else y_stream y) (y_first y)
          (keep (timed_out cc (unixtime e)) (slaves m1) (zip_with more (y_replicas y) outs))).
Proof.
  intros s Hwf He Hcc Hlim Hoff. destruct (wf_ping e cc write_ok loops y Hwf He Hcc Hlim Hoff) as (m1 & outs & E1 & W1). fold s in E1, W1. exists m1, outs. unfold replicationCron. rewrite E1. cbn [obind].
  destruct (wf_timeouts cc (unixtime e) _ W1) as (s2 & E2 & W2). cbn [y_server] in E2. rewrite E2. cbn [obind]. cbn [y_server y_held y_log y_snap y_stream y_first y_replicas] in W2.
  destruct (wf_idle cc (unixtime e) _ W2) as (s3 & E3 & E4 & W3). cbn [y_server] in E3. rewrite E3. cbn [obind]. eexists. split; [done|]. split; [done|].
  cbn [y_server y_held y_log y_snap y_stream y_first y_replicas fm set_master] in W3. set (s4 := if _ && _ && _ then replicationScriptCacheFlush s3 else s3).
  assert (fm s4 = fm s3 /\ rdb_child s4 = rdb_child s3 /\ rdb_file s4 = rdb_file s3) as (F1 & F2 & F3) by (unfold s4; by destruct (bool_decide (slaves (fm s3) = []) && aof_off cc && _)).
  destruct (refresh_fields (unixtime e) (fm s4)) as (R1 & R2 & R3). rewrite F1 in R1, R2, R3. eapply (wf_same _ _ W3); cbn [y_server fm set_master rdb_child rdb_file]; by rewrite ?F1, ?R1, ?R2, ?R3.
Qed.

(** ** All steps *)

Hypothesis Hrun : Forall (fun x => x <> 0) (runid conf).

Lemma wf_step y y' : wf y -> rstep y y' -> wf y'.
Proof.
  intros W St. destruct St as [s s' ext ext' lg sn st fi rs H|e s m' ext lg sn st fi rs d argv args He Ha Hp Hd Hl Hlim Ho E|e fe s s' ext lg sn st fi rs c argv ps v out He Hc Hr Ho E|fe s s' ext lg sn st fi rs E
    |se fe now s f s' ext lg sn st fi rs x Hc Hf Hfo Hx E|be now s s' ext lg sn st fi rs i c out Hi Hb E|sd now s s' ext lg sn st fi rs i c out Hi Hw Hr E|now s s' ext lg sn st fi rs i E
    |s r' ext lg sn st fi rs n Hn Ho E|e cc wo loops s m1 s' ext lg sn st fi rs outs He Hlim Ho E1 E2].
  - exact (wf_elsewhere _ s' ext' W H).
  - destruct (wf_command e _ d argv args W He Ha Hp Hd Hl Hlim Ho) as (m1 & E' & W'). cbn [y_server] in E'. rewrite E in E'. injection E' as <-. exact W'.
  - apply sync_forked in E. destruct (wf_sync e (mkFork true (time fe)) _ c argv ps v W He Hrun Hc Hr Ho eq_refl) as (s1 & out1 & E' & _ & _ & W'). cbn [y_server] in E'. rewrite E in E'. injection E' as <- <-. exact W'.
  - exact (wf_bgsave fe _ s' W E).
  - destruct (wf_saved se fe now _ f x W Hf Hfo Hx) as (s1 & E' & W'). cbn [y_server] in E'. rewrite E in E'. injection E' as <-. exact W'.
  - destruct (wf_bulk be now _ i c W Hi Hb) as (s1 & out1 & E' & W'). cbn [y_server] in E'. rewrite E in E'. injection E' as <- <-. exact W'.
  - destruct (wf_write sd now _ i c W Hi Hw Hr) as (s1 & out1 & E' & W'). cbn [y_server] in E'. rewrite E in E'. injection E' as <- <-. exact W'.
  - destruct (slaves (fm s) !! i) as [c|] eqn:Hi; [|by unfold free_slave_at in E; rewrite Hi in E]. apply lookup_lt_Some in Hi.
    destruct (wf_close _ now i W Hi) as (s1 & E' & W'). cbn [y_server] in E'. rewrite E in E'. injection E' as <-. exact W'.
  - destruct (wf_resize _ n W Hn Ho) as (r1 & E' & W'). cbn [y_server] in E'. rewrite E in E'. injection E' as <-. exact W'.
  - assert (cron_ok cc) as Hcc by by eapply cron_ping_ok.
    destruct (wf_cron e cc wo loops _ W He Hcc Hlim Ho) as (m2 & outs2 & s2 & E1' & E2' & W'). cbn [y_server] in E1', E2', W'. rewrite E1 in E1'. injection E1' as <- <-. rewrite E2 in E2'. injection E2' as <-. exact W'.
Qed.

Lemma wf_reachable y y' : wf y -> rtc rstep y y' -> wf y'.
Proof. intros W St. induction St as [|y y1 y2 S1 _ IH]; [done|]. apply IH. by eapply wf_step. Qed.

(** ** The answers *)

Lemma keep_in p l rs (P : replica -> Prop) : Forall P rs -> Forall P (keep p l rs).
Proof.
  intros H. unfold keep. apply list.Forall_forall. intros r Hr. apply list_elem_of_fmap in Hr as ([c r'] & -> & Hin). apply list_elem_of_filter in Hin as [_ Hin].
  rewrite list.Forall_forall in H. apply H. apply elem_of_zip_r in Hin. done.
Qed.

Lemma announced_more rs : Forall announced rs -> forall outs, Forall announced (zip_with more rs outs).
Proof. induction 1 as [|r rs Hr _ IH]; intros [|out outs]; cbn [zip_with]; constructor; [done|apply IH]. Qed.

Lemma announced_event s s' i out rs : Forall announced rs -> Forall announced (after_event s s' i out rs).
Proof. intros H. unfold after_event. destruct (bool_decide _); [apply Forall_alter; [done|]; by intros r _ Hr|by apply Forall_delete]. Qed.

Lemma announced_step y y' : wf y -> Forall announced (y_replicas y) -> rstep y y' -> Forall announced (y_replicas y').
Proof.
  intros W A St. destruct St as [| |e fe s s' ext lg sn st fi rs c argv ps v out He Hc Hr Ho E| | | | | | |]; cbn [y_replicas] in *; try done;
    [|by apply keep_in|by apply announced_event|by apply announced_event|by apply Forall_delete|by apply keep_in, announced_more].
  apply sync_forked in E. destruct (wf_sync e (mkFork true (time fe)) _ c argv ps v W He Hrun Hc Hr Ho eq_refl) as (s1 & out1 & E' & _ & A' & _). cbn [y_server] in E', A'. rewrite E in E'. injection E' as <- <-.
  apply Forall_app. split; [done|by constructor].
Qed.

Lemma announced_reachable y y' : wf y -> Forall announced (y_replicas y) -> rtc rstep y y' -> Forall announced (y_replicas y').
Proof. intros W A St. induction St as [|y y1 y2 S1 _ IH]; [done|]. apply IH; [by eapply wf_step|by eapply announced_step]. Qed.

End System.
