(* ===== verification/ReplicaSpec.v ===== *)
(** What slaves receive from a master, that its operations are always defined, that transfers end, and two errors of background saves. *)

From stdpp Require Import gmap relations.
From S2P Require Import Prelude Util Sds SdsArgs SdsRep Rdb RioSpec Networking NetworkingSpec Aof AofSpec Reply ReplySpec ReplyOps ReplySend ReplyDefer ReplyHistory ReplyClients Replication Backlog ReplicationSpec FullSync FullSyncSpec ReplicaSystem.

Section Spec.
Context {HOST : Host} {AL : Allocator} {LAWS : AllocatorLaws AL}.

(** A server that was just started: it has no slaves and no backlog. *)
Definition new_system (shared : sharedObjects) (y : system) : Prop :=
  let s := y_server y in let r := srv (fm s) in
  slaves (fm s) = [] /\ y_replicas y = [] /\ repl_backlog r = None /\ 0 <= master_repl_offset r /\ 0 < repl_backlog_size r < 2 ^ 31 - 1 /\ slaveseldb r = -1 /\
  refs (y_held y) (mheap (fm s)) [] /\ shared_ok shared (y_held y) (mheap (fm s)) /\ select_ok shared (y_held y) (mheap (fm s)) /\ file_ok (rdb_file s) /\ y_snap y = 0%nat.

Lemma new_wf shared dump_of y : new_system shared y -> wf shared dump_of y.
Proof.
  intros (H1 & H2 & H3 & H4 & H5 & H6 & H7 & H8 & H9 & H10 & H11). split; [|split; [done|split; [done|split; [|split; [done|lia]]]]].
  - exists []. rewrite H1, H2. split; [done|]. split; [split; [done|constructor]|constructor].
  - unfold backlog_wf. rewrite H3, H6. split; [done|]. split; [done|]. split; [by unfold in_sint|done].
Qed.

(** What a slave was sent and will be sent. *)
Definition output (y : system) (c : rclient) (r : replica) : bytes := wrote r ++ unsent (mheap (fm (y_server y))) (fun _ => []) c.

Lemma slave_at shared dump_of y i c r : wf shared dump_of y -> slaves (fm (y_server y)) !! i = Some c -> y_replicas y !! i = Some r ->
  exists o, slave_ok dump_of y (c, o) r /\ unsent (mheap (fm (y_server y))) (fun _ => []) c = left (c, o).
Proof.
  intros ((g & Eg & Hg & F) & _) Ec Er. rewrite Eg in Ec. destruct (at_slave dump_of y g _ i c F Ec) as (g1 & o & g2 & rs1 & r1 & rs2 & -> & E & H1 & H2 & _ & Hs & _).
  rewrite E, list_lookup_middle in Er by done. injection Er as ->. exists o. split; [done|]. pose proof (focus _ _ _ _ _ _ Hg) as I. rewrite (unsent_pending _ _ (fun _ => []) c _ _ I).
  destruct o. symmetry. apply left_pending.
Qed.

(** What an online slave is sent after a full resynchronisation. *)
Lemma online_full shared conf dump_of y0 y i c r answer v : Forall (fun x => x <> 0) (runid conf) -> new_system shared y0 -> rtc (rstep shared conf dump_of) y0 y ->
  slaves (fm (y_server y)) !! i = Some c -> y_replicas y !! i = Some r -> replstate c = REDIS_REPL_ONLINE -> came r = Full answer v ->
  wf shared dump_of y /\ announced conf r /\ exists n k f R, output y c r = answer ++ newlines n ++ bulk_header f ++ f ++ log_bytes R /\ dump_of (take k (y_log y)) f /\ replays y v k R.
Proof.
  intros Hrun H0 St Ec Er Eo Ecame. pose proof (new_wf shared dump_of y0 H0) as W0. pose proof (wf_reachable _ _ _ Hrun y0 y W0 St) as W. split; [done|].
  pose proof (announced_reachable _ _ _ Hrun y0 y W0 ltac:(destruct H0 as (_ & -> & _); constructor) St) as A. rewrite list.Forall_lookup in A. split; [by apply (A i)|].
  destruct (slave_at shared dump_of y i c r W Ec Er) as (o & [_ Hs] & El). unfold output. rewrite El. cbn [fst] in Hs. rewrite Eo in Hs. destruct Hs as [_ Hs]. unfold slave_online in Hs. by rewrite Ecame in Hs.
Qed.

(** C5. In every state that is reached from a new server by commands, SYNC and PSYNC requests, background saves, events, the timer and other changes: a slave that is online after a partial
    resynchronisation is sent the replication stream from the offset it asked for; after a full one it is sent a dump of the dataset after some of the commands, and then exactly the commands that
    follow, each in its database. Where the save was started for the slave, what follows the dump is the replication stream after the offset of the answer. *)
Theorem replicas_consistent (shared : sharedObjects) (conf : repl_conf) (dump_of : list command -> bytes -> Prop) (y0 y : system) (i : nat) (c : rclient) (r : replica) :
  Forall (fun x => x <> 0) (runid conf) -> new_system shared y0 -> rtc (rstep shared conf dump_of) y0 y ->
  slaves (fm (y_server y)) !! i = Some c -> y_replicas y !! i = Some r -> replstate c = REDIS_REPL_ONLINE ->
  match came r with
  | Partial v => output y c r = CONTINUE ++ drop (Z.to_nat (v - y_first y)) (y_stream y)
  | Full answer v => exists n k f R,
      output y c r = answer ++ replicate n 10 ++ bulk_header f ++ f ++ log_bytes R /\ dump_of (take k (y_log y)) f /\ interp None R = drop k (y_log y) /\ Forall cmd_ok R /\
      forall p, v = Some p -> log_bytes R = drop (Z.to_nat (p - y_first y)) (y_stream y) /\ (answer = [] \/ answer = FULLRESYNC ++ runid conf ++ [32] ++ printf_d (p - 1) ++ [13; 10])
  end.
Proof.
  intros Hrun H0 St Ec Er Eo. destruct (came r) as [v|answer v] eqn:Ecame.
  - pose proof (wf_reachable _ _ _ Hrun y0 y (new_wf shared dump_of y0 H0) St) as W. destruct (slave_at shared dump_of y i c r W Ec Er) as (o & [_ Hs] & El). unfold output. rewrite El. cbn [fst] in Hs.
    rewrite Eo in Hs. destruct Hs as [_ Hs]. unfold slave_online in Hs. rewrite Ecame in Hs. by destruct Hs.
  - destruct (online_full shared conf dump_of y0 y i c r answer v Hrun H0 St Ec Er Eo Ecame) as (_ & A & n & k & f & R & E & Hd & _ & Hi & [Hc _] & Hp). exists n, k, f, R.
    split; [done|]. split; [done|]. split; [done|]. split; [done|]. intros p ->. split; [by apply Hp|]. unfold announced in A. rewrite Ecame in A. destruct A as [A|(o & _ & A & Ho)]; [by left|right].
    by rewrite <- (Ho p eq_refl).
Qed.

(** C9. In every state that is reached from a new server each operation is defined: no assertion fails and no memory is accessed out of bounds when a command is propagated, a client asks for
    synchronisation, a background save ends, a slave can be written to or is closed, and when the timer runs. *)
Theorem replication_safe (shared : sharedObjects) (conf : repl_conf) (dump_of : list command -> bytes -> Prop) (y0 y : system) :
  Forall (fun x => x <> 0) (runid conf) -> new_system shared y0 -> rtc (rstep shared conf dump_of) y0 y -> let s := y_server y in
  (forall e dictid argv args, aeCreateFileEvent_ok e = true -> args_ok shared argv args (y_held y) (mheap (fm s)) -> proper args -> 0 <= dictid < 2 ^ 31 -> msize argv < 2 ^ 31 ->
     Forall (fun c => limit_ok c (2 + 3 * msize argv)) (slaves (fm s)) -> offset_ok (srv (fm s)) (msize (command_bytes (slaveseldb (srv (fm s))) dictid args)) ->
     is_Some (replicationFeedSlaves shared e (fm s) dictid argv)) /\
  (forall e fe c argv psync v, aeCreateFileEvent_ok e = true -> forked fe = true -> requester c -> request (mheap (fm s)) argv psync v -> offset_ok (srv (fm s)) 2 ->
     exists s' out, syncCommand e fe conf s c argv false true = Some (s', None, out)) /\
  (forall se fe now f exitcode, forked fe = true -> file_ok f -> (exitcode = 0 -> exists b, f = Some b /\ dump_of (take (y_snap y) (y_log y)) b) ->
     is_Some (backgroundSaveDoneHandler se fe conf now (set_file s f) exitcode 0)) /\
  (forall i c, slaves (fm s) !! i = Some c -> (forall be now, bulk_handler (bulk c) = true -> is_Some (bulk_event be conf now s i)) /\
     (forall sd now, write_handler c = true -> room_sum (writes sd) < 2 ^ 31 -> is_Some (reply_event sd conf now s i)) /\ (forall now, is_Some (free_slave_at conf now s i))) /\
  (forall e cc write_ok loops, aeCreateFileEvent_ok e = true -> cron_ok cc -> Forall (fun c => limit_ok c 5) (slaves (fm s)) -> offset_ok (srv (fm s)) 100 ->
     is_Some (replicationCron shared e cc conf write_ok loops s)).
Proof.
  intros Hrun H0 St s. pose proof (wf_reachable _ _ _ Hrun y0 y (new_wf shared dump_of y0 H0) St) as W. split; [|split; [|split; [|split]]].
  - intros e d argv args He Ha Hp Hd Hl Hlim Ho. destruct (wf_command _ _ e y d argv args W He Ha Hp Hd Hl Hlim Ho) as (m' & E & _). by exists m'.
  - intros e fe c argv ps v He Hf Hc Hr Ho. destruct (wf_sync _ _ _ e fe y c argv ps v W He Hrun Hc Hr Ho Hf) as (s' & out & E & _). by exists s', out.
  - intros se fe now f x Hf Hfo Hx. destruct (wf_saved _ conf _ se fe now y f x W Hf Hfo Hx) as (s' & E & _). by exists s'.
  - intros i c Ei. split; [|split].
    + intros be now Hb. destruct (wf_bulk _ conf _ be now y i c W Ei Hb) as (s' & out & E & _). by exists (s', out).
    + intros sd now Hw Hr. destruct (wf_write _ conf _ sd now y i c W Ei Hw Hr) as (s' & out & E & _). by exists (s', out).
    + intros now. destruct (wf_close _ conf _ y now i W (lookup_lt_Some _ _ _ Ei)) as (s' & E & _). by exists s'.
  - intros e cc wo loops He Hcc Hlim Ho. destruct (wf_cron _ conf _ e cc wo loops y W He Hcc Hlim Ho) as (m1 & outs & s' & _ & E & _). by exists (s', outs).
Qed.

(** ** Transfers *)

(** The bytes of the header and the file that are not written. *)
Definition left_to_send (b : bulk_state) : Z := match replpreamble b with Some s => sdslen s | None => 0 end + (repldbsize b - repldboff b).

Lemma transfer_left b f tx : transfer b f tx -> msize tx + left_to_send b = msize (bulk_header f ++ f).
Proof.
  intros (_ & H2 & _ & [H4 _] & H5). unfold left_to_send. rewrite H2, msize_app. destruct (replpreamble b) as [s|].
  - destruct H5 as (p & Hs & _ & H0 & E). destruct (sds_rep_len s p Hs) as [-> _]. rewrite H0, <- E, msize_app. lia.
  - rewrite H5, msize_app. assert (msize (take (Z.to_nat (repldboff b)) f) = repldboff b) by (unfold msize in *; rewrite length_take; lia). lia.
Qed.

(** C11. The transfer of a dump to a slave ends: when each write accepts at least a byte and the other system calls succeed, as many events as bytes are left suffice. The slave is then online, its
    output is scheduled, and it was sent the answer, the length of a dump and the whole dump. *)
Theorem transfer_completes (shared : sharedObjects) (conf : repl_conf) (dump_of : list command -> bytes -> Prop) (y0 y : system) (i : nat) (c : rclient) (r : replica) (bes : list bulk_env) (now : Z) :
  Forall (fun x => x <> 0) (runid conf) -> (forall l f, dump_of l f -> f <> []) -> new_system shared y0 -> rtc (rstep shared conf dump_of) y0 y ->
  slaves (fm (y_server y)) !! i = Some c -> y_replicas y !! i = Some r -> replstate c = REDIS_REPL_SEND_BULK -> Forall cooperative bes -> left_to_send (bulk c) <= Z.of_nat (length bes) ->
  exists c' out answer v n k f, bulk_run bes now c = Some (c', out) /\ replstate c' = REDIS_REPL_ONLINE /\ write_handler c' = true /\ reply c' = reply c /\ came r = Full answer v /\
    wrote r ++ out = answer ++ replicate n 10 ++ bulk_header f ++ f /\ dump_of (take k (y_log y)) f.
Proof.
  intros Hrun Hne H0 St Ec Er Es Hb Hlen. pose proof (wf_reachable _ _ _ Hrun y0 y (new_wf shared dump_of y0 H0) St) as W.
  destruct (slave_at shared dump_of y i c r W Ec Er) as (o & [_ Hs] & _). cbn [fst] in Hs. rewrite Es in Hs. destruct Hs as (answer & v & n & R & H1 & _ & _ & _ & H5). cbn [fst] in H5. rewrite Es in H5.
  destruct H5 as (f & tx & k & E & Ht & Hf & Hd & _). pose proof (transfer_left _ _ _ Ht) as El. destruct (bulk_run_spec f (Hne _ _ Hd) Hf bes now c tx Ht Hb) as (b' & out & -> & _ & Eo); [lia|].
  eexists _, out, answer, v, n, k, f. repeat (split; [done|]). split; [|done]. rewrite E, <- !app_assoc, Eo. done.
Qed.

(** ** Background saves that fail *)

(** C38. When the child that saves for a slave is killed by a signal, its exit code is 0 and the slave is sent the file that was there before, which is older than the commands in its output. *)
Theorem killed_child_sends_old_file (conf : repl_conf) (se : slave_env) (fe : fork_env) (now : Z) (s : sync_server) (ext : oid -> Z) (c : rclient) (o : bytes * list bytes) (old : bytes) (bysignal : Z) :
  slaves (fm s) = [c] -> group_ok ext (mheap (fm s)) [(c, o)] -> replstate c = REDIS_REPL_WAIT_BGSAVE_END -> rdb_file s = Some old -> msize old < 2 ^ 63 ->
  open_ok se (fd c) = true -> handler_ok se (fd c) = true -> bysignal <> 0 ->
  exists s' c', backgroundSaveDoneHandler se fe conf now s 0 bysignal = Some s' /\ slaves (fm s') = [c'] /\ replstate c' = REDIS_REPL_SEND_BULK /\ repldbfd (bulk c') = Some old /\ reply c' = reply c.
Proof.
  intros Es Hg Ec Ef Hf H1 H2 Hsig. destruct (done_spec conf se fe now s (rdb_file s) 0 bysignal [(c, o)] ext Es Hg) as (s' & g' & E & _ & Es' & _ & _ & _ & _ & F).
  - intros b Eb. congruence.
  - intros Hst. exfalso. cbn in Hst. unfold starts in Hst. rewrite Ec in Hst. done.
  - assert (set_file s (rdb_file s) = s) as Esf by by destruct s. rewrite Esf in E. exists s'. rewrite filter_cons, decide_True, filter_nil in F.
    + apply list.Forall2_cons_inv_l in F as (p' & g2 & [_ Hu] & F & ->). apply list.Forall2_nil_inv_l in F as ->. cbn [fst] in Hu. rewrite Ec in Hu. destruct Hu as (f & sd & E' & _ & Ep).
      rewrite Ef in E'. injection E' as <-. exists p'.1. split; [done|]. split; [done|]. by rewrite Ep.
    + unfold lost, saved. cbn [fst]. by rewrite Ec, Ef, H1, H2.
Qed.

Lemma update_start se ok file h l : Forall (fun c => replstate c = REDIS_REPL_WAIT_BGSAVE_START) l ->
  update_slaves se ok file h l = Some (h, (fun c => set_replstate c REDIS_REPL_WAIT_BGSAVE_END) <$> l, negb (bool_decide (l = [])), false).
Proof. induction 1 as [|c l Hc _ IH]; [done|]. cbn [update_slaves]. rewrite Hc. cbn [obind]. by rewrite IH. Qed.

Lemma free_none h l : Forall (fun c => replstate c = REDIS_REPL_WAIT_BGSAVE_END) l -> free_slaves (fun c => bool_decide (replstate c = REDIS_REPL_WAIT_BGSAVE_START)) h l = Some (h, l, false).
Proof. induction 1 as [|c l Hc _ IH]; [done|]. cbn [free_slaves]. rewrite Hc, bool_decide_eq_false_2 by done. by rewrite IH. Qed.

(** When slaves wait for a background save to start and the [fork] for it fails, none of them is freed: all of them wait for the end of a background save that does not run. *)
Theorem failed_fork_keeps_waiting (conf : repl_conf) (se : slave_env) (fe : fork_env) (now : Z) (s : sync_server) (exitcode bysignal : Z) :
  slaves (fm s) <> [] -> Forall (fun c => replstate c = REDIS_REPL_WAIT_BGSAVE_START) (slaves (fm s)) -> forked fe = false ->
  exists s', backgroundSaveDoneHandler se fe conf now s exitcode bysignal = Some s' /\ rdb_child s' = false /\
    slaves (fm s') = (fun c => set_replstate c REDIS_REPL_WAIT_BGSAVE_END) <$> slaves (fm s).
Proof.
  intros Hne Hst Hfk. unfold backgroundSaveDoneHandler. set (st := mkRdbStatus _ _ _ _ _ (-1) _). unfold updateSlavesWaitingBgsave. cbn [rdb_file set_rdb fm].
  rewrite update_start, bool_decide_eq_false_2 by done. cbn [obind negb slaves_left]. unfold rdbSaveBackground. cbn [rdb_child replicationScriptCacheFlush set_master set_rdb fm]. rewrite Hfk. cbn [fm mheap slaves].
  rewrite free_none by (apply Forall_fmap; eapply list.Forall_impl; [exact Hst|]; done). cbn [obind]. by eexists.
Qed.

End Spec.
