(* ===== verification/ReplicaExample.v ===== *)
(** Replication: a run in which a slave is synchronised, and one in which the offset of a slave is wrong. *)

From stdpp Require Import gmap relations.
From S2P Require Import Prelude Util Sds SdsArgs SdsRep Rdb RioSpec Networking NetworkingSpec Aof AofSpec Reply ReplySpec ReplyOps ReplySend ReplyDefer ReplyHistory ReplyClients Replication Backlog ReplicationSpec FullSync FullSyncSpec ReplicaSystem ReplicaSpec.

Section Example.
Local Existing Instance le_host.
Local Existing Instance exact_allocator.
Local Existing Instance exact_laws.

(** * A server *)

Definition ex_select (n : nat) : bytes := cmd_bytes [s_SELECT; printf_d (Z.of_nat n)].

(** A run id *)
Definition ex_runid : bytes := replicate 40 97.

(** SET, k, v, SYNC, PSYNC, ?, -1, INCR, a, 25, the run id, 52 *)
Definition ex_args : list bytes :=
  [[83; 69; 84]; [107]; [118]; [83; 89; 78; 67]; [80; 83; 89; 78; 67]; [63]; [45; 49]; [73; 78; 67; 82]; [97]; [50; 53]; ex_runid; [53; 50]].

Definition ex_objects : list (oid * sobj) :=
  demo_objects ++ ((fun n => (Pos.of_nat (n + 70), text_object (ex_select n))) <$> seq 0 10) ++ imap (fun i a => (Pos.of_nat (i + 80), text_object a)) ex_args.

Definition ex_heap : heap := list_to_map ex_objects.

Definition ex_held (o : oid) : Z := match ex_heap !! o with Some _ => 1 | None => 0 end.

Definition ex_shared : sharedObjects :=
  mkShared ((fun n => Pos.of_nat (n + 1)) <$> seq 0 32) ((fun n => Pos.of_nat (n + 33)) <$> seq 0 32) 65 66 67 68 ((fun n => Pos.of_nat (n + 70)) <$> seq 0 10).

Definition ex_conf : repl_conf := mkConf [97] 0 0.

Definition ex_server (child : bool) : sync_server :=
  mkSync (mkMaster (mkRepl None (1024 * 16) 0 0 0 0 (-1)) ex_heap [] 0) child (Some [82; 9]) (mkRdbStatus 0 0 0 0 true (-1) (-1)) [] 0 0 0 0.

Definition ex_system : system := mkSystem (ex_server false) ex_held [] 0 [] 0 [].

(** A dump has the number of commands. *)
Definition ex_dump (l : list command) (f : bytes) : Prop := f = [82; Z.of_nat (length l)].

Lemma ex_has o b : ex_heap !! o = Some (text_object b) -> msize b < 2 ^ 31 - 1 -> has ex_held ex_heap o b.
Proof.
  intros E Hb. unfold has, ex_held. rewrite E. split; [lia|]. exists (text_object b). split; [done|]. left. eexists. split; [done|]. split; [|done].
  exists []. cbn. rewrite msize_nil. split; [done|lia].
Qed.

Lemma ex_shared_ok : shared_ok ex_shared ex_held ex_heap.
Proof.
  split; [|split; [|split; [|split]]].
  - intros n Hn. unfold REDIS_SHARED_BULKHDR_LEN in Hn. assert (exists k, n = Z.of_nat k /\ (k < 32)%nat) as (k & -> & Hk) by (exists (Z.to_nat n); lia).
    do 32 (destruct k as [|k]; [eexists; split; [reflexivity|]; apply ex_has; vm_compute; done|]). lia.
  - intros n Hn. unfold REDIS_SHARED_BULKHDR_LEN in Hn. assert (exists k, n = Z.of_nat k /\ (k < 32)%nat) as (k & -> & Hk) by (exists (Z.to_nat n); lia).
    do 32 (destruct k as [|k]; [eexists; split; [reflexivity|]; apply ex_has; vm_compute; done|]). lia.
  - apply ex_has; vm_compute; done.
  - apply ex_has; vm_compute; done.
  - apply ex_has; vm_compute; done.
Qed.

Lemma ex_select_ok : select_ok ex_shared ex_held ex_heap.
Proof.
  intros n Hn. unfold REDIS_SHARED_SELECT_CMDS in Hn. assert (exists k, n = Z.of_nat k /\ (k < 10)%nat) as (k & -> & Hk) by (exists (Z.to_nat n); lia).
  do 10 (destruct k as [|k]; [eexists; split; [reflexivity|]; apply ex_has; vm_compute; done|]). lia.
Qed.

Lemma ex_refs : refs ex_held ex_heap [].
Proof.
  intros o. unfold ex_held. destruct (ex_heap !! o) as [ob|] eqn:E; [|done]. cbn [occ].
  assert (map_Forall (fun _ ob => refcount ob = 1) ex_heap) as Hall by (refine (bool_decide_unpack _ _); vm_compute; exact I). specialize (Hall o ob E). cbn in Hall. lia.
Qed.

Lemma ex_new : new_system ex_shared ex_system.
Proof.
  do 3 (split; [reflexivity|]). split; [cbn; lia|]. split; [cbn; lia|]. split; [reflexivity|]. split; [exact ex_refs|]. split; [exact ex_shared_ok|]. split; [exact ex_select_ok|]. split; [|reflexivity]. intros b [= <-]. reflexivity.
Qed.

(** * A full resynchronisation *)

Definition ex_fork : fork_env := mkFork true 5.
Definition ex_slave_env : slave_env := mkSlEnv (fun _ => true) (fun _ => true).
Definition ex_bulk_env : bulk_env := mkBEnv 100 true 100 false true.

(** SYNC, SET k v, the end of the background save, and the transfer. *)
Definition ex_s1 : sync_server := match syncCommand demo_env ex_fork ex_conf (ex_server false) demo_client [83%positive] false true with Some (s, _, _) => s | None => ex_server false end.
Definition ex_s2 : sync_server := match replicationFeedSlaves ex_shared demo_env (fm ex_s1) 0 [80; 81; 82]%positive with Some m => set_master ex_s1 m | None => ex_s1 end.
Definition ex_s3 : sync_server := match backgroundSaveDoneHandler ex_slave_env ex_fork ex_conf 0 (set_file ex_s2 (Some [82; 0])) 0 0 with Some s => s | None => ex_s2 end.
Definition ex_s4 : sync_server := match bulk_event ex_bulk_env ex_conf 0 ex_s3 0 with Some (s, _) => s | None => ex_s3 end.

Definition ex_log : list command := [(Some [48], [[83; 69; 84]; [107]; [118]])].
Definition ex_stream : bytes := command_bytes (-1) 0 [[83; 69; 84]; [107]; [118]].

Definition ex_y1 : system := mkSystem ex_s1 ex_held [] 0 [] 2 [mkReplica (Full [] (Some 2)) []].
Definition ex_y2 : system := mkSystem ex_s2 ex_held ex_log 0 ex_stream 2 [mkReplica (Full [] (Some 2)) []].
Definition ex_y3 : system := mkSystem ex_s3 ex_held ex_log 0 ex_stream 2 [mkReplica (Full [] (Some 2)) []].
Definition ex_y4 : system := mkSystem ex_s4 ex_held ex_log 0 ex_stream 2 [mkReplica (Full [] (Some 2)) [36; 50; 13; 10; 82; 0]].

(** A result by a projection of it. *)
Lemma some_proj {A B} (r : option A) (f : A -> B) (b : B) : option_map f r = Some b -> exists a, r = Some a /\ f a = b.
Proof. destruct r as [a|]; [|done]. intros [= <-]. by exists a. Qed.

Lemma ex_s1_eq : syncCommand demo_env ex_fork ex_conf (ex_server false) demo_client [83%positive] false true = Some (ex_s1, None, []).
Proof.
  destruct (some_proj (syncCommand demo_env ex_fork ex_conf (ex_server false) demo_client [83%positive] false true) (fun x => (if x.1.2 then true else false, x.2)) (false, []) ltac:(vm_compute; reflexivity))
    as ([[s [c|]] out] & E & Hx); cbn [fst snd] in Hx; [discriminate Hx|]. injection Hx as ->. unfold ex_s1. rewrite E. reflexivity.
Qed.

Lemma ex_s2_eq : replicationFeedSlaves ex_shared demo_env (fm ex_s1) 0 [80; 81; 82]%positive = Some (fm ex_s2) /\ ex_s2 = set_master ex_s1 (fm ex_s2).
Proof.
  destruct (some_proj (replicationFeedSlaves ex_shared demo_env (fm ex_s1) 0 [80; 81; 82]%positive) (fun _ => true) true ltac:(vm_compute; reflexivity)) as (m & E & _).
  unfold ex_s2. rewrite E. split; reflexivity.
Qed.

Lemma ex_s3_eq : backgroundSaveDoneHandler ex_slave_env ex_fork ex_conf 0 (set_file ex_s2 (Some [82; 0])) 0 0 = Some ex_s3 /\ rdb_child ex_s3 = false.
Proof.
  destruct (some_proj (backgroundSaveDoneHandler ex_slave_env ex_fork ex_conf 0 (set_file ex_s2 (Some [82; 0])) 0 0) rdb_child false ltac:(vm_compute; reflexivity)) as (s & E & Hs).
  unfold ex_s3. rewrite E. split; [reflexivity|exact Hs].
Qed.

Lemma ex_s4_eq : bulk_event ex_bulk_env ex_conf 0 ex_s3 0 = Some (ex_s4, [36; 50; 13; 10; 82; 0]).
Proof.
  destruct (some_proj (bulk_event ex_bulk_env ex_conf 0 ex_s3 0) snd [36; 50; 13; 10; 82; 0] ltac:(vm_compute; reflexivity)) as ([s out] & E & Hs). cbn [snd] in Hs. unfold ex_s4. rewrite E, Hs. reflexivity.
Qed.

Lemma ex_text o b : ex_heap !! o = Some (text_object b) -> msize b < 2 ^ 31 - 1 -> string_arg ex_heap o b.
Proof.
  intros E Hb. exists (text_object b). split; [exact E|]. eexists. split; [reflexivity|]. split; [|done]. exists []. cbn. rewrite msize_nil. split; [done|lia].
Qed.

Lemma ex_requester : requester demo_client.
Proof.
  split; [|split; [done|split; [apply demo_limit; [change (0 <= 3 * (2 ^ 31 + 9))|]; lia|done]]]. split; [|done]. unfold demo_client. cbn [obuf]. unfold zmalloc. by rewrite msize_fresh.
Qed.

Lemma ex_step1 : rstep ex_shared ex_conf ex_dump ex_system ex_y1.
Proof.
  assert (mkReplica (Full [] (Some 2)) [] = joins (ex_server false) ex_s1 0 [] /\ master_repl_offset (srv (fm ex_s1)) + 1 = 2 /\ rdb_child ex_s1 = true) as (E1 & E2 & E3) by (split; [|split]; vm_compute; reflexivity).
  pose proof (step_sync ex_shared ex_conf ex_dump demo_env ex_fork (ex_server false) ex_s1 ex_held [] 0 [] 0 [] demo_client [83%positive] false 0 [] eq_refl ex_requester) as St.
  rewrite E2, E3, <- E1 in St. apply St; [|reflexivity|exact ex_s1_eq]. exists 83%positive, [83; 89; 78; 67], []. split; [reflexivity|]. split; [apply ex_text; vm_compute; reflexivity|]. by split.
Qed.

Lemma ex_heap1 : mheap (fm ex_s1) = ex_heap.
Proof. vm_compute. reflexivity. Qed.

Lemma ex_step2 : rstep ex_shared ex_conf ex_dump ex_y1 ex_y2.
Proof.
  assert (has_backlog ex_s1 = true /\ slaveseldb (srv (fm ex_s1)) = -1 /\ forallb (fun c => reply_bytes c =? 0) (slaves (fm ex_s1)) = true /\ master_repl_offset (srv (fm ex_s1)) = 1) as (E1 & E2 & E3 & E4)
    by (split; [|split; [|split]]; vm_compute; reflexivity).
  destruct ex_s2_eq as [E5 E6]. unfold ex_y2. rewrite E6.
  pose proof (step_command ex_shared ex_conf ex_dump demo_env ex_s1 (fm ex_s2) ex_held [] 0 [] 2 [mkReplica (Full [] (Some 2)) []] 0 [80; 81; 82]%positive [[83; 69; 84]; [107]; [118]] eq_refl) as St.
  rewrite E1, E2 in St. apply St; [|split; [reflexivity|split; [done|split; [done|split; [by vm_compute|repeat constructor; by vm_compute]]]]|lia|reflexivity| |unfold offset_ok; rewrite E4; vm_compute; reflexivity|exact E5].
  - rewrite ex_heap1. split; [exact ex_shared_ok|]. constructor; [|constructor; [|constructor; [|constructor]]]; apply ex_has; vm_compute; reflexivity.
  - apply list.Forall_forall. intros c Hc. rewrite forallb_forall in E3. specialize (E3 c ltac:(by apply list_elem_of_In)). apply Z.eqb_eq in E3. unfold limit_ok. rewrite E3. vm_compute. reflexivity.
Qed.

Lemma ex_step3 : rstep ex_shared ex_conf ex_dump ex_y2 ex_y3.
Proof.
  destruct ex_s3_eq as [E1 E2]. assert (rdb_child ex_s2 = true /\ keep (lost ex_slave_env (0 =? 0) (Some [82; 0])) (slaves (fm ex_s2)) [mkReplica (Full [] (Some 2)) []] = [mkReplica (Full [] (Some 2)) []]) as [E3 E4]
    by (split; vm_compute; reflexivity).
  pose proof (step_saved ex_shared ex_conf ex_dump ex_slave_env ex_fork 0 ex_s2 (Some [82; 0]) ex_s3 ex_held ex_log 0 ex_stream 2 [mkReplica (Full [] (Some 2)) []] 0 E3 eq_refl) as St.
  rewrite E2, E4 in St. apply St; [intros b [= <-]; reflexivity| |exact E1]. intros _. exists [82; 0]. split; reflexivity.
Qed.

Definition ex_c3 : rclient := default demo_client (slaves (fm ex_s3) !! 0%nat).
Definition ex_c4 : rclient := default demo_client (slaves (fm ex_s4) !! 0%nat).

Lemma ex_c3_eq : slaves (fm ex_s3) !! 0%nat = Some ex_c3 /\ replstate ex_c3 = REDIS_REPL_SEND_BULK /\ bulk_handler (bulk ex_c3) = true /\ left_to_send (bulk ex_c3) = 6.
Proof.
  assert (option_map (fun c => (replstate c, bulk_handler (bulk c), left_to_send (bulk c))) (slaves (fm ex_s3) !! 0%nat) = Some (REDIS_REPL_SEND_BULK, true, 6)) as H by (vm_compute; reflexivity).
  apply some_proj in H as (c & E & Hc).
  unfold ex_c3. rewrite E. injection Hc as H1 H2 H3. split; [reflexivity|]. split; [exact H1|]. split; [exact H2|exact H3].
Qed.

Lemma ex_c4_eq : slaves (fm ex_s4) !! 0%nat = Some ex_c4 /\ replstate ex_c4 = REDIS_REPL_ONLINE.
Proof.
  assert (option_map replstate (slaves (fm ex_s4) !! 0%nat) = Some REDIS_REPL_ONLINE) as H by (vm_compute; reflexivity). apply some_proj in H as (c & E & Hc). unfold ex_c4. rewrite E. split; [reflexivity|exact Hc].
Qed.

Lemma ex_step4 : rstep ex_shared ex_conf ex_dump ex_y3 ex_y4.
Proof.
  destruct ex_c3_eq as (E1 & _ & E2 & _).
  assert (after_event ex_s3 ex_s4 0 [36; 50; 13; 10; 82; 0] [mkReplica (Full [] (Some 2)) []] = [mkReplica (Full [] (Some 2)) [36; 50; 13; 10; 82; 0]]) as E3 by (vm_compute; reflexivity).
  pose proof (step_bulk ex_shared ex_conf ex_dump ex_bulk_env 0 ex_s3 ex_s4 ex_held ex_log 0 ex_stream 2 [mkReplica (Full [] (Some 2)) []] 0 ex_c3 _ E1 E2 ex_s4_eq) as St. rewrite E3 in St. exact St.
Qed.

Lemma ex_run3 : rtc (rstep ex_shared ex_conf ex_dump) ex_system ex_y3.
Proof. eapply rtc_l; [exact ex_step1|]. eapply rtc_l; [exact ex_step2|]. apply rtc_once. exact ex_step3. Qed.

Lemma ex_run4 : rtc (rstep ex_shared ex_conf ex_dump) ex_system ex_y4.
Proof. eapply rtc_r; [exact ex_run3|exact ex_step4]. Qed.

Lemma replicas_consistent_witness : exists n k f R,
  output ex_y4 ex_c4 (mkReplica (Full [] (Some 2)) [36; 50; 13; 10; 82; 0]) = [] ++ replicate n 10 ++ bulk_header f ++ f ++ log_bytes R /\ ex_dump (take k ex_log) f /\ interp None R = drop k ex_log /\
  log_bytes R = ex_stream.
Proof.
  destruct ex_c4_eq as [E1 E2].
  destruct (replicas_consistent ex_shared ex_conf ex_dump ex_system ex_y4 0 ex_c4 (mkReplica (Full [] (Some 2)) [36; 50; 13; 10; 82; 0])) as (n & k & f & R & H1 & H2 & H3 & _ & H4).
  - by repeat constructor.
  - exact ex_new.
  - exact ex_run4.
  - exact E1.
  - reflexivity.
  - exact E2.
  - exists n, k, f, R. split; [exact H1|]. split; [exact H2|]. split; [exact H3|]. destruct (H4 2 eq_refl) as [H5 _]. exact H5.
Defined.

Lemma transfer_completes_witness : exists c' out answer v n k f, bulk_run (replicate 6 ex_bulk_env) 0 ex_c3 = Some (c', out) /\ replstate c' = REDIS_REPL_ONLINE /\ write_handler c' = true /\
  reply c' = reply ex_c3 /\ Full [] (Some 2) = Full answer v /\ [] ++ out = answer ++ replicate n 10 ++ bulk_header f ++ f /\ ex_dump (take k ex_log) f.
Proof.
  destruct ex_c3_eq as (E1 & E2 & _ & E3). apply (transfer_completes ex_shared ex_conf ex_dump ex_system ex_y3 0 ex_c3 (mkReplica (Full [] (Some 2)) []) (replicate 6 ex_bulk_env) 0).
  - by repeat constructor.
  - intros l f ->. done.
  - exact ex_new.
  - exact ex_run3.
  - exact E1.
  - reflexivity.
  - exact E2.
  - repeat constructor.
  - rewrite E3. cbn. lia.
Defined.

Lemma replication_safe_witness : is_Some (backgroundSaveDoneHandler ex_slave_env ex_fork ex_conf 0 (set_file ex_s2 (Some [82; 0])) 0 0).
Proof.
  destruct (replication_safe ex_shared ex_conf ex_dump ex_system ex_y2) as (_ & _ & H & _).
  - by repeat constructor.
  - exact ex_new.
  - eapply rtc_l; [exact ex_step1|]. apply rtc_once. exact ex_step2.
  - apply H; [reflexivity|intros b [= <-]; reflexivity|]. intros _. exists [82; 0]. split; reflexivity.
Defined.

(** * Background saves that fail *)

Definition ex_c2 : rclient := default demo_client (slaves (fm ex_s2) !! 0%nat).

Lemma ex_c2_eq : slaves (fm ex_s2) = [ex_c2] /\ replstate ex_c2 = REDIS_REPL_WAIT_BGSAVE_END.
Proof.
  assert ((length (slaves (fm ex_s2)), replstate <$> slaves (fm ex_s2)) = (1%nat, [REDIS_REPL_WAIT_BGSAVE_END])) as H by (vm_compute; reflexivity).
  unfold ex_c2. destruct (slaves (fm ex_s2)) as [|c [|c' l]]; [discriminate H| |discriminate H]. injection H as H. split; [reflexivity|exact H].
Qed.

Lemma one_slave (c : rclient) (g : list (rclient * (bytes * list bytes))) : [c] = g.*1 -> exists o, g = [(c, o)].
Proof. destruct g as [|[c' o] [|p g]]; [done| |done]. intros [= ->]. by exists o. Qed.

Lemma killed_child_sends_old_file_witness : exists s' c', backgroundSaveDoneHandler ex_slave_env ex_fork ex_conf 0 ex_s2 0 9 = Some s' /\ slaves (fm s') = [c'] /\
  replstate c' = REDIS_REPL_SEND_BULK /\ repldbfd (bulk c') = Some [82; 9] /\ reply c' = reply ex_c2.
Proof.
  destruct ex_c2_eq as [E1 E2]. assert (wf ex_shared ex_dump ex_y2) as ((g & Eg & Hg & _) & _).
  { apply (wf_reachable ex_shared ex_conf ex_dump ltac:(by repeat constructor) ex_system); [apply new_wf, ex_new|]. eapply rtc_l; [exact ex_step1|]. apply rtc_once. exact ex_step2. }
  change (y_server ex_y2) with ex_s2 in Eg, Hg. change (y_held ex_y2) with ex_held in Hg. rewrite E1 in Eg. apply one_slave in Eg as (o & ->).
  apply (killed_child_sends_old_file ex_conf ex_slave_env ex_fork 0 ex_s2 ex_held ex_c2 o [82; 9] 9).
  - exact E1.
  - exact Hg.
  - exact E2.
  - vm_compute. reflexivity.
  - reflexivity.
  - reflexivity.
  - reflexivity.
  - discriminate.
Defined.

(** SYNC while a background save runs. *)
Definition ex_t1 : sync_server := match syncCommand demo_env ex_fork ex_conf (ex_server true) demo_client [83%positive] false true with Some (s, _, _) => s | None => ex_server true end.

Lemma failed_fork_keeps_waiting_witness : exists s', backgroundSaveDoneHandler ex_slave_env (mkFork false 5) ex_conf 0 ex_t1 0 0 = Some s' /\ rdb_child s' = false /\
  slaves (fm s') = (fun c => set_replstate c REDIS_REPL_WAIT_BGSAVE_END) <$> slaves (fm ex_t1).
Proof.
  assert (replstate <$> slaves (fm ex_t1) = [REDIS_REPL_WAIT_BGSAVE_START]) as H by (vm_compute; reflexivity).
  apply (failed_fork_keeps_waiting ex_conf ex_slave_env (mkFork false 5) 0 ex_t1 0 0).
  - intros E. rewrite E in H. discriminate H.
  - destruct (slaves (fm ex_t1)) as [|c [|c' l]]; [discriminate H| |discriminate H]. injection H as H. constructor; [exact H|constructor].
  - reflexivity.
Defined.

(** * The offset of a slave that waits for a background save to start *)

(** A slave sends PSYNC while a background save runs, INCR k is executed, two background saves end, the slave is sent the dump and its output, and loses the connection. It then asks to continue:
    it was sent the offset 1 and 23 bytes of the stream, so that it asks for the offset 25. The result: the answers and what is sent. *)
Definition ex_resync : option (bytes * bytes * bytes * bytes * bytes) :=
  ' (s, _, answer) <- syncCommand demo_env ex_fork ex_conf (ex_server true) demo_client [84; 85; 86]%positive false true;;
  m <- replicationFeedSlaves ex_shared demo_env (fm s) 0 [87; 81]%positive;;
  s <- backgroundSaveDoneHandler ex_slave_env ex_fork ex_conf 0 (set_file (set_master s m) (Some [82; 0])) 0 0;;
  s <- backgroundSaveDoneHandler ex_slave_env ex_fork ex_conf 0 (set_file s (Some [82; 1])) 0 0;;
  ' (s, dump) <- bulk_event ex_bulk_env ex_conf 0 s 0;;
  ' (s, sent) <- reply_event (mkSEnv [100] true true 0) ex_conf 0 s 0;;
  s <- free_slave_at ex_conf 0 s 0;;
  ' (s, _, answer') <- syncCommand demo_env ex_fork ex_conf s demo_client [84; 88; 89]%positive false true;;
  c <- slaves (fm s) !! 0%nat;;
  Some (answer, dump, sent, answer', unsent (mheap (fm s)) (fun _ => []) c).


End Example.
