(* ===== verification/ReplicaHistory.v ===== *)
(** The replication stream over time: while a master keeps its backlog the stream grows by the commands that it executes, and offsets of an earlier backlog are not offsets of a later one. *)

From stdpp Require Import gmap relations.
From S2P Require Import Prelude Util Sds SdsArgs SdsRep Rdb RioSpec Networking NetworkingSpec Aof AofSpec Reply ReplySpec ReplyOps ReplySend ReplyDefer ReplyHistory ReplyClients Replication Backlog ReplicationSpec FullSync FullSyncSpec ReplicaSystem ReplicaSpec.

(** ** Fields that feeding the backlog keeps *)

Section Feed.
Context {HOST : Host} {AL : Allocator}.

(** A backlog is there, and the selected database is [db]. *)
Definition feeding (db : Z) (r : replserver) : Prop := is_Some (repl_backlog r) /\ slaveseldb r = db.

Lemma feed_keeps r ptr len r' db : feedReplicationBacklog r ptr len = Some r' -> feeding db r -> feeding db r'.
Proof.
  unfold feedReplicationBacklog, feeding. intros E [_ Hdb]. destruct (ll_arith _); [|done]. cbn [obind] in E. destruct (repl_backlog r); [|done]. cbn [obind] in E.
  destruct (feed_loop _ _ _ _ _ _ _ _) as [[[b1 i1] h1]|]; [|done]. cbn [obind] in E. destruct (ll_arith _); [|done]. injection E as <-. by split.
Qed.

Lemma feed_object_keeps r h o r' db : feedReplicationBacklogWithObject r h o = Some r' -> feeding db r -> feeding db r'.
Proof.
  unfold feedReplicationBacklogWithObject. intros E. destruct (h !! o) as [ob|]; [|done]. cbn [obind] in E. destruct (optr ob); [done|by eapply feed_keeps|].
  destruct (ll2string _ _ _) as [[? ?]|]; [|done]. cbn [obind] in E. by eapply feed_keeps.
Qed.

Lemma feed_args_keeps h argv db : forall r aux r', feed_args r h aux argv = Some r' -> feeding db r -> feeding db r'.
Proof.
  induction argv as [|o argv IH]; intros r aux r' E Hr; [by injection E as <-|]. cbn [feed_args] in E. destruct (stringObjectLen _ _); [|done]. cbn [obind] in E.
  destruct (aux_header _ _ _) as [[aux1 len]|]; [|done]. cbn [obind] in E. destruct (feedReplicationBacklog r _ _) as [r1|] eqn:E1; [|done]. cbn [obind] in E.
  destruct (feedReplicationBacklogWithObject r1 h o) as [r2|] eqn:E2; [|done]. cbn [obind] in E. destruct (load _ _ _); [|done]. cbn [obind] in E.
  destruct (feedReplicationBacklog r2 _ _) as [r3|] eqn:E3; [|done]. cbn [obind] in E. apply (IH _ _ _ E). eapply feed_keeps; [exact E3|]. eapply feed_object_keeps; [exact E2|]. by eapply feed_keeps.
Qed.

Lemma feed_slaves_keeps shared e m dictid argv m' : replicationFeedSlaves shared e m dictid argv = Some m' ->
  if repl_backlog (srv m) then feeding dictid (srv m') else m' = m.
Proof.
  unfold replicationFeedSlaves. destruct (repl_backlog (srv m)) as [b|] eqn:Eb; [|destruct (slaves m); [by intros [= <-]|done]].
  intros E. destruct (feed_select shared e m dictid) as [m1|] eqn:E1; [|done]. cbn [obind] in E.
  assert (is_Some (repl_backlog (srv m1))) as H1.
  { unfold feed_select in E1. destruct (negb _); [|injection E1 as <-; by rewrite Eb]. destruct (selectcmd _ _ _) as [[[h cmd] created]|]; [|done]. cbn [obind] in E1. rewrite Eb in E1.
    destruct (feedReplicationBacklogWithObject _ _ _) as [r|] eqn:E2; [|done]. cbn [obind] in E1. destruct (for_slaves _ _ _) as [[h1 l]|]; [|done]. cbn [obind] in E1.
    destruct (if created then _ else _); [|done]. injection E1 as <-. eapply (feed_object_keeps _ _ _ _ (slaveseldb (srv m))); [exact E2|]. split; [by rewrite Eb|done]. }
  assert (feeding dictid (set_seldb (srv m1) dictid)) as H2 by done. cbn [repl_backlog set_seldb] in E. destruct (repl_backlog (srv m1)) as [b1|]; [|by destruct H1].
  destruct (aux_header _ _ _) as [[aux len]|]; [|done]. cbn [obind] in E. destruct (feedReplicationBacklog _ _ _) as [r1|] eqn:E2; [|done]. cbn [obind] in E.
  destruct (feed_args _ _ _ _) as [r2|] eqn:E3; [|done]. cbn [obind] in E. destruct (for_slaves _ _ _) as [[h l]|]; [|done]. injection E as <-. cbn [srv].
  eapply feed_args_keeps; [exact E3|]. by eapply feed_keeps.
Qed.

End Feed.

Section History.
Context {HOST : Host} {AL : Allocator} {LAWS : AllocatorLaws AL}.
Variable shared : sharedObjects.
Variable conf : repl_conf.
Variable dump_of : list command -> bytes -> Prop.
Hypothesis Hrun : Forall (fun x => x <> 0) (runid conf).

Abbreviation moffset y := (master_repl_offset (srv (fm (y_server y)))).

(** What a later state has of an earlier one. *)
Definition continues (y y' : system) : Prop :=
  moffset y <= moffset y' /\
  match has_backlog (y_server y), has_backlog (y_server y') with
  | true, true => y_first y' = y_first y /\ forall v k R, replays y v k R -> exists X, replays y' v k (R ++ X)
  | false, true => moffset y + 1 < y_first y'
  | _, false => True
  end.

(** The backlog, the offset and the history are the same. *)
Lemma continues_same y y' : has_backlog (y_server y') = has_backlog (y_server y) -> moffset y' = moffset y -> same_history y y' -> continues y y'.
Proof.
  intros E1 E2 Hh. unfold continues. rewrite E1, E2. split; [done|]. destruct (has_backlog (y_server y)); [|done]. split; [apply Hh|].
  intros v k R Hr. exists []. rewrite app_nil_r. by eapply replays_change.
Qed.

(** The server is the same to the backlog. *)
Lemma continues_srv y y' : srv (fm (y_server y')) = srv (fm (y_server y)) -> y_log y' = y_log y -> y_stream y' = y_stream y -> y_first y' = y_first y -> continues y y'.
Proof. intros E E1 E2 E3. apply continues_same; [unfold has_backlog; by rewrite E|by rewrite E|]. split; [done|]. split; [done|]. split; [done|]. left. by rewrite E. Qed.

(** The stream has grown. *)
Lemma continues_grow y y' X L : wf shared dump_of y -> wf shared dump_of y' -> has_backlog (y_server y) = true -> has_backlog (y_server y') = true ->
  y_log y' = y_log y ++ L -> y_stream y' = y_stream y ++ log_bytes X -> y_first y' = y_first y ->
  (forall R, selected R (slaveseldb (srv (fm (y_server y)))) -> interp None (R ++ X) = interp None R ++ L /\ selected (R ++ X) (slaveseldb (srv (fm (y_server y'))))) -> continues y y'.
Proof.
  intros (_ & _ & _ & (_ & _ & _ & W) & _) (_ & _ & _ & (_ & _ & _ & W') & _) Eb Eb' E1 E2 E3 Hc. unfold continues. rewrite Eb, Eb'. unfold has_backlog in *.
  destruct (repl_backlog (srv (fm (y_server y)))); [|done]. destruct (repl_backlog (srv (fm (y_server y')))); [|done]. destruct W as (_ & _ & _ & W), W' as (_ & _ & _ & W').
  rewrite E2, E3, msize_app in W'. pose proof (msize_nonneg (log_bytes X)). split; [lia|]. split; [done|]. intros v k R Hr. exists X. by eapply replays_grow.
Qed.

(** There is no backlog and the stream does not change. *)
Lemma continues_without y y' : moffset y <= moffset y' -> has_backlog (y_server y') = false -> continues y y'.
Proof. intros H E. unfold continues. rewrite E. by destruct (has_backlog (y_server y)). Qed.

Lemma continues_trans y1 y2 y3 : continues y1 y2 -> continues y2 y3 -> (has_backlog (y_server y1) = true -> has_backlog (y_server y3) = true -> has_backlog (y_server y2) = true) -> continues y1 y3.
Proof.
  intros [L1 H1] [L2 H2] Hb. split; [lia|]. destruct (has_backlog (y_server y1)), (has_backlog (y_server y2)), (has_backlog (y_server y3)); try done.
  - destruct H1 as [F1 R1], H2 as [F2 R2]. split; [congruence|]. intros v k R Hr. destruct (R1 v k R Hr) as (X1 & Hr1). destruct (R2 v k _ Hr1) as (X2 & Hr2). exists (X1 ++ X2). by rewrite app_assoc.
  - by specialize (Hb eq_refl eq_refl).
  - destruct H2 as [F2 _]. lia.
  - lia.
Qed.

(** ** The steps *)

Lemma continues_command e s m' ext lg sn st fi rs dictid argv args : let y := mkSystem s ext lg sn st fi rs in
  let y' := mkSystem (set_master s m') ext (lg ++ [(Some (printf_d dictid), args)]) sn (if has_backlog s then st ++ command_bytes (slaveseldb (srv (fm s))) dictid args else st) fi rs in
  wf shared dump_of y -> wf shared dump_of y' -> proper args -> 0 <= dictid < 2 ^ 31 -> replicationFeedSlaves shared e (fm s) dictid argv = Some m' -> continues y y'.
Proof.
  intros y y' W W' Hp Hd E. apply feed_slaves_keeps in E. unfold y, y', has_backlog in *. destruct (repl_backlog (srv (fm s))) as [b|] eqn:Eb.
  - destruct E as [[b' Eb'] Es]. eapply (continues_grow _ _ (with_select (slaveseldb (srv (fm s))) dictid [args]) [(Some (printf_d dictid), args)] W W'); cbn [y_server y_log y_stream y_first fm set_master]; try done.
    + unfold has_backlog. cbn [y_server]. by rewrite Eb.
    + unfold has_backlog. cbn [y_server fm set_master]. by rewrite Eb'.
    + intros R HR. rewrite Es. by apply command_interp.
  - subst m'. apply continues_without; [done|]. unfold has_backlog. cbn [y_server fm set_master]. by rewrite Eb.
Qed.

Lemma continues_sync s s' ext lg sn sn' st fi rs rs' : wf shared dump_of (mkSystem s ext lg sn st fi rs) -> offset_ok (srv (fm s)) 2 ->
  has_backlog s = true /\ srv (fm s') = srv (fm s) \/ attached (srv (fm s)) (srv (fm s')) ->
  continues (mkSystem s ext lg sn st fi rs) (mkSystem s' ext lg sn' (if has_backlog s then st else []) (if has_backlog s then fi else master_repl_offset (srv (fm s')) + 1) rs').
Proof.
  intros W Ho [[Eb Es]|Ha]; [rewrite Eb; by apply continues_srv|]. assert (0 <= master_repl_offset (srv (fm s))) as Hm by (destruct W as (_ & _ & _ & (Hm & _) & _); exact Hm).
  pose proof (attached_offset _ _ Ha Ho Hm) as Eo. unfold attached, has_backlog in *. destruct (repl_backlog (srv (fm s))) as [b|] eqn:Eb.
  - apply continues_same; [unfold has_backlog; cbn [y_server]; by rewrite Ha; cbn; rewrite Eb|cbn [y_server]; by rewrite Ha|]. split; [done|]. split; [done|]. split; [done|]. right. cbn [y_server]. by rewrite Ha.
  - unfold continues, has_backlog. cbn [y_server y_first]. rewrite Eb, Eo. destruct (repl_backlog (srv (fm s'))); lia.
Qed.

(** The timer. *)
Lemma cron_ping_keeps e cc write_ok loops m m' outs : cron_ping shared e cc write_ok loops m = Some (m', outs) ->
  if ping_due cc loops then if repl_backlog (srv m) then feeding (slaveseldb (srv m)) (srv m') else srv m' = srv m else m' = m.
Proof.
  unfold cron_ping, ping_due. destruct (int_arith _) as [period|] eqn:Ep; [|done]. cbn [obind]. assert (period = repl_ping_slave_period cc * hz cc) as -> by (unfold int_arith in Ep; destruct (_ && _); [by injection Ep|done]).
  destruct (_ =? 0); [done|]. destruct (_ =? 0); [|by intros [= <- _]]. destruct (createStringObject _ _ _) as [[h o]|]; [|done]. cbn [obind].
  destruct (replicationFeedSlaves _ _ _ _ _) as [m1|] eqn:E; [|done]. cbn [obind]. destruct (decrRefCount _ _); [|done]. intros [= <- _]. apply feed_slaves_keeps in E. cbn [srv] in *. by destruct (repl_backlog (srv m)); [|rewrite E].
Qed.

(** The rest of the timer may free the backlog. *)
Lemma cron_rest e cc write_ok loops s m1 s' outs : cron_ping shared e cc write_ok loops (fm s) = Some (m1, outs) -> replicationCron shared e cc conf write_ok loops s = Some (s', outs) ->
  srv (fm s') = srv m1 \/ has_backlog s' = false /\ master_repl_offset (srv (fm s')) = master_repl_offset (srv m1).
Proof.
  intros E1. unfold replicationCron. rewrite E1. cbn [obind]. destruct (cron_timeouts _ _ _ _) as [s2|] eqn:E2; [|done]. cbn [obind]. destruct (cron_backlog _ _ _) as [s3|] eqn:E3; [|done]. cbn [obind]. intros [= <-].
  assert (srv (fm s2) = srv m1) as H2.
  { unfold cron_timeouts in E2. cbn [fm set_master] in E2. destruct (free_slaves _ _ _) as [[[h l] freed]|]; [|done]. injection E2 as <-. by destruct (left_fields conf (unixtime e) (set_master s m1) h l freed) as (-> & _). }
  set (s4 := if _ && _ && _ then replicationScriptCacheFlush s3 else s3). assert (fm s4 = fm s3) as F4 by (unfold s4; by destruct (bool_decide (slaves (fm s3) = []) && aof_off cc && _)).
  assert (srv (fm (set_master s4 (refreshGoodSlavesCount conf (unixtime e) (fm s4)))) = srv (fm s3)) as H4 by (cbn [fm set_master]; rewrite F4; by destruct (refresh_fields conf (unixtime e) (fm s3)) as (-> & _)).
  unfold has_backlog. rewrite H4. unfold cron_backlog in E3. destruct (_ && _); [|injection E3 as <-; by left]. unfold freeReplicationBacklog in E3. destruct (negb _); [done|]. injection E3 as <-. right. cbn. by rewrite H2.
Qed.

Lemma continues_cron e cc write_ok loops s m1 s' ext lg sn st fi rs rs' outs : let y := mkSystem s ext lg sn st fi rs in
  let y' := mkSystem s' ext lg sn (if ping_due cc loops && has_backlog s then st ++ cmd_bytes [s_PING] else st) fi rs' in
  wf shared dump_of y -> wf shared dump_of y' -> wf shared dump_of (mkSystem (set_master s m1) ext lg sn (if ping_due cc loops && has_backlog s then st ++ cmd_bytes [s_PING] else st) fi (zip_with more rs outs)) ->
  cron_ping shared e cc write_ok loops (fm s) = Some (m1, outs) -> replicationCron shared e cc conf write_ok loops s = Some (s', outs) -> continues y y'.
Proof.
  intros y y' W W' W1 E1 E2. set (y1 := mkSystem (set_master s m1) _ _ _ _ _ _) in W1. pose proof (cron_rest e cc write_ok loops s m1 s' outs E1 E2) as Hr. apply cron_ping_keeps in E1.
  assert (continues y y1) as H1.
  { destruct (ping_due cc loops) eqn:Ed; [|subst m1; by apply continues_srv]. cbn [andb] in *. unfold y1, y, has_backlog in *. destruct (repl_backlog (srv (fm s))) as [b|] eqn:Eb; [|by apply continues_srv].
    destruct E1 as [[b1 Eb1] Es]. eapply (continues_grow _ _ [[s_PING]] [] W W1); cbn [y_server y_log y_stream y_first fm set_master]; try done.
    - unfold has_backlog. cbn [y_server]. by rewrite Eb.
    - unfold has_backlog. cbn [y_server fm set_master]. by rewrite Eb1.
    - by rewrite app_nil_r.
    - intros R HR. rewrite Es, app_nil_r. by apply ping_interp. }
  destruct Hr as [Hs|[Hb Ho]].
  - eapply (continues_trans y y1 y' H1); [by apply continues_srv|]. intros _. unfold y1, y', has_backlog. cbn [y_server fm set_master]. by rewrite Hs.
  - apply continues_without; [|done]. destruct H1 as [H1 _]. cbn in *. lia.
Qed.

Lemma continues_resize s r' ext lg sn st fi rs n : resizeReplicationBacklog (srv (fm s)) n = Some r' ->
  continues (mkSystem s ext lg sn st fi rs) (mkSystem (set_master s (mkMaster r' (mheap (fm s)) (slaves (fm s)) (repl_good_slaves_count (fm s)))) ext lg sn st fi rs).
Proof.
  intros E. assert (master_repl_offset r' = master_repl_offset (srv (fm s)) /\ slaveseldb r' = slaveseldb (srv (fm s)) /\ (if repl_backlog r' then true else false) = (if repl_backlog (srv (fm s)) then true else false)) as (H1 & H2 & H3).
  { unfold resizeReplicationBacklog in E. destruct (_ =? _); [by injection E as <-|]. destruct (repl_backlog (srv (fm s))); [|by injection E as <-]. destruct (ll_arith _); [|done]. by injection E as <-. }
  apply continues_same; [exact H3|exact H1|]. split; [done|]. split; [done|]. split; [done|]. left. exact H2.
Qed.

(** Events for slaves do not change what the server propagates. *)
Lemma freed_srv now s h l : srv (fm (slaves_freed conf now s h l)) = srv (fm s).
Proof. unfold slaves_freed. cbn [fm]. by destruct (refresh_fields conf now (mkMaster (srv (fm s)) h l (repl_good_slaves_count (fm s)))) as (-> & _). Qed.

Lemma bulk_srv be now s i s' out : bulk_event be conf now s i = Some (s', out) -> srv (fm s') = srv (fm s).
Proof.
  unfold bulk_event. destruct (slaves (fm s) !! i) as [c|]; [|done]. cbn [obind]. destruct (sendBulkToSlave be now c) as [[c'|c'|]|]; [..|done]; cbn [obind]; [by intros [= <- _]| |].
  - intros [= <- _]. cbn [fm set_master]. by destruct (refresh_fields conf now (mkMaster (srv (fm s)) (mheap (fm s)) (<[i:=c']> (slaves (fm s))) (repl_good_slaves_count (fm s)))) as (-> & _).
  - destruct (freeSlave _ _); [|done]. intros [= <- _]. apply freed_srv.
Qed.

Lemma reply_srv sd now s i s' out : reply_event sd conf now s i = Some (s', out) -> srv (fm s') = srv (fm s).
Proof.
  unfold reply_event. destruct (slaves (fm s) !! i) as [c|]; [|done]. cbn [obind]. destruct (sendReplyToClient _ _ _) as [[[h [c'|]] o]|]; [..|done]; cbn [obind]; intros [= <- _]; [done|apply freed_srv].
Qed.

Lemma close_srv now s i s' : free_slave_at conf now s i = Some s' -> srv (fm s') = srv (fm s).
Proof. unfold free_slave_at. destruct (slaves (fm s) !! i) as [c|]; [|done]. cbn [obind]. destruct (freeSlave _ _); [|done]. intros [= <-]. apply freed_srv. Qed.

Lemma continues_step y y' : wf shared dump_of y -> rstep shared conf dump_of y y' -> continues y y'.
Proof.
  intros W St. pose proof (wf_step shared conf dump_of Hrun y y' W St) as W'.
  destruct St as [s s' ext ext' lg sn st fi rs H|e s m' ext lg sn st fi rs d argv args He Ha Hp Hd Hl Hlim Ho E|e fe s s' ext lg sn st fi rs c argv ps v out He Hc Hr Ho E|fe s s' ext lg sn st fi rs E
    |se fe now s f s' ext lg sn st fi rs x Hc Hf Hfo Hx E|be now s s' ext lg sn st fi rs i c out Hi Hb E|sd now s s' ext lg sn st fi rs i c out Hi Hw Hr E|now s s' ext lg sn st fi rs i E
    |s r' ext lg sn st fi rs n Hn Ho E|e cc wo loops s m1 s' ext lg sn st fi rs outs He Hlim Ho E1 E2].
  - apply continues_srv; [apply H|done|done|done].
  - by eapply continues_command.
  - apply sync_forked in E. destruct (wf_sync shared conf dump_of e (mkFork true (time fe)) _ c argv ps v W He Hrun Hc Hr Ho eq_refl) as (s1 & out1 & E' & Hs & _). cbn [y_server] in E', Hs. rewrite E in E'. injection E' as <- <-.
    by apply continues_sync.
  - apply continues_srv; try done. unfold rdbSaveBackground in E. destruct (rdb_child s); [done|]. destruct (forked fe); [|done]. by injection E as <-.
  - apply continues_srv; try done. pose proof W as ((g & Eg & Hg & _) & _). cbn [y_server y_held] in *.
    destruct (done_spec conf se fe now s f x 0 g ext Eg Hg Hfo (fun _ => Hf)) as (s1 & g' & E' & Es & _). rewrite E in E'. by injection E' as <-.
  - apply continues_srv; try done. by eapply bulk_srv.
  - apply continues_srv; try done. by eapply reply_srv.
  - apply continues_srv; try done. by eapply close_srv.
  - by eapply continues_resize.
  - assert (cron_ok cc) as Hcc by by eapply cron_ping_ok. destruct (wf_ping shared dump_of e cc wo loops _ W He Hcc Hlim Ho) as (m2 & outs2 & E' & W1). cbn [y_server] in E', W1. rewrite E1 in E'. injection E' as <- <-.
    by eapply continues_cron.
Qed.

(** Commands are only added to the log. *)
Lemma log_grows y y' : rtc (rstep shared conf dump_of) y y' -> y_log y `prefix_of` y_log y'.
Proof.
  induction 1 as [|y y1 y2 S1 _ IH]; [done|]. etrans; [|exact IH]. destruct S1; cbn [y_log]; try done. by apply prefix_app_r.
Qed.

(** ** A point of the stream *)

(** The stream from the offset [p] on has the commands after the first [k]; it starts with [R]. Or it was lost: offsets up to [Q] + 1 are before the backlog. *)
Definition traced (Q F p : Z) (k : nat) (R : list (list bytes)) (y : system) : Prop :=
  Q <= moffset y /\ (has_backlog (y_server y) = true -> y_first y = F /\ (exists X, replays y (Some p) k (R ++ X)) \/ Q + 1 < y_first y).

Lemma traced_step Q F p k R y y' : continues y y' -> traced Q F p k R y -> traced Q F p k R y'.
Proof.
  intros [Hle Hc] [HQ Ht]. split; [lia|]. intros Eb'. rewrite Eb' in Hc. destruct (has_backlog (y_server y)); [|right; lia]. destruct Hc as [EF Hr]. rewrite EF.
  destruct (Ht eq_refl) as [[E1 (X & HX)]|Hlost]; [|by right]. left. split; [done|]. destruct (Hr _ _ _ HX) as (X' & HX'). exists (X ++ X'). by rewrite app_assoc.
Qed.

Lemma traced_run Q F p k R y y' : wf shared dump_of y -> rtc (rstep shared conf dump_of) y y' -> traced Q F p k R y -> traced Q F p k R y'.
Proof.
  intros W St. induction St as [|y y1 y2 S1 _ IH]; [done|]. intros Ht. apply IH; [by eapply wf_step|]. eapply traced_step; [by eapply continues_step|done].
Qed.

(** The bytes that a slave is sent when it resumes at an offset of the stream. *)
Lemma resumed_stream y y' i c r p k R v : wf shared dump_of y -> has_backlog (y_server y) = true -> replays y (Some p) k R -> rtc (rstep shared conf dump_of) y y' ->
  slaves (fm (y_server y')) !! i = Some c -> y_replicas y' !! i = Some r -> replstate c = REDIS_REPL_ONLINE -> came r = Partial v -> p <= v <= moffset y + 1 ->
  exists X, replays y' (Some p) k (R ++ X) /\ output y' c r = CONTINUE ++ drop (Z.to_nat (v - p)) (log_bytes (R ++ X)) /\ has_backlog (y_server y') = true.
Proof.
  intros W Eb Hr St Ec Er Eo Ecame Hv. pose proof (wf_reachable _ _ _ Hrun y y' W St) as W'. destruct (slave_at shared dump_of y' i c r W' Ec Er) as (o & [_ Hs] & El).
  cbn [fst] in Hs. rewrite Eo in Hs. destruct Hs as [_ Hs]. unfold slave_online in Hs. rewrite Ecame in Hs. destruct Hs as [Hf Hs].
  assert (has_backlog (y_server y') = true) as Eb'.
  { destruct W' as (_ & _ & _ & (_ & _ & _ & Hb) & _). unfold has_backlog. destruct (repl_backlog _); [done|]. by rewrite Hb in Ec. }
  assert (traced (moffset y) (y_first y) p k R y) as Ht by (split; [done|]; intros _; left; split; [done|]; exists []; by rewrite app_nil_r).
  destruct (traced_run _ _ _ _ _ y y' W St Ht) as [_ Ht']. destruct (Ht' Eb') as [[EF (X & HX)]|Hlost]; [|lia]. exists X. split; [done|]. split; [|done].
  unfold output. rewrite El, Hs. f_equal. destruct HX as (_ & _ & _ & HX). destruct (HX p eq_refl) as [Hp ->]. rewrite drop_drop. f_equal. lia.
Qed.

End History.
