(* ===== verification/SlaveSync.v ===== *)
(** The slave side of replication (replication.c, syncio.c): the handshake with the master, the download of a dump, and the link on which commands arrive.

    Synchronous input and output is a list of the bytes that arrive in time, with the results of the writes; the results of other system calls are arguments.
    What [rdbLoad] makes of a file and what commands do are parameters. The slaves of a slave are not part of the model. *)

From S2P Require Import Prelude Util Robj Sds SdsRep SdsArgs Rdb Networking NetworkingSpec Aof.

Definition REDIS_RUN_ID_SIZE := 40.

(** [server.repl_state] *)
Inductive slave_state := REPL_NONE | REPL_CONNECT | REPL_CONNECTING | REPL_RECEIVE_PONG | REPL_TRANSFER | REPL_CONNECTED.

#[export] Instance slave_state_eq : EqDecision slave_state.
Proof. solve_decision. Defined.

(** The client that is the master, for a slave: [link_db] is the selected database. The flag REDIS_UNBLOCKED, which only clients that were blocked have, is left out. *)
Record master_link (sel : Type) := mkLink {
  link_client : client; link_db : sel; replrunid : bytes; reploff : Z; link_pre_psync : bool; link_close_asap : bool; link_lastinteraction : Z
}.
Arguments mkLink {sel}.
Arguments link_client {sel}.
Arguments link_db {sel}.
Arguments replrunid {sel}.
Arguments reploff {sel}.
Arguments link_pre_psync {sel}.
Arguments link_close_asap {sel}.
Arguments link_lastinteraction {sel}.

(** The fields of the server about its master; [transfer_file] is what was written to [repl_transfer_fd], [dump_file] the contents of the dump file and [dataset] the databases. *)
Record slave (data sel : Type) := mkSlave {
  masterhost : bool;
  sl_state : slave_state;
  repl_transfer_size : Z;
  repl_transfer_read : Z;
  repl_transfer_last_fsync_off : Z;
  repl_transfer_lastio : Z;
  transfer_file : bytes;
  repl_master_runid : bytes;
  repl_master_initial_offset : Z;
  sl_master : option (master_link sel);
  cached_master : option (master_link sel);
  dump_file : option bytes;
  dataset : data
}.
Arguments mkSlave {data sel}.
Arguments masterhost {data sel}.
Arguments sl_state {data sel}.
Arguments repl_transfer_size {data sel}.
Arguments repl_transfer_read {data sel}.
Arguments repl_transfer_last_fsync_off {data sel}.
Arguments repl_transfer_lastio {data sel}.
Arguments transfer_file {data sel}.
Arguments repl_master_runid {data sel}.
Arguments repl_master_initial_offset {data sel}.
Arguments sl_master {data sel}.
Arguments cached_master {data sel}.
Arguments dump_file {data sel}.
Arguments dataset {data sel}.

(** * Synchronous input and output *)

(** An attempt to write: the room of the socket or -1, whether the error is EAGAIN, and whether the timeout has passed after the wait that follows. *)
Record write_try := mkTry { try_room : Z; try_again : bool; try_late : bool }.

(** The bytes that arrive, each in time, what was written, the next attempts to write, and the text of errors. *)
Record sync_io := mkIo { io_in : bytes; io_out : bytes; io_writes : list write_try; io_error : bytes }.

(** [while(1)]: the attempts that are left, what was written, and whether all of it was. An attempt that is not given writes everything. *)
Fixpoint syncWrite_loop (tries : list write_try) (out d : bytes) : list write_try * bytes * bool :=
  match tries with
  | [] => ([], out ++ d, true)
  | t :: tries =>
    let nwritten := Z.min (try_room t) (msize d) in
    if (nwritten =? -1) && negb (try_again t) then (tries, out, false) else
    let '(out, d) := if nwritten =? -1 then (out, d) else (out ++ take (Z.to_nat nwritten) d, drop (Z.to_nat nwritten) d) in
    if bool_decide (d = []) then (tries, out, true) else
    if try_late t then (tries, out, false) else
    syncWrite_loop tries out d
  end.

(** Whether it succeeds. *)
Definition syncWrite (io : sync_io) (d : bytes) : sync_io * bool :=
  let '(tries, out, ok) := syncWrite_loop (io_writes io) (io_out io) d in (mkIo (io_in io) out tries (io_error io), ok).

(** [while(size)]: the bytes that are left, the buffer and the result. *)
Fixpoint syncReadLine_loop (size : nat) (b : bytes) (ptr nread : Z) (inp : bytes) : option (bytes * bytes * Z) :=
  match size with
  | O => Some (inp, b, nread)
  | S size =>
    match inp with
    | [] => Some ([], b, -1)
    | c :: inp =>
      if c =? 10 then
        b <- store8 b ptr 0;;
        b <- (if negb (nread =? 0) then p <- load8 b (ptr - 1);; if p =? 13 then store8 b (ptr - 1) 0 else Some b else Some b);;
        Some (inp, b, nread)
      else
        b <- store8 b ptr c;;
        b <- store8 b (ptr + 1) 0;;
        syncReadLine_loop size b (ptr + 1) (nread + 1) inp
    end
  end.

Definition syncReadLine (io : sync_io) (b : bytes) (size : Z) : option (sync_io * bytes * Z) :=
  ' (inp, b, n) <- syncReadLine_loop (Z.to_nat (size - 1)) b 0 0 (io_in io);;
  Some (mkIo inp (io_out io) (io_writes io) (io_error io), b, n).

(** [!strncmp(s + off,lit,strlen(lit))] for a literal. *)
Fixpoint strneq (s : bytes) (off : Z) (lit : bytes) : option bool :=
  match lit with
  | [] => Some true
  | l :: lit => c <- load8 s off;; if c =? l then strneq s (off + 1) lit else Some false
  end.

Section Slave.
Context {HOST : Host}.

(** The arguments of a command are C strings. *)
Fixpoint cat_words (cmd : sdshdr) (args : list bytes) : option sdshdr :=
  match args with
  | [] => Some cmd
  | arg :: args =>
    cmd <- (if negb (sdslen cmd =? 0) then sdscatlen cmd [32] 1 else Some cmd);;
    cmd <- sdscat cmd arg;;
    cat_words cmd args
  end.

Definition s_writing : bytes := [45; 87; 114; 105; 116; 105; 110; 103; 32; 116; 111; 32; 109; 97; 115; 116; 101; 114; 58; 32].
Definition s_reading : bytes := [45; 82; 101; 97; 100; 105; 110; 103; 32; 102; 114; 111; 109; 32; 109; 97; 115; 116; 101; 114; 58; 32].

Definition sendSynchronousCommand (io : sync_io) (args : list bytes) : option (sync_io * sdshdr) :=
  cmd <- sdsempty;;
  cmd <- cat_words cmd args;;
  cmd <- sdscatlen cmd [13; 10] 2;;
  d <- load (buf cmd) 0 (sdslen cmd);;
  let '(io, ok) := syncWrite io d in
  if negb ok then
    s <- sdsempty;;
    s <- sdscatprintf s (s_writing ++ io_error io);;
    Some (io, s)
  else
    ' (io, b, n) <- syncReadLine io (zmalloc 256) 256;;
    if n =? -1 then
      s <- sdsempty;;
      s <- sdscatprintf s (s_reading ++ io_error io);;
      Some (io, s)
    else s <- sdsnew (Some b);; Some (io, s).

(** The run id and the offset of an answer to PSYNC, where its syntax is right. *)
Definition fullresync_reply (b : bytes) : option (option (bytes * Z)) :=
  sp <- strchr_at b 0 32;;
  match sp with
  | None => Some None
  | Some p =>
    let runid := p + 1 in
    sp <- strchr_at b runid 32;;
    match sp with
    | None => Some None
    | Some p =>
      let offset := p + 1 in
      if negb (offset - runid - 1 =? REDIS_RUN_ID_SIZE) then Some None else
      id <- load b runid (offset - runid - 1);;
      rest <- load b offset (msize b - offset);;
      ' (v, _) <- strtoll rest;;
      Some (Some (id, v))
    end
  end.

Inductive psync_result := PSYNC_CONTINUE | PSYNC_FULLRESYNC | PSYNC_NOT_SUPPORTED.

(** The socket error, AUTH, the port, the results of [open] and of [aeCreateFileEvent] (for the download, and for the read and the write handler of a master that continues),
    whether that master has output, and the clock. *)
Record handshake_env := mkHEnv {
  sockerr : bool; masterauth : option bytes; port : Z; opens : list bool; payload_handler_ok : bool; read_handler_ok : bool; write_handler_ok : bool; has_output : bool; hs_unixtime : Z
}.

(** The results of [read], of the [write] to the file and of [rename], the clock, and the results of [startAppendOnly] where the append only file is on. *)
Record payload_env := mkPEnv { payload_read : read_result; payload_write : Z; rename_ok : bool; payload_unixtime : Z; payload_aof : option (list bool) }.

(** The timeout, [time(NULL)], [server.unixtime], and the results of [anetTcpNonBlockConnect] and [aeCreateFileEvent]. *)
Record slave_cron_env := mkCronEnv { cron_repl_timeout : Z; cron_time : Z; cron_unixtime : Z; connect_ok : bool; connect_handler_ok : bool }.

Definition REPL_MAX_WRITTEN_BEFORE_FSYNC := 1024 * 1024 * 8.

(** [while (retry-- && startAppendOnly() == REDIS_ERR)]: [retry] at the end. The list has the results of [startAppendOnly], whether they are [REDIS_OK]; it succeeds where none is given. *)
Fixpoint aof_retry (fuel : nat) (retry : Z) (starts : list bool) : option Z :=
  match fuel with
  | O => None
  | S fuel =>
    if retry =? 0 then Some (retry - 1) else
    match starts with
    | false :: starts => aof_retry fuel (retry - 1) starts
    | _ => Some (retry - 1)
    end
  end.

Section Data.
Context {data sel : Type}.

(** * The state *)

Definition set_sl_state (sl : slave data sel) (st : slave_state) : slave data sel :=
  mkSlave (masterhost sl) st (repl_transfer_size sl) (repl_transfer_read sl) (repl_transfer_last_fsync_off sl) (repl_transfer_lastio sl) (transfer_file sl) (repl_master_runid sl)
    (repl_master_initial_offset sl) (sl_master sl) (cached_master sl) (dump_file sl) (dataset sl).

Definition set_lastio (sl : slave data sel) (now : Z) : slave data sel :=
  mkSlave (masterhost sl) (sl_state sl) (repl_transfer_size sl) (repl_transfer_read sl) (repl_transfer_last_fsync_off sl) now (transfer_file sl) (repl_master_runid sl)
    (repl_master_initial_offset sl) (sl_master sl) (cached_master sl) (dump_file sl) (dataset sl).

Definition set_offset (sl : slave data sel) (runid : bytes) (off : Z) : slave data sel :=
  mkSlave (masterhost sl) (sl_state sl) (repl_transfer_size sl) (repl_transfer_read sl) (repl_transfer_last_fsync_off sl) (repl_transfer_lastio sl) (transfer_file sl) runid
    off (sl_master sl) (cached_master sl) (dump_file sl) (dataset sl).

Definition set_links (sl : slave data sel) (st : slave_state) (m cached : option (master_link sel)) : slave data sel :=
  mkSlave (masterhost sl) st (repl_transfer_size sl) (repl_transfer_read sl) (repl_transfer_last_fsync_off sl) (repl_transfer_lastio sl) (transfer_file sl) (repl_master_runid sl)
    (repl_master_initial_offset sl) m cached (dump_file sl) (dataset sl).

Definition set_transfer (sl : slave data sel) (st : slave_state) (size read fsync_off lastio : Z) (file : bytes) : slave data sel :=
  mkSlave (masterhost sl) st size read fsync_off lastio file (repl_master_runid sl) (repl_master_initial_offset sl) (sl_master sl) (cached_master sl) (dump_file sl) (dataset sl).

Definition set_dataset (sl : slave data sel) (file : option bytes) (d : data) : slave data sel :=
  mkSlave (masterhost sl) (sl_state sl) (repl_transfer_size sl) (repl_transfer_read sl) (repl_transfer_last_fsync_off sl) (repl_transfer_lastio sl) (transfer_file sl) (repl_master_runid sl)
    (repl_master_initial_offset sl) (sl_master sl) (cached_master sl) file d.

(** * The cached master *)

Definition replicationDiscardCachedMaster (sl : slave data sel) : slave data sel := set_links sl (sl_state sl) (sl_master sl) None.

Definition close_flags (c : client) (b : bool) : client :=
  let f := flags c in set_flags c (mkFlags (SLAVE f) (BLOCKED f) b (MULTI f) (ASKING f) (last_asking f)).

(** There has to be a cached master. *)
Definition replicationResurrectCachedMaster (he : handshake_env) (sl : slave data sel) : option (slave data sel) :=
  m <- cached_master sl;;
  let close_asap := negb (read_handler_ok he) || (has_output he && negb (write_handler_ok he)) in
  let m := mkLink (close_flags (link_client m) false) (link_db m) (replrunid m) (reploff m) (link_pre_psync m) close_asap (hs_unixtime he) in
  Some (set_links sl REPL_CONNECTED (Some m) None).

Definition replicationHandleMasterDisconnection (sl : slave data sel) : slave data sel := set_links sl REPL_CONNECT None (cached_master sl).

(** The argument is the master, which the server has to have. *)
Definition replicationCacheMaster (sl : slave data sel) (m : master_link sel) : option (slave data sel) :=
  match sl_master sl, cached_master sl with
  | Some _, None => Some (replicationHandleMasterDisconnection (set_links sl (sl_state sl) (sl_master sl) (Some m)))
  | _, _ => None
  end.

(** [freeClient] of the master. *)
Definition freeMaster (sl : slave data sel) (m : master_link sel) : option (slave data sel) :=
  if negb (CLOSE_AFTER_REPLY (flags (link_client m)) || link_close_asap m || BLOCKED (flags (link_client m))) then replicationCacheMaster sl m
  else Some (replicationHandleMasterDisconnection sl).

(** * The handshake *)

Definition slaveTryPartialResynchronization (he : handshake_env) (sl : slave data sel) (io : sync_io) : option (slave data sel * sync_io * psync_result) :=
  let sl := set_offset sl (repl_master_runid sl) (-1) in
  ' (psync_runid, psync_offset) <- match cached_master sl with
                                   | Some m => off <- ll_arith (reploff m + 1);; Some (replrunid m, printf_d off ++ [0])
                                   | None => Some ([63; 0], [45; 49; 0])
                                   end;;
  ' (io, reply) <- sendSynchronousCommand io [[80; 83; 89; 78; 67; 0]; psync_runid; psync_offset];;
  full <- strneq (buf reply) 0 [43; 70; 85; 76; 76; 82; 69; 83; 89; 78; 67];;
  if full : bool then
    r <- fullresync_reply (buf reply);;
    let sl := match r with
              | None => set_offset sl (replicate (Z.to_nat (REDIS_RUN_ID_SIZE + 1)) 0) (repl_master_initial_offset sl)
              | Some (id, v) => set_offset sl (id ++ [0]) v
              end in
    Some (replicationDiscardCachedMaster sl, io, PSYNC_FULLRESYNC)
  else
    continue <- strneq (buf reply) 0 [43; 67; 79; 78; 84; 73; 78; 85; 69];;
    if continue : bool then sl <- replicationResurrectCachedMaster he sl;; Some (sl, io, PSYNC_CONTINUE)
    else Some (replicationDiscardCachedMaster sl, io, PSYNC_NOT_SUPPORTED).

(** The answer to PING: whether it is accepted. *)
Definition receive_pong (io : sync_io) : option (sync_io * bool) :=
  b <- store8 (zmalloc 1024) 0 0;;
  ' (io, b, n) <- syncReadLine io b 1024;;
  if n =? -1 then Some (io, false) else
  c <- load8 b 0;;
  if c =? 43 then Some (io, true) else
  noauth <- strneq b 0 [45; 78; 79; 65; 85; 84; 72];;
  if noauth : bool then Some (io, true) else
  denied <- strneq b 0 [45; 69; 82; 82; 32; 111; 112; 101; 114; 97; 116; 105; 111; 110; 32; 110; 111; 116; 32; 112; 101; 114; 109; 105; 116; 116; 101; 100];;
  Some (io, denied).

Definition send_auth (he : handshake_env) (io : sync_io) : option (sync_io * bool) :=
  match masterauth he with
  | Some auth =>
    ' (io, err) <- sendSynchronousCommand io [[65; 85; 84; 72; 0]; auth];;
    c <- load8 (buf err) 0;;
    Some (io, negb (c =? 45))
  | None => Some (io, true)
  end.

(** The error is ignored. *)
Definition send_port (he : handshake_env) (io : sync_io) : option sync_io :=
  p <- sdsfromlonglong (port he);;
  ' (io, err) <- sendSynchronousCommand io [[82; 69; 80; 76; 67; 79; 78; 70; 0]; [108; 105; 115; 116; 101; 110; 105; 110; 103; 45; 112; 111; 114; 116; 0]; buf p];;
  Some io.

(** From AUTH to the end. *)
Definition synchronise (he : handshake_env) (sl : slave data sel) (io : sync_io) : option (slave data sel * option sync_io) :=
  ' (io, ok) <- send_auth he io;;
  if negb ok then Some (set_sl_state sl REPL_CONNECT, None) else
  io <- send_port he io;;
  ' (sl, io, result) <- slaveTryPartialResynchronization he sl io;;
  match result with
  | PSYNC_CONTINUE => Some (sl, Some io)
  | _ =>
    let '(io, ok) := match result with PSYNC_NOT_SUPPORTED => syncWrite io [83; 89; 78; 67; 13; 10] | _ => (io, true) end in
    if negb ok then Some (set_sl_state sl REPL_CONNECT, None) else
    if negb (existsb id (take 5 (opens he))) then Some (set_sl_state sl REPL_CONNECT, None) else
    if negb (payload_handler_ok he) then Some (set_sl_state sl REPL_CONNECT, None) else
    Some (set_transfer sl REPL_TRANSFER (-1) 0 0 (hs_unixtime he) [], Some io)
  end.

(** The slave and the socket, or none where it was closed. *)
Definition syncWithMaster (he : handshake_env) (sl : slave data sel) (io : sync_io) : option (slave data sel * option sync_io) :=
  match sl_state sl with
  | REPL_NONE => Some (sl, None)
  | st =>
    if sockerr he then Some (set_sl_state sl REPL_CONNECT, None) else
    match st with
    | REPL_CONNECTING => let '(io, _) := syncWrite io [80; 73; 78; 71; 13; 10] in Some (set_sl_state sl REPL_RECEIVE_PONG, Some io)
    | REPL_RECEIVE_PONG =>
      ' (io, ok) <- receive_pong io;;
      if negb ok then Some (set_sl_state sl REPL_CONNECT, None) else synchronise he sl io
    | _ => synchronise he sl io
    end
  end.

(** * The download *)

(** The temporary file is removed. *)
Definition replicationAbortSyncTransfer (sl : slave data sel) : option (slave data sel) :=
  match sl_state sl with
  | REPL_TRANSFER => Some (set_transfer sl REPL_CONNECT (repl_transfer_size sl) (repl_transfer_read sl) (repl_transfer_last_fsync_off sl) (repl_transfer_lastio sl) [])
  | _ => None
  end.

(** The slave and the socket, or none where it was closed; or the server has exited. *)
Inductive payload_result := Going (sl : slave data sel) (io : option sync_io) | Exited.

Definition aborted (sl : slave data sel) : option payload_result := sl <- replicationAbortSyncTransfer sl;; Some (Going sl None).

(** [load_dump] is [rdbLoad] on empty databases; it is none where the result is not [REDIS_OK]. A new client has [db0] selected. *)
Variable load_dump : bytes -> option data.
Variable no_data : data.
Variable db0 : sel.

(** The transfer is complete. *)
Definition payload_complete (pe : payload_env) (sl : slave data sel) (io : sync_io) : option payload_result :=
  if negb (rename_ok pe) then aborted sl else
  let sl := set_dataset sl (Some (transfer_file sl)) no_data in
  match load_dump (transfer_file sl) with
  | None => aborted sl
  | Some d =>
    let sl := set_dataset sl (dump_file sl) d in
    q <- sdsempty;;
    let m := mkLink (newClient q) db0 (repl_master_runid sl) (repl_master_initial_offset sl) (repl_master_initial_offset sl =? -1) false (payload_unixtime pe) in
    let sl := set_links sl REPL_CONNECTED (Some m) (cached_master sl) in
    match payload_aof pe with
    | None => Some (Going sl (Some io))
    | Some starts => retry <- aof_retry 11 10 starts;; Some (if retry =? 0 then Exited else Going sl (Some io))
    end
  end.

(** The line before the dump. *)
Definition payload_line (pe : payload_env) (sl : slave data sel) (io : sync_io) : option payload_result :=
  ' (io, b, n) <- syncReadLine io (zmalloc 4096) 1024;;
  if n =? -1 then aborted sl else
  c <- load8 b 0;;
  if c =? 45 then aborted sl else
  if c =? 0 then Some (Going (set_lastio sl (payload_unixtime pe)) (Some io)) else
  if negb (c =? 36) then aborted sl else
  rest <- load b 1 (msize b - 1);;
  size <- strtol rest;;
  Some (Going (set_transfer sl (sl_state sl) size (repl_transfer_read sl) (repl_transfer_last_fsync_off sl) (repl_transfer_lastio sl) (transfer_file sl)) (Some io)).

(** [read] gets as many bytes as it is asked for, at most; the size is a [size_t]. *)
Definition readSyncBulkPayload (pe : payload_env) (sl : slave data sel) (io : sync_io) : option payload_result :=
  if repl_transfer_size sl =? -1 then payload_line pe sl io else
  remaining <- ll_arith (repl_transfer_size sl - repl_transfer_read sl);;
  let readlen := if remaining <? 4096 then remaining else 4096 in
  match payload_read pe with
  | ReadAgain | ReadFailed | ReadData [] => aborted sl
  | ReadData d =>
    if uint 64 readlen <? msize d then None else
    b <- store (zmalloc 4096) 0 d;;
    d <- load b 0 (msize d);;
    let sl := set_lastio sl (payload_unixtime pe) in
    if negb (payload_write pe =? msize d) then aborted sl else
    read <- ll_arith (repl_transfer_read sl + msize d);;
    limit <- ll_arith (repl_transfer_last_fsync_off sl + REPL_MAX_WRITTEN_BEFORE_FSYNC);;
    let sync_size := read - repl_transfer_last_fsync_off sl in
    let fsync_off := if read >=? limit then repl_transfer_last_fsync_off sl + sync_size else repl_transfer_last_fsync_off sl in
    let sl := set_transfer sl (sl_state sl) (repl_transfer_size sl) read fsync_off (repl_transfer_lastio sl) (transfer_file sl ++ d) in
    if read =? repl_transfer_size sl then payload_complete pe sl io else Some (Going sl (Some io))
  end.

(** * The link *)

Variable processCommand : data * sel -> client -> option (data * sel * client * bool).
Variable clientsArePaused : bool.

Definition set_link_client (m : master_link sel) (c : client) : master_link sel :=
  mkLink c (link_db m) (replrunid m) (reploff m) (link_pre_psync m) (link_close_asap m) (link_lastinteraction m).

(** [readQueryFromClient] for the master. *)
Definition readQueryFromMaster (client_max_querybuf_len now : Z) (sl : slave data sel) (r : read_result) : option (slave data sel) :=
  m <- sl_master sl;;
  let c := link_client m in
  let readlen := client_readlen c in
  let qblen := sdslen (querybuf c) in
  let q := sdsMakeRoomFor (querybuf c) readlen in
  match r with
  | ReadFailed | ReadData [] => freeMaster sl (set_link_client m (set_querybuf c q))
  | ReadAgain => Some (set_links sl (sl_state sl) (Some (set_link_client m (set_querybuf c q))) (cached_master sl))
  | ReadData d =>
    if readlen <? msize d then None else
    b <- store (buf q) qblen d;;
    q <- sdsIncrLen (set_buf q b) (msize d);;
    off <- ll_arith (reploff m + msize d);;
    let c := set_querybuf c q in
    let m := mkLink c (link_db m) (replrunid m) off (link_pre_psync m) (link_close_asap m) now in
    if sdslen (querybuf c) >? client_max_querybuf_len then freeMaster sl m else
    ' (d, db, c) <- processInputBuffer processCommand clientsArePaused (dataset sl, link_db m) c;;
    let m := mkLink c db (replrunid m) off (link_pre_psync m) (link_close_asap m) now in
    Some (set_links (set_dataset sl (dump_file sl) d) (sl_state sl) (Some m) (cached_master sl))
  end.

(** * Connections *)

Definition connectWithMaster (ce : slave_cron_env) (sl : slave data sel) : slave data sel * bool :=
  if negb (connect_ok ce) then (sl, false) else
  if negb (connect_handler_ok ce) then (sl, false) else
  (set_sl_state (set_lastio sl (cron_unixtime ce)) REPL_CONNECTING, true).

Definition undoConnectWithMaster (sl : slave data sel) : option (slave data sel) :=
  match sl_state sl with
  | REPL_CONNECTING | REPL_RECEIVE_PONG => Some (set_sl_state sl REPL_CONNECT)
  | _ => None
  end.

Definition cancelReplicationHandshake (sl : slave data sel) : option (slave data sel * bool) :=
  match sl_state sl with
  | REPL_TRANSFER => sl <- replicationAbortSyncTransfer sl;; Some (sl, true)
  | REPL_CONNECTING | REPL_RECEIVE_PONG => sl <- undoConnectWithMaster sl;; Some (sl, true)
  | _ => Some (sl, false)
  end.

(** The part of [replicationCron] about the master, without [replicationSendAck]. *)
Definition slaveCron (ce : slave_cron_env) (sl : slave data sel) : option (slave data sel) :=
  let late t := cron_repl_timeout ce <? cron_time ce - t in
  sl <- (if masterhost sl && match sl_state sl with REPL_CONNECTING | REPL_RECEIVE_PONG => true | _ => false end && late (repl_transfer_lastio sl)
         then undoConnectWithMaster sl else Some sl);;
  sl <- (if masterhost sl && match sl_state sl with REPL_TRANSFER => true | _ => false end && late (repl_transfer_lastio sl)
         then replicationAbortSyncTransfer sl else Some sl);;
  sl <- (if masterhost sl && match sl_state sl with REPL_CONNECTED => true | _ => false end
         then m <- sl_master sl;; if late (link_lastinteraction m) then freeMaster sl m else Some sl
         else Some sl);;
  Some (match sl_state sl with REPL_CONNECT => fst (connectWithMaster ce sl) | _ => sl end).

End Data.

End Slave.
