(* ===== verification/SlaveSpec.v ===== *)
(** The handshake, the download and the link of a slave: what they do with what a master sends. *)

From stdpp Require Import relations.
From S2P Require Import Prelude Util Robj Sds SdsRep SdsArgs Rdb Networking NetworkingSpec Aof AofSpec RioSpec SlaveSync.

(** * Lines *)

(** The bytes of a line: what a C string can have, without LF. *)
Definition text (l : bytes) : Prop := Forall (fun c => is_byte c /\ c <> 0 /\ c <> 10) l.

Lemma text_cstring l : text l -> cstring l.
Proof. intros H. eapply list.Forall_impl; [exact H|]. by intros c (_ & ? & _). Qed.

Definition crlf : bytes := [13; 10].

Lemma read_line T : forall size P B rest, Forall (fun c => is_byte c /\ c <> 10) T -> (length T < size)%nat -> msize T < msize B ->
  exists B', msize T + 1 + msize B' = msize B /\ syncReadLine_loop size (P ++ B) (msize P) (msize P) (T ++ 10 :: rest) =
    (b <- (if negb (msize (P ++ T) =? 0) then p <- load8 (P ++ T ++ 0 :: B') (msize (P ++ T) - 1);; if p =? 13 then store8 (P ++ T ++ 0 :: B') (msize (P ++ T) - 1) 0 else Some (P ++ T ++ 0 :: B')
           else Some (P ++ T ++ 0 :: B'));; Some (rest, b, msize (P ++ T))).
Proof.
  induction T as [|c T IH]; intros [|size] P B rest HT Hs HB; try (cbn [length] in Hs; lia); cbn [app syncReadLine_loop].
  - destruct B as [|x B]; [rewrite msize_nil in HB; lia|]. exists B. rewrite msize_cons, msize_nil, app_nil_r. split; [lia|]. cbn [Z.eqb Pos.eqb].
    rewrite (store8_at P x B) by done. cbn [obind]. done.
  - apply list.Forall_cons in HT as [[Hb Hc] HT]. rewrite (proj2 (Z.eqb_neq _ _)) by done. cbn [length] in Hs. rewrite msize_cons in HB. pose proof (msize_nonneg T).
    destruct B as [|x [|x2 B]]; rewrite ?msize_cons, ?msize_nil in HB; [lia|lia|]. rewrite (store8_at P x (x2 :: B)) by done. cbn [obind].
    rewrite (store8_at (P ++ [uint 8 c]) x2 B); [|by rewrite <- app_assoc|msolve]. cbn [obind]. rewrite uint_id by (unfold is_byte in Hb; lia).
    destruct (IH size (P ++ [c]) (uint 8 0 :: B) rest HT ltac:(lia)) as (B' & HB' & E); [rewrite msize_cons; lia|]. exists B'. rewrite msize_cons in HB'. rewrite !msize_cons. split; [lia|].
    replace (msize (P ++ [c])) with (msize P + 1) in E by msolve. rewrite E. rewrite <- !app_assoc. cbn [app]. done.
Qed.

Lemma syncReadLine_crlf io b size L rest : io_in io = L ++ crlf ++ rest -> Forall (fun c => is_byte c /\ c <> 10) L -> msize L + 3 <= size <= msize b ->
  exists B, syncReadLine io b size = Some (mkIo rest (io_out io) (io_writes io) (io_error io), L ++ 0 :: 0 :: B, msize L + 1).
Proof.
  intros E HL Hs. unfold syncReadLine. rewrite E. pose proof (msize_nonneg L).
  destruct (read_line (L ++ [13]) (Z.to_nat (size - 1)) [] b rest) as (B & HB & El); [apply list.Forall_app; split; [done|by repeat constructor]|rewrite length_app; unfold msize in *; cbn [length]; lia|msolve|].
  cbn [app] in El. change (msize (@nil Z)) with 0 in El. rewrite <- app_assoc in El. cbn [app crlf] in El |- *. rewrite El.
  rewrite (proj2 (Z.eqb_neq _ _)) by msolve. cbn [negb]. rewrite <- app_assoc. cbn [app]. rewrite (load8_at L 13 (0 :: B)); [|done|msolve]. cbn [obind Z.eqb Pos.eqb].
  rewrite (store8_at L 13 (0 :: B)); [|done|msolve]. cbn [obind]. exists B. do 3 f_equal. msolve.
Qed.

Lemma syncReadLine_newline io b size rest : io_in io = 10 :: rest -> 2 <= size <= msize b ->
  exists B, syncReadLine io b size = Some (mkIo rest (io_out io) (io_writes io) (io_error io), 0 :: B, 0).
Proof.
  intros E Hs. unfold syncReadLine. rewrite E. destruct (read_line [] (Z.to_nat (size - 1)) [] b rest) as (B & HB & El); [done|cbn [length]; lia|msolve|].
  cbn [app] in El. change (msize (@nil Z)) with 0 in El. rewrite El. cbn [Z.eqb negb obind]. by exists B.
Qed.

(** A prefix that is compared. *)
Lemma strneq_prefix lit : forall P R, strneq (P ++ lit ++ R) (msize P) lit = Some true.
Proof.
  induction lit as [|l lit IH]; intros P R; [done|]. cbn [strneq app]. rewrite (load8_at P l (lit ++ R)) by done. cbn [obind]. rewrite Z.eqb_refl.
  specialize (IH (P ++ [l]) R). rewrite <- app_assoc in IH. cbn [app] in IH. rewrite <- IH. f_equal. msolve.
Qed.

Section Spec.
Context {HOST : Host}.

(** * Commands *)

(** The words of a command. *)
Fixpoint join_words (ws : list bytes) : bytes :=
  match ws with
  | [] => []
  | [w] => w
  | w :: ws => w ++ [32] ++ join_words ws
  end.

Definition word (w arg : bytes) : Prop := exists u, arg = w ++ 0 :: u /\ cstring w /\ w <> [].

Lemma cat_words_spec args ws : Forall2 word ws args -> forall cmd bs, sds_rep cmd bs -> msize bs + msize (join_words ws) + 1 < 2 ^ 30 ->
  exists cmd', cat_words cmd args = Some cmd' /\ sds_rep cmd' (bs ++ (if bool_decide (bs = [] \/ ws = []) then [] else [32]) ++ join_words ws).
Proof.
  induction 1 as [|w arg ws args (u & -> & Hw & Hne) HF IH]; intros cmd bs Hr Hb.
  - exists cmd. split; [done|]. cbn [join_words]. rewrite bool_decide_eq_true_2, !app_nil_r by by right. done.
  - cbn [cat_words]. destruct (sds_rep_len _ _ Hr) as [El _]. rewrite El.
    assert (msize w <= msize (join_words (w :: ws)) /\ (ws <> [] -> msize w + 1 + msize (join_words ws) = msize (join_words (w :: ws)))) as [H1 H2].
    { destruct ws as [|w2 ws]; [by split; [cbn; lia|]|]. change (join_words (w :: w2 :: ws)) with (w ++ [32] ++ join_words (w2 :: ws)). pose proof (msize_nonneg (join_words (w2 :: ws))). split; [|intros _]; msolve. }
    assert (exists cmd1, (if negb (msize bs =? 0) then sdscatlen cmd [32] 1 else Some cmd) = Some cmd1 /\ sds_rep cmd1 (bs ++ if bool_decide (bs = []) then [] else [32])) as (cmd1 & -> & Hr1).
    { destruct (Z.eqb_spec (msize bs) 0) as [E0|E0]; cbn [negb].
      - apply msize_0_nil in E0 as ->. by exists cmd.
      - rewrite bool_decide_eq_false_2 by by intros ->. pose proof (msize_nonneg w). destruct (sdscatlen_rep cmd bs [32] [] Hr) as (c1 & E & ?); [rewrite msize_cons, msize_nil; lia|]. rewrite app_nil_r in E. by exists c1. }
    cbn [obind]. set (sp := if bool_decide (bs = []) then [] else [32]) in *. assert (msize sp <= 1) as Hsp by (unfold sp; by destruct (bool_decide _)).
    destruct (sdscat_rep cmd1 _ w u Hr1 Hw) as (cmd2 & -> & Hr2); [rewrite msize_app; lia|]. cbn [obind].
    rewrite (bool_decide_ext _ (bs = [])) by naive_solver. fold sp. destruct ws as [|w2 ws'] eqn:Ews; [apply list.Forall2_nil_inv_l in HF as ->; exists cmd2; cbn [cat_words join_words]; by rewrite app_assoc|]. rewrite <- Ews in *.
    destruct (IH cmd2 _ Hr2) as (cmd' & E & Hr').
    + rewrite !msize_app. specialize (H2 ltac:(by rewrite Ews)). lia.
    + exists cmd'. split; [done|]. rewrite bool_decide_eq_false_2 in Hr'; [|intros [Hn|Hn]; [by destruct ((bs ++ sp)), w|by rewrite Ews in Hn]]. rewrite <- !app_assoc in Hr'. subst ws. exact Hr'.
Qed.

(** A command that is sent, and the line that answers it. *)
Lemma command_spec io args ws L rest : Forall2 word ws args -> ws <> [] -> msize (join_words ws) + 3 < 2 ^ 30 -> io_writes io = [] ->
  io_in io = L ++ crlf ++ rest -> text L -> msize L + 3 <= 256 ->
  exists s, sendSynchronousCommand io args = Some (mkIo rest (io_out io ++ join_words ws ++ crlf) [] (io_error io), s) /\ sds_rep s L.
Proof.
  intros Hw Hne Hb Ew Ei HL Hl. unfold sendSynchronousCommand. destruct sdsempty_rep as (c0 & -> & Hc0 & _). cbn [obind]. pose proof (msize_nonneg (join_words ws)).
  destruct (cat_words_spec args ws Hw c0 [] Hc0) as (c1 & -> & Hc1); [rewrite msize_nil; lia|]. rewrite bool_decide_eq_true_2 in Hc1 by by left. cbn [obind app] in *.
  destruct (sdscatlen_rep c1 _ crlf [] Hc1) as (c2 & E2 & Hc2); [change (msize crlf) with 2; lia|]. rewrite app_nil_r in E2. unfold crlf in E2 at 1. change (msize crlf) with 2 in E2. rewrite E2. cbn [obind].
  destruct (sds_rep_len _ _ Hc2) as [-> _]. destruct (sds_rep_buf _ _ Hc2) as (fr & Eb). rewrite (load_at [] (join_words ws ++ crlf) (0 :: fr) (buf c2)) by done. cbn [obind].
  unfold syncWrite. rewrite Ew. cbn [syncWrite_loop negb]. set (io1 := mkIo (io_in io) _ [] _).
  destruct (syncReadLine_crlf io1 (zmalloc 256) 256 L rest Ei) as (B & ->); [eapply list.Forall_impl; [exact HL|]; by intros c (? & _ & ?)|unfold zmalloc; rewrite msize_fresh; lia|]. cbn [obind].
  pose proof (msize_nonneg L). rewrite (proj2 (Z.eqb_neq _ _)) by lia. unfold sdsnew. rewrite strlen_spec by by apply text_cstring. cbn [obind].
  destruct (sdsnewlen_rep L (0 :: 0 :: B)) as (s & -> & Hs & _); [lia|]. cbn [obind]. by exists s.
Qed.

(** * The answers to PSYNC *)

Definition runid_ok (id : bytes) : Prop := msize id = REDIS_RUN_ID_SIZE /\ Forall (fun c => is_byte c /\ c <> 0 /\ c <> 10 /\ c <> 32) id.

Lemma printf_d_ok v : LLONG_MIN < v <= LLONG_MAX -> decimal (printf_d v) v /\ 0 < msize (printf_d v) <= 20.
Proof.
  intros Hv. destruct (ll2string_printf (zmalloc 32) 32 v) as (_ & _ & Hl & _); [done|lia|unfold zmalloc; rewrite msize_fresh; lia|]. split; [|done].
  apply printf_d_decimal. unfold LLONG_MIN, LLONG_MAX in Hv. lia.
Qed.

Lemma decimal_as_text ds v : decimal ds v -> text ds /\ Forall (fun c => c <> 32) ds.
Proof.
  intros [[[Hd _] _]|(d & -> & [Hd _] & _)].
  - split; (eapply list.Forall_impl; [exact Hd|]); cbn; unfold is_byte; lia.
  - split; (constructor; [unfold is_byte; lia|]); (eapply list.Forall_impl; [exact Hd|]); cbn; unfold is_byte; lia.
Qed.

Definition full_word : bytes := [43; 70; 85; 76; 76; 82; 69; 83; 89; 78; 67].
Definition continue_word : bytes := [43; 67; 79; 78; 84; 73; 78; 85; 69].

Definition full_line (id : bytes) (v : Z) : bytes := full_word ++ [32] ++ id ++ [32] ++ printf_d v.

Lemma full_line_text id v : runid_ok id -> LLONG_MIN < v <= LLONG_MAX -> text (full_line id v) /\ msize (full_line id v) + 3 <= 256.
Proof.
  intros [Hl Hid] Hv. destruct (printf_d_ok v Hv) as [Hd Hs]. unfold full_line. split.
  - repeat (apply list.Forall_app; split); [by repeat constructor|by repeat constructor| |by repeat constructor|by eapply decimal_as_text].
    eapply list.Forall_impl; [exact Hid|]. naive_solver.
  - rewrite !msize_app, Hl. unfold REDIS_RUN_ID_SIZE. change (msize full_word) with 11. change (msize [32]) with 1. lia.
Qed.

Lemma fullresync_reply_spec id v R : runid_ok id -> LLONG_MIN < v <= LLONG_MAX -> fullresync_reply (full_line id v ++ 0 :: R) = Some (Some (id, v)).
Proof.
  intros [Hl Hid] Hv. destruct (printf_d_ok v Hv) as [Hd Hs]. unfold fullresync_reply, strchr_at. set (b := full_line id v ++ 0 :: R).
  assert (b = full_word ++ 32 :: id ++ 32 :: printf_d v ++ 0 :: R) as Eb by (unfold b, full_line; by rewrite <- !app_assoc).
  pose proof (strchr_found (length b) [] full_word 32 (id ++ 32 :: printf_d v ++ 0 :: R)) as E1. cbn [app] in E1. rewrite <- Eb in E1. change (msize (@nil Z)) with 0 in E1. rewrite E1; [|done|by repeat constructor|unfold b, full_line; rewrite !length_app; cbn [length full_word]; lia].
  cbn [obind]. change (0 + msize full_word + 1) with 12.
  pose proof (strchr_found (length b) (full_word ++ [32]) id 32 (printf_d v ++ 0 :: R)) as E2. rewrite <- app_assoc in E2. cbn [app] in E2. rewrite <- Eb in E2. change (msize (full_word ++ [32])) with 12 in E2.
  rewrite E2; [|done|eapply list.Forall_impl; [exact Hid|]; naive_solver|unfold b, full_line; rewrite !length_app; cbn [length full_word]; lia]. cbn [obind]. rewrite Hl. unfold REDIS_RUN_ID_SIZE.
  change (negb (12 + 40 + 1 - 12 - 1 =? 40)) with false. cbn [obind]. change (12 + 40 + 1 - 12 - 1) with 40. change (12 + 40 + 1) with 53.
  rewrite (load_at (full_word ++ [32]) id (32 :: printf_d v ++ 0 :: R) b); [|by rewrite Eb, <- app_assoc|done|done]. cbn [obind].
  rewrite (load_at ((full_word ++ [32]) ++ id ++ [32]) (printf_d v ++ 0 :: R) [] b); [|by rewrite Eb, app_nil_r, <- !app_assoc|rewrite !msize_app, Hl; done|].
  2: { rewrite Eb. rewrite !msize_app, !msize_cons, !msize_app, Hl, msize_cons. change (msize full_word) with 11. unfold REDIS_RUN_ID_SIZE. rewrite msize_app, msize_cons. lia. }
  cbn [obind]. rewrite (strtoll_decimal (printf_d v) v 0 R); [done|done|done|lia].
Qed.

Section Data.
Context {data sel : Type}.
Implicit Types sl : slave data sel.

(** What PSYNC asks for. *)
Definition psync_words (cached : option (master_link sel)) : list bytes :=
  match cached with
  | Some m => [[80; 83; 89; 78; 67]; take 40 (replrunid m); printf_d (reploff m + 1)]
  | None => [[80; 83; 89; 78; 67]; [63]; [45; 49]]
  end.

Definition cached_ok (cached : option (master_link sel)) : Prop :=
  forall m, cached = Some m -> (exists id, runid_ok id /\ replrunid m = id ++ [0]) /\ LLONG_MIN < reploff m + 1 <= LLONG_MAX.

(** The command that is sent for the cached master. *)
Lemma psync_request (cached : option (master_link sel)) : cached_ok cached ->
  exists args, match cached with
               | Some m => off <- ll_arith (reploff m + 1);; Some (replrunid m, printf_d off ++ [0])
               | None => Some ([63; 0], [45; 49; 0])
               end = Some args /\ Forall2 word (psync_words cached) [[80; 83; 89; 78; 67; 0]; args.1; args.2] /\ msize (join_words (psync_words cached)) <= 100.
Proof.
  intros Hc. destruct cached as [m|].
  - destruct (Hc m eq_refl) as ((id & [Hl Hid] & E) & Ho). destruct (printf_d_ok _ Ho) as [Hd Hs]. rewrite ll_arith_Some by (unfold LLONG_MIN, LLONG_MAX in *; lia). cbn [obind]. eexists. split; [done|].
    unfold psync_words. cbn [fst snd]. rewrite E, take_app_le, take_ge by (unfold msize, REDIS_RUN_ID_SIZE in Hl; lia). split.
    + constructor; [by exists []; repeat constructor|]. constructor; [|constructor; [|done]].
      * exists []. split; [done|]. split; [eapply list.Forall_impl; [exact Hid|]; naive_solver|]. intros ->. by rewrite msize_nil in Hl.
      * exists []. split; [done|]. split; [apply text_cstring; by eapply decimal_as_text|]. intros E0. rewrite E0, msize_nil in Hs. lia.
    + cbn [join_words]. rewrite !msize_app, Hl. unfold REDIS_RUN_ID_SIZE. change (msize [80; 83; 89; 78; 67]) with 5. change (msize [32]) with 1. lia.
  - eexists. split; [done|]. split; [|done]. repeat constructor; exists []; repeat constructor; done.
Qed.

(** A full resynchronisation. *)
Lemma psync_full he sl io id v rest : cached_ok (cached_master sl) -> io_writes io = [] -> io_in io = full_line id v ++ crlf ++ rest -> runid_ok id -> LLONG_MIN < v <= LLONG_MAX ->
  slaveTryPartialResynchronization he sl io =
    Some (replicationDiscardCachedMaster (set_offset sl (id ++ [0]) v), mkIo rest (io_out io ++ join_words (psync_words (cached_master sl)) ++ crlf) [] (io_error io), PSYNC_FULLRESYNC).
Proof.
  intros Hc Ew Ei Hid Hv. unfold slaveTryPartialResynchronization. cbn [cached_master set_offset]. destruct (psync_request _ Hc) as ([a1 a2] & -> & HF & Hl). cbn [obind fst snd] in *.
  destruct (full_line_text id v Hid Hv) as [Ht Hlen]. destruct (command_spec io _ _ _ rest HF ltac:(by destruct (cached_master sl)) ltac:(lia) Ew Ei Ht Hlen) as (r & -> & Hr). cbn [obind].
  destruct (sds_rep_buf _ _ Hr) as (fr & ->). pose proof (strneq_prefix full_word [] ([32] ++ id ++ [32] ++ printf_d v ++ 0 :: fr)) as E. change (msize (@nil Z)) with 0 in E. change ([] ++ ?x) with x in E.
  assert (full_line id v ++ 0 :: fr = full_word ++ [32] ++ id ++ [32] ++ printf_d v ++ 0 :: fr) as El by (unfold full_line; by rewrite <- !app_assoc). change [43; 70; 85; 76; 76; 82; 69; 83; 89; 78; 67] with full_word. rewrite El at 1. rewrite E. cbn [obind].
  by rewrite fullresync_reply_spec.
Qed.

(** The master after a partial resynchronisation. *)
Definition resumed (he : handshake_env) (m : master_link sel) : master_link sel :=
  mkLink (close_flags (link_client m) false) (link_db m) (replrunid m) (reploff m) (link_pre_psync m) (negb (read_handler_ok he) || (has_output he && negb (write_handler_ok he))) (hs_unixtime he).

Lemma not_full fr : strneq (continue_word ++ 0 :: fr) 0 [43; 70; 85; 76; 76; 82; 69; 83; 89; 78; 67] = Some false.
Proof.
  unfold continue_word. cbn [app strneq]. rewrite (load8_at [] 43 (67 :: 79 :: 78 :: 84 :: 73 :: 78 :: 85 :: 69 :: 0 :: fr)) by done. cbn [obind Z.eqb Pos.eqb].
  by rewrite (load8_at [43] 67 (79 :: 78 :: 84 :: 73 :: 78 :: 85 :: 69 :: 0 :: fr)).
Qed.

Lemma psync_continue he sl io rest : cached_ok (cached_master sl) -> io_writes io = [] -> io_in io = continue_word ++ crlf ++ rest ->
  slaveTryPartialResynchronization he sl io =
    (m <- cached_master sl;; Some (set_links (set_offset sl (repl_master_runid sl) (-1)) REPL_CONNECTED (Some (resumed he m)) None, mkIo rest (io_out io ++ join_words (psync_words (cached_master sl)) ++ crlf) [] (io_error io), PSYNC_CONTINUE)).
Proof.
  intros Hc Ew Ei. unfold slaveTryPartialResynchronization. cbn [cached_master set_offset]. destruct (psync_request _ Hc) as ([a1 a2] & -> & HF & Hl). cbn [obind fst snd] in *.
  destruct (command_spec io _ _ _ rest HF ltac:(by destruct (cached_master sl)) ltac:(lia) Ew Ei ltac:(by repeat constructor) ltac:(by vm_compute)) as (r & -> & Hr). cbn [obind].
  destruct (sds_rep_buf _ _ Hr) as (fr & ->). rewrite not_full. cbn [obind].
  pose proof (strneq_prefix continue_word [] (0 :: fr)) as E. change (msize (@nil Z)) with 0 in E. change ([] ++ ?x) with x in E. change [43; 67; 79; 78; 84; 73; 78; 85; 69] with continue_word. rewrite E. cbn [obind].
  unfold replicationResurrectCachedMaster. cbn [cached_master set_offset]. by destruct (cached_master sl).
Qed.

(** * The handshake *)

(** The answers of the master up to the one to PSYNC, and what the slave sends. *)
Definition auth_word (he : handshake_env) : option bytes := match masterauth he with Some a => Some (take (length a - 1) a) | None => None end.

Definition before_psync (he : handshake_env) (pong auth port_ok : bytes) : bytes :=
  pong ++ crlf ++ (match masterauth he with Some _ => auth ++ crlf | None => [] end) ++ port_ok ++ crlf.

Definition sent_before_psync (he : handshake_env) : bytes :=
  (match auth_word he with Some a => join_words [[65; 85; 84; 72]; a] ++ crlf | None => [] end) ++
  join_words [[82; 69; 80; 76; 67; 79; 78; 70]; [108; 105; 115; 116; 101; 110; 105; 110; 103; 45; 112; 111; 114; 116]; printf_d (port he)] ++ crlf.

(** The answers are lines, and those to PING and AUTH accept them. *)
Definition accepts (he : handshake_env) (pong auth port_ok : bytes) : Prop :=
  (text pong /\ msize pong + 3 <= 256 /\ exists t, pong = 43 :: t) /\ (text auth /\ msize auth + 3 <= 256 /\ exists t, auth = 43 :: t) /\ (text port_ok /\ msize port_ok + 3 <= 256).

Definition handshake_ok (he : handshake_env) : Prop :=
  sockerr he = false /\ - 2 ^ 31 <= port he < 2 ^ 31 /\ (forall a, masterauth he = Some a -> exists w, a = w ++ [0] /\ cstring w /\ w <> [] /\ msize w < 2 ^ 20).

Lemma receive_pong_spec io pong rest : io_in io = pong ++ crlf ++ rest -> text pong -> msize pong + 3 <= 256 -> (exists t, pong = 43 :: t) ->
  receive_pong io = Some (mkIo rest (io_out io) (io_writes io) (io_error io), true).
Proof.
  intros Ei Ht Hl (t & ->). unfold receive_pong. assert (exists x b, zmalloc 1024 = x :: b) as (x & b & Ez) by by do 2 eexists. assert (msize (x :: b) = 1024) as Hsz by (rewrite <- Ez; unfold zmalloc; by rewrite msize_fresh).
  rewrite Ez, (store8_at [] x b) by done. cbn [obind app]. destruct (syncReadLine_crlf io (uint 8 0 :: b) 1024 _ rest Ei) as (B & ->).
  - eapply list.Forall_impl; [exact Ht|]. naive_solver.
  - rewrite !msize_cons in *. lia.
  - cbn [obind]. rewrite (proj2 (Z.eqb_neq _ _)) by (pose proof (msize_nonneg (43 :: t)); lia). cbn [app]. by rewrite (load8_at [] 43 (t ++ 0 :: 0 :: B)).
Qed.

Lemma send_auth_spec he io auth rest : handshake_ok he -> io_writes io = [] -> text auth -> msize auth + 3 <= 256 -> (exists t, auth = 43 :: t) ->
  io_in io = (match masterauth he with Some _ => auth ++ crlf | None => [] end) ++ rest ->
  send_auth he io = Some (mkIo rest (io_out io ++ match auth_word he with Some a => join_words [[65; 85; 84; 72]; a] ++ crlf | None => [] end) [] (io_error io), true).
Proof.
  intros (_ & _ & Ha) Ew Ht Hl (t & ->) Ei. unfold send_auth, auth_word. destruct (masterauth he) as [a|]; [|destruct io; cbn in *; by rewrite app_nil_r, Ei, Ew].
  destruct (Ha a eq_refl) as (w & -> & Hw & Hne & Hlen). rewrite <- app_assoc in Ei. assert (take (length (w ++ [0]) - 1) (w ++ [0]) = w) as -> by (rewrite length_app, Nat.add_sub; apply take_app_length).
  destruct (command_spec io [[65; 85; 84; 72; 0]; w ++ [0]] [[65; 85; 84; 72]; w] (43 :: t) rest) as (r & -> & Hr); try done.
  - constructor; [by exists []; repeat constructor|]. constructor; [by exists []|done].
  - cbn [join_words]. rewrite !msize_app. change (msize [65; 85; 84; 72]) with 4. change (msize [32]) with 1. lia.
  - cbn [obind]. destruct (sds_rep_buf _ _ Hr) as (fr & ->). cbn [app]. by rewrite (load8_at [] 43 (t ++ 0 :: fr)).
Qed.

Lemma send_port_spec he io port_ok rest : handshake_ok he -> io_writes io = [] -> text port_ok -> msize port_ok + 3 <= 256 -> io_in io = port_ok ++ crlf ++ rest ->
  send_port he io = Some (mkIo rest (io_out io ++ join_words [[82; 69; 80; 76; 67; 79; 78; 70]; [108; 105; 115; 116; 101; 110; 105; 110; 103; 45; 112; 111; 114; 116]; printf_d (port he)] ++ crlf) [] (io_error io)).
Proof.
  intros (_ & Hp & _) Ew Ht Hl Ei. unfold send_port. assert (LLONG_MIN < port he <= LLONG_MAX) as Hr by (unfold LLONG_MIN, LLONG_MAX; lia).
  destruct (sdsfromlonglong_rep _ Hr) as (s & ds & -> & Hs & Hd). cbn [obind]. destruct (sds_rep_buf _ _ Hs) as (fr & ->). destruct (printf_d_ok _ Hr) as [Hd' Hlen].
  unfold LLONG_MIN, LLONG_MAX in Hr. assert (printf_d (port he) = ds) as E by (symmetry; apply printf_d_eq; [lia|done]). rewrite E in *.
  destruct (command_spec io [[82; 69; 80; 76; 67; 79; 78; 70; 0]; [108; 105; 115; 116; 101; 110; 105; 110; 103; 45; 112; 111; 114; 116; 0]; ds ++ 0 :: fr]
    [[82; 69; 80; 76; 67; 79; 78; 70]; [108; 105; 115; 116; 101; 110; 105; 110; 103; 45; 112; 111; 114; 116]; ds] port_ok rest) as (r & -> & _); try done.
  - constructor; [by exists []; repeat constructor|]. constructor; [by exists []; repeat constructor|]. constructor; [|done]. exists fr. split; [done|].
    split; [apply text_cstring; by eapply decimal_as_text|]. intros ->. rewrite msize_nil in Hlen. lia.
  - cbn [join_words]. rewrite !msize_app. change (msize [82; 69; 80; 76; 67; 79; 78; 70]) with 8. change (msize [108; 105; 115; 116; 101; 110; 105; 110; 103; 45; 112; 111; 114; 116]) with 14. change (msize [32]) with 1. lia.
Qed.

(** Everything up to PSYNC. *)
Lemma handshake_psync he sl io pong auth port_ok rest : handshake_ok he -> accepts he pong auth port_ok -> sl_state sl = REPL_RECEIVE_PONG -> io_writes io = [] ->
  io_in io = before_psync he pong auth port_ok ++ rest ->
  syncWithMaster he sl io =
    (' (sl, io, result) <- slaveTryPartialResynchronization he sl (mkIo rest (io_out io ++ sent_before_psync he) [] (io_error io));;
     match result with
     | PSYNC_CONTINUE => Some (sl, Some io)
     | _ =>
       let '(io, ok) := match result with PSYNC_NOT_SUPPORTED => syncWrite io [83; 89; 78; 67; 13; 10] | _ => (io, true) end in
       if negb ok then Some (set_sl_state sl REPL_CONNECT, None) else
       if negb (existsb id (take 5 (opens he))) then Some (set_sl_state sl REPL_CONNECT, None) else
       if negb (payload_handler_ok he) then Some (set_sl_state sl REPL_CONNECT, None) else
       Some (set_transfer sl REPL_TRANSFER (-1) 0 0 (hs_unixtime he) [], Some io)
     end).
Proof.
  intros Hh ((P1 & P2 & P3) & (A1 & A2 & A3) & (Q1 & Q2)) Est Ew Ei. unfold syncWithMaster. rewrite Est. pose proof Hh as (-> & _). unfold before_psync in Ei. rewrite <- !app_assoc in Ei.
  rewrite (receive_pong_spec io pong _ Ei P1 P2 P3). cbn [obind negb]. unfold synchronise. match goal with |- context [send_auth he ?i] => rewrite (send_auth_spec he i auth (port_ok ++ crlf ++ rest) Hh Ew A1 A2 A3 eq_refl) end. cbn [obind negb].
  match goal with |- context [send_port he ?i] => rewrite (send_port_spec he i port_ok rest Hh eq_refl Q1 Q2 eq_refl) end. cbn [obind io_in io_out io_writes io_error]. unfold sent_before_psync. by rewrite <- !app_assoc.
Qed.

End Data.
End Spec.
