(* ===== verification/SlaveRun.v ===== *)
(** A slave reads what its master sends, in pieces of any sizes: the dump is loaded and the commands after it are executed. *)

From stdpp Require Import relations.
From S2P Require Import Prelude Util Robj Sds SdsRep SdsArgs Rdb Networking NetworkingSpec Aof AofSpec RioSpec SlaveSync SlaveSpec.

Section Run.
Context {HOST : Host} {data sel : Type}.
Variable load_dump : bytes -> option data.
Variable no_data : data.
Variable db0 : sel.
Variable processCommand : data * sel -> client -> option (data * sel * client * bool).
Variable maxlen : Z.
Implicit Types sl : slave data sel.

(** * Events *)

Definition net_io (net : bytes) : sync_io := mkIo net [] [] [].

(** The bytes that the download asks for. *)
Definition download_len sl : Z := Z.min 4096 (repl_transfer_size sl - repl_transfer_read sl).

(** [read] gets [d], the file can be written and renamed, and the append only file can be started. *)
Definition payload_ok (pe : payload_env) (d : bytes) : Prop :=
  payload_read pe = ReadData d /\ payload_write pe = msize d /\ rename_ok pe = true /\ match payload_aof pe with Some (false :: _) => False | _ => True end.

(** An event of a slave with the bytes that its master sends it and that it has not read. *)
Inductive slave_event : slave data sel * bytes -> slave data sel * bytes -> Prop :=
  | event_line pe sl net sl' io : sl_state sl = REPL_TRANSFER -> repl_transfer_size sl = -1 -> net <> [] ->
      readSyncBulkPayload load_dump no_data db0 pe sl (net_io net) = Some (Going sl' (Some io)) -> slave_event (sl, net) (sl', io_in io)
  | event_data pe sl d net sl' io : sl_state sl = REPL_TRANSFER -> repl_transfer_size sl <> -1 -> d <> [] -> msize d <= download_len sl -> payload_ok pe d ->
      readSyncBulkPayload load_dump no_data db0 pe sl (net_io net) = Some (Going sl' (Some io)) -> slave_event (sl, d ++ net) (sl', io_in io)
  | event_link now sl m d net sl' : sl_state sl = REPL_CONNECTED -> sl_master sl = Some m -> d <> [] -> msize d <= client_readlen (link_client m) ->
      readQueryFromMaster processCommand false maxlen now sl (ReadData d) = Some sl' -> slave_event (sl, d ++ net) (sl', net).

(** * The download *)

Definition dump_header (f : bytes) : bytes := count_bytes 36 (printf_d (msize f)).

Lemma line_newline pe sl rest : repl_transfer_size sl = -1 ->
  readSyncBulkPayload load_dump no_data db0 pe sl (net_io (10 :: rest)) = Some (Going (set_lastio sl (payload_unixtime pe)) (Some (net_io rest))).
Proof.
  intros Es. unfold readSyncBulkPayload. rewrite Es. cbn [Z.eqb Pos.eqb]. unfold payload_line.
  destruct (syncReadLine_newline (net_io (10 :: rest)) (zmalloc 4096) 1024 rest eq_refl) as (B & ->); [unfold zmalloc; rewrite msize_fresh; lia|]. cbn [obind Z.eqb]. by rewrite (load8_at [] 0 B).
Qed.

Definition sized sl (n : Z) : slave data sel :=
  set_transfer sl (sl_state sl) n (repl_transfer_read sl) (repl_transfer_last_fsync_off sl) (repl_transfer_lastio sl) (transfer_file sl).

Lemma line_size pe sl f rest : repl_transfer_size sl = -1 -> msize f < 2 ^ 63 ->
  readSyncBulkPayload load_dump no_data db0 pe sl (net_io (dump_header f ++ rest)) = Some (Going (sized sl (msize f)) (Some (net_io rest))).
Proof.
  intros Es Hf. pose proof (msize_nonneg f). unfold readSyncBulkPayload. rewrite Es. cbn [Z.eqb Pos.eqb]. unfold payload_line.
  assert (LLONG_MIN < msize f <= LLONG_MAX) as Hr by (unfold LLONG_MIN, LLONG_MAX; lia). destruct (printf_d_ok (msize f) Hr) as [Hd Hl]. destruct (decimal_as_text _ _ Hd) as [Ht _].
  destruct (syncReadLine_crlf (net_io (dump_header f ++ rest)) (zmalloc 4096) 1024 (36 :: printf_d (msize f)) rest) as (B & ->).
  - cbn [net_io io_in]. unfold dump_header, count_bytes. cbn [app]. by rewrite <- app_assoc.
  - constructor; [done|]. eapply list.Forall_impl; [exact Ht|]. naive_solver.
  - rewrite msize_cons. unfold zmalloc. rewrite msize_fresh; lia.
  - cbn [obind]. rewrite msize_cons, (proj2 (Z.eqb_neq _ _)) by lia. cbn [app]. rewrite (load8_at [] 36 (printf_d (msize f) ++ 0 :: 0 :: B)) by done. cbn [obind Z.eqb Pos.eqb negb].
    rewrite (load_at [36] (printf_d (msize f) ++ 0 :: 0 :: B) [] (36 :: printf_d (msize f) ++ 0 :: 0 :: B)); [|by rewrite app_nil_r|done|msolve]. cbn [obind]. unfold strtol.
    rewrite (strtoll_decimal _ (msize f) 0 (0 :: B)); [done|done|done|lia].
Qed.

(** The slave when the last byte of [f] was read. *)
Definition loaded_slave sl (f : bytes) (m : master_link sel) (d0 : data) (sl' : slave data sel) : Prop :=
  sl_state sl' = REPL_CONNECTED /\ sl_master sl' = Some m /\ cached_master sl' = cached_master sl /\ dataset sl' = d0 /\ dump_file sl' = Some f.

Definition new_link sl (now : Z) (q : sdshdr) : master_link sel :=
  mkLink (newClient q) db0 (repl_master_runid sl) (repl_master_initial_offset sl) (repl_master_initial_offset sl =? -1) false now.

Lemma complete_spec pe sl io d f d0 : payload_ok pe d -> transfer_file sl = f -> load_dump f = Some d0 ->
  exists sl' q, payload_complete load_dump no_data db0 pe sl io = Some (Going sl' (Some io)) /\ sds_rep q [] /\ loaded_slave sl f (new_link sl (payload_unixtime pe) q) d0 sl'.
Proof.
  intros (_ & _ & Hr & Ha) Ef El. unfold payload_complete. rewrite Hr. cbn [negb transfer_file set_dataset]. rewrite Ef, El. destruct sdsempty_rep as (q & -> & Hq & _). cbn [obind].
  destruct (payload_aof pe) as [[|[|] starts]|]; [..|done|]; cbn [aof_retry Z.eqb Pos.eqb obind]; by eexists _, q.
Qed.

Lemma data_spec pe sl d f1 f2 net f d0 : sl_state sl = REPL_TRANSFER -> repl_transfer_size sl = msize f -> f = f1 ++ d ++ f2 -> transfer_file sl = f1 -> repl_transfer_read sl = msize f1 ->
  0 <= repl_transfer_last_fsync_off sl <= msize f1 -> msize f < 2 ^ 62 -> d <> [] -> msize d <= 4096 -> payload_ok pe d -> load_dump f = Some d0 ->
  exists sl', readSyncBulkPayload load_dump no_data db0 pe sl (net_io net) = Some (Going sl' (Some (net_io net))) /\
    if bool_decide (f2 = []) then exists q, sds_rep q [] /\ loaded_slave sl f (new_link sl (payload_unixtime pe) q) d0 sl'
    else sl_state sl' = REPL_TRANSFER /\ repl_transfer_size sl' = msize f /\ transfer_file sl' = f1 ++ d /\ repl_transfer_read sl' = msize (f1 ++ d) /\
      0 <= repl_transfer_last_fsync_off sl' <= msize (f1 ++ d) /\ repl_master_runid sl' = repl_master_runid sl /\ repl_master_initial_offset sl' = repl_master_initial_offset sl /\
      cached_master sl' = cached_master sl.
Proof.
  intros Est Es Ef Etf Er Hfs Hlen Hd Hdl Hok Hload. pose proof Hok as (Hrd & Hwr & _). pose proof (msize_nonneg f1). pose proof (msize_nonneg f2).
  assert (msize f = msize f1 + msize d + msize f2) as Hsz by (rewrite Ef; msolve). assert (0 < msize d) as Hd0 by (destruct d; [done|]; rewrite msize_cons; pose proof (msize_nonneg d); lia).
  unfold readSyncBulkPayload. rewrite Es, Er, (proj2 (Z.eqb_neq _ _)) by lia. rewrite ll_arith_Some by (unfold LLONG_MIN, LLONG_MAX; lia). cbn [obind]. set (readlen := if _ <? 4096 then _ else 4096).
  assert (msize d <= readlen <= 4096) as Hrl by (unfold readlen; destruct (Z.ltb_spec (msize f - msize f1) 4096); lia). rewrite Hrd. destruct d as [|x d]; [done|]. set (dd := x :: d) in *.
  rewrite (uint_id 64), (proj2 (Z.ltb_ge _ _)) by lia. destruct (split_at (zmalloc 4096) (msize dd)) as (z1 & z2 & Ez & Hz1); [unfold zmalloc; rewrite msize_fresh; lia|].
  rewrite (store_at [] z1 z2 (zmalloc 4096) 0 dd) by done. cbn [obind app]. rewrite (load_at [] dd z2 (dd ++ z2)) by done. cbn [obind repl_transfer_read repl_transfer_last_fsync_off set_lastio]. rewrite Hwr, Z.eqb_refl, Er. cbn [negb].
  rewrite ll_arith_Some by (unfold LLONG_MIN, LLONG_MAX; lia). cbn [obind]. rewrite ll_arith_Some by (unfold LLONG_MIN, LLONG_MAX, REPL_MAX_WRITTEN_BEFORE_FSYNC; lia). cbn [obind].
  cbn [sl_state repl_transfer_size repl_transfer_lastio transfer_file set_lastio set_transfer]. rewrite Es, Etf. set (fo := if _ >=? _ then _ else _). set (sl1 := set_transfer _ _ _ _ _ _ _).
  assert (0 <= fo <= msize f1 + msize dd) as Hfo by (unfold fo; destruct (_ >=? _); lia). case_bool_decide as Hf2.
  - subst f2. rewrite msize_nil in Hsz. rewrite (proj2 (Z.eqb_eq _ _)) by lia. destruct (complete_spec pe sl1 (net_io net) dd f d0 Hok) as (sl' & q & -> & Hq & Hl); [cbn; by rewrite Ef, app_nil_r|done|].
    exists sl'. split; [done|]. by exists q.
  - assert (0 < msize f2) by (destruct f2; [done|]; rewrite msize_cons; pose proof (msize_nonneg f2); lia). rewrite (proj2 (Z.eqb_neq _ _)) by lia. exists sl1. split; [done|]. rewrite msize_app. done.
Qed.

(** * The link *)

Lemma link_read now sl m d dt db c : sl_master sl = Some m -> d <> [] -> LLONG_MIN <= reploff m + msize d <= LLONG_MAX ->
  readQueryFromClient processCommand false maxlen (dataset sl, link_db m) (link_client m) (ReadData d) = Some ((dt, db), Some c) ->
  readQueryFromMaster processCommand false maxlen now sl (ReadData d) =
    Some (set_links (set_dataset sl (dump_file sl) dt) (sl_state sl) (Some (mkLink c db (replrunid m) (reploff m + msize d) (link_pre_psync m) (link_close_asap m) now)) (cached_master sl)).
Proof.
  intros Em Hd Ho E. unfold readQueryFromMaster. rewrite Em. cbn [obind]. unfold readQueryFromClient in E. destruct d as [|x d]; [done|]. destruct (_ <? _); [done|].
  destruct (store _ _ _) as [b|]; [|done]. cbn [obind] in *. destruct (sdsIncrLen _ _) as [q|]; [|done]. cbn [obind] in *. rewrite ll_arith_Some by exact Ho. cbn [obind link_client link_db].
  destruct (_ >? maxlen); [done|]. destruct (processInputBuffer _ _ _ _) as [[[dt1 db1] c1]|]; [|done]. cbn [obind] in *. by injection E as <- <- <-.
Qed.

Lemma net_inv_size exec cmds (s0 : data * sel) S errs st : net_inv exec cmds s0 S errs st -> msize st.2 <= msize S.
Proof.
  destruct st as [[s c] net]. intros (dn & rs & K0 & K & R & av & _ & _ & _ & -> & _). cbn [snd]. rewrite !msize_app. pose proof (msize_nonneg K0). pose proof (msize_nonneg K). pose proof (msize_nonneg av). lia.
Qed.

Section Stream.
Variable exec : data * sel -> list bytes -> data * sel.

(** The slave executes the commands [cmds] of the stream [S] from the state [s0]; [net] has the bytes it has not read, and [last] is its offset when it has read them. *)
Definition link_inv (id : bytes) (last : Z) (cmds : list (list bytes)) (s0 : data * sel) (S : bytes) sl (net : bytes) : Prop :=
  sl_state sl = REPL_CONNECTED /\ cached_master sl = None /\
  exists m, sl_master sl = Some m /\ replrunid m = id /\ reploff m + msize net = last /\ link_close_asap m = false /\
    net_inv exec cmds s0 S [] ((dataset sl, link_db m), link_client m, net).

Lemma link_event id last cmds s0 S sl d net now : commands_ok processCommand exec cmds -> Forall cmd_ok cmds -> 512 * 1024 * 1024 + REDIS_INLINE_MAX_SIZE <= maxlen ->
  LLONG_MIN <= last - msize (d ++ net) -> last <= LLONG_MAX ->
  link_inv id last cmds s0 S sl (d ++ net) -> d <> [] -> (forall m, sl_master sl = Some m -> msize d <= client_readlen (link_client m)) ->
  exists sl', readQueryFromMaster processCommand false maxlen now sl (ReadData d) = Some sl' /\ link_inv id last cmds s0 S sl' net /\ dump_file sl' = dump_file sl.
Proof.
  intros Hc Hok Hmax Hmin Hlast (Est & Eca & m & Em & Eid & Eo & Ecl & Hi) Hd Hl.
  destruct (read_event processCommand exec cmds maxlen Hc Hok Hmax s0 S [] _ _ d net Hi Hd (Hl m Em)) as ([dt db] & c & E & Hi').
  rewrite msize_app in *. pose proof (msize_nonneg net). pose proof (msize_nonneg d). eexists. split; [apply (link_read now sl m d dt db c Em Hd); [unfold LLONG_MIN, LLONG_MAX in *; lia|exact E]|].
  split; [|done]. split; [done|]. split; [done|]. eexists. split; [done|]. split; [done|]. split; [cbn; lia|]. done.
Qed.

(** More commands are sent. *)
Lemma link_grow id last cmds cmds' s0 S S' sl net : link_inv id last cmds s0 S sl net -> Forall cmd_ok cmds' -> stream cmds' S' ->
  link_inv id (last + msize S') (cmds ++ cmds') s0 (S ++ S') sl (net ++ S').
Proof.
  intros (Est & Eca & m & Em & Eid & Eo & Ecl & Hi) Hok HS. split; [done|]. split; [done|]. exists m. split; [done|]. split; [done|]. rewrite msize_app. split; [lia|]. split; [done|]. by apply net_inv_grow.
Qed.

(** * Connections *)

(** A slave connects: the connection is made, PING is sent, and its answer arrives. *)
Definition reconnect (ce : slave_cron_env) (he1 he2 : handshake_env) sl (io : sync_io) : option (slave data sel * option sync_io) :=
  let '(sl, ok) := connectWithMaster ce sl in
  if negb ok then Some (sl, None) else
  ' (sl, io) <- syncWithMaster he1 sl io;;
  match io with
  | Some io => syncWithMaster he2 sl io
  | None => Some (sl, None)
  end.

Definition s_ping : bytes := [80; 73; 78; 71; 13; 10].

(** What a slave sends when it connects. *)
Definition requests (he : handshake_env) (cached : option (master_link sel)) : bytes := s_ping ++ sent_before_psync he ++ join_words (psync_words cached) ++ crlf.

(** The connection is made, and the answers up to PSYNC accept the slave. *)
Record reachable_master (ce : slave_cron_env) (he1 he2 : handshake_env) (pong auth port_ok : bytes) : Prop := {
  rm_connect : connect_ok ce = true /\ connect_handler_ok ce = true;
  rm_socket : sockerr he1 = false;
  rm_handshake : handshake_ok he2;
  rm_answers : accepts he2 pong auth port_ok
}.

Lemma reconnect_psync ce he1 he2 sl io pong auth port_ok rest : reachable_master ce he1 he2 pong auth port_ok -> sl_state sl = REPL_CONNECT -> io_writes io = [] ->
  io_in io = before_psync he2 pong auth port_ok ++ rest ->
  exists sl1, sl_state sl1 = REPL_RECEIVE_PONG /\ cached_master sl1 = cached_master sl /\ sl_master sl1 = sl_master sl /\ dataset sl1 = dataset sl /\ dump_file sl1 = dump_file sl /\
    reconnect ce he1 he2 sl io = syncWithMaster he2 sl1 (mkIo (io_in io) (io_out io ++ s_ping) [] (io_error io)).
Proof.
  intros [[H1 H2] H3 H4 H5] Est Ew Ei. unfold reconnect, connectWithMaster. rewrite H1, H2. cbn [negb]. unfold syncWithMaster at 1. cbn [sl_state set_sl_state]. rewrite H3. unfold syncWrite. rewrite Ew. cbn [syncWrite_loop obind].
  eexists. split; [|split; [|split; [|split; [|split; [|done]]]]]; done.
Qed.

(** The temporary file can be made. *)
Definition can_download (he : handshake_env) : Prop := existsb Datatypes.id (take 5 (opens he)) = true /\ payload_handler_ok he = true.

Lemma reconnect_full ce he1 he2 sl io pong auth port_ok id o rest : reachable_master ce he1 he2 pong auth port_ok -> can_download he2 -> sl_state sl = REPL_CONNECT -> cached_ok (cached_master sl) ->
  io_writes io = [] -> io_in io = before_psync he2 pong auth port_ok ++ full_line id o ++ crlf ++ rest -> runid_ok id -> LLONG_MIN < o <= LLONG_MAX ->
  exists sl', reconnect ce he1 he2 sl io = Some (sl', Some (mkIo rest (io_out io ++ requests he2 (cached_master sl)) [] (io_error io))) /\
    sl_state sl' = REPL_TRANSFER /\ repl_transfer_size sl' = -1 /\ repl_transfer_read sl' = 0 /\ repl_transfer_last_fsync_off sl' = 0 /\ transfer_file sl' = [] /\
    repl_master_runid sl' = id ++ [0] /\ repl_master_initial_offset sl' = o /\ cached_master sl' = None.
Proof.
  intros Hm [Hd1 Hd2] Est Hc Ew Ei Hid Ho. destruct (reconnect_psync ce he1 he2 sl io pong auth port_ok _ Hm Est Ew Ei) as (sl1 & S1 & S2 & _ & _ & _ & ->). pose proof Hm as [_ _ Hh Ha].
  rewrite (handshake_psync he2 sl1 (mkIo (io_in io) (io_out io ++ s_ping) [] (io_error io)) pong auth port_ok (full_line id o ++ crlf ++ rest) Hh Ha S1 eq_refl Ei). cbn [io_out io_error].
  match goal with |- context [slaveTryPartialResynchronization he2 sl1 ?i] => rewrite (psync_full he2 sl1 i id o rest ltac:(by rewrite S2) eq_refl eq_refl Hid Ho) end.
  cbn [obind negb io_out io_error]. rewrite Hd1, Hd2. cbn [negb]. rewrite S2. eexists. split; [unfold requests; by rewrite <- !app_assoc|]. done.
Qed.

Lemma reconnect_partial ce he1 he2 sl io pong auth port_ok m rest : reachable_master ce he1 he2 pong auth port_ok -> sl_state sl = REPL_CONNECT -> cached_master sl = Some m -> cached_ok (Some m) ->
  io_writes io = [] -> io_in io = before_psync he2 pong auth port_ok ++ continue_word ++ crlf ++ rest ->
  exists sl', reconnect ce he1 he2 sl io = Some (sl', Some (mkIo rest (io_out io ++ requests he2 (Some m)) [] (io_error io))) /\
    sl_state sl' = REPL_CONNECTED /\ cached_master sl' = None /\ sl_master sl' = Some (resumed he2 m) /\ dataset sl' = dataset sl /\ dump_file sl' = dump_file sl.
Proof.
  intros Hm Est Em Hc Ew Ei. destruct (reconnect_psync ce he1 he2 sl io pong auth port_ok _ Hm Est Ew Ei) as (sl1 & S1 & S2 & _ & S4 & S5 & ->). pose proof Hm as [_ _ Hh Ha].
  rewrite (handshake_psync he2 sl1 (mkIo (io_in io) (io_out io ++ s_ping) [] (io_error io)) pong auth port_ok (continue_word ++ crlf ++ rest) Hh Ha S1 eq_refl Ei). cbn [io_out io_error]. rewrite Em in S2.
  match goal with |- context [slaveTryPartialResynchronization he2 sl1 ?i] => rewrite (psync_continue he2 sl1 i rest ltac:(by rewrite S2) eq_refl eq_refl) end.
  rewrite S2. cbn [obind io_out io_error]. eexists. split; [unfold requests; by rewrite <- !app_assoc|]. done.
Qed.

(** ** A connection is lost *)

Lemma net_inv_room exec' cmds (s0 : data * sel) S errs s c net : Forall cmd_ok cmds -> net_inv exec' cmds s0 S errs (s, c, net) ->
  net_inv exec' cmds s0 S errs (s, set_querybuf c (sdsMakeRoomFor (querybuf c) (client_readlen c)), net) /\ flags_ok (flags c).
Proof.
  intros Hok (dn & rs & K0 & K & R & av & Ec & Es & Hst & EL & Hpos & Hset & Hr & Hf & He). split; [|done]. exists dn, rs, K0, K, R, av. repeat (split; [done|]). split; [|done].
  assert (0 <= client_readlen c /\ msize av + client_readlen c < 2 ^ 30) as [H1 H2].
  { destruct rs as [|args more].
    - destruct Hpos as (_ & _ & -> & _ & (E1 & _)). unfold client_readlen. rewrite E1. cbn. done.
    - rewrite Ec in Hok. apply list.Forall_app in Hok as [_ Hk]. apply list.Forall_cons in Hk as [Ha _]. destruct (readlen_bounds c K R av net args more Ha Hpos Hset Hr) as (B1 & _ & B3). unfold REDIS_INLINE_MAX_SIZE in B3. lia. }
  cbn [querybuf set_querybuf]. by destruct (sdsMakeRoomFor_rep _ _ _ Hr H1 H2).
Qed.

(** The handlers of a master that continues can be installed. *)
Definition handlers_ok (he : handshake_env) : Prop := read_handler_ok he = true /\ (has_output he = true -> write_handler_ok he = true).

Lemma link_lost id last cmds s0 S sl net now r : Forall cmd_ok cmds -> link_inv id last cmds s0 S sl net -> r = ReadFailed \/ r = ReadData [] ->
  exists sl1 m, readQueryFromMaster processCommand false maxlen now sl r = Some sl1 /\ sl_state sl1 = REPL_CONNECT /\ sl_master sl1 = None /\ cached_master sl1 = Some m /\ dataset sl1 = dataset sl /\ dump_file sl1 = dump_file sl /\
    replrunid m = id /\ reploff m = last - msize net /\
    forall he sl2, handlers_ok he -> sl_state sl2 = REPL_CONNECTED -> cached_master sl2 = None -> sl_master sl2 = Some (resumed he m) -> dataset sl2 = dataset sl -> link_inv id last cmds s0 S sl2 net.
Proof.
  intros Hok (Est & Eca & m & Em & Eid & Eo & Ecl & Hi) Hr. destruct (net_inv_room _ _ _ _ _ _ _ _ Hok Hi) as [Hi' [Hf1 Hf2]]. unfold readQueryFromMaster. rewrite Em. cbn [obind].
  set (c1 := set_querybuf _ _) in *. assert (match r with ReadFailed | ReadData [] => freeMaster sl (set_link_client m c1) | _ => None end = Some (replicationHandleMasterDisconnection (set_links sl (sl_state sl) (sl_master sl) (Some (set_link_client m c1))))) as E.
  { unfold freeMaster, replicationCacheMaster. cbn [set_link_client link_client link_close_asap c1 flags set_querybuf]. rewrite Hf1, Hf2, Ecl, Em, Eca. by destruct Hr as [->| ->]. }
  eexists _, (set_link_client m c1). split; [destruct Hr as [->| ->]; exact E|]. split; [done|]. split; [done|]. split; [done|]. split; [done|]. split; [done|]. split; [done|]. split; [cbn; lia|].
  intros he sl2 [Hh1 Hh2] S1 S2 S3 S4. split; [done|]. split; [done|]. eexists. split; [exact S3|]. split; [done|]. split; [cbn; lia|]. split; [cbn; rewrite Hh1; cbn; destruct (has_output he); [by rewrite Hh2|done]|].
  rewrite S4. cbn [resumed link_client link_db set_link_client]. replace (close_flags c1 false) with c1; [done|]. unfold close_flags, set_flags, c1. destruct (link_client m) as [q t mb bl av [f1 f2 f3 f4 f5 f6] er]. cbn in *. by rewrite Hf2.
Qed.

(** * A full resynchronisation *)

Section Full.
Context (id : bytes) (off : Z) (f S : bytes) (cmds : list (list bytes)) (d0 : data).
Hypothesis Hcmd : commands_ok processCommand exec cmds.
Hypothesis Hok : Forall cmd_ok cmds.
Hypothesis HS : stream cmds S.
Hypothesis Hmax : 512 * 1024 * 1024 + REDIS_INLINE_MAX_SIZE <= maxlen.
Hypothesis Hf : f <> [] /\ msize f < 2 ^ 62.
Hypothesis Hload : load_dump f = Some d0.
Hypothesis Hoff : -1 <= off /\ off + msize S <= LLONG_MAX.

(** What is left to read before the dump is complete. *)
Definition download_inv sl (net : bytes) : Prop :=
  sl_state sl = REPL_TRANSFER /\ cached_master sl = None /\ repl_master_runid sl = id /\ repl_master_initial_offset sl = off /\
  exists f1 f2, f = f1 ++ f2 /\ f2 <> [] /\ transfer_file sl = f1 /\ repl_transfer_read sl = msize f1 /\ 0 <= repl_transfer_last_fsync_off sl <= msize f1 /\
    ((repl_transfer_size sl = -1 /\ f1 = [] /\ exists n, net = replicate n 10 ++ dump_header f ++ f ++ S) \/ (repl_transfer_size sl = msize f /\ net = f2 ++ S)).

Definition full_inv (st : slave data sel * bytes) : Prop :=
  download_inv st.1 st.2 \/ link_inv id (off + msize S) cmds (d0, db0) S st.1 st.2 /\ dump_file st.1 = Some f.

Lemma loaded_inv sl now q sl' : repl_master_runid sl = id -> repl_master_initial_offset sl = off -> cached_master sl = None -> sds_rep q [] ->
  loaded_slave sl f (new_link sl now q) d0 sl' -> link_inv id (off + msize S) cmds (d0, db0) S sl' S /\ dump_file sl' = Some f.
Proof.
  intros E1 E2 E3 Hq (H1 & H2 & H3 & H4 & H5). split; [|done]. split; [done|]. split; [congruence|]. eexists. split; [done|]. split; [done|]. split; [cbn; lia|]. split; [done|]. cbn. rewrite H4.
  apply (net_inv_start exec cmds (d0, db0) S (newClient q)); done.
Qed.

(** A line. *)
Lemma line_event pe sl net : download_inv sl net -> repl_transfer_size sl = -1 ->
  exists sl' net', readSyncBulkPayload load_dump no_data db0 pe sl (net_io net) = Some (Going sl' (Some (net_io net'))) /\ download_inv sl' net' /\ msize net' < msize net.
Proof.
  intros (Est & Eca & Eid & Eo & f1 & f2 & Ef & Hf2 & Etf & Er & Hfs & [(Es & -> & n & ->)|(Es & ->)]) Esz; [|pose proof (msize_nonneg f); lia]. cbn [app] in Ef. destruct n as [|n]; cbn [replicate app].
  - rewrite line_size by (try done; lia). eexists _, _. split; [done|]. split.
    + split; [done|]. split; [done|]. split; [done|]. split; [done|]. exists [], f. split; [done|]. split; [apply Hf|]. split; [done|]. split; [done|]. split; [done|]. by right.
    + rewrite !msize_app. unfold dump_header, count_bytes. rewrite msize_cons. pose proof (msize_nonneg (printf_d (msize f) ++ [13; 10])). lia.
  - rewrite line_newline by done. eexists _, _. split; [done|]. split; [|rewrite msize_cons; lia]. split; [done|]. split; [done|]. split; [done|]. split; [done|]. exists [], f2.
    split; [done|]. split; [done|]. split; [done|]. split; [done|]. split; [done|]. left. split; [done|]. split; [done|]. by exists n.
Qed.

(** A piece of the dump, which does not have bytes of the stream. *)
Lemma data_event pe sl d net : download_inv sl (d ++ net) -> repl_transfer_size sl <> -1 -> d <> [] -> msize d <= download_len sl -> payload_ok pe d ->
  exists sl', readSyncBulkPayload load_dump no_data db0 pe sl (net_io net) = Some (Going sl' (Some (net_io net))) /\ full_inv (sl', net).
Proof.
  intros (Est & Eca & Eid & Eo & f1 & f2 & Ef & Hf2 & Etf & Er & Hfs & [(Es & _)|(Es & En)]) Esz Hd Hdl Hp; [done|]. unfold download_len in Hdl. rewrite Es, Er, Ef, msize_app in Hdl.
  assert (exists f3, f2 = d ++ f3 /\ net = f3 ++ S) as (f3 & E2 & ->).
  { apply app_eq_app in En as (l & [[-> ->]|[-> ->]]); [|by exists l]. exists []. rewrite msize_app in Hdl. assert (l = []) as -> by (apply msize_0_nil; pose proof (msize_nonneg l); lia). by rewrite !app_nil_r. }
  subst f2. destruct (data_spec pe sl d f1 f3 (f3 ++ S) f d0 Est Es Ef Etf Er Hfs) as (sl' & E & Hs); [apply Hf|done|lia|done|done|]. exists sl'. split; [done|]. case_bool_decide as H3.
  - subst f3. destruct Hs as (q & Hq & Hl). right. by eapply loaded_inv.
  - destruct Hs as (H1 & H2 & H4 & H5 & H6 & H7 & H8 & H9). left. split; [done|]. split; [cbn [fst]; congruence|]. split; [cbn [fst]; congruence|]. split; [cbn [fst]; congruence|].
    exists (f1 ++ d), f3. split; [by rewrite <- app_assoc|]. split; [done|]. split; [done|]. split; [done|]. split; [done|]. by right.
Qed.

(** Events keep the invariant, and each reads something. *)
Lemma full_step st st' : full_inv st -> slave_event st st' -> full_inv st' /\ msize st'.2 < msize st.2.
Proof.
  intros Hi He. destruct He as [pe sl net sl' io Est Esz Hne E|pe sl d net sl' io Est Esz Hd Hdl Hp E|now sl m d net sl' Est Em Hd Hdl E]; unfold full_inv in Hi; cbn [fst snd] in *.
  - destruct Hi as [Hi|[(Est' & _) _]]; [|congruence]. destruct (line_event pe sl net Hi Esz) as (sl1 & net1 & E' & Hi' & Hlt). rewrite E in E'. injection E' as -> ->. split; [by left|done].
  - destruct Hi as [Hi|[(Est' & _) _]]; [|congruence]. destruct (data_event pe sl d net Hi Esz Hd Hdl Hp) as (sl1 & E' & Hi'). rewrite E in E'. injection E' as -> ->. split; [done|].
    cbn [net_io io_in]. rewrite msize_app. destruct d; [done|]. rewrite msize_cons. pose proof (msize_nonneg d). lia.
  - destruct Hi as [(Est' & _)|[Hi Hdf]]; [congruence|]. pose proof Hi as (_ & _ & m1 & _ & _ & _ & _ & Hn). destruct (link_event id (off + msize S) cmds (d0, db0) S sl d net now Hcmd Hok Hmax) as (sl1 & E' & Hi' & Edf); try done.
    + pose proof (net_inv_size exec cmds _ _ _ _ Hn). cbn [snd] in *. unfold LLONG_MIN. lia.
    + lia.
    + intros m2 E2. by rewrite Em in E2; injection E2 as <-.
    + rewrite E in E'. injection E' as ->. split; [right; cbn [fst snd]; by rewrite Edf|]. rewrite msize_app. destruct d; [done|]. rewrite msize_cons. pose proof (msize_nonneg d). lia.
Qed.

Lemma full_run st st' : full_inv st -> rtc slave_event st st' -> full_inv st'.
Proof. intros Hi Hr. induction Hr as [|a b c Hab _ IH]; [done|]. apply IH. by eapply full_step. Qed.

(** The bytes that the next read asks for. *)
Definition wanted sl : Z :=
  match sl_state sl with
  | REPL_TRANSFER => download_len sl
  | _ => match sl_master sl with Some m => client_readlen (link_client m) | None => 0 end
  end.

(** While there is something to read, a line or a piece of any size that the slave asks for can be read. *)
Definition ready sl (net : bytes) : Prop :=
  if bool_decide (sl_state sl = REPL_TRANSFER /\ repl_transfer_size sl = -1) then exists st', slave_event (sl, net) st'
  else 1 <= wanted sl /\ forall d net', net = d ++ net' -> d <> [] -> msize d <= wanted sl -> exists sl', slave_event (sl, net) (sl', net').

Lemma full_progress sl net : full_inv (sl, net) -> net <> [] -> ready sl net.
Proof.
  intros [Hi|[Hi _]] Hne; cbn [fst snd] in Hi; pose proof Hi as (Est & _); unfold ready, wanted; rewrite Est.
  - case_bool_decide as Hs; [destruct Hs as [_ Esz]|assert (repl_transfer_size sl <> -1) as Esz by (intros E; by apply Hs)].
    + destruct (line_event (mkPEnv ReadAgain 0 true 0 None) sl net Hi Esz) as (sl' & net' & E & _). exists (sl', net'). by eapply (event_line _ sl net sl' (net_io net')).
    + split.
      * destruct Hi as (_ & _ & _ & _ & f1 & f2 & Ef & Hf2 & _ & Er & _ & [(Es & _)|(Es & _)]); [done|]. destruct f2 as [|x f2]; [done|]. unfold download_len. rewrite Es, Er, Ef, msize_app, msize_cons. pose proof (msize_nonneg f2). lia.
      * intros d net' -> Hd Hdl. set (pe := mkPEnv (ReadData d) (msize d) true 0 None). assert (payload_ok pe d) as Hp by done.
        destruct (data_event pe sl d net' Hi Esz Hd Hdl Hp) as (sl' & E & _). exists sl'. exact (event_data pe sl d net' sl' (net_io net') Est Esz Hd Hdl Hp E).
  - rewrite bool_decide_eq_false_2 by by intros [? _]. pose proof Hi as (_ & _ & m & Em & _ & _ & _ & Hn). rewrite Em. split; [exact (net_inv_readlen exec cmds _ _ _ _ _ _ Hok Hn Hne)|].
    intros d net' -> Hd Hdl. destruct (link_event id (off + msize S) cmds (d0, db0) S sl d net' 0 Hcmd Hok Hmax) as (sl' & E & _); try done; [|lia|intros m2 E2; rewrite Em in E2; by injection E2 as <-|].
    + pose proof (net_inv_size exec cmds _ _ _ _ Hn). cbn [snd] in *. unfold LLONG_MIN. lia.
    + exists sl'. exact (event_link 0 sl m d net' sl' Est Em Hd Hdl E).
Qed.

(** At the end. *)
Lemma full_end sl : full_inv (sl, []) ->
  sl_state sl = REPL_CONNECTED /\ exists m, sl_master sl = Some m /\ (dataset sl, link_db m) = foldl exec (d0, db0) cmds /\ reploff m = off + msize S /\ replrunid m = id.
Proof.
  intros [Hi|[Hi _]]; cbn [fst snd] in Hi.
  - exfalso. destruct Hi as (_ & _ & _ & _ & f1 & f2 & _ & Hf2 & _ & _ & _ & [(_ & _ & n & E)|(_ & E)]); [|by destruct f2].
    symmetry in E. apply app_eq_nil in E as [_ E]. by apply app_eq_nil in E as [E _].
  - destruct Hi as (Est & _ & m & Em & Eid & Eo & _ & Hn). split; [done|]. exists m. split; [done|]. split; [by eapply net_inv_done|]. rewrite msize_nil in Eo. split; [lia|done].
Qed.

End Full.
End Stream.
End Run.
