(* ===== verification/SlaveSafe.v ===== *)
(** The states of a slave: the assertions of the code about them hold in every order of events, and what a slave does that trusts its master or cannot restart its append only file. *)

From stdpp Require Import relations.
From S2P Require Import Prelude Util Robj Sds SdsRep SdsArgs Rdb Networking NetworkingSpec Aof AofSpec RioSpec SlaveSync SlaveSpec SlaveRun.

Section Safe.
Context {HOST : Host} {data sel : Type}.
Variable load_dump : bytes -> option data.
Variable no_data : data.
Variable db0 : sel.
Variable processCommand : data * sel -> client -> option (data * sel * client * bool).
Variable clientsArePaused : bool.
Variable maxlen : Z.
Implicit Types sl : slave data sel.

(** There is a master exactly when the slave is connected, and no other one is cached then or during a transfer. *)
Definition slave_wf sl : Prop :=
  match sl_state sl with
  | REPL_CONNECTED => is_Some (sl_master sl) /\ cached_master sl = None
  | REPL_TRANSFER => sl_master sl = None /\ cached_master sl = None
  | _ => sl_master sl = None
  end.

(** An event of a slave: the timer, the events of the connection in the states in which their handlers are installed, and SLAVEOF when it cancels a handshake. *)
Inductive slave_op : slave data sel -> slave data sel -> Prop :=
  | op_cron ce sl sl' : slaveCron ce sl = Some sl' -> slave_op sl sl'
  | op_handshake he sl io sl' io' : sl_state sl = REPL_NONE \/ sl_state sl = REPL_CONNECTING \/ sl_state sl = REPL_RECEIVE_PONG -> syncWithMaster he sl io = Some (sl', io') -> slave_op sl sl'
  | op_payload pe sl io sl' io' : sl_state sl = REPL_TRANSFER -> readSyncBulkPayload load_dump no_data db0 pe sl io = Some (Going sl' io') -> slave_op sl sl'
  | op_link now sl r sl' : sl_state sl = REPL_CONNECTED -> readQueryFromMaster processCommand clientsArePaused maxlen now sl r = Some sl' -> slave_op sl sl'
  | op_cancel sl sl' b : cancelReplicationHandshake sl = Some (sl', b) -> slave_op sl sl'
  | op_discard sl : slave_op sl (replicationDiscardCachedMaster sl).

(** ** Each operation *)

Lemma abort_spec sl : sl_state sl = REPL_TRANSFER -> slave_wf sl -> exists sl', replicationAbortSyncTransfer sl = Some sl' /\ sl_state sl' = REPL_CONNECT /\ slave_wf sl'.
Proof. intros E W. unfold replicationAbortSyncTransfer, slave_wf in *. rewrite E in *. eexists. split; [done|]. split; [done|]. by apply W. Qed.

Lemma aborted_spec sl sl' io : aborted sl = Some (Going sl' io) -> slave_wf sl -> slave_wf sl'.
Proof.
  unfold aborted. intros E W. destruct (replicationAbortSyncTransfer sl) as [sl1|] eqn:E1; [|done]. cbn [obind] in E. injection E as <- _. unfold replicationAbortSyncTransfer, slave_wf in *.
  destruct (sl_state sl); try done. injection E1 as <-. by apply W.
Qed.

Lemma free_spec sl m m0 : slave_wf sl -> sl_state sl = REPL_CONNECTED -> sl_master sl = Some m0 -> exists sl', freeMaster sl m = Some sl' /\ sl_state sl' = REPL_CONNECT /\ slave_wf sl'.
Proof.
  unfold slave_wf. intros W E Em. rewrite E in W. destruct W as [_ Ec]. unfold freeMaster, replicationCacheMaster. rewrite Em, Ec. destruct (negb _); eexists; (split; [done|]); done.
Qed.

Lemma undo_spec sl : sl_state sl = REPL_CONNECTING \/ sl_state sl = REPL_RECEIVE_PONG -> slave_wf sl -> exists sl', undoConnectWithMaster sl = Some sl' /\ sl_state sl' = REPL_CONNECT /\ slave_wf sl'.
Proof. unfold undoConnectWithMaster, slave_wf. intros [E|E] W; rewrite E in *; eexists; done. Qed.

Lemma connect_wf ce sl : slave_wf sl -> sl_state sl = REPL_CONNECT -> slave_wf (connectWithMaster ce sl).1.
Proof. intros W E. unfold connectWithMaster. destruct (negb _); [done|]. destruct (negb _); [done|]. unfold slave_wf in *. by rewrite E in W. Qed.

Lemma cron_spec ce sl : slave_wf sl -> exists sl', slaveCron ce sl = Some sl' /\ slave_wf sl'.
Proof.
  intros W. unfold slaveCron. cbv beta zeta.
  assert (exists s1, (if masterhost sl && match sl_state sl with REPL_CONNECTING | REPL_RECEIVE_PONG => true | _ => false end && (cron_repl_timeout ce <? cron_time ce - repl_transfer_lastio sl) then undoConnectWithMaster sl else Some sl) = Some s1 /\ slave_wf s1) as (s1 & -> & W1).
  { destruct (_ && _ && _) eqn:Eb; [|by exists sl]. apply andb_true_iff in Eb as [[_ Eb]%andb_true_iff _]. destruct (undo_spec sl) as (s1 & ? & _ & ?); [revert Eb; destruct (sl_state sl); by auto|done|by exists s1]. }
  cbn [obind].
  assert (exists s2, (if masterhost s1 && match sl_state s1 with REPL_TRANSFER => true | _ => false end && (cron_repl_timeout ce <? cron_time ce - repl_transfer_lastio s1) then replicationAbortSyncTransfer s1 else Some s1) = Some s2 /\ slave_wf s2) as (s2 & -> & W2).
  { destruct (_ && _ && _) eqn:Eb; [|by exists s1]. apply andb_true_iff in Eb as [[_ Eb]%andb_true_iff _]. destruct (abort_spec s1) as (s2 & ? & _ & ?); [revert Eb; by destruct (sl_state s1)|done|by exists s2]. }
  cbn [obind].
  assert (exists s3, (if masterhost s2 && match sl_state s2 with REPL_CONNECTED => true | _ => false end then m <- sl_master s2;; (if cron_repl_timeout ce <? cron_time ce - link_lastinteraction m then freeMaster s2 m else Some s2) else Some s2) = Some s3 /\ slave_wf s3) as (s3 & -> & W3).
  { destruct (_ && _) eqn:Eb; [|by exists s2]. apply andb_true_iff in Eb as [_ Eb]. assert (sl_state s2 = REPL_CONNECTED) as Es by (revert Eb; by destruct (sl_state s2)).
    assert (is_Some (sl_master s2)) as [m Em] by (unfold slave_wf in W2; rewrite Es in W2; apply W2). rewrite Em. cbn [obind]. destruct (_ <? _); [|by exists s2]. destruct (free_spec s2 m m W2 Es Em) as (s3 & ? & _ & ?). by exists s3. }
  cbn [obind]. eexists. split; [done|]. destruct (sl_state s3) eqn:E3; try done. by apply connect_wf.
Qed.

Lemma cancel_spec sl : slave_wf sl -> exists sl' b, cancelReplicationHandshake sl = Some (sl', b) /\ slave_wf sl'.
Proof.
  intros W. unfold cancelReplicationHandshake. destruct (sl_state sl) eqn:E; try by eexists _, _.
  - destruct (undo_spec sl) as (s1 & -> & _ & ?); [by left|done|]. by eexists _, _.
  - destruct (undo_spec sl) as (s1 & -> & _ & ?); [by right|done|]. by eexists _, _.
  - destruct (abort_spec sl E W) as (s1 & -> & _ & ?). by eexists _, _.
Qed.

Lemma psync_wf he sl io sl' io' r : slave_wf sl -> sl_master sl = None -> slaveTryPartialResynchronization he sl io = Some (sl', io', r) ->
  match r with
  | PSYNC_CONTINUE => slave_wf sl'
  | _ => sl_master sl' = None /\ cached_master sl' = None
  end.
Proof.
  intros W Em. unfold slaveTryPartialResynchronization. destruct (match cached_master _ with Some _ => _ | None => _ end) as [[a1 a2]|]; [|done]. cbn [obind].
  destruct (sendSynchronousCommand _ _) as [[io1 reply]|]; [|done]. cbn [obind]. destruct (strneq _ _ _) as [[|]|]; [| |done]; cbn [obind].
  - destruct (fullresync_reply _) as [[[id v]|]|]; [..|done]; cbn [obind]; intros [= <- _ <-]; done.
  - destruct (strneq _ _ _) as [[|]|]; [| |done]; cbn [obind].
    + unfold replicationResurrectCachedMaster. destruct (cached_master _) as [m|]; [|done]. cbn [obind]. intros [= <- _ <-]. unfold slave_wf. by cbn.
    + by intros [= <- _ <-].
Qed.

Lemma state_wf sl st : sl_master sl = None -> st <> REPL_CONNECTED -> st <> REPL_TRANSFER -> slave_wf (set_sl_state sl st).
Proof. unfold slave_wf. cbn. by destruct st. Qed.

Lemma synchronise_wf he sl io sl' io' : slave_wf sl -> sl_master sl = None -> synchronise he sl io = Some (sl', io') -> slave_wf sl'.
Proof.
  intros W Em. unfold synchronise. destruct (send_auth he io) as [[io1 [|]]|]; [| |done]; cbn [obind negb]; [|intros [= <- _]; by apply state_wf].
  destruct (send_port he io1) as [io2|]; [|done]. cbn [obind]. destruct (slaveTryPartialResynchronization he sl io2) as [[[sl1 io3] r]|] eqn:E; [|done]. cbn [obind].
  pose proof (psync_wf he sl io2 sl1 io3 r W Em E) as Hp. destruct r; [by intros [= <- _]|..]; destruct Hp as [Hp1 Hp2].
  - cbn [negb]. repeat (destruct (negb _); [intros [= <- _]; by apply state_wf|]). intros [= <- _]. done.
  - destruct (syncWrite _ _) as [io4 ok]. repeat (destruct (negb _); [intros [= <- _]; by apply state_wf|]). intros [= <- _]. done.
Qed.

Lemma handshake_wf he sl io sl' io' : slave_wf sl -> sl_state sl = REPL_NONE \/ sl_state sl = REPL_CONNECTING \/ sl_state sl = REPL_RECEIVE_PONG -> syncWithMaster he sl io = Some (sl', io') -> slave_wf sl'.
Proof.
  intros W Hs. assert (sl_master sl = None) as Em by (unfold slave_wf in W; by destruct Hs as [E|[E|E]]; rewrite E in W). unfold syncWithMaster. destruct Hs as [E|[E|E]]; rewrite E; [by intros [= <- _]|..].
  - destruct (sockerr he); [intros [= <- _]; by apply state_wf|]. destruct (syncWrite _ _). intros [= <- _]. by apply state_wf.
  - destruct (sockerr he); [intros [= <- _]; by apply state_wf|]. destruct (receive_pong io) as [[io1 [|]]|]; [| |done]; cbn [obind negb]; [by eapply synchronise_wf|intros [= <- _]; by apply state_wf].
Qed.

Lemma complete_wf pe sl io sl' io' : sl_state sl = REPL_TRANSFER -> slave_wf sl -> payload_complete load_dump no_data db0 pe sl io = Some (Going sl' io') -> slave_wf sl'.
Proof.
  intros Es W. unfold payload_complete. destruct (negb _); [intros E; by eapply aborted_spec|]. destruct (load_dump _) as [d|]; [|intros E; eapply aborted_spec; [exact E|exact W]].
  destruct sdsempty as [q|]; [|done]. cbn [obind]. assert (cached_master sl = None) as Ec by (unfold slave_wf in W; rewrite Es in W; apply W).
  destruct (payload_aof pe) as [starts|]; [|intros [= <- _]; unfold slave_wf; by cbn]. destruct (aof_retry _ _ _) as [retry|]; [|done]. cbn [obind]. destruct (retry =? 0); [done|]. intros [= <- _]. unfold slave_wf. by cbn.
Qed.

Lemma payload_wf pe sl io sl' io' : sl_state sl = REPL_TRANSFER -> slave_wf sl -> readSyncBulkPayload load_dump no_data db0 pe sl io = Some (Going sl' io') -> slave_wf sl'.
Proof.
  intros Es W. assert (forall a b c d e, slave_wf (set_transfer sl (sl_state sl) a b c d e)) as Wt by done. unfold readSyncBulkPayload. destruct (_ =? -1).
  - unfold payload_line. destruct (syncReadLine _ _ _) as [[[io1 b] n]|]; [|done]. cbn [obind]. destruct (_ =? -1); [by intros E; eapply aborted_spec|]. destruct (load8 _ _) as [c|]; [|done]. cbn [obind].
    destruct (_ =? 45); [by intros E; eapply aborted_spec|]. destruct (_ =? 0); [by intros [= <- _]|]. destruct (negb _); [by intros E; eapply aborted_spec|].
    destruct (load _ _ _); [|done]. cbn [obind]. destruct (strtol _); [|done]. cbn [obind]. intros [= <- _]. apply Wt.
  - destruct (ll_arith _); [|done]. cbn [obind]. destruct (payload_read pe) as [[|x d]| |]; try by intros E; eapply aborted_spec.
    destruct (_ <? _); [done|]. destruct (store _ _ _); [|done]. cbn [obind]. destruct (load _ _ _); [|done]. cbn [obind]. destruct (negb _); [by intros E; eapply aborted_spec|].
    destruct (ll_arith _); [|done]. cbn [obind]. destruct (ll_arith _); [|done]. cbn [obind]. destruct (_ =? _); [|by intros [= <- _]]. by apply complete_wf.
Qed.

Lemma link_wf now sl r sl' : sl_state sl = REPL_CONNECTED -> slave_wf sl -> readQueryFromMaster processCommand clientsArePaused maxlen now sl r = Some sl' -> slave_wf sl'.
Proof.
  intros Es W. unfold readQueryFromMaster. destruct (sl_master sl) as [m|] eqn:Em; [|done]. cbn [obind].
  assert (forall m', freeMaster sl m' = Some sl' -> slave_wf sl') as Hfree by (intros m' E; destruct (free_spec sl m' m W Es Em) as (s1 & E1 & _ & ?); rewrite E in E1; by injection E1 as ->).
  assert (cached_master sl = None) as Ec by (unfold slave_wf in W; rewrite Es in W; apply W).
  destruct r as [[|x d]| |]; [by apply Hfree| |intros [= <-]; unfold slave_wf; cbn; by rewrite Es|by apply Hfree].
  destruct (_ <? _); [done|]. destruct (store _ _ _); [|done]. cbn [obind]. destruct (sdsIncrLen _ _); [|done]. cbn [obind]. destruct (ll_arith _); [|done]. cbn [obind]. destruct (_ >? _); [by apply Hfree|].
  destruct (processInputBuffer _ _ _ _) as [[[d1 db1] c1]|]; [|done]. cbn [obind]. intros [= <-]. unfold slave_wf. cbn. by rewrite Es.
Qed.

Lemma op_wf sl sl' : slave_wf sl -> slave_op sl sl' -> slave_wf sl'.
Proof.
  intros W Hop. revert W. destruct Hop as [ce s s' E|he s io s' io' Hs E|pe s io s' io' Hs E|now s r s' Hs E|s s' b E|s]; intros W.
  - destruct (cron_spec ce s W) as (s1 & E1 & W1). rewrite E in E1. by injection E1 as ->.
  - by eapply handshake_wf.
  - by eapply payload_wf.
  - by eapply link_wf.
  - destruct (cancel_spec s W) as (s1 & b1 & E1 & W1). rewrite E in E1. by injection E1 as -> ->.
  - unfold slave_wf in *. cbn. destruct (sl_state s); try done; by destruct W.
Qed.

Lemma ops_wf sl sl' : slave_wf sl -> rtc slave_op sl sl' -> slave_wf sl'.
Proof. intros W H. induction H as [|a b c Hab _ IH]; [done|]. apply IH. by eapply op_wf. Qed.

End Safe.

(** * Properties *)

Section Properties.
Context {HOST : Host} {data sel : Type}.

(** C13. In every state that a slave reaches by the timer, the handshake, the download, reads from its master, SLAVEOF and lost connections, in any order and with any results of system calls and any answers of the
    master: there is a master exactly when the slave is connected, and no other master is cached then or during a transfer. So no assertion about these states fails: the timer and the cancellation of a handshake are
    always defined, a transfer can be aborted, and a master that closes the connection can be freed or cached. *)
Theorem slave_states_safe (load_dump : bytes -> option data) (no_data : data) (db0 : sel) (processCommand : data * sel -> client -> option (data * sel * client * bool)) (paused : bool) (maxlen : Z) (sl0 sl : slave data sel) :
  slave_wf sl0 -> rtc (slave_op load_dump no_data db0 processCommand paused maxlen) sl0 sl ->
  slave_wf sl /\ (forall ce, is_Some (slaveCron ce sl)) /\ is_Some (cancelReplicationHandshake sl) /\
  (sl_state sl = REPL_TRANSFER -> exists sl', replicationAbortSyncTransfer sl = Some sl' /\ sl_state sl' = REPL_CONNECT) /\
  (sl_state sl = REPL_CONNECTED -> forall now, exists sl', readQueryFromMaster processCommand paused maxlen now sl ReadFailed = Some sl' /\ sl_state sl' = REPL_CONNECT).
Proof.
  intros W0 H. pose proof (ops_wf load_dump no_data db0 processCommand paused maxlen sl0 sl W0 H) as W. split; [done|]. split; [|split; [|split]].
  - intros ce. destruct (cron_spec ce sl W) as (sl' & -> & _). done.
  - destruct (cancel_spec sl W) as (sl' & b & -> & _). done.
  - intros Es. destruct (abort_spec sl Es W) as (sl' & E & ? & _). by exists sl'.
  - intros Es now. assert (is_Some (sl_master sl)) as [m Em] by (unfold slave_wf in W; rewrite Es in W; apply W). unfold readQueryFromMaster. rewrite Em. cbn [obind].
    match goal with |- context [freeMaster sl ?m1] => destruct (free_spec sl m1 m W Es Em) as (sl' & E & ? & _) end. by exists sl'.
Qed.

(** C39. The append only file after a transfer: when all ten attempts to start it fail, the server goes on without it although it should exit; when the tenth attempt succeeds, the server exits. *)
Theorem aof_restart_inverted (load_dump : bytes -> option data) (no_data : data) (db0 : sel) (r : read_result) (n now : Z) (sl : slave data sel) (io : sync_io) (d : data) : load_dump (transfer_file sl) = Some d ->
  (exists sl', payload_complete load_dump no_data db0 (mkPEnv r n true now (Some (replicate 10 false))) sl io = Some (Going sl' (Some io)) /\ sl_state sl' = REPL_CONNECTED) /\
  payload_complete load_dump no_data db0 (mkPEnv r n true now (Some (replicate 9 false ++ [true]))) sl io = Some Exited.
Proof.
  intros El. unfold payload_complete. cbn [rename_ok negb transfer_file set_dataset]. rewrite El. destruct sdsempty_rep as (q & -> & _). cbn [obind payload_aof]. split; [by eexists|done].
Qed.


End Properties.

(** * Examples *)

Section Examples.
Local Existing Instance le_host.

Definition ex_load (f : bytes) : option (list bytes) := Some [f].
Definition ex_process (s : list bytes * Z) (c : client) : option (list bytes * Z * client * bool) := Some (s, c, true).
Definition ex_slave (st : slave_state) : slave (list bytes) Z := mkSlave true st (-1) 0 0 0 [82; 0] [] 0 None None None [].

(** The slave connects, and the connection times out. *)
Lemma slave_states_safe_witness : exists sl, rtc (slave_op ex_load [] 0 ex_process false (1024 * 1024 * 1024)) (ex_slave REPL_CONNECT) sl /\ sl_state sl = REPL_CONNECTING /\ (forall ce, is_Some (slaveCron ce sl)).
Proof.
  set (ce := mkCronEnv 60 5 5 true true). set (sl := match slaveCron ce (ex_slave REPL_CONNECT) with Some sl => sl | None => ex_slave REPL_CONNECT end).
  assert (rtc (slave_op ex_load [] 0 ex_process false (1024 * 1024 * 1024)) (ex_slave REPL_CONNECT) sl) as H by (apply rtc_once, (op_cron _ _ _ _ _ _ ce); vm_compute; reflexivity).
  exists sl. split; [exact H|]. split; [vm_compute; reflexivity|].
  destruct (slave_states_safe ex_load [] 0 ex_process false (1024 * 1024 * 1024) (ex_slave REPL_CONNECT) sl) as (_ & Hc & _); [vm_compute; reflexivity|exact H|exact Hc].
Defined.

Lemma aof_restart_inverted_witness : payload_complete ex_load [] 0 (mkPEnv ReadAgain 0 true 5 (Some (replicate 9 false ++ [true]))) (ex_slave REPL_TRANSFER) (net_io []) = Some Exited.
Proof. apply (aof_restart_inverted ex_load [] 0 ReadAgain 0 5 (ex_slave REPL_TRANSFER) (net_io []) [[82; 0]]). vm_compute. reflexivity. Defined.


End Examples.
