(* ===== verification/ReplicaLink.v ===== *)
(** A master and a slave together: after a full resynchronisation, and after any number of partial ones, the slave has the data of the master. *)

From stdpp Require Import gmap relations.
From S2P Require Import Prelude Util Robj Sds SdsArgs SdsRep Rdb RioSpec Networking NetworkingSpec Aof AofSpec Reply ReplySpec ReplyOps ReplySend ReplyDefer ReplyHistory ReplyClients Replication Backlog ReplicationSpec FullSync FullSyncSpec ReplicaSystem ReplicaSpec ReplicaHistory SlaveSync SlaveSpec SlaveRun.

(** * What a slave makes of commands *)

(** The databases and the selected one after a command that the slave receives; [apply] is a command in its database. *)
Definition replay_exec {data} (apply : data -> command -> data) (s : data * option bytes) (args : list bytes) : data * option bytes :=
  match is_select args with
  | Some d => (s.1, Some d)
  | None => if bool_decide (args = [s_PING]) then s else (apply s.1 (s.2, args), s.2)
  end.

Lemma replay_fold {data} (apply : data -> command -> data) R : forall d db, foldl (replay_exec apply) (d, db) R = (foldl apply d (interp db R), db_after db R).
Proof.
  induction R as [|args R IH]; intros d db; [done|]. cbn [foldl interp db_after]. unfold replay_exec at 2. destruct (is_select args); cbn [fst snd]; [apply IH|].
  destruct (bool_decide _); [apply IH|]. cbn [foldl]. apply IH.
Qed.

Lemma full_answer id o : FULLRESYNC ++ id ++ [32] ++ printf_d o ++ [13; 10] = full_line id o ++ crlf.
Proof. unfold full_line. by rewrite <- !app_assoc. Qed.

Section Link.
Context {HOST : Host} {AL : Allocator} {LAWS : AllocatorLaws AL} {data : Type}.
Variable shared : sharedObjects.
Variable conf : repl_conf.
Variable dump_of : list command -> bytes -> Prop.
Variable apply : data -> command -> data.
Variable d0 : data.
Variable load_dump : bytes -> option data.
Variable no_data : data.
Variable processCommand : data * option bytes -> client -> option (data * option bytes * client * bool).
Variable maxlen : Z.

(** Commands do on the slave what they do on the master, a dump has the data it was made from, the query buffer may be as large as a request, and the run id has its form. *)
Record slave_model : Prop := {
  sm_commands : forall s c args, argv c = ObjSds <$> args -> processCommand s c = Some (replay_exec apply s args, c, true);
  sm_dump : forall l f, dump_of l f -> load_dump f = Some (foldl apply d0 l) /\ f <> [] /\ msize f < 2 ^ 62;
  sm_max : 512 * 1024 * 1024 + REDIS_INLINE_MAX_SIZE <= maxlen;
  sm_runid : runid_ok (runid conf)
}.

Lemma model_runid : slave_model -> Forall (fun x => x <> 0) (runid conf).
Proof. intros [_ _ _ [_ H]]. eapply list.Forall_impl; [exact H|]. naive_solver. Qed.

Lemma model_commands cmds : slave_model -> commands_ok processCommand (replay_exec apply) cmds.
Proof. intros H s c args _ E. by apply H. Qed.

Abbreviation event := (slave_event load_dump no_data None processCommand maxlen).
Abbreviation moffset y := (master_repl_offset (srv (fm (y_server y)))).

(** The invariant of a slave that reads [net]: it downloads the dump [f], or it has loaded it. *)
Definition copying (o : Z) (f : bytes) (R : list (list bytes)) (k : nat) (y : system) (sl : slave data (option bytes)) (net : bytes) : Prop :=
  full_inv None (replay_exec apply) (runid conf ++ [0]) o f (log_bytes R) R (foldl apply d0 (take k (y_log y))) (sl, net).

(** The slave has read everything. *)
Lemma copying_end o f R v k y sl : replays y v k R -> copying o f R k y sl [] ->
  sl_state sl = REPL_CONNECTED /\ dataset sl = foldl apply d0 (y_log y) /\ exists m, sl_master sl = Some m /\ replrunid m = runid conf ++ [0] /\ reploff m = o + msize (log_bytes R).
Proof.
  intros (Hk & Hi & _) Hc. destruct (full_end None (replay_exec apply) _ _ _ _ _ _ _ Hc) as (Est & m & Em & Ed & Eo & Eid). split; [done|]. split; [|by exists m].
  rewrite replay_fold in Ed. injection Ed as Ed _. by rewrite Ed, Hi, <- foldl_app, take_drop.
Qed.

(** The offset that follows the stream. *)
Lemma replays_offset y p k R : wf shared dump_of y -> has_backlog (y_server y) = true -> replays y (Some p) k R -> p - 1 + msize (log_bytes R) = moffset y /\ y_first y <= p.
Proof.
  intros (_ & _ & _ & (_ & _ & _ & Hb) & _) Eb (_ & _ & _ & Hp). destruct (Hp p eq_refl) as [Hr E]. unfold has_backlog in Eb. destruct (repl_backlog _); [|done]. destruct Hb as (D & _ & _ & Ho).
  rewrite E. unfold msize in *. rewrite length_drop. lia.
Qed.

Lemma online_backlog y i c : wf shared dump_of y -> slaves (fm (y_server y)) !! i = Some c -> has_backlog (y_server y) = true.
Proof. intros (_ & _ & _ & (_ & _ & _ & Hb) & _) Ec. unfold has_backlog. destruct (repl_backlog _); [done|]. by rewrite Hb in Ec. Qed.

(** ** A full resynchronisation *)

Section Full.
Context (y0 y : system) (i : nat) (c : rclient) (r : replica) (answer : bytes) (v : option Z).
Context (ce : slave_cron_env) (he1 he2 : handshake_env) (pong auth port_ok : bytes) (sl : slave data (option bytes)) (io : sync_io).
Hypothesis HM : slave_model.
Hypothesis H0 : new_system shared y0.
Hypothesis St : rtc (rstep shared conf dump_of) y0 y.
Hypothesis Ec : slaves (fm (y_server y)) !! i = Some c.
Hypothesis Er : y_replicas y !! i = Some r.
Hypothesis Eo : replstate c = REDIS_REPL_ONLINE.
Hypothesis Ecame : came r = Full answer v.
Hypothesis Hans : answer <> [].
Hypothesis Hv : match v with Some _ => moffset y < LLONG_MAX | None => msize (output y c r) < 2 ^ 32 end.
Hypothesis Hreach : reachable_master ce he1 he2 pong auth port_ok.
Hypothesis Hdown : can_download he2.
Hypothesis Est : sl_state sl = REPL_CONNECT.
Hypothesis Hca : cached_ok (cached_master sl).
Hypothesis Ew : io_writes io = [].
Hypothesis Ei : io_in io = before_psync he2 pong auth port_ok ++ output y c r.

(** The slave connects and starts to download. *)
Lemma full_start : exists sl1 net1 o f R k,
  reconnect ce he1 he2 sl io = Some (sl1, Some (mkIo net1 (io_out io ++ requests he2 (cached_master sl)) [] (io_error io))) /\ wf shared dump_of y /\
  replays y v k R /\ dump_of (take k (y_log y)) f /\ copying o f R k y sl1 net1 /\ 0 <= o /\ o + msize (log_bytes R) <= LLONG_MAX /\ forall p, v = Some p -> o = p - 1.
Proof.
  destruct (online_full shared conf dump_of y0 y i c r answer v (model_runid HM) H0 St Ec Er Eo Ecame) as (W & A & n & k & f & R & E & Hd & Hr). unfold announced in A. rewrite Ecame in A.
  destruct A as [A|(o & Ho & A & Hp)]; [done|]. rewrite full_answer in A. destruct (sm_dump HM _ _ Hd) as (Hl & Hf1 & Hf2). rewrite A in E. rewrite <- app_assoc in E. rewrite E in Ei.
  destruct (reconnect_full ce he1 he2 sl io pong auth port_ok (runid conf) o _ Hreach Hdown Est Hca Ew Ei (sm_runid HM)) as (sl1 & E1 & S1 & S2 & S3 & S4 & S5 & S6 & S7 & S8); [unfold LLONG_MIN; lia|].
  exists sl1, (newlines n ++ bulk_header f ++ f ++ log_bytes R), o, f, R, k. split; [exact E1|]. split; [done|]. split; [done|]. split; [done|]. split; [|split; [lia|split; [|done]]].
  - left. split; [done|]. split; [done|]. split; [done|]. split; [done|]. exists [], f. split; [done|]. split; [done|]. split; [done|]. split; [done|]. split; [cbn; rewrite S4, msize_nil; lia|].
    left. split; [done|]. split; [done|]. by exists n.
  - destruct v as [p|] eqn:Ev.
    + rewrite (Hp p eq_refl). destruct (replays_offset y p k R W (online_backlog y i c W Ec) Hr). lia.
    + pose proof (f_equal msize E) as Hs. rewrite !msize_app in Hs. pose proof (msize_nonneg (full_line (runid conf) o)). pose proof (msize_nonneg crlf). pose proof (msize_nonneg (newlines n)). pose proof (msize_nonneg (bulk_header f)). pose proof (msize_nonneg f).
      unfold LLONG_MAX in *. lia.
Qed.

End Full.

(** ** Any number of connections *)

(** A slave of a master that was new in the state [y0]: in the state [y] of the master, it has connected and [net] are the bytes it was sent and has not read.
    It was synchronised by a full resynchronisation whose background save was started for it, it reads, and each time it has lost the connection the master accepts its request to continue. *)
Inductive follows (y0 : system) : system -> slave data (option bytes) -> bytes -> Prop :=
  | follow_full y i c r answer p ce he1 he2 pong auth port_ok sl io sl' io' : rtc (rstep shared conf dump_of) y0 y -> slaves (fm (y_server y)) !! i = Some c -> y_replicas y !! i = Some r ->
      replstate c = REDIS_REPL_ONLINE -> came r = Full answer (Some p) -> answer <> [] -> moffset y < LLONG_MAX ->
      reachable_master ce he1 he2 pong auth port_ok -> can_download he2 -> sl_state sl = REPL_CONNECT -> cached_ok (cached_master sl) -> io_writes io = [] ->
      io_in io = before_psync he2 pong auth port_ok ++ output y c r -> reconnect ce he1 he2 sl io = Some (sl', Some io') -> follows y0 y sl' (io_in io')
  | follow_read y sl net sl' net' : follows y0 y sl net -> event (sl, net) (sl', net') -> follows y0 y sl' net'
  | follow_again y y' i c r m lost now ce he1 he2 pong auth port_ok sl net sl1 io sl' io' : follows y0 y sl net -> sl_state sl = REPL_CONNECTED -> sl_master sl = Some m ->
      lost = ReadFailed \/ lost = ReadData [] -> readQueryFromMaster processCommand false maxlen now sl lost = Some sl1 ->
      rtc (rstep shared conf dump_of) y y' -> slaves (fm (y_server y')) !! i = Some c -> y_replicas y' !! i = Some r -> replstate c = REDIS_REPL_ONLINE -> came r = Partial (reploff m + 1) ->
      moffset y' < LLONG_MAX -> reachable_master ce he1 he2 pong auth port_ok -> handlers_ok he2 -> io_writes io = [] ->
      io_in io = before_psync he2 pong auth port_ok ++ output y' c r -> reconnect ce he1 he2 sl1 io = Some (sl', Some io') -> follows y0 y' sl' (io_in io').

(** What holds for each of them. *)
Definition synced (y : system) (sl : slave data (option bytes)) (net : bytes) : Prop :=
  wf shared dump_of y /\ has_backlog (y_server y) = true /\ moffset y < LLONG_MAX /\
  exists p k f R, 0 < p /\ replays y (Some p) k R /\ dump_of (take k (y_log y)) f /\ copying (p - 1) f R k y sl net.

Section Synced.
Hypothesis HM : slave_model.

(** The facts that [SlaveRun] assumes. *)
Lemma copying_facts y p k f R : wf shared dump_of y -> has_backlog (y_server y) = true -> moffset y < LLONG_MAX -> 0 < p -> replays y (Some p) k R -> dump_of (take k (y_log y)) f ->
  commands_ok processCommand (replay_exec apply) R /\ Forall cmd_ok R /\ stream R (log_bytes R) /\ (f <> [] /\ msize f < 2 ^ 62) /\ load_dump f = Some (foldl apply d0 (take k (y_log y))) /\
  (-1 <= p - 1 /\ p - 1 + msize (log_bytes R) <= LLONG_MAX).
Proof.
  intros W Eb Hm Hp Hr Hd. destruct (sm_dump HM _ _ Hd) as (Hl & Hf). destruct (replays_offset y p k R W Eb Hr) as [Ho _]. pose proof Hr as (_ & _ & [Hc _] & _).
  split; [by apply model_commands|]. split; [done|]. split; [by apply log_bytes_stream|]. split; [done|]. split; [done|]. lia.
Qed.

Lemma synced_read y sl net sl' net' : synced y sl net -> event (sl, net) (sl', net') -> synced y sl' net'.
Proof.
  intros (W & Eb & Hm & p & k & f & R & Hp & Hr & Hd & Hc) He. split; [done|]. split; [done|]. split; [done|]. exists p, k, f, R. split; [done|]. split; [done|]. split; [done|].
  destruct (copying_facts y p k f R W Eb Hm Hp Hr Hd) as (F1 & F2 & F3 & F4 & F5 & F6). by destruct (full_step _ _ _ _ _ _ _ _ _ _ _ _ F1 F2 F3 (sm_max HM) F4 F5 F6 _ _ Hc He).
Qed.

(** A slave loses its connection and continues. *)
Lemma synced_again y y' i c r m lost now ce he1 he2 pong auth port_ok sl net io : synced y sl net -> sl_state sl = REPL_CONNECTED -> sl_master sl = Some m -> lost = ReadFailed \/ lost = ReadData [] ->
  rtc (rstep shared conf dump_of) y y' -> slaves (fm (y_server y')) !! i = Some c -> y_replicas y' !! i = Some r -> replstate c = REDIS_REPL_ONLINE -> came r = Partial (reploff m + 1) ->
  moffset y' < LLONG_MAX -> reachable_master ce he1 he2 pong auth port_ok -> handlers_ok he2 -> io_writes io = [] -> io_in io = before_psync he2 pong auth port_ok ++ output y' c r ->
  exists sl1 m1 sl' net', readQueryFromMaster processCommand false maxlen now sl lost = Some sl1 /\ cached_master sl1 = Some m1 /\ replrunid m1 = runid conf ++ [0] /\ reploff m1 = reploff m /\
    reconnect ce he1 he2 sl1 io = Some (sl', Some (mkIo net' (io_out io ++ requests he2 (Some m1)) [] (io_error io))) /\ synced y' sl' net'.
Proof.
  intros (W & Eb & Hm & p & k & f & R & Hp & Hr & Hd & Hc) Est Em Hlost St Ec Er Eo Ecame Hm' Hreach Hh Ew Ei. pose proof (model_runid HM) as Hrun.
  destruct Hc as [(Est' & _)|[Hi Hdf]]; cbn [fst snd] in *; [congruence|]. pose proof Hr as (_ & _ & [Hcok _] & _).
  destruct (link_lost processCommand maxlen (replay_exec apply) _ _ _ _ _ sl net now lost Hcok Hi Hlost) as (sl1 & m1 & E1 & S1 & _ & S2 & S3 & S6 & S4 & S5 & Hres).
  pose proof Hi as (_ & _ & m0 & Em0 & _ & Eoff & _ & Hn). rewrite Em in Em0. injection Em0 as <-. destruct (replays_offset y p k R W Eb Hr) as [Ho _]. pose proof (net_inv_size _ _ _ _ _ _ Hn) as Hsz. cbn [snd] in Hsz.
  pose proof (msize_nonneg net). destruct (resumed_stream shared conf dump_of Hrun y y' i c r p k R (reploff m + 1) W Eb Hr St Ec Er Eo Ecame) as (X & Hr' & Eout & Eb'); [lia|].
  assert (drop (Z.to_nat (reploff m + 1 - p)) (log_bytes (R ++ X)) = net ++ log_bytes X) as Edrop.
  { destruct Hn as (dn & rs & K0 & K & R1 & av & _ & _ & _ & EL & _). rewrite log_bytes_app, drop_grow by (unfold msize in *; lia). f_equal. rewrite EL, !app_assoc. apply drop_app_length'.
    pose proof (f_equal msize EL) as Hs. rewrite !msize_app in Hs. rewrite !length_app. unfold msize in *. lia. }
  rewrite Eout, Edrop in Ei. destruct (reconnect_partial ce he1 he2 sl1 io pong auth port_ok m1 (net ++ log_bytes X) Hreach S1 S2) as (sl' & E2 & T1 & T2 & T3 & T4 & T5); try done.
  { intros m2 [= <-]. split; [exists (runid conf); split; [apply HM|done]|]. unfold LLONG_MIN. lia. }
  exists sl1, m1, sl', (net ++ log_bytes X). split; [done|]. split; [done|]. split; [done|]. split; [lia|]. split; [done|]. pose proof (wf_reachable _ _ _ Hrun y y' W St) as W'.
  split; [done|]. split; [done|]. split; [done|]. destruct (log_grows shared conf dump_of y y' St) as (L & EL). pose proof Hr as (Hk & _). assert (take k (y_log y') = take k (y_log y)) as Et by (rewrite EL; by apply take_app_le).
  exists p, k, f, (R ++ X). split; [done|]. split; [done|]. rewrite Et. split; [done|]. right. cbn [fst snd]. rewrite Et. assert (Forall cmd_ok X) as HX by (destruct Hr' as (_ & _ & [HX _] & _); by apply Forall_app in HX as [_ ?]).
  pose proof (Hres he2 sl' Hh T1 T2 T3 ltac:(congruence)) as Hi2. pose proof (link_grow _ _ _ _ X _ _ (log_bytes X) _ _ Hi2 HX (log_bytes_stream X HX)) as Hi3.
  rewrite log_bytes_app, msize_app. rewrite Z.add_assoc. split; [done|]. congruence.
Qed.

Lemma follows_synced y0 y sl net : new_system shared y0 -> follows y0 y sl net -> synced y sl net.
Proof.
  intros H0. induction 1 as [y i c r answer p ce he1 he2 pong auth port_ok sl io sl' io' St Ec Er Eo Ecame Hans Hm Hreach Hdown Est Hca Ew Ei E|y sl net sl' net' _ IH He
    |y y' i c r m lost now ce he1 he2 pong auth port_ok sl net sl1 io sl' io' _ IH Est Em Hlost E1 St Ec Er Eo Ecame Hm Hreach Hh Ew Ei E2].
  - destruct (full_start y0 y i c r answer (Some p) ce he1 he2 pong auth port_ok sl io HM H0 St Ec Er Eo Ecame Hans Hm Hreach Hdown Est Hca Ew Ei) as (sl1 & net1 & o & f & R & k & E' & W & Hr & Hd & Hc & Ho & _ & Hp).
    rewrite E in E'. injection E' as -> ->. cbn [io_in]. pose proof (Hp p eq_refl) as ->. split; [done|]. split; [by eapply online_backlog|]. split; [done|]. exists p, k, f, R. split; [lia|done].
  - by eapply synced_read.
  - destruct (synced_again y y' i c r m lost now ce he1 he2 pong auth port_ok sl net io IH Est Em Hlost St Ec Er Eo Ecame Hm Hreach Hh Ew Ei) as (sl2 & m1 & sl3 & net3 & E3 & _ & _ & _ & E4 & Hs).
    rewrite E1 in E3. injection E3 as <-. rewrite E2 in E4. injection E4 as -> ->. done.
Qed.

(** A slave that is connected reads everything at once. *)
Lemma follows_reads y0 y sl net : new_system shared y0 -> follows y0 y sl net -> sl_state sl = REPL_CONNECTED -> net <> [] -> msize net <= wanted sl ->
  exists sl' m, follows y0 y sl' [] /\ sl_state sl' = REPL_CONNECTED /\ sl_master sl' = Some m /\ reploff m = moffset y.
Proof.
  intros H0 Hf Est Hne Hw. destruct (follows_synced y0 y sl net H0 Hf) as (W & Eb & Hm & p & k & f & R & Hp & Hr & Hd & Hc).
  destruct (copying_facts y p k f R W Eb Hm Hp Hr Hd) as (F1 & F2 & F3 & F4 & F5 & F6). pose proof (sm_max HM) as Hmax.
  pose proof (full_progress load_dump no_data None processCommand _ _ _ _ _ _ _ _ F1 F2 F3 Hmax F4 F5 F6 _ _ Hc Hne) as Hrd. unfold ready in Hrd. rewrite bool_decide_eq_false_2 in Hrd by (rewrite Est; by intros [? _]).
  destruct Hrd as [_ Hrd]. destruct (Hrd net [] ltac:(by rewrite app_nil_r) Hne Hw) as (sl' & He). destruct (full_step _ no_data _ _ _ _ _ _ _ _ _ _ F1 F2 F3 Hmax F4 F5 F6 _ _ Hc He) as [Hc' _].
  destruct (copying_end _ f R (Some p) k y sl' Hr Hc') as (H1 & _ & m & H3 & _ & H5). exists sl', m. split; [by eapply follow_read|]. split; [done|]. split; [done|]. rewrite H5. by destruct (replays_offset y p k R W Eb Hr).
Qed.

End Synced.
End Link.

(** * Properties *)

Section Properties.
Context {HOST : Host} {AL : Allocator} {LAWS : AllocatorLaws AL} {data : Type}.

(** C4. A slave that connects to a master in any state that is reached from a new one, and that the master answers with a full resynchronisation: it sends its requests, and whatever the sizes of the pieces in
    which it then reads what the master sends, it can always read on until it has read everything, each event reads something, and then it is connected, its data are the data of the master after all
    commands, and it has the run id of the master; where the background save was started for it, its offset is the offset of the master. *)
Theorem full_resync_copies_master (shared : sharedObjects) (conf : repl_conf) (dump_of : list command -> bytes -> Prop) (apply : data -> command -> data) (d0 : data) (load_dump : bytes -> option data)
    (no_data : data) (processCommand : data * option bytes -> client -> option (data * option bytes * client * bool)) (maxlen : Z)
    (y0 y : system) (i : nat) (c : rclient) (r : replica) (answer : bytes) (v : option Z) (ce : slave_cron_env) (he1 he2 : handshake_env) (pong auth port_ok : bytes)
    (sl : slave data (option bytes)) (io : sync_io) :
  slave_model conf dump_of apply d0 load_dump processCommand maxlen -> new_system shared y0 -> rtc (rstep shared conf dump_of) y0 y ->
  slaves (fm (y_server y)) !! i = Some c -> y_replicas y !! i = Some r -> replstate c = REDIS_REPL_ONLINE -> came r = Full answer v -> answer <> [] ->
  match v with Some _ => master_repl_offset (srv (fm (y_server y))) < LLONG_MAX | None => msize (output y c r) < 2 ^ 32 end ->
  reachable_master ce he1 he2 pong auth port_ok -> can_download he2 -> sl_state sl = REPL_CONNECT -> cached_ok (cached_master sl) -> io_writes io = [] ->
  io_in io = before_psync he2 pong auth port_ok ++ output y c r ->
  exists sl1 net1, reconnect ce he1 he2 sl io = Some (sl1, Some (mkIo net1 (io_out io ++ requests he2 (cached_master sl)) [] (io_error io))) /\
    forall sl2 net2, rtc (slave_event load_dump no_data None processCommand maxlen) (sl1, net1) (sl2, net2) ->
      (net2 <> [] -> ready load_dump no_data None processCommand maxlen sl2 net2) /\
      (forall st, slave_event load_dump no_data None processCommand maxlen (sl2, net2) st -> msize st.2 < msize net2) /\
      (net2 = [] -> sl_state sl2 = REPL_CONNECTED /\ dataset sl2 = foldl apply d0 (y_log y) /\
         exists m, sl_master sl2 = Some m /\ replrunid m = runid conf ++ [0] /\ (is_Some v -> reploff m = master_repl_offset (srv (fm (y_server y))))).
Proof.
  intros HM H0 St Ec Er Eo Ecame Hans Hv Hreach Hdown Est Hca Ew Ei.
  destruct (full_start shared conf dump_of apply d0 load_dump processCommand maxlen y0 y i c r answer v ce he1 he2 pong auth port_ok sl io HM H0 St Ec Er Eo Ecame Hans Hv Hreach Hdown Est Hca Ew Ei)
    as (sl1 & net1 & o & f & R & k & E & W & Hr & Hd & Hc & Ho1 & Ho2 & Hp). exists sl1, net1. split; [exact E|]. intros sl2 net2 Hrun.
  destruct (sm_dump _ _ _ _ _ _ _ HM _ _ Hd) as (Hl & Hf). pose proof Hr as (_ & _ & [Hcok _] & _). pose proof (model_commands _ _ _ _ _ _ _ R HM) as Hcmd. pose proof (log_bytes_stream R Hcok) as Hs.
  pose proof (sm_max _ _ _ _ _ _ _ HM) as Hmax. assert (-1 <= o /\ o + msize (log_bytes R) <= LLONG_MAX) as Ho by lia.
  pose proof (full_run _ no_data _ _ _ _ _ _ _ _ _ _ Hcmd Hcok Hs Hmax Hf Hl Ho _ _ Hc Hrun) as Hc2. split; [|split].
  - by eapply full_progress.
  - intros st Hst. by destruct (full_step _ no_data _ _ _ _ _ _ _ _ _ _ Hcmd Hcok Hs Hmax Hf Hl Ho _ _ Hc2 Hst).
  - intros ->. destruct (copying_end conf apply d0 o f R v k y sl2 Hr Hc2) as (H1 & H2 & m & H3 & H4 & H5). split; [done|]. split; [done|]. exists m. split; [done|]. split; [done|].
    intros [p Ev]. rewrite H5, (Hp p Ev). rewrite Ev in Hr. by destruct (replays_offset shared dump_of y p k R W (online_backlog shared dump_of y i c W Ec) Hr).
Qed.



End Properties.
