(* ===== verification/ReplicaLinkExample.v ===== *)
(** A slave that is synchronised, loses its connection and continues, on concrete data. *)

From stdpp Require Import gmap relations.
From S2P Require Import Prelude Util Robj Sds SdsArgs SdsRep Rdb RioSpec Networking NetworkingSpec Aof AofSpec Reply ReplySpec ReplyOps ReplySend ReplyDefer ReplyHistory ReplyClients Replication Backlog ReplicationSpec FullSync FullSyncSpec ReplicaSystem ReplicaSpec ReplicaHistory SlaveSync SlaveSpec SlaveRun ReplicaLink ReplicaExample.

Section Example.
Local Existing Instance le_host.
Local Existing Instance exact_allocator.
Local Existing Instance exact_laws.

(** * The master *)

Definition lk_conf : repl_conf := mkConf ex_runid 0 0.

(** The dump of the empty dataset. *)
Definition lk_dump (l : list command) (f : bytes) : Prop := l = [] /\ f = [82; 0].

(** PSYNC ? -1, SET k v, the end of the background save, and the transfer; then the slave is lost, INCR k is executed, and PSYNC with the offset 52. *)
Definition lk_s1 : sync_server := match syncCommand demo_env ex_fork lk_conf (ex_server false) demo_client [84; 85; 86]%positive false true with Some (s, _, _) => s | None => ex_server false end.
Definition lk_s2 : sync_server := match replicationFeedSlaves ex_shared demo_env (fm lk_s1) 0 [80; 81; 82]%positive with Some m => set_master lk_s1 m | None => lk_s1 end.
Definition lk_s3 : sync_server := match backgroundSaveDoneHandler ex_slave_env ex_fork lk_conf 0 (set_file lk_s2 (Some [82; 0])) 0 0 with Some s => s | None => lk_s2 end.
Definition lk_s4 : sync_server := match bulk_event ex_bulk_env lk_conf 0 lk_s3 0 with Some (s, _) => s | None => lk_s3 end.
Definition lk_s5 : sync_server := match free_slave_at lk_conf 0 lk_s4 0 with Some s => s | None => lk_s4 end.
Definition lk_s6 : sync_server := match replicationFeedSlaves ex_shared demo_env (fm lk_s5) 0 [87; 81]%positive with Some m => set_master lk_s5 m | None => lk_s5 end.
Definition lk_s7 : sync_server := match syncCommand demo_env ex_fork lk_conf lk_s6 demo_client [84; 90; 91]%positive false true with Some (s, _, _) => s | None => lk_s6 end.

Definition lk_answer : bytes := FULLRESYNC ++ ex_runid ++ [32] ++ printf_d 1 ++ [13; 10].
Definition lk_set : list bytes := [[83; 69; 84]; [107]; [118]].
Definition lk_incr : list bytes := [[73; 78; 67; 82]; [107]].
Definition lk_log1 : list command := [(Some [48], lk_set)].
Definition lk_log2 : list command := lk_log1 ++ [(Some [48], lk_incr)].
Definition lk_st1 : bytes := command_bytes (-1) 0 lk_set.
Definition lk_st2 : bytes := lk_st1 ++ command_bytes 0 0 lk_incr.
Definition lk_r1 : replica := mkReplica (Full lk_answer (Some 2)) lk_answer.
Definition lk_r4 : replica := mkReplica (Full lk_answer (Some 2)) (lk_answer ++ [36; 50; 13; 10; 82; 0]).
Definition lk_r7 : replica := mkReplica (Partial 52) CONTINUE.

Definition lk_y1 : system := mkSystem lk_s1 ex_held [] 0 [] 2 [lk_r1].
Definition lk_y2 : system := mkSystem lk_s2 ex_held lk_log1 0 lk_st1 2 [lk_r1].
Definition lk_y3 : system := mkSystem lk_s3 ex_held lk_log1 0 lk_st1 2 [lk_r1].
Definition lk_y4 : system := mkSystem lk_s4 ex_held lk_log1 0 lk_st1 2 [lk_r4].
Definition lk_y5 : system := mkSystem lk_s5 ex_held lk_log1 0 lk_st1 2 [].
Definition lk_y6 : system := mkSystem lk_s6 ex_held lk_log2 0 lk_st2 2 [].
Definition lk_y7 : system := mkSystem lk_s7 ex_held lk_log2 0 lk_st2 2 [lk_r7].

Abbreviation lk_step := (rstep ex_shared lk_conf lk_dump).

Lemma lk_proper_set : proper lk_set.
Proof. split; [done|split; [done|split; [done|split; [by vm_compute|repeat constructor; by vm_compute]]]]. Qed.

Lemma lk_proper_incr : proper lk_incr.
Proof. split; [done|split; [done|split; [done|split; [by vm_compute|repeat constructor; by vm_compute]]]]. Qed.

Lemma lk_s1_eq : syncCommand demo_env ex_fork lk_conf (ex_server false) demo_client [84; 85; 86]%positive false true = Some (lk_s1, None, lk_answer).
Proof.
  destruct (some_proj (syncCommand demo_env ex_fork lk_conf (ex_server false) demo_client [84; 85; 86]%positive false true) (fun x => (if x.1.2 then true else false, x.2)) (false, lk_answer) ltac:(vm_compute; reflexivity))
    as ([[s [c|]] out] & E & Hx); cbn [fst snd] in Hx; [discriminate Hx|]. injection Hx as ->. unfold lk_s1. rewrite E. reflexivity.
Qed.

Lemma lk_request (h : heap) v o1 o2 a1 : string_arg h 84%positive [80; 83; 89; 78; 67] -> string_arg h o1 a1 -> getLongLongFromObject h o2 = Some (Some v) -> request h [84%positive; o1; o2] true v.
Proof.
  intros H0 H1 H2. exists 84%positive, [80; 83; 89; 78; 67], [o1; o2]. split; [reflexivity|]. split; [exact H0|]. split; [vm_compute; reflexivity|]. intros _. exists o1, a1, o2, []. split; [reflexivity|]. split; [exact H1|exact H2].
Qed.

Lemma lk_step1 : lk_step ex_system lk_y1.
Proof.
  assert (lk_r1 = joins (ex_server false) lk_s1 (-1) lk_answer /\ master_repl_offset (srv (fm lk_s1)) + 1 = 2 /\ rdb_child lk_s1 = true) as (E1 & E2 & E3) by (split; [|split]; vm_compute; reflexivity).
  pose proof (step_sync ex_shared lk_conf lk_dump demo_env ex_fork (ex_server false) lk_s1 ex_held [] 0 [] 0 [] demo_client [84; 85; 86]%positive true (-1) lk_answer eq_refl ex_requester) as St.
  rewrite E2, E3, <- E1 in St. apply St; [|reflexivity|exact lk_s1_eq]. apply (lk_request _ _ _ _ [63]); [apply ex_text; vm_compute; reflexivity|apply ex_text; vm_compute; reflexivity|vm_compute; reflexivity].
Qed.

Lemma lk_heap1 : mheap (fm lk_s1) = ex_heap.
Proof. vm_compute. reflexivity. Qed.

Lemma lk_s2_eq : replicationFeedSlaves ex_shared demo_env (fm lk_s1) 0 [80; 81; 82]%positive = Some (fm lk_s2) /\ lk_s2 = set_master lk_s1 (fm lk_s2).
Proof.
  destruct (some_proj (replicationFeedSlaves ex_shared demo_env (fm lk_s1) 0 [80; 81; 82]%positive) (fun _ => true) true ltac:(vm_compute; reflexivity)) as (m & E & _).
  unfold lk_s2. rewrite E. split; reflexivity.
Qed.

Lemma lk_step2 : lk_step lk_y1 lk_y2.
Proof.
  assert (has_backlog lk_s1 = true /\ slaveseldb (srv (fm lk_s1)) = -1 /\ forallb (fun c => reply_bytes c =? 0) (slaves (fm lk_s1)) = true /\ master_repl_offset (srv (fm lk_s1)) = 1) as (E1 & E2 & E3 & E4)
    by (split; [|split; [|split]]; vm_compute; reflexivity).
  destruct lk_s2_eq as [E5 E6]. unfold lk_y2. rewrite E6.
  pose proof (step_command ex_shared lk_conf lk_dump demo_env lk_s1 (fm lk_s2) ex_held [] 0 [] 2 [lk_r1] 0 [80; 81; 82]%positive lk_set eq_refl) as St.
  rewrite E1, E2 in St. apply St; [|exact lk_proper_set|lia|reflexivity| |unfold offset_ok; rewrite E4; vm_compute; reflexivity|exact E5].
  - rewrite lk_heap1. split; [exact ex_shared_ok|]. constructor; [|constructor; [|constructor; [|constructor]]]; apply ex_has; vm_compute; reflexivity.
  - apply list.Forall_forall. intros c Hc. rewrite forallb_forall in E3. specialize (E3 c ltac:(by apply list_elem_of_In)). apply Z.eqb_eq in E3. unfold limit_ok. rewrite E3. vm_compute. reflexivity.
Qed.

Lemma lk_step3 : lk_step lk_y2 lk_y3.
Proof.
  destruct (some_proj (backgroundSaveDoneHandler ex_slave_env ex_fork lk_conf 0 (set_file lk_s2 (Some [82; 0])) 0 0) rdb_child false ltac:(vm_compute; reflexivity)) as (s & E & Hs).
  assert (s = lk_s3) as -> by (unfold lk_s3; rewrite E; reflexivity).
  assert (rdb_child lk_s2 = true /\ keep (lost ex_slave_env (0 =? 0) (Some [82; 0])) (slaves (fm lk_s2)) [lk_r1] = [lk_r1]) as [E3 E4] by (split; vm_compute; reflexivity).
  pose proof (step_saved ex_shared lk_conf lk_dump ex_slave_env ex_fork 0 lk_s2 (Some [82; 0]) lk_s3 ex_held lk_log1 0 lk_st1 2 [lk_r1] 0 E3 eq_refl) as St.
  rewrite Hs, E4 in St. apply St; [intros b [= <-]; reflexivity| |exact E]. intros _. exists [82; 0]. split; [reflexivity|]. split; reflexivity.
Qed.

Definition lk_c4 : rclient := default demo_client (slaves (fm lk_s4) !! 0%nat).

Lemma lk_c4_eq : slaves (fm lk_s4) !! 0%nat = Some lk_c4 /\ replstate lk_c4 = REDIS_REPL_ONLINE.
Proof.
  assert (option_map replstate (slaves (fm lk_s4) !! 0%nat) = Some REDIS_REPL_ONLINE) as H by (vm_compute; reflexivity). apply some_proj in H as (c & E & Hc). unfold lk_c4. rewrite E. split; [reflexivity|exact Hc].
Qed.

Lemma lk_step4 : lk_step lk_y3 lk_y4.
Proof.
  destruct (some_proj (bulk_event ex_bulk_env lk_conf 0 lk_s3 0) snd [36; 50; 13; 10; 82; 0] ltac:(vm_compute; reflexivity)) as ([s out] & E & Hs). cbn [snd] in Hs. subst out. assert (s = lk_s4) as -> by (unfold lk_s4; rewrite E; reflexivity).
  assert (option_map (fun c => bulk_handler (bulk c)) (slaves (fm lk_s3) !! 0%nat) = Some true) as H by (vm_compute; reflexivity). apply some_proj in H as (c & Ec & Hc).
  assert (after_event lk_s3 lk_s4 0 [36; 50; 13; 10; 82; 0] [lk_r1] = [lk_r4]) as E3 by (vm_compute; reflexivity).
  pose proof (step_bulk ex_shared lk_conf lk_dump ex_bulk_env 0 lk_s3 lk_s4 ex_held lk_log1 0 lk_st1 2 [lk_r1] 0 c _ Ec Hc E) as St. rewrite E3 in St. exact St.
Qed.

Lemma lk_run4 : rtc lk_step ex_system lk_y4.
Proof. eapply rtc_l; [exact lk_step1|]. eapply rtc_l; [exact lk_step2|]. eapply rtc_l; [exact lk_step3|]. apply rtc_once. exact lk_step4. Qed.

Lemma lk_step5 : lk_step lk_y4 lk_y5.
Proof.
  destruct (some_proj (free_slave_at lk_conf 0 lk_s4 0) (fun _ => true) true ltac:(vm_compute; reflexivity)) as (s & E & _). assert (s = lk_s5) as -> by (unfold lk_s5; rewrite E; reflexivity).
  exact (step_close ex_shared lk_conf lk_dump 0 lk_s4 lk_s5 ex_held lk_log1 0 lk_st1 2 [lk_r4] 0 E).
Qed.

Lemma lk_heap5 : mheap (fm lk_s5) = ex_heap.
Proof. vm_compute. reflexivity. Qed.

Lemma lk_step6 : lk_step lk_y5 lk_y6.
Proof.
  destruct (some_proj (replicationFeedSlaves ex_shared demo_env (fm lk_s5) 0 [87; 81]%positive) (fun _ => true) true ltac:(vm_compute; reflexivity)) as (m & E & _).
  assert (lk_s6 = set_master lk_s5 m) as E6 by (unfold lk_s6; rewrite E; reflexivity).
  assert (has_backlog lk_s5 = true /\ slaveseldb (srv (fm lk_s5)) = 0 /\ length (slaves (fm lk_s5)) = 0%nat /\ master_repl_offset (srv (fm lk_s5)) = 51) as (E1 & E2 & E3 & E4) by (split; [|split; [|split]]; vm_compute; reflexivity).
  unfold lk_y6. rewrite E6. pose proof (step_command ex_shared lk_conf lk_dump demo_env lk_s5 m ex_held lk_log1 0 lk_st1 2 [] 0 [87; 81]%positive lk_incr eq_refl) as St.
  rewrite E1, E2 in St. apply St; [|exact lk_proper_incr|lia|reflexivity| |unfold offset_ok; rewrite E4; vm_compute; reflexivity|exact E].
  - rewrite lk_heap5. split; [exact ex_shared_ok|]. constructor; [|constructor; [|constructor]]; apply ex_has; vm_compute; reflexivity.
  - destruct (slaves (fm lk_s5)); [constructor|discriminate E3].
Qed.

Lemma lk_heap6 : mheap (fm lk_s6) = ex_heap.
Proof. vm_compute. reflexivity. Qed.

Lemma lk_step7 : lk_step lk_y6 lk_y7.
Proof.
  destruct (some_proj (syncCommand demo_env ex_fork lk_conf lk_s6 demo_client [84; 90; 91]%positive false true) (fun x => (if x.1.2 then true else false, x.2)) (false, CONTINUE) ltac:(vm_compute; reflexivity))
    as ([[s [c|]] out] & E & Hx); cbn [fst snd] in Hx; [discriminate Hx|]. injection Hx as ->. assert (s = lk_s7) as -> by (unfold lk_s7; rewrite E; reflexivity).
  assert (has_backlog lk_s6 = true /\ rdb_child lk_s6 = false /\ rdb_child lk_s7 = false /\ master_repl_offset (srv (fm lk_s6)) = 72) as (E1 & E2 & E3 & E4) by (split; [|split; [|split]]; vm_compute; reflexivity).
  pose proof (step_sync ex_shared lk_conf lk_dump demo_env ex_fork lk_s6 lk_s7 ex_held lk_log2 0 lk_st2 2 [] demo_client [84; 90; 91]%positive true 52 CONTINUE eq_refl ex_requester) as St.
  rewrite E1, E2, E3, lk_heap6 in St. unfold joins in St. rewrite bool_decide_eq_true_2 in St by reflexivity. apply St; [|unfold offset_ok; rewrite E4; vm_compute; reflexivity|exact E].
  apply (lk_request _ _ _ _ ex_runid); [apply ex_text; vm_compute; reflexivity|apply ex_text; vm_compute; reflexivity|vm_compute; reflexivity].
Qed.

Definition lk_c7 : rclient := default demo_client (slaves (fm lk_s7) !! 0%nat).

Lemma lk_c7_eq : slaves (fm lk_s7) !! 0%nat = Some lk_c7 /\ replstate lk_c7 = REDIS_REPL_ONLINE.
Proof.
  assert (option_map replstate (slaves (fm lk_s7) !! 0%nat) = Some REDIS_REPL_ONLINE) as H by (vm_compute; reflexivity). apply some_proj in H as (c & E & Hc). unfold lk_c7. rewrite E. split; [reflexivity|exact Hc].
Qed.

Lemma lk_run7 : rtc lk_step lk_y4 lk_y7.
Proof. eapply rtc_l; [exact lk_step5|]. eapply rtc_l; [exact lk_step6|]. apply rtc_once. exact lk_step7. Qed.

(** * The slave *)

(** The data are the commands that were executed. *)
Definition lk_apply (d : list command) (x : command) : list command := d ++ [x].
Definition lk_load (f : bytes) : option (list command) := if bool_decide (f = [82; 0]) then Some [] else None.
Definition lk_command (s : list command * option bytes) (c : client) : option (list command * option bytes * client * bool) :=
  Some (replay_exec lk_apply s ((fun o => match o with ObjSds b => b | ObjInt _ => [] end) <$> argv c), c, true).

Definition lk_ce : slave_cron_env := mkCronEnv 60 5 5 true true.
Definition lk_he : handshake_env := mkHEnv false None 6379 [true] true true true false 5.
Definition lk_pong : bytes := [43; 80; 79; 78; 71].
Definition lk_ok : bytes := [43; 79; 75].
Definition lk_sl : slave (list command) (option bytes) := mkSlave true REPL_CONNECT 0 0 0 0 [] [] 0 None None None [].
Definition lk_io (y : system) (c : rclient) (r : replica) : sync_io := mkIo (before_psync lk_he lk_pong lk_ok lk_ok ++ output y c r) [] [] [].

Lemma lk_model : slave_model lk_conf lk_dump lk_apply [] lk_load lk_command (1024 * 1024 * 1024).
Proof.
  split.
  - intros s c args E. unfold lk_command. rewrite E, <- list_fmap_compose, list_fmap_id. reflexivity.
  - intros l f [-> ->]. split; [reflexivity|]. split; [done|reflexivity].
  - by vm_compute.
  - split; [reflexivity|]. cbn [lk_conf runid]. by repeat constructor.
Qed.

Lemma lk_reachable : reachable_master lk_ce lk_he lk_he lk_pong lk_ok lk_ok.
Proof.
  assert (forall l, Forall (fun c => 0 < c < 256 /\ c <> 10) l -> text l) as Ht by (intros l H; eapply list.Forall_impl; [exact H|]; intros x [? ?]; unfold is_byte; split; [lia|split; [lia|done]]).
  split; [done|done|split; [done|split; [by vm_compute|done]]|]. split; [|split]; (split; [apply Ht; repeat constructor; lia|]); [split; [by vm_compute|by eexists]|split; [by vm_compute|by eexists]|by vm_compute].
Qed.

Lemma lk_cached : cached_ok (cached_master lk_sl).
Proof. intros m [=]. Qed.

Lemma full_resync_copies_master_witness : exists sl1 net1, reconnect lk_ce lk_he lk_he lk_sl (lk_io lk_y4 lk_c4 lk_r4) = Some (sl1, Some (mkIo net1 ([] ++ requests lk_he (cached_master lk_sl)) [] [])) /\
  forall sl2, rtc (slave_event lk_load [] None lk_command (1024 * 1024 * 1024)) (sl1, net1) (sl2, []) -> dataset sl2 = lk_log1.
Proof.
  destruct lk_c4_eq as [E1 E2].
  destruct (full_resync_copies_master ex_shared lk_conf lk_dump lk_apply [] lk_load [] lk_command (1024 * 1024 * 1024) ex_system lk_y4 0 lk_c4 lk_r4 lk_answer (Some 2) lk_ce lk_he lk_he lk_pong lk_ok lk_ok lk_sl (lk_io lk_y4 lk_c4 lk_r4))
    as (sl1 & net1 & E & H).
  - exact lk_model.
  - exact ex_new.
  - exact lk_run4.
  - exact E1.
  - reflexivity.
  - exact E2.
  - reflexivity.
  - discriminate.
  - vm_compute. reflexivity.
  - exact lk_reachable.
  - split; reflexivity.
  - reflexivity.
  - exact lk_cached.
  - reflexivity.
  - reflexivity.
  - exists sl1, net1. split; [exact E|]. intros sl2 Hr. destruct (H sl2 [] Hr) as (_ & _ & He). destruct (He eq_refl) as (_ & Hd & _). exact Hd.
Defined.

(** The slave connects, reads the length, the dump and the stream. *)
Definition lk_connected : slave (list command) (option bytes) * bytes :=
  match reconnect lk_ce lk_he lk_he lk_sl (lk_io lk_y4 lk_c4 lk_r4) with Some (sl, Some io) => (sl, io_in io) | _ => (lk_sl, []) end.
Definition lk_pe : payload_env := mkPEnv (ReadData [82; 0]) 2 true 5 None.
Definition lk_payload (st : slave (list command) (option bytes) * bytes) (net : bytes) : slave (list command) (option bytes) * bytes :=
  match readSyncBulkPayload lk_load [] None lk_pe st.1 (net_io net) with Some (Going sl (Some io)) => (sl, io_in io) | _ => st end.
Definition lk_sized : slave (list command) (option bytes) * bytes := lk_payload lk_connected lk_connected.2.
Definition lk_loaded : slave (list command) (option bytes) * bytes := lk_payload lk_sized lk_st1.
Abbreviation lk_follows := (follows ex_shared lk_conf lk_dump lk_load [] lk_command (1024 * 1024 * 1024) ex_system).

Lemma lk_follows1 : lk_follows lk_y4 lk_connected.1 lk_connected.2.
Proof.
  destruct (some_proj (reconnect lk_ce lk_he lk_he lk_sl (lk_io lk_y4 lk_c4 lk_r4)) (fun x => if x.2 then true else false) true ltac:(vm_compute; reflexivity)) as ([sl [io|]] & E & Hx); cbn [snd] in Hx; [|discriminate Hx].
  assert (lk_connected = (sl, io_in io)) as -> by (unfold lk_connected; rewrite E; reflexivity). destruct lk_c4_eq as [E1 E2].
  eapply (follow_full ex_shared lk_conf lk_dump lk_load [] lk_command (1024 * 1024 * 1024) ex_system lk_y4 0 lk_c4 lk_r4 lk_answer 2 lk_ce lk_he lk_he lk_pong lk_ok lk_ok lk_sl (lk_io lk_y4 lk_c4 lk_r4));
    [exact lk_run4|exact E1|reflexivity|exact E2|reflexivity|discriminate|vm_compute; reflexivity|exact lk_reachable|split; reflexivity|reflexivity|exact lk_cached|reflexivity|reflexivity|exact E].
Qed.

Lemma lk_payload_eq st net net' : option_map (fun x => match x with Going _ (Some io) => Some (io_in io) | _ => None end) (readSyncBulkPayload lk_load [] None lk_pe st.1 (net_io net)) = Some (Some net') ->
  exists io, readSyncBulkPayload lk_load [] None lk_pe st.1 (net_io net) = Some (Going (lk_payload st net).1 (Some io)) /\ io_in io = net' /\ (lk_payload st net).2 = net'.
Proof.
  intros H. apply some_proj in H as ([sl [io|]|] & E & Hx); [|discriminate Hx|discriminate Hx]. injection Hx as Hx. exists io. unfold lk_payload. rewrite E. split; [reflexivity|]. split; exact Hx.
Qed.

Lemma lk_follows2 : lk_follows lk_y4 lk_sized.1 ([82; 0] ++ lk_st1).
Proof.
  destruct (lk_payload_eq lk_connected lk_connected.2 ([82; 0] ++ lk_st1) ltac:(vm_compute; reflexivity)) as (io & E & Ei & _). eapply follow_read; [exact lk_follows1|]. rewrite <- Ei.
  apply (event_line lk_load [] None lk_command _ lk_pe lk_connected.1 lk_connected.2 lk_sized.1 io); [vm_compute; reflexivity|vm_compute; reflexivity| |exact E].
  intros H. assert (msize lk_connected.2 = 56) as H1 by (vm_compute; reflexivity). rewrite H in H1. discriminate H1.
Qed.

Lemma lk_follows3 : lk_follows lk_y4 lk_loaded.1 lk_st1.
Proof.
  destruct (lk_payload_eq lk_sized lk_st1 lk_st1 ltac:(vm_compute; reflexivity)) as (io & E & Ei & _). eapply follow_read; [exact lk_follows2|].
  pose proof (event_data lk_load [] None lk_command (1024 * 1024 * 1024) lk_pe lk_sized.1 [82; 0] lk_st1 lk_loaded.1 io) as He. rewrite Ei in He.
  apply He; [vm_compute; reflexivity|vm_compute; discriminate|discriminate|vm_compute; discriminate|split; [reflexivity|split; [reflexivity|split; [reflexivity|exact I]]]|exact E].
Qed.

(** The whole stream can be read at once. *)
Lemma lk_wanted : sl_state lk_loaded.1 = REPL_CONNECTED /\ msize lk_st1 <= wanted lk_loaded.1.
Proof. split; vm_compute; [reflexivity|discriminate]. Qed.

Lemma lk_reads : exists sl m, lk_follows lk_y4 sl [] /\ sl_state sl = REPL_CONNECTED /\ sl_master sl = Some m /\ reploff m = 51.
Proof.
  destruct lk_wanted as [Est Hw]. destruct (follows_reads ex_shared lk_conf lk_dump lk_apply [] lk_load [] lk_command _ lk_model ex_system lk_y4 lk_loaded.1 lk_st1 ex_new lk_follows3 Est) as (sl & m & H1 & H2 & H3 & H4);
    [discriminate|exact Hw|]. assert (master_repl_offset (srv (fm (y_server lk_y4))) = 51) as E by (vm_compute; reflexivity).
  exists sl, m. split; [exact H1|]. split; [exact H2|]. split; [exact H3|]. rewrite H4. exact E.
Qed.



End Example.
